(* ===== verification/_CoqProject ===== *)
-Q . S2P
Prelude.v
Phys.v
Mmu.v
PageTable.v
Space.v
VirtCopy.v
Create.v
X86Mmu.v
X86Win.v
Arm64Mmu.v
X86Examples.v
OrdMap.v
UserMem.v
UserMemMaps.v
UserMemSpec.v
UserMemThm.v
UserMemClaims.v
UserMemExamples.v
Pool.v
PoolThm.v
PoolClaims.v
PoolExamples.v
Thread.v
ThreadThm.v
Sched.v
SchedThm.v
SyncOps.v
SyncThm.v
Unwind.v
UnwindThm.v
UnwindExamples.v
Arm64Unwind.v
Arm64UnwindThm.v
Arm64UnwindExamples.v
Paths.v
LinkedList.v
LinkedListThm.v
Objects.v
ObjectsThm.v
Registry.v
Filesystem.v
Locks.v
LocksThm.v
Iocp.v
IocpThm.v
GuestMem.v
Crt.v
CrtThm.v
Format.v
FormatThm.v
StringOps.v
StringThm.v
StringPoolThm.v
StringPool.v
StringExamples.v
Exception.v
ExceptionThm.v
ExceptionClaims.v
ExceptionExamples.v
RegOps.v
RegThm.v
VmOps.v
VmThm.v
VmExamples.v
Ports.v
PortsThm.v
PortsExamples.v
DispatchOps.v
DispatchThm.v
NameOps.v
NameThm.v
NameExamples.v
Loader.v
LoaderThm.v
IrpOps.v
IoOps.v
IoThm.v
CrtExamples.v
SyncExamples.v
StoreExamples.v
