(* ===== verification/Prelude.v ===== *)
(** * Kernemul: a verification development

    Kernemul runs Windows kernel drivers and user programs of x86-64 and AArch64
    on an emulated machine.  The guest's instructions run on a cpu back end
    (Unicorn, or the Windows hypervisor platform); everything the guest expects of
    a kernel is host code: page tables it writes into guest memory, pool, virtual
    memory, threads and their scheduler, dispatcher objects, unwinding, a registry
    and a filesystem, reached when the guest calls an exported function whose
    address is redirected to a handler.  The paths below are under src/src/.

    ** The parts and the files that model them

    - The machine's memory.  [Phys]: the physical memory interface of emu/emu.hpp
      as a class, and the one of emu/unicorn_base.hpp as its instance.  [Mmu]:
      emu/mmu.cpp.  [PageTable], [Space], [VirtCopy], [Create]: what the two MMUs
      share, over an entry format.  [X86Mmu], [Arm64Mmu]: emu/x86/mmu.cpp and
      emu/arm64/mmu.cpp, one definition per method.  [X86Win]: the recursive self
      map of kernel/win/x86_win.cpp and the addresses nt_data_globals.cpp computes
      in it.
    - Virtual memory of a process.  [OrdMap]: std::map of ranges.  [UserMem]:
      kernel/win/win_user_mem.cpp over a class of MMUs; [UserMemMaps],
      [UserMemSpec], [UserMemThm], [UserMemClaims]: its theory.  [VmOps], [VmThm]:
      the entry points of modules/nt_vm_ops.cpp over it, which reach guest memory
      through the class [GuestSpace].
    - Kernel pool.  [Pool]: kernel/win/pool.cpp and modules/nt_pool_ops.cpp over a
      class of address spaces; [PoolThm], [PoolClaims].
    - Threads.  [Thread]: the thread of kernel/thread_scheduler.hpp and
      kernel/win/thread.cpp, and the dispatcher objects of
      kernel/win/dispatcher.hpp.  [Sched]: the scheduler, as a step relation in
      which cpus, guest code and the clock interleave.  [SyncOps]:
      modules/nt_sync_ops.cpp and nt_wait_ops.cpp.  [Locks]:
      modules/nt_lock_ops.cpp and rundown.hpp.  [DispatchOps]:
      modules/nt_dispatch_ops.cpp, the objects behind handles and the keyed events.
      [ThreadThm], [SchedThm], [SyncThm], [LocksThm], [DispatchThm].
    - Unwinding.  [Unwind]: kernel/win/unwind/x64_unwind.cpp and unwind.cpp;
      [Arm64Unwind]: arm64_unwind.cpp; [UnwindThm], [Arm64UnwindThm].
      [DispatchOps] has timers and DPCs (modules/nt_timer_ops.cpp) and interrupt levels
      (nt_irql_ops.cpp) too.
    - Names.  [Paths]: strings and paths.  [LinkedList], [LinkedListThm]:
      kernel/win/linked_list.hpp.  [Objects]: win_obj_manager.cpp and
      win_handle_table.cpp; [ObjectsThm]: what making an object and opening it does;
      [NameOps], [NameThm]: modules/nt_object_ops.cpp and the callbacks on handles of
      win_kernel.hpp; [Iocp], [IocpThm]: modules/nt_iocp_ops.cpp, on top of it and of
      [SyncOps]; [Ports], [PortsThm]: modules/nt_lpc_ops.cpp, on top of it and of
      guest memory.  [Registry]: registry.cpp; [RegOps], [RegThm]: its
      entry points in modules/nt_reg_ops.cpp, over [Registry], [Objects] and
      [GuestMem].  [Filesystem]: filesystem.cpp; [Loader], [LoaderThm]: kernel/map.cpp and the
      modules of kernel/process.cpp and win/process.cpp, over its files, and the
      sections of modules/nt_vm_ops.cpp; [IrpOps]: irp.hpp, mdl.hpp and the
      requests to drivers of win_kernel.hpp; [IoOps]: modules/nt_io_ops.cpp over both,
      and the memory descriptor lists of nt_mem_ops.cpp; [IoThm]: their theory.  The
      devices of modules/nt_misc_ops.cpp are in [IrpOps], its notification states and
      callback objects in [IoOps].
    - Strings and the C runtime.  [GuestMem]: guest memory as the entry points see
      it, and the strings of util/string.hpp.  [Crt], [CrtThm]:
      modules/nt_crt_ops.cpp.  [Format], [FormatThm]: util/format.hpp, the printf
      of the guest.  [StringOps]: kernel/win/string.hpp and
      modules/nt_string_ops.cpp, over a pool they know by the class [GuestPool]
      and its laws; [StringThm], [StringPoolThm]: their theory; [StringPool]: the
      kernel pool is such a pool.
    - Exceptions.  [Exception]: kernel/win/exception.cpp, the frames of
      unwind.cpp, guest_call.hpp and the exception frames of x86_win.hpp and
      arm64_win.hpp; [ExceptionThm], [ExceptionClaims].
    - The files called Examples apply the theorems to concrete machines, and hold
      the behaviours in which the code departs from what it means to do.

    ** How the code is represented

    A w-bit integer is a [Z]; where an operation can leave its width the wrap is
    written out ([u64], [u32], [s32], and [+w], [-w] for addresses).  A class is a
    record of its members and a method a function on it, in the monad [st] of this
    file where the source can throw: what was changed before a throw stays
    changed.  A shared_ptr that is shared is a reference into a store.  A null
    pointer is [None].  Log lines are left out.  Libraries outside the repository
    are parameters: the entry format of ia32.hpp ([Ia32Laws]), the image readers of
    the pe library ([pe_x64], [pe_arm64]).

    ** What the theorems show

    - MMUs (C1, C3, C5 to C8, C11, C39): mapping, unmapping and reprotecting do what they
      say to every page of the range and nothing to any other address of any
      space; a new space has the kernel's half and nothing else; reads return what
      was written, across pages, or throw at the first unmapped one; the self map
      is right at every level.
    - User memory (C12 to C16, C33): each operation against a view that gives
      every address its reservation and protection, refusals and a throwing MMU
      included; the search for a free range ends and finds the lowest; through the
      entry points, a reservation is where and as long as the code says for what was
      asked, is reported as it is, and can be given back.
    - Objects and handles (C18, C29): a handle is fresh, stands for an object that
      is there, and the counts in the headers are right whatever was done; a walk
      over a directory gives each name under it once.
    - Pool (C19, C20): allocations are aligned and apart; a free ends exactly the
      allocation at its address.
    - Completion ports (C21): a port gives out what was posted to it, in order.
    - Ports (C36): a client and a server that are connected are the ends of two
      queues, for every interleaving of what they send and receive.
    - Files (C17): a file that is opened is a byte array with a cursor for each open,
      for every sequence of calls on it and whatever the guest does in between.
    - Filesystem (C22), lists (C32) and registry (C9, C37): the flat maps and the
      linked words act as the directory tree, sequence and key tree they stand
      for; a value set through a handle is the value queried through it.
    - C runtime and strings (C2, C10, C24, C26, C34): the bounded copies and
      printfs stay inside their buffer and end it, but for _snwprintf and _vsnwprintf
      when they cut; what they copy is the first 4096 characters of their source;
      a format is read for its literals and conversions, each printed with its
      argument; with a comparator of the guest that compares elements the sort sorts
      and the search finds; comparisons of counted strings are an order on what they
      hold; a conversion gives the string or leaves the destination alone.
    - Exceptions (C23, C35): once the kernel has an unwinder, the handler that takes
      an exception is the first one up the stack that would, and without one none is
      asked; the frame a handler is shown is on the stack, aligned and apart from
      what was there.
    - Threads (C25, C27, C28, C30): a wait that can be satisfied is, when what it
      waits on is signalled; the two sides of a keyed event pass each other whichever
      comes first; no thread runs twice at once in any interleaving; and a queued
      thread that is runnable is left there by at most as many turns of the scheduler
      as there were threads ahead of it.
    - Locks (C31): a push lock word refines the lock it encodes; releases of
      events, semaphores and mutexes hand over to exactly the first waiters.
    - Images (C4): loading ends although images import and forward to each other, and
      leaves every module it brought in relocated and bound, and all else alone.
    - Unwinding (C38, C40): the integer registers of the caller come back, on x86-64
      from the prologue or the body of a function whose info is not chained and whose
      frame pointer is set last, and on AArch64, with d8 to d15, from the body or an
      epilogue, for prologues without save_next.  What is left out the code gets
      wrong or does not treat; the Examples show how.

    ** Bounds

    Loops whose end the data gives are structural.  Where it does not, a bound is
    passed and the theorems say it is enough: [copy_fuel], one round per page
    touched; [pick_loop], one round per reservation; [for_each] and [size], one
    per entry; [directory_chain], the length of the path, which every round
    shortens; the unwinders' loops, the number of codes, of functions (a bisection)
    and the length of a chain; a guest's bisection, one round per bit of its count;
    printf, the length of its format; loading, one level for each name an image asks
    for.  The code's own bounds are kept as it has
    them: 4096 characters of a guest string, 64 frames of a dispatch,
    8 forwarders.  [out_of_fuel] is an error of the model alone, and the theorems that
    state a result exclude it.

    ** Not modelled

    The cpu back ends and the vcpu threads (third-party engines); main.cpp
    (host I/O); what is in a PE image (the pe library) and the api set schema;
    types_x64.hpp and types_arm64.hpp, generated layouts; symbols; logging; the creation of
    processes, which fills in structures with constants; the windows on physical
    memory; and the entry points that unpack guest
    structures and call the components above, or answer queries from tables.  A
    request to a driver is modelled up to the driver's own routine, which is guest
    code and a parameter.

    This first file holds the shared vocabulary. *)

From stdpp Require Export base tactics numbers list option.
From Stdlib Require Export ZArith Lia.
From stdpp Require Import options.

#[export] Set Default Goal Selector "!".

Declare Scope kern_scope.
Delimit Scope kern_scope with kern.

Open Scope Z_scope.

(** ** Machine integers

    [addr_t] and [std::size_t] are 64-bit; a value is a [Z] in range and every
    operation that can leave the range is followed by its wrap-around. *)

Definition u64 (x : Z) : Z := x mod 2 ^ 64.
Definition u32 (x : Z) : Z := x mod 2 ^ 32.
Definition u16 (x : Z) : Z := x mod 2 ^ 16.
Definition u8 (x : Z) : Z := x mod 2 ^ 8.

(** Two's complement reading of the low [w] bits. *)
Definition signed (w x : Z) : Z :=
  let y := x mod 2 ^ w in if y <? 2 ^ (w - 1) then y else y - 2 ^ w.
Definition s16 (x : Z) : Z := signed 16 x.
Definition s32 (x : Z) : Z := signed 32 x.
Definition s64 (x : Z) : Z := signed 64 x.

Notation "a '+w' b" := (u64 (a + b)) (at level 50, left associativity) : kern_scope.
Notation "a '-w' b" := (u64 (a - b)) (at level 50, left associativity) : kern_scope.

Definition in_u64 (x : Z) : Prop := 0 <= x < 2 ^ 64.

Lemma u64_small x : in_u64 x -> u64 x = x.
Proof. intros H. apply Z.mod_small, H. Qed.

Lemma u64_range x : in_u64 (u64 x).
Proof. apply Z.mod_pos_bound. lia. Qed.

Lemma u32_range x : 0 <= u32 x < 2 ^ 32.
Proof. apply Z.mod_pos_bound. lia. Qed.

Lemma u64_idemp x : u64 (u64 x) = u64 x.
Proof. apply u64_small, u64_range. Qed.

Lemma u64_sub_add x y : in_u64 x -> u64 (u64 (x - y) + y) = x.
Proof.
  intros H. unfold u64. rewrite Zplus_mod_idemp_l. replace (x - y + y) with x by lia. by apply Z.mod_small.
Qed.
Lemma u64_add_sub x y : in_u64 x -> u64 (u64 (x + y) - y) = x.
Proof.
  intros H. unfold u64. rewrite Zminus_mod_idemp_l. replace (x + y - y) with x by lia. by apply Z.mod_small.
Qed.

(** ** Alignment

    [x & ~(to - 1)] and [(x + to - 1) & ~(to - 1)]: the masks the code writes.
    [Z.lnot] has infinitely many ones above, which is the same mask on a
    64-bit [x]. *)

Definition align_down (x to : Z) : Z := Z.land x (Z.lnot (to - 1)).
Definition align_up (x to : Z) : Z := align_down (u64 (x + to - 1)) to.

Lemma align_down_pow2 x k : 0 <= k -> align_down x (2 ^ k) = 2 ^ k * (x / 2 ^ k).
Proof.
  intros Hk. unfold align_down.
  rewrite <- Z.ldiff_land, Z.sub_1_r, <- Z.ones_equiv, Z.ldiff_ones_r by lia.
  rewrite Z.shiftl_mul_pow2, Z.shiftr_div_pow2 by lia. lia.
Qed.

(** The alignments the program uses are all powers of two. *)
Definition pow2 (a : Z) : Prop := exists k, 0 <= k < 64 /\ a = 2 ^ k.

Lemma pow2_pos a : pow2 a -> 0 < a.
Proof. intros (k & Hk & ->). apply Z.pow_pos_nonneg; lia. Qed.

Lemma align_down_eq x a : pow2 a -> align_down x a = a * (x / a).
Proof. intros (k & Hk & ->). apply align_down_pow2. lia. Qed.

Lemma align_down_mod x a : pow2 a -> align_down x a mod a = 0.
Proof.
  intros Ha. pose proof (pow2_pos _ Ha). rewrite align_down_eq by done.
  rewrite Z.mul_comm. apply Z.mod_mul. lia.
Qed.

Lemma align_down_bounds x a : pow2 a -> align_down x a <= x < align_down x a + a.
Proof.
  intros Ha. pose proof (pow2_pos _ Ha). rewrite align_down_eq by done.
  pose proof (Z.div_mod x a ltac:(lia)). pose proof (Z.mod_pos_bound x a ltac:(lia)). lia.
Qed.

Lemma align_down_nonneg x a : pow2 a -> 0 <= x -> 0 <= align_down x a.
Proof.
  intros Ha Hx. pose proof (pow2_pos _ Ha). rewrite align_down_eq by done.
  pose proof (Z.div_pos x a ltac:(lia) ltac:(lia)). nia.
Qed.

Lemma align_down_id x a : pow2 a -> x mod a = 0 -> align_down x a = x.
Proof.
  intros Ha Hx. pose proof (pow2_pos _ Ha). rewrite align_down_eq by done.
  pose proof (Z.div_mod x a ltac:(lia)). lia.
Qed.

Lemma align_up_bounds x a :
  pow2 a -> 0 <= x -> x + a - 1 < 2 ^ 64 -> x <= align_up x a < x + a.
Proof.
  intros Ha Hx Hb. pose proof (pow2_pos _ Ha). unfold align_up.
  rewrite u64_small by (unfold in_u64; lia).
  pose proof (align_down_bounds (x + a - 1) a Ha). lia.
Qed.

Lemma align_up_mod x a : pow2 a -> align_up x a mod a = 0.
Proof. intros Ha. by apply align_down_mod. Qed.

Lemma align_up_id x a :
  pow2 a -> 0 <= x -> x + a - 1 < 2 ^ 64 -> x mod a = 0 -> align_up x a = x.
Proof.
  intros Ha Hx Hb Hm. pose proof (pow2_pos _ Ha).
  pose proof (align_up_bounds x a Ha Hx Hb). pose proof (align_up_mod x a Ha) as Hu.
  apply Z.mod_divide in Hm as [q ->]; [|lia]. apply Z.mod_divide in Hu as [r Hr]; [|lia].
  rewrite Hr in *. f_equal. nia.
Qed.

Lemma align_up_range x a : pow2 a -> 0 <= align_up x a < 2 ^ 64.
Proof.
  intros Ha. unfold align_up. pose proof (u64_range (x + a - 1)) as Hr. unfold in_u64 in Hr.
  pose proof (align_down_nonneg (u64 (x + a - 1)) a Ha ltac:(lia)).
  pose proof (align_down_bounds (u64 (x + a - 1)) a Ha). lia.
Qed.

Lemma pow2_4096 : pow2 0x1000.
Proof. exists 12. split; [lia|reflexivity]. Qed.
Lemma pow2_16 : pow2 16.
Proof. exists 4. split; [lia|reflexivity]. Qed.
Lemma pow2_64k : pow2 0x10000.
Proof. exists 16. split; [lia|reflexivity]. Qed.

Create HintDb kern.
#[export] Hint Resolve pow2_4096 pow2_16 pow2_64k align_up_mod align_down_mod : kern.
#[export] Hint Resolve u64_range pow2_pos : kern.

(** ** Little-endian bytes *)

Fixpoint le_val (bs : list Z) : Z :=
  match bs with [] => 0 | b :: t => b + 256 * le_val t end.

Fixpoint le_bytes (n : nat) (z : Z) : list Z :=
  match n with O => [] | S n => z mod 256 :: le_bytes n (z / 256) end.

Lemma length_le_bytes n z : length (le_bytes n z) = n.
Proof. revert z. induction n as [|n IH]; intros z; simpl; [done|]. by rewrite IH. Qed.

Lemma le_val_bytes n z : le_val (le_bytes n z) = z mod 256 ^ Z.of_nat n.
Proof.
  revert z. induction n as [|n IH]; intros z; [by rewrite Z.mod_1_r|].
  cbn [le_bytes le_val]. rewrite IH, Nat2Z.inj_succ, Z.pow_succ_r by lia.
  rewrite Z.rem_mul_r; lia.
Qed.

Definition is_byte (b : Z) : Prop := 0 <= b < 256.

Lemma le_val_range bs : Forall is_byte bs -> 0 <= le_val bs < 256 ^ Z.of_nat (length bs).
Proof.
  induction 1 as [|b bs Hb _ IH]; [simpl; lia|].
  cbn [le_val length]. rewrite Nat2Z.inj_succ, Z.pow_succ_r by lia. unfold is_byte in Hb. lia.
Qed.

Lemma le_bytes_val bs : Forall is_byte bs -> le_bytes (length bs) (le_val bs) = bs.
Proof.
  induction 1 as [|b bs Hb _ IH]; [done|]. cbn [le_val le_bytes length].
  replace (b + 256 * le_val bs) with (b + le_val bs * 256) by lia.
  rewrite Z.mod_add, Z.div_add by lia. unfold is_byte in Hb.
  rewrite Z.mod_small, Z.div_small, Z.add_0_l by lia. by rewrite IH.
Qed.

Lemma le_bytes_is_byte n z : Forall is_byte (le_bytes n z).
Proof.
  revert z. induction n as [|n IH]; intros z; simpl; constructor; [|done].
  apply Z.mod_pos_bound. lia.
Qed.

(** ** Errors and state

    A C++ function that can throw returns a [result]; the state it had reached
    when it threw is kept, since the mutation up to the throw is not undone. *)

Inductive error : Type :=
  | out_of_phys          (** "out of guest physical memory" *)
  | unmapped_va          (** "unmapped virtual address" *)
  | bad_space            (** "invalid address space type" *)
  | null_host            (** a null pointer to a host object is used: the emulator goes down *)
  | out_of_fuel.         (** the model's loop bound, never the code's *)

#[export] Instance error_eq_dec : EqDecision error.
Proof. solve_decision. Defined.

Inductive result (A : Type) : Type := Ok (a : A) | Throw (e : error).
Arguments Ok {A} a.
Arguments Throw {A} e.

Definition st (S A : Type) : Type := S -> result A * S.

Definition ret {S A} (a : A) : st S A := fun s => (Ok a, s).
Definition throw {S A} (e : error) : st S A := fun s => (Throw e, s).
Definition bind {S A B} (m : st S A) (k : A -> st S B) : st S B :=
  fun s => match m s with (Ok a, s') => k a s' | (Throw e, s') => (Throw e, s') end.
Definition get {S} : st S S := fun s => (Ok s, s).
Definition put {S} (s : S) : st S unit := fun _ => (Ok tt, s).
Definition modify {S} (f : S -> S) : st S unit := fun s => (Ok tt, f s).

Notation "'let!' x ':=' m 'in' k" := (bind m (fun x => k))
  (at level 10, x pattern, m at level 100, k at level 200) : kern_scope.
Notation "m ';;' k" := (bind m (fun _ => k))
  (at level 100, k at level 200, right associativity) : kern_scope.

Lemma bind_ok {S A B} (m : st S A) (k : A -> st S B) s a s' :
  m s = (Ok a, s') -> bind m k s = k a s'.
Proof. unfold bind. intros ->. done. Qed.

Lemma bind_throw {S A B} (m : st S A) (k : A -> st S B) s e s' :
  m s = (Throw e, s') -> bind m k s = (Throw e, s').
Proof. unfold bind. intros ->. done. Qed.

Lemma bind_inv_ok {S A B} (m : st S A) (k : A -> st S B) s b s'' :
  bind m k s = (Ok b, s'') -> exists a s', m s = (Ok a, s') /\ k a s' = (Ok b, s'').
Proof. unfold bind. destruct (m s) as [[a|e] s'] eqn:E; [|done]. eauto. Qed.

(** What a computation leaves behind, whichever way it ends: [Q] when it
    returns, [E] when it throws. *)
Definition wp {S A} (m : st S A) (s : S) (Q : A -> S -> Prop) (E : error -> S -> Prop) : Prop :=
  match m s with (Ok a, s') => Q a s' | (Throw e, s') => E e s' end.

Lemma wp_bind {S A B} (m : st S A) (k : A -> st S B) s Q E :
  wp m s (fun a s' => wp (k a) s' Q E) E -> wp (bind m k) s Q E.
Proof. unfold wp, bind. by destruct (m s) as [[a|e] s']. Qed.

Lemma wp_mono {S A} (m : st S A) s (Q Q' : A -> S -> Prop) (E E' : error -> S -> Prop) :
  wp m s Q E -> (forall a s', Q a s' -> Q' a s') -> (forall e s', E e s' -> E' e s') ->
  wp m s Q' E'.
Proof. unfold wp. destruct (m s) as [[a|e] s']; auto. Qed.

Lemma wp_assoc {S A B C} (m : st S A) (f : A -> st S B) (g : B -> st S C) s Q E :
  wp (bind (bind m f) g) s Q E -> wp (bind m (fun a => bind (f a) g)) s Q E.
Proof. unfold wp, bind. by destruct (m s) as [[a|e] s']. Qed.

Lemma wp_ok {S A} (m : st S A) s Q E a s' : wp m s Q E -> m s = (Ok a, s') -> Q a s'.
Proof. unfold wp. intros H Hm. by rewrite Hm in H. Qed.

(** Walks down a computation that is known to have returned. *)
Ltac inv_bind H :=
  let a := fresh "a" in let s := fresh "s" in let E := fresh "E" in
  apply bind_inv_ok in H as (a & s & E & H).

(** ** Lists *)

(** [dst] with its head overwritten by [src]: a [memcpy] into the front of a
    buffer that is at least as long. *)
Definition blit (off : nat) (src dst : list Z) : list Z :=
  take off dst ++ src ++ drop (off + length src) dst.

Lemma length_blit off src dst :
  (off + length src <= length dst)%nat -> length (blit off src dst) = length dst.
Proof. intros H. unfold blit. rewrite !length_app, length_take, length_drop. lia. Qed.

Lemma slice_blit_same off src dst :
  (off + length src <= length dst)%nat ->
  take (length src) (drop off (blit off src dst)) = src.
Proof.
  intros H. unfold blit. rewrite drop_app_length' by (rewrite length_take; lia).
  by rewrite take_app_length.
Qed.

Lemma slice_blit_before off src dst o n :
  (off + length src <= length dst)%nat -> (o + n <= off)%nat ->
  take n (drop o (blit off src dst)) = take n (drop o dst).
Proof.
  intros H Hn. unfold blit. rewrite !take_drop_commute.
  f_equal. rewrite take_app_le by (rewrite length_take; lia). rewrite take_take. f_equal. lia.
Qed.

Lemma slice_blit_after off src dst o n :
  (off + length src <= length dst)%nat -> (off + length src <= o)%nat ->
  take n (drop o (blit off src dst)) = take n (drop o dst).
Proof.
  intros H Hn. unfold blit. rewrite app_assoc, drop_app_ge by (rewrite length_app, length_take; lia).
  rewrite length_app, length_take, drop_drop. do 2 f_equal. lia.
Qed.

Lemma lookup_blit off src dst j :
  (off + length src <= length dst)%nat ->
  blit off src dst !! j =
    if decide (off <= j < off + length src)%nat then src !! (j - off)%nat else dst !! j.
Proof.
  intros H. unfold blit. case_decide as Hd.
  - rewrite lookup_app_r by (rewrite length_take; lia). rewrite length_take, Nat.min_l by lia.
    by rewrite lookup_app_l by lia.
  - destruct (decide (j < off)%nat).
    + rewrite lookup_app_l by (rewrite length_take; lia). by rewrite lookup_take_lt by lia.
    + rewrite lookup_app_r by (rewrite length_take; lia). rewrite length_take, Nat.min_l by lia.
      rewrite lookup_app_r by lia. rewrite lookup_drop. f_equal. lia.
Qed.

Lemma Forall_blit P off src dst : Forall P src -> Forall P dst -> Forall P (blit off src dst).
Proof. intros Hs Hd. unfold blit. rewrite !Forall_app. auto using Forall_take, Forall_drop. Qed.

#[export] Hint Resolve length_le_bytes le_bytes_is_byte Forall_blit : kern.
