(* ===== verification/Phys.v ===== *)
(** * Guest physical memory

    The interface the MMUs use ([emu::map_phys_mem], [read_phys_mem] and
    [write_phys_mem] of emu/emu.hpp) as a class with its laws, and the Unicorn
    backend of emu/unicorn_base.hpp, which keeps a map from region base to the
    region's bytes, as the instance that discharges them. *)

From S2P Require Import Prelude.
From stdpp Require Import gmap.
From stdpp Require Import options.

Open Scope Z_scope.
Open Scope kern_scope.

(** ** The interface *)

Class PhysMem (M : Type) : Type := {
  map_phys_mem : Z -> Z -> M -> M;
  (** [buf] is the caller's buffer as it was: bytes nothing backs are left alone. *)
  read_phys_mem : M -> Z -> list Z -> list Z;
  write_phys_mem : Z -> list Z -> M -> M
}.

(** A frame is 4096 bytes at a multiple of 4096. *)
Definition frame_aligned (f : Z) : Prop := f mod 0x1000 = 0.

(** The [n] bytes at [a] lie in the frame [f]. *)
Definition in_frame (f a : Z) (n : nat) : Prop := f <= a /\ a + Z.of_nat n <= f + 0x1000.

(** What a backend promises about accesses that stay inside one backed frame. *)
Class PhysMemLaws (M : Type) `{PhysMem M} : Type := {
  pm_inv : M -> Prop;
  backed : M -> Z -> Prop;
  pm_read_length m a buf : length (read_phys_mem m a buf) = length buf;
  pm_read_bytes m f a buf :
    pm_inv m -> backed m f -> frame_aligned f -> in_frame f a (length buf) ->
    Forall is_byte (read_phys_mem m a buf);
  pm_read_buf m f a buf buf' :
    pm_inv m -> backed m f -> frame_aligned f -> in_frame f a (length buf) ->
    length buf = length buf' -> read_phys_mem m a buf = read_phys_mem m a buf';
  pm_read_lookup m f a buf j :
    pm_inv m -> backed m f -> frame_aligned f -> in_frame f a (length buf) -> (j < length buf)%nat ->
    read_phys_mem m a buf !! j = read_phys_mem m (a + Z.of_nat j) [0] !! 0%nat;
  pm_write_inv m f a bs :
    pm_inv m -> backed m f -> frame_aligned f -> in_frame f a (length bs) ->
    Forall is_byte bs -> pm_inv (write_phys_mem a bs m);
  pm_write_backed m a bs g : backed (write_phys_mem a bs m) g <-> backed m g;
  pm_read_write_same m f a bs buf :
    pm_inv m -> backed m f -> frame_aligned f -> in_frame f a (length bs) ->
    Forall is_byte bs ->
    length buf = length bs -> read_phys_mem (write_phys_mem a bs m) a buf = bs;
  pm_read_write_other m f a bs g b buf :
    pm_inv m -> backed m f -> frame_aligned f -> in_frame f a (length bs) ->
    Forall is_byte bs -> backed m g -> frame_aligned g -> in_frame g b (length buf) ->
    b + Z.of_nat (length buf) <= a \/ a + Z.of_nat (length bs) <= b ->
    read_phys_mem (write_phys_mem a bs m) b buf = read_phys_mem m b buf;
  pm_map_inv m a n :
    pm_inv m -> frame_aligned a -> n mod 0x1000 = 0 -> 0 <= n ->
    (forall f, frame_aligned f -> a <= f < a + n \/ f = a -> ~ backed m f) ->
    pm_inv (map_phys_mem a n m);
  pm_map_backed m a n f :
    pm_inv m -> frame_aligned a -> n mod 0x1000 = 0 -> 0 <= n ->
    (forall f, frame_aligned f -> a <= f < a + n \/ f = a -> ~ backed m f) ->
    frame_aligned f -> (backed (map_phys_mem a n m) f <-> backed m f \/ a <= f < a + n);
  pm_map_zero m a n f b buf :
    pm_inv m -> frame_aligned a -> n mod 0x1000 = 0 -> 0 <= n ->
    (forall f, frame_aligned f -> a <= f < a + n \/ f = a -> ~ backed m f) ->
    frame_aligned f -> a <= f < a + n -> in_frame f b (length buf) ->
    read_phys_mem (map_phys_mem a n m) b buf = replicate (length buf) 0;
  pm_map_other m a n f b buf :
    pm_inv m -> frame_aligned a -> n mod 0x1000 = 0 -> 0 <= n ->
    (forall f, frame_aligned f -> a <= f < a + n \/ f = a -> ~ backed m f) ->
    frame_aligned f -> backed m f -> in_frame f b (length buf) ->
    read_phys_mem (map_phys_mem a n m) b buf = read_phys_mem m b buf
}.

(** ** The Unicorn backend *)

Module Unicorn.

(** [std::unordered_map<addr_t, std::vector<std::uint8_t>> mem_] *)
Record mem : Type := Mem { mem_ : gmap Z (list Z) }.

(** The loop of [find_backing] over the regions in the order the container
    yields them: the region holding [addr], as its base and bytes. *)
Fixpoint find_region (regions : list (Z * list Z)) (addr : Z) : option (Z * list Z) :=
  match regions with
  | [] => None
  | (base, buf) :: rest =>
      if (base <=? addr) && (addr <? base + Z.of_nat (length buf))
      then Some (base, buf) else find_region rest addr
  end.

(** A pointer into a region and what is left of it: base, offset, available. *)
Definition find_backing (m : mem) (addr : Z) : option (Z * nat * nat) :=
  match find_region (map_to_list (mem_ m)) addr with
  | Some (base, buf) =>
      let off := Z.to_nat (addr - base) in Some (base, off, (length buf - off)%nat)
  | None => None
  end.

(** [std::vector::resize], which zero-fills what it adds. *)
Definition resize (n : nat) (buf : list Z) : list Z :=
  take n buf ++ replicate (n - length buf) 0.

Definition map_phys_mem (addr size : Z) (m : mem) : mem :=
  let old := default [] (mem_ m !! addr) in
  Mem (<[addr := resize (Z.to_nat size) old]> (mem_ m)).

Definition unmap_phys_mem (addr : Z) (m : mem) : mem := Mem (delete addr (mem_ m)).

Definition read_phys_mem (m : mem) (addr : Z) (buf : list Z) : list Z :=
  match find_backing m addr with
  | Some (base, off, avail) =>
      let n := Nat.min (length buf) avail in
      take n (drop off (default [] (mem_ m !! base))) ++ drop n buf
  | None => buf
  end.

Definition write_phys_mem (addr : Z) (buf : list Z) (m : mem) : mem :=
  match find_backing m addr with
  | Some (base, off, avail) =>
      let n := Nat.min (length buf) avail in
      Mem (alter (blit off (take n buf)) base (mem_ m))
  | None => m
  end.

#[global] Instance phys_mem : PhysMem mem := {|
  Phys.map_phys_mem := map_phys_mem;
  Phys.read_phys_mem := read_phys_mem;
  Phys.write_phys_mem := write_phys_mem
|}.

(** Regions are whole frames, hold bytes and do not overlap. *)
Definition region_ok (base : Z) (buf : list Z) : Prop :=
  base mod 0x1000 = 0 /\ Z.of_nat (length buf) mod 0x1000 = 0 /\ Forall is_byte buf.

Definition holds (base : Z) (buf : list Z) (a : Z) : Prop :=
  base <= a < base + Z.of_nat (length buf).

Definition inv (m : mem) : Prop :=
  (forall b buf, mem_ m !! b = Some buf -> region_ok b buf) /\
  (forall b buf b' buf' a,
     mem_ m !! b = Some buf -> mem_ m !! b' = Some buf' ->
     holds b buf a -> holds b' buf' a -> b = b').

Definition is_backed (m : mem) (f : Z) : Prop :=
  exists b buf, mem_ m !! b = Some buf /\ holds b buf f.

Lemma find_region_some regions a b buf :
  find_region regions a = Some (b, buf) -> (b, buf) ∈ regions /\ holds b buf a.
Proof.
  induction regions as [|[b' buf'] rest IH]; simpl; [done|].
  destruct (_ && _) eqn:E.
  - intros [= -> ->]. split; [left|]. unfold holds. lia.
  - intros H. destruct (IH H). split; [by right|done].
Qed.

Lemma find_region_is_some regions a b buf :
  (b, buf) ∈ regions -> holds b buf a -> is_Some (find_region regions a).
Proof.
  induction regions as [|[b' buf'] rest IH]; simpl; [by intros ?%not_elem_of_nil|].
  intros H Hh. destruct (_ && _) eqn:E; [eauto|].
  apply elem_of_cons in H as [[= -> ->]|H]; [unfold holds in Hh; lia|auto].
Qed.

Lemma find_region_spec m a b buf :
  inv m -> mem_ m !! b = Some buf -> holds b buf a ->
  find_region (map_to_list (mem_ m)) a = Some (b, buf).
Proof.
  intros [_ Hd] Hb Ha. pose proof Hb as Hin%elem_of_map_to_list.
  destruct (find_region_is_some _ a _ _ Hin Ha) as [[b' buf'] E]. rewrite E.
  apply find_region_some in E as [E%elem_of_map_to_list Ha'].
  assert (b = b') as <- by eauto. congruence.
Qed.

Lemma find_backing_spec m a b buf :
  inv m -> mem_ m !! b = Some buf -> holds b buf a ->
  find_backing m a = Some (b, Z.to_nat (a - b), (length buf - Z.to_nat (a - b))%nat).
Proof. intros Hi Hb Ha. unfold find_backing. by erewrite find_region_spec. Qed.

(** A frame lies wholly in the region that holds its first byte. *)
Lemma frame_in_region b buf f a n :
  region_ok b buf -> holds b buf f -> frame_aligned f -> in_frame f a n ->
  b <= a /\ a + Z.of_nat n <= b + Z.of_nat (length buf).
Proof.
  intros (Hb & Hl & _) Hh Hf [Hn1 Hn2]. unfold holds, frame_aligned in *.
  apply Z.mod_divide in Hb as [p ->]; [|lia]. apply Z.mod_divide in Hl as [q Hq]; [|lia].
  apply Z.mod_divide in Hf as [r ->]; [|lia]. rewrite Hq in *. nia.
Qed.

(** A non-empty access inside a backed frame is a slice of one region. *)
Lemma access m f a n :
  inv m -> is_backed m f -> frame_aligned f -> in_frame f a n ->
  exists b buf, mem_ m !! b = Some buf /\ region_ok b buf /\ b <= a /\
    (Z.to_nat (a - b) + n <= length buf)%nat /\
    ((0 < n)%nat -> find_backing m a =
       Some (b, Z.to_nat (a - b), (length buf - Z.to_nat (a - b))%nat)).
Proof.
  intros Hi (b & buf & Hb & Hh) Hf Hn.
  assert (region_ok b buf) as Hr by (destruct Hi; eauto).
  destruct (frame_in_region _ _ _ _ _ Hr Hh Hf Hn).
  exists b, buf. split_and!; [done..|lia|].
  intros. apply find_backing_spec; [done..|]. unfold holds. lia.
Qed.

(** Zero-length accesses do nothing, wherever they point. *)
Lemma read_nil m a : read_phys_mem m a [] = [].
Proof. unfold read_phys_mem. destruct (find_backing m a) as [[[? ?] ?]|]; done. Qed.

Lemma blit_nil off dst : blit off [] dst = dst.
Proof. unfold blit. rewrite Nat.add_0_r. apply take_drop. Qed.

Lemma write_nil m a : write_phys_mem a [] m = m.
Proof.
  unfold write_phys_mem. destruct (find_backing m a) as [[[b o] n]|]; [|done].
  destruct m as [m]. simpl. f_equal. apply map_eq. intros i.
  rewrite lookup_alter. case_decide as Hd; [subst|done]. destruct (m !! i) eqn:E; [|done].
  simpl. by rewrite blit_nil.
Qed.

Lemma read_spec m f a buf :
  inv m -> is_backed m f -> frame_aligned f -> in_frame f a (length buf) ->
  exists b rb, mem_ m !! b = Some rb /\ region_ok b rb /\ b <= a /\
    (Z.to_nat (a - b) + length buf <= length rb)%nat /\
    read_phys_mem m a buf = take (length buf) (drop (Z.to_nat (a - b)) rb).
Proof.
  intros Hi Hb Hf Hn. destruct (access _ _ _ _ Hi Hb Hf Hn) as (b & rb & E & Hr & Hl & Hs & Hfb).
  exists b, rb. split_and!; [done..|]. destruct buf as [|x buf]; [by rewrite read_nil|].
  unfold read_phys_mem. rewrite Hfb by (simpl; lia). rewrite E. cbn [default from_option id].
  rewrite Nat.min_l by (simpl in *; lia). by rewrite drop_all, app_nil_r.
Qed.

Lemma write_spec m f a bs :
  inv m -> is_backed m f -> frame_aligned f -> in_frame f a (length bs) ->
  exists b rb, mem_ m !! b = Some rb /\ region_ok b rb /\ b <= a /\
    (Z.to_nat (a - b) + length bs <= length rb)%nat /\
    mem_ (write_phys_mem a bs m) = <[b := blit (Z.to_nat (a - b)) bs rb]> (mem_ m).
Proof.
  intros Hi Hb Hf Hn. destruct (access _ _ _ _ Hi Hb Hf Hn) as (b & rb & E & Hr & Hl & Hs & Hfb).
  exists b, rb. split_and!; [done..|]. destruct bs as [|x bs].
  - rewrite write_nil, blit_nil. by rewrite insert_id.
  - unfold write_phys_mem. rewrite Hfb by (simpl; lia). cbn [mem_].
    rewrite Nat.min_l by (simpl in *; lia). rewrite firstn_all.
    apply map_eq. intros i. rewrite lookup_alter, lookup_insert. case_decide; [|done].
    subst. rewrite E. done.
Qed.

Lemma holds_blit b off src dst a :
  (off + length src <= length dst)%nat -> holds b (blit off src dst) a <-> holds b dst a.
Proof. intros H. unfold holds. by rewrite length_blit. Qed.

(** The regions of a memory after a write: same bases, same extents. *)
Lemma write_lookup m a bs b :
  (exists rb rb', mem_ m !! b = Some rb /\ mem_ (write_phys_mem a bs m) !! b = Some rb' /\
     length rb' = length rb) \/
  (mem_ m !! b = None /\ mem_ (write_phys_mem a bs m) !! b = None).
Proof.
  unfold write_phys_mem. destruct (find_backing m a) as [[[b' off] av]|] eqn:E; [|destruct (mem_ m !! b) eqn:Eb; eauto 10].
  cbn [mem_]. rewrite lookup_alter. unfold find_backing in E.
  destruct (find_region _ _) as [[c buf]|] eqn:F; [|done]. simplify_eq.
  apply find_region_some in F as [F%elem_of_map_to_list Hh].
  case_decide; [subst|destruct (mem_ m !! b); eauto 10].
  rewrite F. left. eexists _, _. split_and!; [done|reflexivity|].
  apply length_blit. rewrite length_take. unfold holds in Hh. lia.
Qed.

Lemma write_is_backed m a bs g : is_backed (write_phys_mem a bs m) g <-> is_backed m g.
Proof.
  unfold is_backed, holds.
  split; intros (b & buf & Hb & Hh); destruct (write_lookup m a bs b)
    as [(rb & rb' & E1 & E2 & El)|[E1 E2]]; simplify_eq; eauto 10.
  - exists b, rb. rewrite <- El. done.
  - exists b, rb'. rewrite El. done.
Qed.

Lemma write_inv m f a bs :
  inv m -> is_backed m f -> frame_aligned f -> in_frame f a (length bs) ->
  Forall is_byte bs -> inv (write_phys_mem a bs m).
Proof.
  intros Hi Hb Hf Hn Hbs.
  destruct (write_spec _ _ _ _ Hi Hb Hf Hn) as (b & rb & E & Hr & Hl & Hs & W).
  destruct Hi as [Hi1 Hi2]. split.
  - intros c buf. rewrite W. intros [[<- <-]|[_ Hc]]%lookup_insert_Some; [|eauto].
    destruct Hr as (? & ? & ?). unfold region_ok. rewrite length_blit by done.
    split_and!; auto with kern.
  - intros c buf c' buf' x. rewrite W.
    intros [[<- <-]|[_ Hc]]%lookup_insert_Some [[<- <-]|[_ Hc']]%lookup_insert_Some;
      rewrite ?holds_blit by done; eauto.
Qed.

(** Two slices of a valid memory that share a byte are slices of one region. *)
Lemma same_region m b rb b' rb' a :
  inv m -> mem_ m !! b = Some rb -> mem_ m !! b' = Some rb' ->
  holds b rb a -> holds b' rb' a -> b = b' /\ rb = rb'.
Proof. intros [_ Hd] H1 H2 H3 H4. assert (b = b') as <- by eauto. split; congruence. Qed.

Lemma read_write_same m f a bs buf :
  inv m -> is_backed m f -> frame_aligned f -> in_frame f a (length bs) -> Forall is_byte bs ->
  length buf = length bs -> read_phys_mem (write_phys_mem a bs m) a buf = bs.
Proof.
  intros Hi Hb Hf Hn Hbs Hl.
  destruct (decide (length bs = 0%nat)) as [Hz|Hz].
  { apply nil_length_inv in Hz as ->. destruct buf; [|done]. apply read_nil. }
  destruct (write_spec _ _ _ _ Hi Hb Hf Hn) as (b & rb & E & Hr & Hle & Hs & W).
  destruct (read_spec (write_phys_mem a bs m) f a buf) as (b' & rb' & E' & Hr' & Hle' & Hs' & ->);
    [by apply (write_inv m f)|by apply write_is_backed|done|by rewrite Hl|].
  assert (mem_ (write_phys_mem a bs m) !! b = Some (blit (Z.to_nat (a - b)) bs rb)) as Eb
    by (rewrite W; apply lookup_insert_eq).
  destruct (same_region (write_phys_mem a bs m) b' rb' b (blit (Z.to_nat (a - b)) bs rb) a) as [-> ->];
    [by apply (write_inv m f)|exact E'|exact Eb|unfold holds; lia|unfold holds; rewrite length_blit; lia|].
  rewrite Hl. by apply slice_blit_same.
Qed.

Lemma read_write_other m f a bs g b buf :
  inv m -> is_backed m f -> frame_aligned f -> in_frame f a (length bs) -> Forall is_byte bs ->
  is_backed m g -> frame_aligned g -> in_frame g b (length buf) ->
  b + Z.of_nat (length buf) <= a \/ a + Z.of_nat (length bs) <= b ->
  read_phys_mem (write_phys_mem a bs m) b buf = read_phys_mem m b buf.
Proof.
  intros Hi Hb Hf Hn Hbs Hg Hga Hgn Hdis.
  destruct (decide (length buf = 0%nat)) as [Hz|Hz].
  { apply nil_length_inv in Hz as ->. by rewrite !read_nil. }
  destruct (write_spec _ _ _ _ Hi Hb Hf Hn) as (c & rb & E & Hr & Hle & Hs & W).
  destruct (read_spec (write_phys_mem a bs m) g b buf) as (d & rb' & E' & Hr' & Hle' & Hs' & ->);
    [by apply (write_inv m f)|by apply write_is_backed|done..|].
  destruct (read_spec m g b buf) as (e & rb'' & E'' & Hr'' & Hle'' & Hs'' & ->); [done..|].
  rewrite W in E'. apply lookup_insert_Some in E' as [[<- <-]|[Hne E']].
  - rewrite length_blit in Hs' by done.
    destruct (same_region m c rb e rb'' b) as [-> ->]; [done..|unfold holds; lia|unfold holds; lia|].
    destruct Hdis; [apply slice_blit_before; lia|apply slice_blit_after; lia].
  - destruct (same_region m d rb' e rb'' b) as [-> ->]; [done..|unfold holds; lia|unfold holds; lia|].
    done.
Qed.

(** ** Mapping a fresh range *)

Definition fresh_range (m : mem) (a n : Z) : Prop :=
  inv m /\ frame_aligned a /\ n mod 0x1000 = 0 /\ 0 <= n /\
  (forall f, frame_aligned f -> a <= f < a + n \/ f = a -> ~ is_backed m f).

(** A region already at the base of a fresh range is an empty one. *)
Lemma fresh_lookup m a n buf :
  fresh_range m a n -> mem_ m !! a = Some buf -> buf = [].
Proof.
  intros (Hi & Ha & _ & _ & Hfr) E. destruct buf as [|x buf]; [done|].
  destruct (Hfr a Ha (or_intror eq_refl)). exists a, (x :: buf).
  split; [done|]. unfold holds. simpl. lia.
Qed.

Lemma map_fresh m a n :
  fresh_range m a n -> mem_ (map_phys_mem a n m) = <[a := replicate (Z.to_nat n) 0]> (mem_ m).
Proof.
  intros H. unfold map_phys_mem. destruct (mem_ m !! a) as [buf|] eqn:E.
  - rewrite (fresh_lookup _ _ _ _ H E). cbn. unfold resize. by rewrite take_nil, Nat.sub_0_r.
  - cbn. unfold resize. by rewrite take_nil, Nat.sub_0_r.
Qed.

(** A region that meets a fresh range would back one of its frames. *)
Lemma fresh_disjoint m a n b buf x :
  fresh_range m a n -> mem_ m !! b = Some buf -> holds b buf x -> ~ (a <= x < a + n).
Proof.
  intros (Hi & Ha & Hn & Hp & Hfr) E Hh Hx. set (f := 0x1000 * (x / 0x1000)).
  pose proof (Z.div_mod x 0x1000 ltac:(lia)). pose proof (Z.mod_pos_bound x 0x1000 ltac:(lia)).
  assert (frame_aligned f) as Hf
    by (unfold frame_aligned, f; rewrite Z.mul_comm; apply Z.mod_mul; lia).
  apply (Hfr f Hf).
  - left. unfold frame_aligned in Ha. apply Z.mod_divide in Ha as [p ->]; [|lia]. unfold f in *. nia.
  - exists b, buf. split; [done|]. destruct Hi as [Hi _]. destruct (Hi _ _ E) as (Hb & _).
    apply Z.mod_divide in Hb as [p ->]; [|lia]. unfold holds, f in *. nia.
Qed.

Lemma holds_fresh a n x : 0 <= n -> holds a (replicate (Z.to_nat n) 0) x <-> a <= x < a + n.
Proof. intros H. unfold holds. rewrite length_replicate, Z2Nat.id; lia. Qed.

Lemma map_inv m a n : fresh_range m a n -> inv (map_phys_mem a n m).
Proof.
  intros H. pose proof H as (Hi & Ha & Hn & Hp & _). destruct Hi as [Hi1 Hi2].
  split; rewrite (map_fresh _ _ _ H).
  - intros b buf [[<- <-]|[_ Hc]]%lookup_insert_Some; [|eauto].
    unfold region_ok. rewrite length_replicate, Z2Nat.id by lia. split_and!; [done..|].
    apply Forall_replicate. unfold is_byte. lia.
  - intros b buf b' buf' x [[<- <-]|[_ Hc]]%lookup_insert_Some [[<- <-]|[_ Hc']]%lookup_insert_Some;
      rewrite ?holds_fresh by lia; [done|..|by eauto].
    + intros ? ?. by destruct (fresh_disjoint _ _ _ _ _ x H Hc').
    + intros ? ?. by destruct (fresh_disjoint _ _ _ _ _ x H Hc).
Qed.

Lemma map_backed m a n f :
  fresh_range m a n -> is_backed (map_phys_mem a n m) f <-> is_backed m f \/ a <= f < a + n.
Proof.
  intros H. unfold is_backed. rewrite (map_fresh _ _ _ H).
  pose proof H as (_ & _ & _ & Hp & _). split.
  - intros (b & buf & [[<- <-]|[_ Hc]]%lookup_insert_Some & Hh); [|by eauto].
    right. by rewrite holds_fresh in Hh by lia.
  - intros [(b & buf & Hb & Hh)|Hf].
    + exists b, buf. rewrite lookup_insert_ne; [done|]. intros <-.
      rewrite (fresh_lookup _ _ _ _ H Hb) in Hh. unfold holds in Hh. simpl in Hh. lia.
    + eexists a, _. split; [apply lookup_insert_eq|]. apply holds_fresh; lia.
Qed.

Lemma map_zero m a n f b buf :
  fresh_range m a n -> frame_aligned f -> a <= f < a + n -> in_frame f b (length buf) ->
  read_phys_mem (map_phys_mem a n m) b buf = replicate (length buf) 0.
Proof.
  intros H Hf Hin Hn. pose proof H as (_ & _ & _ & Hp & _).
  destruct (decide (length buf = 0%nat)) as [Hz|Hz].
  { apply nil_length_inv in Hz as ->. by rewrite read_nil. }
  destruct (read_spec (map_phys_mem a n m) f b buf) as (c & rb & E & Hr & Hle & Hs & ->);
    [by apply map_inv|apply map_backed; auto|done..|].
  rewrite (map_fresh _ _ _ H) in E. apply lookup_insert_Some in E as [[<- <-]|[_ Hc]].
  - rewrite drop_replicate, take_replicate. f_equal. rewrite length_replicate in Hs. lia.
  - destruct (fresh_disjoint _ _ _ _ _ b H Hc); [unfold holds; lia|].
    destruct Hn. destruct H as (_ & Ha & Hnm & _ & _). unfold frame_aligned in *.
    apply Z.mod_divide in Hf as [p ->]; [|lia]. apply Z.mod_divide in Hnm as [q ->]; [|lia].
    apply Z.mod_divide in Ha as [r ->]; [|lia]. nia.
Qed.

Lemma map_other m a n f b buf :
  fresh_range m a n -> frame_aligned f -> is_backed m f -> in_frame f b (length buf) ->
  read_phys_mem (map_phys_mem a n m) b buf = read_phys_mem m b buf.
Proof.
  intros H Hf Hb Hn. pose proof H as (Hi & _ & _ & Hp & _).
  destruct (decide (length buf = 0%nat)) as [Hz|Hz].
  { apply nil_length_inv in Hz as ->. by rewrite !read_nil. }
  destruct (read_spec m f b buf) as (d & rb' & E' & Hr' & Hle' & Hs' & ->); [done..|].
  destruct (read_spec (map_phys_mem a n m) f b buf) as (c & rb & E & Hr & Hle & Hs & ->);
    [by apply map_inv|apply map_backed; auto|done..|].
  assert (mem_ (map_phys_mem a n m) !! d = Some rb') as E''.
  { rewrite (map_fresh _ _ _ H), lookup_insert_ne; [done|]. intros <-.
    rewrite (fresh_lookup _ _ _ _ H E') in Hs'. simpl in Hs'. lia. }
  destruct (same_region (map_phys_mem a n m) c rb d rb' b) as [-> ->];
    [by apply map_inv|done|done|unfold holds; lia|unfold holds; lia|done].
Qed.

#[global] Instance phys_mem_laws : PhysMemLaws mem.
Proof.
  refine {| pm_inv := inv; backed := is_backed |}.
  - intros m a buf. change (length (read_phys_mem m a buf) = length buf). unfold read_phys_mem.
    destruct (find_backing m a) as [[[b o] av]|] eqn:E; [|done].
    unfold find_backing in E. destruct (find_region _ _) as [[c rb]|] eqn:F; [|done]. simplify_eq.
    apply find_region_some in F as [F%elem_of_map_to_list Hh]. rewrite F. cbn [default from_option id].
    rewrite length_app, length_take, !length_drop. lia.
  - intros m f a buf Hi Hb Hf Hn. destruct (read_spec m f a buf) as (b & rb & _ & Hr & _ & _ & E); [done..|].
    change (Forall is_byte (read_phys_mem m a buf)). rewrite E. destruct Hr as (_ & _ & ?).
    auto using Forall_take, Forall_drop.
  - intros m f a buf buf' Hi Hb Hf Hn Hl.
    change (read_phys_mem m a buf = read_phys_mem m a buf').
    destruct (decide (length buf = 0%nat)) as [Hz|Hz].
    { pose proof Hz as ->%nil_length_inv. rewrite Hl in Hz. by apply nil_length_inv in Hz as ->. }
    destruct (read_spec m f a buf) as (b & rb & E & Hr & ? & ? & ->); [done..|].
    destruct (read_spec m f a buf') as (b' & rb' & E' & Hr' & ? & ? & ->); [done..|by rewrite <- Hl|].
    destruct (same_region m b rb b' rb' a) as [-> ->]; [done..|unfold holds; lia|unfold holds; lia|].
    by rewrite Hl.
  - intros m f a buf j Hi Hb Hf Hn Hj.
    change (read_phys_mem m a buf !! j = read_phys_mem m (a + Z.of_nat j) [0] !! 0%nat).
    destruct (read_spec m f a buf) as (b & rb & E & Hr & ? & ? & ->); [done..|].
    destruct (read_spec m f (a + Z.of_nat j) [0]) as (b' & rb' & E' & Hr' & ? & Hl' & ->); [done..| |].
    { unfold in_frame in *. simpl. lia. }
    simpl in Hl'.
    destruct (same_region m b rb b' rb' (a + Z.of_nat j)) as [-> ->];
      [done..|unfold holds; lia|unfold holds; lia|].
    rewrite !lookup_take_lt by (simpl; lia). rewrite !lookup_drop. f_equal. lia.
  - exact write_inv.
  - exact write_is_backed.
  - exact read_write_same.
  - exact read_write_other.
  - intros. by apply map_inv.
  - intros. by apply map_backed.
  - intros m a n f b buf ??????. by apply map_zero.
  - intros m a n f b buf ??????. by apply map_other.
Defined.

End Unicorn.
