(* ===== verification/Mmu.v ===== *)
(** * The MMU base class

    [class mmu] of emu/mmu.hpp and emu/mmu.cpp: the bump allocator of guest
    physical memory, the page and size rounding, the physical accessors the
    page-table code reads and writes entries with, and the note a mapping
    leaves with the operating system.  The architecture files build on it. *)

From S2P Require Import Prelude Phys.
From stdpp Require Import gmap.
From stdpp Require Import options.

Open Scope Z_scope.
Open Scope kern_scope.

(** ** [enum mem_prot] *)

Definition prot_none : Z := 0.
Definition prot_read : Z := 1.
Definition prot_write : Z := 2.
Definition prot_exec : Z := 4.
Definition prot_supervisor : Z := 8.
Definition prot_rw : Z := Z.lor prot_read prot_write.
Definition prot_rx : Z := Z.lor prot_read prot_exec.
Definition prot_wx : Z := Z.lor prot_write prot_exec.
Definition prot_rwx : Z := Z.lor prot_rw prot_exec.

(** [prot & flag] in a condition. *)
Definition has (prot flag : Z) : bool := negb (Z.land prot flag =? 0).

Lemma has_bit prot k : 0 <= k -> has prot (2 ^ k) = Z.testbit prot k.
Proof.
  intros Hk. unfold has. rewrite Z.eqb_sym. destruct (Z.testbit prot k) eqn:E.
  - destruct (Z.eqb_spec 0 (Z.land prot (2 ^ k))) as [H|H]; [|done].
    apply (f_equal (fun z => Z.testbit z k)) in H. cbn beta in H.
    rewrite Z.land_spec, Z.pow2_bits_true, E, Z.bits_0 in H by done. done.
  - assert (Z.land prot (2 ^ k) = 0) as ->; [|done]. apply Z.bits_inj'. intros i Hi.
    rewrite Z.land_spec, Z.bits_0. destruct (decide (i = k)) as [->|]; [by rewrite E|].
    rewrite Z.pow2_bits_false by done. apply andb_false_r.
Qed.

(** ** Constants of [class mmu] *)

Definition page_size : Z := 0x1000.
Definition page_shift : Z := 12.
Definition phys_base : Z := 0x100000000.
Definition phys_size : Z := 0x100000000.
Definition phys_end : Z := phys_base + phys_size.

Definition page_align (addr : Z) : Z := align_down addr page_size.
Definition size_align (size : Z) : Z := align_up size page_size.

(** ** State

    [page_note_] and the vcpus' translation caches are outside the MMU: what it
    tells them is kept as a trace, oldest first. *)

Inductive event : Type :=
  | note_page (pa va table_pa level : Z) (mapped : bool)
  | flush_all_tlb.

Record mmu (M : Type) : Type := Mmu {
  phys : M;
  phys_next_ : Z;
  kernel_root_ : Z;            (** [kernel_pml4_pa_] / [kernel_ttbr_pa_] *)
  spaces_ : gset Z;            (** keys of [spaces_]: the root of each live space *)
  trace : list event
}.
Arguments Mmu {M} _ _ _ _ _.
Arguments phys {M} _.
Arguments phys_next_ {M} _.
Arguments kernel_root_ {M} _.
Arguments spaces_ {M} _.
Arguments trace {M} _.

Definition set_phys {M} (p : M) (s : mmu M) : mmu M :=
  Mmu p (phys_next_ s) (kernel_root_ s) (spaces_ s) (trace s).
Definition set_phys_next {M} (n : Z) (s : mmu M) : mmu M :=
  Mmu (phys s) n (kernel_root_ s) (spaces_ s) (trace s).
Definition emit {M} (e : event) (s : mmu M) : mmu M :=
  Mmu (phys s) (phys_next_ s) (kernel_root_ s) (spaces_ s) (trace s ++ [e]).

(** [for (off = 0; off < aligned; off += page_size())], [aligned] a multiple of
    the page size: the body sees each offset once, in order. *)
Fixpoint for_off {S A} (n : nat) (off : Z) (body : Z -> A -> st S A) (a : A) : st S A :=
  match n with
  | O => ret a
  | S n => let! a := body off a in for_off n (off + page_size) body a
  end.
Definition for_pages {S A} (aligned : Z) (body : Z -> A -> st S A) (a : A) : st S A :=
  for_off (Z.to_nat (aligned / page_size)) 0 body a.

(** The rule for the loop: [I j] holds after [j] rounds. *)
Lemma wp_for_off {S A} (I : nat -> A -> S -> Prop) E (body : Z -> A -> st S A) n off a s :
  I 0%nat a s ->
  (forall j a s, (j < n)%nat -> I j a s ->
     wp (body (off + page_size * Z.of_nat j) a) s (I (Datatypes.S j)) E) ->
  wp (for_off n off body a) s (I n) E.
Proof.
  revert I off a s. induction n as [|n IH]; intros I off a s H0 Hstep; [done|].
  cbn [for_off]. apply wp_bind. eapply wp_mono; [|clear a s H0; intros a s H1|done].
  - replace off with (off + page_size * Z.of_nat 0) at 1 by lia. apply Hstep; [lia|done].
  - apply (IH (fun j => I (Datatypes.S j))); [done|]. intros j b t Hj HI.
    replace (off + page_size + page_size * Z.of_nat j)
      with (off + page_size * Z.of_nat (Datatypes.S j)) by (unfold page_size; lia).
    apply Hstep; [lia|done].
Qed.

Section Mmu.
Context {M : Type} `{!PhysMem M}.

(** [read_phys<std::uint64_t>] and [write_phys<std::uint64_t>]. *)
Definition read64 (m : M) (pa : Z) : Z := le_val (read_phys_mem m pa (replicate 8 0)).
Definition write64 (pa v : Z) (m : M) : M := write_phys_mem pa (le_bytes 8 v) m.

Definition read_phys (pa : Z) : st (mmu M) Z := fun s => (Ok (read64 (phys s) pa), s).
Definition write_phys (pa v : Z) : st (mmu M) unit :=
  modify (fun s => set_phys (write64 pa v (phys s)) s).

Definition alloc_phys_locked (size : Z) : st (mmu M) Z := fun s =>
  let aligned := size_align size in
  let addr := phys_next_ s in
  if phys_end -w addr <? aligned then (Throw out_of_phys, s)
  else (Ok addr, set_phys (map_phys_mem addr aligned (phys s)) (set_phys_next (addr +w aligned) s)).

Definition alloc_phys (size : Z) : st (mmu M) Z := alloc_phys_locked size.

Definition back_phys (pa size : Z) : st (mmu M) unit :=
  let start := page_align pa in
  modify (fun s => set_phys (map_phys_mem start (size_align (size +w (pa - start))) (phys s)) s).

(** ** The allocator's invariant *)

Context `{!PhysMemLaws M}.

(** Memory is handed out from [phys_base] up, and nothing past the cursor is
    backed yet. *)
Definition mmu_inv (s : mmu M) : Prop :=
  pm_inv (phys s) /\ frame_aligned (phys_next_ s) /\
  phys_base <= phys_next_ s <= phys_end /\
  (forall f, frame_aligned f -> phys_next_ s <= f <= phys_end -> ~ backed (phys s) f).

Lemma size_align_ok n :
  0 <= n -> n <= 2 ^ 64 - 0x1000 ->
  n <= size_align n < n + 0x1000 /\ size_align n mod 0x1000 = 0.
Proof.
  intros H0 Hn. split; [|apply align_up_mod, pow2_4096].
  unfold size_align, page_size. apply align_up_bounds; [apply pow2_4096|lia|lia].
Qed.

Lemma size_align_range n : 0 <= size_align n < 2 ^ 64.
Proof. apply align_up_range, pow2_4096. Qed.

Lemma page_align_ok a : 0 <= a -> 0 <= page_align a <= a /\ a < page_align a + 0x1000 /\
  page_align a mod 0x1000 = 0.
Proof.
  intros Ha. unfold page_align, page_size.
  pose proof (align_down_bounds a 0x1000 pow2_4096).
  pose proof (align_down_nonneg a 0x1000 pow2_4096 Ha).
  pose proof (align_down_mod a 0x1000 pow2_4096). lia.
Qed.

Lemma mul_page_sum a b : a mod 0x1000 = 0 -> b mod 0x1000 = 0 -> (a + b) mod 0x1000 = 0.
Proof.
  intros Ha Hb. apply Z.mod_divide in Ha as [p ->]; [|lia]. apply Z.mod_divide in Hb as [q ->]; [|lia].
  rewrite <- Z.mul_add_distr_r. apply Z.mod_mul. lia.
Qed.

(** What a successful allocation did. *)
Record alloc_post (s : mmu M) (n : Z) (s' : mmu M) : Prop := {
  ap_inv : mmu_inv s';
  ap_next : phys_next_ s' = phys_next_ s + n;
  ap_root : kernel_root_ s' = kernel_root_ s;
  ap_spaces : spaces_ s' = spaces_ s;
  ap_trace : trace s' = trace s;
  ap_backed : forall f, frame_aligned f ->
    backed (phys s') f <-> backed (phys s) f \/ phys_next_ s <= f < phys_next_ s + n;
  ap_zero : forall f b buf, frame_aligned f -> phys_next_ s <= f < phys_next_ s + n ->
    in_frame f b (length buf) -> read_phys_mem (phys s') b buf = replicate (length buf) 0;
  ap_old : forall f b buf, frame_aligned f -> backed (phys s) f ->
    in_frame f b (length buf) -> read_phys_mem (phys s') b buf = read_phys_mem (phys s) b buf
}.

Lemma alloc_phys_locked_ok s n a s' :
  mmu_inv s -> alloc_phys_locked n s = (Ok a, s') ->
  a = phys_next_ s /\ phys_next_ s + size_align n <= phys_end /\ alloc_post s (size_align n) s'.
Proof.
  intros (Hp & Ha & Hr & Hf) E. unfold alloc_phys_locked in E.
  pose proof (size_align_range n) as Hsz. pose proof (align_up_mod n 0x1000 pow2_4096) as Hm.
  fold page_size in Hm. change (align_up n page_size) with (size_align n) in Hm.
  set (k := size_align n) in *. unfold phys_end, phys_base, phys_size in *.
  rewrite u64_small in E by (unfold in_u64; lia).
  destruct (Z.ltb_spec (0x100000000 + 0x100000000 - phys_next_ s) k); [done|].
  rewrite u64_small in E by (unfold in_u64; lia).
  simplify_eq. split_and!; [done|lia|].
  assert (forall f, frame_aligned f -> phys_next_ s <= f < phys_next_ s + k \/ f = phys_next_ s ->
            ~ backed (phys s) f) as Hfr by (intros f ? ?; apply Hf; [done|lia]).
  assert (k mod 0x1000 = 0) as Hk by exact Hm.
  constructor; cbn [phys phys_next_ kernel_root_ spaces_ trace set_phys set_phys_next]; try done.
  - split_and!; cbn; [by apply pm_map_inv; [..|lia|]|by apply mul_page_sum|unfold phys_end, phys_base, phys_size; lia..|].
    intros f Hfa Hfr'. rewrite pm_map_backed by (done || lia).
    intros [Hb|Hin]; [|lia]. apply (Hf f Hfa); [unfold phys_end, phys_base, phys_size in Hfr'; lia|done].
  - intros f Hfa. by apply pm_map_backed; [..|lia| |].
  - intros f b buf ???. apply (pm_map_zero _ _ _ f); (done || lia).
  - intros f b buf ???. apply (pm_map_other _ _ _ f); (done || lia).
Qed.

(** Exhaustion is reported and leaves everything as it was. *)
Lemma alloc_phys_locked_throw s n e s' :
  alloc_phys_locked n s = (Throw e, s') -> e = out_of_phys /\ s' = s.
Proof. unfold alloc_phys_locked. case_match; naive_solver. Qed.

End Mmu.
