(* ===== verification/PageTable.v ===== *)
(** * Four-level page tables

    Both architectures keep a four-level radix tree of 512-entry tables in
    guest physical memory (emu/x86/mmu.cpp, emu/arm64/mmu.cpp).  This file
    gives the walk over an entry format that is a parameter, the invariant
    that the tables of a space form a tree, and what each kind of entry write
    does to every walk.  The architecture files instantiate it. *)

From S2P Require Import Prelude Phys Mmu.
From stdpp Require Import gmap.
From stdpp Require Import options.

Open Scope Z_scope.
Open Scope kern_scope.

(** ** Virtual addresses: [union virt_addr]

    Level 0 is the root (PML4, L0), level 3 the last table (PT, L3). *)

Definition ix (k : nat) (va : Z) : Z := Z.land (Z.shiftr va (39 - 9 * Z.of_nat k)) 511.

(** The indices that lead to the table of level [k]. *)
Definition prefix (k : nat) (va : Z) : list Z := (fun j => ix j va) <$> seq 0 k.

Lemma prefix_S k va : prefix (S k) va = prefix k va ++ [ix k va].
Proof. unfold prefix. by rewrite seq_S, fmap_app. Qed.

Lemma prefix_S_eq k va va' :
  prefix (S k) va = prefix (S k) va' <-> prefix k va = prefix k va' /\ ix k va = ix k va'.
Proof.
  rewrite !prefix_S. split.
  - intros H%app_inj_tail. naive_solver.
  - by intros [-> ->].
Qed.

Lemma prefix_le k j va va' : (j <= k)%nat -> prefix k va = prefix k va' -> prefix j va = prefix j va'.
Proof.
  induction 1 as [|k Hk IH]; [done|]. intros E%prefix_S_eq. apply IH, E.
Qed.

Lemma ix_range k va : 0 <= ix k va < 512.
Proof.
  unfold ix. change 511 with (Z.ones 9). rewrite Z.land_ones by lia. apply Z.mod_pos_bound. lia.
Qed.

Lemma ix_div k va : (k <= 3)%nat -> ix k va = (va / 2 ^ (39 - 9 * Z.of_nat k)) mod 512.
Proof.
  intros Hk. unfold ix. change 511 with (Z.ones 9). by rewrite Z.land_ones, Z.shiftr_div_pow2 by lia.
Qed.

(** Four levels of nine bits name the 48-bit page number. *)
Lemma ix_vpn (j k : nat) va : (j + k = 3)%nat -> ix k va = (va / 4096 / 512 ^ Z.of_nat j) mod 512.
Proof.
  intros Hj. rewrite ix_div by lia. rewrite Z.div_div by (try lia; apply Z.pow_pos_nonneg; lia).
  do 2 f_equal. change 512 with (2 ^ 9). change 4096 with (2 ^ 12).
  rewrite <- Z.pow_mul_r, <- Z.pow_add_r by lia. f_equal. lia.
Qed.

Lemma digits4 x :
  x mod 2 ^ 36 = x mod 512 + 512 * ((x / 512) mod 512)
    + 262144 * ((x / 262144) mod 512) + 134217728 * ((x / 134217728) mod 512).
Proof.
  change (2 ^ 36) with (512 * (512 * (512 * 512))).
  rewrite !(Z.rem_mul_r _ 512) by lia. rewrite !Z.div_div by lia.
  change (512 * 512 * 512) with 134217728. change (512 * 512) with 262144. ring.
Qed.

Lemma prefix4_page va va' :
  prefix 4 va = prefix 4 va' <-> (va / 4096) mod 2 ^ 36 = (va' / 4096) mod 2 ^ 36.
Proof.
  rewrite !digits4, !prefix_S_eq.
  rewrite !(ix_vpn 3 0), !(ix_vpn 2 1), !(ix_vpn 1 2), !(ix_vpn 0 3) by done.
  change (512 ^ Z.of_nat 0) with 1. change (512 ^ Z.of_nat 1) with 512.
  change (512 ^ Z.of_nat 2) with 262144. change (512 ^ Z.of_nat 3) with 134217728.
  rewrite !Z.div_1_r. set (x := va / 4096). set (y := va' / 4096).
  pose proof (fun z => Z.mod_pos_bound z 512 ltac:(lia)) as B.
  pose proof (B x). pose proof (B (x / 512)). pose proof (B (x / 262144)).
  pose proof (B (x / 134217728)). pose proof (B y). pose proof (B (y / 512)).
  pose proof (B (y / 262144)). pose proof (B (y / 134217728)).
  split; [intros ((((_ & ->) & ->) & ->) & ->); done|]. intros. split_and!; try done; lia.
Qed.

(** The offset in the page plays no part. *)
Lemma ix_page_align k va : (k <= 3)%nat -> ix k (page_align va) = ix k va.
Proof.
  intros Hk. rewrite !(ix_vpn (3 - k) k) by lia. do 2 f_equal.
  unfold page_align, page_size. rewrite align_down_eq by apply pow2_4096.
  rewrite Z.mul_comm. apply Z.div_mul. lia.
Qed.

(** ** Entries in physical memory *)

Definition slot (t i : Z) : Z := u64 (t + i * 8).

(** Where a table may be: not the null page, and far below the point where an
    entry's address wraps. *)
Definition table_addr (t : Z) : Prop := frame_aligned t /\ 0 < t < 2 ^ 63.

Section Slots.
Context {M : Type} `{!PhysMem M, !PhysMemLaws M}.
Implicit Types (m : M) (t i : Z).

Lemma slot_eq t i : table_addr t -> 0 <= i < 512 -> slot t i = t + 8 * i.
Proof. intros [_ Ht] Hi. unfold slot. rewrite u64_small; [lia|]. unfold in_u64. lia. Qed.

Lemma slot_in_frame t i : table_addr t -> 0 <= i < 512 -> in_frame t (slot t i) 8.
Proof. intros Ht Hi. rewrite slot_eq by done. unfold in_frame. lia. Qed.

Lemma slot_inj t i t' i' :
  table_addr t -> table_addr t' -> 0 <= i < 512 -> 0 <= i' < 512 -> (t, i) <> (t', i') ->
  slot t i + 8 <= slot t' i' \/ slot t' i' + 8 <= slot t i.
Proof.
  intros [Ha Ht] [Ha' Ht'] Hi Hi' Hne. rewrite !slot_eq by done.
  unfold frame_aligned in *. apply Z.mod_divide in Ha as [p ->]; [|lia].
  apply Z.mod_divide in Ha' as [q ->]; [|lia].
  destruct (decide (p = q)) as [<-|]; [|lia].
  destruct (decide (i = i')) as [<-|]; [done|lia].
Qed.

Lemma read64_write64_same m t i v :
  pm_inv m -> backed m t -> table_addr t -> 0 <= i < 512 ->
  read64 (write64 (slot t i) v m) (slot t i) = u64 v.
Proof.
  intros Hm Hb Ht Hi. unfold read64, write64.
  rewrite (pm_read_write_same m t); [|done|done|apply Ht|..].
  - by rewrite le_val_bytes.
  - rewrite length_le_bytes. by apply slot_in_frame.
  - apply le_bytes_is_byte.
  - by rewrite length_le_bytes.
Qed.

Lemma read64_write64_other m t i v t' i' :
  pm_inv m -> backed m t -> table_addr t -> 0 <= i < 512 ->
  backed m t' -> table_addr t' -> 0 <= i' < 512 -> (t, i) <> (t', i') ->
  read64 (write64 (slot t i) v m) (slot t' i') = read64 m (slot t' i').
Proof.
  intros Hm Hb Ht Hi Hb' Ht' Hi' Hne. unfold read64, write64. f_equal.
  apply (pm_read_write_other m t _ _ t'); try done; rewrite ?length_le_bytes, ?length_replicate.
  - apply Ht.
  - by apply slot_in_frame.
  - apply le_bytes_is_byte.
  - apply Ht'.
  - by apply slot_in_frame.
  - destruct (slot_inj t i t' i'); [done..|lia|lia].
Qed.

Lemma write64_inv m t i v :
  pm_inv m -> backed m t -> table_addr t -> 0 <= i < 512 -> pm_inv (write64 (slot t i) v m).
Proof.
  intros Hm Hb Ht Hi. apply (pm_write_inv m t); [done|done|apply Ht|..].
  - rewrite length_le_bytes. by apply slot_in_frame.
  - apply le_bytes_is_byte.
Qed.

Lemma write64_backed m a v g : backed (write64 a v m) g <-> backed m g.
Proof. apply pm_write_backed. Qed.

Lemma read64_range m t i :
  pm_inv m -> backed m t -> table_addr t -> 0 <= i < 512 -> in_u64 (read64 m (slot t i)).
Proof.
  intros Hm Hb Ht Hi. unfold read64, in_u64.
  pose proof (pm_read_length m (slot t i) (replicate 8 0)) as Hl. rewrite length_replicate in Hl.
  pose proof (le_val_range (read_phys_mem m (slot t i) (replicate 8 0))) as Hr.
  rewrite Hl in Hr. apply Hr. apply (pm_read_bytes m t); [done|done|apply Ht|].
  rewrite length_replicate. by apply slot_in_frame.
Qed.

Lemma le_val_zeros n : le_val (replicate n 0) = 0.
Proof. induction n as [|n IH]; [done|]. simpl. by rewrite IH. Qed.

End Slots.

(** ** The walk *)

(** How an entry is read: whether it leads anywhere, and to which frame.  A root
    may keep one index for the recursive self map (x86_win.cpp), [hole]: the
    addresses under it name the tables themselves.  An index no address has
    stands for none. *)
Class EntryFmt : Type := {
  pres : Z -> bool;
  fr : Z -> Z;
  pres_zero : pres 0 = false;
  hole : Z
}.

Section Radix.
Context {M : Type} `{!PhysMem M, !EntryFmt}.
Implicit Types (m : M) (root va t e : Z) (k : nat).

(** The table of level [k] on the walk for [va]. *)
Fixpoint table m root va k : option Z :=
  match k with
  | O => Some root
  | S k => t ← table m root va k;
      let e := read64 m (slot t (ix k va)) in
      if pres e then Some (fr e) else None
  end.

(** The last-level entry, the entry when it is present, and the frame it names. *)
Definition leaf m root va : option Z :=
  t ← table m root va 3; Some (read64 m (slot t (ix 3 va))).
Definition pte m root va : option Z :=
  e ← leaf m root va; if pres e then Some e else None.
Definition translate m root va : option Z := fr <$> pte m root va.

Lemma table_prefix m root va va' k :
  prefix k va = prefix k va' -> table m root va k = table m root va' k.
Proof.
  induction k as [|k IH]; [done|]. intros [Hp Hi]%prefix_S_eq. simpl. by rewrite IH, Hi.
Qed.

Lemma table_S m root va k t :
  table m root va k = Some t -> table m root va (S k) =
    let e := read64 m (slot t (ix k va)) in if pres e then Some (fr e) else None.
Proof. simpl. intros ->. done. Qed.

Lemma table_None m root va k k' :
  (k <= k')%nat -> table m root va k = None -> table m root va k' = None.
Proof. induction 1 as [|k' _ IH]; [done|]. intros Hn. simpl. by rewrite IH. Qed.

(** ** The tables of the live spaces

    [R] is the set of roots.  Spaces share the tables of the kernel half, so
    the invariant ranges over all of them at once: a frame is the table of one
    level and one prefix, in whichever spaces it appears. *)

Context `{!PhysMemLaws M}.

(** An address of the space with root [r], outside the self map. *)
Definition live (R : gset Z) (r va : Z) : Prop := r ∈ R /\ ix 0 va <> hole.

Record pt_wf (m : M) (R : gset Z) : Prop := {
  wf_mem : pm_inv m;
  wf_table : forall r va k t, live R r va -> (k <= 3)%nat -> table m r va k = Some t ->
    table_addr t /\ backed m t;
  wf_inj : forall r va k r' va' k' t, live R r va -> live R r' va' -> (k <= 3)%nat -> (k' <= 3)%nat ->
    table m r va k = Some t -> table m r' va' k' = Some t ->
    k = k' /\ prefix k va = prefix k va';
  wf_priv : forall r va r' va' k t, live R r va -> live R r' va' -> (1 <= k <= 3)%nat ->
    table m r va k = Some t -> table m r' va' k = Some t -> ix 0 va < 256 -> r = r'
}.

(** [t] is a table of level [k] of one of the spaces. *)
Definition at_level (m : M) (R : gset Z) (t : Z) (k : nat) : Prop :=
  (k <= 3)%nat /\ exists r va, live R r va /\ table m r va k = Some t.

(** The walk for [va] from [r] reads the entry [i] of [t], at level [k]. *)
Definition passes (m : M) (r va : Z) (k : nat) (t i : Z) : Prop :=
  table m r va k = Some t /\ ix k va = i.

#[global] Instance passes_dec m r va k t i : Decision (passes m r va k t i).
Proof. unfold passes. apply _. Defined.

Section Write.
Context (m : M) (R : gset Z) (t i v : Z) (k : nat).
Context (Hwf : pt_wf m R) (Ht : at_level m R t k) (Hi : 0 <= i < 512).

Let m' : M := write64 (slot t i) v m.

Lemma at_level_ok : table_addr t /\ backed m t.
Proof using Hwf Ht. destruct Ht as (Hk & r & va & Hr & E). by apply (wf_table _ _ Hwf r va k). Qed.

Lemma at_level_inj r va j : live R r va -> (j <= 3)%nat -> table m r va j = Some t -> j = k.
Proof using Hwf Ht.
  intros Hr Hj E. destruct Ht as (Hk & r0 & va0 & Hr0 & E0).
  by destruct (wf_inj _ _ Hwf r va j r0 va0 k t) as [-> _].
Qed.

Lemma write_mem : pm_inv m'.
Proof using Hwf Ht Hi. destruct at_level_ok. apply write64_inv; [apply Hwf|done..]. Qed.

Lemma read_entry : read64 m' (slot t i) = u64 v.
Proof using Hwf Ht Hi. destruct at_level_ok. apply read64_write64_same; [apply Hwf|done..]. Qed.

Lemma read_entry_other r va j t' :
  live R r va -> (j <= 3)%nat -> table m r va j = Some t' -> ~ (t' = t /\ ix j va = i) ->
  read64 m' (slot t' (ix j va)) = read64 m (slot t' (ix j va)).
Proof using Hwf Ht Hi.
  intros Hr Hj E Hne. destruct at_level_ok. destruct (wf_table _ _ Hwf r va j t'); [done..|].
  apply read64_write64_other; [apply Hwf|try done..]; [apply ix_range|]. naive_solver.
Qed.

(** An entry write is seen only by the walks that pass through the entry. *)
Lemma table_write_other r va k' :
  live R r va -> (k' <= 3)%nat -> (k' <= k)%nat \/ ~ passes m r va k t i ->
  table m' r va k' = table m r va k'.
Proof using Hwf Ht Hi.
  intros Hr. induction k' as [|j IH]; intros Hj Hc; [done|].
  simpl. rewrite IH by first [lia | destruct Hc; [left; lia|by right]].
  destruct (table m r va j) as [t'|] eqn:Et'; [|done]. simpl.
  rewrite (read_entry_other r va j); [done|done|lia|done|]. intros [-> Hix].
  pose proof (at_level_inj r va j Hr ltac:(lia) Et') as ->.
  destruct Hc as [Hc|Hc]; [lia|]. by apply Hc.
Qed.

Lemma leaf_write_other r va :
  live R r va -> ~ passes m r va k t i -> leaf m' r va = leaf m r va.
Proof using Hwf Ht Hi.
  intros Hr Hne. unfold leaf. rewrite table_write_other by auto.
  destruct (table m r va 3) as [t'|] eqn:Et'; [|done]. simpl.
  rewrite (read_entry_other r va 3); [done|done|lia|done|]. intros [-> Hix].
  pose proof (at_level_inj r va 3 Hr ltac:(lia) Et') as E3. unfold passes in Hne.
  rewrite <- E3 in Hne. auto.
Qed.

End Write.

(** Well-formedness is a property of the tables alone. *)
Lemma pt_wf_ext m m' R :
  pt_wf m R -> pm_inv m' -> (forall t, backed m t -> backed m' t) ->
  (forall r va k, live R r va -> (k <= 3)%nat -> table m' r va k = table m r va k) -> pt_wf m' R.
Proof.
  intros Hwf Hi Hb He. split; [done|..].
  - intros r va k t Hr Hk. rewrite He by done. intros Ht.
    destruct (wf_table _ _ Hwf r va k t); auto.
  - intros r va k r' va' k' t Hr Hr' Hk Hk'. rewrite !He by done. by apply (wf_inj _ _ Hwf).
  - intros r va r' va' k t Hr Hr' Hk. rewrite !He by (done || lia). by apply (wf_priv _ _ Hwf).
Qed.

(** *** A write that keeps where the entry leads keeps every table *)

Section WriteSame.
Context (m : M) (R : gset Z) (t i v : Z) (k : nat).
Context (Hwf : pt_wf m R) (Ht : at_level m R t k) (Hi : 0 <= i < 512) (Hk : (k < 3)%nat).
Context (Hp : pres (u64 v) = pres (read64 m (slot t i))).
Context (Hf : pres (read64 m (slot t i)) = true -> fr (u64 v) = fr (read64 m (slot t i))).

Lemma table_write_same r va k' :
  live R r va -> (k' <= 3)%nat -> table (write64 (slot t i) v m) r va k' = table m r va k'.
Proof using Hwf Ht Hi Hk Hp Hf.
  intros Hr. induction k' as [|j IH]; intros Hj; [done|].
  simpl. rewrite IH by lia. destruct (table m r va j) as [t'|] eqn:Et'; [|done]. simpl.
  destruct (decide (t' = t /\ ix j va = i)) as [[-> ->]|Hne].
  - rewrite (read_entry _ R _ _ _ k) by done. rewrite Hp. case_match; [f_equal; auto|done].
  - by rewrite (read_entry_other _ R _ _ _ k) with (r := r) by (done || lia).
Qed.

Lemma leaf_write_same r va : live R r va -> leaf (write64 (slot t i) v m) r va = leaf m r va.
Proof using Hwf Ht Hi Hk Hp Hf.
  intros Hr. unfold leaf. rewrite table_write_same by done.
  destruct (table m r va 3) as [t'|] eqn:Et'; [|done]. simpl.
  rewrite (read_entry_other _ R _ _ _ k) with (r := r); [done..|].
  intros [-> _]. pose proof (at_level_inj _ _ _ _ Hwf Ht r va 3 Hr ltac:(lia) Et'). lia.
Qed.

Lemma pt_wf_write_same : pt_wf (write64 (slot t i) v m) R.
Proof using Hwf Ht Hi Hk Hp Hf.
  apply (pt_wf_ext m).
  - done.
  - by apply (write_mem _ R _ _ _ k).
  - intros f. apply write64_backed.
  - intros r va k' Hr Hk'. by apply table_write_same.
Qed.

End WriteSame.

(** *** A write to a last-level entry changes the pages mapped there *)

Section WriteLeaf.
Context (m : M) (R : gset Z) (t i v : Z).
Context (Hwf : pt_wf m R) (Ht : at_level m R t 3) (Hi : 0 <= i < 512).

Lemma table_write_leaf r va k :
  live R r va -> (k <= 3)%nat -> table (write64 (slot t i) v m) r va k = table m r va k.
Proof using Hwf Ht Hi. intros Hr Hk. apply (table_write_other _ R _ _ _ 3); auto. Qed.

Lemma pt_wf_write_leaf : pt_wf (write64 (slot t i) v m) R.
Proof using Hwf Ht Hi.
  apply (pt_wf_ext m).
  - done.
  - by apply (write_mem _ R _ _ _ 3).
  - intros f. apply write64_backed.
  - intros r va k Hr Hk. by apply table_write_leaf.
Qed.

Lemma leaf_write_leaf r va :
  live R r va -> leaf (write64 (slot t i) v m) r va =
    if decide (passes m r va 3 t i) then Some (u64 v) else leaf m r va.
Proof using Hwf Ht Hi.
  intros Hr. case_decide as Hd; [|by apply (leaf_write_other _ R _ _ _ 3)].
  destruct Hd as [E Hix]. unfold leaf. rewrite table_write_leaf by auto. rewrite E. simpl. rewrite Hix.
  f_equal. by apply (read_entry _ R _ _ _ 3).
Qed.

End WriteLeaf.

(** *** Hanging a fresh, empty table below an absent entry *)

Section Hang.
Context (m : M) (R : gset Z) (t i v c : Z) (k : nat).
Context (Hwf : pt_wf m R) (Ht : at_level m R t k) (Hi : 0 <= i < 512) (Hk : (k < 3)%nat).
Context (Hold : pres (read64 m (slot t i)) = false).
Context (Hp : pres (u64 v) = true) (Hf : fr (u64 v) = c) (Hc : table_addr c) (Hcb : backed m c).
Context (Hfresh : forall r va j, live R r va -> (j <= 3)%nat -> table m r va j <> Some c).
Context (Hzero : forall i, 0 <= i < 512 -> read64 m (slot c i) = 0).

Let m' : M := write64 (slot t i) v m.

Lemma fresh_not_t : c <> t.
Proof using Ht Hfresh.
  destruct Ht as (? & r & va & Hr & E). intros Hct. apply (Hfresh r va k); [done..|congruence].
Qed.

Lemma fresh_entry j : 0 <= j < 512 -> read64 m' (slot c j) = 0.
Proof using Hwf Ht Hi Hc Hcb Hfresh Hzero.
  intros Hj. destruct (at_level_ok _ _ _ _ Hwf Ht). unfold m'.
  rewrite read64_write64_other; [by apply Hzero|apply Hwf|try done..].
  intros [= ? ?]. by apply fresh_not_t.
Qed.

Lemma table_hang r va k' :
  live R r va -> (k' <= 3)%nat ->
  table m' r va k' =
    if decide ((k < k')%nat /\ passes m r va k t i)
    then (if decide (k' = S k) then Some c else None) else table m r va k'.
Proof using All.
  intros Hr Hk'. case_decide as Hd.
  - destruct Hd as [Hlt [E Hix]]. induction Hlt as [|j Hlt IH].
    + rewrite decide_True by done. rewrite (table_S _ _ _ _ t).
      * cbn zeta. rewrite Hix. unfold m'. rewrite (read_entry _ R _ _ _ k) by done. by rewrite Hp, Hf.
      * unfold m'. by rewrite (table_write_other _ R _ _ _ k) by auto with lia.
    + rewrite decide_False by lia. simpl. rewrite IH by lia. case_decide as Hj; [subst j|done].
      simpl. by rewrite fresh_entry, pres_zero by apply ix_range.
  - apply (table_write_other _ R _ _ _ k); [done..|].
    destruct (decide (k' <= k)%nat); [by left|right]. intros ?. apply Hd. split; [lia|done].
Qed.

Lemma pt_wf_hang : pt_wf m' R.
Proof using All.
  split; [by apply (write_mem _ R _ _ _ k)|..].
  - intros r va k' t' Hr Hk'. unfold m'. rewrite write64_backed. fold m'.
    rewrite table_hang by done. repeat case_decide; [by intros [= <-]|done|].
    by apply (wf_table _ _ Hwf r va k').
  - intros r va k1 r' va' k2 t' Hr Hr' Hk1 Hk2. rewrite !table_hang by done.
    destruct (decide (_ /\ _)) as [[_ [E1 I1]]|]; destruct (decide (_ /\ _)) as [[_ [E2 I2]]|];
      repeat case_decide; try done.
    + intros _ _. split; [lia|]. subst k1. apply prefix_S_eq. split; [|congruence].
      by apply (wf_inj _ _ Hwf r va k r' va' k t); [..|lia|lia| |].
    + intros [= <-] Hx. by destruct (Hfresh r' va' k2).
    + intros Hx [= <-]. by destruct (Hfresh r va k1).
    + by apply (wf_inj _ _ Hwf).
  - intros r va r' va' k1 t' Hr Hr' Hk1. rewrite !table_hang by (done || lia).
    destruct (decide (_ /\ _)) as [[_ [E1 I1]]|]; destruct (decide (_ /\ _)) as [[_ [E2 I2]]|];
      repeat case_decide; try done.
    + intros _ _ Hu. destruct (decide (k = 0%nat)) as [Hk0|Hk0].
      * rewrite Hk0 in E1, E2. simpl in E1, E2. congruence.
      * by apply (wf_priv _ _ Hwf r va r' va' k t); [..|lia| | |].
    + intros [= <-] Hx. by destruct (Hfresh r' va' k1); [|lia|].
    + intros Hx [= <-]. by destruct (Hfresh r va k1); [|lia|].
    + by apply (wf_priv _ _ Hwf).
Qed.

Lemma pte_hang r va : live R r va -> pte m' r va = pte m r va.
Proof using All.
  intros Hr. unfold pte, leaf. rewrite table_hang by done. case_decide as Hd.
  - destruct Hd as [_ [E Hix]].
    assert (table m r va (S k) = None) as Hn.
    { rewrite (table_S _ _ _ _ t) by done. cbn zeta. by rewrite Hix, Hold. }
    rewrite (table_None m r va (S k) 3) by (done || lia). case_decide; [|done]. simpl.
    by rewrite fresh_entry, pres_zero by apply ix_range.
  - destruct (table m r va 3) as [t'|] eqn:Et'; [|done]. simpl. unfold m'.
    rewrite (read_entry_other _ R _ _ _ k) with (r := r); [done..|].
    intros [-> _]. pose proof (at_level_inj _ _ _ _ Hwf Ht r va 3 Hr ltac:(lia) Et'). lia.
Qed.

End Hang.

(** *** Changes elsewhere in memory *)

(** Two memories that agree on every table entry walk alike. *)
Lemma table_ext m m' R :
  pt_wf m R ->
  (forall r va k t i, live R r va -> (k <= 3)%nat -> table m r va k = Some t -> 0 <= i < 512 ->
     read64 m' (slot t i) = read64 m (slot t i)) ->
  forall r va k, live R r va -> (k <= 3)%nat -> table m' r va k = table m r va k.
Proof.
  intros Hwf He r va k Hr. induction k as [|k IH]; intros Hk; [done|].
  simpl. rewrite IH by lia. destruct (table m r va k) as [t|] eqn:E; [|done]. simpl.
  by rewrite (He r va k t) by (done || lia || apply ix_range).
Qed.

Lemma leaf_ext m m' R :
  pt_wf m R ->
  (forall r va k t i, live R r va -> (k <= 3)%nat -> table m r va k = Some t -> 0 <= i < 512 ->
     read64 m' (slot t i) = read64 m (slot t i)) ->
  forall r va, live R r va -> leaf m' r va = leaf m r va.
Proof.
  intros Hwf He r va Hr. unfold leaf. rewrite (table_ext m m' R) by (done || lia).
  destruct (table m r va 3) as [t|] eqn:E; [|done]. simpl.
  by rewrite (He r va 3%nat t) by (done || lia || apply ix_range).
Qed.

End Radix.
