(* ===== verification/Space.v ===== *)
(** * Address spaces

    What the two architectures share: [struct addr_space] (the fields are the
    same in emu/x86/addr_space.hpp and emu/arm64/addr_space.hpp), the state an
    operation on a space runs in, and how the page tables may change under it.

    An operation holds the MMU's lock and a reference to one space, so its
    state is the pair of them: what it did to the space before a throw stays. *)

From S2P Require Import Prelude Phys Mmu PageTable.
From stdpp Require Import gmap.
From stdpp Require Import options.

Open Scope Z_scope.
Open Scope kern_scope.

Record addr_space : Type := Space {
  root_pa : Z;                 (** [pml4_pa] / [ttbr_pa] *)
  shadow : gmap Z Z;
  user_next_ : Z;
  kernel_next_ : Z
}.

Definition new_space (root : Z) : addr_space := Space root ∅ 0x10000 0xFFFFF80000000000.

Definition set_shadow (f : gmap Z Z -> gmap Z Z) (s : addr_space) : addr_space :=
  Space (root_pa s) (f (shadow s)) (user_next_ s) (kernel_next_ s).

Section Monad.
Context {M : Type}.

Definition sst (A : Type) : Type := st (mmu M * addr_space) A.

Definition on_mmu {A} (m : st (mmu M) A) : sst A :=
  fun s => let '(r, m') := m s.1 in (r, (m', s.2)).
Definition on_space (f : addr_space -> addr_space) : sst unit :=
  fun s => (Ok tt, (s.1, f s.2)).
Definition the_space : sst addr_space := fun s => (Ok s.2, s).

(** [addr_t& cursor = (prot & prot_supervisor) ? kernel_next_ : user_next_;
    addr_t va = cursor; cursor += aligned;] *)
Definition bump (supervisor : bool) (n : Z) : sst Z := fun '(m, s) =>
  if supervisor
  then (Ok (kernel_next_ s), (m, Space (root_pa s) (shadow s) (user_next_ s) (kernel_next_ s +w n)))
  else (Ok (user_next_ s), (m, Space (root_pa s) (shadow s) (user_next_ s +w n) (kernel_next_ s))).

Definition note (pa va table_pa level : Z) (mapped : bool) : sst unit :=
  on_mmu (modify (emit (note_page pa va table_pa level mapped))).

Definition flush : sst unit := on_mmu (modify (emit flush_all_tlb)).

Definition set_kernel_root (r : Z) (s : mmu M) : mmu M :=
  Mmu (phys s) (phys_next_ s) r (spaces_ s) (trace s).
Definition set_spaces (f : gset Z -> gset Z) (s : mmu M) : mmu M :=
  Mmu (phys s) (phys_next_ s) (kernel_root_ s) (f (spaces_ s)) (trace s).

Lemma wp_on_mmu {A} (m : st (mmu M) A) s sp Q E :
  wp m s (fun a s' => Q a (s', sp)) (fun e s' => E e (s', sp)) -> wp (on_mmu m) (s, sp) Q E.
Proof. unfold wp, on_mmu. simpl. by destruct (m s) as [[a|e] s']. Qed.

End Monad.

(** ** Copies and lookups

    [copy_virt], [read_virt], [write_virt], [virt_to_phys] and [phys_to_virt]
    are written alike in both MMUs, over their own [translate_virt]. *)

Section Copy.
Context {M : Type} `{!PhysMem M}.
Context (translate_virt : M -> addr_space -> Z -> option Z).

(** The frame a copy goes to: the walk decides, the shadow map stands in. *)
Definition frame_of (m : M) (s : addr_space) (page : Z) : option Z :=
  match translate_virt m s page with
  | Some f => Some f
  | None => shadow s !! page
  end.

(** [done] bytes are behind; [fuel] bounds the rounds, one per page touched. *)
Fixpoint copy_virt (fuel : nat) (s : addr_space) (va : Z) (buf : list Z) (done : nat)
    (write : bool) : st (mmu M) (list Z) :=
  if (length buf <=? done)%nat then ret buf else
  match fuel with
  | O => throw out_of_fuel
  | S fuel =>
    let cur_va := va +w Z.of_nat done in
    let page := page_align cur_va in
    let page_off := cur_va - page in
    let chunk := Z.to_nat (Z.min (Z.of_nat (length buf) - Z.of_nat done) (page_size - page_off)) in
    let! m := get in
    match frame_of (phys m) s page with
    | None => throw unmapped_va
    | Some frame =>
      let pa := frame +w page_off in
      let bytes := take chunk (drop done buf) in
      if write then
        modify (fun m => set_phys (write_phys_mem pa bytes (phys m)) m) ;;
        copy_virt fuel s va buf (done + chunk) write
      else
        copy_virt fuel s va (blit done (read_phys_mem (phys m) pa bytes) buf) (done + chunk) write
    end
  end.

(** A round moves at least one byte, and all but the first and the last a page. *)
Definition copy_fuel (size : nat) : nat := (size / 4096 + 2)%nat.

(** [read_virt] fills the caller's buffer, [write_virt] takes the bytes from it. *)
Definition read_virt (s : addr_space) (va : Z) (buf : list Z) : st (mmu M) (list Z) :=
  copy_virt (copy_fuel (length buf)) s va buf 0 false.
Definition write_virt (s : addr_space) (va : Z) (buf : list Z) : st (mmu M) unit :=
  copy_virt (copy_fuel (length buf)) s va buf 0 true ;; ret tt.

Definition virt_to_phys (m : M) (s : addr_space) (va : Z) : option Z :=
  let page := page_align va in
  match translate_virt m s page with
  | Some pa => Some (pa +w (va - page))
  | None => match shadow s !! page with
            | Some pa => Some (pa +w (va - page))
            | None => None
            end
  end.

End Copy.

(** ** Creating and destroying a space

    [create_addr_space] is the same in both MMUs: a space after the first gets
    a copy of the upper half of the first one's root. *)

Section Create.
Context {M : Type} `{!PhysMem M}.

Definition copy_kernel_entry (root new : Z) (i : Z) : st (mmu M) unit :=
  let off := i * 8 in
  let! e := read_phys (root +w off) in write_phys (new +w off) e.

Fixpoint copy_entries (root new : Z) (n : nat) (i : Z) : st (mmu M) unit :=
  match n with
  | O => ret tt
  | S n => copy_kernel_entry root new i ;; copy_entries root new n (i + 1)
  end.

Definition create_addr_space : st (mmu M) addr_space :=
  let! root := alloc_phys_locked page_size in
  let! s := get in
  (if kernel_root_ s =? 0 then modify (set_kernel_root root)
   else copy_entries (kernel_root_ s) root 256 256) ;;
  modify (set_spaces (fun sp => {[ root ]} ∪ sp)) ;;
  ret (new_space root).

Definition destroy_addr_space (s : addr_space) : st (mmu M) unit :=
  modify (set_spaces (fun sp => sp ∖ {[ root_pa s ]})).

End Create.

(** The first shadow entry of that frame in the container's order. *)
Definition phys_to_virt (s : addr_space) (pa : Z) : option Z :=
  let pa_page := page_align pa in
  let offset := pa - pa_page in
  match find (fun '(_, mapped_pa) => mapped_pa =? pa_page) (map_to_list (shadow s)) with
  | Some (va_page, _) => Some (va_page +w offset)
  | None => None
  end.

(** ** How tables grow *)

Section Grow.
Context {M : Type} `{!PhysMem M, !PhysMemLaws M, !EntryFmt}.
Implicit Types (s : mmu M) (m : M) (R : gset Z).

Definition is_table m R (f : Z) : Prop :=
  exists r va k, live R r va /\ (k <= 3)%nat /\ table m r va k = Some f.

(** The MMU's invariant: the allocator's, the tree of tables, and that the
    first space's root and every registered one are roots. *)
Record mmu_wf s R : Prop := {
  mw_inv : mmu_inv s;
  mw_pt : pt_wf (phys s) R;
  mw_spaces : spaces_ s ⊆ R;
  mw_kernel : kernel_root_ s = 0 \/ kernel_root_ s ∈ R
}.

(** Between [s] and [s'] tables were added, and nothing else: every page is
    mapped as it was, every table is where it was, memory that is not a table
    keeps its contents, and the new tables come from the allocator. *)
Record grow R s s' : Prop := {
  gr_wf : mmu_wf s' R;
  gr_root : kernel_root_ s' = kernel_root_ s;
  gr_spaces : spaces_ s' = spaces_ s;
  gr_trace : trace s' = trace s;
  gr_next : phys_next_ s <= phys_next_ s';
  gr_backed : forall f, frame_aligned f -> backed (phys s) f -> backed (phys s') f;
  gr_pte : forall r va, live R r va -> pte (phys s') r va = pte (phys s) r va;
  gr_table : forall r va k t, live R r va -> (k <= 3)%nat ->
    table (phys s) r va k = Some t -> table (phys s') r va k = Some t;
  gr_new : forall f, is_table (phys s') R f ->
    is_table (phys s) R f \/ phys_next_ s <= f < phys_next_ s';
  gr_data : forall f b buf, frame_aligned f -> backed (phys s) f -> ~ is_table (phys s) R f ->
    in_frame f b (length buf) -> read_phys_mem (phys s') b buf = read_phys_mem (phys s) b buf
}.

Lemma grow_refl R s : mmu_wf s R -> grow R s s.
Proof. intros Hs. split; auto; lia. Qed.

Lemma table_backed s R f : mmu_wf s R -> is_table (phys s) R f -> table_addr f /\ backed (phys s) f.
Proof. intros Hs (r & va & k & Hl & Hk & E). by apply (wf_table _ _ (mw_pt _ _ Hs) r va k). Qed.

Lemma fresh_unbacked s f :
  mmu_inv s -> frame_aligned f -> phys_next_ s <= f <= phys_end -> ~ backed (phys s) f.
Proof. intros (_ & _ & _ & Hfree). auto. Qed.

Lemma next_le_end s : mmu_inv s -> phys_base <= phys_next_ s <= phys_end.
Proof. by intros (_ & _ & Hrange & _). Qed.

(** A backed frame that was not a table is none afterwards either. *)
Lemma grow_not_table R s s' f :
  grow R s s' -> mmu_inv s -> frame_aligned f -> backed (phys s) f ->
  ~ is_table (phys s) R f -> ~ is_table (phys s') R f.
Proof.
  intros G Hi Hf Hb Hn Ht. destruct (gr_new _ _ _ G f Ht) as [?|?]; [done|].
  pose proof (next_le_end s' (mw_inv _ _ (gr_wf _ _ _ G))).
  by apply (fresh_unbacked s f); [..|lia|].
Qed.

Lemma grow_trans R s1 s2 s3 : mmu_inv s1 -> grow R s1 s2 -> grow R s2 s3 -> grow R s1 s3.
Proof.
  intros Hi G1 G2. pose proof (gr_next _ _ _ G1). pose proof (gr_next _ _ _ G2).
  split.
  - apply G2.
  - by rewrite (gr_root _ _ _ G2), (gr_root _ _ _ G1).
  - by rewrite (gr_spaces _ _ _ G2), (gr_spaces _ _ _ G1).
  - by rewrite (gr_trace _ _ _ G2), (gr_trace _ _ _ G1).
  - lia.
  - intros f Ha Hf. by apply (gr_backed _ _ _ G2), (gr_backed _ _ _ G1).
  - intros r va Hl. by rewrite (gr_pte _ _ _ G2), (gr_pte _ _ _ G1).
  - intros r va k t Hl Hk E. by apply (gr_table _ _ _ G2), (gr_table _ _ _ G1).
  - intros f Hf. destruct (gr_new _ _ _ G2 f Hf) as [Hf'|?]; [|right; lia].
    destruct (gr_new _ _ _ G1 f Hf') as [?|?]; [by left|right; lia].
  - intros f b buf Ha Hb Hn Hin. rewrite (gr_data _ _ _ G2 f); [|done|..|done].
    + by apply (gr_data _ _ _ G1 f).
    + by apply (gr_backed _ _ _ G1).
    + by apply (grow_not_table R s1 s2).
Qed.

(** *** Allocation grows nothing *)

Lemma alloc_read64 s n s' f i :
  alloc_post s n s' -> backed (phys s) f -> table_addr f -> 0 <= i < 512 ->
  read64 (phys s') (slot f i) = read64 (phys s) (slot f i).
Proof.
  intros A Hb Hf Hi. unfold read64. f_equal. apply (ap_old _ _ _ A f); [apply Hf|done|].
  rewrite length_replicate. by apply slot_in_frame.
Qed.

Section Alloc.
Context (R : gset Z) (s : mmu M) (n : Z) (s' : mmu M) (Hs : mmu_wf s R) (A : alloc_post s n s').

Lemma alloc_entry r va k t i :
  live R r va -> (k <= 3)%nat -> table (phys s) r va k = Some t -> 0 <= i < 512 ->
  read64 (phys s') (slot t i) = read64 (phys s) (slot t i).
Proof using Hs A.
  intros Hl Hk E Hi. destruct (wf_table _ _ (mw_pt _ _ Hs) r va k t); [done..|].
  by apply (alloc_read64 s n).
Qed.

Lemma alloc_table r va k :
  live R r va -> (k <= 3)%nat -> table (phys s') r va k = table (phys s) r va k.
Proof using Hs A. apply (table_ext _ _ R); [apply Hs|apply alloc_entry]. Qed.

Lemma alloc_is_table f : is_table (phys s') R f <-> is_table (phys s) R f.
Proof using Hs A.
  split; intros (r & va & k & Hl & Hk & E); exists r, va, k; [rewrite alloc_table in E by done|]; [done|].
  by rewrite alloc_table.
Qed.

Lemma alloc_backed f : frame_aligned f -> backed (phys s) f -> backed (phys s') f.
Proof using A. intros Hf Hb. apply (ap_backed _ _ _ A); auto. Qed.

Lemma alloc_pt_wf : pt_wf (phys s') R.
Proof using Hs A.
  pose proof (mw_pt _ _ Hs) as Hw. split; [apply (ap_inv _ _ _ A)|..].
  - intros r va k t Hl Hk. rewrite alloc_table by done. intros E.
    destruct (wf_table _ _ Hw r va k t) as [Ht Hb]; [done..|]. split; [done|].
    by apply alloc_backed; [apply Ht|].
  - intros r va k r' va' k' t ????. rewrite !alloc_table by done. by apply (wf_inj _ _ Hw).
  - intros r va r' va' k t ???. rewrite !alloc_table by (done || lia). by apply (wf_priv _ _ Hw).
Qed.

Lemma grow_alloc : 0 <= n -> grow R s s'.
Proof using Hs A.
  intros Hn. split; try apply A.
  - split; [apply A|apply alloc_pt_wf|rewrite (ap_spaces _ _ _ A); apply Hs
      |rewrite (ap_root _ _ _ A); apply Hs].
  - rewrite (ap_next _ _ _ A). lia.
  - apply alloc_backed.
  - intros r va Hl. unfold pte. by rewrite (leaf_ext _ _ R (mw_pt _ _ Hs) alloc_entry).
  - intros r va k t Hl Hk. by rewrite alloc_table.
  - intros f Hf. left. by apply alloc_is_table.
  - intros f b buf Hf Hb _ Hin. by apply (ap_old _ _ _ A f).
Qed.

End Alloc.

(** *** Writing a table entry *)

(** [s] with the entry [i] of the table [t] set to [v]. *)
Definition put_entry (t i v : Z) (s : mmu M) : mmu M := set_phys (write64 (slot t i) v (phys s)) s.

(** The bytes outside the entry's frame stay. *)
Lemma put_entry_data s t i v f b buf :
  pm_inv (phys s) -> table_addr t -> backed (phys s) t -> 0 <= i < 512 ->
  frame_aligned f -> backed (phys s) f -> f <> t -> in_frame f b (length buf) ->
  read_phys_mem (phys (put_entry t i v s)) b buf = read_phys_mem (phys s) b buf.
Proof.
  intros Hm Ht Hb Hi Hf Hbf Hne Hin. cbn [put_entry set_phys phys]. unfold write64.
  pose proof (slot_in_frame t i Ht Hi) as Hs.
  apply (pm_read_write_other _ t _ _ f); [done|done|apply Ht|by rewrite length_le_bytes
    |apply le_bytes_is_byte|done|done|done|].
  rewrite length_le_bytes. unfold in_frame, frame_aligned in *. destruct Ht as [Ht _].
  unfold frame_aligned in Ht.
  apply Z.mod_divide in Ht as [p ->]; [|lia]. apply Z.mod_divide in Hf as [q ->]; [|lia]. lia.
Qed.

Lemma put_entry_inv s R t i v k :
  mmu_wf s R -> at_level (phys s) R t k -> 0 <= i < 512 -> mmu_inv (put_entry t i v s).
Proof.
  intros Hs Ht Hi. destruct (at_level_ok _ _ _ _ (mw_pt _ _ Hs) Ht) as [Hta Htb].
  destruct (mw_inv _ _ Hs) as (Hm & Ha & Hr & Hfree).
  split_and!; cbn [put_entry set_phys phys phys_next_]; [by apply write64_inv|done|lia|lia|].
  intros f Hf Hfr. rewrite write64_backed. auto.
Qed.

Lemma at_level_is_table m R t k : at_level m R t k -> is_table m R t.
Proof. intros (Hk & r & va & Hl & E). by exists r, va, k. Qed.

Section PutEntry.
Context (R : gset Z) (s : mmu M) (t i v : Z) (k : nat).
Context (Hs : mmu_wf s R) (Ht : at_level (phys s) R t k) (Hi : 0 <= i < 512) (Hk : (k < 3)%nat).

Lemma put_entry_frame f b buf :
  frame_aligned f -> backed (phys s) f -> ~ is_table (phys s) R f -> in_frame f b (length buf) ->
  read_phys_mem (phys (put_entry t i v s)) b buf = read_phys_mem (phys s) b buf.
Proof using Hs Ht Hi.
  intros Hf Hb Hn Hin. destruct (at_level_ok _ _ _ _ (mw_pt _ _ Hs) Ht) as [Hta Htb].
  apply (put_entry_data s t i v f); try done; [apply (mw_inv _ _ Hs)|].
  intros ->. apply Hn. by apply (at_level_is_table _ _ _ k).
Qed.

(** Rewriting an entry that still leads to the same place. *)
Lemma grow_same :
  pres (u64 v) = pres (read64 (phys s) (slot t i)) ->
  (pres (read64 (phys s) (slot t i)) = true -> fr (u64 v) = fr (read64 (phys s) (slot t i))) ->
  grow R s (put_entry t i v s).
Proof using Hs Ht Hi Hk.
  intros Hp Hf. pose proof (mw_pt _ _ Hs) as Hw.
  assert (forall r va j, live R r va -> (j <= 3)%nat ->
    table (phys (put_entry t i v s)) r va j = table (phys s) r va j) as Htab.
  { intros r va j Hl Hj. cbn [put_entry set_phys phys]. by apply (table_write_same _ R _ _ _ k). }
  split; try done.
  - split; [by apply (put_entry_inv s R t i v k)| |apply Hs|apply Hs]. by apply (pt_wf_write_same _ _ _ _ _ k).
  - intros f _ Hb. cbn. by rewrite write64_backed.
  - intros r va Hl. unfold pte. cbn [put_entry set_phys phys]. by rewrite (leaf_write_same _ R _ _ _ k).
  - intros r va j t' Hl Hj. by rewrite Htab.
  - intros f (r & va & j & Hl & Hj & E). rewrite Htab in E by done. left. by exists r, va, j.
  - intros f b buf. apply put_entry_frame.
Qed.

(** Hanging the fresh table [c] under an absent entry. *)
Context (c : Z).
Context (Hold : pres (read64 (phys s) (slot t i)) = false).
Context (Hp : pres (u64 v) = true) (Hf : fr (u64 v) = c) (Hc : table_addr c) (Hcb : backed (phys s) c).
Context (Hfresh : ~ is_table (phys s) R c).
Context (Hzero : forall i, 0 <= i < 512 -> read64 (phys s) (slot c i) = 0).

Lemma hang_fresh r va j : live R r va -> (j <= 3)%nat -> table (phys s) r va j <> Some c.
Proof using Hfresh. intros Hl Hj E. apply Hfresh. by exists r, va, j. Qed.

Lemma hang_table r va j :
  live R r va -> (j <= 3)%nat ->
  table (phys (put_entry t i v s)) r va j =
    if decide ((k < j)%nat /\ passes (phys s) r va k t i)
    then (if decide (j = S k) then Some c else None) else table (phys s) r va j.
Proof using All.
  intros Hl Hj. apply (table_hang _ R); try done; [apply Hs|]. apply hang_fresh.
Qed.

Lemma hang_wf : mmu_wf (put_entry t i v s) R.
Proof using All.
  split; [by apply (put_entry_inv s R t i v k)| |apply Hs|apply Hs].
  cbn [put_entry set_phys phys].
  apply (pt_wf_hang _ _ _ _ _ c k); try done; [apply Hs|]. apply hang_fresh.
Qed.

Lemma hang_pte r va : live R r va -> pte (phys (put_entry t i v s)) r va = pte (phys s) r va.
Proof using All.
  intros Hl. cbn [put_entry set_phys phys].
  apply (pte_hang _ R _ _ _ c k); try done; [apply Hs|]. apply hang_fresh.
Qed.

Lemma hang_mono r va j t' :
  live R r va -> (j <= 3)%nat -> table (phys s) r va j = Some t' ->
  table (phys (put_entry t i v s)) r va j = Some t'.
Proof using All.
  intros Hl Hj E. rewrite hang_table by done. case_decide as Hd; [|done].
  destruct Hd as [Hlt [Et Hix]]. exfalso.
  assert (table (phys s) r va (S k) = None) as Hn.
  { rewrite (table_S _ _ _ _ t) by done. cbn zeta. by rewrite Hix, Hold. }
  by rewrite (table_None _ _ _ (S k) j) in E by (done || lia).
Qed.

End PutEntry.

(** *** [ensure_table]

    What both implementations promise: afterwards the entry [i] of [t] leads to
    the table [c], and at most one table was added. *)

Record ensure_post R s (t i : Z) (k : nat) (c : Z) s' : Prop := {
  en_grow : grow R s s';
  en_next : phys_next_ s' <= phys_next_ s + page_size;
  en_child : forall r va, live R r va -> table (phys s) r va k = Some t -> ix k va = i ->
    table (phys s') r va (S k) = Some c
}.

(** Running out of memory changes nothing. *)
Definition ensure_fail s (e : error) s' : Prop :=
  e = out_of_phys /\ s' = s /\ phys_end < phys_next_ s + page_size.

Lemma size_align_page : size_align page_size = page_size.
Proof. reflexivity. Qed.

Lemma alloc_page_spec s :
  mmu_inv s ->
  wp (alloc_phys_locked page_size) s
    (fun c s' => c = phys_next_ s /\ alloc_post s page_size s' /\ c + page_size <= phys_end)
    (ensure_fail s).
Proof.
  intros Hi. unfold wp. destruct (alloc_phys_locked page_size s) as [[c|e] s'] eqn:E.
  - apply alloc_phys_locked_ok in E as (-> & Hle & A); [|done]. by rewrite size_align_page in *.
  - pose proof (alloc_phys_locked_throw _ _ _ _ E) as [-> ->]. split_and!; [done..|].
    unfold alloc_phys_locked in E. rewrite size_align_page in E. destruct (next_le_end s Hi).
    destruct (Z.ltb_spec (phys_end -w phys_next_ s) page_size) as [Hlt|]; [|done].
    rewrite u64_small in Hlt; [lia|]. unfold in_u64, phys_end, phys_base, phys_size in *. lia.
Qed.

Section EnsureHang.
Context (R : gset Z) (s s1 : mmu M) (t i v : Z) (k : nat).
Context (Hs : mmu_wf s R) (Ht : at_level (phys s) R t k).
Context (Hold : pres (read64 (phys s) (slot t i)) = false) (A : alloc_post s page_size s1).

Let c : Z := phys_next_ s.

Lemma child_addr : table_addr c.
Proof using Hs.
  pose proof (next_le_end s (mw_inv _ _ Hs)) as Hn. destruct (mw_inv _ _ Hs) as (_ & Hal & _).
  split; [done|]. unfold phys_end, phys_base, phys_size in Hn. unfold c. clear -Hn. lia.
Qed.

Lemma child_fresh : ~ is_table (phys s1) R c.
Proof using Hs A.
  rewrite alloc_is_table by done. intros Hx. destruct (table_backed s R c Hs Hx) as [Hc Hb].
  pose proof (next_le_end s (mw_inv _ _ Hs)).
  by apply (fresh_unbacked s c (mw_inv _ _ Hs)); [apply Hc|unfold c; lia|].
Qed.

Lemma child_backed : backed (phys s1) c.
Proof using Hs A. apply (ap_backed _ _ _ A); [apply child_addr|]. unfold c, page_size. lia. Qed.

Lemma child_zero j : 0 <= j < 512 -> read64 (phys s1) (slot c j) = 0.
Proof using Hs A.
  intros Hj. unfold read64. rewrite (ap_zero _ _ _ A c).
  - rewrite length_replicate. apply le_val_zeros.
  - apply child_addr.
  - unfold c, page_size. lia.
  - rewrite length_replicate. apply slot_in_frame; [apply child_addr|done].
Qed.

Lemma parent_level : at_level (phys s1) R t k.
Proof using Hs Ht A.
  destruct Ht as (Hk3 & r & va & Hl & E). split; [done|]. exists r, va. split; [done|].
  by rewrite (alloc_table R s page_size).
Qed.

Context (Hi : 0 <= i < 512) (Hk : (k < 3)%nat).

Lemma parent_entry : pres (read64 (phys s1) (slot t i)) = false.
Proof using Hs Ht Hi Hold A.
  destruct (at_level_ok _ _ _ _ (mw_pt _ _ Hs) Ht). by rewrite (alloc_read64 s page_size).
Qed.

Lemma ensure_hang :
  pres (u64 v) = true -> fr (u64 v) = c -> ensure_post R s t i k c (put_entry t i v s1).
Proof using All.
  intros Hp Hf. pose proof (grow_alloc R s page_size s1 Hs A ltac:(done)) as G.
  pose proof (gr_wf _ _ _ G) as Hs1. pose proof parent_level as Ht1.
  pose proof child_addr as Hc. pose proof child_fresh as Hfr. pose proof child_backed as Hcb.
  pose proof child_zero as Hz. pose proof parent_entry as Ho. pose proof (ap_next _ _ _ A) as Hnx.
  split.
  - split; try apply A.
    + by apply (hang_wf R s1 t i v k Hs1 Ht1 Hi Hk c).
    + cbn. rewrite Hnx. unfold page_size. lia.
    + intros f Ha Hb. cbn. rewrite write64_backed. by apply (gr_backed _ _ _ G).
    + intros r va Hl. rewrite <- (gr_pte _ _ _ G) by done.
      by apply (hang_pte R s1 t i v k Hs1 Ht1 Hi Hk c).
    + intros r va j t' Hl Hj E. apply (hang_mono R s1 t i v k Hs1 Ht1 Hi Hk c); try done.
      by apply (gr_table _ _ _ G).
    + intros f (r & va & j & Hl & Hj & E).
      rewrite (hang_table R s1 t i v k Hs1 Ht1 Hi Hk c) in E by done.
      repeat case_decide; simplify_eq; [right; cbn; rewrite Hnx; unfold page_size; lia|].
      left. exists r, va, j. split_and!; try done. by rewrite (alloc_table R s page_size s1) in E.
    + intros f b buf Ha Hb Hn Hin. rewrite <- (gr_data _ _ _ G f b buf) by done.
      apply (put_entry_frame R s1 t i v k Hs1 Ht1 Hi f); try done.
      * by apply (gr_backed _ _ _ G).
      * by rewrite (alloc_is_table R s page_size).
  - cbn. rewrite Hnx. lia.
  - intros r va Hl E Hix. rewrite (hang_table R s1 t i v k Hs1 Ht1 Hi Hk c) by (done || lia).
    rewrite decide_True; [by rewrite decide_True|]. split; [lia|]. split; [|done].
    by rewrite (alloc_table R s page_size) by (done || lia).
Qed.

End EnsureHang.

(** ** Changes to the mappings of one space

    [remap R r f s s']: the entry of every page [f] answers for, in the space
    of root [r], is what [f] says, and every other page is mapped as it was.
    Another space sees the change only through a table it shares, and in the
    lower half it shares none. *)

Definition same_page (va va' : Z) : Prop := (va / 4096) mod 2 ^ 36 = (va' / 4096) mod 2 ^ 36.

#[global] Instance same_page_dec va va' : Decision (same_page va va').
Proof. unfold same_page. apply _. Defined.

(** Which page of a range that starts at [start] an address is in. *)
Definition page_ix (start va : Z) : Z := (va / 4096 - start / 4096) mod 2 ^ 36.

Lemma page_ix_range start va : 0 <= page_ix start va < 2 ^ 36.
Proof. apply Z.mod_pos_bound. lia. Qed.

Lemma u64_page x : (u64 x / 4096) mod 2 ^ 36 = (x / 4096) mod 2 ^ 36.
Proof.
  unfold u64. rewrite (Z.div_mod x (2 ^ 64)) at 2 by lia.
  replace (2 ^ 64 * (x / 2 ^ 64) + x mod 2 ^ 64)
    with (x mod 2 ^ 64 + (2 ^ 16 * (x / 2 ^ 64) * 2 ^ 36) * 4096) by lia.
  rewrite Z.div_add, Z.mod_add by lia. done.
Qed.

Lemma page_ix_spec start va i :
  0 <= i < 2 ^ 36 -> same_page va (start +w page_size * i) <-> page_ix start va = i.
Proof.
  intros Hi. unfold same_page, page_ix. rewrite u64_page. unfold page_size.
  replace (start + 4096 * i) with (start + i * 4096) by lia. rewrite Z.div_add by lia.
  split; intros E.
  - rewrite Zminus_mod, E, <- Zminus_mod. replace (start / 4096 + i - start / 4096) with i by lia.
    by apply Z.mod_small.
  - rewrite <- E, Zplus_mod_idemp_r. f_equal. lia.
Qed.

(** The first [n] pages from [start], page [i] as [e i] says. *)
Definition range_map (start n : Z) (e : Z -> option Z) (va : Z) : option (option Z) :=
  if page_ix start va <? n then Some (e (page_ix start va)) else None.

Lemma range_map_S start n e va :
  0 <= n < 2 ^ 36 ->
  range_map start (n + 1) e va =
    match (if decide (same_page va (start +w page_size * n)) then Some (e n) else None) with
    | Some x => Some x
    | None => range_map start n e va
    end.
Proof.
  intros Hn. unfold range_map. pose proof (page_ix_spec start va n Hn) as Hp.
  case_decide as Hd.
  - apply Hp in Hd as ->. by rewrite (proj2 (Z.ltb_lt _ _)) by lia.
  - destruct (Z.ltb_spec (page_ix start va) n), (Z.ltb_spec (page_ix start va) (n + 1)); try done; [lia|].
    destruct Hd. apply Hp. lia.
Qed.

Record remap R (r : Z) (f : Z -> option (option Z)) s s' : Prop := {
  rm_wf : mmu_wf s' R;
  rm_root : kernel_root_ s' = kernel_root_ s;
  rm_spaces : spaces_ s' = spaces_ s;
  rm_trace : trace s `prefix_of` trace s';
  rm_next : phys_next_ s <= phys_next_ s';
  rm_backed : forall g, frame_aligned g -> backed (phys s) g -> backed (phys s') g;
  rm_here : forall va, live R r va -> pte (phys s') r va = default (pte (phys s) r va) (f va);
  rm_other : forall r' va, live R r' va -> f va = None -> pte (phys s') r' va = pte (phys s) r' va;
  rm_private : forall r' va, live R r' va -> r' <> r -> ix 0 va < 256 ->
    pte (phys s') r' va = pte (phys s) r' va;
  rm_table : forall r' va k t, live R r' va -> (k <= 3)%nat ->
    table (phys s) r' va k = Some t -> table (phys s') r' va k = Some t;
  rm_new : forall g, is_table (phys s') R g ->
    is_table (phys s) R g \/ phys_next_ s <= g < phys_next_ s';
  rm_data : forall g b buf, frame_aligned g -> backed (phys s) g -> ~ is_table (phys s) R g ->
    in_frame g b (length buf) -> read_phys_mem (phys s') b buf = read_phys_mem (phys s) b buf
}.

Lemma grow_remap R r s s' : grow R s s' -> remap R r (fun _ => None) s s'.
Proof.
  intros G. split; try apply G; auto.
  - by rewrite (gr_trace _ _ _ G).
  - intros r' va Hl _. by apply (gr_pte _ _ _ G).
  - intros r' va Hl _ _. by apply (gr_pte _ _ _ G).
Qed.

Lemma remap_not_table R r f s s' g :
  remap R r f s s' -> mmu_inv s -> frame_aligned g -> backed (phys s) g ->
  ~ is_table (phys s) R g -> ~ is_table (phys s') R g.
Proof.
  intros G Hi Hf Hb Hn Ht. destruct (rm_new _ _ _ _ _ G g Ht) as [?|?]; [done|].
  pose proof (next_le_end s' (mw_inv _ _ (rm_wf _ _ _ _ _ G))).
  by apply (fresh_unbacked s g); [..|lia|].
Qed.

(** The later change wins. *)
Lemma remap_trans R r f g h s1 s2 s3 :
  mmu_inv s1 -> remap R r f s1 s2 -> remap R r g s2 s3 ->
  (forall va, h va = match g va with Some e => Some e | None => f va end) -> remap R r h s1 s3.
Proof.
  intros Hi G1 G2 Hh. pose proof (rm_next _ _ _ _ _ G1). pose proof (rm_next _ _ _ _ _ G2).
  split.
  - apply G2.
  - by rewrite (rm_root _ _ _ _ _ G2), (rm_root _ _ _ _ _ G1).
  - by rewrite (rm_spaces _ _ _ _ _ G2), (rm_spaces _ _ _ _ _ G1).
  - etrans; [apply G1|apply G2].
  - lia.
  - intros q Ha Hq. by apply (rm_backed _ _ _ _ _ G2), (rm_backed _ _ _ _ _ G1).
  - intros va Hl. rewrite (rm_here _ _ _ _ _ G2), (rm_here _ _ _ _ _ G1), Hh by done. by destruct (g va).
  - intros r' va Hl. rewrite Hh. destruct (g va) eqn:Eg; [done|]. intros Ef.
    by rewrite (rm_other _ _ _ _ _ G2), (rm_other _ _ _ _ _ G1).
  - intros r' va Hl Hr Hu. by rewrite (rm_private _ _ _ _ _ G2), (rm_private _ _ _ _ _ G1).
  - intros r' va k t Hl Hk E. by apply (rm_table _ _ _ _ _ G2), (rm_table _ _ _ _ _ G1).
  - intros q Hq. destruct (rm_new _ _ _ _ _ G2 q Hq) as [Hq'|?]; [|right; lia].
    destruct (rm_new _ _ _ _ _ G1 q Hq') as [?|?]; [by left|right; lia].
  - intros q b buf Ha Hb Hn Hin. rewrite (rm_data _ _ _ _ _ G2 q); [|done|..|done].
    + by apply (rm_data _ _ _ _ _ G1 q).
    + by apply (rm_backed _ _ _ _ _ G1).
    + by apply (remap_not_table R r f s1 s2).
Qed.

Lemma remap_refl R r s : mmu_wf s R -> remap R r (fun _ => None) s s.
Proof. intros Hs. by apply grow_remap, grow_refl. Qed.

Lemma remap_ext R r f g s s' : (forall va, f va = g va) -> remap R r f s s' -> remap R r g s s'.
Proof.
  intros He G. split; try apply G.
  - intros va Hl. rewrite <- He. by apply G.
  - intros r' va Hl Hn. apply (rm_other _ _ _ _ _ G); [done|]. by rewrite He.
Qed.

(** Telling the operating system about a page changes no mapping. *)
Lemma remap_emit R r f ev s s' : remap R r f s s' -> remap R r f s (emit ev s').
Proof.
  intros G. pose proof (rm_wf _ _ _ _ _ G) as Hs.
  split; try apply G.
  - split; apply Hs.
  - etrans; [apply G|]. by eexists.
Qed.

Definition when_pres (e : Z) : option Z := if pres e then Some e else None.

(** Writing the last-level entry of [v]. *)
Lemma remap_leaf R s r v pt e :
  mmu_wf s R -> live R r v -> table (phys s) r v 3 = Some pt ->
  remap R r (fun va => if decide (same_page va v) then Some (when_pres (u64 e)) else None)
    s (put_entry pt (ix 3 v) e s).
Proof.
  intros Hs Hv Ept. pose proof (mw_pt _ _ Hs) as Hw.
  assert (at_level (phys s) R pt 3) as Ht by (split; [lia|]; by exists r, v).
  pose proof (ix_range 3 v) as Hi.
  assert (forall r' va, live R r' va -> passes (phys s) r' va 3 pt (ix 3 v) -> same_page va v) as Hsame.
  { intros r' va Hl [E Hix]. apply prefix4_page, prefix_S_eq. split; [|done].
    by apply (wf_inj _ _ Hw r' va 3 r v 3 pt). }
  assert (forall r' va, live R r' va -> ~ passes (phys s) r' va 3 pt (ix 3 v) ->
    pte (phys (put_entry pt (ix 3 v) e s)) r' va = pte (phys s) r' va) as Hoth.
  { intros r' va Hl Hn. unfold pte. cbn [put_entry set_phys phys].
    by rewrite (leaf_write_leaf _ R), decide_False by done. }
  assert (forall r' va k, live R r' va -> (k <= 3)%nat ->
    table (phys (put_entry pt (ix 3 v) e s)) r' va k = table (phys s) r' va k) as Htab.
  { intros r' va k Hl Hk. by apply (table_write_leaf _ R). }
  split; try done.
  - split; [by apply (put_entry_inv s R pt _ e 3)| |apply Hs|apply Hs]. by apply pt_wf_write_leaf.
  - intros g _ Hb. cbn. by rewrite write64_backed.
  - intros va Hl. case_decide as Hd; [|apply Hoth; [done|]; intros Hp; by destruct Hd; apply (Hsame r)].
    apply prefix4_page, prefix_S_eq in Hd as [Hp Hix]. unfold pte. cbn [put_entry set_phys phys].
    rewrite (leaf_write_leaf _ R) by done. rewrite decide_True; [done|]. split; [|done].
    rewrite <- Ept. by apply table_prefix.
  - intros r' va Hl. case_decide as Hd; [done|]. intros _. apply Hoth; [done|]. intros Hp.
    by destruct Hd; apply (Hsame r').
  - intros r' va Hl Hne Hu. apply Hoth; [done|]. intros [E _]. apply Hne.
    by apply (wf_priv _ _ Hw r' va r v 3 pt); [..|lia| | |].
  - intros r' va k t Hl Hk. by rewrite Htab.
  - intros g (r' & va & k & Hl & Hk & E). rewrite Htab in E by done. left. by exists r', va, k.
  - intros g b buf. by apply (put_entry_frame R s pt (ix 3 v) e 3).
Qed.

(** ** The page operations both MMUs are made of *)

(** The three [ensure_table] calls [map_page] starts with. *)
Definition chain_post R s (r v a b c : Z) s' : Prop :=
  grow R s s' /\ phys_next_ s' <= phys_next_ s + 3 * page_size /\
  table (phys s') r v 1 = Some a /\ table (phys s') r v 2 = Some b /\ table (phys s') r v 3 = Some c.

(** Memory that cannot be had: the tables built so far stay. *)
Definition chain_fail R s (need : Z) (e : error) s' : Prop :=
  e = out_of_phys /\ grow R s s' /\ phys_end < phys_next_ s + need.

Section Chain.
Context (R : gset Z) (ensure : Z -> Z -> st (mmu M) Z).
Context (Hens : forall s t i k, mmu_wf s R -> at_level (phys s) R t k -> 0 <= i < 512 ->
  (k < 3)%nat -> wp (ensure t i) s (ensure_post R s t i k) (ensure_fail s)).

Lemma table_at_level s r v k t :
  live R r v -> (k <= 3)%nat -> table (phys s) r v k = Some t -> at_level (phys s) R t k.
Proof using Type. intros Hl Hk E. split; [done|]. by exists r, v. Qed.

Lemma ensure_step s0 s r v k t :
  mmu_wf s0 R -> grow R s0 s -> live R r v -> (k < 3)%nat -> table (phys s) r v k = Some t ->
  phys_next_ s <= phys_next_ s0 + Z.of_nat k * page_size ->
  wp (ensure t (ix k v)) s
    (fun c s' => grow R s0 s' /\ phys_next_ s' <= phys_next_ s0 + Z.of_nat (S k) * page_size /\
       table (phys s') r v (S k) = Some c /\
       forall j a, (j <= 3)%nat -> table (phys s) r v j = Some a -> table (phys s') r v j = Some a)
    (chain_fail R s0 (3 * page_size)).
Proof using Hens.
  intros Hs0 G Hl Hk Et Hn. pose proof (gr_wf _ _ _ G) as Hs. unfold page_size in *.
  eapply wp_mono; [apply (Hens s t (ix k v) k Hs); [|apply ix_range|done]|..].
  - apply (table_at_level s r v); (done || lia).
  - intros c s' [G' Hn' Hc]. unfold page_size in *. split_and!.
    + by apply (grow_trans R s0 s); [apply Hs0|..].
    + lia.
    + by apply Hc.
    + intros j a Hj Ea. by apply (gr_table _ _ _ G').
  - intros e s' (-> & -> & Hf). unfold page_size in *. split_and!; [done|done|lia].
Qed.

Lemma wp_chain {B} s sp r v (k : Z -> Z -> Z -> sst B) Q E :
  mmu_wf s R -> live R r v ->
  (forall a b c s', chain_post R s r v a b c s' -> wp (k a b c) (s', sp) Q E) ->
  (forall e s', chain_fail R s (3 * page_size) e s' -> E e (s', sp)) ->
  wp (let! a := on_mmu (ensure r (ix 0 v)) in
      let! b := on_mmu (ensure a (ix 1 v)) in
      let! c := on_mmu (ensure b (ix 2 v)) in k a b c) (s, sp) Q E.
Proof using Hens.
  intros Hs Hl Hok Hfail.
  apply wp_bind, wp_on_mmu. eapply wp_mono;
    [apply (ensure_step s s r v 0); [done|by apply grow_refl|done|lia|done|lia]| |auto].
  intros a s1 (G1 & Hn1 & E1 & _).
  apply wp_bind, wp_on_mmu. eapply wp_mono;
    [apply (ensure_step s s1 r v 1); [done|done|done|lia|done|lia]| |auto].
  intros b s2 (G2 & Hn2 & E2 & M2).
  apply wp_bind, wp_on_mmu. eapply wp_mono;
    [apply (ensure_step s s2 r v 2); [done|done|done|lia|done|lia]| |auto].
  intros c s3 (G3 & Hn3 & E3 & M3). apply Hok. split_and!; auto with lia.
Qed.

End Chain.

(** What [map_page] did for the page [v]: the entry [e], the shadow entry, and
    a note for the page and for each table on the way to it. *)
Definition map_notes (r v pa a b c : Z) : list event :=
  [note_page pa v c 0 true; note_page c v b 1 true; note_page b v a 2 true;
   note_page a v r 3 true; note_page r v r 4 true].

Record map_page_post R s sp (v pa e : Z) (s' : mmu M) (sp' : addr_space) : Prop := {
  mp_remap : remap R (root_pa sp)
    (fun va => if decide (same_page va v) then Some (Some e) else None) s s';
  mp_next : phys_next_ s' <= phys_next_ s + 3 * page_size;
  mp_space : sp' = set_shadow <[v := pa]> sp;
  mp_trace : exists a b c, table (phys s') (root_pa sp) v 1 = Some a /\
    table (phys s') (root_pa sp) v 2 = Some b /\ table (phys s') (root_pa sp) v 3 = Some c /\
    trace s' = trace s ++ map_notes (root_pa sp) v pa a b c
}.

Definition page_fail R s sp (need : Z) (e : error) (s' : mmu M) (sp' : addr_space) : Prop :=
  chain_fail R s need e s' /\ sp' = sp.

Lemma wp_map_tail R s sp v pa e a b c s1 :
  mmu_wf s R -> live R (root_pa sp) v -> chain_post R s (root_pa sp) v a b c s1 ->
  pres (u64 e) = true ->
  wp (on_mmu (write_phys (slot c (ix 3 v)) e) ;;
      on_space (set_shadow <[v := pa]>) ;;
      note pa v c 0 true ;; note c v b 1 true ;; note b v a 2 true ;;
      note a v (root_pa sp) 3 true ;; note (root_pa sp) v (root_pa sp) 4 true) (s1, sp)
    (fun _ x => map_page_post R s sp v pa (u64 e) x.1 x.2)
    (fun err x => page_fail R s sp (3 * page_size) err x.1 x.2).
Proof.
  intros Hs Hl (G & Hn & Ea & Eb & Ec) Hp.
  pose proof (remap_leaf R s1 (root_pa sp) v c e (gr_wf _ _ _ G) Hl Ec) as Hr.
  assert (remap R (root_pa sp) (fun va => if decide (same_page va v) then Some (Some (u64 e)) else None)
    s (put_entry c (ix 3 v) e s1)) as Hr'.
  { eapply remap_trans; [apply Hs|by apply grow_remap|exact Hr|]. intros va. unfold when_pres.
    rewrite Hp. by case_decide. }
  unfold wp. cbn. split; cbn [fst snd].
  - by do 5 apply remap_emit.
  - done.
  - done.
  - exists a, b, c. split_and!; try by apply (rm_table _ _ _ _ _ Hr); [..|lia|].
    cbn. rewrite (gr_trace _ _ _ G). by rewrite <- !app_assoc.
Qed.

(** [unmap_page]: the page is gone, from the tables and from the shadow map. *)
Record unmap_page_post R s sp (v : Z) (s' : mmu M) (sp' : addr_space) : Prop := {
  um_remap : remap R (root_pa sp)
    (fun va => if decide (same_page va v) then Some None else None) s s';
  um_next : phys_next_ s' = phys_next_ s;
  um_space : sp' = set_shadow (delete v) sp;
  um_trace : trace s' = trace s ++
    match shadow sp !! v with Some pa => [note_page pa v 0 0 false] | None => [] end
}.

(** [prot_virt] on one page: the entry is rewritten where there is one. *)
Record prot_page_post R s sp (v : Z) (upd : Z -> Z) (s' : mmu M) (sp' : addr_space) : Prop := {
  pp_remap : remap R (root_pa sp)
    (fun va => if decide (same_page va v)
       then Some (upd <$> pte (phys s) (root_pa sp) v) else None) s s';
  pp_next : phys_next_ s' = phys_next_ s;
  pp_space : sp' = sp;
  pp_trace : trace s' = trace s
}.

(** A page without tables is a page that is not mapped. *)
Lemma remap_absent R s r v :
  mmu_wf s R -> pte (phys s) r v = None ->
  remap R r (fun va => if decide (same_page va v) then Some None else None) s s.
Proof.
  intros Hs Hn. pose proof (remap_refl R r s Hs) as G. split; try apply G.
  - intros va Hl. case_decide as Hd; [|done]. cbn [default from_option id]. rewrite <- Hn. unfold pte, leaf.
    apply prefix4_page, prefix_S_eq in Hd as [Hp Hix]. by rewrite (table_prefix _ _ _ _ _ Hp), Hix.
  - intros. by apply G.
Qed.

Lemma pte_table_None m r v k : (k <= 3)%nat -> table m r v k = None -> pte m r v = None.
Proof. intros Hk E. unfold pte, leaf. by rewrite (table_None m r v k 3). Qed.

(** ** The range operations *)

Lemma page_ix_self start i : 0 <= i < 2 ^ 36 -> page_ix start (start +w page_size * i) = i.
Proof. intros Hi. by apply page_ix_spec. Qed.

Lemma page_align_off start i :
  frame_aligned start -> page_align (start +w page_size * i) = start +w page_size * i.
Proof.
  intros Ha. unfold page_align, page_size. apply align_down_id; [apply pow2_4096|].
  unfold frame_aligned in Ha. apply Z.mod_divide in Ha as [q ->]; [|lia]. unfold u64.
  replace (q * 4096 + 4096 * i) with (4096 * (q + i)) by lia.
  change (2 ^ 64) with (4096 * 2 ^ 52). rewrite Z.mul_mod_distr_l by lia.
  rewrite Z.mul_comm. apply Z.mod_mul. lia.
Qed.

(** A range of [n] pages from [start], all of it outside the self map. *)
Record range_ok R (r start n : Z) : Prop := {
  ro_aligned : frame_aligned start;
  ro_count : 0 <= n < 2 ^ 36;
  ro_live : forall i, 0 <= i < n -> live R r (start +w page_size * i)
}.

(** After mapping [n] pages from [start] to the frames from [pa0]. *)
Record map_range_post R s sp (start n pa0 : Z) (entry : Z -> Z) (s' : mmu M) (sp' : addr_space)
    : Prop := {
  mr_remap : remap R (root_pa sp) (range_map start n (fun i => Some (entry (pa0 +w page_size * i)))) s s';
  mr_next : phys_next_ s' <= phys_next_ s + n * (3 * page_size);
  mr_space : root_pa sp' = root_pa sp /\ user_next_ sp' = user_next_ sp /\
    kernel_next_ sp' = kernel_next_ sp;
  mr_shadow : forall i, 0 <= i < n ->
    shadow sp' !! (start +w page_size * i) = Some (pa0 +w page_size * i);
  mr_shadow_other : forall v, (forall i, 0 <= i < n -> v <> start +w page_size * i) ->
    shadow sp' !! v = shadow sp !! v
}.

Definition range_fail R s (need : Z) (e : error) (s' : mmu M) : Prop :=
  e = out_of_phys /\ mmu_wf s' R /\ phys_end < phys_next_ s + need.

Section Ranges.
Context (R : gset Z) (s0 : mmu M) (sp0 : addr_space) (start n : Z).
Context (Hs0 : mmu_wf s0 R) (Hr : range_ok R (root_pa sp0) start n).

Section MapRange.
Context (mapper : Z -> Z -> sst (M:=M) unit) (entry : Z -> Z) (pa_fits : Z -> Prop) (pa0 : Z).
Context (Hmap : forall s sp va pa, mmu_wf s R -> live R (root_pa sp) (page_align va) -> pa_fits pa ->
  wp (mapper va pa) (s, sp)
    (fun _ x => map_page_post R s sp (page_align va) pa (entry pa) x.1 x.2)
    (fun e x => page_fail R s sp (3 * page_size) e x.1 x.2)).
Context (Hpa : forall i, 0 <= i < n -> pa_fits (pa0 +w page_size * i)).

Lemma map_range_step j s sp s' sp' :
  0 <= j < n -> map_range_post R s0 sp0 start j pa0 entry s sp ->
  map_page_post R s sp (start +w page_size * j) (pa0 +w page_size * j)
    (entry (pa0 +w page_size * j)) s' sp' ->
  map_range_post R s0 sp0 start (j + 1) pa0 entry s' sp'.
Proof using Hs0 Hr.
  intros Hj [Hm Hn (Hroot & Hun & Hkn) Hsh Hso] [Pm Pn -> _]. rewrite Hroot in Pm.
  pose proof (ro_count _ _ _ _ Hr) as Hc. split.
  - eapply remap_trans; [apply Hs0|exact Hm|exact Pm|]. intros va.
    apply (range_map_S start j (fun i => Some (entry (pa0 +w page_size * i)))). lia.
  - unfold page_size in *. lia.
  - done.
  - intros i Hi. cbn [shadow set_shadow]. destruct (decide (i = j)) as [->|Hne].
    + apply lookup_insert_eq.
    + rewrite lookup_insert_ne; [apply Hsh; lia|]. intros E%(f_equal (page_ix start)).
      rewrite !page_ix_self in E by lia. lia.
  - intros v Hv. cbn [shadow set_shadow]. rewrite lookup_insert_ne.
    + apply Hso. intros i Hi. apply Hv. lia.
    + intros E. apply (Hv j); [lia|done].
Qed.

Lemma map_range_spec :
  wp (for_off (Z.to_nat n) 0 (fun off _ => mapper (start +w off) (pa0 +w off)) tt) (s0, sp0)
    (fun _ x => map_range_post R s0 sp0 start n pa0 entry x.1 x.2)
    (fun e x => range_fail R s0 (n * (3 * page_size)) e x.1).
Proof using Hs0 Hr Hmap Hpa.
  pose proof (ro_count _ _ _ _ Hr) as Hc.
  eapply wp_mono with (E := fun e x => range_fail R s0 (n * (3 * page_size)) e x.1).
  - apply (wp_for_off (fun j _ x => map_range_post R s0 sp0 start (Z.of_nat j) pa0 entry x.1 x.2)).
    + split; cbn [fst snd]; try done; try lia.
      eapply remap_ext; [|by apply remap_refl]. intros va. unfold range_map.
      pose proof (page_ix_range start va). by rewrite (proj2 (Z.ltb_ge _ _)) by lia.
    + intros j [] [s sp] Hj HI. rewrite Z.add_0_l. cbn [fst snd] in HI.
      pose proof (rm_wf _ _ _ _ _ (mr_remap _ _ _ _ _ _ _ _ _ HI)) as Hs.
      destruct (mr_space _ _ _ _ _ _ _ _ _ HI) as (Hroot & _).
      pose proof (page_align_off start (Z.of_nat j) (ro_aligned _ _ _ _ Hr)) as Hpg.
      eapply wp_mono; [apply Hmap; [done|rewrite Hroot, Hpg; apply Hr; lia|apply Hpa; lia]|..].
      * intros _ [s' sp'] HP. cbn [fst snd] in *. rewrite Hpg in HP.
        rewrite Nat2Z.inj_succ, <- Z.add_1_r. by apply (map_range_step _ s sp); [lia|..].
      * intros e [s' sp'] [(-> & G & Hf) _]. cbn [fst snd] in *. split_and!; [done|apply G|].
        pose proof (mr_next _ _ _ _ _ _ _ _ _ HI). unfold page_size in *. lia.
  - intros a x. by rewrite Z2Nat.id by lia.
  - done.
Qed.

End MapRange.

Lemma range_map_0 e va : range_map start 0 e va = None.
Proof using Type.
  unfold range_map. pose proof (page_ix_range start va). by rewrite (proj2 (Z.ltb_ge _ _)) by lia.
Qed.

(** After unmapping [j] pages from [start]. *)
Record unmap_range_post (j : Z) (s' : mmu M) (sp' : addr_space) : Prop := {
  ur_remap : remap R (root_pa sp0) (range_map start j (fun _ => None)) s0 s';
  ur_next : phys_next_ s' = phys_next_ s0;
  ur_space : root_pa sp' = root_pa sp0 /\ user_next_ sp' = user_next_ sp0 /\
    kernel_next_ sp' = kernel_next_ sp0;
  ur_shadow : forall i, 0 <= i < j -> shadow sp' !! (start +w page_size * i) = None;
  ur_shadow_other : forall v, (forall i, 0 <= i < j -> v <> start +w page_size * i) ->
    shadow sp' !! v = shadow sp0 !! v
}.

Lemma unmap_range_step j s sp s' sp' :
  0 <= j < n -> unmap_range_post j s sp ->
  unmap_page_post R s sp (start +w page_size * j) s' sp' -> unmap_range_post (j + 1) s' sp'.
Proof using Hs0 Hr.
  intros Hj [Hm Hn (Hroot & Hun & Hkn) Hsh Hso] [Pm Pn -> _]. rewrite Hroot in Pm.
  pose proof (ro_count _ _ _ _ Hr) as Hc. split.
  - eapply remap_trans; [apply Hs0|exact Hm|exact Pm|]. intros va. apply range_map_S. lia.
  - congruence.
  - done.
  - intros i Hi. cbn [shadow set_shadow]. destruct (decide (i = j)) as [->|Hne].
    + apply lookup_delete_eq.
    + rewrite lookup_delete_ne; [apply Hsh; lia|]. intros E%(f_equal (page_ix start)).
      rewrite !page_ix_self in E by lia. lia.
  - intros v Hv. cbn [shadow set_shadow]. rewrite lookup_delete_ne.
    + apply Hso. intros i Hi. apply Hv. lia.
    + intros E. by apply (Hv j); [lia|].
Qed.

Lemma unmap_range_spec (unmapper : Z -> sst (M:=M) unit) E :
  (forall s sp va, mmu_wf s R -> live R (root_pa sp) (page_align va) ->
     wp (unmapper va) (s, sp) (fun _ x => unmap_page_post R s sp (page_align va) x.1 x.2) E) ->
  wp (for_off (Z.to_nat n) 0 (fun off _ => unmapper (start +w off)) tt) (s0, sp0)
    (fun _ x => unmap_range_post n x.1 x.2) E.
Proof using Hs0 Hr.
  intros Hum. pose proof (ro_count _ _ _ _ Hr) as Hc.
  eapply wp_mono; [apply (wp_for_off (fun j _ x => unmap_range_post (Z.of_nat j) x.1 x.2))|..].
  - split; cbn [fst snd]; try done; try lia.
    eapply remap_ext; [|by apply remap_refl]. intros va. by rewrite range_map_0.
  - intros j [] [s sp] Hj HI. rewrite Z.add_0_l. cbn [fst snd] in HI.
    destruct (ur_space _ _ _ HI) as (Hroot & _).
    pose proof (page_align_off start (Z.of_nat j) (ro_aligned _ _ _ _ Hr)) as Hpg.
    eapply wp_mono; [apply Hum; [apply (rm_wf _ _ _ _ _ (ur_remap _ _ _ HI))
      |rewrite Hroot, Hpg; apply Hr; lia]|..|done].
    intros _ [s' sp'] HP. cbn [fst snd] in *. rewrite Hpg in HP.
    rewrite Nat2Z.inj_succ, <- Z.add_1_r. by apply (unmap_range_step _ s sp); [lia|..].
  - intros a x. by rewrite Z2Nat.id by lia.
  - done.
Qed.

(** After reprotecting [j] pages from [start]. *)
Record prot_range_post (upd : Z -> Z) (j : Z) (s' : mmu M) (sp' : addr_space) : Prop := {
  pr_remap : remap R (root_pa sp0)
    (range_map start j (fun i => upd <$> pte (phys s0) (root_pa sp0) (start +w page_size * i))) s0 s';
  pr_next : phys_next_ s' = phys_next_ s0;
  pr_space : sp' = sp0;
  pr_trace : trace s' = trace s0
}.

Lemma prot_range_step upd j s sp s' sp' :
  0 <= j < n -> prot_range_post upd j s sp ->
  prot_page_post R s sp (start +w page_size * j) upd s' sp' -> prot_range_post upd (j + 1) s' sp'.
Proof using Hs0 Hr.
  intros Hj [Hm Hn -> Ht] [Pm Pn -> Pt]. pose proof (ro_count _ _ _ _ Hr) as Hc. split; [|congruence..].
  eapply remap_trans; [apply Hs0|exact Hm|exact Pm|]. intros va.
  assert (pte (phys s) (root_pa sp0) (start +w page_size * j) =
          pte (phys s0) (root_pa sp0) (start +w page_size * j)) as ->.
  { apply (rm_other _ _ _ _ _ Hm); [apply Hr; lia|]. unfold range_map.
    rewrite page_ix_self by lia. by rewrite (proj2 (Z.ltb_ge j j)) by lia. }
  apply (range_map_S start j (fun i => upd <$> pte (phys s0) (root_pa sp0) (start +w page_size * i))). lia.
Qed.

Lemma prot_range_spec upd (body : Z -> sst (M:=M) unit) E :
  (forall s sp v, mmu_wf s R -> live R (root_pa sp) v ->
     wp (body v) (s, sp) (fun _ x => prot_page_post R s sp v upd x.1 x.2) E) ->
  wp (for_off (Z.to_nat n) 0 (fun off _ => body (start +w off)) tt) (s0, sp0)
    (fun _ x => prot_range_post upd n x.1 x.2) E.
Proof using Hs0 Hr.
  intros Hb. pose proof (ro_count _ _ _ _ Hr) as Hc.
  eapply wp_mono; [apply (wp_for_off (fun j _ x => prot_range_post upd (Z.of_nat j) x.1 x.2))|..].
  - split; cbn [fst snd]; try done.
    eapply remap_ext; [|by apply remap_refl]. intros va. by rewrite range_map_0.
  - intros j [] [s sp] Hj HI. rewrite Z.add_0_l. cbn [fst snd] in HI.
    eapply wp_mono; [apply Hb; [apply (rm_wf _ _ _ _ _ (pr_remap _ _ _ _ HI))
      |rewrite (pr_space _ _ _ _ HI); apply Hr; lia]|..|done].
    intros _ [s' sp'] HP. cbn [fst snd] in *.
    rewrite Nat2Z.inj_succ, <- Z.add_1_r. by apply (prot_range_step _ _ s sp); [lia|..].
  - intros a x. by rewrite Z2Nat.id by lia.
  - done.
Qed.

End Ranges.

(** *** The block of frames a range is mapped to *)

Lemma pages_mul size : page_size * (size_align size / page_size) = size_align size.
Proof.
  pose proof (align_up_mod size 0x1000 pow2_4096) as Hm. change (align_up size 0x1000) with (size_align size) in Hm.
  unfold page_size. pose proof (Z.div_mod (size_align size) 4096 ltac:(lia)) as Hd. rewrite Hm in Hd. lia.
Qed.

Lemma size_align_idemp size : size_align size / page_size < 2 ^ 36 -> size_align (size_align size) = size_align size.
Proof.
  intros Hn. pose proof (pages_mul size) as Hp. pose proof (size_align_range size).
  set (k := size_align size) in *. clearbody k. unfold size_align, page_size in *.
  apply align_up_id; [apply pow2_4096|lia|lia|]. rewrite <- Hp, Z.mul_comm. apply Z.mod_mul. lia.
Qed.

(** What allocating the block did, and what the frames are worth afterwards. *)
Record block_post R s (n : Z) s' : Prop := {
  bl_grow : grow R s s';
  bl_next : phys_next_ s' = phys_next_ s + page_size * n;
  bl_end : phys_next_ s' <= phys_end;
  bl_frame : forall i, 0 <= i < n -> let f := phys_next_ s + page_size * i in
    frame_aligned f /\ backed (phys s') f /\ ~ is_table (phys s') R f;
  bl_zero : forall i b buf, 0 <= i < n -> in_frame (phys_next_ s + page_size * i) b (length buf) ->
    read_phys_mem (phys s') b buf = replicate (length buf) 0
}.

Lemma alloc_block_spec R s size :
  mmu_wf s R -> size_align size / page_size < 2 ^ 36 ->
  wp (alloc_phys_locked (size_align size)) s
    (fun a s' => a = phys_next_ s /\ block_post R s (size_align size / page_size) s')
    (fun e s' => e = out_of_phys /\ s' = s /\ phys_end < phys_next_ s + size_align size).
Proof.
  intros Hs Hn. pose proof (mw_inv _ _ Hs) as Hi. pose proof (pages_mul size) as Hp.
  pose proof (size_align_range size) as Hsz. pose proof (next_le_end s Hi) as Hend.
  unfold wp. destruct (alloc_phys_locked (size_align size) s) as [[a|e] s'] eqn:E.
  - apply alloc_phys_locked_ok in E as (-> & Hle & A); [|done].
    rewrite size_align_idemp in Hle, A by done. split; [done|].
    pose proof (grow_alloc R s _ s' Hs A ltac:(lia)) as G.
    assert (forall i, frame_aligned (phys_next_ s + page_size * i)) as Hfa.
    { intros i. destruct Hi as (_ & Ha & _). apply mul_page_sum; [done|]. unfold page_size.
      rewrite Z.mul_comm. apply Z.mod_mul. lia. }
    split; rewrite ?(ap_next _ _ _ A), ?Hp; [done|done|lia|..].
    + intros i Hi' f. split_and!; [apply Hfa| |].
      * apply (ap_backed _ _ _ A); [apply Hfa|]. unfold f, page_size in *. lia.
      * rewrite (alloc_is_table R s (size_align size)) by done. intros Ht.
        destruct (table_backed s R f Hs Ht) as [_ Hb].
        apply (fresh_unbacked s f Hi); [apply Hfa|unfold f, page_size in *; lia|done].
    + intros i b buf Hi' Hin. apply (ap_zero _ _ _ A (phys_next_ s + page_size * i)); [apply Hfa| |done].
      unfold page_size in *. lia.
  - pose proof (alloc_phys_locked_throw _ _ _ _ E) as [-> ->]. split_and!; [done..|].
    unfold alloc_phys_locked in E. rewrite size_align_idemp in E by done.
    destruct (Z.ltb_spec (phys_end -w phys_next_ s) (size_align size)) as [Hlt|]; [|done].
    rewrite u64_small in Hlt; [lia|]. unfold in_u64, phys_end, phys_base, phys_size in *. lia.
Qed.

(** *** The whole operations *)

Definition pages (size : Z) : Z := size_align size / page_size.

Section Whole.
Context (R : gset Z) (s : mmu M) (sp : addr_space) (start size : Z).
Context (Hs : mmu_wf s R) (Hr : range_ok R (root_pa sp) start (pages size)).

(** A change confined to the range and, in the lower half, to this space. *)
Record confined (s' : mmu M) (sp' : addr_space) : Prop := {
  cf_wf : mmu_wf s' R;
  cf_root : root_pa sp' = root_pa sp;
  cf_other : forall r va, live R r va -> pages size <= page_ix start va ->
    pte (phys s') r va = pte (phys s) r va;
  cf_private : forall r va, live R r va -> r <> root_pa sp -> ix 0 va < 256 ->
    pte (phys s') r va = pte (phys s) r va;
  cf_shadow : forall v, (forall i, 0 <= i < pages size -> v <> start +w page_size * i) ->
    shadow sp' !! v = shadow sp !! v;
  cf_data : forall f b buf, frame_aligned f -> backed (phys s) f -> ~ is_table (phys s) R f ->
    in_frame f b (length buf) -> read_phys_mem (phys s') b buf = read_phys_mem (phys s) b buf;
  cf_flush : last (trace s') = Some flush_all_tlb
}.

Lemma remap_confined e s' sp' :
  remap R (root_pa sp) (range_map start (pages size) e) s s' -> root_pa sp' = root_pa sp ->
  (forall v, (forall i, 0 <= i < pages size -> v <> start +w page_size * i) ->
    shadow sp' !! v = shadow sp !! v) ->
  confined (emit flush_all_tlb s') sp'.
Proof using Type.
  intros G Hroot Hsh. split; [|done|..]; cbn [phys emit trace]; try apply G; try done.
  - split; apply G.
  - intros r va Hl Hge. apply (rm_other _ _ _ _ _ G); [done|]. unfold range_map.
    by rewrite (proj2 (Z.ltb_ge _ _)).
  - apply last_snoc.
Qed.

Lemma remap_page e s' i :
  remap R (root_pa sp) (range_map start (pages size) e) s s' -> 0 <= i < pages size ->
  pte (phys s') (root_pa sp) (start +w page_size * i) = e i.
Proof using Hr.
  intros G Hi. pose proof (ro_count _ _ _ _ Hr) as Hc.
  rewrite (rm_here _ _ _ _ _ G) by (by apply Hr). unfold range_map. rewrite page_ix_self by lia.
  by rewrite (proj2 (Z.ltb_lt i (pages size))) by lia.
Qed.

Section WholeMap.
Context (mapper : Z -> Z -> sst (M:=M) unit) (entry : Z -> Z) (pa_fits : Z -> Prop).
Context (Hmap : forall s sp va pa, mmu_wf s R -> live R (root_pa sp) (page_align va) -> pa_fits pa ->
  wp (mapper va pa) (s, sp)
    (fun _ x => map_page_post R s sp (page_align va) pa (entry pa) x.1 x.2)
    (fun e x => page_fail R s sp (3 * page_size) e x.1 x.2)).

(** Page [i] maps to [frame i], and the shadow map agrees. *)
Definition mapped_to (frame : Z -> Z) (s' : mmu M) (sp' : addr_space) : Prop :=
  forall i, 0 <= i < pages size ->
    pte (phys s') (root_pa sp) (start +w page_size * i) = Some (entry (frame i)) /\
    shadow sp' !! (start +w page_size * i) = Some (frame i).

Lemma map_virt_phys_spec pa0 :
  (forall i, 0 <= i < pages size -> pa_fits (pa0 +w page_size * i)) ->
  wp (for_pages (size_align size) (fun off _ => mapper (start +w off) (pa0 +w off)) tt ;; flush) (s, sp)
    (fun _ x => confined x.1 x.2 /\ mapped_to (fun i => pa0 +w page_size * i) x.1 x.2)
    (fun e x => range_fail R s (pages size * (3 * page_size)) e x.1).
Proof using Hs Hr Hmap.
  intros Hpa. unfold for_pages. fold (pages size). apply wp_bind.
  eapply wp_mono; [by apply (map_range_spec R s sp start (pages size) Hs Hr mapper entry pa_fits)| |done].
  intros _ [s' sp'] P. cbn [fst snd] in P. pose proof (mr_remap _ _ _ _ _ _ _ _ _ P) as Pm.
  unfold wp. cbn [flush on_mmu modify fst snd]. split.
  - apply (remap_confined _ _ _ Pm); [apply P|]. apply P.
  - intros i Hi. split; [by apply (remap_page _ _ _ Pm)|by apply P].
Qed.

(** The frames of a fresh block: [frame i] is the [i]-th page after the old
    cursor, it is no table, and it reads as zeros. *)
Definition fresh_frame (i : Z) : Z := phys_next_ s + page_size * i.

Lemma map_virt_spec :
  (forall i, 0 <= i < pages size -> fresh_frame i + page_size <= phys_end -> pa_fits (fresh_frame i)) ->
  wp (let! pa_block := on_mmu (alloc_phys_locked (size_align size)) in
      for_pages (size_align size) (fun off _ => mapper (start +w off) (pa_block +w off)) tt ;; flush) (s, sp)
    (fun _ x => confined x.1 x.2 /\ mapped_to fresh_frame x.1 x.2 /\
      (forall i, 0 <= i < pages size -> frame_aligned (fresh_frame i) /\
         phys_base <= fresh_frame i /\ fresh_frame i + page_size <= phys_end /\
         backed (phys x.1) (fresh_frame i) /\ ~ is_table (phys x.1) R (fresh_frame i) /\
         forall b buf, in_frame (fresh_frame i) b (length buf) ->
           read_phys_mem (phys x.1) b buf = replicate (length buf) 0))
    (fun e x => range_fail R s (size_align size + pages size * (3 * page_size)) e x.1).
Proof using Hs Hr Hmap.
  intros Hpa. pose proof (ro_count _ _ _ _ Hr) as Hc.
  apply wp_bind, wp_on_mmu. eapply wp_mono; [apply (alloc_block_spec R s size); [done|apply Hc]| |].
  2: { intros e s' (-> & -> & Hf). split_and!; [done..|]. unfold page_size. lia. }
  intros pa0 s1 (-> & B). fold (pages size) in B. pose proof (bl_grow _ _ _ _ B) as G.
  pose proof (next_le_end s (mw_inv _ _ Hs)) as Hlo. pose proof (bl_next _ _ _ _ B) as Hn1.
  pose proof (bl_end _ _ _ _ B) as Hend.
  assert (forall i, 0 <= i < pages size -> phys_next_ s +w page_size * i = fresh_frame i
    /\ phys_base <= fresh_frame i /\ fresh_frame i + page_size <= phys_end) as Hfr.
  { intros i Hi. unfold fresh_frame, page_size, phys_end, phys_base, phys_size in *.
    split; [apply u64_small; unfold in_u64; lia|lia]. }
  unfold for_pages. fold (pages size). apply wp_bind.
  eapply wp_mono; [apply (map_range_spec R s1 sp start (pages size) (gr_wf _ _ _ G) Hr mapper entry pa_fits); [done|]| |].
  - intros i Hi. destruct (Hfr i Hi) as (-> & ? & ?). by apply Hpa.
  - intros _ [s2 sp2] P. cbn [fst snd] in P. pose proof (mr_remap _ _ _ _ _ _ _ _ _ P) as P2.
    assert (remap R (root_pa sp) (range_map start (pages size) (fun i => Some (entry (phys_next_ s +w page_size * i)))) s s2) as Pm.
    { eapply remap_trans; [apply Hs|by apply grow_remap|exact P2|]. intros va. cbn beta. by case_match. }
    unfold wp. cbn [flush on_mmu modify fst snd]. split_and!.
    + apply (remap_confined _ _ _ Pm); apply P.
    + intros i Hi. destruct (Hfr i Hi) as (Hw & _). split.
      * rewrite <- Hw. by apply (remap_page _ _ _ Pm).
      * rewrite <- Hw. by apply P.
    + intros i Hi. destruct (Hfr i Hi) as (_ & ? & ?). destruct (bl_frame _ _ _ _ B i Hi) as (Hfa & Hfb & Hft).
      split_and!; try done.
      * by apply (rm_backed _ _ _ _ _ P2).
      * by apply (remap_not_table _ _ _ _ _ _ P2); [apply (mw_inv _ _ (gr_wf _ _ _ G))|..].
      * intros b buf Hin. cbn [phys emit]. rewrite (rm_data _ _ _ _ _ P2 (fresh_frame i)) by done.
        by apply (bl_zero _ _ _ _ B i).
  - intros e [s2 sp2] (-> & Hw & Hf). cbn [fst] in *. split_and!; [done..|].
    pose proof (pages_mul size) as Hp. fold (pages size) in Hp. lia.
Qed.

End WholeMap.

Lemma unmap_virt_spec (unmapper : Z -> sst (M:=M) unit) E :
  (forall s sp va, mmu_wf s R -> live R (root_pa sp) (page_align va) ->
     wp (unmapper va) (s, sp) (fun _ x => unmap_page_post R s sp (page_align va) x.1 x.2) E) ->
  wp (for_pages (size_align size) (fun off _ => unmapper (start +w off)) tt ;; flush) (s, sp)
    (fun _ x => confined x.1 x.2 /\ phys_next_ x.1 = phys_next_ s /\
      forall i, 0 <= i < pages size ->
        pte (phys x.1) (root_pa sp) (start +w page_size * i) = None /\
        shadow x.2 !! (start +w page_size * i) = None) E.
Proof using Hs Hr.
  intros Hum. unfold for_pages. fold (pages size). apply wp_bind.
  eapply wp_mono; [by apply (unmap_range_spec R s sp start (pages size) Hs Hr)| |done].
  intros _ [s' sp'] P. cbn [fst snd] in P. pose proof (ur_remap _ _ _ _ _ _ _ P) as Pm.
  unfold wp. cbn [flush on_mmu modify fst snd]. split_and!.
  - apply (remap_confined _ _ _ Pm); apply P.
  - apply P.
  - intros i Hi. split; [by apply (remap_page _ _ _ Pm)|by apply (ur_shadow _ _ _ _ _ _ _ P)].
Qed.

Lemma prot_virt_spec upd (body : Z -> sst (M:=M) unit) E :
  (forall s sp v, mmu_wf s R -> live R (root_pa sp) v ->
     wp (body v) (s, sp) (fun _ x => prot_page_post R s sp v upd x.1 x.2) E) ->
  wp (for_pages (size_align size) (fun off _ => body (start +w off)) tt ;; flush) (s, sp)
    (fun _ x => confined x.1 x.2 /\ x.2 = sp /\ phys_next_ x.1 = phys_next_ s /\
      forall i, 0 <= i < pages size ->
        pte (phys x.1) (root_pa sp) (start +w page_size * i) =
          upd <$> pte (phys s) (root_pa sp) (start +w page_size * i)) E.
Proof using Hs Hr.
  intros Hb. unfold for_pages. fold (pages size). apply wp_bind.
  eapply wp_mono; [by apply (prot_range_spec R s sp start (pages size) Hs Hr upd)| |done].
  intros _ [s' sp'] P. cbn [fst snd] in P. destruct P as [Pm Pn -> Pt].
  unfold wp. cbn [flush on_mmu modify fst snd]. split_and!; try done.
  - by apply (remap_confined _ _ _ Pm).
  - intros i Hi. by apply (remap_page _ _ _ Pm).
Qed.

End Whole.

End Grow.
