(* ===== verification/VirtCopy.v ===== *)
(** * Copies through an address space

    [copy_virt] of emu/x86/mmu.cpp and emu/arm64/mmu.cpp moves a buffer page
    by page.  This file gives its meaning byte by byte: what [read_virt] returns
    and what [write_virt] leaves in memory is said with [virt_to_phys] alone,
    and the loop is shown to end within its bound. *)

From S2P Require Import Prelude Phys Mmu PageTable Space.
From stdpp Require Import gmap.
From stdpp Require Import options.

Open Scope Z_scope.
Open Scope kern_scope.

Section Copy.
Context {M : Type} {pm : PhysMem M} {pl : PhysMemLaws M} {fmt : EntryFmt}.
Implicit Types (s : mmu M) (m : M).

(** The byte at a physical address. *)
Definition byte_at m (a : Z) : Z := default 0 (read_phys_mem m a [0] !! 0%nat).

Lemma read_lookup m f a buf j :
  pm_inv m -> backed m f -> frame_aligned f -> in_frame f a (length buf) -> (j < length buf)%nat ->
  read_phys_mem m a buf !! j = Some (byte_at m (a + Z.of_nat j)).
Proof.
  intros Hi Hb Hf Hin Hj. rewrite (pm_read_lookup m f) by done. unfold byte_at.
  destruct (read_phys_mem m (a + Z.of_nat j) [0]) as [|x l] eqn:E; [|done].
  pose proof (pm_read_length m (a + Z.of_nat j) [0]) as Hl. by rewrite E in Hl.
Qed.

Lemma byte_write_same m f a bs j x :
  pm_inv m -> backed m f -> frame_aligned f -> in_frame f a (length bs) -> Forall is_byte bs ->
  bs !! j = Some x -> byte_at (write_phys_mem a bs m) (a + Z.of_nat j) = x.
Proof.
  intros Hi Hb Hf Hin Hbs Hj. pose proof (lookup_lt_Some _ _ _ Hj) as Hlt.
  assert (read_phys_mem (write_phys_mem a bs m) a bs !! j
    = Some (byte_at (write_phys_mem a bs m) (a + Z.of_nat j))) as E.
  { apply (read_lookup _ f); try done; [by apply (pm_write_inv m f)|by apply pm_write_backed]. }
  rewrite (pm_read_write_same m f) in E by done. congruence.
Qed.

Lemma byte_write_other m f a bs g b :
  pm_inv m -> backed m f -> frame_aligned f -> in_frame f a (length bs) -> Forall is_byte bs ->
  backed m g -> frame_aligned g -> in_frame g b 1 ->
  b < a \/ a + Z.of_nat (length bs) <= b -> byte_at (write_phys_mem a bs m) b = byte_at m b.
Proof.
  intros. unfold byte_at. rewrite (pm_read_write_other m f a bs g b [0]); try done. simpl. lia.
Qed.

(** *** Writing a frame that is no table *)

Section DataWrite.
Context (R : gset Z) (s : mmu M) (f a : Z) (bs : list Z).
Context (Hs : mmu_wf s R) (Hf : frame_aligned f) (Hb : backed (phys s) f).
Context (Hin : in_frame f a (length bs)) (Hbs : Forall is_byte bs) (Hnt : ~ is_table (phys s) R f).

Definition data_write : mmu M := set_phys (write_phys_mem a bs (phys s)) s.

Lemma data_write_entry r va k t i :
  live R r va -> (k <= 3)%nat -> table (phys s) r va k = Some t -> 0 <= i < 512 ->
  read64 (phys data_write) (slot t i) = read64 (phys s) (slot t i).
Proof using Hs Hf Hb Hin Hbs Hnt.
  intros Hl Hk E Hi. destruct (wf_table _ _ (mw_pt _ _ Hs) r va k t) as [Hta Htb]; [done..|].
  unfold read64. f_equal. pose proof (slot_in_frame t i Hta Hi) as Hsl.
  apply (pm_read_write_other _ f _ _ t); try done; [apply (mw_inv _ _ Hs)|apply Hta|].
  rewrite length_replicate. assert (t <> f) as Hne by (intros Etf; apply Hnt; rewrite <- Etf; by exists r, va, k).
  unfold in_frame, frame_aligned in *. destruct Hta as [Ht _]. unfold frame_aligned in Ht.
  apply Z.mod_divide in Ht as [p Hp]; [|lia]. pose proof Hf as Hf'. apply Z.mod_divide in Hf' as [q Hq]; [|lia]. lia.
Qed.

Lemma data_write_table r va k :
  live R r va -> (k <= 3)%nat -> table (phys data_write) r va k = table (phys s) r va k.
Proof using Hs Hf Hb Hin Hbs Hnt. apply (table_ext _ _ R); [apply Hs|apply data_write_entry]. Qed.

Lemma data_write_pte r va : live R r va -> pte (phys data_write) r va = pte (phys s) r va.
Proof using Hs Hf Hb Hin Hbs Hnt.
  intros Hl. unfold pte. by rewrite (leaf_ext _ _ R (mw_pt _ _ Hs) data_write_entry).
Qed.

Lemma data_write_is_table g : is_table (phys data_write) R g <-> is_table (phys s) R g.
Proof using Hs Hf Hb Hin Hbs Hnt.
  split; intros (r & va & k & Hl & Hk & E); exists r, va, k; [rewrite data_write_table in E by done; done|].
  by rewrite data_write_table.
Qed.

Lemma data_write_wf : mmu_wf data_write R.
Proof using Hs Hf Hb Hin Hbs Hnt.
  destruct (mw_inv _ _ Hs) as (Hm & Ha & Hr & Hfree).
  assert (pm_inv (phys data_write)) as Hm' by by apply (pm_write_inv _ f).
  split; [| |apply Hs|apply Hs].
  - split_and!; try done; cbn; [lia|lia|]. intros g Hg Hgr. rewrite pm_write_backed. auto.
  - apply (pt_wf_ext (phys s)); [apply Hs|done| |].
    + intros t Ht. by apply pm_write_backed.
    + intros r va k Hl Hk. by apply data_write_table.
Qed.

End DataWrite.

(** ** The loop *)

Context (T : M -> addr_space -> Z -> option Z) (R : gset Z) (sp : addr_space).
Context (HT : forall m page, pt_wf m R -> live R (root_pa sp) page ->
  T m sp page = translate m (root_pa sp) page).

(** The page of [va] is mapped to memory that is there. *)
Record readable m (va f : Z) : Prop := {
  rd_frame : frame_of T m sp (page_align va) = Some f;
  rd_aligned : frame_aligned f;
  rd_range : 0 <= f < 2 ^ 63;
  rd_backed : backed m f
}.

(** The page of [va] is mapped to memory that is no page table. *)
Record writable m (va f : Z) : Prop := {
  wr_read : readable m va f;
  wr_live : live R (root_pa sp) (page_align va);
  wr_data : ~ is_table m R f
}.

Lemma virt_to_phys_frame m va :
  Space.virt_to_phys T m sp va = (fun f => f +w (va - page_align va)) <$> frame_of T m sp (page_align va).
Proof using Type. unfold Space.virt_to_phys, frame_of. by repeat case_match. Qed.

Lemma page_off_range va : 0 <= va -> 0 <= va - page_align va < page_size.
Proof using Type. intros Hva. pose proof (page_align_ok va Hva). unfold page_size. lia. Qed.

Lemma readable_phys m va f :
  0 <= va -> readable m va f -> Space.virt_to_phys T m sp va = Some (f + (va - page_align va)).
Proof using Type.
  intros Hva [Hf _ Hr _]. rewrite virt_to_phys_frame, Hf. cbn. f_equal.
  pose proof (page_off_range va Hva). apply u64_small. unfold in_u64, page_size in *. lia.
Qed.

(** Bytes of one page: the [i]-th after [cur] is in the same page. *)
Lemma same_page_off cur i :
  in_u64 cur -> 0 <= i -> cur - page_align cur + i < page_size ->
  u64 (cur + i) = cur + i /\ page_align (cur + i) = page_align cur.
Proof using Type.
  intros Hc Hi Hlt. unfold in_u64 in Hc. pose proof (page_align_ok cur ltac:(lia)) as (Hp & Hp' & Hpm).
  unfold page_size in *. assert (page_align cur + 4096 <= 2 ^ 64).
  { apply Z.mod_divide in Hpm as [q Hq]; [|lia]. lia. }
  split; [apply u64_small; unfold in_u64; lia|].
  pose proof (page_align_ok (cur + i) ltac:(lia)) as (Hq & Hq' & Hqm).
  apply Z.mod_divide in Hpm as [p Ep]; [|lia]. apply Z.mod_divide in Hqm as [q Eq]; [|lia]. lia.
Qed.

(** *** One round *)

Section Round.
Context (va : Z) (len done : nat) (Hlt : (done < len)%nat).

Definition cur : Z := va +w Z.of_nat done.
Definition chunk : nat :=
  Z.to_nat (Z.min (Z.of_nat len - Z.of_nat done) (page_size - (cur - page_align cur))).

Lemma cur_off : 0 <= cur - page_align cur < page_size.
Proof using Type. apply page_off_range, u64_range. Qed.

Lemma chunk_range : (1 <= chunk)%nat /\ (done + chunk <= len)%nat /\
  cur - page_align cur + Z.of_nat chunk <= page_size /\
  ((done + chunk < len)%nat -> cur - page_align cur + Z.of_nat chunk = page_size).
Proof using Hlt. pose proof cur_off. unfold chunk. lia. Qed.

(** The [i]-th byte of the chunk. *)
Lemma chunk_byte i : (i < chunk)%nat ->
  va +w Z.of_nat (done + i) = cur + Z.of_nat i /\ page_align (cur + Z.of_nat i) = page_align cur.
Proof using Hlt.
  intros Hi. pose proof chunk_range. destruct (same_page_off cur (Z.of_nat i)) as [E1 E2];
    [apply u64_range|lia|lia|]. split; [|done].
  rewrite <- E1. unfold cur, u64. rewrite Zplus_mod_idemp_l. f_equal. lia.
Qed.

(** The next round starts at a page boundary, if there is one. *)
Lemma next_off : (done + chunk < len)%nat ->
  let c := va +w Z.of_nat (done + chunk) in c - page_align c = 0.
Proof using Hlt.
  intros Hnx c. pose proof chunk_range as (H1 & H2 & H3 & H4). specialize (H4 Hnx).
  pose proof (u64_range (va + Z.of_nat done)) as Hu. fold cur in Hu. unfold in_u64 in Hu.
  assert (c = u64 (page_align cur + 4096)) as Ec.
  { unfold c. replace (page_align cur + 4096) with (cur + Z.of_nat chunk) by (unfold page_size in *; lia).
    unfold cur, u64. rewrite Zplus_mod_idemp_l. f_equal. lia. }
  assert (page_align c = c); [|lia]. rewrite Ec. unfold page_align.
  change (page_align cur + 4096) with (page_align cur + page_size * 1).
  apply (page_align_off (page_align cur) 1). apply align_down_mod, pow2_4096.
Qed.

Definition fuel_ok (fuel : nat) : Prop :=
  Z.of_nat len - Z.of_nat done + (cur - page_align cur) <= Z.of_nat fuel * page_size.

End Round.

Lemma fuel_step va len done fuel :
  (done < len)%nat -> fuel_ok va len done (S fuel) ->
  (len <= done + chunk va len done)%nat \/ fuel_ok va len (done + chunk va len done) fuel.
Proof using Type.
  intros Hlt Hf. destruct (decide (len <= done + chunk va len done)%nat) as [|Hn]; [by left|right].
  pose proof (chunk_range va len done Hlt) as (H1 & H2 & H3 & H4). specialize (H4 ltac:(lia)).
  pose proof (next_off va len done Hlt ltac:(lia)) as Hx. unfold fuel_ok in *. cbn zeta in Hx.
  fold (cur va (done + chunk va len done)) in Hx. rewrite Hx. unfold page_size in *. lia.
Qed.

Lemma fuel_start va len : fuel_ok va len 0 (copy_fuel len).
Proof using Type.
  unfold fuel_ok, copy_fuel. pose proof (cur_off va 0). unfold page_size in *.
  pose proof (Nat.div_mod len 4096 ltac:(lia)). pose proof (Nat.mod_upper_bound len 4096 ltac:(lia)). lia.
Qed.

(** *** Reading *)

Lemma read_loop s va fuel buf done :
  mmu_wf s R -> (length buf <= done)%nat \/ fuel_ok va (length buf) done fuel ->
  (forall j, (done <= j < length buf)%nat -> exists f, readable (phys s) (va +w Z.of_nat j) f) ->
  exists buf', Space.copy_virt T fuel sp va buf done false s = (Ok buf', s) /\
    length buf' = length buf /\
    (forall j, (j < done)%nat -> buf' !! j = buf !! j) /\
    (forall j, (done <= j < length buf)%nat ->
      exists pa, Space.virt_to_phys T (phys s) sp (va +w Z.of_nat j) = Some pa /\
        buf' !! j = Some (byte_at (phys s) pa)).
Proof using Type.
  revert buf done. induction fuel as [|fuel IH]; intros buf done Hs Hfuel Hrd;
    cbn [Space.copy_virt]; destruct (Nat.leb_spec (length buf) done) as [Hle|Hlt].
  - exists buf. split_and!; try done. intros j Hj. lia.
  - destruct Hfuel as [?|Hf]; [lia|]. exfalso. pose proof (cur_off va done). unfold fuel_ok in Hf. lia.
  - exists buf. split_and!; try done. intros j Hj. lia.
  - destruct Hfuel as [?|Hf]; [lia|].
    pose proof (chunk_range va (length buf) done Hlt) as (Hc1 & Hc2 & Hc3 & Hc4).
    pose proof (cur_off va done) as Hoff.
    fold (cur va done). change (Z.to_nat _) with (chunk va (length buf) done).
    set (n := chunk va (length buf) done) in *. set (c := cur va done) in *.
    destruct (Hrd done ltac:(lia)) as (f & Hf1). pose proof (rd_frame _ _ _ Hf1) as Ef. fold c in Ef.
    change (va +w Z.of_nat done) with c in Ef.
    unfold bind at 1, get. rewrite Ef.
    destruct Hf1 as [_ Hfa Hfr Hfb].
    assert (f +w (c - page_align c) = f + (c - page_align c)) as ->.
    { apply u64_small. unfold in_u64, page_size in *. lia. }
    set (bytes := take n (drop done buf)).
    assert (length bytes = n) as Hbl by (unfold bytes; rewrite length_take, length_drop; lia).
    assert (in_frame f (f + (c - page_align c)) (length bytes)) as Hin.
    { unfold in_frame, page_size in *. lia. }
    set (rd := read_phys_mem (phys s) (f + (c - page_align c)) bytes).
    assert (length rd = n) as Hrl by (unfold rd; rewrite pm_read_length; done).
    assert (length (blit done rd buf) = length buf) as Hbuf by (apply length_blit; lia).
    destruct (IH (blit done rd buf) (done + n)%nat Hs) as (buf' & E & Hl' & Hpre & Hpost).
    { rewrite Hbuf. by apply fuel_step. }
    { rewrite Hbuf. intros j Hj. apply Hrd. lia. }
    exists buf'. split_and!; [done|by rewrite Hl'| |].
    + intros j Hj. rewrite Hpre, lookup_blit by lia. by rewrite decide_False by lia.
    + intros j Hj. destruct (decide (done + n <= j)%nat) as [Hge|Hlt'].
      { apply Hpost. lia. }
      destruct (chunk_byte va (length buf) done Hlt (j - done)) as [Eva Epg].
      { fold n. lia. }
      replace (done + (j - done))%nat with j in Eva by lia. fold c in Eva, Epg.
      exists (f + (c - page_align c) + Z.of_nat (j - done)). split.
      * rewrite Eva, virt_to_phys_frame, Epg, Ef. cbn. f_equal. rewrite u64_small; [lia|].
        unfold in_u64, page_size in *. lia.
      * rewrite Hpre, lookup_blit by lia. rewrite decide_True by lia.
        apply (read_lookup _ f); try done; [apply (mw_inv _ _ Hs)|lia].
Qed.

(** *** Writing *)

(** Only the contents of data frames changed. *)
Record same_maps s s' : Prop := {
  sm_wf : mmu_wf s' R;
  sm_rest : phys_next_ s' = phys_next_ s /\ kernel_root_ s' = kernel_root_ s /\
    spaces_ s' = spaces_ s /\ trace s' = trace s;
  sm_pte : forall r va, live R r va -> pte (phys s') r va = pte (phys s) r va;
  sm_table : forall g, is_table (phys s') R g <-> is_table (phys s) R g;
  sm_backed : forall g, backed (phys s') g <-> backed (phys s) g
}.

Lemma same_maps_refl s : mmu_wf s R -> same_maps s s.
Proof using Type. by split. Qed.

Lemma same_maps_trans s1 s2 s3 : same_maps s1 s2 -> same_maps s2 s3 -> same_maps s1 s3.
Proof using Type.
  intros [_ (? & ? & ? & ?) A2 A3 A4] [B0 (? & ? & ? & ?) B2 B3 B4]. split; [done|..].
  - split_and!; congruence.
  - intros r va Hl. by rewrite B2, A2.
  - intros g. by rewrite B3, A3.
  - intros g. by rewrite B4, A4.
Qed.

Lemma data_write_same s f a bs :
  mmu_wf s R -> frame_aligned f -> backed (phys s) f -> in_frame f a (length bs) ->
  Forall is_byte bs -> ~ is_table (phys s) R f -> same_maps s (data_write s a bs).
Proof using Type.
  intros. split.
  - by apply (data_write_wf R s f).
  - done.
  - intros r va Hl. by apply (data_write_pte R s f).
  - intros g. by apply (data_write_is_table R s f).
  - intros g. apply pm_write_backed.
Qed.

Lemma same_maps_writable s s' va f :
  mmu_wf s R -> same_maps s s' -> writable (phys s) va f -> writable (phys s') va f.
Proof using HT.
  intros Hs S [[Hf Ha Hr Hb] Hl Hd]. split; [split|done|].
  - rewrite <- Hf. unfold frame_of. rewrite !HT; [|apply Hs|done|apply S|done].
    unfold translate. by rewrite (sm_pte _ _ S).
  - done.
  - done.
  - by apply (sm_backed _ _ S).
  - by rewrite (sm_table _ _ S).
Qed.

Section WriteLoop.
Context (va : Z) (buf : list Z) (F : nat -> Z) (Hbytes : Forall is_byte buf).

(** Where byte [j] of the buffer goes. *)
Definition dest (j : nat) : Z :=
  let a := va +w Z.of_nat j in F j + (a - page_align a).

Context (Hinj : forall i j, (i < length buf)%nat -> (j < length buf)%nat -> dest i = dest j -> i = j).

Record written s (done : nat) s' : Prop := {
  wn_maps : same_maps s s';
  wn_here : forall j x, (done <= j)%nat -> buf !! j = Some x -> byte_at (phys s') (dest j) = x;
  wn_other : forall g b, frame_aligned g -> backed (phys s) g -> in_frame g b 1 ->
    (forall j, (done <= j < length buf)%nat -> b <> dest j) -> byte_at (phys s') b = byte_at (phys s) b
}.

(** One chunk, in one frame. *)
Section Chunk.
Context (s : mmu M) (done : nat) (Hs : mmu_wf s R) (Hlt : (done < length buf)%nat).
Context (Hwr : forall j, (done <= j < length buf)%nat -> writable (phys s) (va +w Z.of_nat j) (F j)).

Let n : nat := chunk va (length buf) done.
Let c : Z := cur va done.
Let a : Z := F done + (c - page_align c).
Let bytes : list Z := take n (drop done buf).
Let s1 : mmu M := data_write s a bytes.

Lemma chunk_bytes_length : length bytes = n.
Proof using Hlt a.
  pose proof (chunk_range va (length buf) done Hlt) as (Hc1 & Hc2 & _). fold n in Hc1, Hc2.
  unfold bytes. rewrite length_take, length_drop. lia.
Qed.

Lemma chunk_in_frame : in_frame (F done) a (length bytes).
Proof using Hlt.
  rewrite chunk_bytes_length. pose proof (chunk_range va (length buf) done Hlt) as (_ & _ & Hc & _).
  pose proof (cur_off va done). fold n c in Hc. unfold in_frame, a, c, page_size in *. lia.
Qed.

Lemma chunk_dest i : (i < n)%nat -> dest (done + i) = a + Z.of_nat i.
Proof using Hlt Hwr.
  intros Hi. pose proof (chunk_range va (length buf) done Hlt) as (_ & Hc & _). fold n in Hc.
  destruct (chunk_byte va (length buf) done Hlt i Hi) as [E1 E2]. fold c in E1, E2.
  unfold dest. rewrite E1, E2.
  assert (F (done + i) = F done) as ->; [|unfold a; lia].
  pose proof (rd_frame _ _ _ (wr_read _ _ _ (Hwr (done + i)%nat ltac:(lia)))) as Hf.
  pose proof (rd_frame _ _ _ (wr_read _ _ _ (Hwr done ltac:(lia)))) as Hf0.
  rewrite E1, E2 in Hf. change (va +w Z.of_nat done) with c in Hf0. congruence.
Qed.

Lemma chunk_maps : same_maps s s1.
Proof using Hs Hlt Hwr Hbytes.
  destruct (Hwr done ltac:(lia)) as [[_ Ha Hr Hb] Hl Hd].
  apply (data_write_same s (F done)); try done; [apply chunk_in_frame|].
  unfold bytes. auto using Forall_take, Forall_drop.
Qed.

Lemma chunk_here i x : (i < n)%nat -> buf !! (done + i)%nat = Some x ->
  byte_at (phys s1) (dest (done + i)) = x.
Proof using Hs Hlt Hwr Hbytes.
  intros Hi Hx. rewrite chunk_dest by done.
  destruct (Hwr done ltac:(lia)) as [[_ Ha Hr Hb] Hl Hd].
  apply (byte_write_same _ (F done)); try done; [apply (mw_inv _ _ Hs)|apply chunk_in_frame|..].
  - unfold bytes. auto using Forall_take, Forall_drop.
  - unfold bytes. by rewrite lookup_take_lt, lookup_drop.
Qed.

Lemma chunk_other g b :
  frame_aligned g -> backed (phys s) g -> in_frame g b 1 ->
  (forall i, (i < n)%nat -> b <> dest (done + i)) -> byte_at (phys s1) b = byte_at (phys s) b.
Proof using Hs Hlt Hwr Hbytes.
  intros Hg Hgb Hgi Hne. destruct (Hwr done ltac:(lia)) as [[_ Ha Hr Hb] Hl Hd].
  apply (byte_write_other _ (F done) _ _ g); try done; [apply (mw_inv _ _ Hs)|apply chunk_in_frame|..].
  - unfold bytes. auto using Forall_take, Forall_drop.
  - rewrite chunk_bytes_length. destruct (decide (b < a)) as [|Hge]; [by left|right].
    destruct (decide (a + Z.of_nat n <= b)) as [|Hle]; [done|]. exfalso.
    apply (Hne (Z.to_nat (b - a)) ltac:(lia)). rewrite chunk_dest by lia. lia.
Qed.

Lemma chunk_written s' : written s1 (done + n) s' -> written s done s'.
Proof using Hs Hlt Hwr Hbytes Hinj.
  intros [W1 W2 W3]. pose proof chunk_maps as Hm.
  pose proof (chunk_range va (length buf) done Hlt) as (_ & Hc & _). fold n in Hc. split.
  - by apply (same_maps_trans _ s1).
  - intros j x Hj Hx. pose proof (lookup_lt_Some _ _ _ Hx) as Hjl.
    destruct (decide (done + n <= j)%nat); [by apply W2|].
    destruct (Hwr j ltac:(lia)) as [[_ Ha Hr Hb] _ _].
    rewrite (W3 (F j)); [| |by apply (sm_backed _ _ Hm)| |].
    + replace j with (done + (j - done))%nat in Hx |- * by lia. apply chunk_here; [lia|done].
    + done.
    + unfold in_frame, dest. pose proof (page_off_range (va +w Z.of_nat j) ltac:(apply u64_range)).
      unfold page_size in *. lia.
    + intros i Hi E. apply Hinj in E; lia.
  - intros g b Hg Hb Hin Hne. rewrite (W3 g); [|done|by apply (sm_backed _ _ Hm)|done|].
    + apply (chunk_other g); try done. intros i Hi. apply Hne. lia.
    + intros j Hj. apply Hne. lia.
Qed.

End Chunk.

Lemma write_loop fuel s done :
  mmu_wf s R -> (length buf <= done)%nat \/ fuel_ok va (length buf) done fuel ->
  (forall j, (done <= j < length buf)%nat -> writable (phys s) (va +w Z.of_nat j) (F j)) ->
  exists s', Space.copy_virt T fuel sp va buf done true s = (Ok buf, s') /\ written s done s'.
Proof using HT Hbytes Hinj.
  revert s done. induction fuel as [|fuel IH]; intros s done Hs Hfuel Hwr;
    cbn [Space.copy_virt]; destruct (Nat.leb_spec (length buf) done) as [Hle|Hlt].
  1,3: exists s; split; [done|]; split; [by apply same_maps_refl| |done];
    intros j x Hj Hx%lookup_lt_Some; lia.
  - destruct Hfuel as [?|Hf]; [lia|]. exfalso. pose proof (cur_off va done). unfold fuel_ok in Hf. lia.
  - destruct Hfuel as [?|Hf]; [lia|].
    destruct (Hwr done ltac:(lia)) as [[Ef Hfa Hfr Hfb] _ _].
    change (va +w Z.of_nat done) with (cur va done) in *. unfold bind at 1, get. rewrite Ef.
    pose proof (cur_off va done) as Hoff.
    change (Z.to_nat _) with (chunk va (length buf) done).
    assert (F done +w (cur va done - page_align (cur va done)) =
            F done + (cur va done - page_align (cur va done))) as ->.
    { apply u64_small. unfold in_u64, page_size in *. lia. }
    destruct (IH (data_write s (F done + (cur va done - page_align (cur va done)))
        (take (chunk va (length buf) done) (drop done buf)))
      (done + chunk va (length buf) done)%nat) as (s' & E & W).
    + by apply (chunk_maps s done).
    + by apply fuel_step.
    + intros j Hj. eapply same_maps_writable; [done|by apply (chunk_maps s done)|]. apply Hwr. lia.
    + exists s'. split; [exact E|]. by apply chunk_written.
Qed.

(** What was written is read back. *)
Lemma write_read_spec s :
  mmu_wf s R -> (forall j, (j < length buf)%nat -> writable (phys s) (va +w Z.of_nat j) (F j)) ->
  exists s', Space.write_virt T sp va buf s = (Ok tt, s') /\ written s 0 s' /\
    forall buf0, length buf0 = length buf -> Space.read_virt T sp va buf0 s' = (Ok buf, s').
Proof using HT Hbytes Hinj.
  intros Hs Hwr. destruct (write_loop (copy_fuel (length buf)) s 0 Hs) as (s' & E & W).
  { right. apply fuel_start. }
  { intros j Hj. apply Hwr. lia. }
  exists s'. split_and!; [|done|].
  { unfold Space.write_virt. erewrite bind_ok by exact E. done. }
  intros buf0 Hl. pose proof (wn_maps _ _ _ W) as Hm.
  destruct (read_loop s' va (copy_fuel (length buf0)) buf0 0 (sm_wf _ _ Hm)) as (buf' & E' & Hl' & _ & Hrd).
  { right. apply fuel_start. }
  { intros j Hj. exists (F j). apply (same_maps_writable s s'); [done|done|]. apply Hwr. lia. }
  unfold Space.read_virt. rewrite E'. do 2 f_equal. apply list_eq_same_length with (length buf); [done|congruence|].
  intros j x y Hj Hx Hy. destruct (Hrd j ltac:(lia)) as (pa & Hpa & Hb).
  rewrite (readable_phys _ _ (F j)) in Hpa; [|apply u64_range|].
  - injection Hpa as <-. rewrite Hb in Hx. injection Hx as <-.
    apply (wn_here _ _ _ W j y); [lia|done].
  - apply (same_maps_writable s s'); [done|done|]. apply Hwr. lia.
Qed.

End WriteLoop.

(** A page that resolves to nothing is an error. *)
Lemma read_unmapped s va fuel buf done k :
  mmu_wf s R -> (done <= k < length buf)%nat -> fuel_ok va (length buf) done fuel ->
  (forall j, (done <= j < k)%nat -> exists f, readable (phys s) (va +w Z.of_nat j) f) ->
  frame_of T (phys s) sp (page_align (va +w Z.of_nat k)) = None ->
  Space.copy_virt T fuel sp va buf done false s = (Throw unmapped_va, s).
Proof using Type.
  revert buf done. induction fuel as [|fuel IH]; intros buf done Hs Hk Hf Hrd Hn; cbn [Space.copy_virt];
    rewrite (proj2 (Nat.leb_gt _ _)) by lia.
  { exfalso. pose proof (cur_off va done). unfold fuel_ok in Hf. lia. }
  assert (done < length buf)%nat as Hlt by lia.
  pose proof (chunk_range va (length buf) done Hlt) as (Hc1 & Hc2 & Hc3 & Hc4).
  fold (cur va done). change (Z.to_nat _) with (chunk va (length buf) done).
  unfold bind at 1, get. set (n := chunk va (length buf) done) in *.
  destruct (decide (k < done + n)%nat) as [Hin|Hout].
  - destruct (chunk_byte va (length buf) done Hlt (k - done)) as [E1 E2]; [fold n; lia|].
    replace (done + (k - done))%nat with k in E1 by lia. rewrite E1, E2 in Hn. by rewrite Hn.
  - destruct (Hrd done ltac:(lia)) as (f & [Ef _ _ _]). change (va +w Z.of_nat done) with (cur va done) in Ef.
    rewrite Ef. set (rd := read_phys_mem _ _ _).
    assert (length rd = n) as Hl.
    { unfold rd. rewrite pm_read_length, length_take, length_drop. lia. }
    assert (length (blit done rd buf) = length buf) as Hb by (apply length_blit; lia).
    apply IH; rewrite ?Hb; try done; try lia.
    + destruct (fuel_step va (length buf) done fuel Hlt Hf) as [?|?]; [unfold n in *; lia|done].
    + intros j Hj. apply Hrd. lia.
Qed.

End Copy.
