(* ===== verification/Create.v ===== *)
(** * Creating an address space

    [create_addr_space] (emu/x86/mmu.cpp, emu/arm64/mmu.cpp) makes a root whose
    upper half names the first space's tables and whose lower half is empty.
    Here: the new root joins the tree of tables, sees the kernel's half as the
    first space has it, and shares nothing below. *)

From S2P Require Import Prelude Phys Mmu PageTable Space VirtCopy.
From stdpp Require Import gmap.
From stdpp Require Import options.

Open Scope Z_scope.
Open Scope kern_scope.

Section Create.
Context {M : Type} {pm : PhysMem M} {pl : PhysMemLaws M} {fmt : EntryFmt}.
Implicit Types (s : mmu M) (m : M) (R : gset Z).

(** ** A root whose entries are another root's upper half *)

Section Adopt.
Context (m : M) (R : gset Z) (new : Z).
Context (Hwf : pt_wf m R) (Hta : table_addr new) (Hb : backed m new).
Context (Hfresh : ~ is_table m R new).

(** [kr] is the first space's root, if there is one. *)
Context (kr : option Z) (Hkr : forall k, kr = Some k -> k ∈ R).
Context (Hup : forall k i, kr = Some k -> 256 <= i < 512 ->
  read64 m (slot new i) = read64 m (slot k i)).
Context (Hlow : forall i, 0 <= i < 512 -> i < 256 \/ kr = None -> read64 m (slot new i) = 0).

Lemma adopt_table va k :
  table m new va (S k) =
    if decide (256 <= ix 0 va) then r ← kr; table m r va (S k) else None.
Proof using Hup Hlow Hkr.
  pose proof (ix_range 0 va) as Hr. induction k as [|k IH].
  - cbn [table]. destruct kr as [r|] eqn:Ek; case_decide as Hd; cbn.
    + by rewrite (Hup r) by (done || lia).
    + rewrite Hlow by lia. by rewrite pres_zero.
    + rewrite Hlow by (lia || by right). by rewrite pres_zero.
    + rewrite Hlow by lia. by rewrite pres_zero.
  - change (table m new va (S (S k))) with (t ← table m new va (S k);
      let e := read64 m (slot t (ix (S k) va)) in if pres e then Some (fr e) else None).
    rewrite IH. case_decide; [|done]. destruct kr as [r|]; done.
Qed.

(** Every table the new root reaches, but itself, the first root reaches too. *)
Lemma adopt_old r va k t :
  live ({[new]} ∪ R) r va -> table m r va k = Some t ->
  (r = new /\ k = 0%nat /\ t = new) \/
  (exists r', live R r' va /\ table m r' va k = Some t /\
     (r' = r \/ (r = new /\ 256 <= ix 0 va /\ (1 <= k)%nat))).
Proof using All.
  intros [Hr Hh] E. destruct (decide (r ∈ R)) as [Hin|Hout].
  { right. exists r. split_and!; [by split|done|by left]. }
  apply elem_of_union in Hr as [->%elem_of_singleton|]; [|done]. destruct k as [|k].
  { left. cbn in E. by simplify_eq. }
  right. rewrite adopt_table in E. case_decide; [|done]. destruct kr as [k0|] eqn:Ek; [|done].
  exists k0. split_and!; [split; [by apply Hkr|done]|done|]. right. split_and!; [done..|lia].
Qed.

Lemma adopt_wf : pt_wf m ({[new]} ∪ R).
Proof using All.
  split; [apply Hwf|..].
  - intros r va k t Hl Hk E. destruct (adopt_old _ _ _ _ Hl E) as [(_ & _ & ->)|(r' & Hl' & E' & _)]; [done|].
    by apply (wf_table _ _ Hwf r' va k).
  - intros r va k r' va' k' t Hl Hl' Hk Hk' E E'.
    destruct (adopt_old _ _ _ _ Hl E) as [(-> & -> & ->)|(q & Hq & Eq & _)];
    destruct (adopt_old _ _ _ _ Hl' E') as [(-> & -> & Et)|(q' & Hq' & Eq' & _)].
    + done.
    + destruct Hfresh. by exists q', va', k'.
    + destruct Hfresh. rewrite <- Et. by exists q, va, k.
    + by apply (wf_inj _ _ Hwf q va k q' va' k' t).
  - intros r va r' va' k t Hl Hl' Hk E E' Hu.
    destruct (adopt_old _ _ _ _ Hl E) as [(-> & -> & ->)|(q & Hq & Eq & Cq)]; [lia|].
    destruct (adopt_old _ _ _ _ Hl' E') as [(-> & -> & Et)|(q' & Hq' & Eq' & Cq')]; [lia|].
    destruct Cq as [->|(_ & ? & _)]; [|lia]. destruct Cq' as [->|(_ & Hge & _)].
    + by apply (wf_priv _ _ Hwf r va r' va' k t).
    + exfalso. destruct (wf_inj _ _ Hwf r va k q' va' k t) as [_ Hp]; [done..|lia|lia|done|done|].
      apply (prefix_le k 1) in Hp; [|lia]. apply prefix_S_eq in Hp as [_ Hp]. lia.
Qed.

Lemma adopt_pte va :
  pte m new va = if decide (256 <= ix 0 va) then r ← kr; pte m r va else None.
Proof using Hup Hlow Hkr.
  unfold pte, leaf. rewrite adopt_table. case_decide; [|done]. by destruct kr.
Qed.

End Adopt.

(** ** The copy of the upper half *)

Section CopyLoop.
Context (R : gset Z) (kr new : Z) (Hne : kr <> new) (Hkr : table_addr kr) (Hnew : table_addr new).

(** The memory the loop runs in. *)
Record copy_ok s : Prop := {
  co_wf : mmu_wf s R;
  co_kr : backed (phys s) kr;
  co_new : backed (phys s) new;
  co_data : ~ is_table (phys s) R new
}.

Record copied s (n : nat) (i : Z) s' : Prop := {
  cp_maps : same_maps R s s';
  cp_in : forall j, i <= j < i + Z.of_nat n -> read64 (phys s') (slot new j) = read64 (phys s) (slot kr j);
  cp_out : forall j, 0 <= j < 512 -> j < i \/ i + Z.of_nat n <= j ->
    read64 (phys s') (slot new j) = read64 (phys s) (slot new j);
  cp_kr : forall j, 0 <= j < 512 -> read64 (phys s') (slot kr j) = read64 (phys s) (slot kr j)
}.

Lemma copy_entry_spec s i :
  copy_ok s -> 0 <= i < 512 ->
  exists s', copy_kernel_entry kr new i s = (Ok tt, s') /\ copied s 1 i s' /\ copy_ok s'.
Proof using Hne Hkr Hnew.
  intros [Hs Hbk Hbn Hd] Hi. pose proof (proj1 (mw_inv _ _ Hs)) as Hm.
  set (e := read64 (phys s) (slot kr i)).
  assert (same_maps R s (put_entry new i e s)) as Hsm.
  { apply (data_write_same R s new); try done; [apply Hnew| |apply le_bytes_is_byte].
    rewrite length_le_bytes. by apply slot_in_frame. }
  exists (put_entry new i e s). split_and!; [done| |].
  - split; [done|..]; cbn [put_entry set_phys phys].
    + intros j Hj. replace j with i by lia. rewrite read64_write64_same by done.
      apply u64_small. by apply read64_range.
    + intros j Hj Hout. apply read64_write64_other; try done. intros [= ->]. lia.
    + intros j Hj. apply read64_write64_other; try done. congruence.
  - split; [apply Hsm|by apply (sm_backed _ _ _ Hsm)..|by rewrite (sm_table _ _ _ Hsm)].
Qed.

Lemma copy_entries_spec n i s :
  copy_ok s -> 0 <= i -> i + Z.of_nat n <= 512 ->
  exists s', copy_entries kr new n i s = (Ok tt, s') /\ copied s n i s' /\ copy_ok s'.
Proof using Hne Hkr Hnew.
  revert i s. induction n as [|n IH]; intros i s Hok Hi Hn.
  - exists s. split_and!; [done| |done]. split; [apply same_maps_refl, Hok|intros; lia|done|done].
  - destruct (copy_entry_spec s i Hok ltac:(lia)) as (s1 & E1 & C1 & Hok1).
    destruct (IH (i + 1) s1 Hok1 ltac:(lia) ltac:(lia)) as (s2 & E2 & C2 & Hok2).
    exists s2. split_and!; [cbn [copy_entries]; by erewrite bind_ok by exact E1| |done]. split.
    + apply (same_maps_trans R s s1); [apply C1|apply C2].
    + intros j Hj. destruct (decide (j = i)) as [->|].
      * rewrite (cp_out _ _ _ _ C2) by lia. apply (cp_in _ _ _ _ C1). lia.
      * rewrite (cp_in _ _ _ _ C2) by lia. apply (cp_kr _ _ _ _ C1). lia.
    + intros j Hj Hout. rewrite (cp_out _ _ _ _ C2) by lia. apply (cp_out _ _ _ _ C1); lia.
    + intros j Hj. rewrite (cp_kr _ _ _ _ C2) by lia. by apply (cp_kr _ _ _ _ C1).
Qed.

End CopyLoop.

(** ** [create_addr_space] *)

Record create_post R s (sp : addr_space) s' : Prop := {
  cr_space : sp = new_space (phys_next_ s);
  cr_fresh : root_pa sp ∉ R;
  cr_wf : mmu_wf s' ({[root_pa sp]} ∪ R);
  cr_spaces : spaces_ s' = {[root_pa sp]} ∪ spaces_ s;
  cr_kernel : kernel_root_ s' = if kernel_root_ s =? 0 then root_pa sp else kernel_root_ s;
  cr_old : forall r va, live R r va -> pte (phys s') r va = pte (phys s) r va;
  cr_lower : forall va, ix 0 va < 256 -> pte (phys s') (root_pa sp) va = None;
  cr_upper : forall va, ix 0 va <> hole -> 256 <= ix 0 va ->
    pte (phys s') (root_pa sp) va =
      if kernel_root_ s =? 0 then None else pte (phys s) (kernel_root_ s) va
}.

Lemma exists_live R r : r ∈ R -> exists va, live R r va.
Proof.
  intros Hr. destruct (decide (hole = 0)) as [Hh|Hh].
  - exists (2 ^ 39). split; [done|]. by rewrite Hh.
  - exists 0. split; [done|]. intros E. by apply Hh.
Qed.

(** The new root: a fresh zeroed frame that no walk reaches. *)
Lemma create_root R s s1 :
  mmu_wf s R -> alloc_post s page_size s1 ->
  copy_ok R (phys_next_ s) (phys_next_ s) s1 /\ table_addr (phys_next_ s) /\ ~ phys_next_ s ∈ R /\
  forall i, 0 <= i < 512 -> read64 (phys s1) (slot (phys_next_ s) i) = 0.
Proof.
  intros Hs A. pose proof (grow_alloc R s page_size s1 Hs A ltac:(done)) as G.
  pose proof (child_backed R s s1 Hs A). pose proof (child_fresh R s s1 Hs A) as Hf.
  split_and!.
  - split; [apply G|done..].
  - by apply (child_addr R).
  - intros Hin. destruct Hf. destruct (exists_live R _ Hin) as (va & Hl).
    exists (phys_next_ s), va, 0%nat. split_and!; [done|lia|done].
  - by apply (child_zero R).
Qed.

Lemma mmu_inv_phys s s' :
  phys s' = phys s -> phys_next_ s' = phys_next_ s -> mmu_inv s -> mmu_inv s'.
Proof. unfold mmu_inv. by intros -> ->. Qed.

(** Registering a root that has been filled in. *)
Lemma create_finish R s s2 s' (kr : option Z) :
  let new := phys_next_ s in
  mmu_wf s R -> copy_ok R new new s2 -> table_addr new -> new ∉ R ->
  (forall r va, live R r va -> pte (phys s2) r va = pte (phys s) r va) ->
  kernel_root_ s = default 0 kr -> (forall k, kr = Some k -> k ∈ R /\ k <> 0) ->
  (forall k i, kr = Some k -> 256 <= i < 512 -> read64 (phys s2) (slot new i) = read64 (phys s2) (slot k i)) ->
  (forall i, 0 <= i < 512 -> i < 256 \/ kr = None -> read64 (phys s2) (slot new i) = 0) ->
  phys s' = phys s2 -> phys_next_ s' = phys_next_ s2 -> spaces_ s' = {[new]} ∪ spaces_ s ->
  kernel_root_ s' = default new kr -> create_post R s (new_space new) s'.
Proof.
  intros new Hs [Hs2 _ Hb Hd] Hta Hnew Hpte Hk0 Hkr Hup Hlow Ep En Esp Ek.
  pose proof (mw_pt _ _ Hs2) as Hw2.
  assert ((kernel_root_ s =? 0) = match kr with Some _ => false | None => true end) as Hz.
  { rewrite Hk0. destruct kr as [k|]; [|done]. destruct (Hkr k eq_refl). cbn. by apply Z.eqb_neq. }
  pose proof (adopt_pte (phys s2) R new kr (fun k E => proj1 (Hkr k E)) Hup Hlow) as Hp.
  split; try done.
  - split.
    + apply (mmu_inv_phys s2); [done|done|apply Hs2].
    + rewrite Ep. apply (adopt_wf (phys s2) R new Hw2 Hta Hb Hd kr); try done.
      intros k E. by apply Hkr.
    + rewrite Esp. cbn [root_pa new_space]. apply union_mono_l, Hs.
    + rewrite Ek. right. cbn [root_pa new_space]. destruct kr as [k|]; [|by apply elem_of_union_l, elem_of_singleton].
      apply elem_of_union_r. by apply Hkr.
  - rewrite Hz, Ek. destruct kr as [k|]; [by rewrite Hk0|done].
  - intros r va Hl. rewrite Ep. by apply Hpte.
  - intros va Hv. rewrite Ep. cbn [root_pa new_space]. rewrite Hp. by rewrite decide_False by lia.
  - intros va Hh Hv. rewrite Ep, Hz. cbn [root_pa new_space]. rewrite Hp, decide_True by lia.
    destruct kr as [k|]; [|done]. cbn. rewrite Hk0. cbn. apply Hpte. split; [by apply Hkr|done].
Qed.

Lemma create_addr_space_spec R s :
  mmu_wf s R -> wp create_addr_space s (create_post R s) (ensure_fail s).
Proof.
  intros Hs. unfold create_addr_space. apply wp_bind.
  eapply wp_mono; [apply alloc_page_spec, Hs| |done]. intros new s1 (-> & A & Hle).
  destruct (create_root R s s1 Hs A) as (Hok & Hta & Hnew & Hz).
  pose proof (grow_alloc R s page_size s1 Hs A ltac:(done)) as G.
  apply wp_bind. unfold wp at 1, get. rewrite (gr_root _ _ _ G). apply wp_bind.
  destruct (Z.eqb_spec (kernel_root_ s) 0) as [Hk|Hk].
  - unfold wp, modify, ret, bind. apply (create_finish R s s1 _ None); try done.
    + apply (gr_pte _ _ _ G).
    + intros i Hi _. by apply Hz.
    + cbn. by rewrite (gr_spaces _ _ _ G).
  - destruct (mw_kernel _ _ Hs) as [?|Hin]; [by exfalso; apply Hk|].
    destruct (table_backed s R (kernel_root_ s) Hs) as [Hka Hkb].
    { destruct (exists_live R (kernel_root_ s) Hin) as (va & Hl).
      exists (kernel_root_ s), va, 0%nat. split_and!; [done|lia|done]. }
    assert (kernel_root_ s <> phys_next_ s) as Hne by congruence.
    assert (copy_ok R (kernel_root_ s) (phys_next_ s) s1) as Hok1.
    { destruct Hok. split; try done. by apply (gr_backed _ _ _ G); [apply Hka|]. }
    destruct (copy_entries_spec R _ _ Hne Hka Hta 256 256 s1 Hok1) as (s2 & E & C & Hok2); [lia|lia|].
    unfold wp at 1. rewrite E. clear E. unfold wp, modify, ret, bind.
    pose proof (cp_maps _ _ _ _ _ _ _ C) as Hm. destruct (sm_rest _ _ _ Hm) as (En & Er & Es & Et).
    apply (create_finish R s s2 _ (Some (kernel_root_ s))); try done.
    + destruct Hok2. by split.
    + intros r va Hl. rewrite (sm_pte _ _ _ Hm) by done. by apply (gr_pte _ _ _ G).
    + intros k [= <-]. done.
    + intros k i [= <-] Hi. rewrite (cp_in _ _ _ _ _ _ _ C), (cp_kr _ _ _ _ _ _ _ C) by lia. done.
    + intros i Hi [Hlo|?]; [|done]. rewrite (cp_out _ _ _ _ _ _ _ C) by lia. by apply Hz.
    + cbn. by rewrite Es, (gr_spaces _ _ _ G).
    + cbn. by rewrite Er, (gr_root _ _ _ G).
Qed.

End Create.

(** ** The machine before anything is mapped *)

(** [phys_next_ = phys_base], no space, no memory. *)
Definition boot : mmu Unicorn.mem := Mmu (Unicorn.Mem ∅) phys_base 0 ∅ [].

Lemma boot_wf `{!EntryFmt} : mmu_wf boot ∅.
Proof.
  assert (pm_inv (phys boot)) as Hi by (split; intros *; cbn; rewrite ?lookup_empty; done).
  split; [|split; [done|..]|set_solver|by left].
  - split_and!; try done. intros f _ _ (b & buf & Hb & _). cbn in Hb. by rewrite lookup_empty in Hb.
  - intros r va k t [Hr _]. set_solver.
  - intros r va k r' va' k' t [Hr _]. set_solver.
  - intros r va r' va' k t [Hr _]. set_solver.
Qed.
