(* ===== verification/X86Mmu.v ===== *)
(** * The x86-64 MMU

    emu/x86/mmu.cpp and emu/x86/addr_space.hpp: the tables of an address space,
    mapping, unmapping and reprotecting pages, translation, and the copies the
    emulator makes through it.

    The layout of a table entry comes from a third-party header ([ia32.hpp]):
    it is a parameter here, with the facts the code relies on as [Ia32Laws];
    [Intel.layout] is the documented one. *)

From S2P Require Import Prelude Phys Mmu PageTable Space VirtCopy Create.
From stdpp Require Import gmap.
From stdpp Require Import options.

Open Scope Z_scope.
Open Scope kern_scope.

(** ** Entries: [ia32::pt_entry_64] and [ia32::pte_64] *)

Class Ia32 : Type := {
  b_present : Z; b_write : Z; b_supervisor : Z; b_accessed : Z; b_dirty : Z;
  b_global : Z; b_execute_disable : Z;
  pfn_lo : Z; pfn_width : Z
}.

Definition ia32_flags `{!Ia32} : list Z :=
  [b_present; b_write; b_supervisor; b_accessed; b_dirty; b_global; b_execute_disable].

(** The flags are distinct bits of the word, the frame number is a field apart
    from them, and it is wide enough for every frame of [phys_end]. *)
Class Ia32Laws `{!Ia32} : Prop := {
  flags_nodup : NoDup ia32_flags;
  flags_range : Forall (fun b => 0 <= b < 64 /\ (b < pfn_lo \/ pfn_lo + pfn_width <= b)) ia32_flags;
  pfn_range : 0 <= pfn_lo /\ pfn_lo + pfn_width <= 64;
  pfn_wide : 21 <= pfn_width <= 51
}.

(** Bit-field access: reading a flag is [Z.testbit]. *)
Definition setb (b : Z) (v : bool) (e : Z) : Z := if v then Z.setbit e b else Z.clearbit e b.
Definition page_frame_number `{!Ia32} (e : Z) : Z :=
  Z.land (Z.shiftr e pfn_lo) (Z.ones pfn_width).
Definition set_pfn `{!Ia32} (p e : Z) : Z :=
  Z.lor (Z.ldiff e (Z.shiftl (Z.ones pfn_width) pfn_lo))
        (Z.shiftl (Z.land p (Z.ones pfn_width)) pfn_lo).

Definition pfn_to_pa (pfn : Z) : Z := u64 (Z.shiftl pfn page_shift).

(** The index fields of [union virt_addr]. *)
Definition v_pml4 (va : Z) : Z := ix 0 va.
Definition v_pdpt (va : Z) : Z := ix 1 va.
Definition v_pd (va : Z) : Z := ix 2 va.
Definition v_pt (va : Z) : Z := ix 3 va.

Section X86.
Context {M : Type} `{!PhysMem M, !Ia32}.

Definition is_present (e : Z) : bool := Z.testbit e b_present.

(** *** Spaces *)

Definition create_addr_space : st (mmu M) addr_space := Space.create_addr_space.
Definition destroy_addr_space : addr_space -> st (mmu M) unit := Space.destroy_addr_space.

(** The space a cpu is in, named by its root: [None] is the null pointer. *)
Definition curr_addr_space (cr3 : Z) : st (mmu M) (option Z) := fun s =>
  (Ok (if decide (cr3 ∈ spaces_ s) then Some cr3 else None), s).

(** *** Tables *)

Definition table_entry (child : Z) (user : bool) : Z :=
  set_pfn (Z.shiftr child page_shift)
    (setb b_accessed true (setb b_supervisor user (setb b_write true (setb b_present true 0)))).

Definition ensure_table (table_pa index : Z) (user : bool) : st (mmu M) Z :=
  let! entry := read_phys (slot table_pa index) in
  if is_present entry then
    (if user && negb (Z.testbit entry b_supervisor)
     then write_phys (slot table_pa index) (setb b_supervisor true entry) else ret tt) ;;
    ret (pfn_to_pa (page_frame_number entry))
  else
    let! child := alloc_phys_locked page_size in
    write_phys (slot table_pa index) (table_entry child user) ;;
    ret child.

(** The last-level entry [map_page] writes. *)
Definition leaf_entry (pa prot : Z) : Z :=
  let user := negb (has prot prot_supervisor) in
  let e := setb b_present true 0 in
  let e := setb b_write (has prot prot_write) e in
  let e := setb b_execute_disable (negb (has prot prot_exec)) e in
  let e := setb b_accessed true e in
  let e := setb b_dirty (has prot prot_write) e in
  let e := if user then setb b_supervisor true e else setb b_global true e in
  set_pfn (Z.shiftr pa page_shift) e.

Definition map_page (va pa prot : Z) : sst (M:=M) unit :=
  let! space := the_space in
  let v := page_align va in
  let user := negb (has prot prot_supervisor) in
  let! pdpt := on_mmu (ensure_table (root_pa space) (v_pml4 v) user) in
  let! pd := on_mmu (ensure_table pdpt (v_pdpt v) user) in
  let! pt := on_mmu (ensure_table pd (v_pd v) user) in
  on_mmu (write_phys (slot pt (v_pt v)) (leaf_entry pa prot)) ;;
  on_space (set_shadow <[v := pa]>) ;;
  note pa v pt 0 true ;;
  note pt v pd 1 true ;;
  note pd v pdpt 2 true ;;
  note pdpt v (root_pa space) 3 true ;;
  note (root_pa space) v (root_pa space) 4 true.

Definition unmap_page (va : Z) : sst (M:=M) unit :=
  let! space := the_space in
  let v := page_align va in
  match shadow space !! v with
  | Some pa => on_space (set_shadow (delete v)) ;; note pa v 0 0 false
  | None => ret tt
  end ;;
  let! pml4e := on_mmu (read_phys (slot (root_pa space) (v_pml4 v))) in
  if negb (is_present pml4e) then ret tt else
  let! pdpte := on_mmu (read_phys (slot (pfn_to_pa (page_frame_number pml4e)) (v_pdpt v))) in
  if negb (is_present pdpte) then ret tt else
  let! pde := on_mmu (read_phys (slot (pfn_to_pa (page_frame_number pdpte)) (v_pd v))) in
  if negb (is_present pde) then ret tt else
  on_mmu (write_phys (slot (pfn_to_pa (page_frame_number pde)) (v_pt v)) 0).

Definition map_virt (va size prot : Z) : sst (M:=M) unit :=
  let start := page_align va in
  let aligned := size_align size in
  let! pa_block := on_mmu (alloc_phys_locked aligned) in
  for_pages aligned (fun off _ => map_page (start +w off) (pa_block +w off) prot) tt ;;
  flush.

Definition map_virt_phys (va pa size prot : Z) : sst (M:=M) unit :=
  let start := page_align va in
  let pa_start := page_align pa in
  let aligned := size_align size in
  for_pages aligned (fun off _ => map_page (start +w off) (pa_start +w off) prot) tt ;;
  flush.

Definition unmap_virt (va size : Z) : sst (M:=M) unit :=
  let start := page_align va in
  let aligned := size_align size in
  for_pages aligned (fun off _ => unmap_page (start +w off)) tt ;;
  flush.

(** The entry [prot_virt] writes over [pte]. *)
Definition prot_entry (pte prot : Z) : Z :=
  let e := setb b_present true 0 in
  let e := set_pfn (page_frame_number pte) e in
  let e := setb b_accessed (Z.testbit pte b_accessed) e in
  let e := setb b_dirty (Z.testbit pte b_dirty) e in
  let e := if has prot prot_write then setb b_write true e else e in
  let e := if negb (has prot prot_exec) then setb b_execute_disable true e else e in
  if Z.testbit pte b_supervisor then setb b_supervisor true e else setb b_global true e.

(** The loop body of [prot_virt]. *)
Definition prot_page (v prot : Z) : sst (M:=M) unit :=
  let! space := the_space in
  let! pml4e := on_mmu (read_phys (slot (root_pa space) (v_pml4 v))) in
  if negb (is_present pml4e) then ret tt else
  let! pdpte := on_mmu (read_phys (slot (pfn_to_pa (page_frame_number pml4e)) (v_pdpt v))) in
  if negb (is_present pdpte) then ret tt else
  let! pde := on_mmu (read_phys (slot (pfn_to_pa (page_frame_number pdpte)) (v_pd v))) in
  if negb (is_present pde) then ret tt else
  let pt_pa := pfn_to_pa (page_frame_number pde) in
  let! pte := on_mmu (read_phys (slot pt_pa (v_pt v))) in
  if negb (is_present pte) then ret tt else
  on_mmu (write_phys (slot pt_pa (v_pt v)) (prot_entry pte prot)).

Definition prot_virt (va size prot : Z) : sst (M:=M) unit :=
  let start := page_align va in
  let aligned := size_align size in
  for_pages aligned (fun off _ => prot_page (start +w off) prot) tt ;;
  flush.

(** *** Translation and copies *)

Definition translate_virt (m : M) (s : addr_space) (page : Z) : option Z :=
  let pml4e := read64 m (slot (root_pa s) (v_pml4 page)) in
  if negb (is_present pml4e) then None else
  let pdpte := read64 m (slot (pfn_to_pa (page_frame_number pml4e)) (v_pdpt page)) in
  if negb (is_present pdpte) then None else
  let pde := read64 m (slot (pfn_to_pa (page_frame_number pdpte)) (v_pd page)) in
  if negb (is_present pde) then None else
  let pte := read64 m (slot (pfn_to_pa (page_frame_number pde)) (v_pt page)) in
  if negb (is_present pte) then None else
  Some (pfn_to_pa (page_frame_number pte)).

Definition copy_virt := Space.copy_virt translate_virt.
Definition read_virt := Space.read_virt translate_virt.
Definition write_virt := Space.write_virt translate_virt.
Definition virt_to_phys := Space.virt_to_phys translate_virt.

Definition alloc (size prot : Z) : sst (M:=M) Z :=
  let aligned := size_align size in
  let! va := bump (has prot prot_supervisor) aligned in
  map_virt va aligned prot ;; ret va.

Definition map_phys (pa size prot : Z) : sst (M:=M) Z :=
  let aligned := size_align size in
  let! va := bump (has prot prot_supervisor) aligned in
  map_virt_phys va pa aligned prot ;; ret va.

End X86.

(** ** Entries: what the bit-fields say *)

Section Entries.
Context {ia : Ia32} {laws : Ia32Laws}.

Lemma testbit_setb b v e i :
  0 <= b -> 0 <= i -> Z.testbit (setb b v e) i = if decide (i = b) then v else Z.testbit e i.
Proof.
  intros Hb Hi. unfold setb. case_decide as Hd; destruct v.
  - subst. by rewrite Z.setbit_eq.
  - subst. apply Z.clearbit_eq.
  - by rewrite Z.setbit_neq by lia.
  - by rewrite Z.clearbit_neq by lia.
Qed.

Lemma testbit_set_pfn p e i :
  0 <= i -> Z.testbit (set_pfn p e) i =
    if decide (pfn_lo <= i < pfn_lo + pfn_width) then Z.testbit p (i - pfn_lo) else Z.testbit e i.
Proof using laws.
  intros Hi. pose proof pfn_range. pose proof pfn_wide. unfold set_pfn.
  rewrite Z.lor_spec, Z.ldiff_spec, !Z.shiftl_spec, Z.land_spec by lia.
  case_decide.
  - rewrite Z.ones_spec_low by lia. cbn. by rewrite andb_true_r, andb_false_r.
  - destruct (decide (i < pfn_lo)).
    + rewrite (Z.testbit_neg_r _ (i - pfn_lo)) by lia. rewrite (Z.testbit_neg_r _ (i - pfn_lo)) by lia.
      cbn. by rewrite andb_true_r, orb_false_r.
    + rewrite Z.ones_spec_high by lia. cbn. by rewrite andb_true_r, andb_false_r, orb_false_r.
Qed.

Lemma testbit_pfn e i :
  0 <= i -> Z.testbit (page_frame_number e) i =
    if decide (i < pfn_width) then Z.testbit e (i + pfn_lo) else false.
Proof using laws.
  intros Hi. pose proof pfn_range. pose proof pfn_wide. unfold page_frame_number.
  rewrite Z.land_spec, Z.shiftr_spec by lia. case_decide.
  - rewrite Z.ones_spec_low by lia. apply andb_true_r.
  - rewrite Z.ones_spec_high by lia. apply andb_false_r.
Qed.

Lemma flag_range b : b ∈ ia32_flags -> 0 <= b < 64 /\ (b < pfn_lo \/ pfn_lo + pfn_width <= b).
Proof using laws. intros Hb. pose proof flags_range as Hf. rewrite Forall_forall in Hf. by apply Hf. Qed.

Lemma pfn_set p e : page_frame_number (set_pfn p e) = Z.land p (Z.ones pfn_width).
Proof using laws.
  pose proof pfn_range. pose proof pfn_wide. apply Z.bits_inj'. intros i Hi.
  rewrite testbit_pfn, Z.land_spec by lia. case_decide.
  - rewrite testbit_set_pfn, decide_True, Z.ones_spec_low by lia.
    replace (i + pfn_lo - pfn_lo) with i by lia. by rewrite andb_true_r.
  - rewrite Z.ones_spec_high by lia. by rewrite andb_false_r.
Qed.

Lemma pfn_setb b v e :
  b ∈ ia32_flags -> page_frame_number (setb b v e) = page_frame_number e.
Proof using laws.
  intros Hb. apply flag_range in Hb. pose proof pfn_range. pose proof pfn_wide.
  apply Z.bits_inj'. intros i Hi. rewrite !testbit_pfn by lia. case_decide; [|done].
  by rewrite testbit_setb, decide_False by lia.
Qed.

Lemma flag_set_pfn b p e : b ∈ ia32_flags -> Z.testbit (set_pfn p e) b = Z.testbit e b.
Proof using laws. intros Hb. apply flag_range in Hb. by rewrite testbit_set_pfn, decide_False by lia. Qed.

(** Storing an entry as eight bytes loses none of its fields. *)
Lemma flag_u64 b e : b ∈ ia32_flags -> Z.testbit (u64 e) b = Z.testbit e b.
Proof using laws. intros Hb. apply flag_range in Hb. unfold u64. by rewrite Z.mod_pow2_bits_low by lia. Qed.

Lemma pfn_u64 e : page_frame_number (u64 e) = page_frame_number e.
Proof using laws.
  pose proof pfn_range. apply Z.bits_inj'. intros i Hi. rewrite !testbit_pfn by lia. case_decide; [|done].
  unfold u64. by rewrite Z.mod_pow2_bits_low by lia.
Qed.

Lemma pfn_range_val e : 0 <= page_frame_number e < 2 ^ pfn_width.
Proof using laws.
  pose proof pfn_wide. unfold page_frame_number. rewrite Z.land_ones by lia. apply Z.mod_pos_bound. lia.
Qed.

(** A frame number that fits is kept. *)
Lemma pfn_to_pa_page pa :
  0 <= pa < 2 ^ (12 + pfn_width) ->
  pfn_to_pa (Z.land (Z.shiftr pa page_shift) (Z.ones pfn_width)) = page_align pa.
Proof using laws.
  intros Hpa. pose proof pfn_wide. unfold pfn_to_pa, page_shift.
  rewrite Z.land_ones, Z.shiftr_div_pow2, Z.shiftl_mul_pow2 by lia.
  unfold page_align, page_size. rewrite align_down_eq by apply pow2_4096.
  rewrite Z.pow_add_r in Hpa by lia. change (2 ^ 12) with 4096 in *.
  assert (0 <= pa / 4096 < 2 ^ pfn_width).
  { split; [apply Z.div_pos; lia|]. apply Z.div_lt_upper_bound; lia. }
  rewrite (Z.mod_small (pa / 4096)) by lia. rewrite u64_small; [lia|]. unfold in_u64.
  assert (2 ^ pfn_width <= 2 ^ 51) by (apply Z.pow_le_mono_r; lia). lia.
Qed.

#[export] Instance x86_fmt : EntryFmt := {
  pres := is_present;
  fr e := pfn_to_pa (page_frame_number e);
  pres_zero := Z.bits_0 b_present;
  hole := 0x1ED
}.

Lemma flags_in :
  b_present ∈ ia32_flags /\ b_write ∈ ia32_flags /\ b_supervisor ∈ ia32_flags /\
  b_accessed ∈ ia32_flags /\ b_dirty ∈ ia32_flags /\ b_global ∈ ia32_flags /\
  b_execute_disable ∈ ia32_flags.
Proof. clear laws. unfold ia32_flags. set_solver. Qed.

Lemma flags_distinct :
  b_present <> b_write /\ b_present <> b_supervisor /\ b_present <> b_accessed /\
  b_present <> b_dirty /\ b_present <> b_global /\ b_present <> b_execute_disable /\
  b_write <> b_supervisor /\ b_write <> b_accessed /\ b_write <> b_dirty /\
  b_write <> b_global /\ b_write <> b_execute_disable /\ b_supervisor <> b_accessed /\
  b_supervisor <> b_dirty /\ b_supervisor <> b_global /\ b_supervisor <> b_execute_disable /\
  b_accessed <> b_dirty /\ b_accessed <> b_global /\ b_accessed <> b_execute_disable /\
  b_dirty <> b_global /\ b_dirty <> b_execute_disable /\ b_global <> b_execute_disable.
Proof using laws.
  pose proof flags_nodup as Hn. unfold ia32_flags in Hn. rewrite !NoDup_cons, !elem_of_cons in Hn.
  destruct_and! Hn. split_and!; intros E; rewrite E in *; tauto.
Qed.

End Entries.

(** Reads a flag or the frame number off an entry built with the setters. *)
Ltac entry_facts :=
  let H := fresh "Hin" in let D := fresh "Hdis" in
  pose proof flags_in as H; pose proof flags_distinct as D; destruct_and! H; destruct_and! D.
Ltac entry_flag :=
  repeat first [rewrite flag_u64 by done | rewrite flag_set_pfn by done
    | rewrite testbit_setb by (eapply flag_range; done) | rewrite decide_True by done
    | rewrite decide_False by congruence | rewrite Z.bits_0].
Ltac entry_pfn :=
  repeat first [rewrite pfn_u64 | rewrite pfn_setb by done | rewrite pfn_set].

(** ** The page operations *)

Section PageOps.
Context {M : Type} {pm : PhysMem M} {pl : PhysMemLaws M} {ia : Ia32} {laws : Ia32Laws}.
Implicit Types (s : mmu M) (R : gset Z).

(** The physical addresses an entry can hold. *)
Definition pa_ok (pa : Z) : Prop := 0 <= pa < 2 ^ (12 + pfn_width).

Lemma phys_pa_ok pa : 0 <= pa < phys_end -> pa_ok pa.
Proof using laws.
  intros Hpa. pose proof pfn_wide. unfold pa_ok, phys_end, phys_base, phys_size in *.
  assert (2 ^ 33 <= 2 ^ (12 + pfn_width)) by (apply Z.pow_le_mono_r; lia). lia.
Qed.

Lemma table_entry_ok child user :
  0 <= child < phys_end -> frame_aligned child ->
  pres (u64 (table_entry child user)) = true /\ fr (u64 (table_entry child user)) = child.
Proof using laws.
  intros Hc Ha. entry_facts. cbn [pres fr x86_fmt]. unfold is_present, table_entry.
  split; [by entry_flag|]. entry_pfn. rewrite pfn_to_pa_page by by apply phys_pa_ok.
  unfold page_align, page_size. by apply align_down_id; [apply pow2_4096|].
Qed.

(** [ensure_table]: afterwards the entry leads to the table returned. *)
Lemma ensure_table_spec R s t i k user :
  mmu_wf s R -> at_level (phys s) R t k -> 0 <= i < 512 -> (k < 3)%nat ->
  wp (ensure_table t i user) s (ensure_post R s t i k) (ensure_fail s).
Proof using laws.
  intros Hs Ht Hi Hk. unfold ensure_table, read_phys, write_phys.
  apply wp_bind. unfold wp at 1. set (e := read64 (phys s) (slot t i)).
  destruct (is_present e) eqn:Ep.
  - assert (forall s', grow R s s' -> phys_next_ s' = phys_next_ s ->
      ensure_post R s t i k (pfn_to_pa (page_frame_number e)) s') as Hdone.
    { intros s' G Hn. split; [done|rewrite Hn; unfold page_size; lia|].
      intros r va Hl E Hix. apply (gr_table _ _ _ G); [done|lia|].
      rewrite (table_S _ _ _ _ t) by done. cbn zeta. rewrite Hix. fold e. by cbn; rewrite Ep. }
    apply wp_bind. case_match; unfold wp, modify, ret.
    + apply Hdone; [|done]. apply (grow_same R s t i _ k); try done.
      * entry_facts. cbn [pres fr x86_fmt]. unfold is_present. fold e. by entry_flag.
      * intros _. entry_facts. cbn [pres fr x86_fmt]. fold e. by entry_pfn.
    + apply Hdone; [by apply grow_refl|done].
  - apply wp_bind. eapply wp_mono; [apply alloc_page_spec, Hs| |done].
    intros c s1 (-> & A & Hle). apply wp_bind. unfold wp, modify, ret.
    pose proof (next_le_end s (mw_inv _ _ Hs)).
    destruct (table_entry_ok (phys_next_ s) user) as [Hp Hf].
    { unfold phys_base, page_size in *. lia. }
    { apply (mw_inv _ _ Hs). }
    by apply ensure_hang.
Qed.

Lemma leaf_entry_ok pa prot :
  pa_ok pa -> pres (u64 (leaf_entry pa prot)) = true /\ fr (u64 (leaf_entry pa prot)) = page_align pa.
Proof using laws.
  intros Hpa. entry_facts. cbn [pres fr x86_fmt]. unfold is_present, leaf_entry.
  destruct (negb (has prot prot_supervisor)); (split; [by entry_flag|]);
    entry_pfn; by apply pfn_to_pa_page.
Qed.

Lemma map_page_spec R s sp va pa prot :
  mmu_wf s R -> live R (root_pa sp) (page_align va) -> pa_ok pa ->
  wp (map_page va pa prot) (s, sp)
    (fun _ x => map_page_post R s sp (page_align va) pa (u64 (leaf_entry pa prot)) x.1 x.2)
    (fun e x => page_fail R s sp (3 * page_size) e x.1 x.2).
Proof using laws.
  intros Hs Hl Hpa. unfold map_page. apply wp_bind. unfold wp at 1, the_space; cbn [snd].
  apply (wp_chain R (fun t i => ensure_table t i (negb (has prot prot_supervisor)))); [|done..| |].
  - intros s0 t i k. apply ensure_table_spec.
  - intros a b c s' Hc. apply wp_map_tail; [done..|]. by apply leaf_entry_ok.
  - intros e s' Hf. by split.
Qed.

(** The walk written out in [unmap_page] and [prot_virt] is the generic one. *)
Lemma walk_step m r v k t :
  table m r v k = Some t ->
  table m r v (S k) = (let e := read64 m (slot t (ix k v)) in
    if is_present e then Some (pfn_to_pa (page_frame_number e)) else None).
Proof. intros E. by rewrite (table_S _ _ _ _ t). Qed.

(** Three reads of [mmu::unmap_page] and [mmu::prot_virt]: they stop at an
    absent entry, or reach the last table. *)
Lemma wp_walk {A} s sp v (a : A) (k : Z -> sst A) Q E :
  (forall j, (j <= 3)%nat -> table (phys s) (root_pa sp) v j = None -> Q a (s, sp)) ->
  (forall t, table (phys s) (root_pa sp) v 3 = Some t -> wp (k t) (s, sp) Q E) ->
  wp (let! pml4e := on_mmu (read_phys (slot (root_pa sp) (v_pml4 v))) in
      if negb (is_present pml4e) then ret a else
      let! pdpte := on_mmu (read_phys (slot (pfn_to_pa (page_frame_number pml4e)) (v_pdpt v))) in
      if negb (is_present pdpte) then ret a else
      let! pde := on_mmu (read_phys (slot (pfn_to_pa (page_frame_number pdpte)) (v_pd v))) in
      if negb (is_present pde) then ret a else
      k (pfn_to_pa (page_frame_number pde))) (s, sp) Q E.
Proof.
  intros Habs Hk. pose proof (walk_step (phys s) (root_pa sp) v 0 (root_pa sp) eq_refl) as E1.
  unfold v_pml4, v_pdpt, v_pd. apply wp_bind. unfold wp at 1. cbn [on_mmu read_phys fst snd].
  destruct (is_present _) eqn:P1; cbn [negb]; cbn zeta in E1; rewrite P1 in E1;
    [|by apply (Habs 1%nat); [lia|]].
  pose proof (walk_step (phys s) (root_pa sp) v 1 _ E1) as E2. clear E1.
  apply wp_bind. unfold wp at 1. cbn [on_mmu read_phys fst snd].
  destruct (is_present (read64 _ (slot _ (ix 1 v)))) eqn:P2; cbn [negb]; cbn zeta in E2; rewrite P2 in E2;
    [|by apply (Habs 2%nat); [lia|]].
  pose proof (walk_step (phys s) (root_pa sp) v 2 _ E2) as E3. clear E2.
  apply wp_bind. unfold wp at 1. cbn [on_mmu read_phys fst snd].
  destruct (is_present (read64 _ (slot _ (ix 2 v)))) eqn:P3; cbn [negb]; cbn zeta in E3; rewrite P3 in E3;
    [|by apply (Habs 3%nat); [lia|]].
  by apply Hk.
Qed.

Lemma unmap_page_spec R s sp va E :
  mmu_wf s R -> live R (root_pa sp) (page_align va) ->
  wp (unmap_page va) (s, sp) (fun _ x => unmap_page_post R s sp (page_align va) x.1 x.2) E.
Proof.
  intros Hs Hl. set (v := page_align va) in *.
  unfold unmap_page. apply wp_bind. unfold wp at 1, the_space; cbn [snd]. fold v.
  set (s1 := match shadow sp !! v with Some pa => emit (note_page pa v 0 0 false) s | None => s end).
  set (sp1 := set_shadow (delete v) sp).
  assert (phys s1 = phys s) as Hp by (unfold s1; by case_match).
  assert (remap R (root_pa sp) (fun _ => None) s s1) as G.
  { unfold s1. case_match; [apply remap_emit|]; by apply remap_refl. }
  apply wp_bind. eapply wp_mono with (E := fun _ _ => False) (Q := fun _ x => x = (s1, sp1)).
  { unfold wp, s1, sp1. destruct (shadow sp !! v) eqn:Esh; [done|]. cbn. f_equal.
    destruct sp as [r sh un kn]. unfold set_shadow. cbn in *. by rewrite delete_id. }
  2: { done. }
  intros _ x ->. apply (wp_walk s1 sp1 v tt (fun t => on_mmu (write_phys (slot t (v_pt v)) 0))).
  - intros j Hj En. split; cbn [fst snd]; try done.
    + eapply remap_trans; [apply Hs|exact G|apply remap_absent; [apply (rm_wf _ _ _ _ _ G)|]|].
      * by apply (pte_table_None _ _ _ j).
      * intros va'. cbn beta. by case_decide.
    + unfold s1. by case_match.
    + unfold s1. destruct (shadow sp !! v); [done|by rewrite app_nil_r].
  - intros t Et. unfold wp. cbn [on_mmu write_phys modify fst snd].
    split; cbn [fst snd]; try done.
    + eapply remap_trans; [apply Hs|exact G|exact (remap_leaf R s1 _ v t 0 (rm_wf _ _ _ _ _ G) Hl Et)|].
      intros va'. cbn beta. case_decide; [|done]. unfold when_pres. by rewrite pres_zero.
    + unfold s1. by case_match.
    + unfold s1. destruct (shadow sp !! v); [done|by rewrite app_nil_r].
Qed.

Lemma prot_entry_ok e prot :
  pres (u64 (prot_entry e prot)) = true /\ fr (u64 (prot_entry e prot)) = fr e.
Proof using laws.
  entry_facts. cbn [pres fr x86_fmt]. unfold is_present, prot_entry. split.
  - repeat case_match; by entry_flag.
  - repeat case_match; entry_pfn; unfold page_frame_number;
      by rewrite <- Z.land_assoc, Z.land_diag.
Qed.

Lemma prot_page_spec R s sp v prot E :
  mmu_wf s R -> live R (root_pa sp) v ->
  wp (prot_page v prot) (s, sp) (fun _ x => prot_page_post R s sp v (fun e => u64 (prot_entry e prot)) x.1 x.2) E.
Proof using laws.
  intros Hs Hl. unfold prot_page. apply wp_bind. unfold wp at 1, the_space; cbn [snd].
  apply (wp_walk s sp v tt (fun t => let! pte := on_mmu (read_phys (slot t (v_pt v))) in
    if negb (is_present pte) then ret tt else
    on_mmu (write_phys (slot t (v_pt v)) (prot_entry pte prot)))).
  - intros j Hj En. apply (pte_table_None _ _ _ j) in En; [|done]. split; cbn [fst snd]; try done.
    rewrite En. by apply remap_absent.
  - intros t Et. apply wp_bind. unfold wp at 1. cbn [on_mmu read_phys fst snd].
    assert (pte (phys s) (root_pa sp) v = when_pres (read64 (phys s) (slot t (v_pt v)))) as Ep.
    { unfold pte, leaf. by rewrite Et. }
    unfold when_pres in Ep. cbn [pres x86_fmt] in Ep.
    destruct (is_present _) eqn:Pe; cbn [negb].
    + unfold wp. cbn [on_mmu write_phys modify fst snd]. split; cbn [fst snd]; try done.
      rewrite Ep. cbn [fmap option_fmap option_map].
      eapply remap_ext; [|exact (remap_leaf R s _ v t _ Hs Hl Et)].
      intros va. cbn beta. case_decide; [|done]. unfold when_pres. by rewrite (proj1 (prot_entry_ok _ _)).
    + split; cbn [fst snd]; try done. rewrite Ep. by apply remap_absent.
Qed.

(** *** Translation *)

(** [translate_virt] is the walk of the tables. *)
Lemma translate_virt_walk m sp v : translate_virt m sp v = translate m (root_pa sp) v.
Proof.
  unfold translate_virt, translate, pte, leaf, v_pml4, v_pdpt, v_pd, v_pt. cbn.
  repeat (case_match; cbn; try done).
Qed.

End PageOps.

(** ** The operations on a range *)

Section RangeOps.
Context {M : Type} {pm : PhysMem M} {pl : PhysMemLaws M} {ia : Ia32} {laws : Ia32Laws}.
Implicit Types (s : mmu M) (R : gset Z).

Lemma translate_leaf m sp page frame prot :
  pte m (root_pa sp) page = Some (u64 (leaf_entry frame prot)) -> pa_ok frame ->
  frame_aligned frame -> translate_virt m sp page = Some frame.
Proof using laws.
  intros E Hf Ha. rewrite translate_virt_walk. unfold translate. rewrite E.
  cbn [fmap option_fmap option_map]. rewrite (proj2 (leaf_entry_ok frame prot Hf)).
  f_equal. by apply align_down_id; [apply pow2_4096|].
Qed.

Lemma map_virt_wp R s sp va size prot :
  mmu_wf s R -> range_ok R (root_pa sp) (page_align va) (pages size) ->
  wp (map_virt va size prot) (s, sp)
    (fun _ x => confined R s sp (page_align va) size x.1 x.2 /\
      mapped_to sp (page_align va) size (fun pa => u64 (leaf_entry pa prot)) (fresh_frame s) x.1 x.2 /\
      forall i, 0 <= i < pages size -> frame_aligned (fresh_frame s i) /\
        phys_base <= fresh_frame s i /\ fresh_frame s i + page_size <= phys_end /\
        backed (phys x.1) (fresh_frame s i) /\ ~ is_table (phys x.1) R (fresh_frame s i) /\
        forall b buf, in_frame (fresh_frame s i) b (length buf) ->
          read_phys_mem (phys x.1) b buf = replicate (length buf) 0)
    (fun e x => range_fail R s (size_align size + pages size * (3 * page_size)) e x.1).
Proof using laws.
  intros Hs Hr. apply (map_virt_spec R s sp _ size Hs Hr
    (fun v pa => map_page v pa prot) (fun pa => u64 (leaf_entry pa prot)) pa_ok).
  - intros s2 sp2 v pa. apply map_page_spec.
  - intros i Hi Hle. apply phys_pa_ok. unfold fresh_frame, page_size in *.
    pose proof (next_le_end s (mw_inv _ _ Hs)). unfold phys_base in *. lia.
Qed.

(** An entry that allows what [prot] asks for: writing and execution only when
    asked, a user page unless it is the kernel's,
    and a kernel page in every space. *)
Definition allows (e prot : Z) : Prop :=
  Z.testbit e b_write = has prot prot_write /\
  Z.testbit e b_execute_disable = negb (has prot prot_exec) /\
  Z.testbit e b_accessed = true /\
  Z.testbit e b_dirty = has prot prot_write /\
  Z.testbit e b_supervisor = negb (has prot prot_supervisor) /\
  Z.testbit e b_global = has prot prot_supervisor.

Lemma leaf_entry_allows pa prot : allows (u64 (leaf_entry pa prot)) prot.
Proof using laws.
  entry_facts. unfold allows, leaf_entry.
  split_and!; destruct (has prot prot_supervisor); cbn [negb]; entry_flag; done.
Qed.

(** C1: mapping a range of an x86-64 address space.  When [map_virt] returns,
    page [i] of the range translates to the [i]-th frame of a fresh block with
    exactly the permissions [prot] asks for, the shadow map says the same, and the
    frame reads as zeros and is no page table; no page outside the range changed in
    any address space, no other space saw a change in its lower half, no other
    memory changed, and the translation caches were flushed last.  It fails
    only for want of physical memory, with the invariant intact. *)
Theorem map_virt_correct R s sp va size prot :
  mmu_wf s R -> range_ok R (root_pa sp) (page_align va) (pages size) ->
  wp (map_virt va size prot) (s, sp)
    (fun _ x => confined R s sp (page_align va) size x.1 x.2 /\
      forall i, 0 <= i < pages size ->
        let page := page_align va +w page_size * i in
        let frame := phys_next_ s + page_size * i in
        translate_virt (phys x.1) x.2 page = Some frame /\
        (exists e, pte (phys x.1) (root_pa sp) page = Some e /\ allows e prot) /\
        shadow x.2 !! page = Some frame /\ ~ is_table (phys x.1) R frame /\
        forall b buf, in_frame frame b (length buf) ->
          read_phys_mem (phys x.1) b buf = replicate (length buf) 0)
    (fun e x => range_fail R s (size_align size + pages size * (3 * page_size)) e x.1).
Proof using laws.
  intros Hs Hr. eapply wp_mono; [by apply map_virt_wp| |done].
  intros _ [s' sp'] (Hc & Hm & Hf). cbn [fst snd] in *. split; [done|]. intros i Hi.
    set (page := page_align va +w page_size * i).
    set (frame := phys_next_ s + page_size * i).
    destruct (Hm i Hi) as [Hp Hsh]. destruct (Hf i Hi) as (Ha & Hlo & Hhi & _ & Hnt & Hz).
    fold page in Hp, Hsh. split_and!; try done; [|by eexists; split; [exact Hp|apply leaf_entry_allows]].
    apply (translate_leaf _ _ _ _ prot).
    + by rewrite (cf_root _ _ _ _ _ _ _ Hc).
    + apply phys_pa_ok. unfold frame, fresh_frame, phys_base, page_size in *. lia.
    + done.
Qed.

(** Mapping given physical memory.  When [map_virt_phys] returns, page [i]
    of the range translates to frame [i] of the physical range, which may be
    any memory an entry can name, with the permissions [prot] asks for; everything else is as it was. *)
Theorem map_virt_phys_correct R s sp va pa size prot :
  mmu_wf s R -> range_ok R (root_pa sp) (page_align va) (pages size) ->
  (forall i, 0 <= i < pages size -> pa_ok (page_align pa +w page_size * i)) ->
  wp (map_virt_phys va pa size prot) (s, sp)
    (fun _ x => confined R s sp (page_align va) size x.1 x.2 /\
      forall i, 0 <= i < pages size ->
        let page := page_align va +w page_size * i in
        let frame := page_align pa +w page_size * i in
        translate_virt (phys x.1) x.2 page = Some frame /\
        (exists e, pte (phys x.1) (root_pa sp) page = Some e /\ allows e prot) /\
        shadow x.2 !! page = Some frame)
    (fun e x => range_fail R s (pages size * (3 * page_size)) e x.1).
Proof using laws.
  intros Hs Hr Hpa. eapply wp_mono; [apply (map_virt_phys_spec R s sp _ size Hs Hr
    (fun v pa => map_page v pa prot) (fun pa => u64 (leaf_entry pa prot)) pa_ok)| |done].
  - intros s2 sp2 v pa'. apply map_page_spec.
  - done.
  - intros _ [s' sp'] (Hc & Hm). cbn [fst snd] in *. split; [done|]. intros i Hi.
    set (page := page_align va +w page_size * i).
    set (frame := page_align pa +w page_size * i).
    destruct (Hm i Hi) as [Hp Hsh]. split_and!; try done; [|by eexists; split; [exact Hp|apply leaf_entry_allows]].
    apply (translate_leaf _ _ _ _ prot).
    + by rewrite (cf_root _ _ _ _ _ _ _ Hc).
    + by apply Hpa.
    + unfold frame. rewrite <- page_align_off by (apply align_down_mod, pow2_4096).
      apply align_down_mod, pow2_4096.
Qed.

(** C3: unmapping a range never fails; afterwards no page of it translates,
    neither by the tables nor by the shadow map, and nothing else changed. *)
Theorem unmap_virt_correct R s sp va size :
  mmu_wf s R -> range_ok R (root_pa sp) (page_align va) (pages size) ->
  wp (unmap_virt va size) (s, sp)
    (fun _ x => confined R s sp (page_align va) size x.1 x.2 /\ phys_next_ x.1 = phys_next_ s /\
      forall i, 0 <= i < pages size ->
        virt_to_phys (phys x.1) x.2 (page_align va +w page_size * i) = None)
    (fun _ _ => False).
Proof.
  intros Hs Hr. eapply wp_mono; [apply (unmap_virt_spec R s sp _ size Hs Hr unmap_page (fun _ _ => False))| |done].
  - intros s2 sp2 v. apply unmap_page_spec.
  - intros _ [s' sp'] (Hc & Hn & Hm). cbn [fst snd] in *. split_and!; [done..|]. intros i Hi.
    destruct (Hm i Hi) as [Hp Hsh]. unfold virt_to_phys, Space.virt_to_phys.
    rewrite page_align_off by (apply align_down_mod, pow2_4096).
    rewrite translate_virt_walk. unfold translate.
    rewrite (cf_root _ _ _ _ _ _ _ Hc), Hp, Hsh. done.
Qed.

(** C39: reprotecting a range never fails and moves no page: each page of it
    keeps its frame, and an entry that was present now allows writing and
    execution exactly as [prot] asks, keeps its accessed, dirty and user bits,
    and is global exactly when it is a kernel page. *)
Theorem prot_virt_correct R s sp va size prot :
  mmu_wf s R -> range_ok R (root_pa sp) (page_align va) (pages size) ->
  wp (prot_virt va size prot) (s, sp)
    (fun _ x => confined R s sp (page_align va) size x.1 x.2 /\ x.2 = sp /\
      forall i, 0 <= i < pages size ->
        let page := page_align va +w page_size * i in
        translate_virt (phys x.1) sp page = translate_virt (phys s) sp page /\
        forall e, pte (phys s) (root_pa sp) page = Some e ->
        exists e', pte (phys x.1) (root_pa sp) page = Some e' /\
          Z.testbit e' b_write = has prot prot_write /\
          Z.testbit e' b_execute_disable = negb (has prot prot_exec) /\
          Z.testbit e' b_accessed = Z.testbit e b_accessed /\
          Z.testbit e' b_dirty = Z.testbit e b_dirty /\
          Z.testbit e' b_supervisor = Z.testbit e b_supervisor /\
          Z.testbit e' b_global = negb (Z.testbit e b_supervisor))
    (fun _ _ => False).
Proof using laws.
  intros Hs Hr. eapply wp_mono; [apply (prot_virt_spec R s sp _ size Hs Hr
    (fun e => u64 (prot_entry e prot)) (fun v => prot_page v prot) (fun _ _ => False))| |done].
  - intros s2 sp2 v. apply prot_page_spec.
  - intros _ [s' sp'] (Hc & Hsp & Hn & Hm). cbn [fst snd] in *. subst sp'. split_and!; [done..|].
    intros i Hi. set (page := page_align va +w page_size * i). specialize (Hm i Hi). fold page in Hm. split.
    + rewrite !translate_virt_walk. unfold translate. rewrite Hm.
      destruct (pte (phys s) (root_pa sp) page) as [e|]; [|done]. cbn [fmap option_fmap option_map].
      f_equal. apply prot_entry_ok.
    + intros e E. rewrite E in Hm. eexists. split; [exact Hm|]. entry_facts. unfold prot_entry.
      split_and!; repeat case_match; entry_flag; simpl in *; congruence.
Qed.

(** C5: a new space.  Its root is a fresh frame; the kernel's half of it is
    mapped exactly as in the first space, its lower half is empty, no other
    space changed, and the tables of all of them, the new one included, are
    again well formed.  Only lack of memory makes it fail, changing nothing. *)
Theorem create_addr_space_correct R s :
  mmu_wf s R ->
  wp create_addr_space s
    (fun sp s' => sp = new_space (phys_next_ s) /\ ~ root_pa sp ∈ R /\
      mmu_wf s' ({[root_pa sp]} ∪ R) /\ spaces_ s' = {[root_pa sp]} ∪ spaces_ s /\
      (forall r va, live R r va -> pte (phys s') r va = pte (phys s) r va) /\
      (forall va, v_pml4 va < 256 -> translate_virt (phys s') sp va = None) /\
      (forall va, v_pml4 va <> hole -> 256 <= v_pml4 va -> kernel_root_ s <> 0 ->
        translate_virt (phys s') sp va = translate_virt (phys s) (new_space (kernel_root_ s)) va))
    (fun e s' => e = out_of_phys /\ s' = s).
Proof.
  intros Hs. eapply wp_mono; [by apply create_addr_space_spec|..].
  - intros sp s' [C1 C2 C3 C4 C5 C6 C7 C8]. split_and!; try done.
    + intros va Hv. rewrite translate_virt_walk. unfold translate. by rewrite C7.
    + intros va Hh Hv Hk. rewrite !translate_virt_walk. unfold translate. rewrite C8 by done.
      by rewrite (proj2 (Z.eqb_neq _ _)).
  - intros e s' (-> & -> & _). done.
Qed.

(** C6: what [write_virt] stores [read_virt] returns, for a buffer of any
    length over any number of pages, when its pages are mapped to memory that
    is no page table and no two bytes share an address; both calls return (the
    page loop ends), every byte elsewhere keeps its value, and no mapping
    changes. *)
Theorem write_read_virt R s sp va buf (F : nat -> Z) :
  mmu_wf s R -> Forall is_byte buf ->
  (forall j, (j < length buf)%nat -> writable translate_virt R sp (phys s) (va +w Z.of_nat j) (F j)) ->
  (forall i j, (i < length buf)%nat -> (j < length buf)%nat -> dest va F i = dest va F j -> i = j) ->
  exists s', write_virt sp va buf s = (Ok tt, s') /\
    (forall buf0, length buf0 = length buf -> read_virt sp va buf0 s' = (Ok buf, s')) /\
    same_maps R s s' /\
    (forall g b, frame_aligned g -> backed (phys s) g -> in_frame g b 1 ->
      (forall j, (j < length buf)%nat -> b <> dest va F j) -> byte_at (phys s') b = byte_at (phys s) b).
Proof.
  intros Hs Hb Hw Hi.
  destruct (write_read_spec translate_virt R sp (fun m page _ _ => translate_virt_walk m sp page)
    va buf F Hb Hi s Hs Hw) as (s' & E & [W1 W2 W3] & Hr).
  exists s'. split_and!; [done..|]. intros g b Hg Hgb Hin Hne. apply (W3 g); try done.
  intros j Hj. apply Hne. lia.
Qed.

(** C7: [read_virt] over mapped memory returns the bytes the translation names,
    changing nothing; with a byte whose page resolves to nothing it throws
    "unmapped virtual address". *)
Theorem read_virt_correct R s sp va buf k :
  mmu_wf s R -> (k <= length buf)%nat ->
  (forall j, (j < k)%nat -> exists f, readable translate_virt sp (phys s) (va +w Z.of_nat j) f) ->
  (k = length buf -> exists buf', read_virt sp va buf s = (Ok buf', s) /\ length buf' = length buf /\
    forall j, (j < length buf)%nat -> exists pa,
      virt_to_phys (phys s) sp (va +w Z.of_nat j) = Some pa /\ buf' !! j = Some (byte_at (phys s) pa)) /\
  ((k < length buf)%nat -> virt_to_phys (phys s) sp (va +w Z.of_nat k) = None ->
    read_virt sp va buf s = (Throw unmapped_va, s)).
Proof.
  intros Hs Hk Hrd. split.
  - intros ->. destruct (read_loop translate_virt R sp s va (copy_fuel (length buf)) buf 0 Hs)
      as (buf' & E & Hl & _ & Hb).
    + right. apply fuel_start.
    + intros j Hj. apply Hrd. lia.
    + exists buf'. split_and!; try done. intros j Hj. apply Hb. lia.
  - intros Hlt Hn. apply (read_unmapped translate_virt R sp s va _ buf 0 k Hs); [lia|apply fuel_start| |].
    + intros j Hj. apply Hrd. lia.
    + unfold virt_to_phys in Hn. rewrite virt_to_phys_frame in Hn.
      by destruct (frame_of translate_virt (phys s) sp (page_align (va +w Z.of_nat k))).
Qed.

End RangeOps.
