(* ===== verification/X86Win.v ===== *)
(** * The recursive self map

    kernel/win/x86_win.cpp points one PML4 slot of every space back at the
    space's own root, and kernel/win/modules/nt_data_globals.cpp computes from
    the slot alone where the entry that maps an address is visible.  Here: the
    slot disturbs no other address, and the arithmetic is right at every
    level. *)

From S2P Require Import Prelude Phys Mmu PageTable Space Create X86Mmu.
From stdpp Require Import gmap.
From stdpp Require Import options.

Open Scope Z_scope.
Open Scope kern_scope.

Definition self_map_pml4_index : Z := 0x1ED.
Definition pte_base : Z := 0xFFFFF68000000000.

(** [for (unsigned i = 0; i <= level; ++i) va = ...]: [level + 1] rounds. *)
Definition pte_of (va : Z) : Z := pte_base +w Z.land (va / 0x1000) 0xFFFFFFFFF * 8.
Definition pte_at_level (va : Z) (level : nat) : Z := Nat.iter (S level) pte_of va.

Section SelfMap.
Context {M : Type} `{!PhysMem M} {ia : Ia32}.

Definition self_entry (root : Z) : Z :=
  set_pfn (Z.shiftr root 12) (setb b_accessed true (setb b_write true (setb b_present true 0))).

Definition install_self_map (space : addr_space) : st (mmu M) unit :=
  if root_pa space =? 0 then ret tt
  else write_phys (slot (root_pa space) self_map_pml4_index) (self_entry (root_pa space)).

End SelfMap.

(** ** The arithmetic *)

Lemma pte_of_eq va : pte_of va = pte_base + (va / 4096) mod 2 ^ 36 * 8.
Proof.
  unfold pte_of. change 0xFFFFFFFFF with (Z.ones 36). rewrite Z.land_ones by lia.
  pose proof (Z.mod_pos_bound (va / 4096) (2 ^ 36) ltac:(lia)).
  apply u64_small. unfold in_u64, pte_base. lia.
Qed.

(** Four digits of nine bits, most significant first. *)
Lemma vpn_digits va :
  (va / 4096) mod 2 ^ 36 =
    ix 3 va + 512 * ix 2 va + 262144 * ix 1 va + 134217728 * ix 0 va.
Proof.
  rewrite digits4, (ix_vpn 0 3), (ix_vpn 1 2), (ix_vpn 2 1), (ix_vpn 3 0) by done.
  change (512 ^ Z.of_nat 0) with 1. change (512 ^ Z.of_nat 1) with 512.
  change (512 ^ Z.of_nat 2) with 262144. change (512 ^ Z.of_nat 3) with 134217728.
  by rewrite Z.div_1_r.
Qed.

Lemma digit_of q d r h x :
  x = (h * 512 + d) * q + r -> 0 <= r < q -> 0 <= d < 512 -> x / q mod 512 = d.
Proof.
  intros -> Hr Hd. rewrite Z.div_add_l by lia. rewrite (Z.div_small r) by done.
  rewrite Z.add_0_r, Z.add_comm, Z.mod_add by lia. by apply Z.mod_small.
Qed.

(** One step shifts the indices down a level and puts the slot on top. *)
Lemma pte_of_ix va :
  ix 0 (pte_of va) = self_map_pml4_index /\ ix 1 (pte_of va) = ix 0 va /\
  ix 2 (pte_of va) = ix 1 va /\ ix 3 (pte_of va) = ix 2 va /\
  pte_of va - page_align (pte_of va) = 8 * ix 3 va.
Proof.
  rewrite pte_of_eq, vpn_digits. pose proof (fun k => ix_range k va) as Hr.
  pose proof (Hr 0%nat). pose proof (Hr 1%nat). pose proof (Hr 2%nat). pose proof (Hr 3%nat).
  set (d0 := ix 0 va) in *. set (d1 := ix 1 va) in *. set (d2 := ix 2 va) in *. set (d3 := ix 3 va) in *.
  set (w := pte_base + _). clearbody d0 d1 d2 d3.
  assert (w / 4096 = 0xFFFFF68000000 + d2 + 512 * d1 + 262144 * d0) as Hw.
  { symmetry. apply (Z.div_unique w 4096 _ (d3 * 8)); unfold w, pte_base; lia. }
  split_and!.
  - rewrite (ix_vpn 3 0), Hw by done. change (512 ^ Z.of_nat 3) with 134217728.
    apply (digit_of 134217728 _ (d2 + 512 * d1 + 262144 * d0) 65535); unfold self_map_pml4_index; lia.
  - rewrite (ix_vpn 2 1), Hw by done. change (512 ^ Z.of_nat 2) with 262144.
    apply (digit_of 262144 _ (d2 + 512 * d1) 0x1FFFFED); lia.
  - rewrite (ix_vpn 1 2), Hw by done. change (512 ^ Z.of_nat 1) with 512.
    apply (digit_of 512 _ d2 (0x1FFFFED * 512 + d0)); lia.
  - rewrite (ix_vpn 0 3), Hw by done. change (512 ^ Z.of_nat 0) with 1.
    apply (digit_of 1 _ 0 ((0x1FFFFED * 512 + d0) * 512 + d1)); lia.
  - unfold page_align, page_size. rewrite align_down_eq by apply pow2_4096. rewrite Hw. unfold w, pte_base. lia.
Qed.

Lemma pte_of_digit va k : (k < 3)%nat -> ix (S k) (pte_of va) = ix k va.
Proof. pose proof (pte_of_ix va) as (_ & H1 & H2 & H3 & _). intros Hk. by destruct k as [|[|[|k]]]; [..|lia]. Qed.

Lemma level_ix va l : (l <= 3)%nat -> ix 3 (Nat.iter l pte_of va) = ix (3 - l) va.
Proof.
  intros Hl. assert (forall k, (k + l <= 3)%nat -> ix (k + l) (Nat.iter l pte_of va) = ix k va) as H.
  { clear Hl. induction l as [|l IH]; intros k Hk; [by rewrite Nat.add_0_r|].
    replace (k + S l)%nat with (S (k + l)) by lia. cbn [Nat.iter nat_rect].
    change (nat_rect _ _ _ l) with (Nat.iter l pte_of va). rewrite pte_of_digit by lia. apply IH. lia. }
  specialize (H (3 - l)%nat ltac:(lia)). by replace (3 - l + l)%nat with 3%nat in H by lia.
Qed.

(** ** The slot *)

Section Walks.
Context {M : Type} {pm : PhysMem M} {pl : PhysMemLaws M} {ia : Ia32} {laws : Ia32Laws}.
Implicit Types (s : mmu M) (R : gset Z) (m : M).

Lemma self_entry_ok root :
  0 <= root < phys_end -> frame_aligned root ->
  pres (u64 (self_entry root)) = true /\ fr (u64 (self_entry root)) = root.
Proof using laws.
  intros Hc Ha. entry_facts. cbn [pres fr x86_fmt]. unfold is_present, self_entry.
  split; [by entry_flag|]. entry_pfn. change 12 with page_shift.
  rewrite pfn_to_pa_page by (by apply phys_pa_ok).
  unfold page_align, page_size. by apply align_down_id; [apply pow2_4096|].
Qed.

Lemma translate_table m r va : translate m r va = table m r va 4.
Proof using Type.
  unfold translate, pte, leaf. change (table m r va 4) with (t ← table m r va 3;
    let e := read64 m (slot t (ix 3 va)) in if pres e then Some (fr e) else None).
  destruct (table m r va 3) as [t|]; [|done]. cbn. by case_match.
Qed.

Section Install.
Context (R : gset Z) (s : mmu M) (sp : addr_space).
Context (Hs : mmu_wf s R) (Hroot : root_pa sp ∈ R) (Hend : root_pa sp < phys_end).

Let root : Z := root_pa sp.
Let s' : mmu M := put_entry root self_map_pml4_index (self_entry root) s.

Lemma root_level : at_level (phys s) R root 0.
Proof using Hroot. split; [lia|]. destruct (exists_live R root Hroot) as (va & Hl). by exists root, va. Qed.

Lemma root_addr : table_addr root /\ backed (phys s) root.
Proof using Hs Hroot. apply (at_level_ok _ _ _ _ (mw_pt _ _ Hs) root_level). Qed.

Lemma install_run : install_self_map sp s = (Ok tt, s').
Proof using Hs Hroot.
  destruct root_addr as [[_ Hr] _]. unfold install_self_map.
  rewrite (proj2 (Z.eqb_neq (root_pa sp) 0)) by (unfold root in Hr; lia). done.
Qed.

Lemma install_not_passes r va : live R r va -> ~ passes (phys s) r va 0 root self_map_pml4_index.
Proof using Type. intros [_ Hh] [_ Hix]. by apply Hh. Qed.

Lemma install_table r va k :
  live R r va -> (k <= 3)%nat -> table (phys s') r va k = table (phys s) r va k.
Proof using Hs Hroot.
  intros Hl Hk. apply (table_write_other _ R _ _ _ 0); [apply Hs|apply root_level|done|done|done|].
  right. by apply install_not_passes.
Qed.

Lemma install_pte r va : live R r va -> pte (phys s') r va = pte (phys s) r va.
Proof using Hs Hroot.
  intros Hl. unfold pte. cbn [put_entry set_phys phys s'].
  rewrite (leaf_write_other _ R _ _ _ 0); [done|apply Hs|apply root_level|done|done|].
  by apply install_not_passes.
Qed.

Lemma install_wf : mmu_wf s' R.
Proof using Hs Hroot.
  split; [by apply (put_entry_inv s R root _ _ 0); [|apply root_level|]| |apply Hs|apply Hs].
  apply (pt_wf_ext (phys s)); [apply Hs|by apply (write_mem _ R _ _ _ 0); [apply Hs|apply root_level|]| |].
  - intros t Hb. cbn. by apply write64_backed.
  - intros r va k Hl Hk. by apply install_table.
Qed.

(** Through the slot the walk starts over at the root. *)
Lemma self_table va k : (k <= 3)%nat -> table (phys s') root (pte_of va) (S k) = table (phys s') root va k.
Proof using Hs Hroot Hend laws.
  destruct root_addr as [Hta Hb]. induction k as [|k IH]; intros Hk.
  - cbn [table mbind option_bind]. rewrite (proj1 (pte_of_ix va)).
    cbn [put_entry set_phys phys s']. rewrite read64_write64_same by (done || apply (mw_inv _ _ Hs)).
    destruct (self_entry_ok root) as [-> ->]; [|apply Hta|done]. destruct Hta as [_ Ht]. unfold root in *. lia.
  - change (table (phys s') root (pte_of va) (S (S k))) with
      (t ← table (phys s') root (pte_of va) (S k);
       let e := read64 (phys s') (slot t (ix (S k) (pte_of va))) in if pres e then Some (fr e) else None).
    rewrite IH by lia. by rewrite pte_of_digit by lia.
Qed.

Lemma level_table va l k :
  (l + k <= 3)%nat -> table (phys s') root (pte_at_level va l) (S l + k) = table (phys s') root va k.
Proof using Hs Hroot Hend laws.
  revert k. induction l as [|l IH]; intros k Hk.
  - by apply self_table.
  - change (pte_at_level va (S l)) with (pte_of (pte_at_level va l)).
    change (S (S l) + k)%nat with (S (S l + k)). rewrite self_table by lia. apply IH. lia.
Qed.

(** C11: the recursive self map of x86-64 Windows.  Installing it changes the
    mapping of no address outside the slot, in any space, and afterwards the
    address [pte_at_level] computes for level 0 to 3 of [va] is where the entry
    of that level that [va]'s walk reads really is: it translates to the entry's
    own physical address. *)
Theorem self_map_correct :
  exists s1, install_self_map sp s = (Ok tt, s1) /\ mmu_wf s1 R /\
    (forall r va, live R r va -> pte (phys s1) r va = pte (phys s) r va) /\
    forall va l t, live R (root_pa sp) va -> (l <= 3)%nat ->
      table (phys s) (root_pa sp) va (3 - l) = Some t ->
      virt_to_phys (phys s1) sp (pte_at_level va l) = Some (slot t (ix (3 - l) va)).
Proof using Hs Hroot Hend laws.
  exists s'. split_and!; [apply install_run|apply install_wf|apply install_pte|].
  intros va l t Hl Hk Ht. unfold virt_to_phys, Space.virt_to_phys.
  set (w := pte_at_level va l). rewrite translate_virt_walk.
  assert (translate (phys s') (root_pa sp) (page_align w) = Some t) as ->.
  { rewrite translate_table, (table_prefix _ _ _ w 4).
    - unfold w. replace 4%nat with (S l + (3 - l))%nat by lia. rewrite level_table by lia.
      by rewrite install_table by (done || lia).
    - rewrite !prefix_S. by rewrite !ix_page_align by lia. }
  cbn zeta. f_equal. unfold w. change (pte_at_level va l) with (pte_of (Nat.iter l pte_of va)).
  destruct (pte_of_ix (Nat.iter l pte_of va)) as (_ & _ & _ & _ & ->).
  rewrite level_ix by done. unfold slot. f_equal. lia.
Qed.

End Install.
End Walks.
