(* ===== verification/Arm64Mmu.v ===== *)
(** * The AArch64 MMU

    emu/arm64/mmu.cpp and emu/arm64/addr_space.hpp.  The descriptors are written
    with masks of the program's own; the rest has the shape of the x86-64 MMU,
    with [walk_to_l3], whose zero stands for "no table", in place of the reads
    written out there.  Ranges are mapped writable and narrowed later. *)

From S2P Require Import Prelude Phys Mmu PageTable Space VirtCopy Create.
From stdpp Require Import gmap.
From stdpp Require Import options.

Open Scope Z_scope.
Open Scope kern_scope.

Module Arm64.

(** ** Descriptors *)

Definition desc_valid : Z := Z.shiftl 1 0.
Definition desc_table : Z := Z.shiftl 1 1.
Definition desc_af : Z := Z.shiftl 1 10.
Definition desc_sh_is : Z := Z.shiftl 3 8.
Definition desc_ap_el0 : Z := Z.shiftl 1 6.
Definition desc_ap_ro : Z := Z.shiftl 1 7.
Definition desc_addr_mask : Z := 0x0000FFFFFFFFF000.

Definition page_attrs (prot : Z) : Z :=
  let attrs := Z.lor (Z.lor (Z.lor desc_valid desc_table) desc_af) desc_sh_is in
  let attrs := if negb (has prot prot_supervisor) then Z.lor attrs desc_ap_el0 else attrs in
  if negb (has prot prot_write) then Z.lor attrs desc_ap_ro else attrs.

Definition is_valid (e : Z) : bool := negb (Z.land e desc_valid =? 0).

(** The index fields of [union virt_addr]. *)
Definition v_l0 (va : Z) : Z := ix 0 va.
Definition v_l1 (va : Z) : Z := ix 1 va.
Definition v_l2 (va : Z) : Z := ix 2 va.
Definition v_l3 (va : Z) : Z := ix 3 va.

Section Arm64.
Context {M : Type} `{!PhysMem M}.

(** *** Spaces *)

Definition create_addr_space : st (mmu M) addr_space := Space.create_addr_space.
Definition destroy_addr_space : addr_space -> st (mmu M) unit := Space.destroy_addr_space.

Definition curr_addr_space (ttbr0_el1 : Z) : st (mmu M) (option Z) := fun s =>
  let ttbr := Z.land ttbr0_el1 desc_addr_mask in
  (Ok (if decide (ttbr ∈ spaces_ s) then Some ttbr else None), s).

(** *** Tables *)

Definition table_desc (child : Z) : Z :=
  Z.lor (Z.lor (Z.land child desc_addr_mask) desc_valid) desc_table.

Definition ensure_table (table_pa index : Z) : st (mmu M) Z :=
  let! entry := read_phys (slot table_pa index) in
  if is_valid entry then ret (Z.land entry desc_addr_mask) else
  let! child := alloc_phys_locked page_size in
  write_phys (slot table_pa index) (table_desc child) ;;
  ret child.

Definition page_desc (pa prot : Z) : Z := Z.lor (Z.land pa desc_addr_mask) (page_attrs prot).

Definition map_page (va pa prot : Z) : sst (M:=M) unit :=
  let! space := the_space in
  let v := page_align va in
  let! l1 := on_mmu (ensure_table (root_pa space) (v_l0 v)) in
  let! l2 := on_mmu (ensure_table l1 (v_l1 v)) in
  let! l3 := on_mmu (ensure_table l2 (v_l2 v)) in
  on_mmu (write_phys (slot l3 (v_l3 v)) (page_desc pa prot)) ;;
  on_space (set_shadow <[v := pa]>) ;;
  note pa v l3 0 true ;;
  note l3 v l2 1 true ;;
  note l2 v l1 2 true ;;
  note l1 v (root_pa space) 3 true ;;
  note (root_pa space) v (root_pa space) 4 true.

(** The lambda [step] of [walk_to_l3]. *)
Definition step (m : M) (table idx : Z) : Z :=
  let e := read64 m (slot table idx) in
  if is_valid e then Z.land e desc_addr_mask else 0.

Definition walk_to_l3 (m : M) (space : addr_space) (va : Z) : Z :=
  let v := page_align va in
  let l1 := step m (root_pa space) (v_l0 v) in
  if l1 =? 0 then 0 else
  let l2 := step m l1 (v_l1 v) in
  if l2 =? 0 then 0 else
  step m l2 (v_l2 v).

Definition translate_virt (m : M) (space : addr_space) (page : Z) : option Z :=
  let l3 := walk_to_l3 m space page in
  if l3 =? 0 then None else
  let entry := read64 m (slot l3 (v_l3 page)) in
  if negb (is_valid entry) then None else Some (Z.land entry desc_addr_mask).

Definition unmap_page (va : Z) : sst (M:=M) unit :=
  let! space := the_space in
  let v := page_align va in
  match shadow space !! v with
  | Some pa => on_space (set_shadow (delete v)) ;; note pa v 0 0 false
  | None => ret tt
  end ;;
  let! m := on_mmu get in
  let l3 := walk_to_l3 (phys m) space va in
  if l3 =? 0 then ret tt else on_mmu (write_phys (slot l3 (v_l3 v)) 0).

(** *** Ranges *)

Definition map_virt (va size prot : Z) : sst (M:=M) unit :=
  let start := page_align va in
  let aligned := size_align size in
  let! pa_block := on_mmu (alloc_phys_locked aligned) in
  for_pages aligned (fun off _ => map_page (start +w off) (pa_block +w off) (Z.lor prot prot_write)) tt ;;
  flush.

Definition map_virt_phys (va pa size prot : Z) : sst (M:=M) unit :=
  let start := page_align va in
  let pa_start := page_align pa in
  let aligned := size_align size in
  for_pages aligned (fun off _ => map_page (start +w off) (pa_start +w off) (Z.lor prot prot_write)) tt ;;
  flush.

Definition unmap_virt (va size : Z) : sst (M:=M) unit :=
  let start := page_align va in
  let aligned := size_align size in
  for_pages aligned (fun off _ => unmap_page (start +w off)) tt ;;
  flush.

(** The descriptor [prot_virt] writes over [entry]: who may access the page is
    the old descriptor's to say. *)
Definition prot_desc (entry prot : Z) : Z :=
  let attrs := page_attrs prot in
  let attrs := Z.ldiff attrs desc_ap_el0 in
  let attrs := Z.lor attrs (Z.land entry desc_ap_el0) in
  Z.lor (Z.land entry desc_addr_mask) attrs.

Definition prot_page (v prot : Z) : sst (M:=M) unit :=
  let! space := the_space in
  let! m := on_mmu get in
  let l3 := walk_to_l3 (phys m) space v in
  if l3 =? 0 then ret tt else
  let slot := slot l3 (v_l3 v) in
  let! entry := on_mmu (read_phys slot) in
  if negb (is_valid entry) then ret tt else
  on_mmu (write_phys slot (prot_desc entry prot)).

Definition prot_virt (va size prot : Z) : sst (M:=M) unit :=
  let start := page_align va in
  let aligned := size_align size in
  for_pages aligned (fun off _ => prot_page (start +w off) prot) tt ;;
  flush.

Definition copy_virt := Space.copy_virt translate_virt.
Definition read_virt := Space.read_virt translate_virt.
Definition write_virt := Space.write_virt translate_virt.
Definition virt_to_phys := Space.virt_to_phys translate_virt.

Definition alloc (size prot : Z) : sst (M:=M) Z :=
  let aligned := size_align size in
  let! va := bump (has prot prot_supervisor) aligned in
  map_virt va aligned prot ;; ret va.

Definition map_phys (pa size prot : Z) : sst (M:=M) Z :=
  let aligned := size_align size in
  let! va := bump (has prot prot_supervisor) aligned in
  map_virt_phys va pa aligned prot ;; ret va.

End Arm64.

(** ** Descriptors: what the masks say *)

Lemma valid_bit e : is_valid e = Z.testbit e 0.
Proof.
  unfold is_valid, desc_valid. change (Z.shiftl 1 0) with (Z.ones 1). rewrite Z.land_ones by lia.
  change (2 ^ 1) with 2. rewrite <- (Z.bit0_mod e). by destruct (Z.testbit e 0).
Qed.

#[export] Instance arm64_fmt : EntryFmt := {
  pres := is_valid;
  fr e := Z.land e desc_addr_mask;
  pres_zero := eq_refl;
  hole := -1
}.

Lemma mask_bit i : 0 <= i -> Z.testbit desc_addr_mask i = bool_decide (12 <= i < 48).
Proof.
  intros Hi. change desc_addr_mask with (Z.shiftl (Z.ones 36) 12). rewrite Z.shiftl_spec by done.
  destruct (decide (i < 12)).
  - rewrite Z.testbit_neg_r by lia. symmetry. apply bool_decide_eq_false. lia.
  - rewrite Z.testbit_ones by lia. destruct (Z.leb_spec 0 (i - 12)), (Z.ltb_spec (i - 12) 36); try lia;
      symmetry; [apply bool_decide_eq_true|apply bool_decide_eq_false]; lia.
Qed.

(** The address field survives the store and whatever attributes go beside it. *)
Lemma desc_fields a attrs :
  Z.land attrs desc_addr_mask = 0 ->
  fr (u64 (Z.lor (Z.land a desc_addr_mask) attrs)) = Z.land a desc_addr_mask /\
  (Z.testbit attrs 0 = true -> pres (u64 (Z.lor (Z.land a desc_addr_mask) attrs)) = true).
Proof.
  intros Ha. cbn [fr pres arm64_fmt]. split.
  - apply Z.bits_inj'. intros i Hi. rewrite !Z.land_spec, mask_bit by done.
    pose proof (f_equal (fun z => Z.testbit z i) Ha) as Hai.
    cbn beta in Hai. rewrite Z.land_spec, mask_bit, Z.bits_0 in Hai by done.
    destruct (bool_decide (12 <= i < 48)) eqn:Hb; [|by rewrite !andb_false_r].
    apply bool_decide_eq_true in Hb. unfold u64. rewrite Z.mod_pow2_bits_low by lia.
    rewrite Z.lor_spec, Z.land_spec, mask_bit by done. rewrite bool_decide_true by lia.
    rewrite andb_true_r in Hai. by rewrite Hai, orb_false_r, !andb_true_r.
  - intros Ht. rewrite valid_bit. unfold u64. rewrite Z.mod_pow2_bits_low by lia.
    by rewrite Z.lor_spec, Ht, orb_true_r.
Qed.

Lemma mask_page pa : 0 <= pa < 2 ^ 48 -> Z.land pa desc_addr_mask = page_align pa.
Proof.
  intros Hpa. unfold page_align, page_size, align_down. apply Z.bits_inj'. intros i Hi.
  rewrite !Z.land_spec, mask_bit by done. change (4096 - 1) with (Z.ones 12).
  rewrite Z.lnot_spec, Z.testbit_ones by lia.
  destruct (decide (i < 48)) as [Hlt|Hge].
  - f_equal. destruct (Z.leb_spec 0 i), (Z.ltb_spec i 12); try lia; cbn;
      [apply bool_decide_eq_false|apply bool_decide_eq_true]; lia.
  - rewrite <- (Z.mod_small pa (2 ^ 48)) by done. by rewrite Z.mod_pow2_bits_high by lia.
Qed.

Lemma attrs_mask prot : Z.land (page_attrs prot) desc_addr_mask = 0 /\ Z.testbit (page_attrs prot) 0 = true.
Proof. unfold page_attrs. by destruct (negb (has prot prot_supervisor)), (negb (has prot prot_write)). Qed.

(** ** The page operations *)

Section PageOps.
Context {M : Type} {pm : PhysMem M} {pl : PhysMemLaws M}.
Implicit Types (s : mmu M) (R : gset Z).

Definition pa_ok (pa : Z) : Prop := 0 <= pa < 2 ^ 48.

Lemma table_desc_ok child :
  pa_ok child -> frame_aligned child ->
  pres (u64 (table_desc child)) = true /\ fr (u64 (table_desc child)) = child.
Proof.
  intros Hc Ha. unfold table_desc. rewrite <- Z.lor_assoc.
  destruct (desc_fields child (Z.lor desc_valid desc_table) eq_refl) as [-> Hp].
  split; [by apply Hp|]. rewrite mask_page by done. by apply align_down_id; [apply pow2_4096|].
Qed.

Lemma arm_ensure_table_spec R s t i k :
  mmu_wf s R -> at_level (phys s) R t k -> 0 <= i < 512 -> (k < 3)%nat ->
  wp (ensure_table t i) s (ensure_post R s t i k) (ensure_fail s).
Proof.
  intros Hs Ht Hi Hk. unfold ensure_table, read_phys, write_phys.
  apply wp_bind. unfold wp at 1. set (e := read64 (phys s) (slot t i)).
  destruct (is_valid e) eqn:Ep.
  - split; [by apply grow_refl|unfold page_size; lia|].
    intros r va Hl E Hix. rewrite (table_S _ _ _ _ t) by done. cbn zeta. rewrite Hix. fold e.
    cbn [pres fr arm64_fmt]. by rewrite Ep.
  - apply wp_bind. eapply wp_mono; [apply alloc_page_spec, Hs| |done].
    intros c s1 (-> & A & Hle). apply wp_bind. unfold wp, modify, ret.
    pose proof (next_le_end s (mw_inv _ _ Hs)).
    destruct (table_desc_ok (phys_next_ s)) as [Hp Hf].
    { unfold pa_ok, phys_end, phys_size, phys_base in *. lia. }
    { apply (mw_inv _ _ Hs). }
    by apply ensure_hang.
Qed.

Lemma page_desc_ok pa prot :
  pa_ok pa -> pres (u64 (page_desc pa prot)) = true /\ fr (u64 (page_desc pa prot)) = page_align pa.
Proof.
  intros Hpa. destruct (attrs_mask prot) as [Ha Hv]. unfold page_desc.
  destruct (desc_fields pa (page_attrs prot) Ha) as [-> Hp]. split; [by apply Hp|by apply mask_page].
Qed.

Lemma arm_map_page_spec R s sp va pa prot :
  mmu_wf s R -> live R (root_pa sp) (page_align va) -> pa_ok pa ->
  wp (map_page va pa prot) (s, sp)
    (fun _ x => map_page_post R s sp (page_align va) pa (u64 (page_desc pa prot)) x.1 x.2)
    (fun e x => page_fail R s sp (3 * page_size) e x.1 x.2).
Proof.
  intros Hs Hl Hpa. unfold map_page. apply wp_bind. unfold wp at 1, the_space; cbn [snd].
  apply (wp_chain R ensure_table); [|done..| |].
  - intros s0 t i k. apply arm_ensure_table_spec.
  - intros a b c s' Hc. apply wp_map_tail; [done..|]. by apply page_desc_ok.
  - intros e s' Hf. by split.
Qed.

(** *** The walk *)

(** Zero stands for no table, and no table is at zero. *)
Lemma step_table m r v k t :
  table m r v k = Some t -> step m t (ix k v) = default 0 (table m r v (S k)).
Proof. intros E. rewrite (table_S _ _ _ _ t) by done. cbn. unfold step. by case_match. Qed.

Lemma table_nonzero m R r v k t :
  pt_wf m R -> live R r v -> (k <= 3)%nat -> table m r v k = Some t -> (t =? 0) = false.
Proof.
  intros Hw Hl Hk E. destruct (wf_table _ _ Hw r v k t) as [[_ Ht] _]; [done..|]. apply Z.eqb_neq. lia.
Qed.

(** [walk_to_l3] is the walk to the last table. *)
Lemma walk_to_l3_table m R sp va :
  pt_wf m R -> live R (root_pa sp) va ->
  walk_to_l3 m sp va = default 0 (table m (root_pa sp) va 3).
Proof.
  intros Hw Hl. unfold walk_to_l3, v_l0, v_l1, v_l2. rewrite !ix_page_align by lia. cbn zeta.
  rewrite (step_table m (root_pa sp) va 0) by done.
  destruct (table m (root_pa sp) va 1) as [t1|] eqn:E1; cbn [default from_option id].
  - rewrite (table_nonzero m R (root_pa sp) va 1 t1 Hw Hl ltac:(lia) E1), (step_table m (root_pa sp) va 1) by done.
    destruct (table m (root_pa sp) va 2) as [t2|] eqn:E2; cbn [default from_option id].
    + rewrite (table_nonzero m R (root_pa sp) va 2 t2 Hw Hl ltac:(lia) E2). by apply step_table.
    + by rewrite (table_None m (root_pa sp) va 2 3) by (done || lia).
  - by rewrite (table_None m (root_pa sp) va 1 3) by (done || lia).
Qed.

Lemma arm_translate_virt_walk m R sp page :
  pt_wf m R -> live R (root_pa sp) page -> translate_virt m sp page = translate m (root_pa sp) page.
Proof.
  intros Hw Hl. unfold translate_virt. rewrite (walk_to_l3_table m R) by done. cbn zeta.
  unfold translate, pte, leaf, v_l3. destruct (table m (root_pa sp) page 3) as [t|] eqn:E; [|done].
  cbn [default from_option id mbind option_bind]. rewrite (table_nonzero m R (root_pa sp) page 3 t Hw Hl ltac:(lia) E).
  cbn [pres arm64_fmt]. by destruct (is_valid (read64 m (slot t (ix 3 page)))).
Qed.

(** [if (const addr_t l3 = walk_to_l3(space, va))]: the branch taken. *)
Lemma arm_wp_walk {A} R s sp v (a : A) (k : Z -> sst (M:=M) A) Q E :
  mmu_wf s R -> live R (root_pa sp) v ->
  (table (phys s) (root_pa sp) v 3 = None -> Q a (s, sp)) ->
  (forall t, table (phys s) (root_pa sp) v 3 = Some t -> wp (k t) (s, sp) Q E) ->
  wp (let l3 := walk_to_l3 (phys s) sp v in if l3 =? 0 then ret a else k l3) (s, sp) Q E.
Proof.
  intros Hs Hl Hn Hk. cbn zeta. rewrite (walk_to_l3_table _ R) by (done || apply Hs).
  destruct (table (phys s) (root_pa sp) v 3) as [t|] eqn:Et; cbn [default from_option id].
  - rewrite (table_nonzero (phys s) R (root_pa sp) v 3 t (mw_pt _ _ Hs) Hl ltac:(lia) Et). by apply Hk.
  - by apply Hn.
Qed.

Lemma arm_unmap_page_spec R s sp va E :
  mmu_wf s R -> live R (root_pa sp) (page_align va) ->
  wp (unmap_page va) (s, sp) (fun _ x => unmap_page_post R s sp (page_align va) x.1 x.2) E.
Proof.
  intros Hs Hl. set (v := page_align va) in *.
  assert (live R (root_pa sp) va) as Hlva.
  { destruct Hl as [Hr Hh]. split; [done|]. by rewrite <- ix_page_align by lia. }
  assert (forall m, table m (root_pa sp) va 3 = table m (root_pa sp) v 3) as Htv.
  { intros m. apply table_prefix. unfold v. rewrite !prefix_S. by rewrite !ix_page_align by lia. }
  unfold unmap_page. apply wp_bind. unfold wp at 1, the_space; cbn [snd]. fold v.
  set (s1 := match shadow sp !! v with Some pa => emit (note_page pa v 0 0 false) s | None => s end).
  set (sp1 := set_shadow (delete v) sp).
  assert (remap R (root_pa sp) (fun _ => None) s s1) as G.
  { unfold s1. case_match; [apply remap_emit|]; by apply remap_refl. }
  apply wp_bind. eapply wp_mono with (E := fun _ _ => False) (Q := fun _ x => x = (s1, sp1)).
  { unfold wp, s1, sp1. destruct (shadow sp !! v) eqn:Esh; [done|]. cbn. f_equal.
    destruct sp as [r sh un kn]. unfold set_shadow. cbn in *. by rewrite delete_id. }
  2: { done. }
  intros _ x ->. apply wp_bind. unfold wp at 1. cbn [on_mmu get fst snd].
  assert (phys_next_ s1 = phys_next_ s) as Hnx by (unfold s1; by case_match).
  assert (trace s1 = trace s ++ match shadow sp !! v with
    | Some pa => [note_page pa v 0 0 false] | None => [] end) as Htr.
  { unfold s1. destruct (shadow sp !! v); [done|by rewrite app_nil_r]. }
  apply (arm_wp_walk R s1 sp1 va tt (fun t => on_mmu (write_phys (slot t (v_l3 v)) 0)));
    [apply G|done|..].
  - intros En. split; cbn [fst snd]; try done.
    eapply remap_trans; [apply Hs|exact G|apply remap_absent; [apply G|]|].
    + apply (pte_table_None _ _ _ 3); [done|]. by rewrite <- Htv.
    + intros va'. cbn beta. by case_decide.
  - intros t Et. rewrite Htv in Et. unfold wp. cbn [on_mmu write_phys modify fst snd].
    split; cbn [fst snd]; try done.
    eapply remap_trans; [apply Hs|exact G|exact (remap_leaf R s1 _ v t 0 (rm_wf _ _ _ _ _ G) Hl Et)|].
    intros va'. cbn beta. case_decide; [|done]. unfold when_pres. by rewrite pres_zero.
Qed.

Lemma prot_desc_ok e prot :
  pres (u64 (prot_desc e prot)) = true /\ fr (u64 (prot_desc e prot)) = fr e.
Proof.
  unfold prot_desc. set (attrs := Z.lor _ (Z.land e desc_ap_el0)).
  assert (Z.land attrs desc_addr_mask = 0 /\ Z.testbit attrs 0 = true) as [Ha Hv].
  { destruct (attrs_mask prot) as [Ha Hv]. unfold attrs. split.
    - rewrite Z.land_lor_distr_l, <- (Z.land_assoc e). change (Z.land desc_ap_el0 desc_addr_mask) with 0.
      rewrite Z.land_0_r, Z.lor_0_r, Z.ldiff_land, <- Z.land_assoc, (Z.land_comm (Z.lnot _)), Z.land_assoc.
      by rewrite Ha.
    - rewrite Z.lor_spec, Z.ldiff_spec, Hv. done. }
  destruct (desc_fields e attrs Ha) as [Hf Hp]. split; [by apply Hp|exact Hf].
Qed.

Lemma arm_prot_page_spec R s sp v prot E :
  mmu_wf s R -> live R (root_pa sp) v ->
  wp (prot_page v prot) (s, sp)
    (fun _ x => prot_page_post R s sp v (fun e => u64 (prot_desc e prot)) x.1 x.2) E.
Proof.
  intros Hs Hl. unfold prot_page. apply wp_bind. unfold wp at 1, the_space; cbn [snd].
  apply wp_bind. unfold wp at 1. cbn [on_mmu get fst snd].
  apply (arm_wp_walk R s sp v tt (fun t => let! entry := on_mmu (read_phys (slot t (v_l3 v))) in
    if negb (is_valid entry) then ret tt else
    on_mmu (write_phys (slot t (v_l3 v)) (prot_desc entry prot)))); [done|done|..].
  - intros En. apply (pte_table_None _ _ _ 3) in En; [|done]. split; cbn [fst snd]; try done.
    rewrite En. by apply remap_absent.
  - intros t Et. apply wp_bind. unfold wp at 1. cbn [on_mmu read_phys fst snd].
    assert (pte (phys s) (root_pa sp) v = when_pres (read64 (phys s) (slot t (v_l3 v)))) as Ep.
    { unfold pte, leaf. by rewrite Et. }
    unfold when_pres in Ep. cbn [pres arm64_fmt] in Ep.
    destruct (is_valid (read64 (phys s) (slot t (v_l3 v)))) eqn:Pe; cbn [negb].
    + unfold wp. cbn [on_mmu write_phys modify fst snd]. split; cbn [fst snd]; try done.
      rewrite Ep. cbn [fmap option_fmap option_map].
      eapply remap_ext; [|exact (remap_leaf R s _ v t _ Hs Hl Et)].
      intros va. cbn beta. case_decide; [|done]. unfold when_pres. by rewrite (proj1 (prot_desc_ok _ _)).
    + split; cbn [fst snd]; try done. rewrite Ep. by apply remap_absent.
Qed.

Lemma translate_page m R sp page frame prot :
  pt_wf m R -> live R (root_pa sp) page ->
  pte m (root_pa sp) page = Some (u64 (page_desc frame prot)) -> pa_ok frame ->
  frame_aligned frame -> translate_virt m sp page = Some frame.
Proof.
  intros Hw Hl E Hf Ha. rewrite (arm_translate_virt_walk m R) by done. unfold translate. rewrite E.
  cbn [fmap option_fmap option_map]. rewrite (proj2 (page_desc_ok frame prot Hf)).
  f_equal. by apply align_down_id; [apply pow2_4096|].
Qed.

(** ** The operations on a range *)

(** The access bits of a descriptor as stored: read-only is bit 7, user bit 6. *)
Lemma desc_access a attrs i :
  0 <= i < 12 -> Z.testbit (u64 (Z.lor (Z.land a desc_addr_mask) attrs)) i = Z.testbit attrs i.
Proof.
  intros Hi. unfold u64. rewrite Z.mod_pow2_bits_low by lia. rewrite Z.lor_spec, Z.land_spec, mask_bit by lia.
  rewrite bool_decide_false by lia. by rewrite andb_false_r.
Qed.

Lemma page_attrs_access prot :
  Z.testbit (page_attrs prot) 7 = negb (has prot prot_write) /\
  Z.testbit (page_attrs prot) 6 = negb (has prot prot_supervisor).
Proof.
  unfold page_attrs. destruct (negb (has prot prot_supervisor)) eqn:E1, (negb (has prot prot_write)) eqn:E2; done.
Qed.

Lemma writable_prot prot :
  has (Z.lor prot prot_write) prot_write = true /\
  has (Z.lor prot prot_write) prot_supervisor = has prot prot_supervisor.
Proof.
  unfold prot_write, prot_supervisor. change 8 with (2 ^ 3). change 2 with (2 ^ 1) at 2.
  rewrite !has_bit, !Z.lor_spec by lia. split; [apply orb_true_r|apply orb_false_r].
Qed.

(** C8: mapping a range of an AArch64 address space.  As on x86-64: page [i]
    translates to the [i]-th frame of a fresh zeroed block, nothing outside the
    range changed, and the caches were flushed; every page is writable, whatever
    [prot] says, and reachable from user mode exactly when [prot] lacks the
    supervisor flag. *)
Theorem arm64_map_virt_correct R s sp va size prot :
  mmu_wf s R -> range_ok R (root_pa sp) (page_align va) (pages size) ->
  wp (map_virt va size prot) (s, sp)
    (fun _ x => confined R s sp (page_align va) size x.1 x.2 /\
      forall i, 0 <= i < pages size ->
        let page := page_align va +w page_size * i in
        let frame := phys_next_ s + page_size * i in
        translate_virt (phys x.1) x.2 page = Some frame /\ shadow x.2 !! page = Some frame /\
        (exists e, pte (phys x.1) (root_pa sp) page = Some e /\
          Z.testbit e 7 = false /\ Z.testbit e 6 = negb (has prot prot_supervisor)) /\
        ~ is_table (phys x.1) R frame /\
        forall b buf, in_frame frame b (length buf) ->
          read_phys_mem (phys x.1) b buf = replicate (length buf) 0)
    (fun e x => range_fail R s (size_align size + pages size * (3 * page_size)) e x.1).
Proof.
  intros Hs Hr. pose proof (next_le_end s (mw_inv _ _ Hs)) as Hlo.
  eapply wp_mono; [apply (map_virt_spec R s sp _ size Hs Hr (fun v pa => map_page v pa (Z.lor prot prot_write))
    (fun pa => u64 (page_desc pa (Z.lor prot prot_write))) pa_ok)| |done].
  - intros s2 sp2 v pa. apply arm_map_page_spec.
  - intros i Hi Hle. unfold pa_ok, fresh_frame, phys_end, phys_base, phys_size, page_size in *. lia.
  - intros _ [s' sp'] (Hc & Hm & Hf). cbn [fst snd] in *. split; [done|]. intros i Hi.
    set (page := page_align va +w page_size * i). set (frame := phys_next_ s + page_size * i).
    destruct (Hm i Hi) as [Hp Hsh]. destruct (Hf i Hi) as (Ha & Hl1 & Hl2 & _ & Hnt & Hz).
    change (fresh_frame s i) with frame in *. fold page in Hp, Hsh. split_and!; try done.
    + apply (translate_page _ R _ _ _ (Z.lor prot prot_write)); try done.
      * apply (mw_pt _ _ (cf_wf _ _ _ _ _ _ _ Hc)).
      * rewrite (cf_root _ _ _ _ _ _ _ Hc). by apply Hr.
      * by rewrite (cf_root _ _ _ _ _ _ _ Hc).
      * unfold pa_ok, phys_end, phys_base, phys_size, page_size in *. lia.
    + eexists. split; [exact Hp|]. unfold page_desc. rewrite !desc_access by lia.
      destruct (page_attrs_access (Z.lor prot prot_write)) as [-> ->].
      by destruct (writable_prot prot) as [-> ->].
Qed.

(** Unmapping on AArch64 never fails; afterwards no page of the range
    translates, neither by the tables nor by the shadow map, and nothing else
    changed. *)
Theorem arm64_unmap_virt_correct R s sp va size :
  mmu_wf s R -> range_ok R (root_pa sp) (page_align va) (pages size) ->
  wp (unmap_virt va size) (s, sp)
    (fun _ x => confined R s sp (page_align va) size x.1 x.2 /\ phys_next_ x.1 = phys_next_ s /\
      forall i, 0 <= i < pages size ->
        virt_to_phys (phys x.1) x.2 (page_align va +w page_size * i) = None)
    (fun _ _ => False).
Proof.
  intros Hs Hr. eapply wp_mono; [apply (unmap_virt_spec R s sp _ size Hs Hr unmap_page (fun _ _ => False))| |done].
  - intros s2 sp2 v. apply arm_unmap_page_spec.
  - intros _ [s' sp'] (Hc & Hn & Hm). cbn [fst snd] in *. split_and!; [done..|]. intros i Hi.
    destruct (Hm i Hi) as [Hp Hsh]. unfold virt_to_phys, Space.virt_to_phys.
    rewrite page_align_off by (apply align_down_mod, pow2_4096).
    pose proof (cf_root _ _ _ _ _ _ _ Hc) as Hroot.
    rewrite (arm_translate_virt_walk _ R); [|apply (mw_pt _ _ (cf_wf _ _ _ _ _ _ _ Hc))|rewrite Hroot; by apply Hr].
    unfold translate. by rewrite Hroot, Hp, Hsh.
Qed.

(** Reprotecting on AArch64 never fails and moves no page: an entry that
    was valid keeps its frame and its user bit, and is read-only exactly when
    [prot] lacks the write flag. *)
Theorem arm64_prot_virt_correct R s sp va size prot :
  mmu_wf s R -> range_ok R (root_pa sp) (page_align va) (pages size) ->
  wp (prot_virt va size prot) (s, sp)
    (fun _ x => confined R s sp (page_align va) size x.1 x.2 /\ x.2 = sp /\
      forall i, 0 <= i < pages size ->
        let page := page_align va +w page_size * i in
        translate_virt (phys x.1) sp page = translate_virt (phys s) sp page /\
        forall e, pte (phys s) (root_pa sp) page = Some e ->
        exists e', pte (phys x.1) (root_pa sp) page = Some e' /\
          Z.testbit e' 7 = negb (has prot prot_write) /\ Z.testbit e' 6 = Z.testbit e 6)
    (fun _ _ => False).
Proof.
  intros Hs Hr. eapply wp_mono; [apply (prot_virt_spec R s sp _ size Hs Hr
    (fun e => u64 (prot_desc e prot)) (fun v => prot_page v prot) (fun _ _ => False))| |done].
  - intros s2 sp2 v. apply arm_prot_page_spec.
  - intros _ [s' sp'] (Hc & Hsp & Hn & Hm). cbn [fst snd] in *. subst sp'. split_and!; [done..|].
    intros i Hi. set (page := page_align va +w page_size * i). specialize (Hm i Hi). fold page in Hm.
    pose proof (ro_live _ _ _ _ Hr i Hi) as Hl. fold page in Hl. split.
    + rewrite !(arm_translate_virt_walk _ R); [|apply Hs|done|apply (mw_pt _ _ (cf_wf _ _ _ _ _ _ _ Hc))|done].
      unfold translate. rewrite Hm. destruct (pte (phys s) (root_pa sp) page) as [e|]; [|done].
      cbn [fmap option_fmap option_map]. f_equal. apply prot_desc_ok.
    + intros e E. rewrite E in Hm. eexists. split; [exact Hm|]. unfold prot_desc. rewrite !desc_access by lia.
      rewrite !Z.lor_spec, !Z.ldiff_spec, !Z.land_spec. destruct (page_attrs_access prot) as [-> ->].
      unfold desc_ap_el0. change (Z.testbit (Z.shiftl 1 6) 7) with false. change (Z.testbit (Z.shiftl 1 6) 6) with true.
      by rewrite !andb_false_r, !andb_true_r, orb_false_r.
Qed.

End PageOps.

End Arm64.
