(* ===== verification/X86Examples.v ===== *)
(** * The MMUs at work

    The documented entry layout (Intel SDM vol. 3, 4.5), which satisfies what
    the MMU relies on; the machine as it is before anything is mapped and after
    its first address space was created; and the theorems of [X86Mmu] at these
    states; and those of [Arm64Mmu] at the state after a first space. *)

From S2P Require Import Prelude Phys Mmu PageTable Space VirtCopy Create X86Mmu X86Win Arm64Mmu.
From stdpp Require Import gmap.
From stdpp Require Import options.

Open Scope Z_scope.
Open Scope kern_scope.

Module Intel.

#[export] Instance layout : Ia32 := {
  b_present := 0; b_write := 1; b_supervisor := 2; b_accessed := 5; b_dirty := 6;
  b_global := 8; b_execute_disable := 63;
  pfn_lo := 12; pfn_width := 36
}.

#[export] Instance laws : Ia32Laws.
Proof.
  split; unfold ia32_flags; cbn.
  - by apply (bool_decide_unpack _).
  - repeat constructor; lia.
  - lia.
  - lia.
Qed.

End Intel.
Export Intel.

Definition first_space : addr_space := new_space phys_base.
Definition one_space : mmu Unicorn.mem := snd (create_addr_space boot).

Lemma first_space_ok : create_addr_space boot = (Ok first_space, one_space).
Proof. vm_compute. reflexivity. Qed.

Lemma one_space_wf : mmu_wf one_space {[phys_base]}.
Proof.
  pose proof (create_addr_space_spec ∅ boot boot_wf) as H.
  pose proof (cr_wf _ _ _ _ (wp_ok _ _ _ _ _ _ H first_space_ok)) as Hw.
  by rewrite union_empty_r_L in Hw.
Qed.

Lemma one_space_next : phys_next_ one_space = phys_base + 0x1000.
Proof. vm_compute. reflexivity. Qed.

(** ** The theorems at these states *)

Lemma low_range : range_ok {[phys_base]} (root_pa first_space) (page_align 0x10000) (pages 0x3000).
Proof.
  change (page_align 0x10000) with 0x10000. change (pages 0x3000) with 3.
  split; [done|lia|]. intros i Hi. split; [by apply elem_of_singleton|].
  assert (i = 0 \/ i = 1 \/ i = 2) as [-> | [-> | ->]] by lia; vm_compute; done.
Qed.

(** Three user pages at 0x10000: the second maps to the second frame. *)
Lemma map_virt_witness :
  wp (map_virt 0x10000 0x3000 prot_rw) (one_space, first_space)
    (fun _ x => translate_virt (phys x.1) x.2 0x11000 = Some (phys_base + 0x2000))
    (fun _ _ => False).
Proof.
  eapply wp_mono; [apply (map_virt_correct _ _ _ 0x10000 0x3000 prot_rw one_space_wf low_range)|..].
  - intros _ x [_ H]. destruct (H 1) as [E _]; [done|]. rewrite one_space_next in E. exact E.
  - intros e x (_ & _ & H). rewrite one_space_next in H. vm_compute in H. done.
Defined.

(** The same pages over the frames from 0x200000. *)
Lemma map_virt_phys_witness :
  wp (map_virt_phys 0x10000 0x200000 0x3000 prot_rx) (one_space, first_space)
    (fun _ x => translate_virt (phys x.1) x.2 0x12000 = Some 0x202000)
    (fun _ _ => False).
Proof.
  eapply wp_mono; [apply (map_virt_phys_correct _ _ _ 0x10000 0x200000 0x3000 prot_rx one_space_wf low_range)|..].
  - intros i Hi. change (pages 0x3000) with 3 in Hi.
    assert (i = 0 \/ i = 1 \/ i = 2) as [-> | [-> | ->]] by lia; by split.
  - intros _ x [_ H]. by destruct (H 2).
  - intros e x (_ & _ & H). rewrite one_space_next in H. vm_compute in H. done.
Defined.

Lemma unmap_virt_witness :
  wp (unmap_virt 0x10000 0x3000) (one_space, first_space)
    (fun _ x => virt_to_phys (phys x.1) x.2 0x12000 = None) (fun _ _ => False).
Proof.
  eapply wp_mono; [apply (unmap_virt_correct _ _ _ 0x10000 0x3000 one_space_wf low_range)| |done].
  intros _ x (_ & _ & H). by apply (H 2).
Defined.

(** ** One page mapped *)

Definition mapped : mmu Unicorn.mem * addr_space :=
  snd (map_virt 0x10000 0x1000 prot_rw (one_space, first_space)).

Lemma one_page_range : range_ok {[phys_base]} (root_pa first_space) (page_align 0x10000) (pages 0x1000).
Proof.
  change (page_align 0x10000) with 0x10000. change (pages 0x1000) with 1.
  split; [done|lia|]. intros i Hi. split; [by apply elem_of_singleton|].
  assert (i = 0) as -> by lia. vm_compute. done.
Qed.

Lemma page_0_in : 0 <= 0 < pages 0x1000.
Proof. vm_compute. done. Qed.

Definition page_frame : Z := phys_base + 0x1000.

Lemma mapped_ok : map_virt 0x10000 0x1000 prot_rw (one_space, first_space) = (Ok tt, mapped).
Proof. vm_compute. reflexivity. Qed.

Lemma mapped_facts :
  mmu_wf mapped.1 {[phys_base]} /\ root_pa mapped.2 = phys_base /\
  translate_virt (phys mapped.1) mapped.2 0x10000 = Some page_frame /\
  backed (phys mapped.1) page_frame /\ ~ is_table (phys mapped.1) {[phys_base]} page_frame.
Proof.
  pose proof (map_virt_wp {[phys_base]} one_space first_space 0x10000 0x1000 prot_rw
    one_space_wf one_page_range) as H.
  pose proof (wp_ok _ _ _ _ _ _ H mapped_ok) as (Hc & _ & Hf). clear H.
  destruct (Hf 0 page_0_in) as (_ & _ & _ & Hb & Ht & _).
  assert (fresh_frame one_space 0 = page_frame) as Ef.
  { unfold fresh_frame. rewrite one_space_next. reflexivity. }
  rewrite Ef in Hb, Ht. pose proof (cf_wf _ _ _ _ _ _ _ Hc) as Hw. pose proof (cf_root _ _ _ _ _ _ _ Hc) as Hr.
  split_and!; [exact Hw|exact Hr|vm_compute; reflexivity|exact Hb|exact Ht].
Qed.

#[local] Opaque one_space mapped.

Lemma prot_virt_witness :
  wp (prot_virt 0x10000 0x1000 prot_read) (mapped.1, mapped.2)
    (fun _ x => translate_virt (phys x.1) mapped.2 0x10000 = Some page_frame) (fun _ _ => False).
Proof.
  destruct mapped_facts as (Hw & Hr & Ht & _).
  eapply wp_mono; [apply (prot_virt_correct {[phys_base]} mapped.1 mapped.2 0x10000 0x1000 prot_read Hw)| |done].
  - pose proof one_page_range as Ho'. change (root_pa first_space) with phys_base in Ho'. by rewrite <- Hr in Ho'.
  - intros _ x (_ & _ & H). destruct (H 0 page_0_in) as [E _]. rewrite <- Ht. exact E.
Defined.

Lemma create_addr_space_witness :
  wp create_addr_space one_space
    (fun sp s' => sp = new_space (phys_base + 0x1000)) (fun _ _ => True).
Proof.
  eapply wp_mono; [apply (create_addr_space_correct {[phys_base]} one_space one_space_wf)| |done].
  intros sp s' (E & _). by rewrite one_space_next in E.
Defined.

(** Eight bytes inside the page, and back. *)
Lemma mapped_writable j : 0 <= j < 0x1000 ->
  writable translate_virt {[phys_base]} mapped.2 (phys mapped.1) (0x10000 +w j) page_frame.
Proof.
  intros Hj. destruct mapped_facts as (Hw & Hr & Ht & Hb & Hn).
  assert (page_align (0x10000 +w j) = 0x10000) as Hp.
  { rewrite u64_small by (unfold in_u64; lia). unfold page_align, page_size.
    rewrite align_down_eq by apply pow2_4096. rewrite <- (Z.div_unique (0x10000 + j) 4096 16 j) by lia. done. }
  split; [split|..].
  - rewrite Hp. unfold frame_of. rewrite Ht. reflexivity.
  - reflexivity.
  - unfold page_frame, phys_base. lia.
  - exact Hb.
  - clear Ht. rewrite Hr, Hp. split; [by apply elem_of_singleton|]. vm_compute. done.
  - exact Hn.
Qed.

Definition hello : list Z := [104; 101; 108; 108; 111].

Lemma write_read_virt_witness :
  exists s', write_virt mapped.2 0x10ffb hello mapped.1 = (Ok tt, s') /\
    read_virt mapped.2 0x10ffb [0; 0; 0; 0; 0] s' = (Ok hello, s').
Proof.
  destruct (write_read_virt {[phys_base]} mapped.1 mapped.2 0x10ffb hello (fun _ => page_frame))
    as (s' & E & Hr & _).
  - apply mapped_facts.
  - repeat constructor; done.
  - intros j Hj. change (length hello) with 5%nat in Hj.
    replace (0x10ffb +w Z.of_nat j) with (0x10000 +w (0xffb + Z.of_nat j)) by (f_equal; lia).
    apply mapped_writable. lia.
  - intros i j Hi Hj. change (length hello) with 5%nat in *.
    do 5 (destruct i as [|i]; [do 5 (destruct j as [|j]; [vm_compute; done|]); lia|]). lia.
  - exists s'. split; [exact E|]. apply Hr. reflexivity.
Defined.

Lemma read_virt_witness :
  read_virt mapped.2 0x10fff [0; 0] mapped.1 = (Throw unmapped_va, mapped.1).
Proof.
  assert (forall j, (j < 1)%nat ->
    exists f, readable translate_virt mapped.2 (phys mapped.1) (0x10fff +w Z.of_nat j) f) as Hrd.
  { intros j Hj. exists page_frame.
    replace (0x10fff +w Z.of_nat j) with (0x10000 +w 0xfff) by (f_equal; lia).
    by apply (mapped_writable 0xfff). }
  apply (proj2 (read_virt_correct {[phys_base]} mapped.1 mapped.2 0x10fff [0; 0] 1
    (proj1 mapped_facts) (le_S _ _ (le_n 1)) Hrd)); [exact (le_n 2)|].
  vm_compute. reflexivity.
Defined.

(** The entry that maps 0x10000 is the sixteenth of the last table, three
    frames above the page. *)
Lemma self_map_witness :
  exists s1, install_self_map mapped.2 mapped.1 = (Ok tt, s1) /\
    virt_to_phys (phys s1) mapped.2 (pte_at_level 0x10000 0) = Some (phys_base + 0x4000 + 16 * 8).
Proof.
  destruct mapped_facts as (Hw & Hr & _).
  assert (root_pa mapped.2 ∈ ({[phys_base]} : gset Z)) as Hin by (rewrite Hr; by apply elem_of_singleton).
  destruct (self_map_correct {[phys_base]} mapped.1 mapped.2 Hw Hin) as (s1 & E & _ & _ & H).
  - rewrite Hr. reflexivity.
  - exists s1. split; [exact E|]. rewrite (H 0x10000 0%nat (phys_base + 0x4000)).
    + reflexivity.
    + rewrite Hr. split; [by apply elem_of_singleton|]. vm_compute. done.
    + lia.
    + vm_compute. reflexivity.
Defined.

(** ** AArch64 *)

Module ArmEx.
Import Arm64.

Definition arm_space : addr_space := new_space phys_base.
Definition arm_mmu : mmu Unicorn.mem := snd (create_addr_space boot).

Lemma arm_space_ok : create_addr_space boot = (Ok arm_space, arm_mmu).
Proof. vm_compute. reflexivity. Qed.

Lemma arm_mmu_wf : mmu_wf arm_mmu {[phys_base]}.
Proof.
  pose proof (create_addr_space_spec ∅ boot boot_wf) as H.
  pose proof (cr_wf _ _ _ _ (wp_ok _ _ _ _ _ _ H arm_space_ok)) as Hw.
  by rewrite union_empty_r_L in Hw.
Qed.

Lemma arm_mmu_next : phys_next_ arm_mmu = phys_base + 0x1000.
Proof. vm_compute. reflexivity. Qed.

(** A kernel range, two pages. *)
Lemma arm_range :
  range_ok {[phys_base]} (root_pa arm_space) (page_align 0xFFFFF80000000000) (pages 0x2000).
Proof.
  change (page_align 0xFFFFF80000000000) with 0xFFFFF80000000000. change (pages 0x2000) with 2.
  split; [done|lia|]. intros i Hi. split; [by apply elem_of_singleton|].
  pose proof (ix_range 0 (0xFFFFF80000000000 +w page_size * i)). cbn [hole arm64_fmt]. lia.
Qed.

#[local] Opaque arm_mmu.

Lemma arm64_map_virt_witness :
  wp (map_virt 0xFFFFF80000000000 0x2000 (Z.lor prot_rx prot_supervisor)) (arm_mmu, arm_space)
    (fun _ x => translate_virt (phys x.1) x.2 0xFFFFF80000001000 = Some (phys_base + 0x2000))
    (fun _ _ => False).
Proof.
  eapply wp_mono; [apply (arm64_map_virt_correct _ _ _ 0xFFFFF80000000000 0x2000
    (Z.lor prot_rx prot_supervisor) arm_mmu_wf arm_range)|..].
  - intros _ x [_ H]. destruct (H 1) as [E _]; [done|]. rewrite arm_mmu_next in E. exact E.
  - intros e x (_ & _ & H). rewrite arm_mmu_next in H. vm_compute in H. done.
Defined.

Lemma arm64_unmap_virt_witness :
  wp (unmap_virt 0xFFFFF80000000000 0x2000) (arm_mmu, arm_space)
    (fun _ x => virt_to_phys (phys x.1) x.2 0xFFFFF80000001000 = None) (fun _ _ => False).
Proof.
  eapply wp_mono; [apply (arm64_unmap_virt_correct _ _ _ 0xFFFFF80000000000 0x2000 arm_mmu_wf arm_range)| |done].
  intros _ x (_ & _ & H). by apply (H 1).
Defined.

Lemma arm64_prot_virt_witness :
  wp (prot_virt 0xFFFFF80000000000 0x2000 prot_read) (arm_mmu, arm_space)
    (fun _ x => x.2 = arm_space) (fun _ _ => False).
Proof.
  eapply wp_mono; [apply (arm64_prot_virt_correct _ _ _ 0xFFFFF80000000000 0x2000 prot_read arm_mmu_wf arm_range)| |done].
  intros _ x (_ & H & _). exact H.
Defined.

End ArmEx.
