(* ===== verification/OrdMap.v ===== *)
(** * Ordered maps and the intervals in them

    [std::map<addr_t, V>] as the list of its entries in key order, with the
    operations the program uses: [find], [operator[]], [erase], [lower_bound]
    and [upper_bound].  Three components keep ranges of addresses in such a map,
    start to length; the second half is what they share. *)

From S2P Require Import Prelude.
From stdpp Require Import options.

Open Scope Z_scope.
Open Scope kern_scope.

Section OrdMap.
Context {V : Type}.
Implicit Types (m : list (Z * V)) (k a : Z) (v : V).

Fixpoint find m k : option V :=
  match m with
  | [] => None
  | (k', v) :: t => if k =? k' then Some v else find t k
  end.

(** [m[k] = v]. *)
Fixpoint insert k v m : list (Z * V) :=
  match m with
  | [] => [(k, v)]
  | (k', v') :: t =>
      if k <? k' then (k, v) :: m
      else if k =? k' then (k, v) :: t
      else (k', v') :: insert k v t
  end.

Fixpoint erase k m : list (Z * V) :=
  match m with
  | [] => []
  | (k', v) :: t => if k =? k' then t else (k', v) :: erase k t
  end.

(** The entries from the first whose key is not below [a]; not at or below. *)
Fixpoint lower_bound m a : list (Z * V) :=
  match m with
  | [] => []
  | (k, v) :: t => if k <? a then lower_bound t a else m
  end.
Fixpoint upper_bound m a : list (Z * V) :=
  match m with
  | [] => []
  | (k, v) :: t => if k <=? a then upper_bound t a else m
  end.

(** [std::prev(upper_bound(a))], when there is one: the last entry at or below. *)
Fixpoint floor m a : option (Z * V) :=
  match m with
  | [] => None
  | (k, v) :: t =>
      if k <=? a then match floor t a with Some e => Some e | None => Some (k, v) end else None
  end.

(** The entries a loop from [lower_bound(a)] up to [b] visits. *)
Fixpoint while_below m b : list (Z * V) :=
  match m with
  | [] => []
  | (k, v) :: t => if k <? b then (k, v) :: while_below t b else []
  end.
Definition between m a b : list (Z * V) := while_below (lower_bound m a) b.

Lemma find_insert_eq m k v : find (insert k v m) k = Some v.
Proof.
  induction m as [|[k' v'] t IH]; cbn [insert find]; [by rewrite Z.eqb_refl|].
  destruct (Z.ltb_spec k k'); cbn [find]; [by rewrite Z.eqb_refl|].
  destruct (Z.eqb_spec k k') as [->|]; cbn [find]; [by rewrite Z.eqb_refl|].
  by rewrite (proj2 (Z.eqb_neq k k')).
Qed.

Lemma find_insert_ne m k v k' : k' <> k -> find (insert k v m) k' = find m k'.
Proof.
  intros Hne. induction m as [|[k0 v0] t IH]; cbn [insert find]; [by rewrite (proj2 (Z.eqb_neq k' k))|].
  destruct (Z.ltb_spec k k0); cbn [find]; [by rewrite (proj2 (Z.eqb_neq k' k))|].
  destruct (Z.eqb_spec k k0) as [->|]; cbn [find]; [by rewrite (proj2 (Z.eqb_neq k' k0))|].
  by rewrite IH.
Qed.

Lemma find_erase_ne m k k' : k' <> k -> find (erase k m) k' = find m k'.
Proof.
  intros Hne. induction m as [|[k0 v0] t IH]; [done|]. cbn [erase find].
  destruct (Z.eqb_spec k k0) as [->|]; cbn [find]; [by rewrite (proj2 (Z.eqb_neq k' k0))|]. by rewrite IH.
Qed.

Lemma find_elem m k v : find m k = Some v -> (k, v) ∈ m.
Proof.
  induction m as [|[k' v'] t IH]; [done|]. cbn [find].
  destruct (Z.eqb_spec k k') as [->|]; [intros [= ->]; by left|]. right. auto.
Qed.

Lemma insert_insert m k v v' : insert k v (insert k v' m) = insert k v m.
Proof.
  induction m as [|[k0 v0] t IH]; cbn [insert]; [by rewrite Z.ltb_irrefl, Z.eqb_refl|].
  destruct (Z.ltb_spec k k0); cbn [insert]; [by rewrite Z.ltb_irrefl, Z.eqb_refl|].
  destruct (Z.eqb_spec k k0) as [->|]; cbn [insert]; [by rewrite Z.ltb_irrefl, Z.eqb_refl|].
  rewrite (proj2 (Z.ltb_ge k k0)), (proj2 (Z.eqb_neq k k0)) by lia. by rewrite IH.
Qed.

End OrdMap.

(** ** Intervals *)

(** A value that has a length. *)
Class Sized (V : Type) : Type := size_of : V -> Z.

Section Intervals.
Context {V : Type} `{!Sized V}.
Implicit Types (m : list (Z * V)) (k a lo hi : Z) (v : V).

(** The entries are non-empty intervals in order, apart from each other, and
    between [lo] and [hi]. *)
Fixpoint ivs lo hi m : Prop :=
  match m with
  | [] => True
  | (k, v) :: t => lo <= k /\ 0 < size_of v /\ k + size_of v <= hi /\ ivs (k + size_of v) hi t
  end.

(** The interval an address is in. *)
Fixpoint at_addr m a : option (Z * V) :=
  match m with
  | [] => None
  | (k, v) :: t => if (k <=? a) && (a <? k + size_of v) then Some (k, v) else at_addr t a
  end.

Lemma ivs_lo lo lo' hi m : lo' <= lo -> ivs lo hi m -> ivs lo' hi m.
Proof. destruct m as [|[k v] t]; [done|]. cbn. intros ? (? & ? & ? & ?). split_and!; try done. lia. Qed.

Lemma ivs_hi lo hi hi' m : hi <= hi' -> ivs lo hi m -> ivs lo hi' m.
Proof.
  revert lo. induction m as [|[k v] t IH]; intros lo Hh; [done|]. cbn. intros (? & ? & ? & ?).
  split_and!; try done; [lia|]. auto.
Qed.

Lemma at_addr_bounds lo hi m a k v :
  ivs lo hi m -> at_addr m a = Some (k, v) -> lo <= k <= a /\ a < k + size_of v <= hi.
Proof.
  revert lo. induction m as [|[k' v'] t IH]; intros lo; [done|]. cbn. intros (? & ? & ? & Ht).
  destruct (Z.leb_spec k' a), (Z.ltb_spec a (k' + size_of v')); cbn; intros E; simplify_eq; try lia;
    specialize (IH _ Ht E); lia.
Qed.

Lemma at_addr_below lo hi m a : ivs lo hi m -> a < lo -> at_addr m a = None.
Proof.
  intros Hm Ha. destruct (at_addr m a) as [[k v]|] eqn:E; [|done].
  pose proof (at_addr_bounds _ _ _ _ _ _ Hm E). lia.
Qed.

Lemma at_addr_above lo hi m a : ivs lo hi m -> hi <= a -> at_addr m a = None.
Proof.
  intros Hm Ha. destruct (at_addr m a) as [[k v]|] eqn:E; [|done].
  pose proof (at_addr_bounds _ _ _ _ _ _ Hm E). lia.
Qed.

Lemma at_addr_find lo hi m a k v : ivs lo hi m -> at_addr m a = Some (k, v) -> find m k = Some v.
Proof.
  revert lo. induction m as [|[k' v'] t IH]; intros lo; [done|]. cbn. intros (? & ? & ? & Ht).
  destruct (Z.leb_spec k' a), (Z.ltb_spec a (k' + size_of v')); cbn; intros E; simplify_eq.
  1: by rewrite Z.eqb_refl.
  all: pose proof (at_addr_bounds _ _ _ _ _ _ Ht E).
  all: rewrite (proj2 (Z.eqb_neq k k')) by lia; eauto.
Qed.

Lemma find_at_addr lo hi m k v a :
  ivs lo hi m -> find m k = Some v -> k <= a < k + size_of v -> at_addr m a = Some (k, v).
Proof.
  revert lo. induction m as [|[k' v'] t IH]; intros lo; [done|]. cbn. intros (? & ? & ? & Ht).
  destruct (Z.eqb_spec k k') as [->|Hne]; intros E Ha; simplify_eq.
  - by rewrite (proj2 (Z.leb_le _ _)), (proj2 (Z.ltb_lt _ _)) by lia.
  - specialize (IH _ Ht E Ha). pose proof (at_addr_bounds _ _ _ _ _ _ Ht IH).
    rewrite (proj2 (Z.ltb_ge a _)) by lia. by rewrite andb_false_r.
Qed.

Lemma find_bounds lo hi m k v :
  ivs lo hi m -> find m k = Some v -> lo <= k /\ 0 < size_of v /\ k + size_of v <= hi.
Proof.
  revert lo. induction m as [|[k' v'] t IH]; intros lo; [done|]. cbn. intros (? & ? & ? & Ht).
  destruct (Z.eqb_spec k k') as [->|Hne]; [by intros [= ->]|]. intros E.
  specialize (IH _ Ht E). lia.
Qed.

(** Two entries are apart. *)
Lemma ivs_apart lo hi m k v k' v' :
  ivs lo hi m -> find m k = Some v -> find m k' = Some v' -> k <> k' ->
  k + size_of v <= k' \/ k' + size_of v' <= k.
Proof.
  intros Hm Hf Hf' Hne. destruct (decide (k + size_of v <= k')); [by left|right].
  destruct (decide (k' + size_of v' <= k)); [done|]. exfalso.
  pose proof (find_bounds _ _ _ _ _ Hm Hf). pose proof (find_bounds _ _ _ _ _ Hm Hf').
  pose proof (find_at_addr _ _ _ _ _ (Z.max k k') Hm Hf ltac:(lia)).
  pose proof (find_at_addr _ _ _ _ _ (Z.max k k') Hm Hf' ltac:(lia)). congruence.
Qed.

Lemma floor_spec lo hi m a k v :
  ivs lo hi m -> floor m a = Some (k, v) -> lo <= k <= a /\ find m k = Some v.
Proof.
  revert lo. induction m as [|[k1 v1] t IH]; intros lo; [done|]. cbn. intros (? & ? & ? & Ht).
  destruct (Z.leb_spec k1 a); [|done]. destruct (floor t a) as [e|] eqn:E; intros Hs; simplify_eq.
  - destruct (IH _ Ht eq_refl) as [? Hf]. split; [lia|]. by rewrite (proj2 (Z.eqb_neq k k1)) by lia.
  - split; [lia|]. by rewrite Z.eqb_refl.
Qed.

(** [upper_bound], step back, compare with the end: the search the code does. *)
Lemma floor_at_addr lo hi m a :
  ivs lo hi m ->
  match floor m a with
  | Some (k, v) => if a <? k + size_of v then Some (k, v) else None
  | None => None
  end = at_addr m a.
Proof.
  revert lo. induction m as [|[k v] t IH]; intros lo; [done|]. cbn. intros (? & ? & ? & Ht).
  destruct (Z.leb_spec k a).
  - specialize (IH _ Ht). destruct (floor t a) as [[k' v']|] eqn:E.
    + rewrite IH. destruct (Z.ltb_spec a (k + size_of v)); [|done]. cbn.
      rewrite (at_addr_below _ _ _ _ Ht) in IH |- * by lia.
      destruct (Z.ltb_spec a (k' + size_of v')); [done|]. exfalso.
      destruct (floor_spec _ _ _ _ _ _ Ht E). lia.
    + rewrite <- IH. by destruct (Z.ltb_spec a (k + size_of v)).
  - cbn. symmetry. apply (at_addr_below (k + size_of v) hi); [done|lia].
Qed.

(** *** Changing an entry *)

(** An address that was in the entry [k] is in none. *)
Definition not_in k (e : option (Z * V)) : option (Z * V) :=
  match e with Some (k', v) => if k' =? k then None else Some (k', v) | None => None end.

Lemma ivs_erase lo hi m k : ivs lo hi m -> ivs lo hi (erase k m).
Proof.
  revert lo. induction m as [|[k' v'] t IH]; intros lo; [done|]. cbn. intros (? & ? & ? & Ht).
  destruct (Z.eqb_spec k k'); [|cbn; split_and!; auto]. eapply ivs_lo; [|exact Ht]. lia.
Qed.

Lemma not_in_tail lo hi t k a : ivs lo hi t -> k < lo -> not_in k (at_addr t a) = at_addr t a.
Proof.
  intros Ht Hk. destruct (at_addr t a) as [[k' v']|] eqn:E; [|done]. cbn.
  pose proof (at_addr_bounds _ _ _ _ _ _ Ht E). by rewrite (proj2 (Z.eqb_neq k' k)) by lia.
Qed.

Lemma at_addr_erase lo hi m k a : ivs lo hi m -> at_addr (erase k m) a = not_in k (at_addr m a).
Proof.
  revert lo. induction m as [|[k' v'] t IH]; intros lo; [done|]. cbn. intros (? & ? & ? & Ht).
  destruct (Z.eqb_spec k k') as [->|Hne].
  - destruct (Z.leb_spec k' a), (Z.ltb_spec a (k' + size_of v')); cbn; rewrite ?Z.eqb_refl.
    2-4: by rewrite (not_in_tail _ _ _ _ _ Ht) by lia.
    by rewrite (at_addr_below _ _ _ _ Ht) by lia.
  - cbn. destruct (Z.leb_spec k' a), (Z.ltb_spec a (k' + size_of v')); cbn; eauto.
    by rewrite (proj2 (Z.eqb_neq k' k)) by lia.
Qed.

(** [m[k] = v] where the new interval meets no entry but the old one at [k]. *)
Definition room m k v : Prop :=
  forall a, k <= a < k + size_of v -> forall k' v', at_addr m a = Some (k', v') -> k' = k.

Lemma insert_ivs lo hi m k v :
  ivs lo hi m -> lo <= k -> 0 < size_of v -> k + size_of v <= hi -> room m k v ->
  ivs lo hi (insert k v m) /\
  forall a, at_addr (insert k v m) a =
    if (k <=? a) && (a <? k + size_of v) then Some (k, v) else not_in k (at_addr m a).
Proof.
  revert lo. induction m as [|[k' v'] t IH]; intros lo Hm Hlo Hv Hhi Hroom.
  { cbn. split; [done|]. intros a. by case_match. }
  cbn in Hm. destruct Hm as (Hk' & Hv' & Hh' & Ht). cbn [insert].
  destruct (Z.ltb_spec k k') as [Hlt|Hge]; [|destruct (Z.eqb_spec k k') as [<-|Hne]].
  - assert (k + size_of v <= k') as Hle.
    { destruct (decide (k + size_of v <= k')) as [|Hn]; [done|]. exfalso.
      assert (k' = k); [|lia]. apply (Hroom k' ltac:(lia) k' v'). cbn.
      by rewrite (proj2 (Z.leb_le _ _)), (proj2 (Z.ltb_lt _ _)) by lia. }
    split; [cbn; split_and!; done|]. intros a. cbn [at_addr].
    destruct ((k <=? a) && (a <? k + size_of v)) eqn:E; [done|].
    destruct (Z.leb_spec k' a), (Z.ltb_spec a (k' + size_of v')); cbn [andb not_in].
    1: by rewrite (proj2 (Z.eqb_neq k' k)) by lia.
    all: by rewrite (not_in_tail _ _ _ _ _ Ht) by lia.
  - assert (ivs (k + size_of v) hi t) as Ht'.
    { destruct t as [|[k1 v1] t1]; [done|]. cbn in Ht |- *. destruct Ht as (H1 & H2 & H3 & H4).
      split_and!; try done. destruct (decide (k + size_of v <= k1)) as [|Hn]; [done|]. exfalso.
      assert (k1 = k); [|lia]. apply (Hroom k1 ltac:(lia) k1 v1). cbn.
      rewrite (proj2 (Z.ltb_ge k1 (k + size_of v'))) by lia. rewrite andb_false_r.
      by rewrite (proj2 (Z.leb_le k1 k1)), (proj2 (Z.ltb_lt k1 _)) by lia. }
    split; [cbn; split_and!; done|]. intros a. cbn [at_addr].
    destruct ((k <=? a) && (a <? k + size_of v)) eqn:E; [done|].
    destruct (Z.leb_spec k a), (Z.ltb_spec a (k + size_of v')); cbn [andb not_in].
    1: rewrite Z.eqb_refl; apply (at_addr_below _ _ _ _ Ht); lia.
    all: by rewrite (not_in_tail _ _ _ _ _ Ht) by lia.
  - assert (k' + size_of v' <= k) as Hle.
    { destruct (decide (k' + size_of v' <= k)) as [|Hn]; [done|]. exfalso.
      assert (k' = k); [|lia]. apply (Hroom k ltac:(lia) k' v'). cbn.
      by rewrite (proj2 (Z.leb_le _ _)), (proj2 (Z.ltb_lt _ _)) by lia. }
    destruct (IH (k' + size_of v') Ht) as [IH1 IH2]; [lia|done|done| |].
    { intros a Ha k0 v0 E0. apply (Hroom a Ha k0 v0). cbn.
      rewrite (proj2 (Z.ltb_ge a (k' + size_of v'))) by lia. by rewrite andb_false_r. }
    split; [cbn; split_and!; done|]. intros a. cbn [at_addr]. rewrite IH2.
    destruct (Z.leb_spec k' a), (Z.ltb_spec a (k' + size_of v')); cbn [andb not_in]; try done.
    rewrite (proj2 (Z.eqb_neq k' k)) by lia. by rewrite (proj2 (Z.leb_gt k a)) by lia.
Qed.

Lemma insert_id lo hi m k v : ivs lo hi m -> find m k = Some v -> insert k v m = m.
Proof.
  revert lo. induction m as [|[k0 v0] t IH]; intros lo; [done|]. cbn. intros (? & ? & ? & Ht).
  destruct (Z.eqb_spec k k0) as [->|Hne]; [intros [= ->]; by rewrite Z.ltb_irrefl|]. intros Hf.
  pose proof (find_bounds _ _ _ _ _ Ht Hf). rewrite (proj2 (Z.ltb_ge k k0)) by lia. by rewrite (IH _ Ht Hf).
Qed.

(** The two uses of [m[k] = v]: over addresses nothing holds, and over the old
    entry, with its length. *)
Lemma insert_new lo hi m k v :
  ivs lo hi m -> lo <= k -> 0 < size_of v -> k + size_of v <= hi ->
  (forall a, k <= a < k + size_of v -> at_addr m a = None) ->
  ivs lo hi (insert k v m) /\
  forall a, at_addr (insert k v m) a =
    if (k <=? a) && (a <? k + size_of v) then Some (k, v) else at_addr m a.
Proof.
  intros Hm Hlo Hv Hhi Hnone. destruct (insert_ivs lo hi m k v) as [I A]; [done..| |].
  { intros a Ha k' v' E. by rewrite Hnone in E. }
  split; [done|]. intros a. rewrite A. case_match; [done|].
  destruct (at_addr m a) as [[k' v']|] eqn:E; [|done]. cbn.
  destruct (Z.eqb_spec k' k) as [->|]; [|done]. exfalso.
  pose proof (at_addr_find _ _ _ _ _ _ Hm E) as Hf. pose proof (find_bounds _ _ _ _ _ Hm Hf).
  specialize (Hnone k ltac:(lia)). by rewrite (find_at_addr _ _ _ _ _ k Hm Hf) in Hnone by lia.
Qed.

Lemma insert_same lo hi m k v v' :
  ivs lo hi m -> find m k = Some v' -> size_of v = size_of v' ->
  ivs lo hi (insert k v m) /\
  forall a, at_addr (insert k v m) a =
    if (k <=? a) && (a <? k + size_of v) then Some (k, v) else at_addr m a.
Proof.
  intros Hm Hf Hsz. pose proof (find_bounds _ _ _ _ _ Hm Hf).
  destruct (insert_ivs lo hi m k v) as [I A]; [done|lia|lia|lia| |].
  { intros a Ha k0 v0 E. rewrite (find_at_addr _ _ _ _ _ a Hm Hf) in E by lia. congruence. }
  split; [done|]. intros a. rewrite A. destruct ((k <=? a) && _) eqn:Hin; [done|].
  destruct (at_addr m a) as [[k0 v0]|] eqn:E; [|done]. cbn.
  destruct (Z.eqb_spec k0 k) as [->|]; [|done]. exfalso.
  pose proof (at_addr_bounds _ _ _ _ _ _ Hm E). pose proof (at_addr_find _ _ _ _ _ _ Hm E) as Hf'.
  rewrite Hf in Hf'. simplify_eq. rewrite Hsz in Hin.
  by rewrite (proj2 (Z.leb_le k a)), (proj2 (Z.ltb_lt a _)) in Hin by lia.
Qed.

(** *** The entries between two addresses no entry crosses *)

Definition cut m a : Prop := forall k v, at_addr m a = Some (k, v) -> k = a.

Lemma lower_bound_spec lo hi m a :
  ivs lo hi m -> cut m a ->
  ivs a hi (lower_bound m a) /\
  (forall x, a <= x -> at_addr (lower_bound m a) x = at_addr m x) /\
  (forall k v, find (lower_bound m a) k = Some v -> find m k = Some v).
Proof.
  revert lo. induction m as [|[k' v'] t IH]; intros lo Hm Hc; [done|].
  cbn in Hm. destruct Hm as (Hlo & Hv & Hh & Ht). cbn [lower_bound].
  destruct (Z.ltb_spec k' a) as [Hlt|Hge].
  - assert (k' + size_of v' <= a) as Hle.
    { destruct (decide (k' + size_of v' <= a)) as [|Hn]; [done|]. exfalso.
      assert (k' = a); [|lia]. apply (Hc k' v'). cbn.
      by rewrite (proj2 (Z.leb_le _ _)), (proj2 (Z.ltb_lt _ _)) by lia. }
    destruct (IH _ Ht) as (I1 & I2 & I3).
    { intros k v E. apply (Hc k v). cbn. rewrite (proj2 (Z.ltb_ge a _)) by lia. by rewrite andb_false_r. }
    split_and!; [done|..].
    + intros x Hx. rewrite I2 by done. cbn [at_addr]. rewrite (proj2 (Z.ltb_ge x _)) by lia. by rewrite andb_false_r.
    + intros k v E. apply I3 in E. cbn. pose proof (find_bounds _ _ _ _ _ Ht E).
      by rewrite (proj2 (Z.eqb_neq k k')) by lia.
  - split_and!; try done; cbn; auto.
Qed.

Lemma while_below_spec lo hi m b :
  ivs lo hi m -> cut m b ->
  ivs lo b (while_below m b) /\
  (forall x, x < b -> at_addr (while_below m b) x = at_addr m x) /\
  (forall k v, find (while_below m b) k = Some v -> find m k = Some v).
Proof.
  revert lo. induction m as [|[k' v'] t IH]; intros lo Hm Hc; [done|].
  cbn in Hm. destruct Hm as (Hlo & Hv & Hh & Ht). cbn [while_below].
  destruct (Z.ltb_spec k' b) as [Hlt|Hge].
  - assert (k' + size_of v' <= b) as Hle.
    { destruct (decide (k' + size_of v' <= b)) as [|Hn]; [done|]. exfalso.
      assert (k' = b); [|lia]. apply (Hc k' v'). cbn.
      by rewrite (proj2 (Z.leb_le _ _)), (proj2 (Z.ltb_lt _ _)) by lia. }
    destruct (IH _ Ht) as (I1 & I2 & I3).
    { intros k v E. apply (Hc k v). cbn. rewrite (proj2 (Z.ltb_ge b _)) by lia. by rewrite andb_false_r. }
    split_and!.
    + cbn. split_and!; done.
    + intros x Hx. cbn [at_addr]. by rewrite I2.
    + intros k v. cbn [find]. destruct (k =? k'); auto.
  - split_and!; [done| |done]. intros x Hx. cbn [at_addr].
    rewrite (proj2 (Z.leb_gt k' x)) by lia. cbn [andb]. symmetry.
    apply (at_addr_below _ _ _ _ Ht). lia.
Qed.

Lemma between_spec lo hi m a b :
  ivs lo hi m -> cut m a -> cut m b -> a <= b ->
  ivs a b (between m a b) /\
  (forall x, a <= x < b -> at_addr (between m a b) x = at_addr m x) /\
  (forall k v, find (between m a b) k = Some v -> find m k = Some v).
Proof.
  intros Hm Ha Hb Hab. destruct (lower_bound_spec lo hi m a Hm Ha) as (L1 & L2 & L3).
  destruct (while_below_spec a hi (lower_bound m a) b L1) as (W1 & W2 & W3).
  { intros k v E. rewrite L2 in E by done. eauto. }
  split_and!; [done|..].
  - intros x Hx. unfold between. by rewrite W2, L2 by lia.
  - intros k v E. by apply L3, W3.
Qed.

End Intervals.

Section Next.
Context {V : Type} `{!Sized V}.
Implicit Types (m : list (Z * V)) (k a : Z) (v : V).

(** The hole an address is in ends at the next entry. *)
Lemma upper_bound_spec lo hi m a :
  ivs lo hi m -> at_addr m a = None ->
  match upper_bound m a with
  | (k, v) :: _ => a < k /\ find m k = Some v /\ forall x, a <= x < k -> at_addr m x = None
  | [] => forall x, a <= x -> at_addr m x = None
  end.
Proof.
  intros Hm Hn.
  assert (upper_bound m a = lower_bound m a) as ->.
  { revert lo Hm Hn. induction m as [|[k v] t IH]; intros lo Hm Hn; [done|]. cbn in *.
    destruct Hm as (H1 & H2 & H3 & H4).
    destruct (Z.leb_spec k a), (Z.ltb_spec k a), (Z.ltb_spec a (k + size_of v)); cbn in Hn; try done; try lia; eauto. }
  destruct (lower_bound_spec lo hi m a Hm) as (L1 & L2 & L3); [intros k v E; congruence|].
  destruct (lower_bound m a) as [|[k v] t]; [intros x Hx; by rewrite <- L2|].
  destruct L1 as (K1 & K2 & K3 & K4). 
  assert (find m k = Some v) as Hf by (apply L3; cbn; by rewrite Z.eqb_refl).
  assert (a <> k) as Hne.
  { intros ->. rewrite (find_at_addr _ _ _ _ _ k Hm Hf) in Hn by lia. done. }
  split_and!; [lia|done|]. intros x Hx. rewrite <- L2 by lia. cbn.
  rewrite (proj2 (Z.leb_gt k x)) by lia. apply (at_addr_below _ _ _ _ K4). lia.
Qed.

End Next.

(** *** Entries cut in two and joined *)

Section Resize.
Context {V : Type} `{!Sized V}.
Implicit Types (m : list (Z * V)) (k a : Z) (v : V).

(** [emplace]: an entry that is there stays. *)
Definition emplace k v m : list (Z * V) :=
  match find m k with Some _ => m | None => insert k v m end.

Lemma shrink_spec lo hi m k v v' :
  ivs lo hi m -> find m k = Some v -> 0 < size_of v' <= size_of v ->
  ivs lo hi (insert k v' m) /\
  forall x, at_addr (insert k v' m) x =
    if (k <=? x) && (x <? k + size_of v') then Some (k, v') else not_in k (at_addr m x).
Proof.
  intros Hm Hf Hv. pose proof (find_bounds _ _ _ _ _ Hm Hf).
  apply insert_ivs; [done|lia|lia|lia|]. intros a Ha k0 v0 E.
  rewrite (find_at_addr _ _ _ _ _ a Hm Hf) in E by lia. congruence.
Qed.

(** The entry at [k] becomes [v1] and, after it, [v2]. *)
Lemma cut_two lo hi m k v v1 v2 :
  ivs lo hi m -> find m k = Some v -> 0 < size_of v1 -> 0 < size_of v2 -> size_of v1 + size_of v2 = size_of v ->
  let m' := emplace (k + size_of v1) v2 (insert k v1 m) in
  ivs lo hi m' /\ find m' (k + size_of v1) = Some v2 /\ find m' k = Some v1 /\
  (forall k', k' <> k -> k' <> k + size_of v1 -> find m' k' = find m k') /\
  forall x, at_addr m' x =
    if (k <=? x) && (x <? k + size_of v1) then Some (k, v1)
    else if (k + size_of v1 <=? x) && (x <? k + size_of v) then Some (k + size_of v1, v2) else at_addr m x.
Proof.
  intros Hm Hf H1 H2 Hs m'. pose proof (find_bounds _ _ _ _ _ Hm Hf) as Hb.
  destruct (shrink_spec lo hi m k v v1) as [I1 A1]; [done|done|lia|].
  assert (forall x, k + size_of v1 <= x < k + size_of v -> at_addr (insert k v1 m) x = None) as Hn.
  { intros x Hx. rewrite A1, (find_at_addr _ _ _ _ _ x Hm Hf) by lia.
    rewrite (proj2 (Z.ltb_ge x _)) by lia. rewrite andb_false_r. cbn. by rewrite Z.eqb_refl. }
  assert (find (insert k v1 m) (k + size_of v1) = None) as Hnf.
  { destruct (find (insert k v1 m) (k + size_of v1)) as [w|] eqn:E; [|done]. exfalso.
    pose proof (find_bounds _ _ _ _ _ I1 E).
    assert (at_addr (insert k v1 m) (k + size_of v1) = None) as Hn' by (apply Hn; lia).
    by rewrite (find_at_addr _ _ _ _ _ (k + size_of v1) I1 E) in Hn' by lia. }
  subst m'. unfold emplace. rewrite Hnf.
  destruct (insert_new lo hi (insert k v1 m) (k + size_of v1) v2) as [I2 A2]; [done|lia|lia|lia| |].
  { intros a Ha. apply Hn. lia. }
  split_and!; [done|apply find_insert_eq|..].
  - rewrite find_insert_ne by lia. apply find_insert_eq.
  - intros k' N1 N2. by rewrite !find_insert_ne by done.
  - intros x. rewrite A2, A1. replace (k + size_of v1 + size_of v2) with (k + size_of v) by lia.
    destruct (Z.leb_spec (k + size_of v1) x), (Z.ltb_spec x (k + size_of v)), (Z.leb_spec k x), (Z.ltb_spec x (k + size_of v1));
      cbn; try lia; try done;
      (destruct (at_addr m x) as [[k0 v0]|] eqn:E; [|done]); cbn; (destruct (Z.eqb_spec k0 k) as [->|]; [|done]); exfalso;
      pose proof (at_addr_find _ _ _ _ _ _ Hm E) as Hf'; pose proof (at_addr_bounds _ _ _ _ _ _ Hm E);
      rewrite Hf in Hf'; simplify_eq; lia.
Qed.

(** Two entries that touch become one. *)
Lemma join_two lo hi m k v n w v' :
  ivs lo hi m -> find m k = Some v -> find m n = Some w -> k + size_of v = n -> size_of v' = size_of v + size_of w ->
  let m' := insert k v' (erase n m) in
  ivs lo hi m' /\ find m' k = Some v' /\ find m' n = None /\
  (forall k', k' <> k -> k' <> n -> find m' k' = find m k') /\
  forall x, at_addr m' x = if (k <=? x) && (x <? k + size_of v') then Some (k, v') else at_addr m x.
Proof.
  intros Hm Hf Hg Hkn Hs m'. pose proof (find_bounds _ _ _ _ _ Hm Hf) as Hb. pose proof (find_bounds _ _ _ _ _ Hm Hg) as Hc.
  pose proof (ivs_erase lo hi m n Hm) as Ie.
  assert (forall x, k <= x < k + size_of v' -> exists k0 v0, at_addr m x = Some (k0, v0) /\ (k0 = k \/ k0 = n)) as Hin.
  { intros x Hx. destruct (Z.lt_ge_cases x n).
    - exists k, v. split; [apply (find_at_addr lo hi); [done|done|lia]|by left].
    - exists n, w. split; [apply (find_at_addr lo hi); [done|done|lia]|by right]. }
  destruct (insert_ivs lo hi (erase n m) k v') as [I A]; [done|lia|lia|lia| |].
  { intros a Ha k0 v0 E. rewrite (at_addr_erase lo hi) in E by done.
    destruct (Hin a Ha) as (k1 & v1 & E1 & H1). rewrite E1 in E. cbn in E.
    destruct (Z.eqb_spec k1 n); [done|]. destruct H1; simplify_eq. done. }
  subst m'. split_and!; [done|apply find_insert_eq|..].
  - destruct (find (insert k v' (erase n m)) n) as [u|] eqn:E; [|done]. exfalso.
    pose proof (find_bounds _ _ _ _ _ I E).
    pose proof (find_at_addr _ _ _ _ _ n I E ltac:(lia)) as Hat. rewrite A in Hat.
    rewrite (proj2 (Z.leb_le k n)), (proj2 (Z.ltb_lt n (k + size_of v'))) in Hat by lia. injection Hat as Ek Ev. lia.
  - intros k' N1 N2. by rewrite find_insert_ne, find_erase_ne.
  - intros x. rewrite A. destruct ((k <=? x) && (x <? k + size_of v')) eqn:Hx; [done|].
    rewrite (at_addr_erase lo hi) by done. destruct (at_addr m x) as [[k0 v0]|] eqn:E; [|done]. cbn.
    pose proof (at_addr_find _ _ _ _ _ _ Hm E) as Hf'. pose proof (at_addr_bounds _ _ _ _ _ _ Hm E).
    apply andb_false_iff in Hx as [Hx%Z.leb_gt|Hx%Z.ltb_ge].
    all: destruct (Z.eqb_spec k0 n) as [->|]; [rewrite Hg in Hf'; simplify_eq; lia|]; cbn;
      destruct (Z.eqb_spec k0 k) as [->|]; [rewrite Hf in Hf'; simplify_eq; lia|]; done.
Qed.

(** The entry before one, and the one after. *)
Lemma next_find lo hi m k v n w t :
  ivs lo hi m -> find m k = Some v -> upper_bound m k = (n, w) :: t -> find m n = Some w /\ k < n.
Proof.
  revert lo. induction m as [|[k0 v0] u IH]; intros lo Hm Hf; [done|]. cbn in Hm |- *.
  destruct Hm as (H1 & H2 & H3 & H4). cbn in Hf. destruct (Z.eqb_spec k k0) as [->|Hne].
  - simplify_eq. rewrite (proj2 (Z.leb_le k0 k0)) by lia. destruct u as [|[k1 v1] u]; [done|]. cbn in H4 |- *.
    destruct (Z.leb_spec k1 k0); [lia|]. intros [= -> -> ->]. rewrite Z.eqb_refl.
    rewrite (proj2 (Z.eqb_neq n k0)) by lia. split; [done|lia].
  - pose proof (find_bounds _ _ _ _ _ H4 Hf). rewrite (proj2 (Z.leb_le k0 k)) by lia. intros E.
    destruct (IH _ H4 Hf E) as [F L]. rewrite (proj2 (Z.eqb_neq n k0)) by lia. done.
Qed.

End Resize.
