(* ===== verification/UserMem.v ===== *)
(** * User memory of a process

    kernel/win/win_user_mem.cpp: what NtAllocateVirtualMemory and its relatives
    keep of a process's address space.  Reservations are ranges apart from each
    other; inside each, the committed regions are ranges apart from each other,
    with a protection.  A region that must fault on access is kept out of the
    page tables; the frames of its pages wait in [backing_].

    The MMU is reached through [class mmu] alone, so it is a class here; the
    operations never look at its state except through [virt_to_phys]. *)

From S2P Require Import Prelude Mmu OrdMap.
From stdpp Require Import options.

Open Scope Z_scope.
Open Scope kern_scope.

(** ** Constants of [namespace win] *)

Definition mem_commit : Z := 0x00001000.
Definition mem_reserve : Z := 0x00002000.
Definition mem_decommit : Z := 0x00004000.
Definition mem_release : Z := 0x00008000.
Definition mem_free : Z := 0x00010000.
Definition mem_private : Z := 0x00020000.
Definition mem_mapped : Z := 0x00040000.
Definition mem_image : Z := 0x01000000.

Definition page_noaccess : Z := 0x001.
Definition page_readonly : Z := 0x002.
Definition page_readwrite : Z := 0x004.
Definition page_writecopy : Z := 0x008.
Definition page_execute : Z := 0x010.
Definition page_execute_read : Z := 0x020.
Definition page_execute_readwrite : Z := 0x040.
Definition page_execute_writecopy : Z := 0x080.
Definition page_guard : Z := 0x100.
Definition page_prot_mask : Z := 0xFF.

Definition user_alloc_base : Z := 0x0000000100000000.
Definition user_addr_limit : Z := 0x00007FFFFFFEFFFF.
Definition alloc_granularity : Z := 0x10000.

Inductive ntstatus : Type :=
  | STATUS_SUCCESS | STATUS_INVALID_PARAMETER | STATUS_NO_MEMORY
  | STATUS_CONFLICTING_ADDRESSES | STATUS_UNABLE_TO_FREE_VM | STATUS_MEMORY_NOT_ALLOCATED.

(** ** Protections *)

Definition is_resident (prot : Z) : bool :=
  negb (has prot page_guard) && negb (Z.land prot page_prot_mask =? page_noaccess).

Definition to_mem_prot (prot : Z) : Z :=
  let p := Z.land prot page_prot_mask in
  if p =? page_noaccess then prot_none
  else if p =? page_readonly then prot_read
  else if p =? page_execute then prot_exec
  else if p =? page_execute_read then prot_rx
  else if (p =? page_execute_readwrite) || (p =? page_execute_writecopy) then prot_rwx
  else prot_rw.

Definition to_win_prot (prot : Z) : Z :=
  if has prot prot_exec then
    if has prot prot_write then page_execute_readwrite
    else if has prot prot_read then page_execute_read else page_execute
  else if has prot prot_write then page_readwrite
  else if has prot prot_read then page_readonly else page_noaccess.

(** ** State *)

Record committed_region : Type := Committed { c_size : Z; c_prot : Z }.
#[export] Instance committed_sized : Sized committed_region := c_size.
Abbreviation committed_map := (list (Z * committed_region)).

Record reservation : Type := Reservation {
  r_size : Z; initial_prot : Z; r_type : Z; committed : committed_map
}.
#[export] Instance reservation_sized : Sized reservation := r_size.
Abbreviation reservation_map := (list (Z * reservation)).

Definition set_committed (c : committed_map) (r : reservation) : reservation :=
  Reservation (r_size r) (initial_prot r) (r_type r) c.

(** The MMU operations the class calls, on its one space. *)
Class UserMmu (X : Type) : Type := {
  um_map_virt : Z -> Z -> Z -> st X unit;
  um_map_virt_phys : Z -> Z -> Z -> Z -> st X unit;
  um_unmap_virt : Z -> Z -> st X unit;
  um_prot_virt : Z -> Z -> Z -> st X unit;
  um_virt_to_phys : X -> Z -> option Z
}.

Record win_user_mem (X : Type) : Type := UserMem {
  mm : X;
  next_free_ : Z;
  reservations_ : reservation_map;
  backing_ : list (Z * Z)
}.
Arguments UserMem {X} _ _ _ _.
Arguments mm {X} _.
Arguments next_free_ {X} _.
Arguments reservations_ {X} _.
Arguments backing_ {X} _.

(** ** The committed regions of a reservation *)

(** [upper_bound], [prev], and the comparison with the end. *)
Definition find_in {V} `{!Sized V} (m : list (Z * V)) (addr : Z) : option (Z * V) :=
  match floor m addr with
  | Some (k, v) => if addr <? k +w size_of v then Some (k, v) else None
  | None => None
  end.
Definition find_committed (m : committed_map) (addr : Z) : option (Z * committed_region) := find_in m addr.

Definition split_at (m : committed_map) (addr : Z) : committed_map :=
  match find_committed m addr with
  | None => m
  | Some (k, r) =>
      if k =? addr then m else
      let tail := u64 (k + c_size r - addr) in
      insert addr (Committed tail (c_prot r)) (insert k (Committed (c_size r -w tail) (c_prot r)) m)
  end.

(** The loop of [merge_adjacent] standing at the entry [(k, r)]. *)
Fixpoint merge_from (k : Z) (r : committed_region) (t : committed_map) : committed_map :=
  match t with
  | [] => [(k, r)]
  | (k', r') :: t' =>
      if (k +w c_size r =? k') && (c_prot r =? c_prot r')
      then merge_from k (Committed (c_size r +w c_size r') (c_prot r)) t'
      else (k, r) :: merge_from k' r' t'
  end.
Definition merge_adjacent (m : committed_map) : committed_map :=
  match m with [] => [] | (k, r) :: t => merge_from k r t end.

Section UserMem.
Context {X : Type} `{!UserMmu X}.

#[local] Abbreviation ust := (st (win_user_mem X)).

Definition on_mm (f : st X unit) : ust unit := fun s =>
  let '(r, x) := f (mm s) in (r, UserMem x (next_free_ s) (reservations_ s) (backing_ s)).
Definition set_backing (f : list (Z * Z) -> list (Z * Z)) : ust unit :=
  modify (fun s => UserMem (mm s) (next_free_ s) (reservations_ s) (f (backing_ s))).
Definition set_reservations (f : reservation_map -> reservation_map) : ust unit :=
  modify (fun s => UserMem (mm s) (next_free_ s) (f (reservations_ s)) (backing_ s)).
Definition set_next_free (a : Z) : ust unit :=
  modify (fun s => UserMem (mm s) a (reservations_ s) (backing_ s)).

(** [res->second.committed] of the reservation at [k], read and changed. *)
Definition committed_of (k : Z) (s : win_user_mem X) : committed_map :=
  match find (reservations_ s) k with Some r => committed r | None => [] end.
Definition get_committed (k : Z) : ust committed_map := fun s => (Ok (committed_of k s), s).
Definition on_committed (k : Z) (f : committed_map -> committed_map) : ust unit :=
  set_reservations (fun m => match find m k with
    | Some r => insert k (set_committed (f (committed r)) r) m | None => m end).

Definition find_reservation (m : reservation_map) (addr : Z) : option (Z * reservation) := find_in m addr.

(** [for (off = 0; off < size; off += page_size())] over the pages of a range. *)
Fixpoint each_page (n : nat) (page : Z) (body : Z -> ust unit) : ust unit :=
  match n with
  | O => ret tt
  | S n => body page ;; each_page n (page +w page_size) body
  end.
Definition page_count (size : Z) : nat := Z.to_nat ((size + page_size - 1) / page_size).

(** *** Pages *)

Definition map_pages (base size prot : Z) : ust unit :=
  let emu_prot := to_mem_prot prot in
  let! s := get in
  match lower_bound (backing_ s) base with
  | (first, _) :: _ =>
      if base +w size <=? first then on_mm (um_map_virt base size emu_prot)
      else each_page (page_count size) base (fun page =>
        let! s := get in
        match find (backing_ s) page with
        | None => on_mm (um_map_virt page page_size emu_prot)
        | Some pa => on_mm (um_map_virt_phys page pa page_size emu_prot) ;; set_backing (erase page)
        end)
  | [] => on_mm (um_map_virt base size emu_prot)
  end.

Definition evict_pages (base size : Z) : ust unit :=
  each_page (page_count size) base (fun page =>
    let! s := get in
    match um_virt_to_phys (mm s) page with
    | Some pa => set_backing (insert page pa)
    | None => ret tt
    end) ;;
  on_mm (um_unmap_virt base size).

Definition release_pages (base size : Z) : ust unit :=
  each_page (page_count size) base (fun page => set_backing (erase page)) ;;
  on_mm (um_unmap_virt base size).

Definition commit_pages (base size prot : Z) : ust unit :=
  if is_resident prot then map_pages base size prot else ret tt.

Definition apply_prot (base size old_prot new_prot : Z) : ust unit :=
  let was_resident := is_resident old_prot in
  let now_resident := is_resident new_prot in
  if was_resident && negb now_resident then evict_pages base size
  else if negb was_resident && now_resident then map_pages base size new_prot
  else if now_resident then on_mm (um_prot_virt base size (to_mem_prot new_prot))
  else ret tt.

(** *** Reservations *)

Definition overlapping (m : reservation_map) (base size : Z) : option (Z * reservation) :=
  match find_reservation m base with
  | Some it => Some it
  | None =>
      match lower_bound m base with
      | (k, r) :: _ => if k <? base +w size then Some (k, r) else None
      | [] => None
      end
  end.

Definition round_up_mask (x mask : Z) : Z := Z.land (x +w mask) (Z.lnot mask).

(** A round either finds room or moves past one reservation. *)
Fixpoint pick_loop (fuel : nat) (size mask candidate : Z) : ust Z :=
  if candidate +w size <=? user_addr_limit then
    match fuel with
    | O => throw out_of_fuel
    | S fuel =>
      let! s := get in
      match overlapping (reservations_ s) candidate size with
      | None => set_next_free (candidate +w size) ;; ret candidate
      | Some (k, r) => pick_loop fuel size mask (round_up_mask (k +w r_size r) mask)
      end
    end
  else ret 0.

Definition pick_base (size alignment : Z) : ust Z :=
  let mask := Z.max alignment alloc_granularity - 1 in
  let! s := get in
  pick_loop (S (length (reservations_ s))) size mask (round_up_mask (next_free_ s) mask).

(** The loop of [commit_into] over the entries it visits.  What it inserts goes
    before the entry it stands at, so the entries to come are the ones there
    were when it began. *)
Fixpoint commit_loop (res base prot : Z) (es : committed_map) (cursor : Z) : ust Z :=
  match es with
  | [] => ret cursor
  | (k, r) :: es =>
      (if cursor <? k then
         let gap := k -w cursor in
         commit_pages cursor gap prot ;;
         on_committed res (insert cursor (Committed gap prot))
       else ret tt) ;;
      apply_prot k (c_size r) (c_prot r) prot ;;
      on_committed res (insert k (Committed (c_size r) prot)) ;;
      commit_loop res base prot es (k +w c_size r)
  end.

Definition commit_into (res base size prot : Z) (res_size : Z) : ust ntstatus :=
  let last := base +w size in
  if res +w res_size <? last then ret STATUS_CONFLICTING_ADDRESSES else
  on_committed res (fun m => split_at m base) ;;
  on_committed res (fun m => split_at m last) ;;
  let! m := get_committed res in
  let! cursor := commit_loop res base prot (between m base last) base in
  (if cursor <? last then
     let gap := last -w cursor in
     commit_pages cursor gap prot ;;
     on_committed res (insert cursor (Committed gap prot))
   else ret tt) ;;
  on_committed res merge_adjacent ;;
  ret STATUS_SUCCESS.

(** [base] and [size] are in and out: the result carries what they end as. *)
Definition allocate (base size alloc_type prot alignment : Z) : ust (ntstatus * Z * Z) :=
  let start := page_align base in
  let region := size_align (size +w (base - start)) in
  if region =? 0 then ret (STATUS_INVALID_PARAMETER, base, size) else
  let do_reserve := has alloc_type mem_reserve in
  let do_commit := has alloc_type mem_commit in
  if negb do_reserve && negb do_commit then ret (STATUS_INVALID_PARAMETER, base, size) else
  let! s := get in
  match (if do_commit && negb do_reserve && negb (base =? 0)
         then find_reservation (reservations_ s) start else None) with
  | Some (k, r) =>
      let! status := commit_into k start region prot (r_size r) in
      match status with
      | STATUS_SUCCESS => ret (status, start, region)
      | _ => ret (status, base, size)
      end
  | None =>
      let! target :=
        if negb (base =? 0)
        then ret (if do_reserve then align_down base alloc_granularity else start)
        else pick_base region alignment in
      if (target =? 0) || (user_addr_limit <? target +w region)
      then ret (STATUS_NO_MEMORY, base, size) else
      let! s := get in
      match overlapping (reservations_ s) target region with
      | Some _ => ret (STATUS_CONFLICTING_ADDRESSES, base, size)
      | None =>
          set_reservations (insert target (Reservation region prot mem_private [])) ;;
          (if do_commit then
             commit_pages target region prot ;;
             on_committed target (insert target (Committed region prot))
           else ret tt) ;;
          ret (STATUS_SUCCESS, target, region)
      end
  end.

Fixpoint release_loop (es : committed_map) : ust unit :=
  match es with
  | [] => ret tt
  | (k, r) :: es => release_pages k (c_size r) ;; release_loop es
  end.

(** [release_pages] and [erase] for each entry visited. *)
Fixpoint decommit_loop (res : Z) (es : committed_map) : ust unit :=
  match es with
  | [] => ret tt
  | (k, r) :: es =>
      release_pages k (c_size r) ;; on_committed res (erase k) ;; decommit_loop res es
  end.

Definition free (base size free_type : Z) : ust (ntstatus * Z * Z) :=
  let start := page_align base in
  let! s := get in
  let res := find_reservation (reservations_ s) start in
  if has free_type mem_release then
    if negb (size =? 0) then ret (STATUS_INVALID_PARAMETER, base, size) else
    match res with
    | None => ret (STATUS_UNABLE_TO_FREE_VM, base, size)
    | Some (k, r) =>
        if negb (k =? start) then ret (STATUS_UNABLE_TO_FREE_VM, base, size) else
        if negb (r_type r =? mem_private) then ret (STATUS_UNABLE_TO_FREE_VM, base, size) else
        release_loop (committed r) ;;
        set_reservations (erase k) ;;
        ret (STATUS_SUCCESS, k, r_size r)
    end
  else if negb (has free_type mem_decommit) then ret (STATUS_INVALID_PARAMETER, base, size) else
  match res with
  | None => ret (STATUS_MEMORY_NOT_ALLOCATED, base, size)
  | Some (k, r) =>
      let region := size_align (size +w (base - start)) in
      if (region =? 0) && negb (k =? start) then ret (STATUS_UNABLE_TO_FREE_VM, base, size) else
      let region := if region =? 0 then r_size r else region in
      let last := start +w region in
      on_committed k (fun m => split_at m start) ;;
      on_committed k (fun m => split_at m last) ;;
      let! m := get_committed k in
      decommit_loop k (between m start last) ;;
      ret (STATUS_SUCCESS, start, region)
  end.

Fixpoint protect_loop (res new_prot : Z) (es : committed_map) : ust unit :=
  match es with
  | [] => ret tt
  | (k, r) :: es =>
      apply_prot k (c_size r) (c_prot r) new_prot ;;
      on_committed res (insert k (Committed (c_size r) new_prot)) ;;
      protect_loop res new_prot es
  end.

(** The result carries [base], [size] and [old_prot] as they end. *)
Definition protect (base size new_prot : Z) : ust (ntstatus * Z * Z * Z) :=
  let start := page_align base in
  let region := size_align (size +w (base - start)) in
  let last := start +w region in
  let! s := get in
  match find_reservation (reservations_ s) start with
  | None =>
      on_mm (um_prot_virt start region (to_mem_prot new_prot)) ;;
      ret (STATUS_SUCCESS, start, region, page_readwrite)
  | Some (k, r) =>
      match find_committed (committed r) start with
      | None => ret (STATUS_SUCCESS, start, region, initial_prot r)
      | Some (_, first) =>
          on_committed k (fun m => split_at m start) ;;
          on_committed k (fun m => split_at m last) ;;
          let! m := get_committed k in
          protect_loop k new_prot (between m start last) ;;
          on_committed k merge_adjacent ;;
          ret (STATUS_SUCCESS, start, region, c_prot first)
      end
  end.

(** [struct memory_basic_info], the fields [query] fills. *)
Record memory_basic_info : Type := Info {
  base_address : Z; allocation_base : Z; allocation_protect : Z;
  region_size : Z; i_state : Z; i_protect : Z; i_type : Z
}.

Definition query (m : reservation_map) (addr : Z) : ntstatus * memory_basic_info :=
  let base := page_align addr in
  match find_reservation m addr with
  | None =>
      let next := match upper_bound m addr with (k, _) :: _ => k | [] => user_addr_limit + 1 end in
      (STATUS_SUCCESS, Info base 0 0 (next -w base) mem_free page_noaccess 0)
  | Some (k, r) =>
      match find_committed (committed r) addr with
      | Some (c, sub) =>
          (STATUS_SUCCESS, Info base k (initial_prot r) (u64 (c + c_size sub - base))
             mem_commit (c_prot sub) (r_type r))
      | None =>
          let next := match upper_bound (committed r) base with
            | (c, _) :: _ => c | [] => k +w r_size r end in
          (STATUS_SUCCESS, Info base k (initial_prot r) (next -w base)
             mem_reserve page_noaccess (r_type r))
      end
  end.

Definition alloc_pages (size prot : Z) : ust Z :=
  let! r := allocate 0 size (Z.lor mem_commit mem_reserve) prot 0 in
  let '(status, base, _) := r in
  match status with STATUS_SUCCESS => ret base | _ => ret 0 end.

Definition alloc (size prot : Z) : ust Z := alloc_pages size (to_win_prot prot).

Definition register_as (type base size prot : Z) : ust unit :=
  let region := size_align size in
  set_reservations (insert base (Reservation region prot type [(base, Committed region prot)])).
Definition register_image (base size : Z) : ust unit :=
  register_as mem_image base size page_execute_readwrite.
Definition register_mapped (base size prot : Z) : ust unit := register_as mem_mapped base size prot.

Definition handle_fault (fault_addr : Z) : ust bool :=
  let page := page_align fault_addr in
  let! s := get in
  match find_reservation (reservations_ s) page with
  | None => ret false
  | Some (k, r) =>
      match find_committed (committed r) page with
      | None =>
          let prot := initial_prot r in
          if negb (is_resident prot) then ret false else
          map_pages page page_size prot ;;
          on_committed k (insert page (Committed page_size prot)) ;;
          on_committed k merge_adjacent ;;
          ret true
      | Some (_, sub) =>
          if negb (has (c_prot sub) page_guard) then ret false else
          on_committed k (fun m => split_at m page) ;;
          on_committed k (fun m => split_at m (page +w page_size)) ;;
          let! m := get_committed k in
          match find m page with
          | Some hit =>
              let prot := Z.land (c_prot hit) (Z.lnot page_guard) in
              on_committed k (insert page (Committed (c_size hit) prot)) ;;
              map_pages page page_size prot ;;
              on_committed k merge_adjacent ;;
              ret true
          | None => ret true
          end
      end
  end.

End UserMem.
