(* ===== verification/UserMemMaps.v ===== *)
(** * Committed regions

    What [split_at] and [merge_adjacent] of kernel/win/win_user_mem.cpp keep: the
    protection of every address, and the shape of the map. *)

From S2P Require Import Prelude Mmu OrdMap UserMem.
From stdpp Require Import options.

Open Scope Z_scope.
Open Scope kern_scope.

(** Starts and lengths are whole pages. *)
Definition paged {V} `{!Sized V} (m : list (Z * V)) : Prop :=
  Forall (fun '(k, v) => k mod page_size = 0 /\ size_of v mod page_size = 0) m.

(** The invariant of the committed regions between [lo] and [hi]. *)
Definition cwf (lo hi : Z) (m : committed_map) : Prop := ivs lo hi m /\ paged m.

(** The protection of an address, if it is committed. *)
Definition prot_at (m : committed_map) (a : Z) : option Z := (fun e => c_prot e.2) <$> at_addr m a.

Lemma paged_insert {V} `{!Sized V} (m : list (Z * V)) k v :
  paged m -> k mod page_size = 0 -> size_of v mod page_size = 0 -> paged (insert k v m).
Proof.
  intros Hm Hk Hv. unfold paged in *. induction Hm as [|[k' v'] t H Ht IH]; cbn [insert].
  - by rewrite Forall_singleton.
  - repeat case_match; rewrite ?Forall_cons; auto.
Qed.

Lemma paged_erase {V} `{!Sized V} (m : list (Z * V)) k : paged m -> paged (erase k m).
Proof.
  intros Hm. unfold paged in *. induction Hm as [|[k' v'] t H Ht IH]; cbn [erase]; [by constructor|].
  case_match; [done|by constructor].
Qed.

Lemma paged_find {V} `{!Sized V} (m : list (Z * V)) k v :
  paged m -> find m k = Some v -> k mod page_size = 0 /\ size_of v mod page_size = 0.
Proof.
  intros Hm E%find_elem. unfold paged in Hm. rewrite Forall_forall in Hm. exact (Hm _ (proj1 (list_elem_of_In _ _) E)).
Qed.

Lemma page_sub a b : a mod page_size = 0 -> b mod page_size = 0 -> (a - b) mod page_size = 0.
Proof.
  unfold page_size. intros Ha Hb. apply Z.mod_divide in Ha as [p ->]; [|lia].
  apply Z.mod_divide in Hb as [q ->]; [|lia]. rewrite <- Z.mul_sub_distr_r. apply Z.mod_mul. lia.
Qed.

Lemma page_add a b : a mod page_size = 0 -> b mod page_size = 0 -> (a + b) mod page_size = 0.
Proof. apply mul_page_sum. Qed.

#[export] Hint Resolve page_sub page_add paged_insert paged_erase : kern.

(** The search of the code is the interval an address is in. *)
Lemma find_in_at {V} `{!Sized V} lo hi (m : list (Z * V)) a :
  ivs lo hi m -> 0 <= lo -> hi < 2 ^ 64 -> find_in m a = at_addr m a.
Proof.
  intros Hm Hlo Hhi. rewrite <- (floor_at_addr lo hi) by done. unfold find_in.
  destruct (floor m a) as [[k v]|] eqn:E; [|done]. destruct (floor_spec _ _ _ _ _ _ Hm E) as [Hk Hf].
  pose proof (find_bounds _ _ _ _ _ Hm Hf). rewrite u64_small; [done|]. unfold in_u64. lia.
Qed.

(** ** [split_at] *)

Section Split.
Context (lo hi : Z) (m : committed_map) (Hlo : 0 <= lo) (Hhi : hi < 2 ^ 64) (Hm : ivs lo hi m).

Lemma cut_none a : at_addr m a = None -> cut m a.
Proof using Type. intros E k v. by rewrite E. Qed.

Lemma split_at_eq a :
  split_at m a = match at_addr m a with
    | None => m
    | Some (k, r) => if k =? a then m else
        insert a (Committed (k + c_size r - a) (c_prot r)) (insert k (Committed (a - k) (c_prot r)) m)
    end.
Proof using Hlo Hhi Hm.
  unfold split_at, find_committed. rewrite (find_in_at lo hi) by done.
  destruct (at_addr m a) as [[k r]|] eqn:E; [|done]. destruct (Z.eqb_spec k a) as [|Hne]; [done|].
  pose proof (at_addr_bounds _ _ _ _ _ _ Hm E). unfold size_of, committed_sized in *. cbn zeta.
  rewrite !(u64_small (k + c_size r - a)) by (unfold in_u64; lia). do 3 f_equal.
  rewrite u64_small by (unfold in_u64; lia). lia.
Qed.

(** What a split map says of an address, in terms of the one before. *)
Definition split_entry (a x : Z) (e : option (Z * committed_region)) : option (Z * committed_region) :=
  match e with
  | Some (k, r) =>
      if (k <? a) && (a <? k + c_size r)
      then if x <? a then Some (k, Committed (a - k) (c_prot r))
           else Some (a, Committed (k + c_size r - a) (c_prot r))
      else Some (k, r)
  | None => None
  end.

Lemma split_at_spec a :
  ivs lo hi (split_at m a) /\ forall x, at_addr (split_at m a) x = split_entry a x (at_addr m x).
Proof using Hlo Hhi Hm.
  rewrite split_at_eq. destruct (at_addr m a) as [[k r]|] eqn:E.
  2: { split; [done|]. intros x. destruct (at_addr m x) as [[k r]|] eqn:Ex; [|done]. cbn.
       destruct (Z.ltb_spec k a), (Z.ltb_spec a (k + c_size r)); cbn; try done. exfalso.
       pose proof (at_addr_find _ _ _ _ _ _ Hm Ex) as Hf.
       rewrite (find_at_addr _ _ _ _ _ a Hm Hf) in E; [done|]. unfold size_of, committed_sized. lia. }
  pose proof (at_addr_bounds _ _ _ _ _ _ Hm E) as Hb. unfold size_of, committed_sized in Hb.
  pose proof (at_addr_find _ _ _ _ _ _ Hm E) as Hf.
  assert (forall x, k <= x < k + c_size r -> at_addr m x = Some (k, r)) as Hin.
  { intros x Hx. by apply (find_at_addr lo hi). }
  destruct (Z.eqb_spec k a) as [->|Hne].
  { split; [done|]. intros x. destruct (at_addr m x) as [[k' r']|] eqn:Ex; [|done]. cbn.
    destruct (decide (k' = a)) as [->|Hk']; [by rewrite Z.ltb_irrefl|].
    pose proof (ivs_apart _ _ _ _ _ _ _ Hm Hf (at_addr_find _ _ _ _ _ _ Hm Ex) ltac:(done)) as Hap.
    unfold size_of, committed_sized in Hap.
    destruct (Z.ltb_spec k' a), (Z.ltb_spec a (k' + c_size r')); cbn; try done; lia. }
  assert (forall x k' r', at_addr m x = Some (k', r') -> k' <> k ->
    k + c_size r <= k' \/ k' + c_size r' <= k) as Hap.
  { intros x k' r' Ex Hk'. apply (ivs_apart _ _ _ _ _ _ _ Hm Hf (at_addr_find _ _ _ _ _ _ Hm Ex)). done. }
  destruct (insert_ivs lo hi m k (Committed (a - k) (c_prot r)) Hm) as [I1 A1];
    unfold size_of, committed_sized; cbn [c_size]; [lia|lia|lia| |].
  { intros x Hx k' r' Ex. unfold size_of, committed_sized in Hx. cbn [c_size] in Hx.
    rewrite Hin in Ex by lia. by simplify_eq. }
  destruct (insert_ivs lo hi _ a (Committed (k + c_size r - a) (c_prot r)) I1) as [I2 A2];
    unfold size_of, committed_sized in *; cbn [c_size] in *; [lia|lia|lia| |].
  { intros x Hx k' r' Ex. unfold size_of, committed_sized in Hx. cbn [c_size] in Hx. rewrite A1 in Ex.
    rewrite (Hin x) in Ex by lia. cbn in Ex. rewrite Z.eqb_refl in Ex.
    rewrite (proj2 (Z.ltb_ge x (k + (a - k)))) in Ex by lia. by rewrite andb_false_r in Ex. }
  split; [done|]. intros x. rewrite A2, A1.
  destruct (decide (k <= x < k + c_size r)) as [Hx|Hx].
  - rewrite (Hin x Hx). cbn. rewrite (proj2 (Z.ltb_lt k a)), (proj2 (Z.ltb_lt a (k + c_size r))) by lia. cbn.
    destruct (Z.ltb_spec x a).
    + rewrite (proj2 (Z.leb_gt a x)) by lia. cbn.
      rewrite (proj2 (Z.leb_le k x)), (proj2 (Z.ltb_lt x (k + (a - k)))) by lia. cbn.
      by rewrite (proj2 (Z.eqb_neq k a)) by lia.
    + by rewrite (proj2 (Z.leb_le a x)), (proj2 (Z.ltb_lt x (a + (k + c_size r - a)))) by lia.
  - destruct (Z.leb_spec a x), (Z.ltb_spec x (a + (k + c_size r - a))); cbn; try lia;
    (destruct (Z.leb_spec k x), (Z.ltb_spec x (k + (a - k))); cbn; try lia);
    (destruct (at_addr m x) as [[k' r']|] eqn:Ex; [|done]); cbn;
    pose proof (at_addr_bounds _ _ _ _ _ _ Hm Ex) as Hb'; unfold size_of, committed_sized in Hb';
    (assert (k' <> k) as Hk' by (intros ->; rewrite (at_addr_find _ _ _ _ _ _ Hm Ex) in Hf; simplify_eq; lia));
    pose proof (Hap _ _ _ Ex Hk');
    rewrite (proj2 (Z.eqb_neq k' k)) by lia; cbn; rewrite (proj2 (Z.eqb_neq k' a)) by lia;
    destruct (Z.ltb_spec k' a), (Z.ltb_spec a (k' + c_size r')); cbn; try done; lia.
Qed.

Lemma split_prot a x : prot_at (split_at m a) x = prot_at m x.
Proof using Hlo Hhi Hm.
  unfold prot_at. rewrite (proj2 (split_at_spec a)). destruct (at_addr m x) as [[k r]|]; [|done].
  cbn. by repeat case_match.
Qed.

(** Afterwards no region crosses [a], and where none crossed before none does. *)
Lemma split_cut a : cut (split_at m a) a.
Proof using Hlo Hhi Hm.
  intros k r. rewrite (proj2 (split_at_spec a)). destruct (at_addr m a) as [[k' r']|] eqn:E; [|done].
  pose proof (at_addr_bounds _ _ _ _ _ _ Hm E) as Hb. unfold size_of, committed_sized in Hb. cbn.
  rewrite Z.ltb_irrefl. destruct (Z.ltb_spec k' a), (Z.ltb_spec a (k' + c_size r')); cbn; intros; simplify_eq; lia.
Qed.

Lemma split_keeps_cut a b : cut m b -> cut (split_at m a) b.
Proof using Hlo Hhi Hm.
  intros Hc k r. rewrite (proj2 (split_at_spec a)). destruct (at_addr m b) as [[k' r']|] eqn:E; [|done].
  pose proof (at_addr_bounds _ _ _ _ _ _ Hm E) as Hb. unfold size_of, committed_sized in Hb.
  pose proof (Hc _ _ E). subst k'. cbn.
  destruct (Z.ltb_spec b a), (Z.ltb_spec a (b + c_size r')); cbn; intros; simplify_eq; try done.
Qed.

Lemma split_paged a : paged m -> a mod page_size = 0 -> paged (split_at m a).
Proof using Hlo Hhi Hm.
  intros Hp Ha. rewrite split_at_eq. destruct (at_addr m a) as [[k r]|] eqn:E; [|done].
  case_match; [done|]. pose proof (at_addr_find _ _ _ _ _ _ Hm E) as Hf.
  destruct (paged_find _ _ _ Hp Hf) as [Hk Hr]. unfold size_of, committed_sized in Hr.
  apply paged_insert; [apply paged_insert|..]; unfold size_of, committed_sized; cbn [c_size]; auto with kern.
Qed.

End Split.

(** ** [merge_adjacent] *)

(** Neighbours that touch have different protections. *)
Fixpoint canon (m : committed_map) : Prop :=
  match m with
  | (k, r) :: ((k', r') :: _) as t => ~ (k + c_size r = k' /\ c_prot r = c_prot r') /\ canon t
  | _ => True
  end.

Lemma prot_at_cons k r t a :
  prot_at ((k, r) :: t) a = if (k <=? a) && (a <? k + c_size r) then Some (c_prot r) else prot_at t a.
Proof. unfold prot_at. cbn. unfold size_of, committed_sized. by case_match. Qed.

Lemma merge_from_spec lo hi k r t :
  0 <= lo -> hi < 2 ^ 64 -> ivs lo hi ((k, r) :: t) ->
  ivs lo hi (merge_from k r t) /\ (forall a, prot_at (merge_from k r t) a = prot_at ((k, r) :: t) a) /\
  canon (merge_from k r t) /\ (exists r' t', merge_from k r t = (k, r') :: t' /\ c_prot r' = c_prot r).
Proof.
  intros Hlo Hhi. revert lo k r Hlo. induction t as [|[k' r'] t IH]; intros lo k r Hlo Hm.
  { cbn [merge_from]. split_and!; eauto. done. }
  cbn in Hm. unfold size_of, committed_sized in Hm. destruct Hm as (H1 & H2 & H3 & H4 & H5 & H6 & H7).
  cbn [merge_from]. rewrite (u64_small (k + c_size r)) by (unfold in_u64; lia).
  destruct ((k + c_size r =? k') && (c_prot r =? c_prot r')) eqn:E.
  - apply andb_true_iff in E as [E1%Z.eqb_eq E2%Z.eqb_eq].
    rewrite u64_small by (unfold in_u64; lia).
    destruct (IH lo k (Committed (c_size r + c_size r') (c_prot r)) Hlo) as (I1 & I2 & I3 & r0 & t0 & I4 & I5).
    { cbn. unfold size_of, committed_sized. cbn [c_size]. split_and!; try lia.
      replace (k + (c_size r + c_size r')) with (k' + c_size r') by lia. done. }
    split_and!; try done; [|by exists r0, t0].
    intros a. rewrite I2, !prot_at_cons. cbn [c_size c_prot].
    destruct (Z.leb_spec k a), (Z.ltb_spec a (k + c_size r)), (Z.leb_spec k' a), (Z.ltb_spec a (k' + c_size r')),
      (Z.ltb_spec a (k + (c_size r + c_size r'))); cbn; try done; try lia; congruence.
  - destruct (IH (k + c_size r) k' r' ltac:(lia)) as (I1 & I2 & I3 & r0 & t0 & I4 & I5).
    { cbn. unfold size_of, committed_sized. split_and!; try lia. done. }
    split_and!.
    + cbn. unfold size_of, committed_sized. split_and!; try lia. done.
    + intros a. rewrite prot_at_cons, I2. by rewrite (prot_at_cons k r).
    + rewrite I4 in I3 |- *. split; [|done]. rewrite I5. intros [<- Ep].
      rewrite Z.eqb_refl, Ep, Z.eqb_refl in E. done.
    + eauto.
Qed.

Lemma merge_spec lo hi m :
  0 <= lo -> hi < 2 ^ 64 -> ivs lo hi m ->
  ivs lo hi (merge_adjacent m) /\ (forall a, prot_at (merge_adjacent m) a = prot_at m a) /\
  canon (merge_adjacent m).
Proof.
  intros Hlo Hhi Hm. destruct m as [|[k r] t]; [done|].
  destruct (merge_from_spec lo hi k r t) as (? & ? & ? & _); done.
Qed.

Lemma merge_from_paged lo hi k r t :
  0 <= lo -> hi < 2 ^ 64 -> ivs lo hi ((k, r) :: t) -> paged ((k, r) :: t) -> paged (merge_from k r t).
Proof.
  intros Hlo Hhi. revert lo k r Hlo. induction t as [|[k' r'] t IH]; intros lo k r Hlo Hm Hp; [done|].
  cbn in Hm. unfold size_of, committed_sized in Hm. destruct Hm as (H1 & H2 & H3 & H4 & H5 & H6 & H7).
  apply Forall_cons_iff in Hp as [[Pk Pr] Hp]. apply Forall_cons_iff in Hp as [[Pk' Pr'] Pt].
  unfold size_of, committed_sized in Pr, Pr'. cbn [merge_from].
  rewrite (u64_small (k + c_size r)) by (unfold in_u64; lia).
  destruct ((k + c_size r =? k') && (c_prot r =? c_prot r')) eqn:E.
  - apply andb_true_iff in E as [E1%Z.eqb_eq E2%Z.eqb_eq]. rewrite u64_small by (unfold in_u64; lia).
    apply (IH lo); [done|..].
    + cbn. unfold size_of, committed_sized. cbn [c_size]. split_and!; try lia.
      replace (k + (c_size r + c_size r')) with (k' + c_size r') by lia. done.
    + constructor; [|done]. split; [done|]. unfold size_of, committed_sized. cbn [c_size]. auto with kern.
  - constructor; [done|]. apply (IH (k + c_size r)); [lia| |by constructor].
    cbn. unfold size_of, committed_sized. split_and!; try lia. done.
Qed.

Lemma merge_paged lo hi m :
  0 <= lo -> hi < 2 ^ 64 -> ivs lo hi m -> paged m -> paged (merge_adjacent m).
Proof. intros Hlo Hhi Hm Hp. destruct m as [|[k r] t]; [done|]. by apply (merge_from_paged lo hi). Qed.

(** A region of a merged map ends where its protection does. *)
Lemma canon_end lo hi m k r :
  ivs lo hi m -> canon m -> find m k = Some r -> prot_at m (k + c_size r) <> Some (c_prot r).
Proof.
  revert lo. induction m as [|[k0 r0] t IH]; intros lo Hm Hc; [done|].
  cbn in Hm. unfold size_of, committed_sized in Hm. destruct Hm as (H1 & H2 & H3 & Ht).
  cbn [find]. rewrite prot_at_cons. destruct (Z.eqb_spec k k0) as [->|Hne].
  - intros [= ->]. rewrite Z.ltb_irrefl, andb_false_r. intros E.
    destruct t as [|[k1 r1] t]; [done|]. destruct Hc as [Hc _]. cbn in Ht. unfold size_of, committed_sized in Ht.
    destruct Ht as (T1 & T2 & T3 & T4). rewrite prot_at_cons in E.
    destruct (Z.leb_spec k1 (k0 + c_size r)); [|].
    + assert (k1 = k0 + c_size r) as -> by lia. rewrite (proj2 (Z.ltb_lt _ _)) in E by lia. cbn in E.
      apply Hc. split; [done|congruence].
    + cbn in E. unfold prot_at in E. rewrite (at_addr_below _ _ _ _ T4) in E by (unfold size_of, committed_sized; lia). done.
  - intros Hf. pose proof (find_bounds _ _ _ _ _ Ht Hf) as Hb. unfold size_of, committed_sized in Hb.
    rewrite (proj2 (Z.ltb_ge (k + c_size r) _)) by lia. rewrite andb_false_r.
    apply (IH (k0 + c_size r0)); [done| |done]. destruct t as [|[k1 r1] t]; [done|]. apply Hc.
Qed.
