(* ===== verification/UserMemSpec.v ===== *)
(** * User memory: what the operations do

    The operations of [UserMem] against a view of the address space: for every
    address, which reservation holds it and, if it is committed, with which
    protection. *)

From S2P Require Import Prelude Mmu OrdMap UserMem UserMemMaps.
From stdpp Require Import options.

Open Scope Z_scope.
Open Scope kern_scope.

(** Reservations are in the lower half, so that no end of one wraps. *)
Definition top : Z := 2 ^ 48.

Record res_ok (k : Z) (r : reservation) : Prop := {
  ro_start : k mod page_size = 0;
  ro_size : r_size r mod page_size = 0;
  ro_committed : cwf k (k + r_size r) (committed r)
}.

(** The invariant. *)
Record um_wf (m : reservation_map) : Prop := {
  uw_ivs : ivs 0 top m;
  uw_res : forall k r, find m k = Some r -> res_ok k r
}.

(** The view: the reservation and, inside it, the protection. *)
Definition view (m : reservation_map) (a : Z) : option (Z * option Z) :=
  match at_addr m a with
  | Some (k, r) => Some (k, prot_at (committed r) a)
  | None => None
  end.

Definition in_range (a b x : Z) : bool := (a <=? x) && (x <? b).

Lemma in_range_true a b x : in_range a b x = true <-> a <= x < b.
Proof. unfold in_range. rewrite andb_true_iff, Z.leb_le, Z.ltb_lt. done. Qed.

Lemma in_range_false a b x : in_range a b x = false <-> ~ a <= x < b.
Proof. rewrite <- in_range_true. by destruct (in_range a b x). Qed.

(** ** One reservation's regions *)

Lemma cwf_fill lo hi m c n p :
  cwf lo hi m -> lo <= c -> 0 < n -> c + n <= hi -> c mod page_size = 0 -> n mod page_size = 0 ->
  (forall x, c <= x < c + n -> at_addr m x = None) ->
  cwf lo hi (insert c (Committed n p) m) /\
  forall x, at_addr (insert c (Committed n p) m) x =
    if in_range c (c + n) x then Some (c, Committed n p) else at_addr m x.
Proof.
  intros [Hm Hp] Hlo Hn Hhi Hc Hnm Hnone.
  destruct (insert_new lo hi m c (Committed n p)) as [I A]; [done..|].
  split; [split; [done|by apply paged_insert]|done].
Qed.

Lemma cwf_set lo hi m k r p :
  cwf lo hi m -> find m k = Some r ->
  cwf lo hi (insert k (Committed (c_size r) p) m) /\
  forall x, at_addr (insert k (Committed (c_size r) p) m) x =
    if in_range k (k + c_size r) x then Some (k, Committed (c_size r) p) else at_addr m x.
Proof.
  intros [Hm Hp] Hf. destruct (insert_same lo hi m k (Committed (c_size r) p) r) as [I A]; [done..|].
  destruct (paged_find _ _ _ Hp Hf). split; [split; [done|by apply paged_insert]|done].
Qed.

Lemma cwf_erase lo hi m k r :
  cwf lo hi m -> find m k = Some r ->
  cwf lo hi (erase k m) /\
  forall x, at_addr (erase k m) x = if in_range k (k + c_size r) x then None else at_addr m x.
Proof.
  intros [Hm Hp] Hf. split; [split; [by apply ivs_erase|by apply paged_erase]|].
  intros x. rewrite (at_addr_erase lo hi) by done. destruct (in_range k (k + c_size r) x) eqn:Hin.
  - apply in_range_true in Hin. rewrite (find_at_addr _ _ _ _ _ x Hm Hf) by done. cbn. by rewrite Z.eqb_refl.
  - apply in_range_false in Hin. destruct (at_addr m x) as [[k' r']|] eqn:E; [|done]. cbn.
    destruct (Z.eqb_spec k' k) as [->|]; [|done]. exfalso. apply Hin.
    pose proof (at_addr_bounds _ _ _ _ _ _ Hm E). pose proof (at_addr_find _ _ _ _ _ _ Hm E) as Hf'.
    rewrite Hf in Hf'. simplify_eq. unfold size_of, committed_sized in *. lia.
Qed.

Lemma cwf_split lo hi m a :
  0 <= lo -> hi < 2 ^ 64 -> cwf lo hi m -> a mod page_size = 0 -> cwf lo hi (split_at m a).
Proof.
  intros Hlo Hhi [Hm Hp] Ha. split; [by apply split_at_spec|by apply (split_paged lo hi)].
Qed.

Lemma cwf_merge lo hi m : 0 <= lo -> hi < 2 ^ 64 -> cwf lo hi m -> cwf lo hi (merge_adjacent m).
Proof. intros Hlo Hhi [Hm Hp]. split; [by apply merge_spec|by apply (merge_paged lo hi)]. Qed.

Lemma paged_between (m : committed_map) a b : paged m -> paged (between m a b).
Proof.
  intros Hp. unfold between.
  assert (paged (lower_bound m a)) as Hl.
  { induction Hp as [|[k v] t H Ht IH]; cbn [lower_bound]; [constructor|]. case_match; [done|by constructor]. }
  induction Hl as [|[k v] t H Ht IH]; cbn [while_below]; [constructor|]. case_match; [by constructor|constructor].
Qed.

(** ** One reservation in the map *)

Section Focus.
Context (M0 : reservation_map) (k : Z) (r : reservation).
Context (Hwf : um_wf M0) (Hf : find M0 k = Some r).

(** [M0] with the regions of [k] replaced. *)
Definition with_committed (m : committed_map) : reservation_map := insert k (set_committed m r) M0.

Lemma with_self : with_committed (committed r) = M0.
Proof using Hwf Hf.
  unfold with_committed. replace (set_committed (committed r) r) with r by (by destruct r).
  apply (insert_id 0 top); [apply Hwf|done].
Qed.

Lemma res_bounds : 0 <= k /\ 0 < r_size r /\ k + r_size r <= top.
Proof using Hwf Hf. apply (find_bounds _ _ _ _ _ (uw_ivs _ Hwf) Hf). Qed.

Lemma with_committed_wf m : cwf k (k + r_size r) m -> um_wf (with_committed m).
Proof using Hwf Hf.
  intros Hm. destruct (insert_same 0 top M0 k (set_committed m r) r) as [I A]; [apply Hwf|done|done|].
  split; [done|]. intros k' r' Hf'. unfold with_committed in Hf'.
  destruct (decide (k' = k)) as [->|Hne].
  - rewrite find_insert_eq in Hf'. simplify_eq. destruct (uw_res _ Hwf k r Hf). by split.
  - rewrite find_insert_ne in Hf' by done. by apply Hwf.
Qed.

Lemma view_with m a :
  view (with_committed m) a =
    if in_range k (k + r_size r) a then Some (k, prot_at m a) else view M0 a.
Proof using Hwf Hf.
  destruct (insert_same 0 top M0 k (set_committed m r) r) as [I A]; [apply Hwf|done|done|].
  unfold view, with_committed. rewrite A. change (size_of (set_committed m r)) with (r_size r).
  unfold in_range. by destruct ((k <=? a) && (a <? k + r_size r)).
Qed.

End Focus.

(** ** Computations that leave the reservations alone *)

Section Steps.
Context {X : Type} {um : UserMmu X}.

Definition keeps {A} (f : st (win_user_mem X) A) : Prop :=
  forall s, reservations_ (f s).2 = reservations_ s /\ next_free_ (f s).2 = next_free_ s.

Lemma keeps_ret {A} (a : A) : keeps (ret a).
Proof. done. Qed.
Lemma keeps_get : keeps get.
Proof. done. Qed.
Lemma keeps_backing f : keeps (set_backing f).
Proof. done. Qed.
Lemma keeps_on_mm f : keeps (on_mm f).
Proof. intros s. unfold on_mm. by destruct (f (mm s)). Qed.
Lemma keeps_bind {A B} (m : st _ A) (f : A -> st _ B) :
  keeps m -> (forall a, keeps (f a)) -> keeps (bind m f).
Proof.
  intros Hm Hk s. destruct (Hm s) as [E1 E2]. unfold bind. destruct (m s) as [[a|e] s'] eqn:E; cbn in *; [|done].
  destruct (Hk a s'). split; congruence.
Qed.

Lemma keeps_each_page n page body : (forall p, keeps (body p)) -> keeps (each_page n page body).
Proof.
  intros Hb. revert page. induction n as [|n IH]; intros page; [apply keeps_ret|]. apply keeps_bind; auto.
Qed.

#[local] Hint Resolve keeps_ret keeps_get keeps_backing keeps_on_mm keeps_bind keeps_each_page : core.

Lemma keeps_map_pages base size prot : keeps (map_pages base size prot).
Proof.
  unfold map_pages. apply keeps_bind; [done|]. intros s. repeat case_match; auto.
  apply keeps_each_page. intros pg. apply keeps_bind; [done|]. intros s'. case_match; auto.
Qed.

Lemma keeps_evict_pages base size : keeps (evict_pages base size).
Proof.
  apply keeps_bind; [|auto]. apply keeps_each_page. intros pg. apply keeps_bind; [done|].
  intros s. case_match; auto.
Qed.

Lemma keeps_release_pages base size : keeps (release_pages base size).
Proof. apply keeps_bind; auto. Qed.

Lemma keeps_commit_pages base size prot : keeps (commit_pages base size prot).
Proof. unfold commit_pages. case_match; auto using keeps_map_pages. Qed.

Lemma keeps_apply_prot base size old new : keeps (apply_prot base size old new).
Proof. unfold apply_prot. repeat case_match; auto using keeps_map_pages, keeps_evict_pages. Qed.

Lemma keeps_release_loop es : keeps (release_loop es).
Proof. induction es as [|[k r] es IH]; [done|]. apply keeps_bind; auto using keeps_release_pages. Qed.

Lemma wp_keeps {A} (f : st _ A) s Q E :
  keeps f ->
  (forall a s', reservations_ s' = reservations_ s -> next_free_ s' = next_free_ s -> Q a s') ->
  (forall e s', reservations_ s' = reservations_ s -> E e s') -> wp f s Q E.
Proof.
  intros Hk HQ HE. destruct (Hk s) as [E1 E2]. unfold wp. destruct (f s) as [[a|e] s']; cbn in *; auto.
Qed.

(** ** Changing the regions of one reservation *)

Section Focused.
Context (M0 : reservation_map) (k : Z) (r : reservation).
Context (Hwf : um_wf M0) (Hf : find M0 k = Some r).
Context (E : error -> win_user_mem X -> Prop).
Context (HE : forall e s, um_wf (reservations_ s) -> E e s).

Let lo : Z := k.
Let hi : Z := k + r_size r.

(** The state has the regions [m] there, and is otherwise [M0]. *)
Definition focus (m : committed_map) (s : win_user_mem X) : Prop :=
  reservations_ s = with_committed M0 k r m.

Lemma focus_wf m s : focus m s -> cwf lo hi m -> um_wf (reservations_ s).
Proof using Hwf Hf. intros -> Hm. by apply with_committed_wf. Qed.

Lemma focus_committed m s : focus m s -> committed_of k s = m.
Proof using Type. unfold focus, committed_of, with_committed. intros ->. by rewrite find_insert_eq. Qed.

Lemma wp_on_committed m f s Q :
  focus m s -> (forall s', focus (f m) s' -> Q tt s') -> wp (on_committed k f) s Q E.
Proof using Type.
  intros Hs HQ. unfold wp, on_committed, set_reservations, modify. apply HQ. unfold focus in *.
  cbn [reservations_]. rewrite Hs. unfold with_committed. rewrite find_insert_eq.
  rewrite insert_insert. done.
Qed.

Lemma wp_get_committed m s Q :
  focus m s -> Q m s -> wp (get_committed k) s Q E.
Proof using Type. intros Hs HQ. unfold wp, get_committed. by rewrite (focus_committed m). Qed.

Lemma wp_focus_keeps {A} m (f : st _ A) s Q :
  keeps f -> focus m s -> cwf lo hi m -> (forall a s', focus m s' -> Q a s') -> wp f s Q E.
Proof using Hwf Hf HE.
  intros Hk Hs Hm HQ. apply wp_keeps; [done|..].
  - intros a s' Er _. apply HQ. unfold focus in *. congruence.
  - intros e s' Er. apply HE. rewrite Er. by apply (focus_wf m).
Qed.

Lemma lo_hi : 0 <= lo /\ lo < hi /\ hi < 2 ^ 64.
Proof using Hwf Hf. pose proof (res_bounds M0 k r Hwf Hf). unfold lo, hi, top, page_size in *. lia. Qed.

(** *** Cutting at the ends of a range *)

Lemma wp_splits m a b s Q :
  focus m s -> cwf lo hi m -> a mod page_size = 0 -> b mod page_size = 0 -> a <= b ->
  (forall m' s', focus m' s' -> cwf lo hi m' -> cut m' a -> cut m' b ->
     (forall x, prot_at m' x = prot_at m x) -> Q tt s') ->
  wp (on_committed k (fun m => split_at m a) ;; on_committed k (fun m => split_at m b)) s Q E.
Proof using Hwf Hf.
  intros Hs Hm Ha Hb Hab HQ. pose proof lo_hi as (H0 & _ & H1).
  apply wp_bind. eapply wp_on_committed; [exact Hs|]. intros s1 Hs1.
  pose proof (cwf_split lo hi m a H0 H1 Hm Ha) as Hm1.
  eapply wp_on_committed; [exact Hs1|]. intros s2 Hs2.
  apply (HQ _ _ Hs2).
  - by apply cwf_split.
  - apply (split_keeps_cut lo hi); [done|done|apply Hm1|]. apply (split_cut lo hi); [done|done|apply Hm].
  - apply (split_cut lo hi); [done|done|apply Hm1].
  - intros x. rewrite (split_prot lo hi) by (done || apply Hm1). by rewrite (split_prot lo hi) by (done || apply Hm).
Qed.

(** *** [commit_into] *)

Section Commit.
Context (m0 : committed_map) (base last prot : Z).
Context (Hbase : lo <= base) (Hlast : last <= hi).

(** Standing at [c], with [es] still to visit. *)
Record committing (c : Z) (es m : committed_map) : Prop := {
  cg_wf : cwf lo hi m;
  cg_cursor : base <= c <= last /\ c mod page_size = 0;
  cg_es : ivs c last es /\ paged es;
  cg_find : forall k' r', find es k' = Some r' -> find m k' = Some r';
  cg_ahead : forall x, c <= x < last -> at_addr m x = at_addr es x;
  cg_prot : forall x, prot_at m x = if in_range base c x then Some prot else prot_at m0 x
}.

(** Filling the hole before [c'] moves the cursor there. *)
Lemma committing_gap c es m c' :
  committing c es m -> c < c' <= last -> c' mod page_size = 0 -> ivs c' last es ->
  committing c' es (insert c (Committed (c' - c) prot) m).
Proof using Hbase Hlast.
  intros [Hm [Hc Hcp] [He Hep] Hfnd Hah Hpr] Hlt Hc' He'.
  assert (forall x, c <= x < c' -> at_addr m x = None) as Hnone.
  { intros x Hx. rewrite Hah by lia. apply (at_addr_below _ _ _ _ He'). lia. }
  destruct (cwf_fill lo hi m c (c' - c) prot Hm) as [W A]; try lia; [by apply page_sub| |].
  { intros x Hx. apply Hnone. lia. }
  replace (c + (c' - c)) with c' in A by lia. split; try done.
  - split; [lia|done].
  - intros k' r' Hf'. pose proof (find_bounds _ _ _ _ _ He' Hf'). rewrite find_insert_ne by lia. auto.
  - intros x Hx. rewrite A, (proj2 (in_range_false c c' x)) by lia. apply Hah. lia.
  - intros x. unfold prot_at. rewrite A. destruct (in_range c c' x) eqn:Hin.
    + apply in_range_true in Hin. by rewrite (proj2 (in_range_true base c' x)) by lia.
    + apply in_range_false in Hin. specialize (Hpr x). unfold prot_at in Hpr. rewrite Hpr.
      destruct (in_range base c x) eqn:Hb.
      * apply in_range_true in Hb. by rewrite (proj2 (in_range_true base c' x)) by lia.
      * apply in_range_false in Hb. by rewrite (proj2 (in_range_false base c' x)) by lia.
Qed.

(** Reprotecting the entry at the cursor moves past it. *)
Lemma committing_entry c r' es m :
  committing c ((c, r') :: es) m -> 
  committing (c + c_size r') es (insert c (Committed (c_size r') prot) m).
Proof using Hbase Hlast.
  intros [Hm [Hc Hcp] [He Hep] Hfnd Hah Hpr].
  cbn in He. unfold size_of, committed_sized in He. destruct He as (E1 & E2 & E3 & E4).
  apply Forall_cons_iff in Hep as [[P1 P2] P3]. unfold size_of, committed_sized in P2.
  assert (find m c = Some r') as Hfc by (apply Hfnd; cbn; by rewrite Z.eqb_refl).
  destruct (cwf_set lo hi m c r' prot Hm Hfc) as [W A].
  split; try done.
  - split; [lia|by apply page_add].
  - intros k' q Hf'. pose proof (find_bounds _ _ _ _ _ E4 Hf'). rewrite find_insert_ne by lia.
    apply Hfnd. cbn. by rewrite (proj2 (Z.eqb_neq k' c)) by lia.
  - intros x Hx. rewrite A, (proj2 (in_range_false c _ x)) by lia. rewrite Hah by lia. cbn.
    unfold size_of, committed_sized. rewrite (proj2 (Z.ltb_ge x _)) by lia. by rewrite andb_false_r.
  - intros x. unfold prot_at. rewrite A. destruct (in_range c (c + c_size r') x) eqn:Hin.
    + apply in_range_true in Hin. by rewrite (proj2 (in_range_true base _ x)) by lia.
    + apply in_range_false in Hin. specialize (Hpr x). unfold prot_at in Hpr. rewrite Hpr.
      destruct (in_range base c x) eqn:Hb.
      * apply in_range_true in Hb. by rewrite (proj2 (in_range_true base _ x)) by lia.
      * apply in_range_false in Hb. by rewrite (proj2 (in_range_false base _ x)) by lia.
Qed.

Lemma commit_loop_spec es c m s :
  focus m s -> committing c es m ->
  wp (commit_loop k base prot es c) s (fun c' s' => exists m', focus m' s' /\ committing c' [] m') E.
Proof using Hwf Hf HE Hbase Hlast.
  pose proof lo_hi as (H0 & _ & H1).
  revert c m s. induction es as [|[k' r'] es IH]; intros c m s Hs Hcg; cbn [commit_loop].
  { unfold wp, ret. eauto. }
  pose proof (cg_es _ _ _ Hcg) as [He Hep]. pose proof (cg_cursor _ _ _ Hcg) as [Hc Hcp].
  cbn in He. unfold size_of, committed_sized in He. destruct He as (E1 & E2 & E3 & E4).
  apply Forall_cons_iff in Hep as [[P1 P2] P3].
  apply wp_bind. eapply wp_mono with (E := E)
    (Q := fun _ s1 => exists m1, focus m1 s1 /\ committing k' ((k', r') :: es) m1); [| |done].
  { destruct (Z.ltb_spec c k') as [Hlt|Hge].
    - rewrite u64_small by (unfold in_u64; lia).
      apply wp_bind. apply (wp_focus_keeps m); [apply keeps_commit_pages|done|apply Hcg|].
      intros _ s1 Hs1. eapply wp_on_committed; [exact Hs1|]. intros s2 Hs2. eexists. split; [exact Hs2|].
      apply (committing_gap c); [done|lia|done|]. cbn. unfold size_of, committed_sized. split_and!; try done; lia.
    - assert (c = k') as -> by lia. unfold wp, ret. eauto. }
  intros _ s1 (m1 & Hs1 & Hcg1).
  apply wp_bind. apply (wp_focus_keeps m1); [apply keeps_apply_prot|done|apply Hcg1|]. intros _ s2 Hs2.
  apply wp_bind. eapply wp_on_committed; [exact Hs2|]. intros s3 Hs3.
  rewrite u64_small by (unfold in_u64; lia). apply (IH _ _ _ Hs3). by apply committing_entry.
Qed.

End Commit.

Lemma commit_into_spec m0 base size prot s :
  focus m0 s -> cwf lo hi m0 -> lo <= base < hi -> base mod page_size = 0 ->
  0 < size < 2 ^ 64 -> size mod page_size = 0 -> base + size < 2 ^ 64 ->
  wp (commit_into k base size prot (r_size r)) s
    (fun st s' =>
      (st = STATUS_CONFLICTING_ADDRESSES /\ hi < base + size /\ focus m0 s') \/
      (st = STATUS_SUCCESS /\ base + size <= hi /\ exists m', focus m' s' /\ cwf lo hi m' /\ canon m' /\
         forall x, prot_at m' x = if in_range base (base + size) x then Some prot else prot_at m0 x)) E.
Proof using Hwf Hf HE.
  intros Hs Hm Hb Hbp Hsz Hszp Hend. pose proof lo_hi as (H0 & _ & H1). pose proof (page_add _ _ Hbp Hszp) as Hlp.
  unfold commit_into. rewrite !(u64_small (base + size)) by (unfold in_u64; lia).
  change (k +w r_size r) with (u64 hi). rewrite (u64_small hi) by (unfold in_u64; lia).
  destruct (Z.ltb_spec hi (base + size)) as [Hgt|Hle]; [left; split_and!; [done|lia|done]|].
  apply wp_assoc, wp_bind. eapply wp_splits; [exact Hs|done|done|done|lia|].
  intros m1 s1 Hs1 Hm1 Hc1 Hc2 Hpr1. apply wp_bind. eapply wp_get_committed; [exact Hs1|].
  destruct (between_spec lo hi m1 base (base + size) (proj1 Hm1) Hc1 Hc2 ltac:(lia)) as (B1 & B2 & B3).
  apply wp_bind. eapply wp_mono with (E := E); [eapply (commit_loop_spec m0 base (base + size) prot)| |done].
  1-2: lia.
  1: exact Hs1.
  { split; try done.
    - split; [lia|done].
    - split; [done|]. apply paged_between, Hm1.
    - intros x Hx. by rewrite B2.
    - intros x. rewrite (proj2 (in_range_false base base x)) by lia. apply Hpr1. }
  intros c s2 (m2 & Hs2 & Hcg). pose proof (cg_cursor _ _ _ _ _ _ _ Hcg) as [Hc Hcp].
  apply wp_bind. eapply wp_mono with (E := E)
    (Q := fun _ s3 => exists m3, focus m3 s3 /\ committing m0 base (base + size) prot (base + size) [] m3); [| |done].
  { destruct (Z.ltb_spec c (base + size)) as [Hlt|Hge].
    - rewrite u64_small by (unfold in_u64; lia).
      apply wp_bind. apply (wp_focus_keeps m2); [apply keeps_commit_pages|done|apply Hcg|].
      intros _ s3 Hs3. eapply wp_on_committed; [exact Hs3|]. intros s4 Hs4. eexists. split; [exact Hs4|].
      apply (committing_gap m0 base (base + size) prot); [lia|lia|done|lia|done|done].
    - assert (c = base + size) as -> by lia. unfold wp, ret. eauto. }
  intros _ s3 (m3 & Hs3 & Hcg3). apply wp_bind. eapply wp_on_committed; [exact Hs3|]. intros s4 Hs4.
  destruct Hcg3 as [Hm3 _ _ _ _ Hpr3]. destruct (merge_spec lo hi m3 H0 H1 (proj1 Hm3)) as (_ & Mp & Mc).
  right. split_and!; [done|lia|]. eexists. split_and!; [exact Hs4|by apply cwf_merge|done|].
  intros x. by rewrite Mp, Hpr3.
Qed.

(** *** A sweep over the regions of a range

    The loops of [free] and [protect]: each region between [start] and [last] is
    given what [g] makes of its protection; addresses that are not committed
    stay so. *)

Section Sweep.
Context (m0 : committed_map) (start last : Z) (g : option Z -> option Z) (Hg : g None = None).
Context (update : Z -> committed_region -> committed_map -> committed_map).
Context (Hupd : forall m k' r', cwf lo hi m -> find m k' = Some r' ->
  cwf lo hi (update k' r' m) /\
  (forall k0, k0 <> k' -> find (update k' r' m) k0 = find m k0) /\
  forall x, (in_range k' (k' + c_size r') x = false -> at_addr (update k' r' m) x = at_addr m x) /\
    (in_range k' (k' + c_size r') x = true -> prot_at (update k' r' m) x = g (Some (c_prot r')))).

(** Standing at [c], with [es] still to visit. *)
Record sweeping (c : Z) (es m : committed_map) : Prop := {
  sw_wf : cwf lo hi m;
  sw_cursor : start <= c <= last;
  sw_es : ivs c last es;
  sw_find : forall k' r', find es k' = Some r' -> find m k' = Some r';
  sw_ahead : forall x, c <= x < last -> at_addr m x = at_addr es x;
  sw_prot : forall x, prot_at m x = if in_range start c x then g (prot_at m0 x) else prot_at m0 x
}.

Lemma sweeping_start m :
  cwf lo hi m -> start <= last -> cut m start -> cut m last -> (forall x, prot_at m x = prot_at m0 x) ->
  sweeping start (between m start last) m.
Proof using Type.
  intros Hm Hle C1 C2 Hp. destruct (between_spec lo hi m start last (proj1 Hm) C1 C2 Hle) as (B1 & B2 & B3).
  split; [done|lia|done|done| |].
  - intros x Hx. by rewrite B2.
  - intros x. by rewrite (proj2 (in_range_false start start x)) by lia.
Qed.

(** Where nothing lies ahead the cursor may move. *)
Lemma sweeping_skip c es m c' :
  sweeping c es m -> c <= c' <= last -> ivs c' last es -> sweeping c' es m.
Proof using Hg.
  intros [Hm Hc He Hfnd Hah Hpr] Hlt He'. split; try done; [lia|intros x Hx; apply Hah; lia|].
  intros x. rewrite Hpr. destruct (in_range start c x) eqn:Hb.
  - apply in_range_true in Hb. by rewrite (proj2 (in_range_true start c' x)) by lia.
  - apply in_range_false in Hb. destruct (in_range start c' x) eqn:Hb'; [|done].
    apply in_range_true in Hb'. specialize (Hpr x). rewrite (proj2 (in_range_false start c x)) in Hpr by lia.
    rewrite <- Hpr. unfold prot_at. rewrite Hah by lia. rewrite (at_addr_below _ _ _ _ He') by lia. done.
Qed.

Lemma sweeping_entry c r' es m :
  sweeping c ((c, r') :: es) m -> sweeping (c + c_size r') es (update c r' m).
Proof using Hg Hupd.
  intros [Hm Hc He Hfnd Hah Hpr].
  cbn in He. unfold size_of, committed_sized in He. destruct He as (E1 & E2 & E3 & E4).
  assert (find m c = Some r') as Hfc by (apply Hfnd; cbn; by rewrite Z.eqb_refl).
  destruct (Hupd m c r' Hm Hfc) as (W & F & A). split; try done.
  - lia.
  - intros k' q Hf'. pose proof (find_bounds _ _ _ _ _ E4 Hf'). rewrite F by lia.
    apply Hfnd. cbn. by rewrite (proj2 (Z.eqb_neq k' c)) by lia.
  - intros x Hx. rewrite (proj1 (A x)) by (apply in_range_false; lia). rewrite Hah by lia. cbn.
    unfold size_of, committed_sized. rewrite (proj2 (Z.ltb_ge x _)) by lia. by rewrite andb_false_r.
  - intros x. destruct (A x) as [A1 A2]. destruct (in_range c (c + c_size r') x) eqn:Hin.
    + rewrite A2 by done. apply in_range_true in Hin. rewrite (proj2 (in_range_true start _ x)) by lia.
      f_equal. specialize (Hpr x). rewrite (proj2 (in_range_false start c x)) in Hpr by lia. rewrite <- Hpr. unfold prot_at.
      by rewrite (find_at_addr _ _ _ _ _ x (proj1 Hm) Hfc).
    + assert (prot_at (update c r' m) x = prot_at m x) as -> by (unfold prot_at; by rewrite A1).
      rewrite Hpr.
      apply in_range_false in Hin. destruct (in_range start c x) eqn:Hb.
      * apply in_range_true in Hb. by rewrite (proj2 (in_range_true start _ x)) by lia.
      * apply in_range_false in Hb. by rewrite (proj2 (in_range_false start _ x)) by lia.
Qed.

(** The loop, whatever it does to the pages. *)
Lemma sweep_spec (loop : committed_map -> st (win_user_mem X) unit) (pages : Z -> committed_region -> st (win_user_mem X) unit) :
  (forall k' r', keeps (pages k' r')) -> loop [] = ret tt ->
  (forall k' r' es, loop ((k', r') :: es) = (pages k' r' ;; on_committed k (update k' r') ;; loop es)) ->
  forall es c m s, focus m s -> sweeping c es m ->
  wp (loop es) s (fun _ s' => exists m', focus m' s' /\ cwf lo hi m' /\
    forall x, prot_at m' x = if in_range start last x then g (prot_at m0 x) else prot_at m0 x) E.
Proof using Hwf Hf HE Hg Hupd.
  intros Hpg Hnil Hcons. induction es as [|[k' r'] es IH]; intros c m s Hs Hsw.
  { rewrite Hnil. exists m. split_and!; [done|apply Hsw|].
    apply (sweeping_skip c [] m last) in Hsw; [apply Hsw| |done].
    pose proof (sw_cursor _ _ _ Hsw). lia. }
  rewrite Hcons. pose proof (sw_es _ _ _ Hsw) as He. cbn in He. unfold size_of, committed_sized in He.
  destruct He as (E1 & E2 & E3 & E4). pose proof (sw_cursor _ _ _ Hsw).
  apply wp_bind. apply (wp_focus_keeps m); [apply Hpg|done|apply Hsw|]. intros _ s1 Hs1.
  apply wp_bind. eapply wp_on_committed; [exact Hs1|]. intros s2 Hs2.
  apply (IH (k' + c_size r') _ _ Hs2). apply sweeping_entry. apply (sweeping_skip c); [done|lia|].
  cbn. unfold size_of, committed_sized. split_and!; try done; lia.
Qed.

End Sweep.

End Focused.

End Steps.
