(* ===== verification/UserMemThm.v ===== *)
(** * User memory: the operations against the view

    The theorems on [allocate], [free], [protect], [query] and [handle_fault] of
    kernel/win/win_user_mem.cpp. *)

From S2P Require Import Prelude Mmu OrdMap UserMem UserMemMaps UserMemSpec.
From stdpp Require Import options.

Open Scope Z_scope.
Open Scope kern_scope.

Section Pure.
Context (m : reservation_map) (Hm : um_wf m).

Lemma find_reservation_at a : find_reservation m a = at_addr m a.
Proof using Hm. apply (find_in_at 0 top); [apply Hm|done|done]. Qed.

(** [overlapping]: the first reservation a range meets. *)
Lemma overlapping_none base size :
  0 <= base -> 0 < size -> base + size < 2 ^ 64 ->
  overlapping m base size = None <-> forall x, base <= x < base + size -> at_addr m x = None.
Proof using Hm.
  intros Hb Hs He. unfold overlapping. rewrite find_reservation_at. rewrite u64_small by (unfold in_u64; lia).
  destruct (at_addr m base) as [e|] eqn:E.
  { split; [done|]. intros H. by rewrite (H base) in E by lia. }
  destruct (lower_bound_spec 0 top m base (uw_ivs _ Hm)) as (L1 & L2 & L3).
  { intros k v. by rewrite E. }
  destruct (lower_bound m base) as [|[k r] t].
  - split; [|done]. intros _ x Hx. rewrite <- L2 by lia. done.
  - destruct L1 as (K1 & K2 & K3 & K4). destruct (Z.ltb_spec k (base + size)) as [Hlt|Hge].
    + split; [done|]. intros H. specialize (H k ltac:(lia)). rewrite <- L2 in H by lia. cbn in H.
      by rewrite (proj2 (Z.leb_le k k)), (proj2 (Z.ltb_lt k _)) in H by lia.
    + split; [|done]. intros _ x Hx. rewrite <- L2 by lia. apply (at_addr_below k top); [by split|lia].
Qed.

Lemma overlapping_some base size k r :
  0 <= base -> 0 < size -> base + size < 2 ^ 64 -> overlapping m base size = Some (k, r) ->
  find m k = Some r /\ k < base + size /\ base < k + r_size r.
Proof using Hm.
  intros Hb Hs He. unfold overlapping. rewrite find_reservation_at. rewrite u64_small by (unfold in_u64; lia).
  destruct (at_addr m base) as [e|] eqn:E.
  { intros [= ->]. pose proof (at_addr_bounds _ _ _ _ _ _ (uw_ivs _ Hm) E) as Hk.
    unfold size_of, reservation_sized in Hk.
    split_and!; [by apply (at_addr_find 0 top m base); [apply Hm|]|lia|lia]. }
  destruct (lower_bound_spec 0 top m base (uw_ivs _ Hm)) as (L1 & L2 & L3).
  { intros k' v. by rewrite E. }
  destruct (lower_bound m base) as [|[k' r'] t]; [done|].
  destruct L1 as (K1 & K2 & K3 & K4). destruct (Z.ltb_spec k' (base + size)); [|done]. intros [= -> ->].
  unfold size_of, reservation_sized in *. split_and!; [apply L3; cbn; by rewrite Z.eqb_refl|lia|lia].
Qed.

End Pure.

(** ** [pick_base] *)

(** How many reservations end above an address. *)
Definition above (m : reservation_map) (c : Z) : nat :=
  length (filter (fun e => c < e.1 + r_size e.2) m).

Lemma above_le m c : (above m c <= length m)%nat.
Proof. apply length_filter. Qed.

Lemma above_lt m k r c c' :
  (k, r) ∈ m -> c < k + r_size r -> k + r_size r <= c' -> c <= c' -> (above m c' < above m c)%nat.
Proof.
  intros Hin Hc Hc' Hle. unfold above.
  assert (forall l, (above l c' <= above l c)%nat) as Hmono.
  { unfold above. induction l as [|[k0 r0] l IH]; [done|]. rewrite !filter_cons. cbn.
    repeat case_decide; cbn; lia. }
  induction m as [|[k0 r0] t IH]; [by apply elem_of_nil in Hin|]. rewrite !filter_cons. cbn.
  apply elem_of_cons in Hin as [[= -> ->]|Hin].
  - rewrite decide_False, decide_True by lia. cbn. specialize (Hmono t). unfold above in Hmono. lia.
  - specialize (IH Hin). repeat case_decide; cbn; lia.
Qed.

Section Pick.
Context {X : Type}.
Context (M : reservation_map) (HM : um_wf M) (size A : Z) (HA : pow2 A) (HA' : A <= 2 ^ 62).
Context (Hsz : 0 < size < 2 ^ 62).

Lemma round_up_mask_eq x : 0 <= x <= top -> round_up_mask x (A - 1) = align_up x A.
Proof using HA HA'.
  intros Hx. unfold round_up_mask, align_up, align_down. do 2 f_equal. lia.
Qed.

(** Some address of a range is taken. *)
Definition taken (a : Z) : Prop := exists x, a <= x < a + size /\ at_addr M x <> None.

Definition picked (c a : Z) (s s' : win_user_mem X) : Prop :=
  reservations_ s' = M /\
  ((a = 0 /\ s' = s /\
    forall b, b mod A = 0 -> c <= b -> b + size <= user_addr_limit -> taken b) \/
   (a mod A = 0 /\ c <= a /\ a + size <= user_addr_limit /\ next_free_ s' = a + size /\ ~ taken a /\
    forall b, b mod A = 0 -> c <= b < a -> taken b)).

Lemma pick_loop_spec fuel c s (E : error -> win_user_mem X -> Prop) :
  reservations_ s = M -> 0 <= c < 2 ^ 63 -> c mod A = 0 -> (above M c < fuel)%nat ->
  wp (pick_loop fuel size (A - 1) c) s (fun a s' => picked c a s s') E.
Proof using HM HA HA' Hsz.
  pose proof (pow2_pos _ HA) as HAp. revert c s. induction fuel as [|fuel IH]; intros c s Hs Hc Hca Hf; [lia|].
  cbn [pick_loop]. rewrite u64_small by (unfold in_u64; lia).
  destruct (Z.leb_spec (c + size) user_addr_limit) as [Hle|Hgt].
  2: { unfold wp, ret. split; [done|]. left. split_and!; [done|done|]. intros b _ ? ?. lia. }
  unfold wp, bind, get. rewrite Hs. destruct (overlapping M c size) as [[k r]|] eqn:E0.
  - destruct (overlapping_some M HM c size k r) as (F & K1 & K2); try done; try lia.
    pose proof (find_bounds _ _ _ _ _ (uw_ivs _ HM) F) as Hb. unfold size_of, reservation_sized, top in Hb.
    rewrite (u64_small (k + r_size r)) by (unfold in_u64; lia). rewrite round_up_mask_eq by (unfold top; lia).
    pose proof (align_up_bounds (k + r_size r) A HA ltac:(lia) ltac:(lia)) as Hu.
    pose proof (align_up_mod (k + r_size r) A HA) as Hum.
    assert (forall b, b mod A = 0 -> c <= b < align_up (k + r_size r) A -> taken b) as Hskip.
    { intros b Hbm Hbc. assert (b < k + r_size r) as Hbk.
      { apply Z.mod_divide in Hbm as [p ->]; [|lia]. apply Z.mod_divide in Hum as [q Hq]; [|lia].
        assert (p < q) by nia. nia. }
      exists (Z.max b k). split; [lia|].
      rewrite (find_at_addr _ _ _ _ _ (Z.max b k) (uw_ivs _ HM) F); [done|].
      unfold size_of, reservation_sized. lia. }
    pose proof (above_lt M k r c (align_up (k + r_size r) A) (find_elem _ _ _ F)).
    specialize (IH (align_up (k + r_size r) A) s Hs ltac:(lia) Hum ltac:(lia)).
    eapply wp_mono; [exact IH| |done]. intros a s' [Er [(Ea & Es & Hn)|(G1 & G2 & G3 & G4 & G5 & G6)]]; (split; [done|]).
    + left. split_and!; [done|done|]. intros b Hb1 Hb2 Hb3.
      destruct (Z.lt_ge_cases b (align_up (k + r_size r) A)); auto with lia.
    + right. split_and!; try done; try lia. intros b Hb1 Hb2.
      destruct (Z.lt_ge_cases b (align_up (k + r_size r) A)); auto with lia.
  - unfold picked. split; [done|]. right. unfold set_next_free, modify. cbn [next_free_].
    split_and!; try done; try lia.
    intros (x & Hx & Hn). apply Hn. clear Hn. revert x Hx. apply (overlapping_none M HM); try done; lia.
Qed.

End Pick.

(** [pick_base] always comes to an end, with the lowest aligned free range above
    [next_free_], or 0 when there is none. *)
Lemma pick_base_spec {X} size al s (E : error -> win_user_mem X -> Prop) :
  um_wf (reservations_ s) -> 0 < size < 2 ^ 62 -> 0 <= next_free_ s < 2 ^ 62 -> pow2 (Z.max al alloc_granularity) ->
  Z.max al alloc_granularity <= 2 ^ 62 ->
  wp (pick_base size al) s (fun a s' =>
    picked (reservations_ s) size (Z.max al alloc_granularity)
      (align_up (next_free_ s) (Z.max al alloc_granularity)) a s s') E.
Proof.
  intros Hwf Hsz Hn HA HA'. unfold pick_base, wp, bind, get. set (A := Z.max al alloc_granularity) in *.
  pose proof (pow2_pos _ HA). pose proof (align_up_bounds (next_free_ s) A HA ltac:(lia) ltac:(lia)).
  replace (round_up_mask (next_free_ s) (A - 1)) with (align_up (next_free_ s) A).
  2: { unfold round_up_mask, align_up, align_down. do 2 f_equal. lia. }
  apply pick_loop_spec; try done; [lia|by apply align_up_mod|].
  pose proof (above_le (reservations_ s) (align_up (next_free_ s) A)). lia.
Qed.

(** ** The range a request covers *)

Definition region_of (base size : Z) : Z := size_align (size +w (base - page_align base)).

Lemma region_ok base size :
  0 <= base -> 0 <= size < 2 ^ 62 ->
  region_of base size mod page_size = 0 /\ 0 <= region_of base size < 2 ^ 62 + 2 * page_size /\
  base + size <= page_align base + region_of base size < base + size + page_size.
Proof.
  intros Hb Hs. destruct (page_align_ok base Hb) as (P1 & P2 & P3). unfold region_of.
  rewrite u64_small by (unfold in_u64; lia).
  destruct (size_align_ok (size + (base - page_align base))) as [Q1 Q2]; [lia|lia|]. unfold page_size. lia.
Qed.

Lemma view_free m x : at_addr m x = None <-> view m x = None.
Proof. unfold view. destruct (at_addr m x) as [[k r]|]; done. Qed.

(** A fresh reservation. *)
Lemma fresh_reservation m k r :
  um_wf m -> res_ok k r -> 0 <= k -> 0 < r_size r -> k + r_size r <= top ->
  (forall x, k <= x < k + r_size r -> view m x = None) ->
  um_wf (insert k r m) /\ find (insert k r m) k = Some r /\
  forall x, view (insert k r m) x =
    if in_range k (k + r_size r) x then Some (k, prot_at (committed r) x) else view m x.
Proof.
  intros Hm Hr H0 H1 H2 Hn. destruct (insert_new 0 top m k r) as [I A]; [apply Hm|done|done|done| |].
  { intros x Hx. apply view_free. by apply Hn. }
  split_and!; [split; [done|]|apply find_insert_eq|].
  - intros k' r' Hf. destruct (decide (k' = k)) as [->|].
    + rewrite find_insert_eq in Hf. by simplify_eq.
    + rewrite find_insert_ne in Hf by done. by apply Hm.
  - intros x. unfold view. rewrite A. change (size_of r) with (r_size r). unfold in_range.
    by destruct ((k <=? x) && (x <? k + r_size r)).
Qed.

Section Operations.
Context {X : Type} {um : UserMmu X}.
Implicit Types (x : Z).

Abbreviation at_view s a := (view (reservations_ s) a).

(** What a commit or a reserve of [b .. b+n) leaves behind: a reservation of its
    own where there was none, or a commit inside one. *)
Definition allocated (kind prot b n : Z) (s s' : win_user_mem X) : Prop :=
  exists k,
    ((k = b /\ forall x, b <= x < b + n -> at_view s x = None) \/
     (has kind mem_reserve = false /\
      exists r, find (reservations_ s) k = Some r /\ k <= b /\ b + n <= k + r_size r)) /\
    forall x, at_view s' x =
      if in_range b (b + n) x then Some (k, if has kind mem_commit then Some prot else None) else at_view s x.

Section Alloc.
Context (s0 : win_user_mem X) (Hs0 : um_wf (reservations_ s0)).
Context (E : error -> win_user_mem X -> Prop) (HE : forall e s, um_wf (reservations_ s) -> E e s).

(** The tail of [allocate]: a reservation of its own. *)
Lemma reserve_spec target region kind prot s :
  reservations_ s = reservations_ s0 ->
  0 < target -> target mod page_size = 0 -> 0 < region -> region mod page_size = 0 ->
  target + region <= user_addr_limit ->
  (forall x, target <= x < target + region -> at_view s0 x = None) ->
  wp (set_reservations (insert target (Reservation region prot mem_private [])) ;;
      (if has kind mem_commit then
         commit_pages target region prot ;;
         on_committed target (insert target (Committed region prot))
       else ret tt) ;;
      ret (STATUS_SUCCESS, target, region)) s
    (fun r s' => um_wf (reservations_ s') /\ r = (STATUS_SUCCESS, target, region) /\
       allocated kind prot target region s0 s') E.
Proof using Hs0 HE.
  intros Es Ht Htp Hr Hrp Hl Hfree.
  set (r := Reservation region prot mem_private []).
  assert (target + region <= top) as Htop by (unfold user_addr_limit, top in *; lia).
  assert (cwf target (target + region) []) as Hnil by (split; [cbn; lia|constructor]).
  destruct (fresh_reservation (reservations_ s0) target r) as (W1 & F1 & V1); try done; [lia|].
  apply wp_bind. unfold wp at 1, set_reservations, modify. set (s1 := UserMem _ _ _ _).
  assert (reservations_ s1 = insert target r (reservations_ s0)) as E1 by (unfold s1; cbn; by rewrite Es).
  clearbody s1. destruct (has kind mem_commit) eqn:Hc.
  2: { split_and!; [by rewrite E1|done|]. exists target. rewrite Hc. split.
       - by left.
       - intros x. rewrite E1. apply V1. }
  apply wp_bind, wp_bind.
  assert (focus (insert target r (reservations_ s0)) target r [] s1) as Hs1.
  { unfold focus. rewrite E1. unfold with_committed. by rewrite insert_insert. }
  eapply (wp_focus_keeps _ target r W1 F1 E HE []); [apply keeps_commit_pages|exact Hs1|done|].
  intros _ s2 Hs2. eapply wp_on_committed; [exact Hs2|]. intros s3 Hs3.
  destruct (cwf_fill target (target + region) [] target region prot Hnil) as [C A]; try done; try lia.
  split_and!; [by eapply focus_wf|done|]. exists target. rewrite Hc. split; [by left|].
  intros x. unfold focus in Hs3. rewrite Hs3, (view_with _ _ _ W1 F1), V1. cbn [r_size r].
  destruct (in_range target (target + region) x) eqn:Hi; [|done]. unfold prot_at. by rewrite A, Hi.
Qed.

End Alloc.

(** *** [next_free_] *)

(** Only [pick_base] moves [next_free_]. *)
Definition keeps_next {A} (f : st (win_user_mem X) A) : Prop := forall s, next_free_ (f s).2 = next_free_ s.

Lemma keeps_keeps_next {A} (f : st (win_user_mem X) A) : keeps f -> keeps_next f.
Proof. intros H s. apply H. Qed.
Lemma keeps_next_bind {A B} (m : st _ A) (f : A -> st _ B) :
  keeps_next m -> (forall a, keeps_next (f a)) -> keeps_next (bind m f).
Proof.
  intros Hm Hk s. specialize (Hm s). unfold bind. destruct (m s) as [[a|e] s'] eqn:E; cbn in *; [|done].
  rewrite Hk. done.
Qed.
Lemma keeps_next_ret {A} (a : A) : keeps_next (ret a).
Proof. done. Qed.
Lemma keeps_next_on_committed k f : keeps_next (on_committed k f).
Proof. done. Qed.
Lemma keeps_next_get_committed k : keeps_next (get_committed k).
Proof. done. Qed.
Lemma keeps_next_set_reservations f : keeps_next (set_reservations f).
Proof. done. Qed.
#[local] Hint Resolve keeps_next_bind keeps_next_ret keeps_next_on_committed keeps_next_get_committed
  keeps_next_set_reservations : core.

Lemma keeps_next_commit_pages base size prot : keeps_next (commit_pages base size prot).
Proof. apply keeps_keeps_next, keeps_commit_pages. Qed.
Lemma keeps_next_apply_prot base size p q : keeps_next (apply_prot base size p q).
Proof. apply keeps_keeps_next, keeps_apply_prot. Qed.
#[local] Hint Resolve keeps_next_commit_pages keeps_next_apply_prot : core.

Lemma keeps_next_commit_loop res base prot es c : keeps_next (commit_loop res base prot es c).
Proof.
  revert c. induction es as [|[k r] es IH]; intros c; cbn [commit_loop]; [done|].
  apply keeps_next_bind; [case_match; auto|]. auto.
Qed.

Lemma keeps_next_commit_into res base size prot n : keeps_next (commit_into res base size prot n).
Proof.
  unfold commit_into. case_match; [done|].
  repeat (apply keeps_next_bind; [auto using keeps_next_commit_loop|intros ?]); [|done].
  case_match; auto.
Qed.

Lemma wp_with {A} (m : st (win_user_mem X) A) s Q E :
  keeps_next m -> wp m s Q E ->
  wp m s (fun a s' => Q a s' /\ next_free_ s' = next_free_ s) (fun e s' => E e s' /\ next_free_ s' = next_free_ s).
Proof. intros Hk. specialize (Hk s). unfold wp. destruct (m s) as [[a|e] s']; done. Qed.

(** The invariant of the object. *)
Definition um_ok (s : win_user_mem X) : Prop := um_wf (reservations_ s) /\ 0 <= next_free_ s < 2 ^ 62.

(** *** [allocate] *)

Definition alloc_post (kind prot al base size : Z) (s : win_user_mem X)
    (r : ntstatus * Z * Z) (s' : win_user_mem X) : Prop :=
  let '(st, b, n) := r in
  um_ok s' /\
  match st with
  | STATUS_SUCCESS =>
      b mod page_size = 0 /\ 0 < n /\ n mod page_size = 0 /\ size <= n /\
      (base = 0 -> 0 < b /\ b mod Z.max al alloc_granularity = 0) /\
      (base <> 0 -> has kind mem_reserve = false -> b <= base /\ base + size <= b + n) /\
      allocated kind prot b n s s'
  | _ => (b, n) = (base, size) /\ reservations_ s' = reservations_ s
  end.

Ltac refused := cbn [orb andb negb]; unfold wp, ret; split; done.

Lemma allocate_existing s base size kind prot al k r E :
  um_ok s -> (forall e s', um_ok s' -> E e s') ->
  0 < base < 2 ^ 63 -> 0 <= size < 2 ^ 61 -> 0 < region_of base size ->
  has kind mem_reserve = false -> has kind mem_commit = true ->
  at_addr (reservations_ s) (page_align base) = Some (k, r) ->
  wp (let! status := commit_into k (page_align base) (region_of base size) prot (r_size r) in
      match status with
      | STATUS_SUCCESS => ret (status, page_align base, region_of base size)
      | _ => ret (status, base, size)
      end) s (alloc_post kind prot al base size s) E.
Proof.
  intros [W N] HE Hb Hsz Hr Hnr Hc Hat.
  destruct (region_ok base size ltac:(lia) ltac:(lia)) as (R1 & R2 & R3).
  destruct (page_align_ok base ltac:(lia)) as (P1 & P2 & P3). unfold page_size in R2, R3.
  pose proof (at_addr_find _ _ _ _ _ _ (uw_ivs _ W) Hat) as Hf.
  pose proof (at_addr_bounds _ _ _ _ _ _ (uw_ivs _ W) Hat) as Hbd. unfold size_of, reservation_sized in Hbd.
  apply wp_bind. eapply wp_mono; [apply wp_with; [apply keeps_next_commit_into|]| |].
  - apply (commit_into_spec (reservations_ s) k r W Hf (fun _ s' => um_wf (reservations_ s')) ltac:(done) (committed r));
      try done; try lia; [symmetry; by apply with_self|apply (uw_res _ W k r Hf)].
  - intros st s' [[(-> & Hgt & Hfo)|(-> & Hle & m' & Hfo & Hm' & _ & Hp)] Hn]; unfold focus in Hfo.
    + rewrite (with_self _ k r W Hf) in Hfo. split; [split; [by rewrite Hfo|by rewrite Hn]|done].
    + split; [split; [by eapply focus_wf|by rewrite Hn]|].
      split_and!; try done; try lia. exists k. rewrite Hc. split.
      * right. split; [done|]. exists r. split_and!; [done|lia|lia].
      * intros x. rewrite Hfo, (view_with _ _ _ W Hf), Hp. unfold view.
        destruct (in_range k (k + r_size r) x) eqn:Hx.
        -- apply in_range_true in Hx. rewrite (find_at_addr _ _ _ _ _ x (uw_ivs _ W) Hf) by done. by case_match.
        -- apply in_range_false in Hx. by rewrite (proj2 (in_range_false _ _ x)) by lia.
  - intros e s' [We Hn]. apply HE. split; [done|by rewrite Hn].
Qed.

Lemma allocate_fresh s s1 base size kind prot al target E :
  um_ok s -> (forall e s', um_ok s' -> E e s') -> reservations_ s1 = reservations_ s -> 0 <= next_free_ s1 < 2 ^ 62 ->
  0 <= base < 2 ^ 63 -> 0 <= size < 2 ^ 61 -> 0 < region_of base size ->
  0 <= target < 2 ^ 63 -> target mod page_size = 0 ->
  (base = 0 -> target <> 0 -> target mod Z.max al alloc_granularity = 0) ->
  (base <> 0 -> has kind mem_reserve = false -> target = page_align base) ->
  wp (if (target =? 0) || (user_addr_limit <? target +w region_of base size)
      then ret (STATUS_NO_MEMORY, base, size) else
      let! s := get in
      match overlapping (reservations_ s) target (region_of base size) with
      | Some _ => ret (STATUS_CONFLICTING_ADDRESSES, base, size)
      | None =>
          set_reservations (insert target (Reservation (region_of base size) prot mem_private [])) ;;
          (if has kind mem_commit then
             commit_pages target (region_of base size) prot ;;
             on_committed target (insert target (Committed (region_of base size) prot))
           else ret tt) ;;
          ret (STATUS_SUCCESS, target, region_of base size)
      end) s1 (alloc_post kind prot al base size s) E.
Proof.
  intros [W N] HE Es1 N1 Hb Hsz Hr Ht Htp Ha Hcov.
  destruct (region_ok base size ltac:(lia) ltac:(lia)) as (R1 & R2 & R3).
  destruct (page_align_ok base ltac:(lia)) as (P1 & P2 & P3). unfold page_size in R2, R3.
  rewrite u64_small by (unfold in_u64; lia).
  assert (um_ok s1) as W1 by (split; [by rewrite Es1|done]).
  destruct (Z.eqb_spec target 0) as [->|Ht0]; [refused|].
  destruct (Z.ltb_spec user_addr_limit (target + region_of base size)) as [|Hl]; [refused|].
  cbn [orb]. unfold wp at 1, get, bind at 1. fold (@bind (win_user_mem X) unit (ntstatus * Z * Z)).
  destruct (overlapping (reservations_ s1) target (region_of base size)) eqn:Eo; [refused|].
  rewrite Es1 in Eo. eapply wp_mono.
  - eapply wp_with; [apply keeps_next_bind; [done|intros _]; apply keeps_next_bind; [case_match; auto|done]|].
    apply (reserve_spec s W (fun _ s' => um_wf (reservations_ s')) ltac:(done)); try done; try lia.
    intros x Hx. apply view_free. revert x Hx. apply (overlapping_none _ W); try done; lia.
  - intros [[st b] n] s' [(W' & [= -> -> ->] & Hall) Hn].
    split; [split; [done|by rewrite Hn]|]. split_and!; try done; try lia.
    intros Hb0 Hnr. specialize (Hcov Hb0 Hnr). subst target. split; lia.
  - intros e s' [We Hn]. apply HE. split; [done|by rewrite Hn].
Qed.

Lemma allocate_spec s base size kind prot al E :
  um_ok s -> (forall e s', um_ok s' -> E e s') ->
  0 <= base < 2 ^ 63 -> 0 <= size < 2 ^ 61 ->
  pow2 (Z.max al alloc_granularity) -> Z.max al alloc_granularity <= 2 ^ 62 ->
  wp (allocate base size kind prot al) s (alloc_post kind prot al base size s) E.
Proof.
  intros Hok HE Hb Hsz HA HA'. pose proof Hok as [W N].
  destruct (region_ok base size ltac:(lia) ltac:(lia)) as (R1 & R2 & R3).
  destruct (page_align_ok base ltac:(lia)) as (P1 & P2 & P3). unfold page_size in R2, R3.
  unfold allocate. cbn zeta. fold (region_of base size).
  destruct (Z.eqb_spec (region_of base size) 0) as [|Hr0]; [refused|].
  destruct (negb (has kind mem_reserve) && negb (has kind mem_commit)) eqn:Hk; [refused|].
  unfold wp at 1, get, bind at 1. rewrite (find_reservation_at _ W).
  destruct (has kind mem_commit && negb (has kind mem_reserve) && negb (base =? 0)) eqn:Hex.
  - apply andb_true_iff in Hex as [[Hc Hnr]%andb_true_iff Hb0]. apply negb_true_iff in Hnr, Hb0.
    apply Z.eqb_neq in Hb0. destruct (at_addr (reservations_ s) (page_align base)) as [[k r]|] eqn:Hat.
    { apply (allocate_existing s base size kind prot al k r E); try done; lia. }
    rewrite (proj2 (Z.eqb_neq base 0)), Hnr by done. cbn [negb]. unfold bind at 1, ret at 1.
    apply (allocate_fresh s s base size kind prot al (page_align base) E); try done; lia.
  - apply wp_bind. destruct (Z.eqb_spec base 0) as [->|Hb0]; cbn [negb].
    + eapply wp_mono; [apply (pick_base_spec _ _ _ (fun _ _ => False)); try done; lia| |done].
      intros a s1 [Es Hp]. 
      assert (0 <= next_free_ s1 < 2 ^ 62 /\ 0 <= a < 2 ^ 63 /\ (a <> 0 -> a mod Z.max al alloc_granularity = 0)) as (N1 & Ha & Ham).
      { destruct Hp as [(-> & -> & _)|(G1 & G2 & G3 & G4 & _)]; [split_and!; [lia..|done]|].
        pose proof (align_up_range (next_free_ s) _ HA). unfold user_addr_limit in *. split_and!; [lia..|done]. }
      apply (allocate_fresh s s1); try done; try lia.
      destruct (decide (a = 0)) as [->|Ha0]; [done|]. specialize (Ham Ha0). destruct HA as (q & Hq & Eq).
      rewrite Eq in Ham. apply Z.mod_divide in Ham as [z ->]; [|lia]. apply Z.mod_divide; [done|].
      apply Z.divide_mul_r. unfold page_size. change 0x1000 with (2 ^ 12).
      exists (2 ^ (q - 12)). rewrite <- Z.pow_add_r; [f_equal; lia| |lia].
      assert (2 ^ 16 <= 2 ^ q) as H16 by (rewrite <- Eq; unfold alloc_granularity; lia).
      apply Z.pow_le_mono_r_iff in H16; lia.
    + unfold wp at 1, ret at 1.
      assert (0 <= align_down base alloc_granularity <= base) as Hd.
      { pose proof (align_down_bounds base _ pow2_64k). pose proof (align_down_nonneg base _ pow2_64k ltac:(lia)).
        unfold alloc_granularity. lia. }
      apply (allocate_fresh s s); try done; try lia.
      * case_match; lia.
      * case_match; [|done]. pose proof (align_down_mod base _ pow2_64k) as Hm. unfold alloc_granularity.
        apply Z.mod_divide in Hm as [z ->]; [|lia]. apply Z.mod_divide; [done|]. exists (z * 16). unfold page_size. lia.
      * intros _ Hnr. by rewrite Hnr.
Qed.

(** *** [free] and [protect] *)

(** The view when the committed addresses of [start .. last) in the reservation
    [k] are given what [g] makes of their protection. *)
Definition revised (m : reservation_map) (k start last : Z) (g : option Z -> option Z) x : option (Z * option Z) :=
  match view m x with
  | Some (k', p) => Some (k', if (k' =? k) && in_range start last x then g p else p)
  | None => None
  end.

Lemma revised_focus M k r m' start last g (s' : win_user_mem X) x :
  um_wf M -> find M k = Some r -> focus M k r m' s' ->
  (forall y, prot_at m' y = if in_range start last y then g (prot_at (committed r) y) else prot_at (committed r) y) ->
  at_view s' x = revised M k start last g x.
Proof.
  intros W Hf Hfo Hp. unfold focus in Hfo. rewrite Hfo, (view_with _ _ _ W Hf), Hp. unfold revised, view.
  destruct (in_range k (k + r_size r) x) eqn:Hx.
  - apply in_range_true in Hx. rewrite (find_at_addr _ _ _ _ _ x (uw_ivs _ W) Hf) by done. by rewrite Z.eqb_refl.
  - apply in_range_false in Hx. destruct (at_addr M x) as [[k' r']|] eqn:Hat; [|done].
    destruct (Z.eqb_spec k' k) as [->|]; [|done]. exfalso.
    pose proof (at_addr_find _ _ _ _ _ _ (uw_ivs _ W) Hat) as Hf'. rewrite Hf in Hf'. simplify_eq.
    apply Hx. pose proof (at_addr_bounds _ _ _ _ _ _ (uw_ivs _ W) Hat) as Hbd.
    unfold size_of, reservation_sized in Hbd. lia.
Qed.

Section Sweeps.
Context (s0 : win_user_mem X) (W : um_wf (reservations_ s0)) (k : Z) (r : reservation).
Context (Hf : find (reservations_ s0) k = Some r).
Context (E : error -> win_user_mem X -> Prop) (HE : forall e s, um_wf (reservations_ s) -> E e s).
Context (start last : Z) (Hs : start mod page_size = 0) (Hl : last mod page_size = 0) (Hle : start <= last).

(** The two cuts, the loop, and what follows. *)
Lemma wp_sweep {A} g update loop (pages : Z -> committed_region -> st (win_user_mem X) unit) (K : st (win_user_mem X) A) Q :
  g None = None ->
  (forall m k' r', cwf k (k + r_size r) m -> find m k' = Some r' ->
    cwf k (k + r_size r) (update k' r' m) /\
    (forall k0, k0 <> k' -> find (update k' r' m) k0 = find m k0) /\
    forall x, (in_range k' (k' + c_size r') x = false -> at_addr (update k' r' m) x = at_addr m x) /\
      (in_range k' (k' + c_size r') x = true -> prot_at (update k' r' m) x = g (Some (c_prot r')))) ->
  (forall k' r', keeps (pages k' r')) -> loop [] = ret tt ->
  (forall k' r' es, loop ((k', r') :: es) = (pages k' r' ;; on_committed k (update k' r') ;; loop es)) ->
  (forall m' s', focus (reservations_ s0) k r m' s' -> cwf k (k + r_size r) m' ->
    (forall y, prot_at m' y = if in_range start last y then g (prot_at (committed r) y) else prot_at (committed r) y) ->
    wp K s' Q E) ->
  wp (on_committed k (fun m => split_at m start) ;; on_committed k (fun m => split_at m last) ;;
      let! m := get_committed k in loop (between m start last) ;; K) s0 Q E.
Proof using W Hf HE Hs Hl Hle.
  intros Hg Hupd Hpg Hnil Hcons HK.
  assert (focus (reservations_ s0) k r (committed r) s0) as Hfo by (symmetry; by apply with_self).
  pose proof (ro_committed _ _ (uw_res _ W k r Hf)) as Hcw.
  apply wp_assoc, wp_bind. eapply (wp_splits _ k r W Hf); [exact Hfo|done|done|done|done|].
  intros m1 s1 Hs1 Hm1 C1 C2 Hp1. apply wp_bind. eapply wp_get_committed; [exact Hs1|].
  apply wp_bind. eapply wp_mono with (E := E); [| |done].
  - apply (sweep_spec _ k r W Hf E HE (committed r) start last g Hg update Hupd loop pages Hpg Hnil Hcons _ start m1 s1 Hs1).
    by apply sweeping_start.
  - intros _ s2 (m2 & Hs2 & Hm2 & Hp2). exact (HK m2 s2 Hs2 Hm2 Hp2).
Qed.

Lemma decommit_update m k' r' :
  cwf k (k + r_size r) m -> find m k' = Some r' ->
  cwf k (k + r_size r) (erase k' m) /\
  (forall k0, k0 <> k' -> find (erase k' m) k0 = find m k0) /\
  forall x, (in_range k' (k' + c_size r') x = false -> at_addr (erase k' m) x = at_addr m x) /\
    (in_range k' (k' + c_size r') x = true -> prot_at (erase k' m) x = None).
Proof using Type.
  intros Hm Hf'. destruct (cwf_erase _ _ _ _ _ Hm Hf') as [C A]. split_and!; [done|intros; by apply find_erase_ne|].
  intros x. unfold prot_at. rewrite A. split; intros ->; done.
Qed.

Lemma protect_update p m k' r' :
  cwf k (k + r_size r) m -> find m k' = Some r' ->
  cwf k (k + r_size r) (insert k' (Committed (c_size r') p) m) /\
  (forall k0, k0 <> k' -> find (insert k' (Committed (c_size r') p) m) k0 = find m k0) /\
  forall x, (in_range k' (k' + c_size r') x = false -> at_addr (insert k' (Committed (c_size r') p) m) x = at_addr m x) /\
    (in_range k' (k' + c_size r') x = true -> prot_at (insert k' (Committed (c_size r') p) m) x = Some p).
Proof using Type.
  intros Hm Hf'. destruct (cwf_set _ _ _ _ _ p Hm Hf') as [C A]. split_and!; [done|intros; by apply find_insert_ne|].
  intros x. unfold prot_at. rewrite A. split; intros ->; done.
Qed.

End Sweeps.

Definition free_post (base size kind : Z) (s : win_user_mem X)
    (res : ntstatus * Z * Z) (s' : win_user_mem X) : Prop :=
  let '(st, b, n) := res in
  um_wf (reservations_ s') /\
  match st with
  | STATUS_SUCCESS => b = page_align base /\ exists k r, at_addr (reservations_ s) b = Some (k, r) /\
      if has kind mem_release
      then size = 0 /\ k = b /\ r_type r = mem_private /\ n = r_size r /\
           forall x, at_view s' x = if in_range b (b + n) x then None else at_view s x
      else has kind mem_decommit = true /\
           n = (if region_of base size =? 0 then r_size r else region_of base size) /\
           forall x, at_view s' x = revised (reservations_ s) k b (b + n) (fun _ => None) x
  | _ => (b, n) = (base, size) /\ reservations_ s' = reservations_ s
  end.

Lemma release_view m k r x :
  um_wf m -> find m k = Some r ->
  um_wf (erase k m) /\ view (erase k m) x = if in_range k (k + r_size r) x then None else view m x.
Proof.
  intros W Hf. split.
  - split; [by apply ivs_erase, W|]. intros k' r' Hf'. destruct (decide (k' = k)) as [->|Hne].
    + exfalso. pose proof (find_at_addr _ _ _ _ _ k (ivs_erase _ _ _ k (uw_ivs _ W)) Hf') as Hat.
      pose proof (find_bounds _ _ _ _ _ (ivs_erase _ _ _ k (uw_ivs _ W)) Hf').
      rewrite (at_addr_erase 0 top) in Hat by apply W. specialize (Hat ltac:(lia)).
      unfold not_in in Hat. destruct (at_addr m k) as [[k0 r0]|]; [|done].
      destruct (Z.eqb_spec k0 k); by simplify_eq.
    + rewrite find_erase_ne in Hf' by done. by apply W.
  - unfold view. rewrite (at_addr_erase 0 top) by apply W. destruct (in_range k (k + r_size r) x) eqn:Hx.
    + apply in_range_true in Hx. rewrite (find_at_addr _ _ _ _ _ x (uw_ivs _ W) Hf) by done. cbn. by rewrite Z.eqb_refl.
    + apply in_range_false in Hx. destruct (at_addr m x) as [[k' r']|] eqn:Hat; [|done]. cbn.
      destruct (Z.eqb_spec k' k) as [->|]; [|done]. exfalso. apply Hx.
      pose proof (at_addr_find _ _ _ _ _ _ (uw_ivs _ W) Hat) as Hf'. rewrite Hf in Hf'. simplify_eq.
      pose proof (at_addr_bounds _ _ _ _ _ _ (uw_ivs _ W) Hat) as Hbd. unfold size_of, reservation_sized in Hbd. lia.
Qed.

Lemma free_spec s base size kind E :
  um_wf (reservations_ s) -> (forall e s', um_wf (reservations_ s') -> E e s') ->
  0 <= base < 2 ^ 63 -> 0 <= size < 2 ^ 61 ->
  wp (free base size kind) s (free_post base size kind s) E.
Proof.
  intros W HE Hb Hsz.
  destruct (region_ok base size ltac:(lia) ltac:(lia)) as (R1 & R2 & R3).
  destruct (page_align_ok base ltac:(lia)) as (P1 & P2 & P3). unfold page_size in R2, R3.
  unfold free. cbn zeta. fold (region_of base size). unfold wp at 1, get, bind at 1. rewrite (find_reservation_at _ W).
  destruct (at_addr (reservations_ s) (page_align base)) as [[k r]|] eqn:Hat.
  2: { destruct (has kind mem_release), (size =? 0), (has kind mem_decommit); refused. }
  pose proof (at_addr_find _ _ _ _ _ _ (uw_ivs _ W) Hat) as Hf.
  pose proof (at_addr_bounds _ _ _ _ _ _ (uw_ivs _ W) Hat) as Hbd. unfold size_of, reservation_sized, top in Hbd.
  destruct (has kind mem_release) eqn:Hrel.
  - destruct (Z.eqb_spec size 0) as [->|]; [|refused]. destruct (Z.eqb_spec k (page_align base)) as [->|]; [|refused].
    destruct (Z.eqb_spec (r_type r) mem_private) as [Hpr|]; [|refused]. cbn [negb].
    apply wp_bind. apply wp_keeps; [apply keeps_release_loop| |by intros e s' He; apply HE; rewrite He].
    intros _ s1 Es1 _. unfold wp, set_reservations, modify, bind, ret. unfold free_post. cbn [reservations_].
    rewrite Es1. split; [by apply (release_view _ _ _ 0 W Hf)|]. split; [done|]. exists (page_align base), r.
    rewrite Hrel. split_and!; try done. intros x. by apply release_view.
  - destruct (has kind mem_decommit) eqn:Hdec; [|refused]. cbn [negb].
    destruct ((region_of base size =? 0) && negb (k =? page_align base)) eqn:Hz; [refused|].
    set (n := if region_of base size =? 0 then r_size r else region_of base size).
    assert (0 <= n /\ n mod page_size = 0 /\ n < 2 ^ 63) as (Hn0 & Hnp & Hnb).
    { unfold n. destruct (Z.eqb_spec (region_of base size) 0); [|split_and!; [lia|done|lia]].
      split_and!; [lia|apply (uw_res _ W k r Hf)|lia]. }
    rewrite u64_small by (unfold in_u64; lia).
    apply (wp_sweep s W k r Hf E HE (page_align base) (page_align base + n) P3 (page_add _ _ P3 Hnp) ltac:(lia)
      (fun _ => None) (fun k' _ => erase k') _ (fun k' r' => release_pages k' (c_size r'))); try done.
    + apply decommit_update.
    + intros; apply keeps_release_pages.
    + intros m' s' Hfo Hm' Hp. unfold wp, ret, free_post. split; [by eapply focus_wf|].
      split; [done|]. exists k, r. rewrite Hrel. split_and!; try done. intros x. by eapply revised_focus.
Qed.

(** What [protect] makes of a protection: an address that is not committed stays so. *)
Definition reprotect (new : Z) (p : option Z) : option Z := (fun _ => new) <$> p.

Definition protect_post (base size new : Z) (s : win_user_mem X)
    (res : ntstatus * Z * Z * Z) (s' : win_user_mem X) : Prop :=
  um_wf (reservations_ s') /\
  let start := page_align base in
  let region := region_of base size in
  match view (reservations_ s) start with
  | Some (k, Some old) =>
      res = (STATUS_SUCCESS, start, region, old) /\
      forall x, at_view s' x = revised (reservations_ s) k start (start + region) (reprotect new) x
  | Some (k, None) =>
      (exists r, find (reservations_ s) k = Some r /\ res = (STATUS_SUCCESS, start, region, initial_prot r)) /\ s' = s
  | None => res = (STATUS_SUCCESS, start, region, page_readwrite) /\ reservations_ s' = reservations_ s
  end.

Lemma protect_spec s base size new E :
  um_wf (reservations_ s) -> (forall e s', um_wf (reservations_ s') -> E e s') ->
  0 <= base < 2 ^ 63 -> 0 <= size < 2 ^ 61 ->
  wp (protect base size new) s (protect_post base size new s) E.
Proof.
  intros W HE Hb Hsz.
  destruct (region_ok base size ltac:(lia) ltac:(lia)) as (R1 & R2 & R3).
  destruct (page_align_ok base ltac:(lia)) as (P1 & P2 & P3). unfold page_size in R2, R3.
  unfold protect. cbn zeta. fold (region_of base size). unfold wp at 1, get, bind at 1.
  rewrite (find_reservation_at _ W). unfold protect_post, view at 1. cbn zeta.
  destruct (at_addr (reservations_ s) (page_align base)) as [[k r]|] eqn:Hat.
  2: { apply wp_bind, wp_keeps; [apply keeps_on_mm| |by intros e s' He; apply HE; rewrite He].
       intros _ s1 Es1 _. unfold wp, ret. by rewrite Es1. }
  pose proof (at_addr_find _ _ _ _ _ _ (uw_ivs _ W) Hat) as Hf.
  pose proof (at_addr_bounds _ _ _ _ _ _ (uw_ivs _ W) Hat) as Hbd. unfold size_of, reservation_sized, top in Hbd.
  pose proof (ro_committed _ _ (uw_res _ W k r Hf)) as Hcw.
  unfold find_committed. rewrite (find_in_at k (k + r_size r)) by (apply Hcw || lia).
  unfold prot_at at 1. destruct (at_addr (committed r) (page_align base)) as [[c sub]|] eqn:Hc; cbn [fmap option_fmap option_map].
  2: { unfold wp, ret. eauto. }
  rewrite u64_small by (unfold in_u64; lia).
  apply (wp_sweep s W k r Hf E HE (page_align base) (page_align base + region_of base size) P3 (page_add _ _ P3 R1) ltac:(lia)
      (reprotect new) (fun k' r' => insert k' (Committed (c_size r') new)) _
      (fun k' r' => apply_prot k' (c_size r') (c_prot r') new)); try done.
  - apply protect_update.
  - intros; apply keeps_apply_prot.
  - intros m' s' Hfo Hm' Hp. apply wp_bind. eapply wp_on_committed; [exact Hfo|]. intros s2 Hs2.
    destruct (merge_spec k (k + r_size r) m') as (_ & Mp & _); [lia|lia|apply Hm'|].
    split; [eapply focus_wf; [done..|]; apply cwf_merge; [lia|lia|done]|]. split; [done|].
    intros x. eapply revised_focus; [done|done|exact Hs2|]. intros y. by rewrite Mp.
Qed.

(** *** [handle_fault] *)

(** The protection a fault leaves its page with, when the fault is handled. *)
Definition fault_prot (m : reservation_map) (page : Z) : option Z :=
  match at_addr m page with
  | None => None
  | Some (_, r) =>
      match prot_at (committed r) page with
      | None => if is_resident (initial_prot r) then Some (initial_prot r) else None
      | Some p => if has p page_guard then Some (Z.land p (Z.lnot page_guard)) else None
      end
  end.

Definition fault_post (addr : Z) (s : win_user_mem X) (handled : bool) (s' : win_user_mem X) : Prop :=
  um_wf (reservations_ s') /\
  let page := page_align addr in
  match fault_prot (reservations_ s) page with
  | None => handled = false /\ s' = s
  | Some p => handled = true /\ exists k old, view (reservations_ s) page = Some (k, old) /\
      forall x, at_view s' x = if in_range page (page + page_size) x then Some (k, Some p) else at_view s x
  end.

(** The addresses of a page are in the same region. *)
Lemma page_mult_le a b x :
  a mod page_size = 0 -> b mod page_size = 0 -> a <= x < a + page_size ->
  (b <= x <-> b <= a) /\ (x < b <-> a < b).
Proof.
  unfold page_size. intros Ha Hb Hx. apply Z.mod_divide in Ha as [p ->]; [|lia].
  apply Z.mod_divide in Hb as [q ->]; [|lia]. split; split; lia.
Qed.

Lemma at_addr_page {V} `{!Sized V} lo hi (m : list (Z * V)) a x :
  ivs lo hi m -> paged m -> a mod page_size = 0 -> a <= x < a + page_size -> at_addr m x = at_addr m a.
Proof.
  intros Hm Hp Ha Hx. induction Hp as [|[k v] t [Pk Pv] Ht IH] in lo, Hm |- *; [done|]. cbn in Hm |- *.
  destruct Hm as (H1 & H2 & H3 & H4). destruct (page_mult_le a k x Ha Pk Hx) as [A1 _].
  destruct (page_mult_le a (k + size_of v) x Ha (page_add _ _ Pk Pv) Hx) as [_ A2].
  rewrite (IH _ H4).
  destruct (Z.leb_spec k x), (Z.leb_spec k a), (Z.ltb_spec x (k + size_of v)), (Z.ltb_spec a (k + size_of v)); try done; lia.
Qed.

Lemma um_paged m : um_wf m -> paged m.
Proof.
  intros W. unfold paged. pose proof (uw_ivs _ W) as Hi. pose proof (uw_res _ W) as Hr. clear W.
  assert (forall k r, find m k = Some r -> k mod page_size = 0 /\ size_of r mod page_size = 0) as H.
  { intros k r Hf. destruct (Hr k r Hf). done. }
  clear Hr. revert Hi H. generalize 0 at 1. induction m as [|[k r] t IH]; intros lo Hi H; [constructor|].
  cbn in Hi. destruct Hi as (I1 & I2 & I3 & I4). constructor.
  - apply H. cbn. by rewrite Z.eqb_refl.
  - apply (IH _ I4). intros k' r' Hf. apply H. cbn. pose proof (find_bounds _ _ _ _ _ I4 Hf).
    by rewrite (proj2 (Z.eqb_neq k' k)) by lia.
Qed.

Lemma page_in_reservation m a k r x :
  um_wf m -> at_addr m a = Some (k, r) -> a mod page_size = 0 -> a <= x < a + page_size ->
  in_range k (k + r_size r) x = true.
Proof.
  intros W Hat Ha Hx. rewrite <- (at_addr_page 0 top m a x) in Hat by (done || apply W || by apply um_paged).
  pose proof (at_addr_bounds _ _ _ _ _ _ (uw_ivs _ W) Hat) as Hb. unfold size_of, reservation_sized in Hb.
  apply in_range_true. lia.
Qed.

(** A region cut at both ends of a page is the page. *)
Lemma cut_page lo hi m a c r :
  cwf lo hi m -> a mod page_size = 0 -> cut m a -> cut m (a + page_size) -> at_addr m a = Some (c, r) ->
  find m a = Some r /\ c_size r = page_size.
Proof.
  intros [Hm Hp] Ha C1 C2 Hat. pose proof (C1 _ _ Hat). subst c.
  pose proof (at_addr_find _ _ _ _ _ _ Hm Hat) as Hf. split; [done|].
  pose proof (find_bounds _ _ _ _ _ Hm Hf) as Hb. destruct (paged_find _ _ _ Hp Hf) as [_ Hs].
  unfold size_of, committed_sized in *. destruct (Z.lt_trichotomy (c_size r) page_size) as [Hlt|[|Hgt]]; [|done|].
  - rewrite Z.mod_small in Hs; lia.
  - pose proof (find_at_addr _ _ _ _ _ (a + page_size) Hm Hf) as Hx. unfold size_of, committed_sized in Hx.
    unfold page_size in *. specialize (Hx ltac:(lia)). apply C2 in Hx. lia.
Qed.

(** Once the regions of [k] give the page the protection [p] and the rest what
    they had, the fault is answered. *)
Lemma fault_focus (s s' : win_user_mem X) k r m' addr p :
  um_wf (reservations_ s) -> 0 <= addr -> at_addr (reservations_ s) (page_align addr) = Some (k, r) ->
  focus (reservations_ s) k r m' s' ->
  (forall y, prot_at m' y = if in_range (page_align addr) (page_align addr + page_size) y then Some p
                            else prot_at (committed r) y) ->
  exists k old, view (reservations_ s) (page_align addr) = Some (k, old) /\
    forall x, at_view s' x = if in_range (page_align addr) (page_align addr + page_size) x
                             then Some (k, Some p) else at_view s x.
Proof.
  intros W Ha Hat Hfo Hp. destruct (page_align_ok addr Ha) as (P1 & P2 & P3).
  pose proof (at_addr_find _ _ _ _ _ _ (uw_ivs _ W) Hat) as Hf.
  exists k, (prot_at (committed r) (page_align addr)). split; [unfold view; by rewrite Hat|].
  intros x. unfold focus in Hfo. rewrite Hfo, (view_with _ _ _ W Hf), Hp.
  destruct (in_range (page_align addr) (page_align addr + page_size) x) eqn:Hx.
  - apply in_range_true in Hx. by rewrite (page_in_reservation _ _ _ _ x W Hat P3 Hx).
  - destruct (in_range k (k + r_size r) x) eqn:Hy; [|done]. apply in_range_true in Hy. unfold view.
    by rewrite (find_at_addr _ _ _ _ _ x (uw_ivs _ W) Hf) by done.
Qed.

Lemma handle_fault_spec s addr E :
  um_wf (reservations_ s) -> (forall e s', um_wf (reservations_ s') -> E e s') -> 0 <= addr ->
  wp (handle_fault addr) s (fault_post addr s) E.
Proof.
  intros W HE Hb. destruct (page_align_ok addr Hb) as (P1 & P2 & P3). unfold handle_fault. cbn zeta.
  unfold wp at 1, get, bind at 1. rewrite (find_reservation_at _ W). unfold fault_post, fault_prot. cbn zeta.
  destruct (at_addr (reservations_ s) (page_align addr)) as [[k r]|] eqn:Hat; [|by split].
  pose proof (at_addr_find _ _ _ _ _ _ (uw_ivs _ W) Hat) as Hf.
  pose proof (at_addr_bounds _ _ _ _ _ _ (uw_ivs _ W) Hat) as Hbd. unfold size_of, reservation_sized, top in Hbd.
  pose proof (ro_committed _ _ (uw_res _ W k r Hf)) as Hcw.
  assert (focus (reservations_ s) k r (committed r) s) as Hfo by (symmetry; by apply with_self).
  unfold find_committed. rewrite (find_in_at k (k + r_size r)) by (apply Hcw || lia).
  assert (page_align addr + page_size <= k + r_size r) as Hend.
  { pose proof (page_in_reservation _ _ _ _ (page_align addr + page_size - 1) W Hat P3 ltac:(unfold page_size; lia)) as Hx.
    apply in_range_true in Hx. lia. }
  unfold prot_at at 1. destruct (at_addr (committed r) (page_align addr)) as [[c sub]|] eqn:Hc; cbn [fmap option_fmap option_map snd].
  - destruct (has (c_prot sub) page_guard) eqn:Hg; [|by split]. cbn [negb].
    rewrite u64_small by (unfold in_u64, page_size in *; lia).
    apply wp_assoc, wp_bind. eapply (wp_splits _ k r W Hf); [exact Hfo|done|done|by apply page_add|unfold page_size; lia|].
    intros m1 s1 Hs1 Hm1 C1 C2 Hp1. apply wp_bind. eapply wp_get_committed; [exact Hs1|].
    pose proof (Hp1 (page_align addr)) as Hpp. unfold prot_at in Hpp. rewrite Hc in Hpp. cbn in Hpp.
    destruct (at_addr m1 (page_align addr)) as [[c1 r1]|] eqn:Hc1; [|done].
    destruct (cut_page _ _ _ _ _ _ Hm1 P3 C1 C2 Hc1) as [Hf1 Hsz1]. rewrite Hf1. cbn in Hpp.
    assert (c_prot r1 = c_prot sub) as Hpr by congruence. rewrite Hpr.
    set (p := Z.land (c_prot sub) (Z.lnot page_guard)).
    destruct (cwf_set _ _ _ _ _ p Hm1 Hf1) as [Hm2 A2]. rewrite Hsz1 in *.
    apply wp_bind. eapply wp_on_committed; [exact Hs1|]. intros s2 Hs2.
    apply wp_bind. eapply (wp_focus_keeps _ k r W Hf E HE); [apply keeps_map_pages|exact Hs2|done|]. intros _ s3 Hs3.
    apply wp_bind. eapply wp_on_committed; [exact Hs3|]. intros s4 Hs4.
    destruct (merge_spec k (k + r_size r) _ ltac:(lia) ltac:(lia) (proj1 Hm2)) as (_ & Mp & _).
    split; [eapply focus_wf; [done..|]; apply cwf_merge; [lia|lia|done]|]. split; [done|].
    eapply fault_focus; try done. intros y. rewrite Mp. unfold prot_at at 1. rewrite A2.
    destruct (in_range (page_align addr) _ y); [done|]. apply Hp1.
  - destruct (is_resident (initial_prot r)) eqn:Hres; [|by split]. cbn [negb].
    apply wp_bind. eapply (wp_focus_keeps _ k r W Hf E HE); [apply keeps_map_pages|exact Hfo|done|]. intros _ s2 Hs2.
    apply wp_bind. eapply wp_on_committed; [exact Hs2|]. intros s3 Hs3.
    apply wp_bind. eapply wp_on_committed; [exact Hs3|]. intros s4 Hs4.
    destruct (cwf_fill _ _ _ (page_align addr) page_size (initial_prot r) Hcw) as [Hm3 A3]; try done; try lia.
    { intros x Hx. rewrite (at_addr_page k (k + r_size r) (committed r) (page_align addr) x) by (done || apply Hcw). done. }
    destruct (merge_spec k (k + r_size r) _ ltac:(lia) ltac:(lia) (proj1 Hm3)) as (_ & Mp & _).
    split; [eapply focus_wf; [done..|]; apply cwf_merge; [lia|lia|done]|]. split; [done|].
    eapply fault_focus; try done. intros y. rewrite Mp. unfold prot_at at 1. rewrite A3.
    by destruct (in_range (page_align addr) _ y).
Qed.

Lemma handle_fault_refused s addr :
  um_wf (reservations_ s) -> 0 <= addr -> fault_prot (reservations_ s) (page_align addr) = None ->
  handle_fault addr s = (Ok false, s).
Proof.
  intros W Ha. unfold fault_prot, handle_fault. cbn zeta. unfold get, bind at 1. rewrite (find_reservation_at _ W).
  destruct (at_addr (reservations_ s) (page_align addr)) as [[k r]|] eqn:Hat; [|done].
  pose proof (at_addr_find _ _ _ _ _ _ (uw_ivs _ W) Hat) as Hf.
  pose proof (at_addr_bounds _ _ _ _ _ _ (uw_ivs _ W) Hat) as Hbd. unfold size_of, reservation_sized, top in Hbd.
  pose proof (ro_committed _ _ (uw_res _ W k r Hf)) as Hcw.
  unfold find_committed. rewrite (find_in_at k (k + r_size r)) by (apply Hcw || lia).
  unfold prot_at. destruct (at_addr (committed r) (page_align addr)) as [[c sub]|]; cbn [fmap option_fmap option_map snd].
  - by destruct (has (c_prot sub) page_guard).
  - by destruct (is_resident (initial_prot r)).
Qed.

(** A page that lost its guard has no fault left to handle. *)
Lemma guard_gone m page k p :
  view m page = Some (k, Some (Z.land p (Z.lnot page_guard))) -> fault_prot m page = None.
Proof.
  unfold view, fault_prot. destruct (at_addr m page) as [[k' r]|]; [|done]. intros [= -> ->].
  unfold has. rewrite <- Z.land_assoc, (Z.land_comm (Z.lnot _)), Z.land_lnot_diag, Z.land_0_r. done.
Qed.

(** *** [query] *)

Lemma view_in m k r x :
  um_wf m -> find m k = Some r -> k <= x < k + r_size r -> view m x = Some (k, prot_at (committed r) x).
Proof. intros W Hf Hx. unfold view. by rewrite (find_at_addr _ _ _ _ _ x (uw_ivs _ W) Hf). Qed.

(** The run [query] reports from [base]: where its view ends. *)
Definition run_ok (m : reservation_map) (addr base last : Z) : Prop :=
  addr < last /\ forall x, base <= x < last -> view m x = view m addr.

Lemma query_free m addr :
  um_wf m -> 0 <= addr <= user_addr_limit -> at_addr m addr = None ->
  let next := match upper_bound m addr with (k, _) :: _ => k | [] => user_addr_limit + 1 end in
  run_ok m addr (page_align addr) next /\ next < 2 ^ 64 /\ (next = user_addr_limit + 1 \/ view m next <> view m addr).
Proof.
  intros W Ha Hn. destruct (page_align_ok addr ltac:(lia)) as (P1 & P2 & P3).
  assert (forall x, page_align addr <= x < addr -> at_addr m x = None) as Hlow.
  { intros x Hx. rewrite (at_addr_page 0 top m (page_align addr)); try done; [|apply W|by apply um_paged|unfold page_size; lia].
    rewrite <- (at_addr_page 0 top m (page_align addr) addr); try done; [apply W|by apply um_paged|unfold page_size; lia]. }
  pose proof (upper_bound_spec 0 top m addr (uw_ivs _ W) Hn) as Hu.
  rewrite (proj1 (view_free m addr) Hn). unfold run_ok. rewrite (proj1 (view_free m addr) Hn).
  destruct (upper_bound m addr) as [|[k r] t]; cbn zeta.
  - unfold user_addr_limit in *. split_and!; [lia| |lia|by left]. intros x Hx. apply view_free.
    destruct (Z.lt_ge_cases x addr); [apply Hlow; lia|apply Hu; lia].
  - destruct Hu as (U1 & U2 & U3). pose proof (find_bounds _ _ _ _ _ (uw_ivs _ W) U2) as Hb.
    unfold size_of, reservation_sized, top in Hb.
    split_and!; [lia| |lia|right; rewrite (view_in m k r) by (done || lia); done].
    intros x Hx. apply view_free. destruct (Z.lt_ge_cases x addr); [apply Hlow; lia|apply U3; lia].
Qed.

Lemma query_committed m addr k r c sub :
  um_wf m -> 0 <= addr -> at_addr m addr = Some (k, r) -> at_addr (committed r) addr = Some (c, sub) ->
  run_ok m addr (page_align addr) (c + c_size sub) /\ c + c_size sub <= top /\ view m addr = Some (k, Some (c_prot sub)).
Proof.
  intros W Ha Hat Hc. destruct (page_align_ok addr Ha) as (P1 & P2 & P3).
  pose proof (at_addr_find _ _ _ _ _ _ (uw_ivs _ W) Hat) as Hf.
  destruct (uw_res _ W k r Hf) as [_ _ [Hci Hcp]].
  pose proof (find_bounds _ _ _ _ _ (uw_ivs _ W) Hf) as Hb. unfold size_of, reservation_sized in Hb.
  pose proof (at_addr_find _ _ _ _ _ _ Hci Hc) as Hcf.
  pose proof (find_bounds _ _ _ _ _ Hci Hcf) as Hcb. pose proof (at_addr_bounds _ _ _ _ _ _ Hci Hc) as Hcb'.
  destruct (paged_find _ _ _ Hcp Hcf) as [Pc _]. unfold size_of, committed_sized in Hcb, Hcb'.
  destruct (page_mult_le (page_align addr) c addr P3 Pc ltac:(unfold page_size; lia)) as [Hpc _].
  assert (forall x, page_align addr <= x < c + c_size sub -> view m x = Some (k, Some (c_prot sub))) as Hv.
  { intros x Hx. rewrite (view_in m k r) by (done || lia). unfold prot_at.
    rewrite (find_at_addr _ _ _ _ _ x Hci Hcf) by (unfold size_of, committed_sized; lia). done. }
  rewrite (Hv addr) by lia. unfold run_ok. rewrite (Hv addr) by lia. split_and!; try lia; auto.
Qed.

Lemma query_reserved m addr k r :
  um_wf m -> 0 <= addr -> at_addr m addr = Some (k, r) -> at_addr (committed r) addr = None ->
  let next := match upper_bound (committed r) (page_align addr) with (c, _) :: _ => c | [] => k + r_size r end in
  run_ok m addr (page_align addr) next /\ next <= top /\ view m next <> view m addr /\ view m addr = Some (k, None).
Proof.
  intros W Ha Hat Hc. destruct (page_align_ok addr Ha) as (P1 & P2 & P3).
  pose proof (at_addr_find _ _ _ _ _ _ (uw_ivs _ W) Hat) as Hf.
  destruct (uw_res _ W k r Hf) as [Pk _ [Hci Hcp]].
  pose proof (find_bounds _ _ _ _ _ (uw_ivs _ W) Hf) as Hb. pose proof (at_addr_bounds _ _ _ _ _ _ (uw_ivs _ W) Hat) as Hb'.
  unfold size_of, reservation_sized in Hb, Hb'.
  destruct (page_mult_le (page_align addr) k addr P3 Pk ltac:(unfold page_size; lia)) as [Hpk _].
  assert (at_addr (committed r) (page_align addr) = None) as Hc0.
  { rewrite <- (at_addr_page _ _ _ (page_align addr) addr Hci Hcp P3) by (unfold page_size; lia). done. }
  pose proof (upper_bound_spec _ _ _ _ Hci Hc0) as Hu.
  assert (view m addr = Some (k, None)) as Hva.
  { rewrite (view_in m k r) by (done || lia). unfold prot_at. by rewrite Hc. }
  unfold run_ok. rewrite Hva. destruct (upper_bound (committed r) (page_align addr)) as [|[c sub] t]; cbn zeta.
  - split_and!; try lia; [| |done].
    + intros x Hx. rewrite (view_in m k r) by (done || lia). unfold prot_at. by rewrite Hu by lia.
    + unfold view. destruct (at_addr m (k + r_size r)) as [[k' r']|] eqn:E; [|done]. intros [= -> _].
      pose proof (at_addr_find _ _ _ _ _ _ (uw_ivs _ W) E) as Hf'. rewrite Hf in Hf'. simplify_eq.
      pose proof (at_addr_bounds _ _ _ _ _ _ (uw_ivs _ W) E) as Hx. unfold size_of, reservation_sized in Hx. lia.
  - destruct Hu as (U1 & U2 & U3). pose proof (find_bounds _ _ _ _ _ Hci U2) as Hcb. unfold size_of, committed_sized in Hcb.
    destruct (paged_find _ _ _ Hcp U2) as [Pc _].
    destruct (page_mult_le (page_align addr) c addr P3 Pc ltac:(unfold page_size; lia)) as [_ Hac].
    split_and!; try lia; [| |done].
    + intros x Hx. rewrite (view_in m k r) by (done || lia). unfold prot_at. by rewrite U3 by lia.
    + rewrite (view_in m k r) by (done || lia). unfold prot_at.
      rewrite (find_at_addr _ _ _ _ _ c Hci U2) by (unfold size_of, committed_sized; lia). done.
Qed.

End Operations.
