(* ===== verification/UserMemClaims.v ===== *)
(** * User memory: the theorems

    The operations of kernel/win/win_user_mem.cpp over any MMU, and over the
    x86-64 one where a concrete state is needed. *)

From S2P Require Import Prelude Phys Mmu Space X86Mmu X86Examples.
From S2P Require Import OrdMap UserMem UserMemMaps UserMemSpec UserMemThm.
From stdpp Require Import options.

Open Scope Z_scope.
Open Scope kern_scope.

(** The x86-64 MMU as the MMU of a process's user memory. *)
#[export] Instance x86_user_mmu : UserMmu (mmu Unicorn.mem * addr_space) := {
  um_map_virt := map_virt;
  um_map_virt_phys := map_virt_phys;
  um_unmap_virt := unmap_virt;
  um_prot_virt := prot_virt;
  um_virt_to_phys x va := virt_to_phys (phys x.1) x.2 va
}.

Section Claims.
Context {X : Type} {um : UserMmu X}.

(** Which reservation an address is in and, if it is committed, its protection. *)
Definition at_view (s : win_user_mem X) (a : Z) : option (Z * option Z) := view (reservations_ s) a.

(** The fields of a query's answer against the view. *)
Definition describes (v : option (Z * option Z)) (i : memory_basic_info) : Prop :=
  match v with
  | None => i_state i = mem_free /\ i_protect i = page_noaccess
  | Some (k, None) => i_state i = mem_reserve /\ allocation_base i = k
  | Some (k, Some p) => i_state i = mem_commit /\ allocation_base i = k /\ i_protect i = p
  end.

(** C12: [pick_base] always comes to an end and never fails: it returns the
    lowest range of the asked alignment (64 KiB at least) at or above
    [next_free_] that no reservation meets, and moves [next_free_] past it; it
    returns 0, changing nothing, only when every such range below the user limit
    is taken. *)
Theorem pick_base_correct size al (s : win_user_mem X) :
  um_wf (reservations_ s) -> 0 < size < 2 ^ 62 -> 0 <= next_free_ s < 2 ^ 62 ->
  pow2 (Z.max al alloc_granularity) -> Z.max al alloc_granularity <= 2 ^ 62 ->
  let A := Z.max al alloc_granularity in
  let from := align_up (next_free_ s) A in
  wp (pick_base size al) s (fun a s' =>
    reservations_ s' = reservations_ s /\
    ((a = 0 /\ s' = s /\ forall b, b mod A = 0 -> from <= b -> b + size <= user_addr_limit ->
        exists x, b <= x < b + size /\ at_view s x <> None) \/
     (a mod A = 0 /\ from <= a /\ a + size <= user_addr_limit /\ next_free_ s' = a + size /\
      (forall x, a <= x < a + size -> at_view s x = None) /\
      forall b, b mod A = 0 -> from <= b < a -> exists x, b <= x < b + size /\ at_view s x <> None)))
    (fun _ _ => False).
Proof.
  intros W Hsz Hn HA HA'. cbn zeta.
  assert (forall b, taken (reservations_ s) size b -> exists x, b <= x < b + size /\ at_view s x <> None) as Ht.
  { unfold at_view. intros b (x & Hx & Hne). exists x. split; [done|]. intros Ev. by apply Hne, view_free. }
  eapply wp_mono with (E := fun _ _ => False); [by apply pick_base_spec| |done]. intros a s' [Er Hp]. split; [done|].
  destruct Hp as [(-> & -> & H)|(G1 & G2 & G3 & G4 & G5 & G6)]; [left|right]; split_and!; eauto.
  intros x Hx. apply view_free. destruct (at_addr (reservations_ s) x) eqn:E; [|done].
  exfalso. apply G5. exists x. by rewrite E.
Qed.

(** C13: [allocate] succeeds only with whole pages, aligned and non-null when
    the caller left the address open, and covering the request when it commits
    at a given address: the addresses of the range then belong to one
    reservation (a new one where all were free, or the one that held them),
    committed with the protection if asked, and no other address changes.  When
    it refuses, base, size and every reservation are as they were.  Also when
    the MMU throws, the reservations stay apart from each other, the committed
    regions inside them apart from each other, and all on page boundaries. *)
Theorem allocate_correct (s : win_user_mem X) base size kind prot al :
  um_ok s -> 0 <= base < 2 ^ 63 -> 0 <= size < 2 ^ 61 ->
  pow2 (Z.max al alloc_granularity) -> Z.max al alloc_granularity <= 2 ^ 62 ->
  wp (allocate base size kind prot al) s
    (fun '(st, b, n) s' => um_ok s' /\
      match st with
      | STATUS_SUCCESS =>
          b mod page_size = 0 /\ 0 < n /\ n mod page_size = 0 /\ size <= n /\
          (base = 0 -> 0 < b /\ b mod Z.max al alloc_granularity = 0) /\
          (base <> 0 -> has kind mem_reserve = false -> b <= base /\ base + size <= b + n) /\
          exists k,
            ((k = b /\ forall x, b <= x < b + n -> at_view s x = None) \/
             (has kind mem_reserve = false /\
              exists r, find (reservations_ s) k = Some r /\ k <= b /\ b + n <= k + r_size r)) /\
            forall x, at_view s' x =
              if in_range b (b + n) x then Some (k, if has kind mem_commit then Some prot else None)
              else at_view s x
      | _ => (b, n) = (base, size) /\ reservations_ s' = reservations_ s
      end)
    (fun _ s' => um_ok s').
Proof.
  intros. eapply wp_mono; [by apply (allocate_spec s base size kind prot al (fun _ => um_ok))| |done].
  intros [[st b] n] s' H'. exact H'.
Qed.

(** C14: [free] with MEM_RELEASE succeeds only on the start of a private
    reservation and with no size, and then exactly its addresses are free; with
    MEM_DECOMMIT the addresses of the range inside the reservation stay reserved
    and are no longer committed, and no other address changes (size 0 at the
    start of the reservation means all of it).  A refusal changes nothing, and
    the invariant is kept also when the MMU throws. *)
Theorem free_correct (s : win_user_mem X) base size kind :
  um_wf (reservations_ s) -> 0 <= base < 2 ^ 63 -> 0 <= size < 2 ^ 61 ->
  wp (free base size kind) s
    (fun '(st, b, n) s' => um_wf (reservations_ s') /\
      match st with
      | STATUS_SUCCESS => b = page_align base /\ exists k r, at_addr (reservations_ s) b = Some (k, r) /\
          if has kind mem_release
          then size = 0 /\ k = b /\ r_type r = mem_private /\ n = r_size r /\
               forall x, at_view s' x = if in_range b (b + n) x then None else at_view s x
          else has kind mem_decommit = true /\
               n = (if region_of base size =? 0 then r_size r else region_of base size) /\
               forall x, at_view s' x = revised (reservations_ s) k b (b + n) (fun _ => None) x
      | _ => (b, n) = (base, size) /\ reservations_ s' = reservations_ s
      end)
    (fun _ s' => um_wf (reservations_ s')).
Proof.
  intros. eapply wp_mono; [by apply (free_spec s base size kind (fun _ x => um_wf (reservations_ x)))| |done].
  intros [[st b] n] s' H'. exact H'.
Qed.

(** C15: [protect] reports the protection its first page had and gives the new
    one to exactly the committed addresses of the range inside the reservation
    it starts in; it succeeds without changing a reservation when that page is
    reserved only (reporting the protection of the reservation) or free. *)
Theorem protect_correct (s : win_user_mem X) base size new :
  um_wf (reservations_ s) -> 0 <= base < 2 ^ 63 -> 0 <= size < 2 ^ 61 ->
  wp (protect base size new) s
    (fun res s' => um_wf (reservations_ s') /\
      let start := page_align base in
      let region := region_of base size in
      match at_view s start with
      | Some (k, Some old) =>
          res = (STATUS_SUCCESS, start, region, old) /\
          forall x, at_view s' x = revised (reservations_ s) k start (start + region) (reprotect new) x
      | Some (k, None) =>
          (exists r, find (reservations_ s) k = Some r /\ res = (STATUS_SUCCESS, start, region, initial_prot r)) /\ s' = s
      | None => res = (STATUS_SUCCESS, start, region, page_readwrite) /\ reservations_ s' = reservations_ s
      end)
    (fun _ s' => um_wf (reservations_ s')).
Proof. intros. by apply protect_spec. Qed.

(** C16: a fault is handled exactly when its page is reserved and the
    reservation's protection lets it be backed, or is committed and guarded;
    then the page alone is committed with that protection, or loses its guard,
    and no other address changes.  So a guard fires once: a second fault on the
    same page is not handled. *)
Theorem handle_fault_correct (s : win_user_mem X) addr :
  um_wf (reservations_ s) -> 0 <= addr ->
  wp (handle_fault addr) s
    (fun handled s' => um_wf (reservations_ s') /\
      let page := page_align addr in
      match fault_prot (reservations_ s) page with
      | None => handled = false /\ s' = s
      | Some p => handled = true /\
          (exists k old, at_view s page = Some (k, old) /\
           forall x, at_view s' x = if in_range page (page + page_size) x then Some (k, Some p) else at_view s x) /\
          (forall k q, at_view s page = Some (k, Some q) -> handle_fault addr s' = (Ok false, s'))
      end)
    (fun _ s' => um_wf (reservations_ s')).
Proof.
  intros W Ha. eapply wp_mono; [by apply (handle_fault_spec s addr (fun _ x => um_wf (reservations_ x)))| |done].
  intros b s' [W' Hp]. split; [done|]. cbn zeta in *. destruct (fault_prot (reservations_ s) (page_align addr)) as [p|] eqn:Ef; [|done].
  destruct Hp as [-> Hv]. split_and!; [done|done|]. intros k q Hq. apply handle_fault_refused; [done..|].
  destruct Hv as (k' & old & E0 & Hv). specialize (Hv (page_align addr)).
  rewrite (proj2 (in_range_true _ _ _)) in Hv by (unfold page_size; lia).
  assert (p = Z.land q (Z.lnot page_guard)) as ->; [|by eapply guard_gone].
  revert Ef Hq. unfold fault_prot, at_view, view. destruct (at_addr _ _) as [[k1 r1]|]; [|done]. intros Ef [= -> Eq].
  rewrite Eq in Ef. by destruct (has q page_guard); simplify_eq.
Qed.

(** What [query] says of a page. *)
Lemma query_spec m addr :
  um_wf m -> 0 <= addr <= user_addr_limit ->
  let '(st, i) := query m addr in
  let last := base_address i + region_size i in
  st = STATUS_SUCCESS /\ base_address i = page_align addr /\ addr < last /\
  (forall x, base_address i <= x < last -> view m x = view m addr) /\
  (i_state i <> mem_commit -> last = user_addr_limit + 1 \/ view m last <> view m addr) /\
  describes (view m addr) i.
Proof.
  unfold describes. intros W Ha. destruct (page_align_ok addr ltac:(lia)) as (P1 & P2 & P3).
  unfold query. rewrite (find_reservation_at _ W).
  destruct (at_addr m addr) as [[k r]|] eqn:Hat.
  - pose proof (at_addr_find _ _ _ _ _ _ (uw_ivs _ W) Hat) as Hf.
    pose proof (find_bounds _ _ _ _ _ (uw_ivs _ W) Hf) as Hb. unfold size_of, reservation_sized, top in Hb.
    pose proof (ro_committed _ _ (uw_res _ W k r Hf)) as Hcw.
    unfold find_committed. rewrite (find_in_at k (k + r_size r)) by (apply Hcw || lia).
    destruct (at_addr (committed r) addr) as [[c sub]|] eqn:Hc; cbn [base_address region_size i_state allocation_base i_protect].
    + destruct (query_committed m addr k r c sub W ltac:(lia) Hat Hc) as ([R1 R2] & R3 & R4). rewrite R4 in *.
      unfold top in R3. rewrite u64_small by (unfold in_u64; lia).
      replace (page_align addr + (c + c_size sub - page_align addr)) with (c + c_size sub) by lia. done.
    + destruct (query_reserved m addr k r W ltac:(lia) Hat Hc) as ([R1 R2] & R3 & R4 & R5). rewrite R5 in *.
      rewrite (u64_small (k + r_size r)) by (unfold in_u64; lia).
      set (next := match upper_bound _ _ with [] => _ | _ => _ end) in *. unfold top in R3.
      rewrite u64_small by (unfold in_u64; lia).
      replace (page_align addr + (next - page_align addr)) with next by lia. split_and!; try done. by right.
  - destruct (query_free m addr W Ha Hat) as ([R1 R2] & R3 & R4). cbn [base_address region_size i_state i_protect].
    set (next := match upper_bound _ _ with [] => _ | _ => _ end) in *.
    rewrite u64_small by (unfold in_u64; lia).
    replace (page_align addr + (next - page_align addr)) with next by lia.
    split_and!; try done. by rewrite (proj1 (view_free m addr) Hat).
Qed.

(** [query] describes the page of an address: whether it is free, reserved
    or committed, by which reservation and with which protection; and a
    non-empty run of addresses from that page on of which all of this is true.
    For a free or reserved page the run ends where it stops being true, or at the
    user limit. *)
Theorem query_correct m addr :
  um_wf m -> 0 <= addr <= user_addr_limit ->
  let '(st, i) := query m addr in
  let last := base_address i + region_size i in
  st = STATUS_SUCCESS /\ base_address i = page_align addr /\ addr < last /\
  (forall x, base_address i <= x < last -> view m x = view m addr) /\
  (i_state i <> mem_commit -> last = user_addr_limit + 1 \/ view m last <> view m addr) /\
  describes (view m addr) i.
Proof. apply query_spec. Qed.

End Claims.
