(* ===== verification/UserMemExamples.v ===== *)
(** * User memory at work

    A process on the x86-64 MMU with one reservation of four pages, three of
    them committed and the last of these a guard page; the theorems of
    [UserMemClaims] at this state. *)

From S2P Require Import Prelude Phys Mmu Space X86Mmu X86Examples.
From S2P Require Import OrdMap UserMem UserMemMaps UserMemSpec UserMemThm UserMemClaims.
From stdpp Require Import options.

Open Scope Z_scope.
Open Scope kern_scope.

Definition guarded : Z := Z.lor page_readwrite page_guard.
Definition stack : reservation :=
  Reservation 0x4000 page_readwrite mem_private
    [(0x100000000, Committed 0x2000 page_readwrite); (0x100002000, Committed 0x1000 guarded)].
Definition one_stack : reservation_map := [(0x100000000, stack)].
Definition proc : win_user_mem (mmu Unicorn.mem * addr_space) :=
  UserMem (one_space, first_space) user_alloc_base one_stack [].

Lemma one_stack_wf : um_wf one_stack.
Proof.
  split; [cbn; unfold top; lia|]. intros k r Hf. cbn in Hf.
  destruct (Z.eqb_spec k 0x100000000) as [->|]; [|done]. simplify_eq.
  split; [done|done|]. split; [cbn; lia|]. by repeat constructor.
Qed.

Lemma proc_ok : um_ok proc.
Proof. split; [apply one_stack_wf|]. unfold proc, user_alloc_base. cbn. lia. Qed.

Lemma granularity_ok : pow2 (Z.max 0 alloc_granularity) /\ Z.max 0 alloc_granularity <= 2 ^ 62.
Proof. split; [apply pow2_64k|done]. Qed.

(** The next free 64 KiB block is the one after the stack's. *)
Lemma pick_base_witness :
  wp (pick_base 0x5000 0) proc
    (fun a s' => a = 0 \/ next_free_ s' = a + 0x5000 /\ view one_stack a = None) (fun _ _ => False).
Proof.
  eapply wp_mono; [apply (pick_base_correct 0x5000 0 proc one_stack_wf)| |done].
  - done.
  - cbn. unfold user_alloc_base. lia.
  - apply granularity_ok.
  - done.
  - intros a s' [_ [(-> & _)|(_ & _ & _ & Hn & Hf & _)]]; [by left|]. right. split; [done|]. apply Hf. lia.
Defined.

(** Committing the reserved last page of the stack. *)
Lemma allocate_witness :
  wp (allocate 0x100003000 0x1000 mem_commit page_readonly 0) proc
    (fun '(st, b, n) s' => um_ok s') (fun _ s' => um_ok s').
Proof.
  eapply wp_mono; [apply (allocate_correct proc 0x100003000 0x1000 mem_commit page_readonly 0 proc_ok)| |done].
  1-2: done.
  1-2: apply granularity_ok.
  intros [[st b] n] s' [H _]. exact H.
Defined.

(** Decommitting the first page leaves it reserved. *)
Lemma free_witness :
  wp (free 0x100000000 0x1000 mem_decommit) proc
    (fun '(st, b, n) s' => st = STATUS_SUCCESS -> at_view s' 0x100000000 = Some (0x100000000, None))
    (fun _ _ => True).
Proof.
  eapply wp_mono; [apply (free_correct proc 0x100000000 0x1000 mem_decommit one_stack_wf)| |done].
  1-2: done.
  intros [[st b] n] s' [_ H] ->. destruct H as (-> & k & r & Hat & _ & -> & Hv). rewrite Hv.
  vm_compute in Hat. injection Hat as <- <-. vm_compute. reflexivity.
Defined.

Lemma protect_witness :
  wp (protect 0x100000000 0x1000 page_readonly) proc
    (fun res s' => at_view s' 0x100000000 = Some (0x100000000, Some page_readonly) /\
                   at_view s' 0x100001000 = Some (0x100000000, Some page_readwrite))
    (fun _ _ => True).
Proof.
  eapply wp_mono; [apply (protect_correct proc 0x100000000 0x1000 page_readonly one_stack_wf)| |done].
  1-2: done.
  intros res s' [_ H]. cbn zeta in H. 
  change (at_view proc (page_align 0x100000000)) with (Some (0x100000000, Some page_readwrite)) in H.
  destruct H as [_ H]. rewrite !H. vm_compute. done.
Defined.

(** The guard page fires once. *)
Lemma handle_fault_witness :
  wp (handle_fault 0x100002010) proc
    (fun handled s' => handled = true /\ at_view s' 0x100002010 = Some (0x100000000, Some page_readwrite) /\
       handle_fault 0x100002010 s' = (Ok false, s'))
    (fun _ _ => True).
Proof.
  eapply wp_mono; [apply (handle_fault_correct proc 0x100002010 one_stack_wf)| |done].
  1: done.
  intros b s' [_ H]. cbn zeta in H.
  change (fault_prot (reservations_ proc) (page_align 0x100002010)) with (Some page_readwrite) in H.
  destruct H as (-> & (k & old & Hv & Hx) & H2). split_and!; [done|..].
  - rewrite Hx. vm_compute in Hv. injection Hv as <- <-. vm_compute. reflexivity.
  - apply (H2 0x100000000 guarded). vm_compute. reflexivity.
Defined.

Lemma query_witness :
  let '(st, i) := query one_stack 0x100003123 in
  i_state i = mem_reserve /\ allocation_base i = 0x100000000 /\ region_size i = 0x1000.
Proof.
  pose proof (query_correct one_stack 0x100003123 one_stack_wf ltac:(unfold user_addr_limit; lia)) as H.
  destruct (query one_stack 0x100003123) as [st i] eqn:E. destruct H as (_ & _ & _ & _ & _ & H).
  change (view one_stack 0x100003123) with (Some (0x100000000, @None Z)) in H. destruct H as [H1 H2].
  vm_compute in E. injection E as <- <-. done.
Defined.

(** ** A reservation that does not hold what was asked

    MEM_RESERVE rounds the address down to 64 KiB but sizes the region from the
    address it was given. *)

Definition fresh {X} (x : X) : win_user_mem X := UserMem x user_alloc_base [] [].

(** Asked to reserve a page at 0x18000, [allocate] succeeds with the page at
    0x10000: the address asked for is not in the reservation. *)
Theorem reserve_misses_request {X} {um : UserMmu X} (x : X) :
  exists s', allocate 0x18000 0x1000 mem_reserve page_readwrite 0 (fresh x) =
      (Ok (STATUS_SUCCESS, 0x10000, 0x1000), s') /\
    view (reservations_ s') 0x10000 = Some (0x10000, None) /\ view (reservations_ s') 0x18000 = None.
Proof.
  exists (UserMem x user_alloc_base [(0x10000, Reservation 0x1000 page_readwrite mem_private [])] []).
  split_and!; vm_compute; reflexivity.
Qed.
