(* ===== verification/Pool.v ===== *)
(** * The kernel pool

    kernel/win/pool.cpp and the entry points of modules/nt_pool_ops.cpp.  Runs of
    kernel memory are cut into blocks, kept in one ordered map with the free ones;
    freeing joins a block with its free neighbours. *)

From S2P Require Import Prelude Mmu OrdMap.
From stdpp Require Import options.

Open Scope Z_scope.
Open Scope kern_scope.

Module Pool.

Definition pool_alignment : Z := 16.
Definition page_size : Z := 0x1000.
Definition run_size : Z := 0x100000.

(** ** Tags *)

(** The characters of a tag, as codes: [static_cast<char>] is signed, so a byte
    from 0x80 up is negative and printed as a dot. *)
Definition tag_char (tag : Z) (i : Z) : Z :=
  let c := signed 8 (Z.land (Z.shiftr tag (i * 8)) 0xFF) in
  if (0x20 <=? c) && (c <? 0x7F) then c else 46.
Definition pool_tag_name (tag : Z) : list Z := map (tag_char tag) [0; 1; 2; 3].

Definition pool_tag (c0 c1 c2 c3 : Z) : Z :=
  Z.lor (Z.lor (Z.lor (u32 (u8 c0)) (u32 (Z.shiftl (u8 c1) 8))) (u32 (Z.shiftl (u8 c2) 16))) (u32 (Z.shiftl (u8 c3) 24)).

(** ** State *)

Record block : Type := Block { b_size : Z; requested : Z; b_tag : Z; b_free : bool }.
#[export] Instance block_sized : Sized block := b_size.
Abbreviation block_map := (list (Z * block)).

Definition free_block (size : Z) : block := Block size 0 0 true.
Definition resize (size : Z) (b : block) : block := Block size (requested b) (b_tag b) (b_free b).
Definition set_free (b : block) : block := Block (b_size b) (requested b) (b_tag b) true.

(** What the pool asks of its address space. *)
Class PoolSpace (X : Type) : Type := {
  ps_alloc : Z -> Z -> st X Z;
  ps_write_mem : Z -> list Z -> st X unit
}.

Record win_pool (X : Type) : Type := WinPool { space_ : X; blocks_ : block_map }.
Arguments WinPool {X} _ _.
Arguments space_ {X} _.
Arguments blocks_ {X} _.

Section Pool.
Context {X : Type} `{!PoolSpace X}.
Abbreviation pst := (st (win_pool X)).

Definition on_space {A} (f : st X A) : pst A := fun s =>
  let '(r, x) := f (space_ s) in (r, WinPool x (blocks_ s)).
Definition on_blocks (f : block_map -> block_map) : pst unit :=
  modify (fun s => WinPool (space_ s) (f (blocks_ s))).

(** [it->second] of an iterator into the map. *)
Definition block_at (m : block_map) (k : Z) : block := default (free_block 0) (find m k).

Definition reserve (size : Z) : pst Z :=
  let reserved := align_up (Z.max size run_size) page_size in
  let! base := on_space (ps_alloc reserved (Z.lor prot_rw prot_supervisor)) in
  on_blocks (emplace base (free_block reserved)) ;;
  ret base.

(** The loop over the blocks: the first free one with room at its first aligned
    address. *)
Fixpoint first_fit (m : block_map) (alignment needed : Z) : option (Z * Z) :=
  match m with
  | [] => None
  | (k, b) :: t =>
      if negb (b_free b) then first_fit t alignment needed else
      let aligned := align_up k alignment in
      if u64 ((aligned -w k) + needed) <=? b_size b then Some (k, aligned)
      else first_fit t alignment needed
  end.

(** From the block found to the block handed out. *)
Definition carve (k addr needed size tag : Z) (m : block_map) : block_map :=
  let lead := addr -w k in
  let '(k, m) :=
    if 0 <? lead then
      let rest := b_size (block_at m k) -w lead in
      (addr, emplace addr (free_block rest) (insert k (resize lead (block_at m k)) m))
    else (k, m) in
  let chosen := block_at m k in
  let '(chosen, m) :=
    if needed <? b_size chosen
    then (resize needed chosen, emplace (addr +w needed) (free_block (b_size chosen -w needed)) (insert k (resize needed chosen) m))
    else (chosen, m) in
  insert k (Block (b_size chosen) size tag false) m.

Definition allocate (size tag : Z) (zero : bool) : pst Z :=
  if size =? 0 then ret 0 else
  let alignment := if page_size <=? size then page_size else pool_alignment in
  let needed := align_up size pool_alignment in
  let! s := get in
  let! it := match first_fit (blocks_ s) alignment needed with
    | Some it => ret it
    | None => let! k := reserve (needed +w alignment) in ret (k, align_up k alignment)
    end in
  let '(k, addr) := it in
  on_blocks (carve k addr needed size tag) ;;
  (if zero then on_space (ps_write_mem addr (replicate (Z.to_nat size) 0)) else ret tt) ;;
  ret addr.

Record allocation : Type := Allocation { a_size : Z; a_tag : Z }.

(** [std::next(it)] is the first entry above [addr], [std::prev(it)] the last
    below it. *)
Definition join_next (addr : Z) (m : block_map) : block_map :=
  let freed := block_at m addr in
  match upper_bound m addr with
  | (n, next) :: _ =>
      if b_free next && (addr +w b_size freed =? n)
      then insert addr (resize (b_size freed +w b_size next) freed) (erase n m) else m
  | [] => m
  end.
Definition join_prev (addr : Z) (m : block_map) : block_map :=
  let freed := block_at m addr in
  match floor m (addr - 1) with
  | Some (p, prev) =>
      if b_free prev && (p +w b_size prev =? addr)
      then insert p (resize (b_size prev +w b_size freed) prev) (erase addr m) else m
  | None => m
  end.

Definition free (addr : Z) : pst (option allocation) :=
  let! s := get in
  match find (blocks_ s) addr with
  | None => ret None
  | Some b =>
      if b_free b then ret None else
      on_blocks (fun m => join_prev addr (join_next addr (insert addr (set_free b) m))) ;;
      ret (Some (Allocation (requested b) (b_tag b)))
  end.

(** ** The entry points *)

Definition pool_flag_use_quota : Z := 0x001.
Definition pool_flag_uninitialized : Z := 0x002.
Definition pool_flag_session : Z := 0x004.
Definition pool_flag_cache_aligned : Z := 0x008.
Definition pool_flag_reserved1 : Z := 0x010.
Definition pool_flag_raise_on_failure : Z := 0x020.
Definition pool_flag_non_paged : Z := 0x040.
Definition pool_flag_non_paged_exec : Z := 0x080.
Definition pool_flag_paged : Z := 0x100.
Definition pool_flag_special_pool : Z := 0x200.
Definition pool_flag_reserved3 : Z := 0x400.
Definition pool_flag_reserved4 : Z := 0x800.
Definition pool_flag_type_mask : Z :=
  Z.lor (Z.lor pool_flag_non_paged pool_flag_non_paged_exec) pool_flag_paged.
Definition default_pool_tag : Z := 0x30656E6F.

Definition pool_type_tag (tag : Z) : Z :=
  if Z.land tag 0x7FFFFFFF =? 0 then default_pool_tag else Z.land tag 0x7FFFFFFF.

Definition pool_type_paged : Z := 0x001.
Definition pool_type_cache_aligned : Z := 0x004.
Definition pool_type_raise_on_failure : Z := 0x010.
Definition pool_type_session : Z := 0x020.
Definition pool_type_reserved3 : Z := 0x040.
Definition pool_type_special : Z := 0x080.
Definition pool_type_nx : Z := 0x200.
Definition pool_type_zero : Z := 0x400.

(** [if (c) flags |= f;] *)
Definition or_if (c : bool) (f flags : Z) : Z := if c then Z.lor flags f else flags.

Definition pool_flags_from_type (pool_type : Z) : Z :=
  or_if (has pool_type pool_type_raise_on_failure) pool_flag_raise_on_failure
  (or_if (has pool_type pool_type_reserved3) pool_flag_reserved3
  (or_if (has pool_type pool_type_special) pool_flag_special_pool
  (or_if (has pool_type pool_type_cache_aligned) pool_flag_cache_aligned
  (or_if (negb (has pool_type pool_type_zero)) pool_flag_uninitialized
  (or_if (has pool_type pool_type_session) pool_flag_session
  (if has pool_type pool_type_paged then pool_flag_paged
   else if has pool_type pool_type_nx then pool_flag_non_paged else pool_flag_non_paged_exec)))))).

Definition flags_are_valid (flags tag : Z) : bool :=
  let type := Z.land flags pool_flag_type_mask in
  negb (type =? 0) && (Z.land type (type -w 1) =? 0) && (Z.land flags 0xFFFFF000 =? 0)
  && (Z.land flags pool_flag_reserved1 =? 0) && (Z.land flags pool_flag_reserved4 =? 0) && negb (tag =? 0).

(** The [allocate] and [release] of nt_pool_ops.cpp, without their messages. *)
Definition pool_allocate (flags size tag : Z) : pst Z :=
  if negb (flags_are_valid flags tag) then ret 0 else
  let! addr := allocate size tag (Z.land flags pool_flag_uninitialized =? 0) in
  if addr =? 0 then ret 0 else ret addr.
Definition release (address tag : Z) : pst unit :=
  if address =? 0 then ret tt else let! _ := free address in ret tt.

Definition ExAllocatePool2 (flags size tag : Z) : pst Z := pool_allocate flags size tag.
Definition ExAllocatePool3 (flags size tag params count : Z) : pst Z := pool_allocate flags size tag.
Definition ExAllocatePoolWithTag (pool_type size tag : Z) : pst Z :=
  pool_allocate (pool_flags_from_type pool_type) size (pool_type_tag tag).
Definition ExAllocatePoolWithQuotaTag (pool_type size tag : Z) : pst Z :=
  pool_allocate (Z.lor (pool_flags_from_type pool_type) pool_flag_use_quota) size (pool_type_tag tag).
Definition ExAllocatePool (pool_type size : Z) : pst Z :=
  pool_allocate (pool_flags_from_type pool_type) size default_pool_tag.
Definition ExFreePoolWithTag (address tag : Z) : pst unit := release address (Z.land tag 0x7FFFFFFF).
Definition ExFreePool (address : Z) : pst unit := release address 0.

End Pool.

(** ** The contract

    What the pool relies on: a kernel allocation of the space is a range of whole
    pages none of which was given out before, as long as there are addresses
    left. *)

Class PoolSpaceLaws (X : Type) `{!PoolSpace X} : Type := {
  given : X -> Z -> Prop;
  room_for : X -> Z -> Prop;
  ps_alloc_ok : forall n p x a x', has p prot_supervisor = true -> 0 < n -> room_for x n -> ps_alloc n p x = (Ok a, x') ->
    a mod page_size = 0 /\ 0 < a /\ a + n < 2 ^ 64 /\ (forall y, a <= y < a + n -> ~ given x y) /\
    forall y, given x y \/ a <= y < a + n -> given x' y;
  ps_alloc_throw : forall n p x e x', has p prot_supervisor = true -> room_for x n -> ps_alloc n p x = (Throw e, x') ->
    forall y, given x y -> given x' y;
  ps_write_given : forall a bs x y, given x y -> given (ps_write_mem a bs x).2 y
}.

(** ** The invariant *)

Record block_ok (k : Z) (b : block) : Prop := {
  bk_start : k mod pool_alignment = 0;
  bk_size : b_size b mod pool_alignment = 0;
  bk_used : b_free b = false -> 0 < requested b <= b_size b
}.

Definition hi : Z := 2 ^ 64 - 0x1000.

Record blocks_wf (m : block_map) : Prop := {
  pw_ivs : ivs 1 hi m;
  pw_ok : forall k b, find m k = Some b -> block_ok k b
}.

(** Live allocations, by address: what was asked for and its tag. *)
Definition live (m : block_map) (a : Z) : option allocation :=
  match find m a with
  | Some b => if b_free b then None else Some (Allocation (requested b) (b_tag b))
  | None => None
  end.

(** The address belongs to the pool. *)
Definition covered (m : block_map) (x : Z) : Prop := is_Some (at_addr m x).

End Pool.
