(* ===== verification/PoolThm.v ===== *)
(** * The kernel pool: allocations and frees

    The blocks refine a map of live allocations. *)

From S2P Require Import Prelude Mmu OrdMap Pool.
From stdpp Require Import options.

Open Scope Z_scope.
Open Scope kern_scope.

Import Pool.

Lemma pow2_alignment : pow2 pool_alignment.
Proof. apply pow2_16. Qed.
Lemma pow2_page : pow2 Pool.page_size.
Proof. apply pow2_4096. Qed.

Lemma unit_add a b : a mod pool_alignment = 0 -> b mod pool_alignment = 0 -> (a + b) mod pool_alignment = 0.
Proof. unfold pool_alignment. intros. rewrite Z.add_mod, H, H0 by lia. done. Qed.
Lemma unit_sub a b : a mod pool_alignment = 0 -> b mod pool_alignment = 0 -> (a - b) mod pool_alignment = 0.
Proof. unfold pool_alignment. intros Ha Hb. rewrite Zminus_mod, Ha, Hb. done. Qed.
Lemma page_unit a : a mod Pool.page_size = 0 -> a mod pool_alignment = 0.
Proof.
  unfold Pool.page_size, pool_alignment. intros H. apply Z.mod_divide in H as [q ->]; [|lia].
  apply Z.mod_divide; [lia|]. exists (q * 256). lia.
Qed.
#[local] Hint Resolve unit_add unit_sub page_unit : core.

Section Blocks.
Implicit Types (m : block_map) (b : block).

(** ** Steps on the map that keep the live allocations *)

Record same_live m m' : Prop := {
  sl_wf : blocks_wf m';
  sl_live : forall x, live m' x = live m x;
  sl_covered : forall x, covered m' x <-> covered m x
}.

Lemma same_live_refl m : blocks_wf m -> same_live m m.
Proof. intros W. by split. Qed.

Lemma same_live_trans m m1 m2 : same_live m m1 -> same_live m1 m2 -> same_live m m2.
Proof.
  intros [A1 A2 A3] [B1 B2 B3]. split; [done|..]; intros x; [by rewrite B2|by rewrite B3].
Qed.

Lemma inside_none m k b x :
  blocks_wf m -> find m k = Some b -> k < x < k + b_size b -> find m x = None.
Proof.
  intros W Hf Hx. destruct (find m x) as [c|] eqn:E; [|done]. exfalso.
  pose proof (ivs_apart _ _ _ _ _ _ _ (pw_ivs _ W) Hf E ltac:(lia)) as Ha.
  pose proof (find_bounds _ _ _ _ _ (pw_ivs _ W) E). unfold size_of, block_sized in *. lia.
Qed.

(** A free block cut in two free ones. *)
Lemma cut_free m k b b1 b2 :
  blocks_wf m -> find m k = Some b -> b_free b = true -> b_free b1 = true -> b_free b2 = true ->
  0 < b_size b1 -> 0 < b_size b2 -> b_size b1 + b_size b2 = b_size b -> b_size b1 mod pool_alignment = 0 ->
  let m' := emplace (k + b_size b1) b2 (insert k b1 m) in
  same_live m m' /\ find m' k = Some b1 /\ find m' (k + b_size b1) = Some b2.
Proof.
  intros W Hf Fb F1 F2 H1 H2 Hs Ha m'. subst m'.
  destruct (cut_two 1 hi m k b b1 b2) as (I & G2 & G1 & Go & A); [apply W|done..|].
  change (size_of b1) with (b_size b1) in *. change (size_of b) with (b_size b) in *.
  destruct (pw_ok _ W _ _ Hf) as [K1 K2 K3]. split_and!; [|done|done]. split.
  - split; [done|]. intros k' c Hc. destruct (decide (k' = k)) as [->|N1].
    { rewrite G1 in Hc. simplify_eq. split; [done|done|]. by rewrite F1. }
    destruct (decide (k' = k + b_size b1)) as [->|N2].
    { rewrite G2 in Hc. simplify_eq. split; [auto| |by rewrite F2].
      replace (b_size c) with (b_size b - b_size b1) by lia. auto. }
    rewrite Go in Hc by done. by apply W.
  - intros x. unfold live. destruct (decide (x = k)) as [->|N1]; [by rewrite G1, Hf, F1, Fb|].
    destruct (decide (x = k + b_size b1)) as [->|N2]; [|by rewrite Go].
    by rewrite G2, F2, (inside_none m k b) by (done || lia).
  - intros x. unfold covered. rewrite A. pose proof (find_at_addr _ _ _ _ _ x (pw_ivs _ W) Hf) as Hx.
    change (size_of b) with (b_size b) in Hx.
    destruct (Z.leb_spec k x), (Z.ltb_spec x (k + b_size b1)), (Z.leb_spec (k + b_size b1) x),
      (Z.ltb_spec x (k + b_size b)); cbn; try done; try lia; rewrite Hx by lia; split; intros _; eauto.
Qed.

(** Two free blocks that touch, joined. *)
Lemma join_free m k b n c :
  blocks_wf m -> find m k = Some b -> find m n = Some c -> b_free b = true -> b_free c = true ->
  k + b_size b = n ->
  let m' := insert k (resize (b_size b +w b_size c) b) (erase n m) in
  same_live m m' /\ find m' k = Some (resize (b_size b + b_size c) b).
Proof.
  intros W Hf Hg Fb Fc Hkn m'.
  pose proof (find_bounds _ _ _ _ _ (pw_ivs _ W) Hf) as Hb. pose proof (find_bounds _ _ _ _ _ (pw_ivs _ W) Hg) as Hc.
  unfold size_of, block_sized, hi in Hb, Hc.
  subst m'. rewrite u64_small by (unfold in_u64; lia).
  destruct (join_two 1 hi m k b n c (resize (b_size b + b_size c) b)) as (I & G1 & G2 & Go & A); [apply W|done..|].
  destruct (pw_ok _ W _ _ Hf) as [K1 K2 K3]. destruct (pw_ok _ W _ _ Hg) as [L1 L2 L3]. split; [|done]. split.
  - split; [done|]. intros k' d Hd. destruct (decide (k' = k)) as [->|N1].
    { rewrite G1 in Hd. simplify_eq. split; cbn; [done|auto|by rewrite Fb]. }
    destruct (decide (k' = n)) as [->|N2]; [by rewrite G2 in Hd|]. rewrite Go in Hd by done. by apply W.
  - intros x. unfold live. destruct (decide (x = k)) as [->|N1]; [by rewrite G1, Hf; cbn; rewrite Fb|].
    destruct (decide (x = n)) as [->|N2]; [by rewrite G2, Hg, Fc|]. by rewrite Go.
  - intros x. unfold covered. rewrite A. change (size_of (resize (b_size b + b_size c) b)) with (b_size b + b_size c).
    pose proof (find_at_addr _ _ _ _ _ x (pw_ivs _ W) Hf) as Hx. pose proof (find_at_addr _ _ _ _ _ x (pw_ivs _ W) Hg) as Hy.
    change (size_of b) with (b_size b) in Hx. change (size_of c) with (b_size c) in Hy.
    destruct (Z.leb_spec k x), (Z.ltb_spec x (k + (b_size b + b_size c))); cbn; try done.
    destruct (Z.lt_ge_cases x n); [rewrite Hx by lia|rewrite Hy by lia]; split; intros _; eauto.
Qed.

(** Changing what a block says without changing its length. *)
Lemma set_block m k b b' :
  blocks_wf m -> find m k = Some b -> b_size b' = b_size b -> block_ok k b' ->
  blocks_wf (insert k b' m) /\
  (forall x, live (insert k b' m) x =
    if decide (x = k) then if b_free b' then None else Some (Allocation (requested b') (b_tag b')) else live m x) /\
  (forall x, covered (insert k b' m) x <-> covered m x).
Proof.
  intros W Hf Hs Hk. destruct (insert_same 1 hi m k b' b) as [I A]; [apply W|done|done|].
  split_and!.
  - split; [done|]. intros k' c Hc. destruct (decide (k' = k)) as [->|N].
    + rewrite find_insert_eq in Hc. by simplify_eq.
    + rewrite find_insert_ne in Hc by done. by apply W.
  - intros x. unfold live. case_decide as N; [subst x; by rewrite find_insert_eq|by rewrite find_insert_ne].
  - intros x. unfold covered. rewrite A. destruct ((k <=? x) && (x <? k + size_of b')) eqn:E; [|done].
    apply andb_true_iff in E as [E1%Z.leb_le E2%Z.ltb_lt]. change (size_of b') with (b_size b') in E2.
    rewrite (find_at_addr _ _ _ _ _ x (pw_ivs _ W) Hf) by (unfold size_of, block_sized; lia). split; intros _; eauto.
Qed.

(** A run that was not covered becomes one free block. *)
Lemma add_run m a n :
  blocks_wf m -> a mod Pool.page_size = 0 -> n mod Pool.page_size = 0 -> 0 < a -> 0 < n -> a + n < 2 ^ 64 ->
  (forall x, a <= x < a + n -> ~ covered m x) ->
  let m' := emplace a (free_block n) m in
  blocks_wf m' /\ find m' a = Some (free_block n) /\ (forall x, live m' x = live m x) /\
  (forall x, covered m' x <-> covered m x \/ a <= x < a + n).
Proof.
  intros W Pa Pn Ha Hn He Hc m'.
  assert (a + n <= hi) as Hhi.
  { unfold hi, Pool.page_size in *. apply Z.mod_divide in Pa as [p ->]; [|lia]. apply Z.mod_divide in Pn as [q ->]; [|lia]. lia. }
  assert (forall x, a <= x < a + n -> at_addr m x = None) as Hnone.
  { intros x Hx. destruct (at_addr m x) as [e|] eqn:E; [|done]. exfalso. apply (Hc x Hx). unfold covered. by rewrite E. }
  assert (find m a = None) as Hfa.
  { destruct (find m a) as [c|] eqn:E; [|done]. pose proof (find_bounds _ _ _ _ _ (pw_ivs _ W) E).
    pose proof (Hnone a ltac:(lia)) as Hna. by rewrite (find_at_addr _ _ _ _ _ a (pw_ivs _ W) E) in Hna by lia. }
  subst m'. unfold emplace. rewrite Hfa.
  destruct (insert_new 1 hi m a (free_block n)) as [I A]; [apply W|lia|done|done|done|]. split_and!.
  - split; [done|]. intros k' c Hk. destruct (decide (k' = a)) as [->|N].
    + rewrite find_insert_eq in Hk. simplify_eq. split; cbn; auto; done.
    + rewrite find_insert_ne in Hk by done. by apply W.
  - apply find_insert_eq.
  - intros x. unfold live. destruct (decide (x = a)) as [->|N]; [by rewrite find_insert_eq, Hfa|by rewrite find_insert_ne].
  - intros x. unfold covered. rewrite A. change (size_of (free_block n)) with n.
    destruct (Z.leb_spec a x), (Z.ltb_spec x (a + n)); cbn; (split; [|]); intros Hx; eauto; try (by left); try (destruct Hx; [done|lia]).
Qed.

(** ** [allocate]: finding and carving *)

Lemma first_fit_spec lo m alignment needed k addr :
  ivs lo hi m -> first_fit m alignment needed = Some (k, addr) ->
  exists b, find m k = Some b /\ b_free b = true /\ addr = align_up k alignment /\
    u64 ((addr -w k) + needed) <= b_size b.
Proof.
  revert lo. induction m as [|[k0 b0] t IH]; intros lo Hm; cbn [first_fit]; [done|].
  cbn in Hm. destruct Hm as (H1 & H2 & H3 & H4).
  assert (first_fit t alignment needed = Some (k, addr) ->
    exists b, find ((k0, b0) :: t) k = Some b /\ b_free b = true /\ addr = align_up k alignment /\
      u64 ((addr -w k) + needed) <= b_size b) as Hrec.
  { intros E. destruct (IH _ H4 E) as (b & F & R). exists b. split; [|done]. cbn.
    pose proof (find_bounds _ _ _ _ _ H4 F). by rewrite (proj2 (Z.eqb_neq k k0)) by lia. }
  destruct (b_free b0) eqn:Fb; [|done]. cbn [negb]. cbn zeta.
  destruct (Z.leb_spec (u64 ((align_up k0 alignment -w k0) + needed)) (b_size b0)) as [Hle|]; [|done].
  intros [= <- <-]. exists b0. cbn. rewrite Z.eqb_refl. done.
Qed.

Lemma block_at_some m k b : find m k = Some b -> block_at m k = b.
Proof. unfold block_at. by intros ->. Qed.

Definition carved m m' (addr size tag : Z) : Prop :=
  blocks_wf m' /\ live m addr = None /\
  (forall x, live m' x = if decide (x = addr) then Some (Allocation size tag) else live m x) /\
  (forall x, covered m' x <-> covered m x) /\
  (forall x, addr <= x < addr + size -> covered m x) /\
  exists b, find m' addr = Some b /\ b_free b = false /\ size <= b_size b.

Lemma carve_spec m k b addr needed size tag :
  blocks_wf m -> find m k = Some b -> b_free b = true ->
  k <= addr -> addr mod pool_alignment = 0 -> needed mod pool_alignment = 0 -> 0 < size <= needed ->
  (addr - k) + needed <= b_size b ->
  carved m (carve k addr needed size tag m) addr size tag.
Proof.
  intros W Hf Fb Hka Ha Hn Hsz Hfit.
  pose proof (find_bounds _ _ _ _ _ (pw_ivs _ W) Hf) as Hb. unfold size_of, block_sized, hi in Hb.
  destruct (pw_ok _ W _ _ Hf) as [K1 K2 K3].
  assert (live m addr = None) as Hla.
  { unfold live. destruct (decide (addr = k)) as [->|]; [by rewrite Hf, Fb|]. by rewrite (inside_none m k b) by (done || lia). }
  unfold carve. rewrite (block_at_some _ _ _ Hf). rewrite !(u64_small (addr - k)) by (unfold in_u64; lia).
  (* the part before the aligned address *)
  set (p := if 0 <? addr - k then _ else _).
  assert (exists m1 b1, p = (addr, m1) /\ same_live m m1 /\ find m1 addr = Some b1 /\ b_free b1 = true /\
    b_size b1 = b_size b - (addr - k)) as (m1 & b1 & -> & S1 & F1 & Fb1 & Hs1).
  { subst p. destruct (Z.ltb_spec 0 (addr - k)).
    - rewrite u64_small by (unfold in_u64; lia).
      destruct (cut_free m k b (resize (addr - k) b) (free_block (b_size b - (addr - k)))) as (S & _ & F2); cbn; try done; try lia; [auto|].
      cbn in S, F2. replace (k + (addr - k)) with addr in * by lia. eauto 10.
    - assert (addr = k) as -> by lia. exists m, b. split_and!; [done|by apply same_live_refl|done|done|lia]. }
  rewrite (block_at_some _ _ _ F1).
  (* the part after it *)
  pose proof (sl_wf _ _ S1) as W1.
  set (q := if needed <? b_size b1 then _ else _).
  assert (exists m2 b2, q = (b2, m2) /\ same_live m1 m2 /\ find m2 addr = Some b2 /\ b_size b2 = needed)
    as (m2 & b2 & -> & S2 & F2 & Hs2).
  { subst q. rewrite Hs1. destruct (Z.ltb_spec needed (b_size b - (addr - k))).
    - rewrite !u64_small by (unfold in_u64; lia).
      destruct (cut_free m1 addr b1 (resize needed b1) (free_block (b_size b - (addr - k) - needed))) as (S & G & _); cbn; try done; try lia.
      cbn in S, G. do 2 eexists. split_and!; [done|exact S|exact G|done].
    - exists m1, b1. split_and!; [done|by apply same_live_refl|done|lia]. }
  pose proof (same_live_trans _ _ _ S1 S2) as [W2 L2 C2].
  destruct (pw_ok _ W2 _ _ F2) as [J1 J2 _].
  destruct (set_block m2 addr b2 (Block (b_size b2) size tag false) W2 F2) as (W3 & L3 & C3); [done|by split; cbn; try done; lia|].
  split_and!; [done|done|..].
  - intros x. rewrite L3. by case_decide.
  - intros x. by rewrite C3.
  - intros x Hx. unfold covered. rewrite (find_at_addr _ _ _ _ _ x (pw_ivs _ W) Hf); [eauto|]. unfold size_of, block_sized. lia.
  - exists (Block (b_size b2) size tag false). split_and!; [apply find_insert_eq|done|cbn; lia].
Qed.

(** ** [free]: joining *)

Lemma join_next_spec m k b :
  blocks_wf m -> find m k = Some b -> b_free b = true ->
  same_live m (join_next k m) /\ exists b', find (join_next k m) k = Some b' /\ b_free b' = true.
Proof.
  intros W Hf Fb. unfold join_next. rewrite (block_at_some _ _ _ Hf).
  assert (same_live m m /\ exists b', find m k = Some b' /\ b_free b' = true) as Hid by (split; [by apply same_live_refl|eauto]).
  destruct (upper_bound m k) as [|[n c] t] eqn:E; [done|].
  destruct (next_find _ _ _ _ _ _ _ _ (pw_ivs _ W) Hf E) as [Hn _].
  destruct (b_free c) eqn:Fc; [|done]. cbn [andb].
  pose proof (find_bounds _ _ _ _ _ (pw_ivs _ W) Hf) as Hb. unfold size_of, block_sized, hi in Hb.
  rewrite (u64_small (k + b_size b)) by (unfold in_u64; lia).
  destruct (Z.eqb_spec (k + b_size b) n) as [Hkn|]; [|done].
  destruct (join_free m k b n c) as [S F]; try done. split; [done|]. eexists. split; [exact F|done].
Qed.

Lemma join_prev_spec m k b :
  blocks_wf m -> find m k = Some b -> b_free b = true -> same_live m (join_prev k m).
Proof.
  intros W Hf Fb. unfold join_prev. rewrite (block_at_some _ _ _ Hf).
  destruct (floor m (k - 1)) as [[p c]|] eqn:E; [|by apply same_live_refl].
  destruct (floor_spec _ _ _ _ _ _ (pw_ivs _ W) E) as [Hp Hfp].
  destruct (b_free c) eqn:Fc; [|by apply same_live_refl]. cbn [andb].
  pose proof (find_bounds _ _ _ _ _ (pw_ivs _ W) Hfp) as Hb. unfold size_of, block_sized, hi in Hb.
  rewrite (u64_small (p + b_size c)) by (unfold in_u64; lia).
  destruct (Z.eqb_spec (p + b_size c) k) as [Hkn|]; [|by apply same_live_refl].
  by destruct (join_free m p c k b).
Qed.

(** Live allocations do not overlap. *)
Lemma live_apart m a r a' r' :
  blocks_wf m -> live m a = Some r -> live m a' = Some r' -> a <> a' ->
  a + a_size r <= a' \/ a' + a_size r' <= a.
Proof.
  intros W. unfold live. destruct (find m a) as [b|] eqn:E; [|done]. destruct (b_free b) eqn:F; [done|]. intros [= <-].
  destruct (find m a') as [b'|] eqn:E'; [|done]. destruct (b_free b') eqn:F'; [done|]. intros [= <-] Hne. cbn.
  pose proof (ivs_apart _ _ _ _ _ _ _ (pw_ivs _ W) E E' Hne) as Ha. unfold size_of, block_sized in Ha.
  pose proof (bk_used _ _ (pw_ok _ W _ _ E) F). pose proof (bk_used _ _ (pw_ok _ W _ _ E') F'). lia.
Qed.

End Blocks.
