(* ===== verification/PoolClaims.v ===== *)
(** * The kernel pool: the theorems

    [allocate] and [free] of kernel/win/pool.cpp over any address space that
    keeps the contract of [PoolSpaceLaws], and the entry points of
    modules/nt_pool_ops.cpp. *)

From S2P Require Import Prelude Mmu OrdMap Pool PoolThm.
From stdpp Require Import options.

Open Scope Z_scope.
Open Scope kern_scope.

Import Pool.

Section Claims.
Context {X : Type} {ps : PoolSpace X} {laws : PoolSpaceLaws X}.
Implicit Types (s : win_pool X).

(** Blocks lie in what the space gave out. *)
Definition pool_wf s : Prop :=
  blocks_wf (blocks_ s) /\ forall x, covered (blocks_ s) x -> given (space_ s) x.

Lemma wp_on_space {A} (f : st X A) s Q E :
  (forall a x, f (space_ s) = (Ok a, x) -> Q a (WinPool x (blocks_ s))) ->
  (forall e x, f (space_ s) = (Throw e, x) -> E e (WinPool x (blocks_ s))) -> wp (on_space f) s Q E.
Proof using Type. intros HQ HE. unfold wp, on_space. destruct (f (space_ s)) as [[a|e] x]; auto. Qed.

Definition alignment_of (size : Z) : Z := if Pool.page_size <=? size then Pool.page_size else pool_alignment.
Definition run_of (size : Z) : Z :=
  align_up (Z.max (align_up size pool_alignment + alignment_of size) run_size) Pool.page_size.

Lemma alignment_ok size :
  pow2 (alignment_of size) /\ 0 < alignment_of size <= 0x1000 /\
  forall a, a mod alignment_of size = 0 -> a mod pool_alignment = 0.
Proof using Type.
  unfold alignment_of. destruct (Z.leb_spec Pool.page_size size).
  - split_and!; [apply pow2_page|done|done|apply page_unit].
  - split_and!; [apply pow2_alignment|done|done|done].
Qed.

(** The block a request is carved from. *)
Definition source s0 size (it : Z * Z) s : Prop :=
  pool_wf s /\ (forall x, live (blocks_ s) x = live (blocks_ s0) x) /\
  exists b, find (blocks_ s) it.1 = Some b /\ b_free b = true /\ it.2 = align_up it.1 (alignment_of size) /\
    (it.2 - it.1) + align_up size pool_alignment <= b_size b.

Lemma needed_ok size : 0 < size < 2 ^ 62 ->
  align_up size pool_alignment mod pool_alignment = 0 /\ size <= align_up size pool_alignment < size + 16.
Proof using Type.
  intros H. split; [apply align_up_mod, pow2_alignment|]. apply align_up_bounds; [apply pow2_alignment|lia|unfold pool_alignment; lia].
Qed.

Lemma find_block s size E :
  pool_wf s -> 0 < size < 2 ^ 62 -> room_for (space_ s) (run_of size) ->
  (forall e s', pool_wf s' -> blocks_ s' = blocks_ s -> E e s') ->
  wp (match first_fit (blocks_ s) (alignment_of size) (align_up size pool_alignment) with
      | Some it => ret it
      | None => let! k := reserve (align_up size pool_alignment +w alignment_of size) in ret (k, align_up k (alignment_of size))
      end) s (source s size) E.
Proof using laws.
  intros [W Hg] Hsz Hroom HE. destruct (needed_ok size Hsz) as [N1 N2].
  destruct (alignment_ok size) as (A1 & A2 & A3).
  destruct (first_fit _ _ _) as [[k addr]|] eqn:Ef.
  - destruct (first_fit_spec _ _ _ _ _ _ (pw_ivs _ W) Ef) as (b & Hf & Fb & -> & Hfit).
    pose proof (find_bounds _ _ _ _ _ (pw_ivs _ W) Hf) as Hb. unfold size_of, block_sized, hi in Hb.
    pose proof (align_up_bounds k _ A1 ltac:(lia) ltac:(lia)) as Hu.
    rewrite (u64_small (align_up k (alignment_of size) - k)), u64_small in Hfit by (unfold in_u64; lia).
    split_and!; [done|done|]. exists b. done.
  - unfold reserve. rewrite u64_small by (unfold in_u64; lia). fold (run_of size).
    assert (run_of size mod Pool.page_size = 0 /\ 0 < run_of size /\ align_up size pool_alignment + alignment_of size <= run_of size) as (R1 & R2 & R3).
    { split; [apply align_up_mod, pow2_page|]. unfold run_of.
      pose proof (align_up_bounds (Z.max (align_up size pool_alignment + alignment_of size) run_size) _ pow2_page) as Hu.
      unfold run_size, Pool.page_size in *. lia. }
    apply wp_bind, wp_bind, wp_on_space.
    + intros a x Ha. destruct (ps_alloc_ok _ (Z.lor prot_rw prot_supervisor) _ _ _ eq_refl R2 Hroom Ha) as (L1 & L2 & L3 & L4 & L5).
      destruct (add_run (blocks_ s) a (run_of size) W L1 R1 L2 R2 L3) as (W' & F' & V' & C').
      { intros y Hy Hc. apply (L4 y Hy), Hg, Hc. }
      pose proof (align_up_id a (alignment_of size) A1 ltac:(lia)) as Hid.
      apply wp_bind. unfold wp, on_blocks, modify, ret. cbn [space_ blocks_]. split_and!.
      * split; [done|]. intros y [Hy|Hy]%C'; apply L5; [left; by apply Hg|by right].
      * done.
      * exists (free_block (run_of size)). cbn [fst snd]. split_and!; [done|done|done|].
        pose proof (align_up_bounds a (alignment_of size) A1) as Hu. cbn. lia.
    + intros e x Hx. apply HE; [|done]. split; [done|]. intros y Hy.
      apply (ps_alloc_throw _ (Z.lor prot_rw prot_supervisor) _ _ _ eq_refl Hroom Hx). by apply Hg.
Qed.

Lemma pool_allocate_ok s size tag zero :
  pool_wf s -> 0 <= size < 2 ^ 62 -> room_for (space_ s) (run_of size) ->
  wp (allocate size tag zero) s
    (fun a s' => pool_wf s' /\
      if size =? 0 then a = 0 /\ s' = s else
      0 < a /\ a + size < 2 ^ 64 /\ a mod 16 = 0 /\ (0x1000 <= size -> a mod 0x1000 = 0) /\
      live (blocks_ s) a = None /\
      (forall x, live (blocks_ s') x = if decide (x = a) then Some (Allocation size tag) else live (blocks_ s) x) /\
      (forall a' r', live (blocks_ s) a' = Some r' -> a + size <= a' \/ a' + a_size r' <= a))
    (fun e s' => pool_wf s' /\ forall x r, live (blocks_ s) x = Some r -> live (blocks_ s') x = Some r).
Proof using laws.
  intros W Hsz Hroom. unfold allocate. destruct (Z.eqb_spec size 0) as [->|Hs0]; [by split|]. cbn zeta.
  fold (alignment_of size). destruct (needed_ok size ltac:(lia)) as [N1 N2]. destruct (alignment_ok size) as (A1 & A2 & A3).
  unfold wp at 1, get, bind at 1. apply wp_bind.
  eapply wp_mono; [apply (find_block s size (fun _ s' => pool_wf s' /\ blocks_ s' = blocks_ s) W ltac:(lia) Hroom); by auto| |].
  2: { intros e s' [W' Eb]. split; [done|]. intros x r. by rewrite Eb. }
  intros [k addr] s1 ([W1 G1] & L1 & b & Hf & Fb & Ea & Hfit). cbn [fst snd] in *.
  pose proof (find_bounds _ _ _ _ _ (pw_ivs _ W1) Hf) as Hb. unfold size_of, block_sized, hi in Hb.
  pose proof (align_up_bounds k _ A1 ltac:(lia) ltac:(lia)) as Hu. rewrite <- Ea in Hu.
  assert (addr mod alignment_of size = 0) as Ham by (rewrite Ea; by apply align_up_mod).
  pose proof (carve_spec (blocks_ s1) k b addr (align_up size pool_alignment) size tag W1 Hf Fb ltac:(lia) (A3 _ Ham) N1 ltac:(lia) ltac:(lia))
    as (W2 & La & L2 & C2 & Cv & b2 & F2 & Fb2 & Hs2).
  set (m2 := carve _ _ _ _ _ _) in *.
  assert (forall x : X, (forall y, given (space_ s1) y -> given x y) ->
    let s' := WinPool x m2 in pool_wf s' /\
      0 < addr /\ addr + size < 2 ^ 64 /\ addr mod 16 = 0 /\ (0x1000 <= size -> addr mod 0x1000 = 0) /\
      live (blocks_ s) addr = None /\
      (forall x, live (blocks_ s') x = if decide (x = addr) then Some (Allocation size tag) else live (blocks_ s) x) /\
      (forall a' r', live (blocks_ s) a' = Some r' -> addr + size <= a' \/ a' + a_size r' <= addr)) as Hdone.
  { intros x Hx s'. split; [split; [done|]; intros y Hy; apply Hx, G1, C2, Hy|].
    split_and!; [lia|lia|by apply A3| | |intros y; cbn; rewrite L2; by case_decide|].
    - intros Hp. unfold alignment_of in Ham. by rewrite (proj2 (Z.leb_le Pool.page_size size)) in Ham by done.
    - by rewrite <- L1.
    - intros a' r' Hr. assert (a' <> addr) by (intros ->; rewrite <- L1 in Hr; congruence).
      apply (live_apart m2 addr (Allocation size tag) a' r'); [done| | |done]; rewrite L2.
      + by rewrite decide_True.
      + by rewrite decide_False, L1. }
  apply wp_bind. unfold wp at 1, on_blocks, modify. apply wp_bind. fold m2. clearbody m2. destruct zero.
  - apply wp_on_space; cbn [space_ blocks_]; intros r x Hx.
    + apply (Hdone x). intros y Hy. pose proof (ps_write_given addr (replicate (Z.to_nat size) 0) _ _ Hy) as H. by rewrite Hx in H.
    + destruct (Hdone x) as (Wx & _ & _ & _ & _ & Hn & Hl & _).
      { intros y Hy. pose proof (ps_write_given addr (replicate (Z.to_nat size) 0) _ _ Hy) as H. by rewrite Hx in H. }
      split; [done|]. intros y q Hq. rewrite Hl. case_decide; [congruence|done].
  - apply (Hdone (space_ s1)). done.
Qed.

(** C19: [allocate] of a non-zero size, when it returns, returns an address that
    is 16-byte aligned, and page aligned for a page or more; it was not a live
    allocation, its bytes meet those of no live allocation, and the live
    allocations are the ones there were and this one, with its size and tag.
    Every address of the pool stays in one block and inside what the space gave
    out, also when the space throws, and then no live allocation is lost. *)
Theorem pool_allocate_correct s size tag zero :
  pool_wf s -> 0 <= size < 2 ^ 62 -> room_for (space_ s) (run_of size) ->
  wp (allocate size tag zero) s
    (fun a s' => pool_wf s' /\
      if size =? 0 then a = 0 /\ s' = s else
      0 < a /\ a + size < 2 ^ 64 /\ a mod 16 = 0 /\ (0x1000 <= size -> a mod 0x1000 = 0) /\
      live (blocks_ s) a = None /\
      (forall x, live (blocks_ s') x = if decide (x = a) then Some (Allocation size tag) else live (blocks_ s) x) /\
      (forall a' r', live (blocks_ s) a' = Some r' -> a + size <= a' \/ a' + a_size r' <= a))
    (fun e s' => pool_wf s' /\ forall x r, live (blocks_ s) x = Some r -> live (blocks_ s') x = Some r).
Proof using laws. apply pool_allocate_ok. Qed.

Lemma pool_free_ok s a :
  pool_wf s ->
  exists s', free a s = (Ok (live (blocks_ s) a), s') /\ pool_wf s' /\
    (live (blocks_ s) a = None -> s' = s) /\
    (forall x, live (blocks_ s') x = if decide (x = a) then None else live (blocks_ s) x) /\
    (forall x, covered (blocks_ s') x <-> covered (blocks_ s) x) /\
    free a s' = (Ok None, s').
Proof using Type.
  intros [W G]. unfold free at 1, get, bind at 1.
  assert (forall s', live (blocks_ s') a = None -> free a s' = (Ok None, s')) as Hdead.
  { intros s' Hl. unfold free, get, bind at 1. unfold live in Hl. destruct (find (blocks_ s') a) as [b|]; [|done].
    by destruct (b_free b). }
  destruct (live (blocks_ s) a) as [r|] eqn:Hl.
  2: { exists s. pose proof (Hdead s Hl) as Hd. unfold free, get, bind at 1 in Hd.
       split_and!; try done. intros x. case_decide; [by subst|done]. }
  unfold live in Hl. destruct (find (blocks_ s) a) as [b|] eqn:Hf; [|done]. destruct (b_free b) eqn:Fb; [done|]. simplify_eq.
  destruct (pw_ok _ W _ _ Hf) as [K1 K2 K3].
  destruct (set_block (blocks_ s) a b (set_free b) W Hf) as (W1 & L1 & C1); [done|by split|].
  destruct (join_next_spec _ a (set_free b) W1 (find_insert_eq _ _ _) eq_refl) as (S2 & b2 & F2 & Fb2).
  pose proof (same_live_trans _ _ _ S2 (join_prev_spec _ a b2 (sl_wf _ _ S2) F2 Fb2)) as [W3 L3 C3].
  eexists. split; [reflexivity|]. cbn [blocks_ space_].
  assert (forall x, live (join_prev a (join_next a (insert a (set_free b) (blocks_ s)))) x = if decide (x = a) then None else live (blocks_ s) x) as HL.
  { intros x. by rewrite L3, L1. }
  split_and!.
  - split; [done|]. intros x Hx. cbn in Hx. apply G. by apply C1, C3.
  - done.
  - exact HL.
  - intros x. by rewrite C3.
  - apply Hdead. cbn. rewrite HL. by rewrite decide_True.
Qed.

(** C20: [free] of a live allocation returns its size and tag and ends it, and it
    alone; of any other address, one freed already included, it returns nothing
    and changes nothing.  It never throws, and no address leaves the pool. *)
Theorem pool_free_correct s a :
  pool_wf s ->
  exists s', free a s = (Ok (live (blocks_ s) a), s') /\ pool_wf s' /\
    (live (blocks_ s) a = None -> s' = s) /\
    (forall x, live (blocks_ s') x = if decide (x = a) then None else live (blocks_ s) x) /\
    (forall x, covered (blocks_ s') x <-> covered (blocks_ s) x) /\
    free a s' = (Ok None, s').
Proof using Type. apply pool_free_ok. Qed.

End Claims.

(** ** The entry points *)

Section Entry.
Context {X : Type} {ps : PoolSpace X}.

Lemma pool_type_tag_nonzero tag : negb (pool_type_tag tag =? 0) = true.
Proof. unfold pool_type_tag. destruct (Z.eqb_spec (Z.land tag 0x7FFFFFFF) 0) as [|H]; [done|]. by rewrite (proj2 (Z.eqb_neq _ _) H). Qed.

(** Only the eight bits of the type that are read matter. *)
Lemma flags_from_type_valid pool_type tag quota :
  flags_are_valid (Z.lor (pool_flags_from_type pool_type) quota) (pool_type_tag tag) =
    flags_are_valid (Z.lor (pool_flags_from_type pool_type) quota) 1 /\
  (quota = 0 \/ quota = pool_flag_use_quota ->
   flags_are_valid (Z.lor (pool_flags_from_type pool_type) quota) 1 = true /\
   (Z.land (Z.lor (pool_flags_from_type pool_type) quota) pool_flag_uninitialized =? 0) = has pool_type pool_type_zero).
Proof.
  split; [unfold flags_are_valid; by rewrite pool_type_tag_nonzero|].
  unfold pool_flags_from_type.
  destruct (has pool_type pool_type_raise_on_failure), (has pool_type pool_type_reserved3),
    (has pool_type pool_type_special), (has pool_type pool_type_cache_aligned), (has pool_type pool_type_zero),
    (has pool_type pool_type_session), (has pool_type pool_type_paged), (has pool_type pool_type_nx);
    intros [-> | ->]; vm_compute; done.
Qed.

Lemma pool_allocate_valid flags size tag (s : win_pool X) :
  flags_are_valid flags tag = true ->
  pool_allocate flags size tag s = allocate size tag (Z.land flags pool_flag_uninitialized =? 0) s.
Proof.
  intros H. unfold pool_allocate. rewrite H. cbn [negb]. unfold bind. destruct (allocate _ _ _ s) as [[a|e] s']; [|done].
  destruct (Z.eqb_spec a 0) as [->|]; done.
Qed.

(** whatever the pool type and the tag, the older entry points pass the
    validation of the newer ones: each is [allocate] with the tag's reserved bit
    cleared (or the default tag) and zeroing exactly when the type asks for it. *)
Theorem pool_types_accepted pool_type size tag (s : win_pool X) :
  ExAllocatePoolWithTag pool_type size tag s = allocate size (pool_type_tag tag) (has pool_type pool_type_zero) s /\
  ExAllocatePoolWithQuotaTag pool_type size tag s = allocate size (pool_type_tag tag) (has pool_type pool_type_zero) s /\
  ExAllocatePool pool_type size s = allocate size default_pool_tag (has pool_type pool_type_zero) s.
Proof.
  unfold ExAllocatePoolWithTag, ExAllocatePoolWithQuotaTag, ExAllocatePool.
  rewrite <- (Z.lor_0_r (pool_flags_from_type pool_type)) at 1 3.
  destruct (flags_from_type_valid pool_type tag 0) as [A1 A2]. destruct (A2 ltac:(by left)) as [A3 A4].
  destruct (flags_from_type_valid pool_type tag pool_flag_use_quota) as [B1 B2]. destruct (B2 ltac:(by right)) as [B3 B4].
  destruct (flags_from_type_valid pool_type default_pool_tag 0) as [C1 _].
  change (pool_type_tag default_pool_tag) with default_pool_tag in C1.
  split_and!; rewrite pool_allocate_valid by congruence; by rewrite ?A4, ?B4.
Qed.

End Entry.

(** ** Tags *)

Lemma byte_high c n : 0 <= c < 256 -> 8 <= n -> Z.testbit c n = false.
Proof.
  intros Hc Hn. destruct (decide (c = 0)) as [->|]; [apply Z.testbit_0_l|].
  apply Z.bits_above_log2; [lia|]. assert (Z.log2 c < 8); [|lia]. apply Z.log2_lt_pow2; lia.
Qed.

Lemma u32_shifted c j : 0 <= c < 256 -> 0 <= j <= 24 -> u32 (Z.shiftl c j) = Z.shiftl c j.
Proof.
  intros Hc Hj. unfold u32. rewrite Z.shiftl_mul_pow2 by lia. apply Z.mod_small.
  assert (2 ^ j <= 2 ^ 24) by (apply Z.pow_le_mono_r; lia). assert (0 < 2 ^ j) by (apply Z.pow_pos_nonneg; lia). nia.
Qed.

Lemma pool_tag_byte c0 c1 c2 c3 :
  0 <= c0 < 256 -> 0 <= c1 < 256 -> 0 <= c2 < 256 -> 0 <= c3 < 256 ->
  map (fun i => Z.land (Z.shiftr (pool_tag c0 c1 c2 c3) (i * 8)) 0xFF) [0; 1; 2; 3] = [c0; c1; c2; c3].
Proof.
  intros H0 H1 H2 H3. unfold pool_tag, u8. rewrite !Z.mod_small by lia.
  rewrite !u32_shifted by lia. unfold u32. rewrite (Z.mod_small c0) by lia. cbn [map].
  change 0xFF with (Z.ones 8).
  repeat (apply f_equal2; [apply Z.bits_inj'; intros n Hn|]); [..|done].
  all: rewrite Z.land_spec, Z.testbit_ones_nonneg, Z.shiftr_spec, !Z.lor_spec, !Z.shiftl_spec by lia.
  all: destruct (Z.ltb_spec n 8).
  all: rewrite ?andb_true_r, ?andb_false_r.
  all: try (rewrite byte_high by lia; done).
  all: repeat match goal with |- context [Z.testbit ?c ?i] =>
     first [ rewrite (Z.testbit_neg_r c i) by lia | rewrite (byte_high c i) by lia ] end.
  all: rewrite ?orb_false_r, ?orb_false_l; f_equal; lia.
Qed.

(** a tag made of four characters prints as those characters, those that
    are not printable ASCII as a dot. *)
Theorem pool_tag_roundtrip c0 c1 c2 c3 :
  0 <= c0 < 256 -> 0 <= c1 < 256 -> 0 <= c2 < 256 -> 0 <= c3 < 256 ->
  pool_tag_name (pool_tag c0 c1 c2 c3) =
    map (fun c => if (0x20 <=? c) && (c <? 0x7F) then c else 46) [c0; c1; c2; c3].
Proof.
  intros H0 H1 H2 H3. rewrite <- (pool_tag_byte c0 c1 c2 c3) by done. unfold pool_tag_name.
  rewrite map_map. apply map_ext. intros i. unfold tag_char.
  set (c := Z.land _ _). assert (0 <= c < 256) as Hc.
  { unfold c. change 0xFF with (Z.ones 8). rewrite Z.land_ones by lia. apply Z.mod_pos_bound. lia. }
  unfold signed. clearbody c. destruct (Z.ltb_spec (c mod 2 ^ 8) (2 ^ (8 - 1))) as [Hl|Hl]; rewrite Z.mod_small in * by lia; [done|].
  destruct (Z.leb_spec 0x20 (c - 2 ^ 8)), (Z.leb_spec 0x20 c), (Z.ltb_spec c 0x7F); cbn; try done; lia.
Qed.
