(* ===== verification/PoolExamples.v ===== *)
(** * The kernel pool over the x86-64 address space

    [addr_space::alloc] keeps the contract the pool relies on: it hands out
    addresses upwards from [kernel_next_].  The theorems of [PoolClaims] at a
    pool with two blocks in use. *)

From S2P Require Import Prelude Phys Mmu Space X86Mmu X86Examples.
From S2P Require Import OrdMap Pool PoolThm PoolClaims.
From stdpp Require Import options.

Open Scope Z_scope.
Open Scope kern_scope.

Import Pool.

Abbreviation x86_state := (mmu Unicorn.mem * addr_space)%type.

#[export] Instance x86_pool_space : PoolSpace x86_state := {
  ps_alloc := X86Mmu.alloc;
  ps_write_mem a bs := fun x => on_mmu (X86Mmu.write_virt x.2 a bs) x
}.

(** ** Mapping pages does not move [kernel_next_] *)

Definition keeps_cursor {A} (f : st x86_state A) : Prop := forall x, kernel_next_ (f x).2.2 = kernel_next_ x.2.

Lemma kc_ret {A} (a : A) : keeps_cursor (ret a).
Proof. done. Qed.
Lemma kc_throw {A} e : keeps_cursor (@throw _ A e).
Proof. done. Qed.
Lemma kc_on_mmu {A} (m : st (mmu Unicorn.mem) A) : keeps_cursor (on_mmu m).
Proof. intros x. unfold on_mmu. by destruct (m x.1). Qed.
Lemma kc_shadow f : keeps_cursor (Space.on_space (set_shadow f)).
Proof. done. Qed.
Lemma kc_the_space : keeps_cursor the_space.
Proof. done. Qed.
Lemma kc_bind {A B} (m : st _ A) (k : A -> st _ B) : keeps_cursor m -> (forall a, keeps_cursor (k a)) -> keeps_cursor (bind m k).
Proof.
  intros Hm Hk x. specialize (Hm x). unfold bind. destruct (m x) as [[a|e] x'] eqn:E; cbn in *; [|done]. by rewrite Hk.
Qed.
#[local] Hint Resolve kc_ret kc_throw kc_on_mmu kc_shadow kc_the_space kc_bind : core.

Lemma kc_for_off n off (body : Z -> unit -> st x86_state unit) a :
  (forall o u, keeps_cursor (body o u)) -> keeps_cursor (for_off n off body a).
Proof. intros Hb. revert off a. induction n as [|n IH]; intros off a; cbn [for_off]; auto. Qed.

Lemma kc_map_page va pa prot : keeps_cursor (X86Mmu.map_page va pa prot).
Proof. unfold X86Mmu.map_page, note. repeat (apply kc_bind; [auto|intros ?]); auto. Qed.

Lemma kc_map_virt va size prot : keeps_cursor (X86Mmu.map_virt va size prot).
Proof.
  unfold X86Mmu.map_virt, for_pages, flush. apply kc_bind; [auto|]. intros pa. apply kc_bind; [|auto].
  apply kc_for_off. intros. apply kc_map_page.
Qed.

Definition kernel_base : Z := 0xFFFFF80000000000.

Lemma x86_alloc_cursor n p x :
  has p prot_supervisor = true ->
  kernel_next_ (X86Mmu.alloc n p x).2.2 = kernel_next_ x.2 +w size_align n /\
  forall a x', X86Mmu.alloc n p x = (Ok a, x') -> a = kernel_next_ x.2.
Proof.
  intros Hp. unfold X86Mmu.alloc. rewrite Hp. destruct x as [m sp]. unfold bind, bump. cbn [snd kernel_next_].
  set (x1 := (m, Space _ _ _ _)). pose proof (kc_map_virt (kernel_next_ sp) (size_align n) p x1) as Hk.
  unfold bind. destruct (X86Mmu.map_virt (kernel_next_ sp) (size_align n) p x1) as [[u|e] x2]; cbn [snd] in Hk |- *; (split; [exact Hk|]).
  - intros a x' E. unfold ret in E. congruence.
  - done.
Qed.

#[export] Instance x86_pool_laws : PoolSpaceLaws x86_state.
Proof.
  refine {|
    given x y := kernel_base <= y < kernel_next_ x.2;
    room_for x n := kernel_next_ x.2 mod Pool.page_size = 0 /\ kernel_base <= kernel_next_ x.2 /\
      0 <= n /\ kernel_next_ x.2 + n + Pool.page_size < 2 ^ 64
  |}.
  - intros n p x a x' Hp Hn (R1 & R2 & R3 & R4) Ha. destruct (x86_alloc_cursor n p x Hp) as [Hc Hr].
    change (X86Mmu.alloc n p x = (Ok a, x')) in Ha. rewrite Ha in Hc. cbn [snd] in Hc. pose proof (Hr _ _ Ha) as ->. unfold kernel_base, Pool.page_size in *.
    destruct (size_align_ok n) as [S1 S2]; [lia|lia|]. rewrite u64_small in Hc by (unfold in_u64; lia).
    split_and!; [done|lia|lia|lia|]. intros y Hy. rewrite Hc. lia.
  - intros n p x e x' Hp (R1 & R2 & R3 & R4) Ha. destruct (x86_alloc_cursor n p x Hp) as [Hc _].
    change (X86Mmu.alloc n p x = (Throw e, x')) in Ha. rewrite Ha in Hc. cbn [snd] in Hc. unfold kernel_base, Pool.page_size in *.
    destruct (size_align_ok n) as [S1 S2]; [lia|lia|]. rewrite u64_small in Hc by (unfold in_u64; lia).
    intros y Hy. rewrite Hc. lia.
  - intros a bs x y Hy. unfold ps_write_mem, x86_pool_space. by rewrite kc_on_mmu.
Defined.

(** ** The theorems at a pool *)

(** A run of which the first 0x30 bytes and, after a hole, a page are in use. *)
Definition busy_blocks : block_map :=
  [(0xFFFFF80000000000, Block 0x30 0x28 0x41 false); (0xFFFFF80000000030, free_block 0xFD0);
   (0xFFFFF80000001000, Block 0x1000 0x1000 0x42 false); (0xFFFFF80000002000, free_block 0xFE000)].
Definition busy_space : addr_space := Space phys_base ∅ 0x10000 0xFFFFF80000100000.
Definition busy_pool : win_pool x86_state := WinPool (one_space, busy_space) busy_blocks.

Lemma busy_pool_wf : pool_wf busy_pool.
Proof.
  split.
  - split; [cbn; unfold hi; lia|]. intros k b Hf. cbn in Hf.
    repeat match type of Hf with context [k =? ?c] =>
      destruct (Z.eqb_spec k c) as [->|]; [injection Hf as <-; split; [done|done|cbn; intros; first [done|lia]]|] end. done.
  - intros x [[k b] Hx]. cbn in Hx |- *. unfold kernel_base, size_of, block_sized in *. cbn [b_size free_block] in Hx.
    repeat match type of Hx with context [(?p <=? x) && (x <? ?q)] =>
      destruct ((p <=? x) && (x <? q)) eqn:?E end; lia || done.
Qed.

(** A page comes from the tail of the run: the hole before the page in use is
    too small. *)
Lemma pool_allocate_witness :
  wp (allocate 0x1000 0x43 true) busy_pool (fun a s' => a mod 0x1000 = 0 /\ pool_wf s') (fun _ s' => pool_wf s').
Proof.
  eapply wp_mono; [apply (pool_allocate_correct busy_pool 0x1000 0x43 true busy_pool_wf)| |].
  - lia.
  - vm_compute. split_and!; congruence.
  - intros a s' (W & _ & _ & _ & Ha & _). split; [by apply Ha|done].
  - intros e s' [W _]. exact W.
Defined.

(** Freeing the page joins it with both holes; freeing it again is refused. *)
Lemma pool_free_witness :
  exists s', free 0xFFFFF80000001000 busy_pool = (Ok (Some (Allocation 0x1000 0x42)), s') /\
    free 0xFFFFF80000001000 s' = (Ok None, s').
Proof.
  destruct (pool_free_correct busy_pool 0xFFFFF80000001000 busy_pool_wf) as (s' & E & _ & _ & _ & _ & H).
  exists s'. split; [exact E|exact H].
Defined.

Lemma pool_tag_witness : pool_tag_name (pool_tag 0x41 0x62 0x07 0x64) = [0x41; 0x62; 0x2E; 0x64].
Proof. apply (pool_tag_roundtrip 0x41 0x62 0x07 0x64); lia. Defined.
