(* ===== verification/Thread.v ===== *)
(** * Threads, dispatcher objects and waits

    class thread of kernel/thread_scheduler.hpp with what kernel/win/thread.cpp
    adds to it, and the dispatcher objects of kernel/win/dispatcher.hpp that a
    thread waits on.  Guest memory is seen through the headers the code reads and
    writes: an object per address. *)

From S2P Require Import Prelude Mmu.
From stdpp Require Import list.
From stdpp Require Import options.

Open Scope Z_scope.
Open Scope kern_scope.

(** ** Dispatcher objects *)

Definition event_notification_object : Z := 0.
Definition event_synchronization_object : Z := 1.
Definition mutant_object : Z := 2.
Definition process_object : Z := 3.
Definition queue_object : Z := 4.
Definition semaphore_object : Z := 5.
Definition thread_object : Z := 6.
Definition timer_notification_object : Z := 8.

(** _DISPATCHER_HEADER, and the fields of _KMUTANT and _KSEMAPHORE after it. *)
Record kobject : Type := KObject {
  k_type : Z; k_size : Z; k_state : Z; k_owner : Z; k_limit : Z
}.

Definition space : Type := Z -> kobject.
Definition set_object (a : Z) (o : kobject) (sp : space) : space := fun x => if x =? a then o else sp x.

Definition set_state (n : Z) (o : kobject) : kobject := KObject (k_type o) (k_size o) n (k_owner o) (k_limit o).
Definition set_owner (w : Z) (o : kobject) : kobject := KObject (k_type o) (k_size o) (k_state o) w (k_limit o).

Definition type_at (sp : space) (a : Z) : Z := k_type (sp a).
Definition state_at (sp : space) (a : Z) : Z := k_state (sp a).
Definition set_state_at (a n : Z) (sp : space) : space := set_object a (set_state (s32 n) (sp a)) sp.

Definition init_dispatcher (a type size state : Z) (sp : space) : space :=
  set_object a (KObject type size state (k_owner (sp a)) (k_limit (sp a))) sp.

Definition is_signalled (sp : space) (object waiter : Z) : bool :=
  let state := state_at sp object in
  if (state <=? 0) && (type_at sp object =? mutant_object)
  then negb (waiter =? 0) && (k_owner (sp object) =? waiter)
  else 0 <? state.

Definition take (object waiter : Z) (sp : space) : space :=
  let type := type_at sp object in
  let state := state_at sp object in
  if (type =? event_notification_object) || (type =? process_object) || (type =? thread_object)
     || (type =? timer_notification_object) then sp
  else if type =? mutant_object then
    let sp := set_state_at object (state - 1) sp in
    set_object object (set_owner waiter (sp object)) sp
  else if (type =? semaphore_object) || (type =? queue_object) then set_state_at object (state - 1) sp
  else set_state_at object 0 sp.

(** [read_timeout]: null is no timeout, negative an interval, positive absolute. *)
Definition read_timeout (guest_now : Z) (value : option Z) : Z * bool :=
  match value with
  | None => (0, false)
  | Some ticks => (if ticks <? 0 then guest_now - ticks else ticks, true)
  end.

(** ** Threads *)

(** The registers a context holds, by their codes; where the program counter, the
    stack pointer and a return value are. *)
Record arch : Type := Arch { regs : list Z; pc : Z; sp : Z; ret_reg : Z }.

Definition STATUS_TIMEOUT : Z := 0x102.

Record wait_state : Type := WaitState {
  objects : list Z; all : bool; deadline : Z; timed : bool; satisfied : bool; w_status : Z
}.

Record thread : Type := Thread {
  id_ : Z; ethread_ : Z; t_space : Z;
  started_ : bool; values_ : list Z; sleep_until_ : Z; finished_ : bool;
  wait_ : option wait_state; alerted_ : bool; suspend_count_ : Z
}.

Definition set_values v t := Thread (id_ t) (ethread_ t) (t_space t) (started_ t) v (sleep_until_ t) (finished_ t) (wait_ t) (alerted_ t) (suspend_count_ t).
Definition set_sleep v t := Thread (id_ t) (ethread_ t) (t_space t) (started_ t) (values_ t) v (finished_ t) (wait_ t) (alerted_ t) (suspend_count_ t).
Definition set_wait v t := Thread (id_ t) (ethread_ t) (t_space t) (started_ t) (values_ t) (sleep_until_ t) (finished_ t) v (alerted_ t) (suspend_count_ t).
Definition set_alerted v t := Thread (id_ t) (ethread_ t) (t_space t) (started_ t) (values_ t) (sleep_until_ t) (finished_ t) (wait_ t) v (suspend_count_ t).
Definition set_suspend v t := Thread (id_ t) (ethread_ t) (t_space t) (started_ t) (values_ t) (sleep_until_ t) (finished_ t) (wait_ t) (alerted_ t) v.
Definition set_finished t := Thread (id_ t) (ethread_ t) (t_space t) (started_ t) (values_ t) (sleep_until_ t) true (wait_ t) (alerted_ t) (suspend_count_ t).
Definition set_started t := Thread (id_ t) (ethread_ t) (t_space t) true (values_ t) (sleep_until_ t) (finished_ t) (wait_ t) (alerted_ t) (suspend_count_ t).

(** *** The saved context *)

(** The registers of a cpu. *)
Definition reg_file : Type := Z -> Z.
Definition reg_write (r v : Z) (f : reg_file) : reg_file := fun x => if x =? r then v else f x.

Definition save (a : arch) (f : reg_file) (t : thread) : thread := set_values (map f (regs a)) t.

Fixpoint restore_regs (rs vs : list Z) (f : reg_file) : reg_file :=
  match rs, vs with
  | r :: rs, v :: vs => restore_regs rs vs (reg_write r v f)
  | _, _ => f
  end.
Definition restore (a : arch) (t : thread) (f : reg_file) : reg_file := restore_regs (regs a) (values_ t) f.

(** The first slot of a register. *)
Fixpoint set_slot (rs vs : list Z) (r v : Z) : list Z :=
  match rs, vs with
  | r' :: rs, v' :: vs => if r' =? r then v :: vs else v' :: set_slot rs vs r v
  | _, vs => vs
  end.
Fixpoint get_slot (rs vs : list Z) (r : Z) : Z :=
  match rs, vs with
  | r' :: rs, v' :: vs => if r' =? r then v' else get_slot rs vs r
  | _, _ => 0
  end.
Definition set_reg (a : arch) (r v : Z) (t : thread) : thread := set_values (set_slot (regs a) (values_ t) r v) t.
Definition get_reg (a : arch) (t : thread) (r : Z) : Z := get_slot (regs a) (values_ t) r.

(** The constructor: the context of the cpu that makes the thread, with its start
    address and stack. *)
Definition make_thread (a : arch) (f : reg_file) (id ethread space start_addr stack_ptr : Z) : thread :=
  Thread id ethread space false
    (map (fun r => if r =? pc a then start_addr else if r =? sp a then stack_ptr else f r) (regs a))
    0 false None false 0.

(** *** Sleeping and waiting *)

(** The two clocks: the host's, in nanoseconds, and the guest's, in 100ns ticks. *)
Record clock : Type := Clock { host_now : Z; guest_now : Z }.

Definition sleep_for (c : clock) (ms : Z) (t : thread) : thread := set_sleep (host_now c + ms * 1000000) t.
Definition is_sleeping (c : clock) (t : thread) : bool := host_now c <? sleep_until_ t.

(** [ceil] of 100ns ticks to milliseconds. *)
Definition ticks_to_ms (ticks : Z) : Z := (ticks + 9999) / 10000.

Definition begin_wait (c : clock) (w : wait_state) (t : thread) : thread :=
  let t := if timed w then sleep_for c (ticks_to_ms (Z.max 0 (deadline w - guest_now c))) t else t in
  set_wait (Some w) t.

Definition waiting_on (t : thread) (object : Z) : bool :=
  match wait_ t with Some w => bool_decide (object ∈ objects w) | None => false end.

(** The index of the first signalled object. *)
Fixpoint first_signalled (m : space) (self : Z) (os : list Z) (i : nat) : option (nat * Z) :=
  match os with
  | [] => None
  | o :: os => if is_signalled m o self then Some (i, o) else first_signalled m self os (S i)
  end.
Fixpoint take_all (self : Z) (os : list Z) (m : space) : space :=
  match os with [] => m | o :: os => take_all self os (take o self m) end.

Definition satisfy (w : wait_state) (status : Z) : wait_state :=
  WaitState (objects w) (all w) (deadline w) (timed w) true status.

Definition try_satisfy (m : space) (t : thread) : bool * thread * space :=
  match wait_ t with
  | None => (false, t, m)
  | Some w =>
      if satisfied w then (false, t, m) else
      let self := ethread_ t in
      if all w then
        if forallb (fun o => is_signalled m o self) (objects w)
        then (true, set_wait (Some (satisfy w 0)) t, take_all self (objects w) m)
        else (false, t, m)
      else
        match first_signalled m self (objects w) 0 with
        | None => (false, t, m)
        | Some (i, o) => (true, set_wait (Some (satisfy w (Z.of_nat i))) t, take o self m)
        end
  end.

Definition alert (t : thread) : thread :=
  match wait_ t with
  | Some w =>
      if negb (satisfied w) && match objects w with [] => true | _ => false end
      then set_wait (Some (satisfy w 0)) t else set_alerted true t
  | None => set_alerted true t
  end.
Definition take_alert (t : thread) : bool * thread := (alerted_ t, set_alerted false t).

Definition suspend (t : thread) : Z * thread := (suspend_count_ t, set_suspend (u32 (suspend_count_ t + 1)) t).
Definition resume (t : thread) : Z * thread :=
  (suspend_count_ t, set_suspend (if suspend_count_ t =? 0 then 0 else suspend_count_ t - 1) t).

Definition may_run (c : clock) (t : thread) : bool :=
  if negb (suspend_count_ t =? 0) then false else
  match wait_ t with
  | Some w => satisfied w || (timed w && (deadline w <=? guest_now c))
  | None => started_ t && negb (is_sleeping c t)
  end.

(** The answer, and the thread as it is left: a wait found over is finished. *)
Definition is_ready (a : arch) (c : clock) (t : thread) : bool * thread :=
  if negb (suspend_count_ t =? 0) then (false, t) else
  match wait_ t with
  | None => (started_ t && negb (is_sleeping c t), t)
  | Some w =>
      let finish status := set_wait None (sleep_for c 0 (set_reg a (ret_reg a) status t)) in
      if satisfied w then (true, finish (w_status w)) else
      if timed w then
        let remaining := deadline w - guest_now c in
        if remaining <=? 0 then (true, finish STATUS_TIMEOUT)
        else (false, sleep_for c (ticks_to_ms remaining) t)
      else (false, t)
  end.

(** *** Waking *)

(** The threads of a process, in the order of their ids; [wake_waiters] walks them. *)
Fixpoint wake_each (object : Z) (ts : list thread) (m : space) : bool * list thread * space :=
  match ts with
  | [] => (false, [], m)
  | t :: ts =>
      let '(now, t, m) := if waiting_on t object then try_satisfy m t else (false, t, m) in
      let '(later, ts, m) := wake_each object ts m in
      (now || later, t :: ts, m)
  end.
(** The flag tells whether the scheduler is woken. *)
Definition wake_waiters (object : Z) (ts : list thread) (m : space) : bool * list thread * space :=
  wake_each object ts m.
