(* ===== verification/ThreadThm.v ===== *)
(** * Threads and waits: the theorems *)

From stdpp Require Import list.
From S2P Require Import Prelude Mmu Thread.
From stdpp Require Import options.

Open Scope Z_scope.
Open Scope kern_scope.

(** ** The saved context *)

Lemma restore_regs_skip rs vs f r : r ∉ rs -> restore_regs rs vs f r = f r.
Proof.
  revert vs f. induction rs as [|r' rs IH]; intros [|v vs] f Hr; cbn; try done.
  apply not_elem_of_cons in Hr as [Hne Hr]. rewrite IH by done. unfold reg_write.
  by rewrite (proj2 (Z.eqb_neq r r')).
Qed.

Lemma restore_saved rs f g r : r ∈ rs -> restore_regs rs (map f rs) g r = f r.
Proof.
  revert g. induction rs as [|r' rs IH]; intros g Hr; [by apply elem_of_nil in Hr|]. cbn.
  destruct (decide (r ∈ rs)) as [Hin|Hnin]; [by apply IH|].
  apply elem_of_cons in Hr as [->|]; [|done]. rewrite restore_regs_skip by done.
  unfold reg_write. by rewrite Z.eqb_refl.
Qed.

Lemma get_set_slot rs vs r v r' :
  length vs = length rs -> r ∈ rs ->
  get_slot rs (set_slot rs vs r v) r' = if r' =? r then v else get_slot rs vs r'.
Proof.
  revert vs. induction rs as [|r0 rs IH]; intros vs Hl Hr; [by apply elem_of_nil in Hr|].
  destruct vs as [|v0 vs]; [done|]. cbn. destruct (Z.eqb_spec r0 r) as [->|Hne]; cbn.
  - rewrite (Z.eqb_sym r r'). by destruct (Z.eqb_spec r' r).
  - destruct (Z.eqb_spec r0 r') as [->|]; [by rewrite (proj2 (Z.eqb_neq r' r))|].
    apply IH; [by injection Hl|]. by apply elem_of_cons in Hr as [->|].
Qed.

Lemma length_set_slot rs vs r v : length (set_slot rs vs r v) = length vs.
Proof. revert vs. induction rs as [|r0 rs IH]; intros [|v0 vs]; cbn; try done. by destruct (r0 =? r); cbn; rewrite ?IH. Qed.

Lemma restore_get rs vs g r :
  NoDup rs -> length vs = length rs -> r ∈ rs -> restore_regs rs vs g r = get_slot rs vs r.
Proof.
  intros Hd. revert vs g. induction Hd as [|r0 rs Hr0 Hd IH]; intros vs g Hl Hr; [by apply elem_of_nil in Hr|].
  destruct vs as [|v0 vs]; [done|]. cbn. destruct (Z.eqb_spec r0 r) as [->|Hne].
  - rewrite restore_regs_skip by done. unfold reg_write. by rewrite Z.eqb_refl.
  - apply IH; [by injection Hl|]. by apply elem_of_cons in Hr as [->|].
Qed.

(** A thread saved from one cpu and restored on another finds every register
    of its context as it left it, and the rest of that cpu is untouched; a
    register set in the saved context is what the cpu gets, and no other. *)
Theorem context_roundtrip a f g t :
  (forall r, restore a (save a f t) g r = if decide (r ∈ regs a) then f r else g r) /\
  (forall r v r', NoDup (regs a) -> length (values_ t) = length (regs a) -> r ∈ regs a -> r' ∈ regs a ->
     restore a (set_reg a r v t) g r' = if r' =? r then v else get_reg a t r').
Proof.
  split.
  - intros r. unfold restore, save. cbn. case_decide; [by apply restore_saved|by apply restore_regs_skip].
  - intros r v r' Hd Hl Hr Hr'. unfold restore, set_reg, get_reg. cbn.
    rewrite restore_get by (done || by rewrite length_set_slot). by apply get_set_slot.
Qed.

(** ** Ready threads *)

Lemma may_run_ready a c t : (is_ready a c t).1 = may_run c t.
Proof.
  unfold may_run, is_ready. destruct (negb (suspend_count_ t =? 0)); [done|]. destruct (wait_ t) as [w|]; [|done].
  destruct (satisfied w); [done|]. destruct (timed w); [|done]. cbn.
  destruct (Z.leb_spec (deadline w - guest_now c) 0), (Z.leb_spec (deadline w) (guest_now c)); try done; lia.
Qed.

(** [may_run], which only looks, and [is_ready], which finishes the wait it
    finds over, always give the same answer; a suspended thread is never ready; a
    thread found ready has no wait left, and is not asleep. *)
Theorem may_run_is_ready a c t :
  may_run c t = (is_ready a c t).1 /\
  (suspend_count_ t <> 0 -> is_ready a c t = (false, t)) /\
  ((is_ready a c t).1 = true -> wait_ (is_ready a c t).2 = None /\ is_sleeping c (is_ready a c t).2 = false).
Proof.
  split; [by rewrite may_run_ready|]. unfold is_ready. destruct (Z.eqb_spec (suspend_count_ t) 0) as [->|Hs]; cbn; [|done].
  assert (forall t', is_sleeping c (set_wait None (sleep_for c 0 t')) = false) as Hz.
  { intros t'. unfold is_sleeping, sleep_for. cbn. apply Z.ltb_ge. lia. }
  split; [done|]. destruct (wait_ t) as [w|] eqn:Ew.
  - destruct (satisfied w); [by split; [|apply Hz]|]. destruct (timed w); [|done]. case_match; [by split; [|apply Hz]|done].
  - cbn. intros H. split; [done|]. by destruct (started_ t), (is_sleeping c t).
Qed.

(** ** Waits *)

Lemma first_signalled_some m w os i0 i o :
  first_signalled m w os i0 = Some (i, o) ->
  exists j, i = (i0 + j)%nat /\ os !! j = Some o /\ is_signalled m o w = true /\
    forall j' o', (j' < j)%nat -> os !! j' = Some o' -> is_signalled m o' w = false.
Proof.
  revert i0. induction os as [|o0 os IH]; intros i0; cbn; [done|].
  destruct (is_signalled m o0 w) eqn:E; [intros [= <- <-]; exists 0%nat; split_and!; try done; intros; lia|].
  intros H. destruct (IH _ H) as (j & -> & Hj & Hs & Hb). exists (S j). split_and!; try done; [lia|].
  intros [|j'] o' Hlt; cbn; [by intros [= <-]|]. intros Ho. apply (Hb j'); [lia|done].
Qed.

Lemma first_signalled_none m w os i0 :
  first_signalled m w os i0 = None <-> forall o, o ∈ os -> is_signalled m o w = false.
Proof.
  revert i0. induction os as [|o0 os IH]; intros i0; cbn.
  - split; [|done]. intros _ o Ho. by apply elem_of_nil in Ho.
  - destruct (is_signalled m o0 w) eqn:E.
    + split; [done|]. intros H. rewrite (H o0) in E; [done|]. by apply elem_of_cons; left.
    + rewrite IH. split.
      * intros H o [->|Ho]%elem_of_cons; auto.
      * intros H o Ho. apply H. by apply elem_of_cons; right.
Qed.

Lemma forallb_signalled m w os :
  forallb (fun o => is_signalled m o w) os = true <-> forall o, o ∈ os -> is_signalled m o w = true.
Proof.
  rewrite forallb_forall. split; intros H o Ho; apply H; by apply list_elem_of_In.
Qed.

(** A wait can be satisfied now. *)
Definition can_satisfy m t : Prop :=
  exists w, wait_ t = Some w /\ satisfied w = false /\
    if all w then forall o, o ∈ objects w -> is_signalled m o (ethread_ t) = true
    else exists o, o ∈ objects w /\ is_signalled m o (ethread_ t) = true.

(** [try_satisfy] succeeds exactly when the wait is open and, for a wait on
    all, every object is signalled, for a wait on any, one is.  It then takes all
    of them, or the first signalled one, whose index becomes the status;
    otherwise nothing changes, so a wait on all never takes some of its objects. *)
Theorem try_satisfy_correct m t :
  let '(b, t', m') := try_satisfy m t in
  (b = true <-> can_satisfy m t) /\ (b = false -> t' = t /\ m' = m) /\
  (b = true -> exists w, wait_ t = Some w /\
    if all w then wait_ t' = Some (satisfy w 0) /\ m' = take_all (ethread_ t) (objects w) m
    else exists i o, objects w !! i = Some o /\ is_signalled m o (ethread_ t) = true /\
      (forall j o', (j < i)%nat -> objects w !! j = Some o' -> is_signalled m o' (ethread_ t) = false) /\
      wait_ t' = Some (satisfy w (Z.of_nat i)) /\ m' = take o (ethread_ t) m).
Proof.
  unfold try_satisfy, can_satisfy. destruct (wait_ t) as [w|] eqn:Ew.
  2: { split_and!; [|done|done]. split; [done|]. by intros (? & ? & _). }
  destruct (satisfied w) eqn:Es.
  { split_and!; [|done|done]. split; [done|]. intros (w' & [= <-] & Hs & _). congruence. }
  destruct (all w) eqn:Ea.
  - destruct (forallb _ (objects w)) eqn:Ef.
    + split_and!; [|done|].
      * split; [|done]. intros _. exists w. rewrite Ea. split_and!; try done. by apply forallb_signalled.
      * intros _. exists w. by rewrite Ea.
    + split_and!; [|done|done]. split; [done|]. intros (w' & [= <-] & _ & H). rewrite Ea in H.
      apply forallb_signalled in H. congruence.
  - destruct (first_signalled m (ethread_ t) (objects w) 0) as [[i o]|] eqn:Ef.
    + destruct (first_signalled_some _ _ _ _ _ _ Ef) as (j & -> & Hj & Hs & Hb). cbn [Nat.add] in *.
      split_and!; [|done|].
      * split; [|done]. intros _. exists w. rewrite Ea. split_and!; try done. exists o. split; [|done].
        by apply list_elem_of_lookup_2 with j.
      * intros _. exists w. rewrite Ea. split; [done|]. by exists j, o.
    + split_and!; [|done|done]. split; [done|]. intros (w' & [= <-] & _ & H). rewrite Ea in H.
      destruct H as (o & Ho & Hs). rewrite (proj1 (first_signalled_none _ _ _ _) Ef o Ho) in Hs. done.
Qed.

(** ** Taking *)

Lemma s32_small x : - 2 ^ 31 <= x < 2 ^ 31 -> s32 x = x.
Proof.
  intros H. unfold s32, signed. destruct (Z.ltb_spec (x mod 2 ^ 32) (2 ^ (32 - 1))) as [Hl|Hl].
  - destruct (Z.lt_ge_cases x 0) as [Hn|Hp]; [|apply Z.mod_small; lia].
    rewrite <- (Z.mod_add x 1) in Hl by lia. rewrite Z.mod_small in Hl by lia. lia.
  - destruct (Z.lt_ge_cases x 0) as [Hn|Hp]; [|rewrite Z.mod_small in Hl by lia; lia].
    rewrite <- (Z.mod_add x 1) by lia. rewrite Z.mod_small by lia. lia.
Qed.

Lemma take_other o w m x : x <> o -> take o w m x = m x.
Proof.
  intros Hx. apply Z.eqb_neq in Hx. unfold take, set_state_at, set_object.
  repeat case_match; try done; by rewrite Hx.
Qed.

(** What is left of the object itself. *)
Lemma take_state o w m :
  - 2 ^ 31 < state_at m o < 2 ^ 31 ->
  type_at (take o w m) o = type_at m o /\
  (state_at (take o w m) o = state_at m o \/ state_at (take o w m) o = state_at m o - 1 \/ state_at (take o w m) o = 0) /\
  (0 < state_at (take o w m) o -> 0 < state_at m o) /\
  (type_at m o = mutant_object -> k_owner (take o w m o) = w /\ state_at (take o w m) o = state_at m o - 1) /\
  (type_at m o = event_synchronization_object -> state_at (take o w m) o = 0) /\
  (type_at m o = semaphore_object -> state_at (take o w m) o = state_at m o - 1).
Proof.
  intros Hs. unfold take, type_at, state_at, set_state_at, set_object in *.
  destruct (Z.eqb_spec (k_type (m o)) mutant_object) as [Em|Nm].
  - rewrite Em. cbn. rewrite ?Z.eqb_refl. cbn. rewrite ?Z.eqb_refl, s32_small by lia. cbn.
    split_and!; try done; try lia; by intros.
  - destruct (Z.eqb_spec (k_type (m o)) semaphore_object) as [Es|Ns].
    { rewrite Es. cbn. rewrite ?Z.eqb_refl. cbn. rewrite s32_small by lia. split_and!; try done; try lia. }
    destruct (Z.eqb_spec (k_type (m o)) event_synchronization_object) as [Ev|Nv].
    { rewrite Ev. cbn. rewrite ?Z.eqb_refl. cbn. split_and!; try done; try lia; auto. }
    case_match; [split_and!; try done; auto|]. cbn [orb].
    destruct (k_type (m o) =? queue_object); cbn; rewrite ?Z.eqb_refl; cbn; rewrite s32_small by lia; split_and!; try done; try lia; auto.
Qed.

(** An object taken is gone for the others: a mutant that was free or the
    taker's own is then signalled to nobody else, a synchronization event to
    nobody at all, and a semaphore has one less; an event or timer that notifies,
    a process and a thread stay as they were. *)
Theorem take_exclusive o w m :
  is_signalled m o w = true -> - 2 ^ 31 < state_at m o < 2 ^ 31 ->
  (type_at m o = mutant_object -> state_at m o <= 1 ->
     (w <> 0 -> is_signalled (take o w m) o w = true) /\ forall w', w' <> w -> is_signalled (take o w m) o w' = false) /\
  (type_at m o = event_synchronization_object -> forall w', is_signalled (take o w m) o w' = false) /\
  (type_at m o = semaphore_object -> state_at (take o w m) o = state_at m o - 1 /\ 0 <= state_at (take o w m) o) /\
  (type_at m o ∈ [event_notification_object; timer_notification_object; process_object; thread_object] -> take o w m = m) /\
  (forall x, x <> o -> take o w m x = m x).
Proof.
  intros Hs Hr. destruct (take_state o w m Hr) as (T & S & P & Mu & Ev & Se). split_and!.
  - intros Hm Hle. destruct (Mu Hm) as [Ow St]. unfold is_signalled. rewrite T, Hm, St, Ow, Z.eqb_refl.
    rewrite (proj2 (Z.leb_le _ _)) by lia. cbn. split.
    + intros Hw. rewrite Z.eqb_refl. by rewrite (proj2 (Z.eqb_neq w 0)).
    + intros w' Hw. rewrite (proj2 (Z.eqb_neq w w')) by done. by rewrite andb_false_r.
  - intros He w'. unfold is_signalled. rewrite T, He, (Ev He). done.
  - intros He. rewrite (Se He). split; [done|]. unfold is_signalled in Hs. rewrite He in Hs.
    rewrite andb_false_r in Hs. apply Z.ltb_lt in Hs. lia.
  - intros Ht. unfold take. rewrite !elem_of_cons, elem_of_nil in Ht. destruct Ht as [-> | [-> | [-> | [-> | []]]]]; done.
  - intros x. apply take_other.
Qed.

(** ** Waking *)

(** States far enough from the end of their range for [n] more takes. *)
Definition deep (n : nat) (m : space) : Prop :=
  Z.of_nat n <= 2 ^ 31 /\ forall a, - 2 ^ 31 + Z.of_nat n <= state_at m a < 2 ^ 31.

Lemma deep_take n o w m : deep (S n) m -> deep n (take o w m).
Proof.
  intros [Hn Hd]. split; [lia|]. intros a. destruct (decide (a = o)) as [->|Hne].
  - specialize (Hd o). destruct (take_state o w m) as (_ & S & _); [lia|]. lia.
  - unfold state_at in *. rewrite take_other by done. specialize (Hd a). lia.
Qed.

(** Taking never signals an object to another thread. *)
Lemma take_mono n o w m x w' :
  deep (S n) m -> w <> w' -> is_signalled m x w' = false -> is_signalled (take o w m) x w' = false.
Proof.
  intros [Hn Hd] Hw Hs. destruct (decide (x = o)) as [->|Hne].
  - specialize (Hd o). destruct (take_state o w m) as (T & S & P & Mu & _); [lia|].
    unfold is_signalled in *. rewrite T. destruct (Z.eqb_spec (type_at m o) mutant_object) as [Em|Nm].
    + destruct (Mu Em) as [Ow St]. rewrite Ow, andb_true_r in *.
      destruct (Z.leb_spec (state_at m o) 0), (Z.leb_spec (state_at (take o w m) o) 0); try lia.
      all: first [rewrite (proj2 (Z.eqb_neq w w')) by done; by rewrite andb_false_r|apply Z.ltb_ge in Hs; lia].
    + rewrite andb_false_r in *. apply Z.ltb_ge in Hs. apply Z.ltb_ge. lia.
  - unfold is_signalled, state_at, type_at in *. by rewrite take_other.
Qed.

Lemma can_satisfy_take n o w m t :
  deep (S n) m -> w <> ethread_ t -> can_satisfy (take o w m) t -> can_satisfy m t.
Proof.
  intros Hd Hw (v & Ev & Es & H). exists v. split_and!; try done.
  assert (forall x, is_signalled (take o w m) x (ethread_ t) = true -> is_signalled m x (ethread_ t) = true) as Hm.
  { intros x Hx. destruct (is_signalled m x (ethread_ t)) eqn:E; [done|]. by rewrite (take_mono n o w m x) in Hx. }
  destruct (all v); [intros x Hx; auto|]. destruct H as (x & Hx & Hs). eauto.
Qed.

(** [n] takes by threads of [ws]. *)
Inductive takes (ws : list Z) : nat -> space -> space -> Prop :=
  | takes_nil m : takes ws 0 m m
  | takes_cons o w n m m' : w ∈ ws -> takes ws n (take o w m) m' -> takes ws (S n) m m'.

Lemma takes_app ws n1 n2 m m1 m2 : takes ws n1 m m1 -> takes ws n2 m1 m2 -> takes ws (n1 + n2) m m2.
Proof. induction 1; intros H2; cbn; [done|]. econstructor; eauto. Qed.

Lemma takes_sub ws ws' n m m' : ws ⊆ ws' -> takes ws n m m' -> takes ws' n m m'.
Proof. intros Hs. induction 1; econstructor; eauto. Qed.

Lemma takes_deep ws n k m m' : takes ws n m m' -> deep (n + k) m -> deep k m'.
Proof. induction 1 as [|o w n m m' Hw Ht IH]; intros Hd; [done|]. apply IH. by apply (deep_take _ o w). Qed.

Lemma takes_can_satisfy ws n m m' t :
  takes ws n m m' -> deep n m -> ethread_ t ∉ ws -> can_satisfy m' t -> can_satisfy m t.
Proof.
  induction 1 as [|o w n m m' Hw Ht IH]; intros Hd Hn Hc; [done|].
  apply (can_satisfy_take n o w); [done|by intros ->|]. apply IH; [by apply deep_take|done|done].
Qed.

Definition wants (t : thread) : nat := match wait_ t with Some w => length (objects w) | None => 0%nat end.

Lemma take_all_takes self os m : takes [self] (length os) m (take_all self os m).
Proof. revert m. induction os as [|o os IH]; intros m; cbn; econstructor; [by apply list_elem_of_singleton|]. apply IH. Qed.

Lemma try_satisfy_takes m t b t' m' :
  try_satisfy m t = (b, t', m') ->
  ethread_ t' = ethread_ t /\ (exists n, (n <= wants t)%nat /\ takes [ethread_ t] n m m') /\ ~ can_satisfy m' t' /\
  (b = false -> t' = t /\ m' = m).
Proof.
  intros E. pose proof (try_satisfy_correct m t) as H. rewrite E in H. destruct H as (H1 & H2 & H3).
  destruct b.
  - destruct (H3 eq_refl) as (w & Ew & H). unfold try_satisfy in E. rewrite Ew in E.
    destruct (satisfied w); [done|]. unfold wants. rewrite Ew. destruct (all w) eqn:Ea.
    + destruct H as [Ht ->]. destruct (forallb _ _); [|done]. injection E as <-.
      split_and!; [done|eexists; split; [|apply take_all_takes]; lia| |done].
      intros (v & Ev & Es & _). cbn in Ev. injection Ev as <-. done.
    + destruct H as (i & o & Ho & Hs & _ & Ht & ->). destruct (first_signalled _ _ _ _) as [[i' o']|]; [|done].
      injection E as <- _. split_and!; [done| | |done].
      * exists 1%nat. split; [|econstructor; [by apply list_elem_of_singleton|constructor]].
        apply lookup_lt_Some in Ho. lia.
      * intros (v & Ev & Es & _). cbn in Ev. injection Ev as <-. done.
  - destruct (H2 eq_refl) as [-> ->]. split_and!; [done|exists 0%nat; split; [lia|constructor]| |done].
    intros Hc. apply H1 in Hc. done.
Qed.

Fixpoint wants_all (ts : list thread) : nat := match ts with [] => 0%nat | t :: ts => (wants t + wants_all ts)%nat end.

Lemma wake_each_spec object ts m b ts' m' :
  wake_each object ts m = (b, ts', m') -> NoDup (map ethread_ ts) -> deep (wants_all ts) m ->
  map ethread_ ts' = map ethread_ ts /\
  (exists n, (n <= wants_all ts)%nat /\ takes (map ethread_ ts) n m m') /\
  (forall t, t ∈ ts' -> waiting_on t object = true -> ~ can_satisfy m' t) /\
  (b = false -> ts' = ts /\ m' = m).
Proof.
  revert m b ts' m'. induction ts as [|t ts IH]; intros m b ts' m'; cbn [wake_each].
  { intros [= <- <- <-] _ _. split_and!; try done; [exists 0%nat; split; [lia|constructor]|]. intros t Ht. by apply elem_of_nil in Ht. }
  set (first := if waiting_on t object then _ else _). destruct first as [[b1 t1] m1] eqn:E1.
  destruct (wake_each object ts m1) as [[b2 ts2] m2] eqn:E2. intros [= <- <- <-] Hnd Hd.
  cbn [map] in Hnd. inversion_clear Hnd as [|? ? Hni Hnd0]. rename Hnd0 into Hnd. cbn [wants_all] in Hd.
  assert (ethread_ t1 = ethread_ t /\ (exists n, (n <= wants t)%nat /\ takes [ethread_ t] n m m1) /\
    (waiting_on t1 object = true -> ~ can_satisfy m1 t1) /\ (b1 = false -> t1 = t /\ m1 = m)) as (Q1 & (n1 & Hn1 & Q2) & Q3 & Q4).
  { subst first. destruct (waiting_on t object) eqn:Ew.
    - destruct (try_satisfy_takes _ _ _ _ _ E1) as (? & ? & ? & ?). by split_and!.
    - injection E1 as <- <- <-. split_and!; try done; [exists 0%nat; split; [lia|constructor]|]. congruence. }
  assert (deep (wants_all ts) m1) as Hd1.
  { apply (takes_deep [ethread_ t] n1 _ m); [done|]. destruct Hd as [Hd Hd']. split; [lia|]. intros a. specialize (Hd' a). lia. }
  destruct (IH _ _ _ _ E2 Hnd Hd1) as (I1 & (n2 & Hn2 & I2) & I3 & I4). split_and!.
  - cbn. by rewrite Q1, I1.
  - exists (n1 + n2)%nat. cbn [wants_all map]. split; [lia|]. apply (takes_app _ _ _ _ m1).
    + apply (takes_sub [ethread_ t]); [|done]. intros x ->%list_elem_of_singleton. apply elem_of_cons. by left.
    + apply (takes_sub (map ethread_ ts)); [|done]. intros x Hx. apply elem_of_cons. by right.
  - intros t0 [->|Ht0]%elem_of_cons Hw; [|by apply I3]. intros Hc. apply (Q3 Hw).
    apply (takes_can_satisfy (map ethread_ ts) n2 m1 m2); [done| |by rewrite Q1|done].
    destruct Hd1 as [A1 A2]. split; [lia|]. intros a. specialize (A2 a). lia.
  - intros [-> ->]%orb_false_iff. destruct (Q4 eq_refl) as [-> ->]. destruct (I4 eq_refl) as [-> ->]. done.
Qed.

(** C27: no wake-up is lost: after [wake_waiters] on an object, no thread waiting
    on it has a wait that could still be satisfied, whichever threads took what
    before it; and when it reports that nobody was released, nothing changed. *)
Theorem wake_waiters_complete object ts m :
  NoDup (map ethread_ ts) -> deep (wants_all ts) m ->
  let '(woken, ts', m') := wake_waiters object ts m in
  map ethread_ ts' = map ethread_ ts /\
  (forall t, t ∈ ts' -> waiting_on t object = true -> ~ can_satisfy m' t) /\
  (woken = false -> ts' = ts /\ m' = m).
Proof.
  intros Hnd Hd. destruct (wake_waiters object ts m) as [[b ts'] m'] eqn:E.
  by destruct (wake_each_spec _ _ _ _ _ _ E Hnd Hd) as (? & _ & ? & ?).
Qed.
