(* ===== verification/Sched.v ===== *)
(** * The thread scheduler

    class thread_scheduler of kernel/thread_scheduler.hpp: one ready queue, and on
    every cpu the loop of [run].  What a cpu does under the lock is one step; the
    steps of the cpus, of the guest code they run and of the clock interleave in
    any order. *)

From stdpp Require Import list.
From S2P Require Import Prelude Mmu Thread.
From stdpp Require Import options.

Open Scope Z_scope.
Open Scope kern_scope.

(** ** State *)

(** Where a cpu is in [run]. *)
Inductive place : Type :=
  | Scheduling (prev : option Z)   (** about to call [schedule] *)
  | Parked                         (** in [cv_.wait] *)
  | Resuming (t : Z)               (** in [resume], the lock released *)
  | Running (t : Z)                (** in [cpu.run()] *)
  | Retiring (t : Z)               (** its thread finished: [save], [release] *)
  | Retired (t : Z)                (** [terminate_thread] *)
  | Leaving                        (** [schedule] returned nothing: the last [release] *)
  | Left.

Record vcpu : Type := Vcpu {
  c_regs : reg_file; thread_ : option Z; c_space : Z; stop_asked : bool; at_ : place
}.

(** Threads are shared objects: the queue and the cpus hold references. *)
Record sched : Type := Sched {
  ready_queue_ : list Z;
  stopped_ : bool;
  cpus : list vcpu;
  threads : Z -> thread;
  table : list Z;          (** the threads of the process, by reference *)
  clk : clock
}.

Definition set_queue q s := Sched q (stopped_ s) (cpus s) (threads s) (table s) (clk s).
Definition set_threads h s := Sched (ready_queue_ s) (stopped_ s) (cpus s) h (table s) (clk s).
Definition set_cpus cs s := Sched (ready_queue_ s) (stopped_ s) cs (threads s) (table s) (clk s).
Definition set_table l s := Sched (ready_queue_ s) (stopped_ s) (cpus s) (threads s) l (clk s).
Definition set_clock c s := Sched (ready_queue_ s) (stopped_ s) (cpus s) (threads s) (table s) c.
Definition set_stopped s := Sched (ready_queue_ s) true (cpus s) (threads s) (table s) (clk s).

Definition store (r : Z) (t : thread) (h : Z -> thread) : Z -> thread := fun x => if x =? r then t else h x.
Definition on_cpu (i : nat) (f : vcpu -> vcpu) (s : sched) : sched := set_cpus (alter f i (cpus s)) s.

Definition set_thread (t : option Z) (c : vcpu) : vcpu := Vcpu (c_regs c) t (c_space c) (stop_asked c) (at_ c).
Definition go (p : place) (c : vcpu) : vcpu := Vcpu (c_regs c) (thread_ c) (c_space c) (stop_asked c) p.
Definition try_stop (c : vcpu) : vcpu := Vcpu (c_regs c) (thread_ c) (c_space c) true (at_ c).

Definition running (s : sched) : list Z := omap thread_ (cpus s).

Section Sched.
Context (a : arch).

(** ** Operations *)

(** [find_if] over the queue: asking a thread may finish its wait. *)
Fixpoint first_runnable (c : clock) (q : list Z) (h : Z -> thread) : option (list Z * Z * list Z) * (Z -> thread) :=
  match q with
  | [] => (None, h)
  | r :: q =>
      let '(b, t) := is_ready a c (h r) in
      let h := store r t h in
      if b then (Some ([], r, q), h) else
      match first_runnable c q h with
      | (Some (pre, x, suf), h) => (Some (r :: pre, x, suf), h)
      | (None, h) => (None, h)
      end
  end.

Fixpoint next_wake (c : clock) (h : Z -> thread) (q : list Z) (earliest : option Z) : option Z :=
  match q with
  | [] => earliest
  | r :: q =>
      let later := match earliest with None => true | Some e => sleep_until_ (h r) <? e end in
      next_wake c h q (if is_sleeping c (h r) && later then Some (sleep_until_ (h r)) else earliest)
  end.

Definition nothing_left (s : sched) : bool :=
  match ready_queue_ s with
  | [] => forallb (fun c => match thread_ c with None => true | Some _ => false end) (cpus s)
  | _ => false
  end.

(** One turn of the loop of [schedule], with the lock held. *)
Definition schedule_once (i : nat) (s : sched) : sched :=
  if stopped_ s || nothing_left s then on_cpu i (go Leaving) s else
  match first_runnable (clk s) (ready_queue_ s) (threads s) with
  | (Some (pre, x, suf), h) =>
      on_cpu i (fun c => go (Resuming x) (set_thread (Some x) c)) (set_queue (pre ++ suf) (set_threads h s))
  | (None, h) => on_cpu i (go Parked) (set_threads h s)
  end.

(** The start of [schedule]: the previous thread goes to the back of the queue. *)
Definition requeue (i : nat) (prev : option Z) (s : sched) : sched :=
  match prev, cpus s !! i with
  | Some p, Some c =>
      let s := set_threads (store p (save a (c_regs c) (threads s p)) (threads s)) s in
      let s := on_cpu i (set_thread None) s in
      set_queue (ready_queue_ s ++ [p]) s
  | _, _ => s
  end.
Definition schedule (i : nat) (prev : option Z) (s : sched) : sched := schedule_once i (requeue i prev s).

(** [resume]: the address space follows the thread, then its context. *)
Definition resume_cpu (x : Z) (t : thread) (c : vcpu) : vcpu :=
  Vcpu (restore a t (c_regs c)) (thread_ c) (if c_space c =? t_space t then c_space c else t_space t)
    (stop_asked c) (Running x).

Definition release (i : nat) (s : sched) : sched := on_cpu i (set_thread None) s.

(** [remove], and [terminate_thread] around it. *)
Definition remove (id : Z) (s : sched) : sched :=
  set_queue (filter (fun r => id_ (threads s r) <> id) (ready_queue_ s)) s.
Definition terminate_thread (id : Z) (s : sched) : sched :=
  if decide (Exists (fun r => id_ (threads s r) = id) (table s))
  then remove id (set_table (filter (fun r => id_ (threads s r) <> id) (table s)) s)
  else s.

(** [enqueue]: the thread's arguments are in its context before it is queued. *)
Definition enqueue (r : Z) (t : thread) (s : sched) : sched :=
  let s := set_threads (store r t (threads s)) s in
  set_queue (ready_queue_ s ++ [r]) s.

(** [preempt_for_waiting]: a stop for each queued thread that wants a cpu. *)
Fixpoint stop_busy (spare : nat) (cs : list vcpu) : list vcpu :=
  match cs with
  | [] => []
  | c :: cs =>
      match spare with
      | O => c :: cs
      | S n => match thread_ c with
               | None => c :: stop_busy spare cs
               | Some _ => try_stop c :: stop_busy n cs
               end
      end
  end.
Definition waiting_count (s : sched) : nat :=
  length (filter (fun r => may_run (clk s) (threads s r) = true) (ready_queue_ s)).
Definition preempt_for_waiting (s : sched) : sched := set_cpus (stop_busy (waiting_count s) (cpus s)) s.

(** ** Steps *)

Inductive step : sched -> sched -> Prop :=
  | step_schedule s i c prev :
      cpus s !! i = Some c -> at_ c = Scheduling prev -> step s (schedule i prev s)
  | step_wake s i c :
      cpus s !! i = Some c -> at_ c = Parked -> step s (schedule_once i s)
  | step_resume s i c x :
      cpus s !! i = Some c -> at_ c = Resuming x -> step s (on_cpu i (resume_cpu x (threads s x)) s)
  (** The guest changes its registers and, through the kernel, any thread. *)
  | step_guest s i c x f h :
      cpus s !! i = Some c -> at_ c = Running x -> (forall r, id_ (h r) = id_ (threads s r)) ->
      step s (set_threads h (on_cpu i (fun c => Vcpu f (thread_ c) (c_space c) (stop_asked c) (at_ c)) s))
  (** It makes a thread, which is a new object. *)
  | step_spawn s i c x r t :
      cpus s !! i = Some c -> at_ c = Running x -> r ∉ ready_queue_ s -> r ∉ running s ->
      step s (set_table (r :: table s) (enqueue r t s))
  (** It terminates another thread. *)
  | step_terminate s i c x id :
      cpus s !! i = Some c -> at_ c = Running x -> step s (terminate_thread id s)
  (** [cpu.run()] comes back. *)
  | step_stop s i c x :
      cpus s !! i = Some c -> at_ c = Running x ->
      step s (on_cpu i (go (if finished_ (threads s x) then Retiring x else Scheduling (Some x))) s)
  | step_retire s i c x :
      cpus s !! i = Some c -> at_ c = Retiring x ->
      step s (on_cpu i (go (Retired x)) (release i (set_threads (store x (save a (c_regs c) (threads s x)) (threads s)) s)))
  | step_retired s i c x :
      cpus s !! i = Some c -> at_ c = Retired x ->
      step s (on_cpu i (go (Scheduling None)) (terminate_thread (id_ (threads s x)) s))
  | step_leave s i c :
      cpus s !! i = Some c -> at_ c = Leaving -> step s (on_cpu i (go Left) (release i s))
  | step_preempt s : step s (preempt_for_waiting s)
  | step_clock s c : host_now (clk s) <= host_now c -> guest_now (clk s) <= guest_now c -> step s (set_clock c s)
  | step_halt s : step s (set_stopped s).

Inductive steps (s : sched) : sched -> Prop :=
  | steps_refl : steps s s
  | steps_step s1 s2 : steps s s1 -> step s1 s2 -> steps s s2.

(** Before any cpu runs: threads are queued, each once. *)
Record initial (s : sched) : Prop := {
  in_queue : NoDup (ready_queue_ s);
  in_cpus : forall i c, cpus s !! i = Some c -> at_ c = Scheduling None /\ thread_ c = None
}.

End Sched.
