(* ===== verification/SchedThm.v ===== *)
(** * The thread scheduler: the theorems *)

From S2P Require Import Prelude Mmu Thread ThreadThm Sched.
From stdpp Require Import list.
From stdpp Require Import options.

Open Scope Z_scope.
Open Scope kern_scope.

(** ** Lists of cpus *)

Definition opt_list {A} (o : option A) : list A := match o with Some x => [x] | None => [] end.

Lemma omap_alter (f : vcpu -> vcpu) i cs c :
  cs !! i = Some c ->
  exists rest, omap thread_ cs ≡ₚ opt_list (thread_ c) ++ rest /\
    omap thread_ (alter f i cs) ≡ₚ opt_list (thread_ (f c)) ++ rest.
Proof.
  revert i. induction cs as [|c0 cs IH]; intros [|i] Hi; cbn in Hi; try done.
  - injection Hi as ->. exists (omap thread_ cs). cbn. by destruct (thread_ c), (thread_ (f c)).
  - destruct (IH i Hi) as (rest & E1 & E2). exists (opt_list (thread_ c0) ++ rest).
    change (alter f (S i) (c0 :: cs)) with (c0 :: alter f i cs). cbn [omap list_omap].
    destruct (thread_ c0) as [x|]; cbn [opt_list app]; [|done].
    split; rewrite ?E1, ?E2; by rewrite Permutation_middle.
Qed.

Lemma alter_alter (f g : vcpu -> vcpu) (i : nat) (cs : list vcpu) : alter f i (alter g i cs) = alter (fun c => f (g c)) i cs.
Proof.
  revert i. induction cs as [|c cs IH]; intros [|i]; try done.
  change (c :: alter f i (alter g i cs) = c :: alter (fun c => f (g c)) i cs). by rewrite IH.
Qed.

(** ** The invariant *)

(** A cpu's thread is the one its place in [run] says. *)
Definition at_ok (c : vcpu) : Prop :=
  match at_ c with
  | Scheduling p => thread_ c = p
  | Resuming x | Running x | Retiring x => thread_ c = Some x
  | Parked | Retired _ | Leaving | Left => thread_ c = None
  end.

(** The invariant; [e] names a cpu in the middle of a step. *)
Record placed_but (e : option nat) (s : sched) : Prop := {
  pl_once : NoDup (ready_queue_ s ++ running s);
  pl_at : forall i c, e <> Some i -> cpus s !! i = Some c -> at_ok c;
  pl_left : forall i c, e <> Some i -> cpus s !! i = Some c -> at_ c = Leaving \/ at_ c = Left ->
    stopped_ s = true \/ (ready_queue_ s = [] /\ running s = [])
}.
Abbreviation placed := (placed_but None).

Lemma placed_weaken i s : placed s -> placed_but (Some i) s.
Proof. intros [H1 H2 H3]. by split; eauto. Qed.

Lemma running_on_cpu s i f c :
  cpus s !! i = Some c ->
  exists rest, running s ≡ₚ opt_list (thread_ c) ++ rest /\ running (on_cpu i f s) ≡ₚ opt_list (thread_ (f c)) ++ rest.
Proof. apply omap_alter. Qed.

Lemma on_cpu_lookup s i f j c' :
  cpus (on_cpu i f s) !! j = Some c' ->
  (j = i /\ exists c, cpus s !! i = Some c /\ c' = f c) \/ (j <> i /\ cpus s !! j = Some c').
Proof.
  cbn. destruct (decide (j = i)) as [->|Hne].
  - rewrite list_lookup_alter_eq. destruct (cpus s !! i) as [c|]; cbn; [|done]. intros [= <-]. left. eauto.
  - rewrite list_lookup_alter_ne by done. by right.
Qed.

(** A step of one cpu: it may pass threads between itself and the queue, and drop
    some. *)
Lemma placed_move s s' i c f dropped :
  placed_but (Some i) s -> cpus s !! i = Some c -> cpus s' = alter f i (cpus s) -> stopped_ s' = stopped_ s ->
  (ready_queue_ s' ++ opt_list (thread_ (f c))) ++ dropped ≡ₚ ready_queue_ s ++ opt_list (thread_ c) ->
  at_ok (f c) ->
  (at_ (f c) = Leaving \/ at_ (f c) = Left -> stopped_ s = true \/ (ready_queue_ s' = [] /\ running s' = [])) ->
  placed s'.
Proof.
  intros [H1 H2 H3] Hi Hc Hst Hq Hok Hl.
  destruct (omap_alter f i (cpus s) c Hi) as (rest & E1 & E2). rewrite <- Hc in E2.
  assert (forall j c', cpus s' !! j = Some c' -> (j = i /\ c' = f c) \/ (j <> i /\ cpus s !! j = Some c')) as Hlk.
  { intros j c'. rewrite Hc. destruct (decide (j = i)) as [->|Hne].
    - rewrite list_lookup_alter_eq, Hi. cbn. intros [= <-]. by left.
    - rewrite list_lookup_alter_ne by done. by right. }
  assert ((ready_queue_ s' ++ running s') ++ dropped ≡ₚ ready_queue_ s ++ running s) as Hall.
  { unfold running. rewrite E1, E2, !app_assoc, <- Hq. solve_Permutation. }
  split.
  - rewrite <- Hall in H1. apply NoDup_app in H1. apply H1.
  - intros j c' _ Hj. destruct (Hlk j c' Hj) as [[-> ->]|[Hne Hj']]; [done|]. apply (H2 j); [congruence|done].
  - intros j c' _ Hj Hp. rewrite Hst. destruct (Hlk j c' Hj) as [[-> ->]|[Hne Hj']]; [by apply Hl|].
    destruct (H3 j c' ltac:(congruence) Hj' Hp) as [|[Eq Er]]; [by left|right].
    rewrite Eq, Er in Hall. apply Permutation_sym, Permutation_nil, app_eq_nil in Hall as [Hall _].
    by apply app_eq_nil in Hall.
Qed.

(** A step that leaves the cpus and may only take from the queue. *)
Lemma placed_queue s s' :
  placed s -> cpus s' = cpus s -> stopped_ s' = stopped_ s ->
  NoDup (ready_queue_ s') -> (forall x, x ∈ ready_queue_ s' -> x ∈ ready_queue_ s) -> placed s'.
Proof.
  intros [H1 H2 H3] Hc Hst Hnd Hsub. unfold running in *. split.
  - unfold running. rewrite Hc. apply NoDup_app in H1 as (A & B & C). apply NoDup_app. split_and!; auto.
  - rewrite Hc. done.
  - intros i c Hne Hi Hp. unfold running. rewrite Hc in *. rewrite Hst. destruct (H3 _ _ Hne Hi Hp) as [|[Eq Er]]; [by left|right].
    split; [|done]. destruct (ready_queue_ s') as [|x l] eqn:E; [done|]. exfalso.
    assert (x ∈ ready_queue_ s) as Hx by (apply Hsub, elem_of_cons; by left). rewrite Eq in Hx. by apply elem_of_nil in Hx.
Qed.

Lemma placed_terminate id s : placed s -> placed (terminate_thread id s).
Proof.
  intros H. unfold terminate_thread. case_decide; [|done]. apply (placed_queue s); try done; cbn.
  - apply NoDup_filter. destruct H as [H _ _]. apply NoDup_app in H. apply H.
  - intros x [_ Hx]%list_elem_of_filter. done.
Qed.

Section Invariant.
Context (a : arch).

Lemma first_runnable_perm c q h pre x suf h' :
  first_runnable a c q h = (Some (pre, x, suf), h') -> q = pre ++ x :: suf.
Proof using Type.
  revert h pre x suf h'. induction q as [|r q IH]; intros h pre x suf h'; cbn; [done|].
  destruct (is_ready a c (h r)) as [b t]. destruct b; [by intros [= <- <- <- _]|].
  destruct (first_runnable a c q _) as [[[[pre' x'] suf']|] h''] eqn:E; [|done].
  intros [= <- <- <- _]. cbn. f_equal. by eapply IH.
Qed.

Lemma placed_schedule_once s i c :
  placed_but (Some i) s -> cpus s !! i = Some c -> thread_ c = None -> placed (schedule_once a i s).
Proof using Type.
  intros H Hi Hn. unfold schedule_once.
  destruct (stopped_ s || nothing_left s) eqn:Eb.
  - apply (placed_move s _ i c (go Leaving) []); try done; [by rewrite app_nil_r|].
    intros _. apply orb_true_iff in Eb as [E|E]; [by left|right]. unfold nothing_left in E.
    cbn [ready_queue_ on_cpu set_cpus]. destruct (ready_queue_ s); [|done]. split; [done|].
    destruct (omap_alter (go Leaving) i (cpus s) c Hi) as (rest & E1 & E2). unfold running. cbn [cpus on_cpu set_cpus].
    cbn in E2. rewrite Hn in E1, E2. cbn in E1, E2. apply Permutation_nil. rewrite E2, <- E1.
    clear -E. induction (cpus s) as [|c0 cs IH]; [done|]. cbn in E |- *. apply andb_true_iff in E as [E0 E].
    destruct (thread_ c0); [done|]. by apply IH.
  - destruct (first_runnable a (clk s) (ready_queue_ s) (threads s)) as [[[[pre x] suf]|] h] eqn:Ef.
    + apply (placed_move s _ i c (fun c => go (Resuming x) (set_thread (Some x) c)) []); try done.
      * cbn. rewrite Hn. cbn. rewrite (first_runnable_perm _ _ _ _ _ _ _ Ef). solve_Permutation.
      * cbn. by intros [|].
    + apply (placed_move s _ i c (go Parked) []); try done; [by rewrite app_nil_r|cbn; by intros [|]].
Qed.

Lemma placed_schedule s i c prev :
  placed s -> cpus s !! i = Some c -> at_ c = Scheduling prev -> placed (schedule a i prev s).
Proof using Type.
  intros H Hi Ha. pose proof (pl_at _ _ H _ _ ltac:(done) Hi) as Hok. unfold at_ok in Hok. rewrite Ha in Hok.
  unfold schedule, requeue. destruct prev as [p|].
  2: { apply (placed_schedule_once s i c); [by apply placed_weaken|done|done]. }
  rewrite Hi. set (s1 := set_queue _ _).
  assert (cpus s1 = alter (set_thread None) i (cpus s)) as Hc by done.
  apply (placed_schedule_once s1 i (set_thread None c)); [|by rewrite Hc, list_lookup_alter_eq, Hi|done].
  destruct (omap_alter (set_thread None) i (cpus s) c Hi) as (rest & E1 & E2). cbn in E2. rewrite Hok in E1. cbn in E1.
  assert (ready_queue_ s1 ++ running s1 ≡ₚ ready_queue_ s ++ running s) as Hall.
  { unfold running. rewrite Hc, E1, E2. cbn. solve_Permutation. }
  destruct H as [H1 H2 H3]. split.
  - by rewrite Hall.
  - intros j c' Hne Hj. rewrite Hc, list_lookup_alter_ne in Hj by congruence. by apply (H2 j).
  - intros j c' Hne Hj Hp. rewrite Hc, list_lookup_alter_ne in Hj by congruence.
    destruct (H3 j c' ltac:(done) Hj Hp) as [|[Eq Er]]; [by left|]. exfalso.
    unfold running in Er. rewrite Er in E1. by apply Permutation_nil_cons in E1.
Qed.

Lemma placed_same_cpus s s' :
  placed s -> ready_queue_ s' = ready_queue_ s -> cpus s' = cpus s -> stopped_ s' = stopped_ s -> placed s'.
Proof using Type.
  intros H Hq Hc Hs. apply (placed_queue s); try done; rewrite Hq; [|done].
  destruct H as [H _ _]. apply NoDup_app in H. apply H.
Qed.

(** A step of one cpu that keeps its thread. *)
Lemma placed_own s s' i c f :
  placed s -> cpus s !! i = Some c -> cpus s' = alter f i (cpus s) -> stopped_ s' = stopped_ s ->
  ready_queue_ s' = ready_queue_ s -> thread_ (f c) = thread_ c -> at_ok (f c) ->
  at_ (f c) <> Leaving -> at_ (f c) <> Left -> placed s'.
Proof using Type.
  intros H Hi Hc Hs Hq Ht Hok N1 N2. apply (placed_move s s' i c f []); try done.
  - by apply placed_weaken.
  - by rewrite app_nil_r, Hq, Ht.
  - by intros [|].
Qed.

Lemma stop_busy_lookup n cs j c' :
  stop_busy n cs !! j = Some c' -> exists c, cs !! j = Some c /\ thread_ c' = thread_ c /\ at_ c' = at_ c.
Proof using Type.
  revert n j. induction cs as [|c cs IH]; intros [|n] [|j]; cbn; try done.
  - intros [= <-]. eauto.
  - eauto.
  - destruct (thread_ c); cbn; intros [= <-]; eauto.
  - destruct (thread_ c); cbn; eauto.
Qed.

Lemma stop_busy_some n cs j c : cs !! j = Some c -> exists c', stop_busy n cs !! j = Some c' /\ at_ c' = at_ c.
Proof using Type.
  revert n j. induction cs as [|c0 cs IH]; intros [|n] [|j]; cbn; try done; intros Hj.
  - simplify_eq. eauto.
  - eauto.
  - simplify_eq. destruct (thread_ c); cbn; eauto.
  - destruct (thread_ c0); cbn; eauto.
Qed.

Lemma stop_busy_running n cs : omap thread_ (stop_busy n cs) = omap thread_ cs.
Proof using Type.
  revert n. induction cs as [|c cs IH]; intros [|n]; try done. cbn [stop_busy].
  destruct (thread_ c) eqn:E; cbn; rewrite E; by rewrite IH.
Qed.

Lemma placed_step s s' : placed s -> step a s s' -> placed s'.
Proof using Type.
  intros H Hst. pose proof (fun i c => pl_at _ _ H i c ltac:(done)) as Hat. unfold at_ok in Hat. destruct Hst.
  - by eapply placed_schedule.
  - eapply placed_schedule_once; [by apply placed_weaken|done|]. specialize (Hat _ _ H0). by rewrite H1 in Hat.
  - specialize (Hat _ _ H0). rewrite H1 in Hat. by eapply (placed_own s _ i c).
  - specialize (Hat _ _ H0) as Ha. rewrite H1 in Ha.
    eapply (placed_own s _ i c (fun c => Vcpu f (thread_ c) (c_space c) (stop_asked c) (at_ c))); try done; unfold at_ok; cbn; by rewrite ?H1.
  - (* spawn *)
    specialize (Hat _ _ H0) as Ha. rewrite H1 in Ha. destruct H as [N1 N2 N3]. split; [|done|].
    + cbn. unfold running in *. cbn. rewrite <- app_assoc. cbn.
      rewrite <- Permutation_middle. constructor; [|done]. by rewrite elem_of_app; intros [|].
    + intros j c' _ Hj Hp. cbn in Hj |- *. destruct (N3 j c' ltac:(done) Hj Hp) as [|[_ Er]]; [by left|]. exfalso.
      destruct (omap_alter id i (cpus s) c H0) as (rest & E1 & _). rewrite Ha in E1. unfold running in Er. rewrite Er in E1.
      by apply Permutation_nil_cons in E1.
  - by apply placed_terminate.
  - specialize (Hat _ _ H0). rewrite H1 in Hat.
    eapply (placed_own s _ i c (go _)); try done; cbn; by destruct (finished_ (threads s x)).
  - (* retire *)
    eapply (placed_move s _ i c (fun c => go (Retired x) (set_thread None c)) [x]); try done.
    + by apply placed_weaken.
    + cbn. unfold release, on_cpu. cbn. rewrite alter_alter. done.
    + cbn. specialize (Hat _ _ H0). rewrite H1 in Hat. rewrite Hat. cbn. by rewrite app_nil_r.
    + cbn. by intros [|].
  - (* retired *)
    apply placed_terminate with (id := id_ (threads s x)) in H.
    assert (cpus (terminate_thread (id_ (threads s x)) s) = cpus s) as Ec by (unfold terminate_thread; by case_decide).
    eapply (placed_own (terminate_thread (id_ (threads s x)) s) _ i c); try done; [by rewrite Ec|].
    specialize (Hat _ _ H0). by rewrite H1 in Hat.
  - (* leave *)
    specialize (Hat _ _ H0) as Ha. rewrite H1 in Ha.
    eapply (placed_move s _ i c (fun c => go Left (set_thread None c)) []); try done.
    + by apply placed_weaken.
    + cbn. unfold release, on_cpu. cbn. by rewrite alter_alter.
    + cbn. rewrite Ha. by rewrite !app_nil_r.
    + intros _. destruct (pl_left _ _ H i c ltac:(done) H0 ltac:(by left)) as [|[Eq Er]]; [by left|right]. cbn.
      split; [done|]. destruct (omap_alter (fun c => go Left (set_thread None c)) i (cpus s) c H0) as (rest & E1 & E2).
      cbn in E2. rewrite Ha in E1. cbn in E1. unfold running, release, on_cpu in *. cbn. rewrite alter_alter.
      apply Permutation_nil. rewrite <- Er, E1, <- E2. done.
  - destruct H as [N1 N2 N3]. unfold running in *. split; cbn; unfold running; cbn.
    + by rewrite stop_busy_running.
    + intros j c' _ Hj. destruct (stop_busy_lookup _ _ _ _ Hj) as (c & Hc & Et & Ea).
      specialize (Hat _ _ Hc). unfold at_ok. by rewrite Et, Ea.
    + intros j c' _ Hj Hp. destruct (stop_busy_lookup _ _ _ _ Hj) as (c & Hc & Et & Ea). rewrite Ea in Hp.
      rewrite stop_busy_running. by apply (N3 j c).
  - by apply (placed_same_cpus s).
  - destruct H as [N1 N2 N3]. split; [done|done|]. by left.
Qed.

Lemma placed_initial s : initial s -> placed s.
Proof using Type.
  intros [Hq Hc].
  assert (running s = []) as Er.
  { unfold running. induction (cpus s) as [|c cs IH]; [done|]. cbn. destruct (Hc 0%nat c eq_refl) as [_ ->].
    apply IH. intros i c'. apply (Hc (S i)). }
  split.
  - by rewrite Er, app_nil_r.
  - intros i c _ Hi. destruct (Hc i c Hi) as [E1 E2]. unfold at_ok. by rewrite E1.
  - intros i c _ Hi. destruct (Hc i c Hi) as [-> _]. by intros [|].
Qed.

Lemma placed_steps s s' : initial s -> steps a s s' -> placed s'.
Proof using Type. intros Hi. induction 1; [by apply placed_initial|by eapply placed_step]. Qed.

End Invariant.

(** ** The queue *)

Section Queue.
Context (a : arch).

Lemma first_runnable_spec c q h :
  NoDup q ->
  match first_runnable a c q h with
  | (Some (pre, x, suf), h') =>
      q = pre ++ x :: suf /\ (forall r, r ∈ pre -> may_run c (h r) = false) /\ may_run c (h x) = true /\
      h' x = (is_ready a c (h x)).2 /\ forall y, y ∉ q -> h' y = h y
  | (None, h') => (forall r, r ∈ q -> may_run c (h r) = false) /\ forall y, y ∉ q -> h' y = h y
  end.
Proof using Type.
  intros Hnd. revert h. induction Hnd as [|r q Hr Hnd IH]; intros h; cbn [first_runnable].
  { split; [|done]. intros r Hr. by apply elem_of_nil in Hr. }
  pose proof (may_run_ready a c (h r)) as Er. destruct (is_ready a c (h r)) as [b t] eqn:E. cbn in Er.
  assert (forall y, y <> r -> store r t h y = h y) as Hst.
  { intros y Hy. unfold store. by rewrite (proj2 (Z.eqb_neq y r)). }
  destruct b.
  - split_and!; [done| |done| |].
    + intros y Hy. by apply elem_of_nil in Hy.
    + rewrite E. unfold store. by rewrite Z.eqb_refl.
    + intros y Hy. apply Hst. intros ->. apply Hy, elem_of_cons. by left.
  - specialize (IH (store r t h)). destruct (first_runnable a c q (store r t h)) as [[[[pre x] suf]|] h'].
    + destruct IH as (-> & I1 & I2 & I3 & I4).
      assert (x <> r) as Hx by (intros ->; apply Hr; rewrite elem_of_app, elem_of_cons; auto).
      rewrite Hst in I2, I3 by done. split_and!; try done.
      * intros y [->|Hy]%elem_of_cons; [done|]. rewrite <- (Hst y); [by apply I1|]. intros ->. apply Hr. rewrite elem_of_app. auto.
      * intros y [N1 N2]%not_elem_of_cons. rewrite I4 by done. by apply Hst.
    + destruct IH as [I1 I2]. split.
      * intros y [->|Hy]%elem_of_cons; [done|]. rewrite <- (Hst y); [by apply I1|]. by intros ->.
      * intros y [N1 N2]%not_elem_of_cons. rewrite I2 by done. by apply Hst.
Qed.

(** How many threads are ahead. *)
Fixpoint position (r : Z) (q : list Z) : nat :=
  match q with [] => 0%nat | x :: q => if decide (x = r) then 0%nat else S (position r q) end.

Lemma position_app r q l : r ∈ q -> position r (q ++ l) = position r q.
Proof using Type.
  induction q as [|x q IH]; intros Hr; [by apply elem_of_nil in Hr|]. cbn. case_decide; [done|].
  apply elem_of_cons in Hr as [->|]; [done|]. by rewrite IH.
Qed.

Lemma position_filter P `{!forall x, Decision (P x)} r q :
  r ∈ filter P q -> (position r (filter P q) <= position r q)%nat.
Proof using Type.
  induction q as [|x q IH]; [by intros Hr%elem_of_nil|]. rewrite filter_cons. case_decide; cbn.
  - case_decide as E; [done|]. intros [Hr|Hr]%elem_of_cons; [congruence|]. specialize (IH Hr). lia.
  - intros Hr. specialize (IH Hr). case_decide as E; [|lia]. subst x. apply list_elem_of_filter in Hr as [? _]. done.
Qed.

Lemma position_remove r pre x suf :
  NoDup (pre ++ x :: suf) -> r <> x -> r ∈ pre ++ suf ->
  (position r (pre ++ suf) <= position r (pre ++ x :: suf))%nat /\
  (r ∉ pre -> position r (pre ++ suf) < position r (pre ++ x :: suf))%nat.
Proof using Type.
  intros Hnd Hne. induction pre as [|y pre IH]; cbn.
  - intros Hr. rewrite decide_False by congruence. lia.
  - cbn in Hnd. inversion_clear Hnd as [|? ? Hy Hnd']. intros Hr. case_decide as E.
    { split; [lia|]. intros Hn. exfalso. apply Hn, elem_of_cons. by left. }
    apply elem_of_cons in Hr as [->|Hr]; [done|]. destruct (IH Hnd' Hr) as [I1 I2]. split; [lia|].
    intros Hn. rewrite not_elem_of_cons in Hn. specialize (I2 (proj2 Hn)). lia.
Qed.

End Queue.

Section Claims.
Context (a : arch).

(** C28: whatever the cpus, their guests and the clock do, in any order, no
    thread is ever on two cpus, twice in the queue, or both queued and on a cpu;
    and a cpu's thread is the one its place in [run] says. *)
Theorem sched_exclusive s s' :
  initial s -> steps a s s' ->
  NoDup (ready_queue_ s' ++ running s') /\
  (forall i j c d x, cpus s' !! i = Some c -> cpus s' !! j = Some d -> thread_ c = Some x -> thread_ d = Some x -> i = j) /\
  forall i c x, cpus s' !! i = Some c -> at_ c = Running x -> thread_ c = Some x.
Proof using Type.
  intros Hi Hs. pose proof (placed_steps a s s' Hi Hs) as [H1 H2 H3]. split_and!; [done| |].
  - intros i j c d x Hc Hd Ex Ey. apply NoDup_app in H1 as (_ & _ & H1). unfold running in H1.
    clear -H1 Hc Hd Ex Ey. revert i j Hc Hd. induction (cpus s') as [|e cs IH]; intros [|i] [|j] Hc Hd; try done.
    + exfalso. cbn in Hc, Hd, H1. simplify_eq. rewrite Ex in H1. cbn in H1. inversion_clear H1 as [|? ? Hn _]. apply Hn.
      rewrite list_elem_of_omap. exists d. split; [by eapply list_elem_of_lookup_2|done].
    + exfalso. cbn in Hc, Hd, H1. simplify_eq. rewrite Ey in H1. cbn in H1. inversion_clear H1 as [|? ? Hn _]. apply Hn.
      rewrite list_elem_of_omap. exists c. split; [by eapply list_elem_of_lookup_2|done].
    + f_equal. apply IH; try done. cbn in H1. destruct (thread_ e); [by inversion_clear H1|done].
  - intros i c x Hc Ha. specialize (H2 i c ltac:(done) Hc). unfold at_ok in H2. by rewrite Ha in H2.
Qed.

(** A cpu that left stays gone. *)
Definition gone (i : nat) (s : sched) : Prop :=
  exists c, cpus s !! i = Some c /\ (at_ c = Leaving \/ at_ c = Left).

Lemma gone_other s s' i j f : gone i s -> i <> j -> cpus s' = alter f j (cpus s) -> gone i s'.
Proof using Type. intros (c & Hc & Ha) Hne E. exists c. by rewrite E, list_lookup_alter_ne. Qed.

Lemma gone_step i s s' : gone i s -> step a s s' -> gone i s'.
Proof using Type.
  intros Hg Hst. pose proof Hg as (c0 & Hc0 & Ha0).
  assert (forall j c, cpus s !! j = Some c -> at_ c <> Leaving -> at_ c <> Left -> i <> j) as Hne.
  { intros j c Hc N1 N2 ->. rewrite Hc in Hc0. simplify_eq. by destruct Ha0. }
  assert (forall j, i <> j -> gone i (schedule_once a j s)) as Honce.
  { intros j Hj. unfold schedule_once. case_match; [by eapply gone_other|].
    destruct (first_runnable a _ _ _) as [[[[pre x] suf]|] h]; by eapply gone_other. }
  destruct Hst; try (assert (i <> i0) as Hij by (eapply Hne; [done|by rewrite H0|by rewrite H0])).
  - unfold schedule. clear Honce. assert (gone i (requeue a i0 prev s)) as Hg1.
    { unfold requeue. destruct prev; [|done]. rewrite H. by eapply gone_other. }
    unfold schedule_once. case_match; [by eapply gone_other|].
    destruct (first_runnable a _ _ _) as [[[[pre x] suf]|] h]; by eapply gone_other.
  - by apply Honce.
  - by eapply gone_other.
  - by eapply gone_other.
  - done.
  - unfold terminate_thread. by case_decide.
  - by eapply gone_other.
  - eapply gone_other; [done|exact Hij|]. cbn. unfold release, on_cpu. cbn. by rewrite alter_alter.
  - assert (cpus (terminate_thread (id_ (threads s x)) s) = cpus s) as Ec by (unfold terminate_thread; by case_decide).
    eapply gone_other; [done|exact Hij|]. cbn. by rewrite Ec.
  - destruct (decide (i = i0)) as [->|Hij].
    + exists (go Left (set_thread None c)). split; [|by right]. cbn. unfold release, on_cpu. cbn.
      by rewrite alter_alter, list_lookup_alter_eq, H.
    + eapply gone_other; [done|exact Hij|]. cbn. unfold release, on_cpu. cbn. by rewrite alter_alter.
  - unfold gone. cbn. destruct (stop_busy_some (waiting_count s) (cpus s) i c0 Hc0) as (c' & Hc' & Ea).
    exists c'. by rewrite Ea.
  - done.
  - done.
Qed.

Lemma gone_steps i s s' : gone i s -> steps a s s' -> gone i s'.
Proof using Type. intros Hg. induction 1; [done|by eapply gone_step]. Qed.

Lemma placed_later s s' : placed s -> steps a s s' -> placed s'.
Proof using Type. intros Hp. induction 1; [done|by eapply placed_step]. Qed.

(** A cpu's [run] comes back only when the scheduler was stopped or no
    thread is left anywhere, queued or on a cpu, and then none ever is again. *)
Theorem run_returns_when_done s s1 s2 i c :
  initial s -> steps a s s1 -> cpus s1 !! i = Some c -> at_ c = Leaving \/ at_ c = Left ->
  (stopped_ s1 = true \/ (ready_queue_ s1 = [] /\ running s1 = [])) /\
  (steps a s1 s2 -> stopped_ s2 = true \/ (ready_queue_ s2 = [] /\ running s2 = [])).
Proof using Type.
  intros Hi Hs Hc Ha. pose proof (placed_steps a s s1 Hi Hs) as H1. split; [by eapply (pl_left _ _ H1)|].
  intros Hs2. destruct (gone_steps i s1 s2) as (c2 & Hc2 & Ha2); [by exists c|done|].
  by eapply (pl_left _ _ (placed_later s1 s2 H1 Hs2)).
Qed.

(** *** Fairness *)

Lemma schedule_once_queue s i :
  NoDup (ready_queue_ s) -> stopped_ s = false ->
  (exists pre x suf, ready_queue_ s = pre ++ x :: suf /\ (forall r, r ∈ pre -> may_run (clk s) (threads s r) = false) /\
     may_run (clk s) (threads s x) = true /\ ready_queue_ (schedule_once a i s) = pre ++ suf /\
     forall c, cpus s !! i = Some c -> exists c', cpus (schedule_once a i s) !! i = Some c' /\ thread_ c' = Some x /\ at_ c' = Resuming x) \/
  ((forall r, r ∈ ready_queue_ s -> may_run (clk s) (threads s r) = false) /\ ready_queue_ (schedule_once a i s) = ready_queue_ s).
Proof using Type.
  intros Hnd Hst. unfold schedule_once. rewrite Hst. cbn [orb].
  destruct (nothing_left s) eqn:En.
  { right. split; [|done]. unfold nothing_left in En. destruct (ready_queue_ s); [|done]. intros r Hr. by apply elem_of_nil in Hr. }
  pose proof (first_runnable_spec a (clk s) (ready_queue_ s) (threads s) Hnd) as Hf.
  destruct (first_runnable a _ _ _) as [[[[pre x] suf]|] h].
  - left. destruct Hf as (E1 & E2 & E3 & _). exists pre, x, suf. split_and!; try done.
    intros c Hc. eexists. split; [cbn; by rewrite list_lookup_alter_eq, Hc|done].
  - right. by destruct Hf.
Qed.

Lemma step_position s s' r :
  placed s -> step a s s' -> r ∈ ready_queue_ s -> r ∈ ready_queue_ s' ->
  (position r (ready_queue_ s') <= position r (ready_queue_ s))%nat.
Proof using Type.
  intros Hp Hst Hr Hr'. pose proof (pl_once _ _ Hp) as Hnd. apply NoDup_app in Hnd as (Hnd & _ & _).
  assert (forall u i, r ∈ ready_queue_ (schedule_once a i u) -> NoDup (ready_queue_ u) -> r ∈ ready_queue_ u ->
    (position r (ready_queue_ (schedule_once a i u)) <= position r (ready_queue_ u))%nat) as Honce.
  { intros u i Hru Hnu Hr0. destruct (stopped_ u) eqn:Es.
    - unfold schedule_once in *. rewrite Es in *. done.
    - destruct (schedule_once_queue u i Hnu Es) as [(pre & x & suf & E1 & _ & _ & E2 & _)|[_ E2]]; rewrite E2 in *; [|done].
      rewrite E1. apply position_remove; [by rewrite <- E1| |done]. intros ->. rewrite E1 in Hnu.
      apply NoDup_app in Hnu as (_ & Hd & Hn). inversion_clear Hn as [|? ? Hs _].
      apply elem_of_app in Hru as [Hx|]; [|done]. apply (Hd x Hx). apply elem_of_cons. by left. }
  assert (forall id, r ∈ ready_queue_ (terminate_thread id s) ->
    (position r (ready_queue_ (terminate_thread id s)) <= position r (ready_queue_ s))%nat) as Hterm.
  { intros id. unfold terminate_thread. case_decide; [|done]. cbn. apply position_filter. }
  destruct Hst; try done; cbn [ready_queue_ set_queue on_cpu set_cpus set_threads set_table enqueue release] in *.
  - pose proof (placed_schedule a s i c prev Hp H H0) as Hp'. unfold schedule in *.
    assert (r ∈ ready_queue_ (requeue a i prev s) /\ position r (ready_queue_ (requeue a i prev s)) = position r (ready_queue_ s) /\
      NoDup (ready_queue_ (requeue a i prev s))) as (R1 & R2 & R3).
    { unfold requeue. destruct prev as [p|]; [|done]. rewrite H. cbn. split_and!.
      - rewrite elem_of_app. by left.
      - by rewrite position_app.
      - pose proof (pl_at _ _ Hp i c ltac:(done) H) as Ht. unfold at_ok in Ht. rewrite H0 in Ht.
        pose proof (pl_once _ _ Hp) as Hall. destruct (omap_alter id i (cpus s) c H) as (rest & E1 & _).
        unfold running in Hall. rewrite E1, Ht in Hall. cbn in Hall. rewrite app_comm_cons, app_assoc in Hall || idtac.
        apply NoDup_app in Hall as (N1 & N2 & N3). apply NoDup_app. split_and!; [done| |apply NoDup_singleton].
        intros x Hx ->%list_elem_of_singleton. apply (N2 p Hx). apply elem_of_cons. by left. }
    rewrite <- R2. by apply Honce.
  - by apply Honce.
  - by rewrite position_app.
  - by apply Hterm.
  - by apply Hterm.
Qed.

(** A turn of the scheduler on cpu [i]: it comes from [cpu.run()] with the thread
    it ran, or with none, or wakes in [cv_.wait]. *)
Inductive turn (i : nat) : sched -> sched -> Prop :=
  | turn_schedule s c prev : cpus s !! i = Some c -> at_ c = Scheduling prev -> turn i s (schedule a i prev s)
  | turn_wake s c : cpus s !! i = Some c -> at_ c = Parked -> turn i s (schedule_once a i s).

(** [r] could be taken now. *)
Record wanting (r : Z) (s : sched) : Prop := {
  wa_queued : r ∈ ready_queue_ s; wa_going : stopped_ s = false; wa_may : may_run (clk s) (threads s r) = true
}.

(** What a turn does while [r] wants a cpu: cpu [i] gets [r] or a runnable thread
    that was ahead of it, and then [r] moves up. *)
Definition serves (i : nat) (r : Z) (s s' : sched) : Prop :=
  exists x c', cpus s' !! i = Some c' /\ thread_ c' = Some x /\ at_ c' = Resuming x /\
    x ∈ ready_queue_ s /\ may_run (clk s) (threads s x) = true /\
    (x = r \/ (r ∈ ready_queue_ s' /\ position r (ready_queue_ s') < position r (ready_queue_ s))%nat).

Lemma once_takes i r s c : NoDup (ready_queue_ s) -> cpus s !! i = Some c -> wanting r s ->
  exists pre x suf c', ready_queue_ s = pre ++ x :: suf /\ (r ∉ pre) /\ may_run (clk s) (threads s x) = true /\
    ready_queue_ (schedule_once a i s) = pre ++ suf /\ cpus (schedule_once a i s) !! i = Some c' /\ thread_ c' = Some x /\ at_ c' = Resuming x.
Proof using Type.
  intros Hnd Hc [Hr Hst Hm]. destruct (schedule_once_queue s i Hnd Hst) as [(pre & x & suf & E1 & E2 & E3 & E4 & E5)|[E1 _]].
  2: { by rewrite E1 in Hm. }
  destruct (E5 c Hc) as (c' & Hc' & Ht & Ha). exists pre, x, suf, c'. split_and!; try done. intros Hin. by rewrite E2 in Hm.
Qed.

Lemma taken_moves r pre x suf : NoDup (pre ++ x :: suf) -> r ∈ pre ++ x :: suf -> r ∉ pre ->
  x = r \/ (r ∈ pre ++ suf /\ position r (pre ++ suf) < position r (pre ++ x :: suf))%nat.
Proof using Type.
  intros Hnd Hr Hpre. destruct (decide (x = r)) as [->|Hne]; [by left|right].
  apply elem_of_app in Hr as [|[->|Hr]%elem_of_cons]; [done|done|].
  assert (r ∈ pre ++ suf) as Hin by (rewrite elem_of_app; by right). split; [done|].
  apply position_remove; [done|by apply not_eq_sym|done|done].
Qed.

Lemma schedule_once_serves i r s c : NoDup (ready_queue_ s) -> cpus s !! i = Some c -> wanting r s -> serves i r s (schedule_once a i s).
Proof using Type.
  intros Hnd Hc Hw. destruct (once_takes i r s c Hnd Hc Hw) as (pre & x & suf & c' & E1 & Hpre & Hm & E2 & H).
  exists x, c'. pose proof (wa_queued _ _ Hw) as Hr. rewrite E1 in Hnd, Hr. rewrite E1, E2.
  split_and!; try apply H; [rewrite elem_of_app, elem_of_cons; auto|done|by apply taken_moves].
Qed.

(** What is taken out of [q ++ [p]] before anything in [q] is passed over is not [p]. *)
Lemma not_the_last {A} (q : list A) p r pre x suf : q ++ [p] = pre ++ x :: suf -> r ∈ q -> r ∉ pre ->
  exists suf', suf = suf' ++ [p] /\ q = pre ++ x :: suf'.
Proof using Type.
  intros E Hr Hpre. destruct suf as [|y suf _] using rev_ind.
  - apply app_inj_tail in E as [-> _]. done.
  - rewrite app_comm_cons, app_assoc in E. apply app_inj_tail in E as [-> ->]. by exists suf.
Qed.

Lemma turn_step i s s' : turn i s s' -> step a s s'.
Proof using Type. intros [? ? ? Hc Ha|? ? Hc Ha]; [by eapply step_schedule|by eapply step_wake]. Qed.

Lemma queue_nodup s : placed s -> NoDup (ready_queue_ s).
Proof using Type. intros Hp. pose proof (pl_once _ _ Hp) as Hnd. apply NoDup_app in Hnd. apply Hnd. Qed.

(** The thread a cpu comes with is not in the queue, and is put at its end. *)
Lemma requeue_queue i c p s : placed s -> cpus s !! i = Some c -> at_ c = Scheduling (Some p) ->
  (p ∉ ready_queue_ s) /\ ready_queue_ (requeue a i (Some p) s) = ready_queue_ s ++ [p] /\
  NoDup (ready_queue_ s ++ [p]) /\ forall y, y <> p -> threads (requeue a i (Some p) s) y = threads s y.
Proof using Type.
  intros Hp Hc Ha. assert (p ∉ ready_queue_ s) as Hn.
  { intros Hin. pose proof (pl_once _ _ Hp) as Hnd. apply NoDup_app in Hnd as (_ & Hd & _). apply (Hd p Hin). unfold running.
    rewrite list_elem_of_omap. exists c. split; [by eapply list_elem_of_lookup_2|]. pose proof (pl_at _ _ Hp i c ltac:(done) Hc) as Hat. unfold at_ok in Hat. by rewrite Ha in Hat. }
  unfold requeue. rewrite Hc. split_and!; [done|done| |].
  - apply NoDup_app. split_and!; [by apply queue_nodup| |apply NoDup_singleton]. intros x Hx ->%list_elem_of_singleton. done.
  - intros y Hy. cbn. unfold store. by rewrite (proj2 (Z.eqb_neq y p)).
Qed.

Lemma schedule_serves i r s c p : placed s -> cpus s !! i = Some c -> at_ c = Scheduling (Some p) -> wanting r s ->
  serves i r s (schedule a i (Some p) s) /\ exists q, ready_queue_ (schedule a i (Some p) s) = q ++ [p].
Proof using Type.
  intros Hp Hc Ha [Hr Hst Hm]. destruct (requeue_queue i c p s Hp Hc Ha) as (Hn & Eq & Hnd & Et). unfold schedule.
  set (u := requeue a i (Some p) s) in *.
  assert (stopped_ u = false /\ clk u = clk s) as [Hstu Ec] by (unfold u, requeue; by rewrite Hc).
  assert (cpus u !! i = Some (set_thread None c)) as Hcu by (unfold u, requeue; rewrite Hc; cbn; by rewrite list_lookup_alter_eq, Hc).
  destruct (once_takes i r u _ ltac:(by rewrite Eq) Hcu) as (pre & x & suf & c' & E1 & Hpre & Hx & E2 & H).
  { split; [rewrite Eq, elem_of_app; by left|done|rewrite Ec, Et; [done|by intros ->]]. }
  rewrite Eq in E1. destruct (not_the_last _ _ r _ _ _ E1 Hr Hpre) as (suf' & -> & E3). rewrite E2, app_assoc.
  split; [|by exists (pre ++ suf')]. exists x, c'. assert (x ∈ ready_queue_ s) as Hxq by (rewrite E3, elem_of_app, elem_of_cons; auto).
  rewrite Ec, Et in Hx by (by intros ->). split_and!; try apply H; [done|done|]. rewrite E2, app_assoc, E3.
  apply NoDup_app in Hnd as (Hnd & _). rewrite E3 in Hnd, Hr. destruct (taken_moves r pre x suf' Hnd Hr Hpre) as [|[Hin Hlt]]; [by left|right].
  rewrite position_app by done. split; [rewrite elem_of_app; by left|done].
Qed.

Lemma turn_serves i r s s' : placed s -> turn i s s' -> wanting r s -> serves i r s s' /\
  forall c p, cpus s !! i = Some c -> at_ c = Scheduling (Some p) -> (p ∉ ready_queue_ s) /\ exists q, ready_queue_ s' = q ++ [p].
Proof using Type.
  intros Hp Ht Hw. destruct Ht as [s c prev Hc Ha|s c Hc Ha].
  - destruct prev as [p|].
    + destruct (schedule_serves i r s c p Hp Hc Ha Hw) as [H1 H2]. split; [done|]. intros c1 p1 Hc1 Ha1.
      assert (p1 = p) as -> by congruence. split; [by destruct (requeue_queue i c p s Hp Hc Ha)|exact H2].
    + split; [|congruence]. apply (schedule_once_serves i r s c); [by apply queue_nodup|done..].
  - split; [|congruence]. apply (schedule_once_serves i r s c); [by apply queue_nodup|done..].
Qed.

(** An execution from [s] in which [r] stays queued, counting the turns that find
    it wanting a cpu. *)
Inductive waits (r : Z) (s : sched) : nat -> sched -> Prop :=
  | waits_start : waits r s 0 s
  | waits_step n s1 s2 : waits r s n s1 -> step a s1 s2 -> r ∈ ready_queue_ s2 -> waits r s n s2
  | waits_turn n i s1 s2 : waits r s n s1 -> wanting r s1 -> turn i s1 s2 -> r ∈ ready_queue_ s2 -> waits r s (S n) s2.

Lemma waits_placed r s n s' : waits r s n s' -> placed s -> r ∈ ready_queue_ s -> placed s' /\ r ∈ ready_queue_ s'.
Proof using Type.
  intros Hw Hp Hr. induction Hw as [|n s1 s2 _ [IH _] Hst|n i s1 s2 _ [IH _] _ Ht%turn_step]; [done|..]; (split; [by eapply placed_step|done]).
Qed.

Lemma waits_bound r s n s' : waits r s n s' -> placed s -> r ∈ ready_queue_ s ->
  (n + position r (ready_queue_ s') <= position r (ready_queue_ s))%nat.
Proof using Type.
  intros Hw Hp Hr. induction Hw as [|n s1 s2 Hw IH Hst Hr2|n i s1 s2 Hw IH Hwant Ht Hr2]; [lia|..].
  - destruct (waits_placed r s n s1 Hw Hp Hr) as [Hp1 Hr1]. pose proof (step_position s1 s2 r Hp1 Hst Hr1 Hr2). lia.
  - destruct (waits_placed r s n s1 Hw Hp Hr) as [Hp1 Hr1].
    destruct (turn_serves i r s1 s2 Hp1 Ht Hwant) as [(x & c' & Hc' & Hx & _ & _ & _ & [->|[_ Hlt]]) _]; [exfalso|lia].
    pose proof (placed_step a s1 s2 Hp1 (turn_step _ _ _ Ht)) as Hp2. pose proof (pl_once _ _ Hp2) as Hnd.
    apply NoDup_app in Hnd as (_ & Hd & _). apply (Hd r Hr2). unfold running. rewrite list_elem_of_omap. exists c'.
    split; [by eapply list_elem_of_lookup_2|done].
Qed.

(** C30: the queue is fair.  No step ever puts a queued thread further back.  A
    turn of the scheduler on any cpu, whether it comes with the thread it ran, with
    none, or from its wait, while a queued thread is runnable, puts on the cpu that
    thread or a runnable one ahead of it, and then the thread moves up; the thread
    the cpu ran is behind all of them, at the end of the queue, and stays there.  So
    in any execution, however the cpus, their guests and the clock interleave, at
    most as many turns find a queued thread runnable and leave it in the queue as
    there were threads ahead of it. *)
Theorem sched_fair s0 s r :
  initial s0 -> steps a s0 s -> r ∈ ready_queue_ s ->
  (forall s', step a s s' -> r ∈ ready_queue_ s' -> (position r (ready_queue_ s') <= position r (ready_queue_ s))%nat) /\
  (forall i s', turn i s s' -> wanting r s ->
     serves i r s s' /\
     forall c p, cpus s !! i = Some c -> at_ c = Scheduling (Some p) -> (p ∉ ready_queue_ s) /\ exists q, ready_queue_ s' = q ++ [p]) /\
  (forall n s', waits r s n s' -> (n + position r (ready_queue_ s') <= position r (ready_queue_ s))%nat).
Proof using Type.
  intros Hi Hs Hr. pose proof (placed_steps a s0 s Hi Hs) as Hp. split_and!.
  - intros s' Hst Hr'. by apply step_position.
  - intros i s' Ht Hw. by apply turn_serves.
  - intros n s' Hw. by apply waits_bound.
Qed.

(** *** Preemption and waking *)

Definition busy (c : vcpu) : bool := match thread_ c with Some _ => true | None => false end.
Definition busy_before (j : nat) (cs : list vcpu) : nat := length (filter (fun c => busy c = true) (firstn j cs)).

(** [preempt_for_waiting] asks the first busy cpus to stop, as many as there
    are queued threads that could run and no more, and never a cpu that has no
    thread. *)
Theorem preempt_exact s j c :
  cpus s !! j = Some c ->
  cpus (preempt_for_waiting s) !! j =
    Some (if busy c && bool_decide (busy_before j (cpus s) < waiting_count s)%nat then try_stop c else c).
Proof using Type.
  cbn. generalize (waiting_count s). unfold busy_before. generalize (cpus s). clear s. intros cs.
  revert j. induction cs as [|c0 cs IH]; intros j n Hj; [done|]. destruct n as [|n].
  { cbn [stop_busy]. rewrite Hj. rewrite bool_decide_false by lia. by rewrite andb_false_r. }
  cbn [stop_busy]. destruct j as [|j]; cbn in Hj.
  - injection Hj as ->. unfold busy. destruct (thread_ c); cbn; [|done]. by rewrite bool_decide_true by lia.
  - cbn [firstn]. rewrite filter_cons. destruct (thread_ c0) eqn:E0.
    + rewrite decide_True by (unfold busy; by rewrite E0). change ((try_stop c0 :: stop_busy n cs) !! S j) with (stop_busy n cs !! j).
      rewrite (IH j n Hj). cbn [length]. f_equal.
      set (k := length _). rewrite (bool_decide_ext (S k < S n)%nat (k < n)%nat) by lia. done.
    + rewrite decide_False by (unfold busy; by rewrite E0). by apply IH.
Qed.

Lemma next_wake_spec c h q e :
  (forall x, e = Some x -> exists t, is_sleeping c t = true /\ sleep_until_ t = x) ->
  match next_wake c h q e with
  | None => e = None /\ forall r, r ∈ q -> is_sleeping c (h r) = false
  | Some w => (e = Some w \/ exists r, r ∈ q /\ is_sleeping c (h r) = true /\ sleep_until_ (h r) = w) /\
      (forall x, e = Some x -> w <= x) /\ forall r, r ∈ q -> is_sleeping c (h r) = true -> w <= sleep_until_ (h r)
  end.
Proof using Type.
  revert e. induction q as [|r q IH]; intros e He; cbn [next_wake].
  { destruct e as [x|]; split_and!; try done.
    - by left.
    - intros y [= ->]. lia.
    - intros r Hr. by apply elem_of_nil in Hr.
    - intros r Hr. by apply elem_of_nil in Hr. }
  set (e' := if is_sleeping c (h r) && _ then _ else e). specialize (IH e').
  assert (forall x, e' = Some x -> exists t, is_sleeping c t = true /\ sleep_until_ t = x) as He'.
  { subst e'. intros x. case_match eqn:Eb; [|apply He]. intros [= <-]. apply andb_true_iff in Eb as [Eb _]. eauto. }
  specialize (IH He'). destruct (next_wake c h q e') as [w|].
  - destruct IH as (I1 & I2 & I3). subst e'.
    destruct (is_sleeping c (h r)) eqn:Es; cbn [andb] in I1, I2.
    + destruct e as [x|].
      * destruct (Z.ltb_spec (sleep_until_ (h r)) x) as [Hlt|Hge].
        -- specialize (I2 _ eq_refl). split_and!.
           ++ right. destruct I1 as [[= <-]|(y & Hy & ? & ?)]; [exists r|exists y]; split_and!; try done; apply elem_of_cons; auto.
           ++ intros y [= <-]. lia.
           ++ intros y [->|Hy]%elem_of_cons Hsl; auto.
        -- specialize (I2 _ eq_refl). split_and!.
           ++ destruct I1 as [I1|(y & Hy & ? & ?)]; [by left|]. right. exists y. split_and!; try done. apply elem_of_cons; auto.
           ++ intros y [= <-]. lia.
           ++ intros y [->|Hy]%elem_of_cons Hsl; [lia|auto].
      * specialize (I2 _ eq_refl). split_and!; [|done|].
        -- right. destruct I1 as [[= <-]|(y & Hy & ? & ?)]; [exists r|exists y]; split_and!; try done; apply elem_of_cons; auto.
        -- intros y [->|Hy]%elem_of_cons Hsl; auto.
    + split_and!; [|done|].
      * destruct I1 as [I1|(y & Hy & ? & ?)]; [by left|]. right. exists y. split_and!; try done. apply elem_of_cons; auto.
      * intros y [->|Hy]%elem_of_cons Hsl; [congruence|auto].
  - destruct IH as [I1 I2]. subst e'. destruct (is_sleeping c (h r)) eqn:Es; cbn [andb] in I1.
    + by destruct e as [x|]; [destruct (sleep_until_ (h r) <? x)|].
    + split; [done|]. intros y [->|Hy]%elem_of_cons; auto.
Qed.

(** A cpu with nothing to run sleeps until the earliest time a queued thread
    asked for, and without limit exactly when none of them is asleep. *)
Theorem next_wake_earliest s :
  match next_wake (clk s) (threads s) (ready_queue_ s) None with
  | None => forall r, r ∈ ready_queue_ s -> is_sleeping (clk s) (threads s r) = false
  | Some w => (exists r, r ∈ ready_queue_ s /\ is_sleeping (clk s) (threads s r) = true /\ sleep_until_ (threads s r) = w) /\
      forall r, r ∈ ready_queue_ s -> is_sleeping (clk s) (threads s r) = true -> w <= sleep_until_ (threads s r)
  end.
Proof using Type.
  pose proof (next_wake_spec (clk s) (threads s) (ready_queue_ s) None ltac:(done)) as H.
  destruct (next_wake _ _ _ _) as [w|]; [|apply H]. destruct H as ([|H1] & _ & H2); done.
Qed.

End Claims.
