(* ===== verification/SyncOps.v ===== *)
(** * Events, mutexes, semaphores and waits

    The entry points of modules/nt_sync_ops.cpp and modules/nt_wait_ops.cpp, on
    the objects and threads of [Thread].  [None] as an object or a mutex is the
    null pointer the entry points refuse.  Fields the initialisers clear and no
    entry point reads (the wait list heads, the mutant's list entry and flags) are
    left out. *)

From stdpp Require Import list.
From S2P Require Import Prelude Mmu Thread.
From stdpp Require Import options.

Open Scope Z_scope.
Open Scope kern_scope.

Definition kevent_size : Z := 6.
Definition kmutant_size : Z := 14.
Definition ksemaphore_size : Z := 8.

(** _FAST_MUTEX; its event is an object of its own at [event_of]. *)
Record fast_mutex : Type := FastMutex { fm_count : Z; fm_owner : Z; contention : Z; old_irql : Z }.
Definition event_of (mutex : Z) : Z := mutex + 0x18.

Definition fm_lock_bit : Z := 1.
Definition fm_waiter_increment : Z := 4.
Definition apc_level : Z := 1.

(** Memory, the threads of the process in the order of their ids, the fast
    mutexes, the level of the calling cpu, and whether it was told to yield. *)
Record ksys : Type := KSys {
  mem : space; ts : list thread; fms : Z -> fast_mutex; irql : Z; yielded : bool
}.

Definition set_mem m k := KSys m (ts k) (fms k) (irql k) (yielded k).
Definition set_ts l k := KSys (mem k) l (fms k) (irql k) (yielded k).
Definition set_irql n k := KSys (mem k) (ts k) (fms k) n (yielded k).
Definition yield_current k := KSys (mem k) (ts k) (fms k) (irql k) true.
Definition set_fm (x : Z) (f : fast_mutex) (k : ksys) : ksys :=
  KSys (mem k) (ts k) (fun y => if y =? x then f else fms k y) (irql k) (yielded k).

Definition wake (object : Z) (k : ksys) : ksys :=
  let '(_, l, m) := wake_waiters object (ts k) (mem k) in set_ts l (set_mem m k).

(** ** Events *)

Definition KeInitializeEvent (event : option Z) (type state : Z) (k : ksys) : ksys :=
  match event with
  | None => k
  | Some e => set_mem (init_dispatcher e (if type =? 0 then event_notification_object else event_synchronization_object)
                kevent_size (if state =? 0 then 0 else 1) (mem k)) k
  end.

Definition KeSetEvent (event : option Z) (k : ksys) : Z * ksys :=
  match event with
  | None => (0, k)
  | Some e => (state_at (mem k) e, wake e (set_mem (set_state_at e 1 (mem k)) k))
  end.

Definition KeResetEvent (event : option Z) (k : ksys) : Z * ksys :=
  match event with
  | None => (0, k)
  | Some e => (state_at (mem k) e, set_mem (set_state_at e 0 (mem k)) k)
  end.

(** ** Mutexes *)

Definition KeInitializeMutex (mutex : option Z) (k : ksys) : ksys :=
  match mutex with
  | None => k
  | Some x =>
      let m := init_dispatcher x mutant_object kmutant_size 1 (mem k) in
      set_mem (set_object x (set_owner 0 (m x)) m) k
  end.

Definition KeReleaseMutex (mutex : option Z) (k : ksys) : Z * ksys :=
  match mutex with
  | None => (0, k)
  | Some x =>
      let previous := state_at (mem k) x in
      let m := set_state_at x (previous + 1) (mem k) in
      (previous, wake x (set_mem (set_object x (set_owner 0 (m x)) m) k))
  end.

(** ** Semaphores *)

Definition set_limit (n : Z) (o : kobject) : kobject := KObject (k_type o) (k_size o) (k_state o) (k_owner o) n.

Definition KeInitializeSemaphore (semaphore : option Z) (count limit : Z) (k : ksys) : ksys :=
  match semaphore with
  | None => k
  | Some x =>
      let m := init_dispatcher x semaphore_object ksemaphore_size count (mem k) in
      set_mem (set_object x (set_limit limit (m x)) m) k
  end.

Definition KeReleaseSemaphore (semaphore : option Z) (adjustment : Z) (k : ksys) : Z * ksys :=
  match semaphore with
  | None => (0, k)
  | Some x =>
      let previous := state_at (mem k) x in
      if k_limit (mem k x) <? s32 (previous + adjustment) then (previous, k) else
      (previous, wake x (set_mem (set_state_at x (previous + adjustment) (mem k)) k))
  end.

Definition KeReadStateMutant (object : option Z) (k : ksys) : Z :=
  match object with None => 0 | Some x => state_at (mem k) x end.

(** ** Waits *)

Definition STATUS_SUCCESS : Z := 0.
Definition STATUS_INVALID_PARAMETER : Z := 0xC000000D.
Definition STATUS_INVALID_HANDLE : Z := 0xC0000008.
Definition maximum_wait_objects : Z := 64.

Definition make_wait (c : clock) (objects : list Z) (wait_type : Z) (timeout : option Z) : wait_state :=
  let '(when, is_timed) := read_timeout (guest_now c) timeout in
  WaitState objects (wait_type =? 0) when is_timed false 0.

(** [begin_wait], then [try_satisfy]: by the running thread, the [i]-th. *)
Definition park (c : clock) (i : nat) (w : wait_state) (k : ksys) : ksys :=
  match ts k !! i with
  | None => k
  | Some t =>
      let '(_, t, m) := try_satisfy (mem k) (begin_wait c w t) in
      set_ts (<[i := t]> (ts k)) (set_mem m k)
  end.

Definition begin_wait_op (c : clock) (cur : option nat) (objects : list Z) (wait_type : Z) (timeout : option Z)
    (k : ksys) : Z * ksys :=
  match cur with
  | None => (STATUS_INVALID_PARAMETER, k)
  | Some i => (STATUS_SUCCESS, yield_current (park c i (make_wait c objects wait_type timeout) k))
  end.

Definition KeWaitForSingleObject (c : clock) (cur : option nat) (object : Z) (timeout : option Z) (k : ksys) : Z * ksys :=
  if object =? 0 then (STATUS_INVALID_PARAMETER, k) else begin_wait_op c cur [object] 1 timeout k.

(** The array is read from memory, which has [count] entries there. *)
Definition KeWaitForMultipleObjects (c : clock) (cur : option nat) (count array : Z) (read : Z -> Z) (wait_type : Z)
    (timeout : option Z) (k : ksys) : Z * ksys :=
  if (count =? 0) || (maximum_wait_objects <? count) || (array =? 0) then (STATUS_INVALID_PARAMETER, k) else
  begin_wait_op c cur (map (fun i => read (array +w Z.of_nat i * 8)) (seq 0 (Z.to_nat count))) wait_type timeout k.

(** Through handles: [object_of] is the handle table's answer, 0 for a handle that is not open. *)
Definition NtWaitForSingleObject (object_of : Z -> Z) (c : clock) (cur : option nat) (handle : Z) (timeout : option Z)
    (k : ksys) : Z * ksys :=
  if object_of handle =? 0 then (STATUS_INVALID_HANDLE, k) else begin_wait_op c cur [object_of handle] 1 timeout k.

Definition NtWaitForMultipleObjects (object_of : Z -> Z) (c : clock) (cur : option nat) (count array : Z)
    (read : Z -> Z) (wait_type : Z) (timeout : option Z) (k : ksys) : Z * ksys :=
  if (count =? 0) || (maximum_wait_objects <? count) || (array =? 0) then (STATUS_INVALID_PARAMETER, k) else
  let objects := map (fun i => object_of (read (array +w Z.of_nat i * 8))) (seq 0 (Z.to_nat count)) in
  if existsb (fun o => o =? 0) objects then (STATUS_INVALID_HANDLE, k) else
  begin_wait_op c cur objects wait_type timeout k.

Definition NtSignalAndWaitForSingleObject (object_of : Z -> Z) (c : clock) (cur : option nat)
    (signal_handle wait_handle : Z) (timeout : option Z) (k : ksys) : Z * ksys :=
  let signal := object_of signal_handle in
  let object := object_of wait_handle in
  if (signal =? 0) || (object =? 0) then (STATUS_INVALID_HANDLE, k) else
  let m := mem k in
  let type := type_at m signal in
  let m :=
    if type =? semaphore_object then set_state_at signal (state_at m signal + 1) m
    else if type =? mutant_object then
      let m := set_state_at signal (state_at m signal + 1) m in set_object signal (set_owner 0 (m signal)) m
    else set_state_at signal 1 m in
  begin_wait_op c cur [object] 1 timeout (wake signal (set_mem m k)).

(** ** Fast mutexes *)

Definition KeInitializeGuardedMutex (mutex : option Z) (k : ksys) : ksys :=
  match mutex with
  | None => k
  | Some x =>
      let k := set_fm x (FastMutex fm_lock_bit 0 0 (old_irql (fms k x))) k in
      set_mem (init_dispatcher (event_of x) event_synchronization_object kevent_size 0 (mem k)) k
  end.

(** True when the caller holds the mutex on return, false when it was queued. *)
Definition take_mutex (c : clock) (cur : option nat) (x : Z) (k : ksys) : bool * ksys :=
  let f := fms k x in
  let count := fm_count f in
  if negb (Z.land count fm_lock_bit =? 0)
  then (true, set_fm x (FastMutex (Z.land count (Z.lnot fm_lock_bit)) (fm_owner f) (contention f) (old_irql f)) k)
  else if k_size (mem k (event_of x)) =? 0
  then (true, set_fm x (FastMutex 0 (fm_owner f) 0 (old_irql f))
          (set_mem (init_dispatcher (event_of x) event_synchronization_object kevent_size 0 (mem k)) k))
  else
    let f := FastMutex count (fm_owner f) (u32 (contention f + 1)) (old_irql f) in
    match cur with
    | None => (true, set_fm x f k)
    | Some i =>
        let f := FastMutex (s32 (count + fm_waiter_increment)) (fm_owner f) (contention f) (old_irql f) in
        let w := WaitState [event_of x] false 0 false false 0 in
        (false, yield_current (park c i w (set_fm x f k)))
    end.

Definition own_mutex (cur : option nat) (x : Z) (k : ksys) : ksys :=
  let owner := match cur with
    | Some i => match ts k !! i with Some t => ethread_ t | None => 0 end
    | None => 0
    end in
  let f := fms k x in
  set_fm x (FastMutex (fm_count f) owner (contention f) (old_irql f)) k.

(** The event that needs waking, if a waiter is handed the mutex. *)
Definition give_mutex (x : Z) (k : ksys) : option Z * ksys :=
  let f := fms k x in
  let count := fm_count f in
  let k := set_fm x (FastMutex count 0 (contention f) (old_irql f)) k in
  if negb (Z.land count fm_lock_bit =? 0) then (None, k)
  else if fm_waiter_increment <=? count then
    (Some (event_of x),
     set_mem (set_state_at (event_of x) 1 (mem k))
       (set_fm x (FastMutex (s32 (count - fm_waiter_increment)) 0 (contention f) (old_irql f)) k))
  else (None, set_fm x (FastMutex (Z.lor count fm_lock_bit) 0 (contention f) (old_irql f)) k).

Definition set_old_irql (x n : Z) (k : ksys) : ksys :=
  let f := fms k x in set_fm x (FastMutex (fm_count f) (fm_owner f) (contention f) n) k.

Definition ExAcquireFastMutex (c : clock) (cur : option nat) (mutex : option Z) (k : ksys) : ksys :=
  match mutex with
  | None => k
  | Some x =>
      let old := irql k in
      let '(_, k) := take_mutex c cur x (set_irql apc_level k) in
      set_old_irql x old (own_mutex cur x k)
  end.

Definition ExReleaseFastMutex (mutex : option Z) (k : ksys) : ksys :=
  match mutex with
  | None => k
  | Some x =>
      let old := old_irql (fms k x) in
      let '(event, k) := give_mutex x k in
      let k := match event with Some e => wake e k | None => k end in
      set_irql old k
  end.

Definition ExTryToAcquireFastMutex (cur : option nat) (mutex : option Z) (k : ksys) : bool * ksys :=
  match mutex with
  | None => (false, k)
  | Some x =>
      let old := irql k in
      let f := fms k x in
      if Z.land (fm_count f) fm_lock_bit =? 0 then (false, set_irql old (set_irql apc_level k)) else
      let k := set_fm x (FastMutex (Z.land (fm_count f) (Z.lnot fm_lock_bit)) (fm_owner f) (contention f) (old_irql f))
                 (set_irql apc_level k) in
      (true, set_old_irql x old (own_mutex cur x k))
  end.

Definition ExAcquireFastMutexUnsafe (c : clock) (cur : option nat) (mutex : option Z) (k : ksys) : ksys :=
  match mutex with
  | None => k
  | Some x => let '(_, k) := take_mutex c cur x k in own_mutex cur x k
  end.

Definition ExReleaseFastMutexUnsafe (mutex : option Z) (k : ksys) : ksys :=
  match mutex with
  | None => k
  | Some x => let '(event, k) := give_mutex x k in match event with Some e => wake e k | None => k end
  end.

(** ** Critical and guarded regions *)

(** [KernelApcDisable] and [SpecialApcDisable] of the running thread, 16 bits
    wide: the count after the change, and what is kept of it. *)
Definition apc_disable (delta : Z) (count : option Z) : Z * option Z :=
  match count with
  | None => (0, None)
  | Some count => (s32 (count + delta), Some (s16 (count + delta)))
  end.
