(* ===== verification/SyncThm.v ===== *)
(** * Events, mutexes and semaphores: the theorems *)

From stdpp Require Import list.
From S2P Require Import Prelude Mmu Thread ThreadThm SyncOps.
From stdpp Require Import options.

Open Scope Z_scope.
Open Scope kern_scope.

(** ** Releasing waiters *)

(** A wait on this object alone, not over yet. *)
Definition blocked_on (o : Z) (t : thread) : bool :=
  match wait_ t with
  | Some w => negb (satisfied w) && bool_decide (objects w = [o]) && negb (all w)
  | None => false
  end.

Definition satisfied_thread (t : thread) : thread :=
  match wait_ t with Some w => set_wait (Some (satisfy w 0)) t | None => t end.

(** The first [n] threads blocked on [o] are released. *)
Fixpoint release_first (n : nat) (o : Z) (ts : list thread) : list thread :=
  match ts with
  | [] => []
  | t :: ts =>
      if blocked_on o t then
        match n with
        | S n => satisfied_thread t :: release_first n o ts
        | O => t :: release_first 0 o ts
        end
      else t :: release_first n o ts
  end.

Definition blocked (o : Z) (ts : list thread) : nat := length (filter (fun t => blocked_on o t = true) ts).

(** How many threads an object lets through. *)
Definition credit (m : space) (o : Z) : nat :=
  if type_at m o =? semaphore_object then Z.to_nat (state_at m o)
  else if 0 <? state_at m o then 1%nat else 0%nat.

Definition consumed (m : space) (o : Z) : Prop :=
  (type_at m o = semaphore_object \/ type_at m o = event_synchronization_object) /\ 0 <= state_at m o < 2 ^ 31.

(** Threads waiting on [o] wait on it alone. *)
Definition only_waits (o : Z) (ts : list thread) : Prop :=
  forall t w, t ∈ ts -> wait_ t = Some w -> o ∈ objects w -> objects w = [o] /\ all w = false.

Lemma release_first_0 o ts : release_first 0 o ts = ts.
Proof. induction ts as [|t ts IH]; [done|]. cbn. by destruct (blocked_on o t); rewrite IH. Qed.

Lemma credit_signalled m o w : consumed m o -> is_signalled m o w = negb (credit m o =? 0)%nat.
Proof.
  intros [[Ht|Ht] Hs]; unfold is_signalled, credit; rewrite Ht, andb_false_r; cbn.
  - destruct (Z.ltb_spec 0 (state_at m o)), (Nat.eqb_spec (Z.to_nat (state_at m o)) 0); try done; lia.
  - by destruct (0 <? state_at m o).
Qed.

Lemma credit_take m o w :
  consumed m o -> credit m o <> 0%nat ->
  consumed (take o w m) o /\ credit (take o w m) o = (credit m o - 1)%nat.
Proof.
  intros [Hty Hs] Hc. destruct (take_state o w m ltac:(lia)) as (T & _ & _ & _ & Ev & Se).
  unfold consumed, credit in *. rewrite T. destruct Hty as [Ht|Ht]; rewrite Ht in *; cbn in *.
  - rewrite (Se eq_refl). split; [split; [by left|lia]|lia].
  - rewrite (Ev eq_refl). split; [split; [by right|lia]|]. cbn. by destruct (0 <? state_at m o).
Qed.

Lemma only_waits_tail o t ts : only_waits o (t :: ts) -> only_waits o ts.
Proof. intros H t' w Ht. apply H. apply elem_of_cons. by right. Qed.

(** What asking one thread does. *)
Lemma try_one o t m :
  consumed m o -> (forall w, wait_ t = Some w -> o ∈ objects w -> objects w = [o] /\ all w = false) ->
  (if waiting_on t o then try_satisfy m t else (false, t, m)) =
  (if blocked_on o t && negb (credit m o =? 0)%nat then (true, satisfied_thread t, take o (ethread_ t) m) else (false, t, m)).
Proof.
  intros Hc Hw. unfold waiting_on, blocked_on, try_satisfy, satisfied_thread. destruct (wait_ t) as [w|]; [|done].
  destruct (bool_decide (o ∈ objects w)) eqn:Eb.
  - apply bool_decide_eq_true in Eb. destruct (Hw w eq_refl Eb) as [Ho Ha]. rewrite Ho, Ha.
    rewrite bool_decide_true by done. destruct (satisfied w); [done|]. cbn [negb andb first_signalled].
    rewrite (credit_signalled m o _ Hc). by destruct (credit m o =? 0)%nat.
  - apply bool_decide_eq_false in Eb. rewrite (bool_decide_false (objects w = [o])).
    + by rewrite andb_false_r.
    + intros Ho. rewrite Ho in Eb. apply Eb. by apply list_elem_of_singleton.
Qed.

Lemma wake_credit o ts m b ts' m' :
  wake_each o ts m = (b, ts', m') -> consumed m o -> only_waits o ts ->
  ts' = release_first (credit m o) o ts /\ credit m' o = (credit m o - blocked o ts)%nat /\
  consumed m' o /\ (forall x, x <> o -> m' x = m x) /\ type_at m' o = type_at m o /\
  (credit m o = 0%nat -> m' = m).
Proof.
  revert m b ts' m'. induction ts as [|t ts IH]; intros m b ts' m'; cbn [wake_each].
  { intros [= <- <- <-] Hc _. split_and!; try done. cbn. lia. }
  intros E Hc Hw. rewrite (try_one o t m Hc) in E by (intros w; apply Hw, elem_of_cons; by left).
  unfold blocked. rewrite filter_cons. cbn [release_first].
  destruct (blocked_on o t) eqn:Eb; cbn [andb] in E.
  - rewrite decide_True by done. destruct (credit m o) as [|n] eqn:Ec; cbn [Nat.eqb negb] in E.
    + destruct (wake_each o ts m) as [[b2 ts2] m2] eqn:E2. injection E as <- <- <-.
      destruct (IH _ _ _ _ E2 Hc (only_waits_tail _ _ _ Hw)) as (I1 & I2 & I3 & I4 & I5 & I6). rewrite Ec in *.
      split_and!; first [done|by rewrite I1|cbn; lia].
    + destruct (wake_each o ts (take o (ethread_ t) m)) as [[b2 ts2] m2] eqn:E2. injection E as <- <- <-.
      destruct (credit_take m o (ethread_ t) Hc ltac:(lia)) as [C1 C2].
      destruct (IH _ _ _ _ E2 C1 (only_waits_tail _ _ _ Hw)) as (I1 & I2 & I3 & I4 & I5 & I6). rewrite C2, Ec in *.
      destruct Hc as [_ Hs]. destruct (take_state o (ethread_ t) m ltac:(lia)) as (T & _).
      replace (S n - 1)%nat with n in * by lia. unfold blocked in I2.
      split_and!; first [done|by rewrite I1|cbn [length]; lia|by rewrite I5|idtac].
      intros x Hx. rewrite I4 by done. by apply take_other.
  - rewrite decide_False by congruence.
    destruct (wake_each o ts m) as [[b2 ts2] m2] eqn:E2. injection E as <- <- <-.
    destruct (IH _ _ _ _ E2 Hc (only_waits_tail _ _ _ Hw)) as (I1 & I2 & I3 & I4 & I5 & I6). split_and!; first [done|by rewrite I1].
Qed.

Lemma set_state_at_same x n m : - 2 ^ 31 <= n < 2 ^ 31 -> state_at (set_state_at x n m) x = n /\ type_at (set_state_at x n m) x = type_at m x.
Proof.
  intros Hn. unfold state_at, type_at, set_state_at, set_object. rewrite Z.eqb_refl. cbn. by rewrite s32_small.
Qed.

Lemma set_state_at_other x n m y : y <> x -> set_state_at x n m y = m y.
Proof. intros Hy. unfold set_state_at, set_object. by rewrite (proj2 (Z.eqb_neq y x)). Qed.

(** [KeReleaseSemaphore] within the limit releases exactly the first threads
    blocked on the semaphore, in the order of their ids, as many as the count now
    allows, and the count is what is left; past the limit it changes nothing.
    The old count is returned either way. *)
Theorem release_semaphore_correct x adj k :
  type_at (mem k) x = semaphore_object -> 0 <= state_at (mem k) x -> 0 <= adj -> state_at (mem k) x + adj < 2 ^ 31 ->
  only_waits x (ts k) ->
  let '(prev, k') := KeReleaseSemaphore (Some x) adj k in
  let count := state_at (mem k) x + adj in
  prev = state_at (mem k) x /\
  (k_limit (mem k x) < count -> k' = k) /\
  (count <= k_limit (mem k x) ->
     ts k' = release_first (Z.to_nat count) x (ts k) /\
     state_at (mem k') x = Z.max 0 (count - Z.of_nat (blocked x (ts k))) /\
     forall y, y <> x -> mem k' y = mem k y).
Proof.
  intros Ht H0 Ha Hm Hw. cbn [KeReleaseSemaphore]. rewrite s32_small by lia.
  destruct (Z.ltb_spec (k_limit (mem k x)) (state_at (mem k) x + adj)) as [Hlt|Hge].
  { split_and!; [done|done|]. intros. lia. }
  unfold wake, wake_waiters. cbn [ts mem set_mem]. destruct (set_state_at_same x (state_at (mem k) x + adj) (mem k) ltac:(lia)) as [S1 S2].
  set (m1 := set_state_at x _ _) in *.
  destruct (wake_each x (ts k) m1) as [[b l] m2] eqn:E.
  assert (consumed m1 x) as Hc by (split; [left; congruence|lia]).
  destruct (wake_credit _ _ _ _ _ _ E Hc Hw) as (I1 & I2 & [_ I3] & I4 & I5 & _).
  assert (credit m1 x = Z.to_nat (state_at (mem k) x + adj)) as Ec.
  { unfold credit. by rewrite S2, Ht, S1. }
  cbn [ts mem set_ts set_mem]. split_and!; [done|intros; lia|]. intros _. split_and!.
  - by rewrite I1, Ec.
  - unfold credit in I2 at 1. rewrite I5, S2, Ht in I2. cbn in I2. rewrite Ec in I2. lia.
  - intros y Hy. rewrite I4 by done. by apply set_state_at_other.
Qed.

(** [KeSetEvent] on a synchronization event with no signal pending releases
    exactly the first thread blocked on it and takes the signal back, or, with
    nobody blocked, leaves the event signalled. *)
Theorem set_event_correct e k :
  type_at (mem k) e = event_synchronization_object -> only_waits e (ts k) ->
  let '(prev, k') := KeSetEvent (Some e) k in
  prev = state_at (mem k) e /\ ts k' = release_first 1 e (ts k) /\
  state_at (mem k') e = (if (blocked e (ts k) =? 0)%nat then 1 else 0) /\
  forall y, y <> e -> mem k' y = mem k y.
Proof.
  intros Ht Hw. cbn [KeSetEvent]. unfold wake, wake_waiters. cbn [ts mem set_mem].
  destruct (set_state_at_same e 1 (mem k) ltac:(lia)) as [S1 S2]. set (m1 := set_state_at e _ _) in *.
  destruct (wake_each e (ts k) m1) as [[b l] m2] eqn:E.
  assert (consumed m1 e) as Hc by (split; [right; congruence|lia]).
  assert (credit m1 e = 1%nat) as Ec by (unfold credit; rewrite S2, Ht, S1; done).
  destruct (wake_credit _ _ _ _ _ _ E Hc Hw) as (I1 & I2 & [_ I3] & I4 & I5 & I6). rewrite Ec in *. cbn [ts mem set_ts set_mem].
  split_and!; [done|done| |].
  - unfold credit in I2. rewrite I5, S2, Ht in I2. cbn in I2.
    destruct (Nat.eqb_spec (blocked e (ts k)) 0) as [Eb|Eb]; destruct (Z.ltb_spec 0 (state_at m2 e)); try lia.
    (* nobody blocked: nothing was taken *)
    assert (forall l0 m0 b0 l1 m1', blocked e l0 = 0%nat -> consumed m0 e -> only_waits e l0 -> wake_each e l0 m0 = (b0, l1, m1') -> m1' = m0) as Hnone.
    { clear. induction l0 as [|t l0 IH]; intros m0 b0 l1 m1' Hb Hc Hw; cbn [wake_each]; [by intros [= _ _ <-]|].
      rewrite (try_one e t m0 Hc) by (intros w; apply Hw, elem_of_cons; by left).
      unfold blocked in Hb. rewrite filter_cons in Hb. case_decide as Ed; [done|].
      rewrite (not_true_is_false _ Ed). cbn [andb]. destruct (wake_each e l0 m0) as [[b2 l2] m2] eqn:E2.
      intros [= _ _ <-]. by eapply IH; [| |eapply only_waits_tail|]. }
    rewrite (Hnone _ _ _ _ _ Eb Hc Hw E). done.
  - intros y Hy. rewrite I4 by done. by apply set_state_at_other.
Qed.

(** ** Fast mutexes *)

(** The count of a fast mutex: free, or four for each thread blocked on its
    event, which has no signal pending. *)
Record fm_ok (x : Z) (k : ksys) : Prop := {
  fo_event : type_at (mem k) (event_of x) = event_synchronization_object;
  fo_size : k_size (mem k (event_of x)) <> 0;
  fo_state : state_at (mem k) (event_of x) = 0;
  fo_waits : only_waits (event_of x) (ts k);
  fo_bound : 4 * Z.of_nat (blocked (event_of x) (ts k)) < 2 ^ 31 - 4;
  fo_count : (fm_count (fms k x) = 1 /\ blocked (event_of x) (ts k) = 0%nat) \/
    fm_count (fms k x) = 4 * Z.of_nat (blocked (event_of x) (ts k))
}.

Definition fm_free (x : Z) (k : ksys) : bool := fm_count (fms k x) =? 1.

Lemma blocked_insert o ts i t t' :
  ts !! i = Some t -> blocked_on o t = false -> blocked_on o t' = true ->
  blocked o (<[i := t']> ts) = S (blocked o ts).
Proof.
  unfold blocked. revert i. induction ts as [|t0 ts IH]; intros [|i] Hi H1 H2; cbn in Hi; try done.
  - injection Hi as ->. cbn [insert list_insert]. rewrite !filter_cons, decide_True, decide_False by congruence. done.
  - change (<[S i := t']> (t0 :: ts)) with (t0 :: <[i := t']> ts). rewrite !filter_cons.
    case_decide; cbn [length]; by rewrite (IH i Hi).
Qed.

Lemma release_first_elem n o ts t' : t' ∈ release_first n o ts -> exists t, t ∈ ts /\ (t' = t \/ t' = satisfied_thread t).
Proof.
  revert n. induction ts as [|t ts IH]; intros n; cbn; [by intros H%elem_of_nil|].
  assert (forall n', t' ∈ release_first n' o ts -> exists t0, t0 ∈ t :: ts /\ (t' = t0 \/ t' = satisfied_thread t0)) as Hrec.
  { intros n' (t0 & H0 & H1)%IH. exists t0. split; [apply elem_of_cons; by right|done]. }
  assert (t ∈ t :: ts) as Ht by (apply elem_of_cons; by left).
  destruct (blocked_on o t); [destruct n as [|n]|]; intros [->|H]%elem_of_cons; eauto.
Qed.

Lemma release_first_waits n o o' ts : only_waits o' ts -> only_waits o' (release_first n o ts).
Proof.
  intros Hw t' w' Ht' Ew Ho. destruct (release_first_elem _ _ _ _ Ht') as (t & Ht & [-> | ->]); [by eapply Hw|].
  unfold satisfied_thread in Ew. destruct (wait_ t) as [w|] eqn:E; [|by eapply Hw]. cbn in Ew. injection Ew as <-. cbn in *.
  by eapply Hw.
Qed.

Lemma satisfied_not_blocked o t : blocked_on o t = true -> blocked_on o (satisfied_thread t) = false.
Proof. unfold blocked_on, satisfied_thread. destruct (wait_ t) as [w|]; [|done]. done. Qed.

Lemma blocked_release n o ts : blocked o (release_first n o ts) = (blocked o ts - n)%nat.
Proof.
  unfold blocked. revert n. induction ts as [|t ts IH]; intros n; [done|]. cbn [release_first].
  rewrite filter_cons. destruct (blocked_on o t) eqn:E.
  - rewrite decide_True by done. destruct n as [|n]; rewrite filter_cons.
    + rewrite decide_True by done. cbn [length]. rewrite IH. lia.
    + rewrite decide_False by (rewrite satisfied_not_blocked; done). rewrite IH. cbn [length]. lia.
  - rewrite decide_False by congruence. rewrite filter_cons, decide_False by congruence. apply IH.
Qed.

Lemma blocked_none_release n o ts : blocked o ts = 0%nat -> release_first n o ts = ts.
Proof.
  unfold blocked. induction ts as [|t ts IH]; [done|]. rewrite filter_cons. case_decide as E; [done|]. intros H. cbn.
  destruct (blocked_on o t); [done|]. by rewrite IH.
Qed.

Lemma land_even n : 0 <= n -> Z.land (4 * n) 1 = 0.
Proof.
  intros Hn. change 1 with (Z.ones 1). rewrite Z.land_ones by lia. replace (4 * n) with ((2 * n) * 2) by lia. apply Z.mod_mul. lia.
Qed.

Lemma fms_set_fm x f k : fms (set_fm x f k) x = f.
Proof. cbn. by rewrite Z.eqb_refl. Qed.

Lemma set_fm_set_fm x f g k y : fms (set_fm x f (set_fm x g k)) y = fms (set_fm x f k) y.
Proof. cbn. by destruct (y =? x). Qed.

(** Acquiring a fast mutex whose state is good. *)
Lemma take_mutex_spec c i t x k :
  fm_ok x k -> ts k !! i = Some t -> wait_ t = None ->
  4 * Z.of_nat (S (blocked (event_of x) (ts k))) < 2 ^ 31 - 4 ->
  let '(owned, k') := take_mutex c (Some i) x k in
  fm_ok x k' /\ owned = fm_free x k /\ fm_free x k' = false /\
  (if owned then ts k' = ts k
   else exists t', ts k' = <[i := t']> (ts k) /\ blocked_on (event_of x) t' = true).
Proof.
  intros [O1 O2 O3 O4 O5 O6] Hi Ht Hb. unfold take_mutex, fm_free.
  destruct O6 as [[Ec En]|Ec].
  - rewrite Ec. cbn [Z.land fm_lock_bit Z.eqb negb]. change (negb (Z.land 1 fm_lock_bit =? 0)) with true. cbn beta iota.
    split_and!; try done.
    + split; try done. right. rewrite fms_set_fm. cbn [fm_count ts set_fm]. by rewrite En.
    + by rewrite fms_set_fm.
  - assert ((fm_count (fms k x) =? 1) = false) as Hf by (apply Z.eqb_neq; lia). rewrite Hf.
    unfold fm_lock_bit. rewrite Ec, land_even by lia. cbn [Z.eqb negb].
    rewrite (proj2 (Z.eqb_neq _ _) O2). unfold park. cbn [ts set_fm]. rewrite Hi.
    set (w := WaitState [event_of x] false 0 false false 0).
    assert (begin_wait c w t = set_wait (Some w) t) as Eb by done. rewrite Eb.
    assert (try_satisfy (mem k) (set_wait (Some w) t) = (false, set_wait (Some w) t, mem k)) as Es.
    { unfold try_satisfy. cbn [wait_ set_wait satisfied all w objects first_signalled]. unfold is_signalled.
      rewrite O3, O1. done. }
    cbn [mem set_fm]. rewrite Es.
    assert (blocked_on (event_of x) (set_wait (Some w) t) = true) as Hbl.
    { unfold blocked_on. cbn [wait_ set_wait satisfied all objects w negb andb]. by rewrite bool_decide_true. }
    assert (blocked (event_of x) (<[i := set_wait (Some w) t]> (ts k)) = S (blocked (event_of x) (ts k))) as Hn.
    { apply (blocked_insert _ _ _ t); [done|unfold blocked_on; by rewrite Ht|done]. }
    rewrite s32_small by (unfold fm_waiter_increment; lia).
    cbn [yield_current set_ts set_mem mem ts fms set_fm]. split_and!; try done.
    + split; cbn [yield_current set_ts set_mem mem ts fms set_fm]; try done.
      * intros t1 w1 H1 E1 Ho. apply list_elem_of_lookup in H1 as [j Hj].
        rewrite list_lookup_insert in Hj. case_decide as Hd.
        -- injection Hj as <-. cbn in E1. injection E1 as <-. done.
        -- apply (O4 t1 w1); [by eapply list_elem_of_lookup_2|done|done].
      * rewrite Hn. lia.
      * right. rewrite Z.eqb_refl. cbn [fm_count]. rewrite Hn. unfold fm_waiter_increment. lia.
    + rewrite Z.eqb_refl. cbn [fm_count]. apply Z.eqb_neq. unfold fm_waiter_increment. lia.
    + eauto.
Qed.

(** Taking keeps the sizes. *)
Lemma take_size o w m x : k_size (take o w m x) = k_size (m x).
Proof.
  unfold take, set_state_at, set_object. repeat case_match; try done; destruct (Z.eqb_spec x o) as [->|]; cbn; rewrite ?Z.eqb_refl; done.
Qed.
Lemma take_all_size w os m x : k_size (take_all w os m x) = k_size (m x).
Proof. revert m. induction os as [|o os IH]; intros m; cbn; [done|]. by rewrite IH, take_size. Qed.

Lemma wake_size o ts m b ts' m' x : wake_each o ts m = (b, ts', m') -> k_size (m' x) = k_size (m x).
Proof.
  revert m b ts' m'. induction ts as [|t ts IH]; intros m b ts' m'; cbn [wake_each]; [by intros [= _ _ <-]|].
  destruct (if waiting_on t o then _ else _) as [[b1 t1] m1] eqn:E1.
  destruct (wake_each o ts m1) as [[b2 ts2] m2] eqn:E2. intros [= _ _ <-]. rewrite (IH _ _ _ _ E2).
  destruct (waiting_on t o); [|by injection E1 as _ _ <-]. unfold try_satisfy in E1.
  repeat case_match; simplify_eq; try done; [apply take_all_size|apply take_size].
Qed.

(** Giving it back. *)
Lemma release_spec x k :
  fm_ok x k -> fm_free x k = false ->
  let k' := ExReleaseFastMutexUnsafe (Some x) k in
  fm_ok x k' /\ ts k' = release_first 1 (event_of x) (ts k) /\
  fm_free x k' = (blocked (event_of x) (ts k) =? 0)%nat.
Proof.
  intros [O1 O2 O3 O4 O5 O6] Hf. unfold fm_free in *. apply Z.eqb_neq in Hf.
  destruct O6 as [[Ec En]|Ec]; [done|].
  cbn zeta. unfold ExReleaseFastMutexUnsafe, give_mutex, fm_lock_bit, fm_waiter_increment. rewrite Ec, land_even by lia. cbn [Z.eqb negb].
  set (n := blocked (event_of x) (ts k)) in *.
  destruct (Z.leb_spec 4 (4 * Z.of_nat n)) as [Hle|Hgt].
  - unfold wake, wake_waiters. cbn [mem ts set_mem set_fm].
    destruct (set_state_at_same (event_of x) 1 (mem k) ltac:(lia)) as [S1 S2].
    assert (k_size (set_state_at (event_of x) 1 (mem k) (event_of x)) = k_size (mem k (event_of x))) as S3.
    { unfold set_state_at, set_object. by rewrite Z.eqb_refl. }
    set (m1 := set_state_at (event_of x) 1 (mem k)) in *.
    destruct (wake_each (event_of x) (ts k) m1) as [[b l] m2] eqn:E.
    assert (consumed m1 (event_of x)) as Hc by (split; [right; congruence|lia]).
    assert (credit m1 (event_of x) = 1%nat) as Ecr by (unfold credit; rewrite S2, O1, S1; done).
    destruct (wake_credit _ _ _ _ _ _ E Hc O4) as (I1 & I2 & [_ I3] & I4 & I5 & _). rewrite Ecr in *. fold n in I2.
    rewrite s32_small by lia. cbn [mem ts fms set_ts set_mem set_fm]. rewrite I1. split_and!.
    + split; cbn [mem ts fms set_ts set_mem set_fm].
      * by rewrite I5, S2.
      * rewrite (wake_size _ _ _ _ _ _ (event_of x) E), S3. done.
      * unfold credit in I2. rewrite I5, S2, O1 in I2. cbn in I2. destruct (Z.ltb_spec 0 (state_at m2 (event_of x))); lia.
      * by apply release_first_waits.
      * rewrite blocked_release. lia.
      * right. rewrite Z.eqb_refl. cbn [fm_count]. rewrite blocked_release. fold n. lia.
    + done.
    + rewrite Z.eqb_refl. cbn [fm_count]. rewrite (proj2 (Nat.eqb_neq n 0)) by lia. apply Z.eqb_neq. lia.
  - assert (n = 0%nat) as En by lia. rewrite En. change (Z.lor (4 * Z.of_nat 0) 1) with 1.
    cbn [mem ts fms set_fm]. rewrite (blocked_none_release 1 (event_of x) (ts k) En). split_and!.
    + split; cbn [mem ts fms set_fm]; try done. left. rewrite Z.eqb_refl. done.
    + done.
    + by rewrite Z.eqb_refl.
Qed.

Lemma fm_ok_same x k k' :
  fm_ok x k -> mem k' = mem k -> ts k' = ts k -> fm_count (fms k' x) = fm_count (fms k x) -> fm_ok x k'.
Proof. intros [? ? ? ? ? ?] Em Et Ec. split; rewrite ?Em, ?Et, ?Ec; done. Qed.

Lemma unsafe_release x k :
  ExReleaseFastMutex (Some x) k = set_irql (old_irql (fms k x)) (ExReleaseFastMutexUnsafe (Some x) k).
Proof. unfold ExReleaseFastMutex, ExReleaseFastMutexUnsafe. by destruct (give_mutex x k) as [[e|] k']. Qed.

(** [ExAcquireFastMutex] by a running thread takes a free mutex at once and
    leaves the other threads alone, or, when it is held, queues the thread on the
    mutex's event and counts it; either way the mutex is held afterwards, the
    count tells the number of queued threads, and the cpu is at APC level, with
    the level it came from kept in the mutex. *)
Theorem fast_mutex_acquire c i t x k :
  fm_ok x k -> ts k !! i = Some t -> wait_ t = None ->
  4 * Z.of_nat (S (blocked (event_of x) (ts k))) < 2 ^ 31 - 4 ->
  let k' := ExAcquireFastMutex c (Some i) (Some x) k in
  fm_ok x k' /\ fm_free x k' = false /\ irql k' = apc_level /\ old_irql (fms k' x) = irql k /\
  (if fm_free x k then ts k' = ts k /\ fm_owner (fms k' x) = ethread_ t
   else exists t', ts k' = <[i := t']> (ts k) /\ blocked_on (event_of x) t' = true).
Proof.
  intros Hok Hi Ht Hb. cbn zeta. unfold ExAcquireFastMutex.
  assert (fm_ok x (set_irql apc_level k)) as Hok1 by (by apply (fm_ok_same x k)).
  pose proof (take_mutex_spec c i t x (set_irql apc_level k) Hok1 Hi Ht Hb) as H.
  assert (irql (take_mutex c (Some i) x (set_irql apc_level k)).2 = apc_level) as Hirql.
  { unfold take_mutex, park. cbn [ts set_fm set_irql]. rewrite Hi. repeat case_match; done. }
  destruct (take_mutex c (Some i) x (set_irql apc_level k)) as [owned k1]. cbn [snd] in Hirql.
  destruct H as (H1 & H2 & H3 & H4). change (fm_free x (set_irql apc_level k)) with (fm_free x k) in H2. subst owned.
  cbn [ts set_irql] in H4. split_and!.
  - apply (fm_ok_same x k1); try done. cbn. by rewrite !Z.eqb_refl.
  - unfold fm_free in *. cbn. by rewrite !Z.eqb_refl.
  - done.
  - cbn. by rewrite Z.eqb_refl.
  - destruct (fm_free x k); [|done]. cbn. rewrite !Z.eqb_refl. cbn. by rewrite H4, Hi.
Qed.

(** [ExReleaseFastMutex] of a held mutex hands it to exactly the first
    thread queued on it, without ever marking it free, or frees it when nobody
    is queued; the cpu is back at the level the mutex kept. *)
Theorem fast_mutex_release x k :
  fm_ok x k -> fm_free x k = false ->
  let k' := ExReleaseFastMutex (Some x) k in
  fm_ok x k' /\ ts k' = release_first 1 (event_of x) (ts k) /\
  blocked (event_of x) (ts k') = (blocked (event_of x) (ts k) - 1)%nat /\
  fm_free x k' = (blocked (event_of x) (ts k) =? 0)%nat /\ irql k' = old_irql (fms k x).
Proof.
  intros Hok Hf. cbn zeta. rewrite unsafe_release. destruct (release_spec x k Hok Hf) as (H1 & H2 & H3).
  cbn zeta in *. split_and!; [by apply (fm_ok_same x (ExReleaseFastMutexUnsafe (Some x) k))|done| |done|done].
  cbn [ts set_irql]. rewrite H2. apply blocked_release.
Qed.

(** [KeReleaseMutex] forgets the owner of a mutex that is still held: after
    one release of a mutex its thread holds twice, the mutex is signalled to
    nobody, the thread that still holds it included. *)
Theorem recursive_release_orphans x k :
  type_at (mem k) x = mutant_object -> state_at (mem k) x = -1 -> ts k = [] ->
  let '(previous, k') := KeReleaseMutex (Some x) k in
  previous = -1 /\ state_at (mem k') x = 0 /\ k_owner (mem k' x) = 0 /\
  forall w, is_signalled (mem k') x w = false.
Proof.
  intros Ht Hs Hts. cbn [KeReleaseMutex]. unfold wake, wake_waiters. cbn [ts set_mem]. rewrite Hts. cbn [wake_each].
  cbn [mem set_ts set_mem]. rewrite Hs.
  assert (forall o, set_object x o (set_state_at x (-1 + 1) (mem k)) x = o) as Ho by (intros o; unfold set_object; by rewrite Z.eqb_refl).
  assert (set_state_at x (-1 + 1) (mem k) x = set_state 0 (mem k x)) as Hx by (unfold set_state_at, set_object; by rewrite Z.eqb_refl).
  split_and!; [done|..].
  - unfold state_at. rewrite Ho, Hx. done.
  - rewrite Ho. done.
  - intros w. unfold is_signalled, state_at, type_at. rewrite Ho, Hx. cbn. unfold type_at in Ht. rewrite Ht. cbn.
    destruct (Z.eqb_spec w 0) as [->|Hw]; [done|]. cbn. by destruct w.
Qed.
