(* ===== verification/Unwind.v ===== *)
(** * Stack unwinding, x86-64

    kernel/win/unwind/x64_unwind.cpp and the parts of unwind.cpp both targets
    share: looking up a function, undoing its prologue from the unwind codes,
    walking the stack, and searching a scope table for the handler of an
    exception.  The layout of a PE image is the business of the pe library:
    [pe_x64] lists what the code asks of it. *)

From S2P Require Import Prelude Mmu.
From stdpp Require Import options.

Open Scope Z_scope.
Open Scope kern_scope.

(** ** Results

    A read of guest memory can throw; a loop over image data that does not make
    progress does not return. *)

Inductive outcome (A : Type) : Type := Done (a : A) | Faulted | Looping.
Arguments Done {A} a.
Arguments Faulted {A}.
Arguments Looping {A}.

Definition obind {A B} (m : outcome A) (k : A -> outcome B) : outcome B :=
  match m with Done a => k a | Faulted => Faulted | Looping => Looping end.
Notation "'let?' x ':=' m 'in' k" := (obind m (fun x => k))
  (at level 10, x pattern, k at level 200) : kern_scope.

(** [read_mem<addr_t>] of the address space: 8 bytes, or a throw. *)
Definition memory : Type := Z -> option Z.
Definition read_mem (mem : memory) (a : Z) : outcome Z :=
  match mem a with Some v => Done v | None => Faulted end.

(** ** Contexts *)

Record unwind_context : Type := Ctx { pc : Z; sp : Z; gp : Z -> Z; fp_regs : Z -> Z }.

Definition set_pc v c := Ctx v (sp c) (gp c) (fp_regs c).
Definition set_sp v c := Ctx (pc c) v (gp c) (fp_regs c).
Definition set_gp r v c := Ctx (pc c) (sp c) (fun x => if x =? r then v else gp c x) (fp_regs c).
Definition set_fp r v c := Ctx (pc c) (sp c) (gp c) (fun x => if x =? r then v else fp_regs c x).
Definition add_sp n c := set_sp (sp c +w n) c.

Record unwind_result : Type := UnwindResult {
  handler : Z; handler_data : Z; establisher_frame : Z; function_entry : Z
}.
Definition no_result : unwind_result := UnwindResult 0 0 0 0.

(** ** The image, as the pe library shows it *)

Inductive unwind_opcode : Type :=
  | push_nonvol | alloc_large | alloc_small | set_fpreg | save_nonvol | save_nonvol_far
  | save_xmm128 | save_xmm128_far | push_machframe | other_opcode.

Record runtime_function : Type := RuntimeFunction {
  begin_address : Z; end_address : Z; unwind_info_rva : Z
}.

(** One 16-bit slot of the unwind codes, read as a code or as an operand. *)
Record unwind_code : Type := UnwindCode {
  offset : Z; code : unwind_opcode; info : Z; frame_offset : Z
}.

Record unwind_info : Type := UnwindInfo {
  size_of_prolog : Z; unwind_code_count : Z; frame_register : Z; fp_offset : Z;
  codes : Z -> unwind_code;
  chain_info : bool; exception_handler : bool; unwind_handler : bool
}.

Record pe_x64 : Type := PeX64 {
  exception_used : bool; exception_rva : Z; exception_size : Z;
  function_at : Z -> runtime_function;      (** the exception directory, by index *)
  info_at : Z -> unwind_info;               (** unwind info, by rva *)
  code_rva : Z -> Z -> Z;                   (** the rva of a code slot of the info at an rva *)
  chained_at : Z -> runtime_function;       (** a function entry, by rva *)
  word_at : Z -> Z                          (** 32 bits, by rva *)
}.

Record proc_module : Type := ProcModule { addr : Z; size : Z; pe : option pe_x64 }.

Definition runtime_function_size : Z := 12.
Definition rsp : Z := 4.

Section X64.
(** How many slots a code occupies: [slots()] of the library. *)
Context (slots : unwind_code -> Z).

(** ** Looking up a function *)

Fixpoint lookup_loop (fuel : nat) (img : pe_x64) (rva lo hi : Z) : outcome (option runtime_function) :=
  match fuel with
  | O => Looping
  | S fuel =>
      if lo <? hi then
        let mid := lo + (hi - lo) / 2 in
        let entry := function_at img mid in
        if rva <? begin_address entry then lookup_loop fuel img rva lo mid
        else if end_address entry <=? rva then lookup_loop fuel img rva (mid + 1) hi
        else Done (Some entry)
      else Done None
  end.

Definition function_count (img : pe_x64) : Z := exception_size img / runtime_function_size.

Definition lookup_function_entry (mod_ : proc_module) (rip : Z) : outcome (option runtime_function) :=
  match pe mod_ with
  | None => Done None
  | Some img =>
      if exception_used img
      then lookup_loop (S (Z.to_nat (function_count img))) img (u32 (rip - addr mod_)) 0 (function_count img)
      else Done None
  end.

Fixpoint entry_index (n : nat) (i : Z) (img : pe_x64) (func : runtime_function) : option Z :=
  match n with
  | O => None
  | S n => if begin_address (function_at img i) =? begin_address func then Some i else entry_index n (i + 1) img func
  end.

Definition function_entry_addr (mod_ : proc_module) (func : runtime_function) : Z :=
  match pe mod_ with
  | None => 0
  | Some img =>
      if exception_used img then
        match entry_index (Z.to_nat (function_count img)) 0 img func with
        | Some i => addr mod_ +w (exception_rva img + i * runtime_function_size)
        | None => 0
        end
      else 0
  end.

(** ** Undoing a prologue *)

(** One code, at slot [i]; true when the frame ends here. *)
Definition undo (mem : memory) (cs : Z -> unwind_code) (i : Z) (c : unwind_context) : outcome (unwind_context * bool) :=
  let reg := info (cs i) in
  let far := Z.lor (frame_offset (cs (i + 1))) (Z.shiftl (frame_offset (cs (i + 2))) 16) in
  match code (cs i) with
  | push_nonvol => let? v := read_mem mem (sp c) in Done (add_sp 8 (set_gp reg v c), false)
  | alloc_large => Done (add_sp (if reg =? 0 then frame_offset (cs (i + 1)) * 8 else far) c, false)
  | alloc_small => Done (add_sp (reg * 8 + 8) c, false)
  | save_nonvol =>
      let? v := read_mem mem (sp c +w frame_offset (cs (i + 1)) * 8) in Done (set_gp reg v c, false)
  | save_nonvol_far => let? v := read_mem mem (sp c +w far) in Done (set_gp reg v c, false)
  | push_machframe =>
      let c := if reg =? 1 then add_sp 8 c else c in
      let? ip := read_mem mem (sp c) in
      let? stack := read_mem mem (sp c +w 24) in
      Done (set_gp rsp stack (set_sp stack (set_pc ip c)), true)
  | set_fpreg | save_xmm128 | save_xmm128_far | other_opcode => Done (c, false)
  end.

(** The loop over the codes of one info. *)
Fixpoint replay (fuel : nat) (mem : memory) (inf : unwind_info) (in_prolog : bool) (rva_in_func i : Z)
    (c : unwind_context) : outcome (unwind_context * bool) :=
  match fuel with
  | O => Looping
  | S fuel =>
      if i <? unwind_code_count inf then
        let next := i + slots (codes inf i) in
        if in_prolog && (rva_in_func <? offset (codes inf i)) then replay fuel mem inf in_prolog rva_in_func next c
        else
          let? (c, ended) := undo mem (codes inf) i c in
          if ended then Done (c, true) else replay fuel mem inf in_prolog rva_in_func next c
      else Done (c, false)
  end.

Definition establish (inf : unwind_info) (in_prolog : bool) (c : unwind_context) : unwind_context :=
  if negb (frame_register inf =? 0) && negb in_prolog
  then set_sp (gp c (frame_register inf) -w fp_offset inf * 16) c else c.

Definition padded_count (inf : unwind_info) : Z := Z.land (unwind_code_count inf + 1) (Z.lnot 1).

(** The loop along the chain of infos; [fuel] bounds the length of the chain. *)
Fixpoint apply_chain (fuel : nat) (mem : memory) (img : pe_x64) (base : Z) (func : runtime_function)
    (unwind_rva : Z) (c : unwind_context) : outcome (unwind_result * unwind_context) :=
  match fuel with
  | O => Looping
  | S fuel =>
      let inf := info_at img unwind_rva in
      let rva_in_func := u32 (u32 (pc c - base) - begin_address func) in
      let in_prolog := rva_in_func <? size_of_prolog inf in
      let c := establish inf in_prolog c in
      let frame := sp c in
      let? (c, ended) := replay (S (Z.to_nat (unwind_code_count inf))) mem inf in_prolog rva_in_func 0 c in
      if ended then Done (UnwindResult 0 0 frame 0, c) else
      let after_codes := code_rva img unwind_rva (padded_count inf) in
      if chain_info inf then apply_chain fuel mem img base func (unwind_info_rva (chained_at img after_codes)) c else
      let res :=
        if exception_handler inf || unwind_handler inf
        then UnwindResult (base +w word_at img after_codes) (base +w (after_codes + 4)) frame 0
        else UnwindResult 0 0 frame 0 in
      let? ip := read_mem mem (sp c) in
      let c := add_sp 8 (set_pc ip c) in
      Done (res, set_gp rsp (sp c) c)
  end.

Definition apply_unwind_info (fuel : nat) (mem : memory) (img : pe_x64) (base : Z) (func : runtime_function)
    (c : unwind_context) : outcome (unwind_result * unwind_context) :=
  apply_chain fuel mem img base func (unwind_info_rva func) c.

(** A function without an entry is a leaf: its return address is on top. *)
Definition unwind_frame (fuel : nat) (mem : memory) (mod_ : proc_module) (c : unwind_context) :
    outcome (bool * unwind_result * unwind_context) :=
  let? func := lookup_function_entry mod_ (pc c) in
  match func, pe mod_ with
  | Some func, Some img =>
      let? (res, c) := apply_unwind_info fuel mem img (addr mod_) func c in
      Done (true, UnwindResult (handler res) (handler_data res) (establisher_frame res) (function_entry_addr mod_ func), c)
  | _, _ =>
      let frame := sp c in
      let? ip := read_mem mem (sp c) in
      Done (negb (ip =? 0), UnwindResult 0 0 frame 0, add_sp 8 (set_pc ip c))
  end.

End X64.

(** ** Walking the stack *)

Definition contains_addr (m : proc_module) (a : Z) : bool := (addr m <=? a) && (a <? addr m +w size m).

(** The modules of the process, in the order of the map. *)
Definition find_module_by_addr (mods : list proc_module) (a : Z) : option proc_module :=
  match List.find (fun m => contains_addr m a) mods with Some m => Some m | None => None end.

Section Walk.
(** The unwinder of the target, as an implementation of [win_unwinder]. *)
Context (unwind : memory -> proc_module -> unwind_context -> outcome (bool * unwind_result * unwind_context)).

Fixpoint walk_loop (max_frames : nat) (mem : memory) (mods : list proc_module) (c : unwind_context) :
    outcome (list (Z * Z)) :=
  match max_frames with
  | O => Done []
  | S n =>
      match find_module_by_addr mods (pc c) with
      | None => Done []
      | Some m =>
          let? (go_on, _, c) := unwind mem m c in
          if go_on then let? rest := walk_loop n mem mods c in Done ((pc c, sp c) :: rest) else Done []
      end
  end.

Definition walk_stack (max_frames : nat) (mem : memory) (mods : list proc_module) (c : unwind_context) :
    outcome (list (Z * Z)) :=
  let? rest := walk_loop max_frames mem mods c in Done ((pc c, sp c) :: rest).
End Walk.

(** ** Searching a scope table *)

Record scope_entry : Type := ScopeEntry {
  scope_begin : Z; scope_end : Z; handler_address : Z; jump_target : Z
}.

Record scope_search : Type := ScopeSearch {
  image_base : Z; s_handler_data : Z; control_pc : Z; s_frame : Z; first_scope : Z
}.

Inductive handler_result : Type :=
  | continue_execution
  | continue_search
  | execute_handler (target frame : Z).

Section Scopes.
(** The guest; the table in its memory, where a read may throw; and what a filter
    function at an address answers, an [int32], with the guest it leaves. *)
Context {guest : Type} (read_word : guest -> Z -> option Z) (read_scope : guest -> Z -> option scope_entry)
  (call_filter : Z -> guest -> option Z * guest).

Definition read_from {A} (r : guest -> Z -> option A) (a : Z) (g : guest) : outcome A :=
  match r g a with Some v => Done v | None => Faulted end.

(** The verdict on a scope that covers the pc: 1 needs no filter. *)
Definition verdict_of (s : scope_search) (scope : scope_entry) (g : guest) : outcome (Z * guest) :=
  if handler_address scope =? 1 then Done (1, g) else
  match call_filter (image_base s +w handler_address scope) g with
  | (Some v, g) => Done (v, g)
  | (None, _) => Faulted
  end.

Fixpoint search_loop (n : nat) (i : Z) (s : scope_search) (g : guest) : outcome (handler_result * guest) :=
  match n with
  | O => Done (continue_search, g)
  | S n =>
      let pc_rva := u32 (control_pc s - image_base s) in
      let? scope := read_from read_scope (s_handler_data s +w (4 + i * 16)) g in
      if (pc_rva <? scope_begin scope) || (scope_end scope <=? pc_rva) then search_loop n (i + 1) s g
      else if jump_target scope =? 0 then search_loop n (i + 1) s g
      else
        let? (verdict, g) := verdict_of s scope g in
        if verdict <? 0 then Done (continue_execution, g)
        else if verdict =? 0 then search_loop n (i + 1) s g
        else Done (execute_handler (image_base s +w jump_target scope) (s_frame s), g)
  end.

Definition search_scope_table (s : scope_search) (g : guest) : outcome (handler_result * guest) :=
  let? count := read_from read_word (s_handler_data s) g in
  search_loop (Z.to_nat (count - first_scope s)) (first_scope s) s g.
End Scopes.
