(* ===== verification/UnwindThm.v ===== *)
(** * Unwinding undoes what a prologue did

    A prologue as the compiler writes it, its unwind codes, and the proof that the
    x86-64 unwinder, given the codes, takes a thread stopped in the prologue or the
    body of a function back to the state of its caller. *)

From Stdlib Require Import Sorting.Sorted.
From stdpp Require Import list.
From S2P Require Import Prelude Mmu Unwind.
From stdpp Require Import options.

Open Scope Z_scope.
Open Scope kern_scope.

(** ** Looking up a function *)

(** A directory the linker sorted: entries are not empty and do not overlap. *)
Definition sorted_functions (img : pe_x64) : Prop :=
  (forall i, 0 <= i < function_count img -> begin_address (function_at img i) < end_address (function_at img i)) /\
  (forall i j, 0 <= i < j -> j < function_count img -> end_address (function_at img i) <= begin_address (function_at img j)).

Definition covers (rva : Z) (f : runtime_function) : Prop := begin_address f <= rva < end_address f.

Lemma lookup_loop_spec fuel img rva lo hi :
  sorted_functions img -> 0 <= lo <= hi -> hi <= function_count img -> hi - lo < Z.of_nat fuel ->
  (forall i, 0 <= i < function_count img -> covers rva (function_at img i) -> lo <= i < hi) ->
  exists r, lookup_loop fuel img rva lo hi = Done r /\
    match r with
    | Some e => covers rva e /\ exists i, 0 <= i < function_count img /\ e = function_at img i
    | None => forall i, 0 <= i < function_count img -> ~ covers rva (function_at img i)
    end.
Proof.
  intros [Hne Hs]. revert lo hi. induction fuel as [|fuel IH]; intros lo hi Hl Hh Hf Hin; [lia|]. cbn [lookup_loop].
  destruct (Z.ltb_spec lo hi) as [Hlt|]; [|exists None; split; [done|]; intros i Hi Hc; specialize (Hin i Hi Hc); lia].
  assert (lo <= lo + (hi - lo) / 2 < hi) as Hm by (split; [|enough ((hi - lo) / 2 < hi - lo) by lia]; [pose proof (Z.div_pos (hi - lo) 2); lia|apply Z.div_lt; lia]).
  set (mid := lo + _) in *. destruct (Z.ltb_spec rva (begin_address (function_at img mid))).
  - apply IH; [lia..|]. intros i Hi Hc. specialize (Hin i Hi Hc). split; [lia|].
    destruct (Z.lt_trichotomy i mid) as [?|[->|?]]; [done|unfold covers in Hc; lia|].
    pose proof (Hs mid i ltac:(lia) ltac:(lia)). pose proof (Hne mid ltac:(lia)). unfold covers in Hc. lia.
  - destruct (Z.leb_spec (end_address (function_at img mid)) rva).
    + apply IH; [lia..|]. intros i Hi Hc. specialize (Hin i Hi Hc). split; [|lia].
      destruct (Z.lt_trichotomy i mid) as [?|[->|?]]; [|unfold covers in Hc; lia|lia].
      pose proof (Hs i mid ltac:(lia) ltac:(lia)). pose proof (Hne mid ltac:(lia)). unfold covers in Hc. lia.
    + exists (Some (function_at img mid)). split; [done|]. split; [unfold covers; lia|]. exists mid. split; [lia|done].
Qed.

(** ** Prologues *)

(** The instructions of a prologue; the unit of an allocation and of an offset is
    8 bytes. *)
Inductive prolog_op : Type :=
  | Push (r : Z)               (** push r *)
  | Alloc (n : Z)              (** sub rsp, 8 * n *)
  | SetFp                      (** lea fp, [rsp + 16 * frame offset] *)
  | Save (r : Z) (n : Z)       (** mov [rsp + 8 * n], r *)
  | SaveXmm (x : Z) (n : Z).   (** movaps [rsp + 16 * n], xmm x *)

(** An instruction with the offset at which it ends. *)
Definition prologue : Type := list (Z * prolog_op).

Definition operand (v : Z) : unwind_code := UnwindCode 0 other_opcode 0 v.

(** The codes of an instruction, as the x64 ABI lays them out. *)
Definition encode_op (at_ : Z) (op : prolog_op) : list unwind_code :=
  match op with
  | Push r => [UnwindCode at_ push_nonvol r 0]
  | Alloc n =>
      if n <=? 16 then [UnwindCode at_ alloc_small (n - 1) 0]
      else if n <? 2 ^ 16 then [UnwindCode at_ alloc_large 0 0; operand n]
      else [UnwindCode at_ alloc_large 1 0; operand (8 * n mod 2 ^ 16); operand (8 * n / 2 ^ 16)]
  | SetFp => [UnwindCode at_ set_fpreg 0 0]
  | Save r n =>
      if n <? 2 ^ 16 then [UnwindCode at_ save_nonvol r 0; operand n]
      else [UnwindCode at_ save_nonvol_far r 0; operand (8 * n mod 2 ^ 16); operand (8 * n / 2 ^ 16)]
  | SaveXmm x n =>
      if n <? 2 ^ 16 then [UnwindCode at_ save_xmm128 x 0; operand n]
      else [UnwindCode at_ save_xmm128_far x 0; operand (16 * n mod 2 ^ 16); operand (16 * n / 2 ^ 16)]
  end.

(** The array lists the last instruction first. *)
Definition encode (ops : prologue) : list unwind_code := flat_map (fun '(a, op) => encode_op a op) (reverse ops).

(** What the library's [slots()] is documented to count. *)
Definition slots_documented (slots : unwind_code -> Z) : Prop :=
  forall u, slots u =
    match code u with
    | alloc_large => if info u =? 0 then 2 else 3
    | save_nonvol | save_xmm128 => 2
    | save_nonvol_far | save_xmm128_far => 3
    | _ => 1
    end.

Definition op_ok (op : prolog_op) : Prop :=
  match op with
  | Push r => 0 <= r < 16
  | Alloc n => 1 <= n < 2 ^ 29
  | SetFp => True
  | Save r n => 0 <= r < 16 /\ 0 <= n < 2 ^ 29
  | SaveXmm x n => 0 <= x < 16 /\ 0 <= n < 2 ^ 28
  end.

(** [frame_register] 0 is no frame pointer.  A frame pointer is set once, after the
    last change of rsp, and its own old value is saved before. *)
Definition keeps_frame (fr : Z) (op : prolog_op) : bool :=
  match op with Save r _ => negb (r =? fr) | SaveXmm _ _ => true | _ => false end.
Fixpoint sets_frame_last (fr : Z) (ops : list prolog_op) : bool :=
  match ops with
  | [] => false
  | SetFp :: ops => forallb (keeps_frame fr) ops
  | _ :: ops => sets_frame_last fr ops
  end.
Definition is_set_fp (op : prolog_op) : bool := match op with SetFp => true | _ => false end.
Definition frame_ok (fr : Z) (ops : list prolog_op) : bool :=
  if fr =? 0 then negb (existsb is_set_fp ops) else sets_frame_last fr ops.

Record describes (inf : unwind_info) (ops : prologue) : Prop := {
  ds_count : unwind_code_count inf = Z.of_nat (length (encode ops));
  ds_codes : forall i u, encode ops !! i = Some u -> codes inf (Z.of_nat i) = u;
  ds_ops : Forall (fun p => op_ok p.2) ops;
  ds_frame : frame_ok (frame_register inf) ops.*2 = true;
  ds_register : 0 <= frame_register inf < 16;
  ds_sorted : StronglySorted (fun p q => p.1 < q.1) ops;
  ds_size : Forall (fun p => p.1 <= size_of_prolog inf) ops
}.

(** *** Running a prologue *)

Section Frame.
Context (fr fo : Z).

Definition exec_op (op : prolog_op) (s : Z * (Z -> Z)) : Z * (Z -> Z) :=
  let '(stack, g) := s in
  match op with
  | Push _ => (stack -w 8, g)
  | Alloc n => (stack -w 8 * n, g)
  | SetFp => (stack, fun x => if x =? fr then stack +w fo * 16 else g x)
  | Save _ _ | SaveXmm _ _ => (stack, g)
  end.
Definition exec (ops : list prolog_op) (s : Z * (Z -> Z)) : Z * (Z -> Z) := foldl (fun s op => exec_op op s) s ops.

(** The register an instruction saves, and where, when it runs at [stack]. *)
Definition saves (op : prolog_op) (stack : Z) : option (Z * Z) :=
  match op with
  | Push r => Some (r, stack -w 8)
  | Save r n => Some (r, stack +w 8 * n)
  | _ => None
  end.
Definition saved (ops : list prolog_op) (r : Z) : bool :=
  existsb (fun op => match saves op 0 with Some (r', _) => r' =? r | None => false end) ops.

(** The slots the prologue filled still hold what it put there. *)
Fixpoint intact (mem : memory) (ops : list prolog_op) (s : Z * (Z -> Z)) : Prop :=
  match ops with
  | [] => True
  | op :: ops =>
      match saves op s.1 with Some (r, slot) => mem slot = Some (s.2 r) | None => True end /\ intact mem ops (exec_op op s)
  end.

(** *** Undoing one instruction *)

Definition undo_op (mem : memory) (op : prolog_op) (c : unwind_context) : outcome unwind_context :=
  match op with
  | Push r => let? v := read_mem mem (sp c) in Done (add_sp 8 (set_gp r v c))
  | Alloc n => Done (add_sp (8 * n) c)
  | SetFp | SaveXmm _ _ => Done c
  | Save r n => let? v := read_mem mem (sp c +w 8 * n) in Done (set_gp r v c)
  end.
Fixpoint undo_all (mem : memory) (ops : list prolog_op) (c : unwind_context) : outcome unwind_context :=
  match ops with [] => Done c | op :: ops => let? c := undo_op mem op c in undo_all mem ops c end.

Lemma intact_app mem ops ops' s : intact mem (ops ++ ops') s <-> intact mem ops s /\ intact mem ops' (exec ops s).
Proof. revert s. induction ops as [|op ops IH]; intros s; cbn; [unfold exec; cbn; tauto|]. rewrite IH. unfold exec. cbn. tauto. Qed.

Lemma exec_app ops ops' s : exec (ops ++ ops') s = exec ops' (exec ops s).
Proof. apply foldl_app. Qed.

Lemma exec_sp_range ops s : in_u64 s.1 -> in_u64 (exec ops s).1.
Proof.
  revert s. induction ops as [|op ops IH]; intros [stack g] H; [done|]. apply IH. destruct op; cbn; auto using u64_range.
Qed.

(** A register but the frame pointer, and the frame pointer before it is set, keep
    their values. *)
Lemma exec_gp ops s r : r <> fr \/ existsb is_set_fp ops = false -> (exec ops s).2 r = s.2 r.
Proof.
  revert s. induction ops as [|op ops IH]; intros [stack g] H; [done|]. cbn [exec foldl].
  fold (exec ops (exec_op op (stack, g))). rewrite IH.
  - destruct op; cbn; try done. destruct (Z.eqb_spec r fr); [|done]. by destruct H.
  - destruct H as [?|H]; [by left|]. right. cbn in H. by apply orb_false_iff in H as [_ ?].
Qed.

Lemma saved_app ops ops' r : saved (ops ++ ops') r = saved ops r || saved ops' r.
Proof. apply existsb_app. Qed.

(** No instruction saves the frame pointer once it is set. *)
Definition fr_saved_first (ops : list prolog_op) : Prop :=
  forall pre op post, ops = pre ++ op :: post -> saved [op] fr = true -> existsb is_set_fp pre = false.

Lemma fr_saved_first_prefix ops ops' : fr_saved_first (ops ++ ops') -> fr_saved_first ops.
Proof. intros H pre op post ->. apply (H pre op (post ++ ops')). by rewrite <- app_assoc. Qed.

Lemma undo_all_spec mem ops : forall s c,
  in_u64 s.1 -> fr_saved_first ops -> intact mem ops s -> sp c = (exec ops s).1 ->
  exists c', undo_all mem (reverse ops) c = Done c' /\ sp c' = s.1 /\ pc c' = pc c /\ fp_regs c' = fp_regs c /\
    forall r, gp c' r = if saved ops r then s.2 r else gp c r.
Proof.
  induction ops as [|op ops IH] using rev_ind; intros s c Hs Hf Hi Hc; [by exists c|].
  rewrite intact_app in Hi. destruct Hi as [Hi [Hslot _]]. rewrite exec_app in Hc.
  rewrite reverse_snoc. cbn [undo_all].
  assert (exists c1, undo_op mem op c = Done c1 /\ sp c1 = (exec ops s).1 /\ pc c1 = pc c /\ fp_regs c1 = fp_regs c /\
    forall r, gp c1 r = if saved [op] r then (exec ops s).2 r else gp c r) as (c1 & E1 & S1 & P1 & F1 & G1).
  { pose proof (exec_sp_range ops s Hs) as Hr. destruct (exec ops s) as [stack g] eqn:Ee. cbn in Hc, Hslot, Hr.
    destruct op as [r|n| |r n|x n]; cbn in Hc, Hslot |- *; unfold read_mem.
    - rewrite Hc, Hslot. cbn. eexists. split_and!; [done|cbn; by rewrite Hc, u64_sub_add|done..|]. cbn.
      intros r'. rewrite orb_false_r, (Z.eqb_sym r r'). by destruct (Z.eqb_spec r' r) as [->|].
    - eexists. split_and!; [done|cbn; by rewrite Hc, u64_sub_add|done..|]. done.
    - by eexists.
    - rewrite Hc, Hslot. cbn. eexists. split_and!; [done|done..|]. cbn.
      intros r'. rewrite orb_false_r, (Z.eqb_sym r r'). by destruct (Z.eqb_spec r' r) as [->|].
    - by eexists. }
  rewrite E1. cbn [obind].
  destruct (IH s c1 Hs ltac:(by eapply fr_saved_first_prefix) Hi S1) as (c' & E' & S' & P' & F' & G').
  exists c'. split_and!; [done|done|congruence|congruence|]. intros r. rewrite G', saved_app, G1.
  destruct (saved ops r); [done|]. rewrite orb_false_l. destruct (saved [op] r) eqn:Er; [|done].
  apply exec_gp. destruct (decide (r = fr)) as [->|]; [|by left]. right. by apply (Hf ops op []).
Qed.

Lemma not_set_last ops : sets_frame_last fr ops = true ->
  exists pre post, ops = pre ++ SetFp :: post /\ existsb is_set_fp pre = false /\ forallb (keeps_frame fr) post = true.
Proof.
  induction ops as [|op ops IH]; [done|]. intros H. destruct op; cbn in H;
    try (destruct (IH H) as (pre & post & -> & Hp & ?); eexists (_ :: pre), post; split_and!; [reflexivity|cbn; apply Hp|done]).
  by exists [], ops.
Qed.

Lemma keeps_no_set ops : forallb (keeps_frame fr) ops = true -> existsb is_set_fp ops = false.
Proof. induction ops as [|[]]; cbn; intros H; try done; try (apply andb_true_iff in H as [_ ?]); auto. Qed.

Lemma keeps_not_saved ops : forallb (keeps_frame fr) ops = true -> saved ops fr = false.
Proof.
  induction ops as [|[] ops IH]; cbn; intros H; try done; [|by apply IH]. apply andb_true_iff in H as [H1 H2].
  apply negb_true_iff in H1. rewrite H1. cbn. by apply IH.
Qed.

Lemma frame_ok_saved_first ops : frame_ok fr ops = true -> fr_saved_first ops.
Proof.
  unfold frame_ok. destruct (Z.eqb_spec fr 0) as [E|E]; intros H pre op post ->.
  - intros _. apply negb_true_iff in H. rewrite existsb_app in H. by apply orb_false_iff in H as [? _].
  - intros Hop. destruct (not_set_last _ H) as (p & q & Heq & Hp & Hq).
    assert (length pre <= length p)%nat as Hlen.
    { destruct (Nat.le_gt_cases (length pre) (length p)) as [?|Hgt]; [done|exfalso].
      assert (op ∈ q) as Hin.
      { apply list_elem_of_lookup_2 with (i := (length pre - length p - 1)%nat).
        assert ((pre ++ op :: post) !! length pre = Some op) as Hl by (rewrite lookup_app_r, Nat.sub_diag by lia; done).
        rewrite Heq in Hl. rewrite lookup_app_r in Hl by lia.
        destruct (length pre - length p)%nat as [|k] eqn:Ek; [lia|]. cbn in Hl. by replace (S k - 1)%nat with k by lia. }
      pose proof (keeps_not_saved q Hq) as Hns. apply list_elem_of_split in Hin as (q1 & q2 & ->).
      rewrite (saved_app q1 (op :: q2)) in Hns. apply orb_false_iff in Hns as [_ Hns].
      change (op :: q2) with ([op] ++ q2) in Hns. rewrite saved_app, Hop in Hns. done. }
    assert (pre = take (length pre) p) as ->.
    { rewrite <- (take_app_le p (SetFp :: q)) by done. rewrite <- Heq. by rewrite take_app_length. }
    clear -Hp. revert Hp. generalize (length pre). induction p as [|x p IH]; intros [|k] Hp; try done.
    cbn in *. apply orb_false_iff in Hp as [-> Hp]. by apply IH.
Qed.

(** After the whole prologue the frame pointer finds the stack again. *)
Lemma frame_pointer_finds ops s :
  in_u64 s.1 -> fr <> 0 -> frame_ok fr ops = true -> (exec ops s).2 fr -w fo * 16 = (exec ops s).1.
Proof.
  intros Hs Hfr H. unfold frame_ok in H. rewrite (proj2 (Z.eqb_neq _ _) Hfr) in H.
  destruct (not_set_last _ H) as (p & q & -> & Hp & Hq). rewrite exec_app. cbn [exec foldl].
  pose proof (exec_sp_range p s Hs) as Hr. fold (exec p s). destruct (exec p s) as [stack g]. cbn in Hr.
  fold (exec q (exec_op SetFp (stack, g))).
  assert (forall s', forallb (keeps_frame fr) q = true -> (exec q s').1 = s'.1) as Hsp.
  { clear. induction q as [|[] q IH]; intros [stack0 g0] Hq; cbn in Hq; try done; [apply andb_true_iff in Hq as [_ ?]|]; by apply IH. }
  rewrite Hsp by done. rewrite exec_gp by (right; by apply keeps_no_set). cbn. rewrite Z.eqb_refl. by apply u64_add_sub.
Qed.

End Frame.

(** ** Reading the codes back *)

Section Decode.
Context (slots : unwind_code -> Z) (Hslots : slots_documented slots).

Definition at_codes (cs : Z -> unwind_code) (i : Z) (l : list unwind_code) : Prop :=
  forall k u, l !! k = Some u -> cs (i + Z.of_nat k) = u.

Lemma at_codes_app cs i l l' :
  at_codes cs i (l ++ l') -> at_codes cs i l /\ at_codes cs (i + Z.of_nat (length l)) l'.
Proof.
  intros H. split; intros k u Hk.
  - apply H. by apply lookup_app_l_Some.
  - rewrite <- Z.add_assoc, <- Nat2Z.inj_add. apply H. rewrite lookup_app_r by lia. by replace (length l + k - length l)%nat with k by lia.
Qed.

Lemma lor_halves x : 0 <= x -> Z.lor (x mod 2 ^ 16) (Z.shiftl (x / 2 ^ 16) 16) = x.
Proof.
  intros Hx. rewrite Z.shiftl_mul_pow2 by lia. apply Z.bits_inj'. intros n Hn. rewrite Z.lor_spec.
  rewrite <- Z.shiftl_mul_pow2 by lia. rewrite Z.shiftl_spec by lia. destruct (Z.lt_ge_cases n 16).
  - rewrite Z.mod_pow2_bits_low by lia. rewrite (Z.testbit_neg_r _ (n - 16)) by lia. by rewrite orb_false_r.
  - rewrite Z.mod_pow2_bits_high by lia. rewrite Z.div_pow2_bits by lia. cbn. f_equal. lia.
Qed.

Lemma undo_encoded mem cs i a op c :
  op_ok op -> at_codes cs i (encode_op a op) ->
  undo mem cs i c = (let? c := undo_op mem op c in Done (c, false)) /\
  offset (cs i) = a /\ slots (cs i) = Z.of_nat (length (encode_op a op)).
Proof using Hslots.
  intros Hok H. rewrite Hslots. unfold undo.
  pose proof (fun u H0 => H 0%nat u H0) as H0. pose proof (fun u H1 => H 1%nat u H1) as H1.
  pose proof (fun u H2 => H 2%nat u H2) as H2. cbn [Z.of_nat] in H0. rewrite Z.add_0_r in H0.
  change (Z.of_nat 1) with 1 in H1. change (Z.of_nat 2) with 2 in H2.
  destruct op as [r|n| |r n|x n]; cbn [op_ok encode_op] in *.
  - rewrite (H0 _ eq_refl). cbn. by destruct (read_mem mem (sp c)).
  - destruct (n <=? 16) eqn:E1.
    { rewrite (H0 _ eq_refl). cbn. by replace ((n - 1) * 8 + 8) with (8 * n) by lia. }
    destruct (n <? 2 ^ 16) eqn:E2.
    { rewrite (H0 _ eq_refl), (H1 _ eq_refl). cbn. by rewrite (Z.mul_comm n 8). }
    rewrite (H0 _ eq_refl), (H1 _ eq_refl), (H2 _ eq_refl). cbn -[Z.shiftl Z.lor Z.mul Z.modulo Z.div].
    by rewrite (lor_halves (8 * n)) by lia.
  - rewrite (H0 _ eq_refl). done.
  - destruct (n <? 2 ^ 16) eqn:E2.
    { rewrite (H0 _ eq_refl), (H1 _ eq_refl). cbn. rewrite (Z.mul_comm n 8). by destruct (read_mem mem _). }
    rewrite (H0 _ eq_refl), (H1 _ eq_refl), (H2 _ eq_refl). cbn -[Z.shiftl Z.lor Z.mul Z.modulo Z.div].
    rewrite (lor_halves (8 * n)) by lia. by destruct (read_mem mem _).
  - destruct (n <? 2 ^ 16); by rewrite (H0 _ eq_refl).
Qed.

Lemma encode_op_pos a op : (0 < length (encode_op a op))%nat.
Proof. destruct op; cbn; repeat case_match; cbn; lia. Qed.

(** The instructions that had run. *)
Definition has_run (in_prolog : bool) (rva : Z) (p : Z * prolog_op) : bool := negb (in_prolog && (rva <? p.1)).
Definition ran (in_prolog : bool) (rva : Z) (ops : prologue) : list prolog_op :=
  (List.filter (has_run in_prolog rva) ops).*2.

Lemma replay_encoded mem inf inp rva L : forall fuel i c,
  Forall (fun p => op_ok p.2) L -> at_codes (codes inf) i (flat_map (fun '(a, op) => encode_op a op) L) ->
  i + Z.of_nat (length (flat_map (fun '(a, op) => encode_op a op) L)) = unwind_code_count inf ->
  (length L < fuel)%nat ->
  replay slots fuel mem inf inp rva i c =
    let? c := undo_all mem (ran inp rva L) c in Done (c, false).
Proof using Hslots.
  induction L as [|[a op] L IH]; intros fuel i c Hok Hat Hn Hf; (destruct fuel as [|fuel]; [lia|]); cbn [replay].
  - cbn in Hn. rewrite (proj2 (Z.ltb_ge _ _)) by lia. done.
  - cbn [flat_map] in Hat, Hn. rewrite length_app in Hn. apply at_codes_app in Hat as [Hat1 Hat2].
    inversion_clear Hok as [|? ? Hok1 Hok2]. cbn in Hok1, Hf.
    pose proof (encode_op_pos a op). rewrite (proj2 (Z.ltb_lt _ _)) by lia.
    destruct (undo_encoded mem (codes inf) i a op c Hok1 Hat1) as (Eu & Eo & Es). rewrite Eo, Es, Eu.
    unfold ran. cbn [List.filter]. unfold has_run at 1. cbn [fst].
    destruct (inp && (rva <? a)) eqn:Esk; cbn [negb].
    + apply IH; [done|done|lia|lia].
    + cbn [fmap list_fmap undo_all snd]. destruct (undo_op mem op c) as [c'| |]; [|done|done]. cbn [obind].
      rewrite IH; [done|done|done|lia|lia].
Qed.

Lemma ran_reverse inp rva ops : ran inp rva (reverse ops) = reverse (ran inp rva ops).
Proof.
  unfold ran. rewrite <- fmap_reverse. f_equal. induction ops as [|p ops IH]; [done|].
  rewrite reverse_cons, filter_app, IH. cbn [List.filter]. destruct (has_run inp rva p); [by rewrite reverse_cons|by rewrite app_nil_r].
Qed.

Lemma ran_prefix inp rva ops :
  StronglySorted (fun p q => p.1 < q.1) ops -> exists rest, ops.*2 = ran inp rva ops ++ rest.
Proof.
  induction 1 as [|p ops _ IH Hp]; [by exists []|]. unfold ran. cbn [List.filter].
  destruct (has_run inp rva p) eqn:E.
  - destruct IH as [rest IH]. exists rest. cbn. by rewrite IH.
  - exists (p :: ops).*2. assert (List.filter (has_run inp rva) ops = []) as ->; [|done].
    unfold has_run in E. apply negb_false_iff, andb_true_iff in E as [-> E]. apply Z.ltb_lt in E.
    clear IH. induction Hp as [|q ops Hq _ IH]; [done|]. cbn. unfold has_run at 1. cbn.
    rewrite (proj2 (Z.ltb_lt rva q.1)) by lia. cbn. apply IH.
Qed.

End Decode.

(** ** The unwinder *)

(** The instructions that end at or before the pc. *)
Definition executed (rva : Z) (ops : prologue) : list prolog_op := (List.filter (fun p => p.1 <=? rva) ops).*2.

(** Those are the ones the unwinder undoes. *)
Lemma ran_executed inf ops rva : Forall (fun p => p.1 <= size_of_prolog inf) ops ->
  ran (rva <? size_of_prolog inf) rva ops = executed rva ops.
Proof.
  intros H. unfold ran, executed. f_equal. induction H as [|p ops Hp _ IH]; [done|]. cbn [List.filter]. rewrite IH.
  assert (has_run (rva <? size_of_prolog inf) rva p = (p.1 <=? rva)) as ->; [|done]. unfold has_run.
  destruct (Z.ltb_spec rva (size_of_prolog inf)), (Z.ltb_spec rva p.1), (Z.leb_spec p.1 rva); cbn; lia.
Qed.

(** A thread stopped in a function entered with its stack at [stack0], the return
    address there, and the registers [gp0]: the part of the prologue before the pc
    ran, and what it saved is still in place.  In the prologue, or without a frame
    pointer, rsp is where that part left it; after the prologue of a function with a
    frame pointer rsp may be anywhere, and the frame pointer is where it was set. *)
Record stopped (inf : unwind_info) (ops : prologue) (rva : Z) (mem : memory) (stack0 : Z)
    (gp0 : Z -> Z) (c : unwind_context) : Prop := {
  st_stack : in_u64 stack0;
  st_intact : intact (frame_register inf) (fp_offset inf) mem (executed rva ops) (stack0, gp0);
  st_sp : frame_register inf = 0 \/ rva < size_of_prolog inf ->
    sp c = (exec (frame_register inf) (fp_offset inf) (executed rva ops) (stack0, gp0)).1;
  st_fp : frame_register inf <> 0 -> size_of_prolog inf <= rva ->
    gp c (frame_register inf) =
      (exec (frame_register inf) (fp_offset inf) (executed rva ops) (stack0, gp0)).2 (frame_register inf)
}.

Lemma ran_all rva ops : ran false rva ops = ops.*2.
Proof. unfold ran. f_equal. induction ops as [|p ops IH]; [done|]. cbn. by rewrite IH. Qed.

Lemma establish_spec inf ops rva mem stack0 gp0 c :
  describes inf ops -> stopped inf ops rva mem stack0 gp0 c ->
  let c1 := establish inf (rva <? size_of_prolog inf) c in
  sp c1 = (exec (frame_register inf) (fp_offset inf) (executed rva ops) (stack0, gp0)).1 /\ gp c1 = gp c /\ pc c1 = pc c /\ fp_regs c1 = fp_regs c.
Proof.
  intros Hd Hs. unfold establish. destruct (Z.eqb_spec (frame_register inf) 0) as [E|E]; cbn [negb andb].
  { split; [apply (st_sp _ _ _ _ _ _ _ Hs); by left|done]. }
  pose proof (ran_executed inf ops rva (ds_size _ _ Hd)) as Er.
  destruct (Z.ltb_spec rva (size_of_prolog inf)) as [Hin|Hout]; cbn [negb]; [split; [apply (st_sp _ _ _ _ _ _ _ Hs); by right|done]|].
  cbn. split; [|done]. rewrite (st_fp _ _ _ _ _ _ _ Hs E Hout). rewrite <- Er, ran_all.
  apply frame_pointer_finds; [apply Hs|done|apply Hd].
Qed.

Lemma replay_prologue slots inf ops rva mem stack0 gp0 c :
  slots_documented slots -> describes inf ops -> stopped inf ops rva mem stack0 gp0 c ->
  let inp := rva <? size_of_prolog inf in
  exists c', replay slots (S (Z.to_nat (unwind_code_count inf))) mem inf inp rva 0 (establish inf inp c) = Done (c', false) /\
    sp c' = stack0 /\ pc c' = pc c /\ fp_regs c' = fp_regs c /\ forall r, gp c' r = if saved (executed rva ops) r then gp0 r else gp c r.
Proof.
  intros Hsl Hd Hs inp. destruct (establish_spec inf ops rva mem stack0 gp0 c Hd Hs) as (E1 & E2 & E3 & E4).
  pose proof (ran_executed inf ops rva (ds_size _ _ Hd)) as Er. fold inp in Er.
  cbn zeta in *. fold inp in E1, E2, E3, E4. set (c1 := establish inf inp c) in *.
  destruct (ran_prefix inp rva ops (ds_sorted _ _ Hd)) as [rest Hrest]. rewrite Er in Hrest.
  destruct (undo_all_spec (frame_register inf) (fp_offset inf) mem (executed rva ops) (stack0, gp0) c1) as (c' & Eu & S & P & F & G).
  - apply Hs.
  - apply (fr_saved_first_prefix _ _ rest). rewrite <- Hrest. apply frame_ok_saved_first, Hd.
  - apply Hs.
  - done.
  - exists c'. split_and!; [|done|congruence|congruence|intros r; rewrite G, E2; done].
    rewrite (replay_encoded slots Hsl mem inf inp rva (reverse ops)); [by rewrite ran_reverse, Er, Eu|..].
    + apply Forall_reverse, Hd.
    + intros k u Hk. rewrite Z.add_0_l. by apply (ds_codes _ _ Hd).
    + rewrite (ds_count _ _ Hd). done.
    + rewrite (ds_count _ _ Hd), Nat2Z.id. unfold encode. clear. induction (reverse ops) as [|[a op] l IH]; cbn; [lia|].
      rewrite length_app. pose proof (encode_op_pos a op). lia.
Qed.

Lemma entry_index_spec n i img func k :
  (forall j, i <= j < k -> begin_address (function_at img j) <> begin_address func) ->
  i <= k < i + Z.of_nat n -> begin_address (function_at img k) = begin_address func ->
  entry_index n i img func = Some k.
Proof.
  revert i. induction n as [|n IH]; intros i Hb Hk E; [lia|]. cbn [entry_index].
  destruct (decide (i = k)) as [->|Hne]; [by rewrite E, Z.eqb_refl|].
  rewrite (proj2 (Z.eqb_neq _ _)) by (apply Hb; lia). apply IH; [intros j Hj; apply Hb; lia|lia|done].
Qed.

Lemma lookup_finds img mod_ k rip :
  pe mod_ = Some img -> exception_used img = true -> sorted_functions img -> 0 <= exception_size img ->
  0 <= k < function_count img -> covers (u32 (rip - addr mod_)) (function_at img k) ->
  lookup_function_entry mod_ rip = Done (Some (function_at img k)) /\
  function_entry_addr mod_ (function_at img k) = addr mod_ +w (exception_rva img + k * runtime_function_size).
Proof.
  intros Hpe Hu Hso Hsz Hk Hc. unfold lookup_function_entry, function_entry_addr. rewrite Hpe, Hu.
  assert (0 <= function_count img) as Hfc by (apply Z.div_pos; [done|unfold runtime_function_size; lia]).
  destruct (lookup_loop_spec (S (Z.to_nat (function_count img))) img (u32 (rip - addr mod_)) 0 (function_count img) Hso
    ltac:(lia) ltac:(lia) ltac:(lia) ltac:(auto)) as (r & -> & Hr).
  destruct Hso as [Hne Hs]. split.
  - destruct r as [e|]; [|by exfalso; apply (Hr k Hk)]. destruct Hr as [Hce (i & Hi & ->)]. repeat f_equal.
    destruct (Z.lt_trichotomy i k) as [Hlt|[->|Hlt]]; [|done|];
      [pose proof (Hs i k ltac:(lia) ltac:(lia))|pose proof (Hs k i ltac:(lia) ltac:(lia))]; unfold covers in *; lia.
  - rewrite (entry_index_spec _ 0 img (function_at img k) k); [done| |lia|done].
    intros j Hj Heq. pose proof (Hs j k ltac:(lia) ltac:(lia)). pose proof (Hne j ltac:(lia)). lia.
Qed.

(** The function of a frame: an entry of the directory of its module, the info of
    that entry, and the prologue the info describes. *)
Record frame : Type := Frame {
  f_mod : proc_module; f_img : pe_x64; f_index : Z; f_ops : prologue; f_stack : Z; f_gp : Z -> Z
}.
Definition f_func (f : frame) : runtime_function := function_at (f_img f) (f_index f).
Definition f_info (f : frame) : unwind_info := info_at (f_img f) (unwind_info_rva (f_func f)).
Definition f_rva (f : frame) (c : unwind_context) : Z := u32 (u32 (pc c - addr (f_mod f)) - begin_address (f_func f)).
Definition f_ran (f : frame) (c : unwind_context) : list prolog_op := executed (f_rva f c) (f_ops f).
Definition f_base (f : frame) (c : unwind_context) : Z :=
  (exec (frame_register (f_info f)) (fp_offset (f_info f)) (f_ran f c) (f_stack f, f_gp f)).1.

Record in_frame (mem : memory) (f : frame) (c : unwind_context) : Prop := {
  if_pe : pe (f_mod f) = Some (f_img f);
  if_used : exception_used (f_img f) = true;
  if_size : 0 <= exception_size (f_img f);
  if_sorted : sorted_functions (f_img f);
  if_index : 0 <= f_index f < function_count (f_img f);
  if_covers : covers (u32 (pc c - addr (f_mod f))) (f_func f);
  if_describes : describes (f_info f) (f_ops f);
  if_unchained : chain_info (f_info f) = false;
  if_stopped : stopped (f_info f) (f_ops f) (f_rva f c) mem (f_stack f) (f_gp f) c
}.

Lemma unwind_frame_spec slots n mem f ret c :
  slots_documented slots -> in_frame mem f c -> mem (f_stack f) = Some ret ->
  exists res c', unwind_frame slots (S n) mem (f_mod f) c = Done (true, res, c') /\
    pc c' = ret /\ sp c' = f_stack f +w 8 /\ gp c' rsp = sp c' /\ fp_regs c' = fp_regs c /\
    (forall r, r <> rsp -> gp c' r = if saved (f_ran f c) r then f_gp f r else gp c r) /\
    establisher_frame res = f_base f c /\
    function_entry res = addr (f_mod f) +w (exception_rva (f_img f) + f_index f * runtime_function_size) /\
    handler res = (if exception_handler (f_info f) || unwind_handler (f_info f)
      then addr (f_mod f) +w word_at (f_img f) (code_rva (f_img f) (unwind_info_rva (f_func f)) (padded_count (f_info f)))
      else 0).
Proof.
  intros Hsl [Hpe Hu Hsz Hso Hk Hc Hd Hch Hs] Hret.
  destruct (lookup_finds (f_img f) (f_mod f) (f_index f) (pc c) Hpe Hu Hso Hsz Hk Hc) as [Hl He].
  destruct (replay_prologue slots _ _ _ mem _ _ c Hsl Hd Hs) as (c1 & E1 & S1 & P1 & F1 & G1).
  destruct (establish_spec _ _ _ mem _ _ c Hd Hs) as (Hf & _). cbn zeta in Hf.
  unfold unwind_frame. rewrite Hl. cbn [obind]. rewrite Hpe. unfold apply_unwind_info. cbn [apply_chain].
  fold (f_func f) (f_info f) (f_rva f c). rewrite E1. cbn [obind]. rewrite Hch. unfold read_mem.
  rewrite S1, Hret. cbn [obind]. eexists _, _. split; [reflexivity|]. cbn. rewrite S1. split_and!; [done|done|done|done| | |done|].
  - intros r Hr. rewrite (proj2 (Z.eqb_neq _ _)) by done. apply G1.
  - unfold f_base, f_ran. by destruct (exception_handler (f_info f) || unwind_handler (f_info f)).
  - by destruct (exception_handler (f_info f) || unwind_handler (f_info f)).
Qed.

(** C38: a thread stopped in the prologue or the body of a function is unwound to
    its caller in one step of the x86-64 unwinder: the pc is the return address, the
    stack pointer the caller's, every integer register that the instructions before
    the pc saved, by a push or a store, has the caller's value, and every other
    register is left alone (the xmm registers too: their codes are passed over).  The
    function is found in the directory by bisection, and the result carries its
    frame, its entry and its handler.  The functions are those whose unwind info is
    not chained to another, without a code for a machine frame, and which set a
    frame pointer, if any, once, after its old value is saved and after the last
    change of rsp by the prologue; what the prologue saved is still in place, and the
    pc is
    not in an epilogue, where part of the prologue is undone already.  For the other
    cases see [early_frame_misread], [chained_prologue_skipped] and
    [epilogue_misread], where the code goes wrong. *)
Theorem x64_unwind_correct slots n mem f ret c :
  slots_documented slots -> in_frame mem f c -> mem (f_stack f) = Some ret ->
  exists res c', unwind_frame slots (S n) mem (f_mod f) c = Done (true, res, c') /\
    pc c' = ret /\ sp c' = f_stack f +w 8 /\ gp c' rsp = sp c' /\ fp_regs c' = fp_regs c /\
    (forall r, r <> rsp -> gp c' r = if saved (f_ran f c) r then f_gp f r else gp c r) /\
    establisher_frame res = f_base f c /\
    function_entry res = addr (f_mod f) +w (exception_rva (f_img f) + f_index f * runtime_function_size) /\
    handler res = (if exception_handler (f_info f) || unwind_handler (f_info f)
      then addr (f_mod f) +w word_at (f_img f) (code_rva (f_img f) (unwind_info_rva (f_func f)) (padded_count (f_info f)))
      else 0).
Proof. apply unwind_frame_spec. Qed.

(** *** A whole stack *)

(** rbx, rbp, rsi, rdi, r12 to r15. *)
Definition nonvolatile (r : Z) : bool := (r =? 3) || ((5 <=? r) && (r <=? 7)) || ((12 <=? r) && (r <=? 15)).

(** A thread whose frames, innermost first, return to the pcs of the list with the
    stack pointers of the list, until the first pc that is in no module. *)
Inductive stack_of (mem : memory) (mods : list proc_module) : unwind_context -> list (Z * Z) -> Prop :=
  | stack_base c : find_module_by_addr mods (pc c) = None -> stack_of mem mods c []
  | stack_call c f ret fps frames :
      find_module_by_addr mods (pc c) = Some (f_mod f) -> in_frame mem f c -> mem (f_stack f) = Some ret ->
      frame_register (f_info f) = 0 \/ nonvolatile (frame_register (f_info f)) = true ->
      (forall r, nonvolatile r = true -> saved (f_ran f c) r = false -> gp c r = f_gp f r) ->
      stack_of mem mods (Ctx ret (f_stack f +w 8) (f_gp f) fps) frames ->
      stack_of mem mods c ((ret, f_stack f +w 8) :: frames).

(** Contexts an unwinder need not tell apart. *)
Definition ctx_like (c d : unwind_context) : Prop :=
  pc d = pc c /\ sp d = sp c /\ forall r, nonvolatile r = true -> gp d r = gp c r.

Lemma in_frame_like mem f c d :
  ctx_like c d -> frame_register (f_info f) = 0 \/ nonvolatile (frame_register (f_info f)) = true ->
  in_frame mem f c -> in_frame mem f d.
Proof.
  intros (Hp & Hs & Hg) Hn [? ? ? ? ? Hc Hd Hch Hst]. unfold f_rva in *.
  split; try done; unfold f_rva; rewrite Hp; [done|]. destruct Hst as [H1 H2 H3 H4]. split; [done|done| |].
  - intros H. rewrite Hs. by apply H3.
  - intros H H'. destruct Hn as [?|Hn]; [done|]. rewrite (Hg _ Hn). by apply H4.
Qed.

Lemma f_ran_like f c d : ctx_like c d -> f_ran f d = f_ran f c.
Proof. intros (Hp & _ & _). unfold f_ran, f_rva. by rewrite Hp. Qed.

Lemma walk_loop_spec slots n mem mods c frames :
  slots_documented slots -> stack_of mem mods c frames -> forall d max, ctx_like c d ->
  walk_loop (unwind_frame slots (S n)) max mem mods d = Done (take max frames).
Proof.
  intros Hsl Hst. induction Hst as [c Hb|c f ret fps frames Hm Hi Hr Hn Hg _ IH]; intros d [|max] Hl; cbn [walk_loop]; try done.
  - destruct Hl as (-> & _). by rewrite Hb, take_nil.
  - pose proof (in_frame_like mem f c d Hl Hn Hi) as Hid. pose proof (f_ran_like f c d Hl) as Hran.
    destruct Hl as (Hp & _ & Hl). rewrite Hp, Hm.
    destruct (unwind_frame_spec slots n mem f ret d Hsl Hid Hr) as (res & d' & -> & P & S & _ & _ & G & _). cbn [obind].
    rewrite (IH d' max); [cbn [obind]; by rewrite P, S|]. split_and!; [done|done|]. intros r Hv. cbn.
    rewrite G by (intros ->; done). rewrite Hran. destruct (saved (f_ran f c) r) eqn:Es; [done|].
    rewrite (Hl r Hv). by apply Hg.
Qed.

(** [walk_stack] on x86-64 reports the frames of the stack, innermost first,
    each with the pc it returns to and the stack pointer it returns with: all of
    them, or the first [max_frames] after the one the thread is in. *)
Theorem walk_stack_correct slots n mem mods c frames max_frames :
  slots_documented slots -> stack_of mem mods c frames ->
  walk_stack (unwind_frame slots (S n)) max_frames mem mods c = Done ((pc c, sp c) :: take max_frames frames).
Proof.
  intros Hsl Hst. unfold walk_stack. rewrite (walk_loop_spec slots n mem mods c frames Hsl Hst c); done.
Qed.
