(* ===== verification/UnwindExamples.v ===== *)
(** * A small x86-64 image and its stacks

    One function with a frame pointer, stopped inside a call of itself; and three
    cases the unwinder gets wrong. *)

From Stdlib Require Import Sorting.Sorted.
From stdpp Require Import list.
From S2P Require Import Prelude Mmu Unwind UnwindThm.
From stdpp Require Import options.

Open Scope Z_scope.
Open Scope kern_scope.

Definition documented_slots (u : unwind_code) : Z :=
  match code u with
  | alloc_large => if info u =? 0 then 2 else 3
  | save_nonvol | save_xmm128 => 2
  | save_nonvol_far | save_xmm128_far => 3
  | _ => 1
  end.

Lemma documented_slots_ok : slots_documented documented_slots.
Proof. done. Qed.

Definition codes_of (ops : prologue) (i : Z) : unwind_code :=
  default (operand 0) (encode ops !! Z.to_nat i).
Definition info_of (ops : prologue) (prolog_size fr fo : Z) : unwind_info :=
  UnwindInfo prolog_size (Z.of_nat (length (encode ops))) fr fo (codes_of ops) false false false.

(** push rbp; sub rsp, 0x20; lea rbp, [rsp + 0x10]; mov [rsp], rbx;
    movaps [rsp + 0x10], xmm6 *)
Definition framed : prologue := [(1, Push 5); (5, Alloc 4); (10, SetFp); (14, Save 3 0); (19, SaveXmm 6 1)].

Definition one_function (inf : unwind_info) : pe_x64 :=
  PeX64 true 0x2000 12 (fun _ => RuntimeFunction 0x1000 0x1100 0x3000) (fun _ => inf)
    (fun rva i => rva + 4 + 2 * i) (fun _ => RuntimeFunction 0 0 0) (fun _ => 0).
Definition image : pe_x64 := one_function (info_of framed 19 5 1).
Definition driver : proc_module := ProcModule 0x140000000 0x10000 (Some image).

(** The registers of the outer caller, and of the function when it called itself. *)
Definition outer_regs (r : Z) : Z := if r =? 5 then 0xAAAA else if r =? 3 then 0xBBBB else 0.
Definition inner_regs (r : Z) : Z := if r =? 5 then 0x7FE8 else if r =? 3 then 0xCCCC else 0.

Definition stack_memory : memory := fun a =>
  if a =? 0x7000 then Some 0x140001050 else if a =? 0x6FF8 then Some 0x7FE8 else if a =? 0x6FD8 then Some 0xCCCC
  else if a =? 0x8000 then Some 0x150000000 else if a =? 0x7FF8 then Some 0xAAAA else if a =? 0x7FD8 then Some 0xBBBB
  else None.

Definition outer_frame : frame := Frame driver image 0 framed 0x8000 outer_regs.
Definition inner_frame : frame := Frame driver image 0 framed 0x7000 inner_regs.

(** Deep in the body, with rsp moved by a dynamic allocation. *)
Definition in_body : unwind_context := Ctx 0x140001080 0x5000 (fun r => if r =? 5 then 0x6FE8 else if r =? 3 then 0x1234 else if r =? 0 then 0x77 else 0) (fun _ => 0).
Definition in_caller : unwind_context := Ctx 0x140001050 0x7008 inner_regs (fun _ => 0).

Lemma framed_described : describes (info_of framed 19 5 1) framed.
Proof.
  split; [reflexivity| | |reflexivity|cbn; lia| |].
  - intros i u H. cbn. unfold codes_of. rewrite Nat2Z.id, H. done.
  - repeat constructor; cbn; lia.
  - repeat constructor; cbn; lia.
  - repeat constructor; cbn; lia.
Qed.

Lemma image_sorted : sorted_functions image.
Proof. split; cbn; intros; [lia|]. change (function_count image) with 1 in *. lia. Qed.

Lemma inner_in_frame : in_frame stack_memory inner_frame in_body.
Proof.
  split; [done|done|cbn; lia|apply image_sorted|by vm_compute|by vm_compute|apply framed_described|done|].
  split; [by vm_compute|by vm_compute|intros [H|H]; by vm_compute in H|reflexivity].
Qed.

Lemma outer_in_frame : in_frame stack_memory outer_frame in_caller.
Proof.
  split; [done|done|cbn; lia|apply image_sorted|by vm_compute|by vm_compute|apply framed_described|done|].
  split; [by vm_compute|by vm_compute|intros [H|H]; by vm_compute in H|reflexivity].
Qed.

Lemma x64_unwind_witness :
  exists res c', unwind_frame documented_slots 1 stack_memory driver in_body = Done (true, res, c') /\
    pc c' = 0x140001050 /\ sp c' = 0x7008 /\ gp c' 5 = 0x7FE8 /\ gp c' 3 = 0xCCCC /\ gp c' 0 = 0x77.
Proof.
  destruct (x64_unwind_correct documented_slots 0 stack_memory inner_frame 0x140001050 in_body documented_slots_ok
    inner_in_frame eq_refl) as (res & c' & E & P & S & _ & _ & G & _).
  exists res, c'. split; [exact E|]. split; [exact P|]. split; [exact S|].
  split; [exact (G 5 ltac:(done))|]. split; [exact (G 3 ltac:(done))|exact (G 0 ltac:(done))].
Defined.

Lemma two_frames : stack_of stack_memory [driver] in_body [(0x140001050, 0x7008); (0x150000000, 0x8008)].
Proof.
  apply (stack_call _ _ in_body inner_frame 0x140001050 (fun _ => 0)); [done|apply inner_in_frame|done|by right| |].
  { intros r Hr Hs. cbn. unfold inner_regs. destruct (Z.eqb_spec r 5) as [->|]; [by vm_compute in Hs|].
    destruct (Z.eqb_spec r 3) as [->|]; [by vm_compute in Hs|]. by destruct (Z.eqb_spec r 0) as [->|]. }
  apply (stack_call _ _ in_caller outer_frame 0x150000000 (fun _ => 0)); [done|apply outer_in_frame|done|by right| |].
  { intros r Hr Hs. cbn. unfold inner_regs, outer_regs. destruct (Z.eqb_spec r 5) as [->|]; [by vm_compute in Hs|].
    destruct (Z.eqb_spec r 3) as [->|]; [by vm_compute in Hs|]. done. }
  by apply stack_base.
Qed.

Lemma walk_stack_witness :
  walk_stack (unwind_frame documented_slots 1) 64 stack_memory [driver] in_body =
    Done [(0x140001080, 0x5000); (0x140001050, 0x7008); (0x150000000, 0x8008)].
Proof. exact (walk_stack_correct documented_slots 0 stack_memory [driver] in_body _ 64 documented_slots_ok two_frames). Defined.

(** ** What the unwinder gets wrong *)

(** push rbp; mov rbp, rsp; sub rsp, 0x20: rsp is taken from rbp, which already is
    where it was before the allocation, and the allocation is undone once more. *)
Definition early_frame : prologue := [(1, Push 5); (4, SetFp); (8, Alloc 4)].
Definition early_driver : proc_module := ProcModule 0x140000000 0x10000 (Some (one_function (info_of early_frame 8 5 0))).
Definition early_body : unwind_context := Ctx 0x140001080 0x6FD8 (fun r => if r =? 5 then 0x6FF8 else 0) (fun _ => 0).

Lemma early_frame_misread :
  (exec 5 0 early_frame.*2 (0x7000, fun _ => 0)).1 = 0x6FD8 /\
  (exec 5 0 early_frame.*2 (0x7000, fun _ => 0)).2 5 = 0x6FF8 /\
  exists res c', unwind_frame documented_slots 1 (fun a => Some a) early_driver early_body = Done (true, res, c') /\ pc c' = 0x7020.
Proof. split; [reflexivity|]. split; [reflexivity|]. by eexists _, _. Qed.

(** A fragment of a function, without a prologue of its own, chained to the info of
    the function, whose prologue is longer than the pc is into the fragment: the
    function's push is not undone. *)
Definition pushes : unwind_info := info_of [(6, Push 3)] 0x10 0 0.
Definition fragment : unwind_info := UnwindInfo 0 0 0 0 (fun _ => operand 0) true false false.
Definition chained_driver : proc_module := ProcModule 0x140000000 0x10000
  (Some (PeX64 true 0x2000 12 (fun _ => RuntimeFunction 0x1000 0x1100 0x3000)
    (fun rva => if rva =? 0x3000 then fragment else pushes) (fun rva i => rva + 4 + 2 * i)
    (fun _ => RuntimeFunction 0x800 0x900 0x3100) (fun _ => 0))).

Lemma chained_prologue_skipped :
  exists res c', unwind_frame documented_slots 2 (fun a => Some a) chained_driver (Ctx 0x140001004 0x6FF8 (fun _ => 0) (fun _ => 0)) =
    Done (true, res, c') /\ sp c' = 0x7000 /\ gp c' 3 = 0.
Proof. by eexists _, _. Qed.

(** push rbx; sub rsp, 0x20, and in the epilogue, after add rsp, 0x20: rsp is where
    rbx lies, and the allocation is undone once more. *)
Definition plain : prologue := [(1, Push 3); (5, Alloc 4)].
Definition plain_driver : proc_module := ProcModule 0x140000000 0x10000 (Some (one_function (info_of plain 5 0 0))).

Lemma epilogue_misread :
  (exec 0 0 [Push 3] (0x7000, fun _ => 0)).1 = 0x6FF8 /\
  exists res c', unwind_frame documented_slots 1 (fun a => Some a) plain_driver (Ctx 0x1400010F0 0x6FF8 (fun _ => 0) (fun _ => 0)) =
    Done (true, res, c') /\ gp c' 3 = 0x7018 /\ pc c' = 0x7020.
Proof. split; [reflexivity|]. by eexists _, _. Qed.
