(* ===== verification/Arm64Unwind.v ===== *)
(** * Stack unwinding, AArch64

    kernel/win/unwind/arm64_unwind.cpp: function lookup, the .xdata header, the
    replayer of the unwind codes, the packed form, and one step of the unwinder.
    The image is the bytes the pe library maps; what the code asks of the library
    itself is the exception directory. *)

From S2P Require Import Prelude Mmu Unwind.
From stdpp Require Import options.

Open Scope Z_scope.
Open Scope kern_scope.

Module A64.

(** ** The image *)

Record runtime_function_arm64 : Type := RuntimeFunctionArm64 { begin_address : Z; unwind_data : Z }.

Record pe_arm64 : Type := PeArm64 {
  exception_used : bool; exception_size : Z;
  function_at : Z -> runtime_function_arm64;
  byte_at : Z -> Z                             (** the image, by rva *)
}.
Record proc_module : Type := ProcModule { addr : Z; pe : option pe_arm64 }.

Definition runtime_function_size : Z := 8.
Definition word_at (img : pe_arm64) (rva : Z) : Z := le_val (map (fun i => byte_at img (rva + Z.of_nat i)) (seq 0 4)).

Definition reg_fp : Z := 29.
Definition reg_lr : Z := 30.
Definition max_gp : Z := 31.
Definition max_fp : Z := 8.

(** Bits [lo .. lo + n - 1]. *)
Definition field (w lo n : Z) : Z := Z.land (Z.shiftr w lo) (2 ^ n - 1).

(** ** The .xdata header; pointers into the image are rvas *)

Record xdata_header : Type := XdataHeader {
  function_length : Z; epilog_count : Z; code_words : Z;
  exception_data : bool; epilog_in_header : bool;
  epilog_scopes : Z; codes : Z; after_codes : Z
}.

Definition code_len (b0 : Z) : Z :=
  if Z.land b0 0x80 =? 0 then 1
  else if Z.land b0 0xC0 =? 0x80 then 1
  else if b0 =? 0xE0 then 4
  else if b0 =? 0xE2 then 2
  else if 0xE1 <=? b0 then 1
  else 2.

Definition parse_xdata (img : pe_arm64) (rva : Z) : option xdata_header :=
  let w0 := word_at img rva in
  let e := negb (field w0 21 1 =? 0) in
  if negb (field w0 18 2 =? 0) then None else
  let extended := (field w0 22 5 =? 0) && (field w0 27 5 =? 0) in
  let w1 := word_at img (rva + 4) in
  let next := if extended then 2 else 1 in
  let epilogs := if extended then field w1 0 16 else field w0 22 5 in
  let words := if extended then field w1 16 8 else field w0 27 5 in
  let scopes := rva + 4 * next in
  let next := if e then next else next + epilogs in
  Some (XdataHeader (field w0 0 18 * 4) epilogs words (negb (field w0 20 1 =? 0)) e
          scopes (rva + 4 * next) (rva + 4 * (next + words))).

(** ** The replayer *)

(** What a code says to do: the branch of [run] it selects, with its operands. *)
Inductive insn : Type :=
  | i_alloc (n : Z)                        (** sp += n *)
  | i_pair (mark : bool) (reg off post : Z)  (** load_pair(reg, off); sp += post *)
  | i_reg (reg off post : Z)
  | i_lrpair (reg off : Z)
  | i_fpair (n off post : Z)
  | i_freg (n off post : Z)
  | i_set_fp
  | i_add_fp (n : Z)
  | i_nop
  | i_end
  | i_save_next
  | i_unhandled.

(** The branches of [run] in their order; the number is how far [i] moves. *)
Definition decode (b0 b1 b2 b3 : Z) : insn * Z :=
  let x := Z.lor (Z.shiftl (Z.land b0 3) 2) (Z.shiftr b1 6) in
  let xf := Z.lor (Z.shiftl (Z.land b0 1) 2) (Z.shiftr b1 6) in
  let z := Z.land b1 0x3F * 8 in
  let z_x := (Z.land b1 0x3F + 1) * 8 in
  if Z.land b0 0xE0 =? 0x00 then (i_alloc (Z.land b0 0x1F * 16), 1)
  else if Z.land b0 0xE0 =? 0x20 then (i_pair false 19 0 (Z.land b0 0x1F * 8), 1)
  else if Z.land b0 0xC0 =? 0x40 then (i_pair false reg_fp (Z.land b0 0x3F * 8) 0, 1)
  else if Z.land b0 0xC0 =? 0x80 then (i_pair false reg_fp 0 ((Z.land b0 0x3F + 1) * 8), 1)
  else if Z.land b0 0xF8 =? 0xC0 then (i_alloc (Z.lor (Z.shiftl (Z.land b0 7) 8) b1 * 16), 2)
  else if Z.land b0 0xFC =? 0xC8 then (i_pair true (19 + x) z 0, 2)
  else if Z.land b0 0xFC =? 0xCC then (i_pair true (19 + x) 0 z_x, 2)
  else if Z.land b0 0xFC =? 0xD0 then (i_reg (19 + x) z 0, 2)
  else if Z.land b0 0xFE =? 0xD4 then
    (i_reg (19 + Z.lor (Z.shiftl (Z.land b0 1) 3) (Z.shiftr b1 5)) 0 ((Z.land b1 0x1F + 1) * 8), 2)
  else if Z.land b0 0xFE =? 0xD6 then (i_lrpair (19 + 2 * xf) z, 2)
  else if Z.land b0 0xFE =? 0xD8 then (i_fpair xf z 0, 2)
  else if Z.land b0 0xFE =? 0xDA then (i_fpair xf 0 z_x, 2)
  else if Z.land b0 0xFE =? 0xDC then (i_freg xf z 0, 2)
  else if b0 =? 0xDE then (i_freg (Z.shiftr b1 5) 0 ((Z.land b1 0x1F + 1) * 8), 2)
  else if b0 =? 0xE0 then (i_alloc (Z.lor (Z.lor (Z.shiftl b1 16) (Z.shiftl b2 8)) b3 * 16), 4)
  else if b0 =? 0xE1 then (i_set_fp, 1)
  else if b0 =? 0xE2 then (i_add_fp (b1 * 8), 2)
  else if b0 =? 0xE3 then (i_nop, 1)
  else if (b0 =? 0xE4) || (b0 =? 0xE5) then (i_end, 1)
  else if b0 =? 0xE6 then (i_save_next, 1)
  else if b0 =? 0xFC then (i_nop, 1)
  else (i_unhandled, 0).

(** The context and where the last pair was: [last_pair_*_]. *)
Record replayer : Type := Replayer {
  ctx_ : unwind_context; last_reg : Z; last_off : Z; last_fp : bool
}.
Definition with_ctx (c : unwind_context) (r : replayer) : replayer := Replayer c (last_reg r) (last_off r) (last_fp r).
Definition mark_pair (reg off : Z) (is_fp : bool) (r : replayer) : replayer := Replayer (ctx_ r) reg off is_fp.

Definition load_reg (mem : memory) (reg off : Z) (c : unwind_context) : outcome unwind_context :=
  if reg <? max_gp then let? v := read_mem mem (sp c +w off) in Done (set_gp reg v c) else Done c.
Definition load_pair (mem : memory) (reg off : Z) (c : unwind_context) : outcome unwind_context :=
  let? c := load_reg mem reg off c in load_reg mem (if reg =? reg_fp then reg_lr else reg + 1) (off + 8) c.
Definition load_fp (mem : memory) (n off : Z) (c : unwind_context) : outcome unwind_context :=
  if n <? max_fp then let? v := read_mem mem (sp c +w off) in Done (set_fp n v c) else Done c.
Definition load_fp_pair (mem : memory) (n off : Z) (c : unwind_context) : outcome unwind_context :=
  let? c := load_fp mem n off c in load_fp mem (n + 1) (off + 8) c.

(** [i_end] and [i_unhandled] stop the loop before this. *)
Definition perform (mem : memory) (op : insn) (r : replayer) : outcome replayer :=
  let c := ctx_ r in
  match op with
  | i_alloc n => Done (with_ctx (add_sp n c) r)
  | i_pair mark reg off post =>
      let? c := load_pair mem reg off c in
      Done (with_ctx (add_sp post c) (if mark then mark_pair reg off false r else r))
  | i_reg reg off post => let? c := load_reg mem reg off c in Done (with_ctx (add_sp post c) r)
  | i_lrpair reg off =>
      let? c := load_reg mem reg off c in
      let? c := load_reg mem reg_lr (off + 8) c in Done (with_ctx c r)
  | i_fpair n off post =>
      let? c := load_fp_pair mem n off c in Done (with_ctx (add_sp post c) (mark_pair n off true r))
  | i_freg n off post => let? c := load_fp mem n off c in Done (with_ctx (add_sp post c) r)
  | i_set_fp => Done (with_ctx (set_sp (gp c reg_fp) c) r)
  | i_add_fp n => Done (with_ctx (set_sp (gp c reg_fp -w n) c) r)
  | i_save_next =>
      let r := mark_pair (last_reg r + 2) (last_off r + 16) (last_fp r) r in
      let? c := (if last_fp r then load_fp_pair mem (last_reg r) (last_off r) c
                 else load_pair mem (last_reg r) (last_off r) c) in
      Done (with_ctx c r)
  | i_nop | i_end | i_unhandled => Done r
  end.

(** [run], on the codes from rva [cs]: false when a code is not known.  Every code
    moves [i], so [size] turns are enough. *)
Fixpoint run (fuel : nat) (mem : memory) (byte : Z -> Z) (cs size i : Z) (r : replayer) : outcome (bool * replayer) :=
  match fuel with
  | O => Looping
  | S fuel =>
      if i <? size then
        let b1 := if i + 1 <? size then byte (cs + i + 1) else 0 in
        let b0 := byte (cs + i) in
        let '(op, n) := decode b0 (if b0 =? 0xE0 then byte (cs + i + 1) else b1) (byte (cs + i + 2)) (byte (cs + i + 3)) in
        match op with
        | i_end => Done (true, r)
        | i_unhandled => Done (false, r)
        | _ => let? r := perform mem op r in run fuel mem byte cs size (i + n) r
        end
      else Done (true, r)
  end.

(** ** Epilogues *)

(** [extent]: how many instructions the codes from [at] on describe. *)
Fixpoint extent (fuel : nat) (byte : Z -> Z) (cs total at_ : Z) : Z :=
  match fuel with
  | O => 0
  | S fuel =>
      if at_ <? total then
        let b0 := byte (cs + at_) in
        if (b0 =? 0xE4) || (b0 =? 0xE5) then 1 else 1 + extent fuel byte cs total (at_ + code_len b0)
      else 0
  end.

Fixpoint find_scope (n : nat) (img : pe_arm64) (hdr : xdata_header) (rva total i : Z) : option (Z * Z) :=
  match n with
  | O => None
  | S n =>
      let word := word_at img (epilog_scopes hdr + 4 * i) in
      let begin := field word 0 18 * 4 in
      let at_ := field word 22 10 in
      if total <=? at_ then find_scope n img hdr rva total (i + 1) else
      let insns := extent (Z.to_nat total) (byte_at img) (codes hdr) total at_ in
      if (begin <=? rva) && (rva <? begin + insns * 4) then Some (at_, (rva - begin) / 4)
      else find_scope n img hdr rva total (i + 1)
  end.

Definition find_epilog (img : pe_arm64) (hdr : xdata_header) (rva total : Z) : option (Z * Z) :=
  if epilog_in_header hdr then
    let at_ := epilog_count hdr in
    if total <=? at_ then None else
    let insns := extent (Z.to_nat total) (byte_at img) (codes hdr) total at_ in
    let begin := u32 (function_length hdr - insns * 4) in
    if (begin <=? rva) && (rva <? function_length hdr) then Some (at_, (rva - begin) / 4) else None
  else find_scope (Z.to_nat (epilog_count hdr)) img hdr rva total 0.

(** The codes of the instructions of the epilogue that already ran are skipped. *)
Fixpoint skip_codes (k : nat) (byte : Z -> Z) (cs total start : Z) : Z :=
  match k with
  | O => start
  | S k => if start <? total then skip_codes k byte cs total (start + code_len (byte (cs + start))) else start
  end.

(** ** The packed form *)

Fixpoint load_gps (mem : memory) (n : nat) (reg off : Z) (c : unwind_context) : outcome unwind_context :=
  match n with
  | O => Done c
  | S n => let? v := read_mem mem (sp c +w off) in load_gps mem n (reg + 1) (off + 8) (set_gp reg v c)
  end.
Fixpoint load_fps (mem : memory) (n : nat) (reg off : Z) (c : unwind_context) : outcome unwind_context :=
  match n with
  | O => Done c
  | S n => let? v := read_mem mem (sp c +w off) in load_fps mem n (reg + 1) (off + 8) (set_fp reg v c)
  end.

Definition apply_packed (mem : memory) (packed : Z) (c : unwind_context) : outcome (bool * unwind_context) :=
  let reg_f := field packed 13 3 in
  let reg_i := field packed 16 4 in
  let h := field packed 20 1 in
  let cr := field packed 21 2 in
  let frame_size := field packed 23 9 * 16 in
  let fp_count := if reg_f =? 0 then 0 else reg_f + 1 in
  let chained := (cr =? 2) || (cr =? 3) in
  let lr_saved := cr =? 1 in
  let lr_slots := if lr_saved then 1 else 0 in
  let saved_size := align_up (8 * (reg_i + lr_slots + fp_count) + (if h =? 0 then 0 else 64)) 16 in
  if negb chained && (frame_size <? saved_size) then Done (false, c) else
  let? c := (if chained then load_pair mem reg_fp 0 c else Done c) in
  let area := if chained then 0x10 else frame_size - saved_size in
  let? c := load_gps mem (Z.to_nat reg_i) 19 area c in
  let? c := (if lr_saved then load_reg mem reg_lr (area + 8 * reg_i) c else Done c) in
  let? c := load_fps mem (Z.to_nat (Z.min fp_count max_fp)) 0 (area + 8 * (reg_i + lr_slots)) c in
  Done (true, add_sp frame_size c).

(** ** One step *)

Record arm64_function_entry : Type := FunctionEntry { begin_rva : Z; length_ : Z; data : Z; packed : bool }.

(** The first entry that begins after [rva]. *)
Fixpoint upper_bound (fuel : nat) (img : pe_arm64) (rva lo hi : Z) : outcome Z :=
  match fuel with
  | O => Looping
  | S fuel =>
      if lo <? hi then
        let mid := lo + (hi - lo) / 2 in
        if begin_address (function_at img mid) <=? rva then upper_bound fuel img rva (mid + 1) hi
        else upper_bound fuel img rva lo mid
      else Done lo
  end.

Definition function_count (img : pe_arm64) : Z := exception_size img / runtime_function_size.

Definition lookup_function_entry (mod_ : proc_module) (pc_ : Z) : outcome (option arm64_function_entry) :=
  match pe mod_ with
  | None => Done None
  | Some img =>
      if negb (exception_used img) then Done None else
      let rva := u32 (pc_ - addr mod_) in
      let? lo := upper_bound (S (Z.to_nat (function_count img))) img rva 0 (function_count img) in
      if lo =? 0 then Done None else
      let entry := function_at img (lo - 1) in
      let packed := negb (Z.land (unwind_data entry) 3 =? 0) in
      let len := if packed then field (unwind_data entry) 2 11 * 4 else field (word_at img (unwind_data entry)) 0 18 * 4 in
      if u32 (begin_address entry + len) <=? rva then Done None
      else Done (Some (FunctionEntry (begin_address entry) len (unwind_data entry) packed))
  end.

(** The return address is in the link register; zero ends the walk. *)
Definition return_to_lr (res : unwind_result) (c : unwind_context) : outcome (bool * unwind_result * unwind_context) :=
  Done (negb (gp c reg_lr =? 0), res, set_pc (gp c reg_lr) c).

Definition unwind_frame (mem : memory) (mod_ : proc_module) (c : unwind_context) :
    outcome (bool * unwind_result * unwind_context) :=
  let? func := lookup_function_entry mod_ (pc c) in
  let res := UnwindResult 0 0 (sp c) 0 in
  match func, pe mod_ with
  | Some func, Some img =>
      if pc c =? addr mod_ +w begin_rva func then return_to_lr res c
      else if packed func then
        let? (ok, c) := apply_packed mem (data func) c in
        if ok then return_to_lr res c else Done (false, res, c)
      else
        match parse_xdata img (data func) with
        | None => Done (false, res, c)
        | Some hdr =>
            let rva := u32 (u32 (pc c - addr mod_) - begin_rva func) in
            let total := code_words hdr * 4 in
            let start :=
              match find_epilog img hdr rva total with
              | Some (at_, k) => skip_codes (Z.to_nat k) (byte_at img) (codes hdr) total at_
              | None => 0
              end in
            let? (ok, r) := run (S (Z.to_nat total)) mem (byte_at img) (codes hdr + start) (total - start) 0
                              (Replayer c 19 0 false) in
            if ok then
              let res :=
                if exception_data hdr
                then UnwindResult (addr mod_ +w word_at img (after_codes hdr)) (addr mod_ +w (after_codes hdr + 4)) (sp c) 0
                else res in
              return_to_lr res (ctx_ r)
            else Done (false, res, ctx_ r)
        end
  | _, _ => return_to_lr res c
  end.

End A64.
