(* ===== verification/Arm64UnwindThm.v ===== *)
(** * AArch64 unwinding undoes what a prologue did

    The instructions of a prologue, the unwind codes that describe them, that the
    replayer reads every code back as its instruction, and that one step of the
    unwinder, from the body or from anywhere in an epilogue, restores the caller. *)

From stdpp Require Import list.
From S2P Require Import Prelude Mmu Unwind UnwindThm Arm64Unwind.
From stdpp Require Import options.

Open Scope Z_scope.
Open Scope kern_scope.

Module A64Thm.
Import A64.

(** ** Prologues *)

(** Offsets and sizes are in the units of the codes. *)
Inductive prolog_op : Type :=
  | Sub (n : Z)            (** sub sp, sp, #16*n *)
  | R19R20Pre (z : Z)      (** stp x19, x20, [sp, #-8*z]! *)
  | FpLr (z : Z)           (** stp x29, lr, [sp, #8*z] *)
  | FpLrPre (z : Z)        (** stp x29, lr, [sp, #-8*(z+1)]! *)
  | Stp (x z : Z)          (** stp x(19+x), x(20+x), [sp, #8*z] *)
  | StpPre (x z : Z)
  | Str (x z : Z)          (** str x(19+x), [sp, #8*z] *)
  | StrPre (x z : Z)
  | StpLr (x z : Z)        (** stp x(19+2*x), lr, [sp, #8*z] *)
  | StpD (x z : Z)         (** stp d(8+x), d(9+x), [sp, #8*z] *)
  | StpDPre (x z : Z)
  | StrD (x z : Z)         (** str d(8+x), [sp, #8*z] *)
  | StrDPre (x z : Z)
  | MovFp                  (** mov x29, sp *)
  | AddFp (z : Z)          (** add x29, sp, #8*z *)
  | Nop
  | Pac.                   (** pacibsp *)

Definition rng (x hi : Z) : bool := (0 <=? x) && (x <? hi).
Definition op_ok (op : prolog_op) : bool :=
  match op with
  | Sub n => rng n (2 ^ 24)
  | R19R20Pre z => rng z 32
  | FpLr z | FpLrPre z => rng z 64
  | Stp x z | StpPre x z => rng x 11 && rng z 64
  | Str x z => rng x 12 && rng z 64
  | StrPre x z => rng x 12 && rng z 32
  | StpLr x z => rng x 6 && rng z 64
  | StpD x z | StpDPre x z => rng x 7 && rng z 64
  | StrD x z => rng x 8 && rng z 64
  | StrDPre x z => rng x 8 && rng z 32
  | AddFp z => rng z 256
  | MovFp | Nop | Pac => true
  end.

(** The bytes that describe an instruction. *)
Definition encode_op (op : prolog_op) : list Z :=
  match op with
  | Sub n => if n <? 32 then [n] else if n <? 2048 then [0xC0 + n / 256; n mod 256]
             else [0xE0; n / 65536; n / 256 mod 256; n mod 256]
  | R19R20Pre z => [0x20 + z]
  | FpLr z => [0x40 + z]
  | FpLrPre z => [0x80 + z]
  | Stp x z => [0xC8 + x / 4; x mod 4 * 64 + z]
  | StpPre x z => [0xCC + x / 4; x mod 4 * 64 + z]
  | Str x z => [0xD0 + x / 4; x mod 4 * 64 + z]
  | StrPre x z => [0xD4 + x / 8; x mod 8 * 32 + z]
  | StpLr x z => [0xD6 + x / 4; x mod 4 * 64 + z]
  | StpD x z => [0xD8 + x / 4; x mod 4 * 64 + z]
  | StpDPre x z => [0xDA + x / 4; x mod 4 * 64 + z]
  | StrD x z => [0xDC + x / 4; x mod 4 * 64 + z]
  | StrDPre x z => [0xDE; x * 32 + z]
  | MovFp => [0xE1]
  | AddFp z => [0xE2; z]
  | Nop => [0xE3]
  | Pac => [0xFC]
  end.
Definition encode (ops : list prolog_op) : list Z := flat_map encode_op ops.

Definition insn_of (op : prolog_op) : insn :=
  match op with
  | Sub n => i_alloc (n * 16)
  | R19R20Pre z => i_pair false 19 0 (z * 8)
  | FpLr z => i_pair false reg_fp (z * 8) 0
  | FpLrPre z => i_pair false reg_fp 0 ((z + 1) * 8)
  | Stp x z => i_pair true (19 + x) (z * 8) 0
  | StpPre x z => i_pair true (19 + x) 0 ((z + 1) * 8)
  | Str x z => i_reg (19 + x) (z * 8) 0
  | StrPre x z => i_reg (19 + x) 0 ((z + 1) * 8)
  | StpLr x z => i_lrpair (19 + 2 * x) (z * 8)
  | StpD x z => i_fpair x (z * 8) 0
  | StpDPre x z => i_fpair x 0 ((z + 1) * 8)
  | StrD x z => i_freg x (z * 8) 0
  | StrDPre x z => i_freg x 0 ((z + 1) * 8)
  | MovFp => i_set_fp
  | AddFp z => i_add_fp (z * 8)
  | Nop | Pac => i_nop
  end.

(** *** Reading a code back *)

#[export] Instance insn_eq_dec : EqDecision insn.
Proof. solve_decision. Defined.

Definition nth0 (i : nat) (l : list Z) : Z := default 0 (l !! i).
Definition reads_back (op : prolog_op) : bool :=
  let e := encode_op op in
  bool_decide (decode (nth0 0 e) (nth0 1 e) 0 0 = (insn_of op, Z.of_nat (length e)) /\
               code_len (nth0 0 e) = Z.of_nat (length e)) && negb (nth0 0 e =? 0xE0).

Definition upto (n : Z) : list Z := map Z.of_nat (seq 0 (Z.to_nat n)).

Lemma rng_upto x n : rng x n = true -> In x (upto n).
Proof.
  unfold rng, upto. intros H. apply andb_true_iff in H as [H1 H2]. apply Z.leb_le in H1. apply Z.ltb_lt in H2.
  apply in_map_iff. exists (Z.to_nat x). split; [lia|]. apply in_seq. lia.
Qed.

(** Every code but the four-byte one, checked on all its operands. *)
Definition one_operand : list ((Z -> prolog_op) * Z) :=
  [(Sub, 2048); (R19R20Pre, 32); (FpLr, 64); (FpLrPre, 64); (AddFp, 256); (fun _ => MovFp, 1); (fun _ => Nop, 1); (fun _ => Pac, 1)].
Definition two_operands : list ((Z -> Z -> prolog_op) * (Z * Z)) :=
  [(Stp, (11, 64)); (StpPre, (11, 64)); (Str, (12, 64)); (StrPre, (12, 32)); (StpLr, (6, 64)); (StpD, (7, 64));
   (StpDPre, (7, 64)); (StrD, (8, 64)); (StrDPre, (8, 32))].

Lemma all_read_back :
  forallb (fun '(f, n) => forallb (fun z => reads_back (f z)) (upto n)) one_operand &&
  forallb (fun '(f, (m, n)) => forallb (fun x => forallb (fun z => reads_back (f x z)) (upto n)) (upto m)) two_operands = true.
Proof. vm_compute. reflexivity. Qed.

Lemma reads_back_1 f n z : In (f, n) one_operand -> rng z n = true -> reads_back (f z) = true.
Proof.
  intros Hin Hz. pose proof all_read_back as H. apply andb_true_iff in H as [H _]. rewrite forallb_forall in H.
  specialize (H _ Hin). cbn in H. rewrite forallb_forall in H. by apply H, rng_upto.
Qed.

Lemma reads_back_2 f m n x z : In (f, (m, n)) two_operands -> rng x m && rng z n = true -> reads_back (f x z) = true.
Proof.
  intros Hin Hz. apply andb_true_iff in Hz as [Hx Hz].
  pose proof all_read_back as H. apply andb_true_iff in H as [_ H]. rewrite forallb_forall in H.
  specialize (H _ Hin). cbn in H. rewrite forallb_forall in H. specialize (H x (rng_upto _ _ Hx)).
  rewrite forallb_forall in H. by apply H, rng_upto.
Qed.

Lemma most_read_back op : op_ok op = true -> (forall n, op = Sub n -> n < 2048) -> reads_back op = true.
Proof.
  intros Hok Hn. destruct op; cbn in Hok.
  all: try (eapply reads_back_2; [|exact Hok]; cbn; tauto).
  all: try (eapply reads_back_1; [|exact Hok]; cbn; tauto).
  - apply (reads_back_1 Sub 2048); [cbn; tauto|]. specialize (Hn n eq_refl). unfold rng in *. lia.
  - vm_compute. reflexivity.
  - vm_compute. reflexivity.
  - vm_compute. reflexivity.
Qed.

(** Only the four-byte code looks beyond its second byte. *)
Lemma decode_short b0 b1 b2 b3 : b0 <> 0xE0 -> decode b0 b1 b2 b3 = decode b0 b1 0 0.
Proof. intros H. unfold decode. rewrite (proj2 (Z.eqb_neq _ _) H). done. Qed.

Lemma decode_single b0 b1 : (decode b0 0 0 0).2 = 1 -> decode b0 b1 0 0 = decode b0 0 0 0.
Proof. unfold decode. repeat case_match; cbn; done || lia. Qed.

Lemma byte_bits n : 0 <= n < 2 ^ 24 -> Z.lor (Z.lor (Z.shiftl (n / 65536) 16) (Z.shiftl (n / 256 mod 256) 8)) (n mod 256) = n.
Proof.
  intros Hn. change 65536 with (2 ^ 16). change 256 with (2 ^ 8). apply Z.bits_inj'. intros i Hi.
  rewrite !Z.lor_spec, !Z.shiftl_spec by lia. destruct (Z.lt_ge_cases i 8).
  - rewrite !(Z.testbit_neg_r _ (i - _)) by lia. rewrite Z.mod_pow2_bits_low by lia. done.
  - rewrite (Z.mod_pow2_bits_high n) by lia. rewrite orb_false_r. destruct (Z.lt_ge_cases i 16).
    + rewrite (Z.testbit_neg_r _ (i - 16)) by lia. rewrite Z.mod_pow2_bits_low, Z.div_pow2_bits by lia. cbn. f_equal. lia.
    + rewrite (Z.mod_pow2_bits_high (n / 2 ^ 8)) by lia. rewrite Z.div_pow2_bits by lia. rewrite orb_false_r. f_equal. lia.
Qed.

(** What the replayer is handed at the first byte of an encoded instruction. *)
Lemma decode_encoded op byte at_ : op_ok op = true ->
  (forall k b, encode_op op !! k = Some b -> byte (at_ + Z.of_nat k) = b) ->
  (forall b1, (1 < length (encode_op op))%nat -> b1 = byte (at_ + 1) ->
     decode (byte at_) b1 (byte (at_ + 2)) (byte (at_ + 3)) = (insn_of op, Z.of_nat (length (encode_op op)))) /\
  (forall b1, length (encode_op op) = 1%nat ->
     decode (byte at_) b1 (byte (at_ + 2)) (byte (at_ + 3)) = (insn_of op, 1)) /\
  code_len (byte at_) = Z.of_nat (length (encode_op op)).
Proof.
  intros Hok Hb. pose proof (fun b H => Hb 0%nat b H) as H0. change (Z.of_nat 0) with 0 in H0. rewrite Z.add_0_r in H0.
  pose proof (fun b H => Hb 1%nat b H) as H1. change (Z.of_nat 1) with 1 in H1.
  destruct (match op with Sub n => 2048 <=? n | _ => false end) eqn:Elong.
  - destruct op as [n| | | | | | | | | | | | | | | | ]; try done. apply Z.leb_le in Elong as Hn.
    cbn [encode_op op_ok] in *. unfold rng in Hok. rewrite (proj2 (Z.ltb_ge n 32)) in * by lia.
    rewrite (proj2 (Z.ltb_ge n 2048)) in * by lia.
    rewrite (H0 _ eq_refl). split_and!; [|done|done]. intros b1 _ ->. rewrite (H1 _ eq_refl).
    rewrite (Hb 2%nat _ eq_refl : byte (at_ + 2) = _), (Hb 3%nat _ eq_refl : byte (at_ + 3) = _).
    change (decode 0xE0 (n / 65536) (n / 256 mod 256) (n mod 256)) with
      (i_alloc (Z.lor (Z.lor (Z.shiftl (n / 65536) 16) (Z.shiftl (n / 256 mod 256) 8)) (n mod 256) * 16), 4).
    by rewrite byte_bits by lia.
  - assert (reads_back op = true) as Hr.
    { apply most_read_back; [done|]. intros n ->. by apply Z.leb_gt. }
    unfold reads_back in Hr. apply andb_true_iff in Hr as [Hr Hne]. apply bool_decide_eq_true in Hr as [Hr Hc].
    apply negb_true_iff, Z.eqb_neq in Hne.
    assert (byte at_ = nth0 0 (encode_op op)) as Hz.
    { unfold nth0. destruct (encode_op op !! 0%nat) eqn:E; [by apply H0|]. exfalso. apply lookup_ge_None in E.
      destruct op; cbn in E; repeat case_match; cbn in E; lia. }
    rewrite Hz. split_and!; [|intros b1 Hl|done].
    + intros b1 Hl ->. rewrite decode_short by done.
      assert (byte (at_ + 1) = nth0 1 (encode_op op)) as ->; [|done].
      unfold nth0. destruct (encode_op op !! 1%nat) eqn:E; [by apply H1|]. apply lookup_ge_None in E. lia.
    + rewrite decode_short by done. unfold nth0 at 2 in Hr. rewrite (lookup_ge_None_2 _ 1) in Hr by lia. cbn in Hr.
      rewrite decode_single by (by rewrite Hr; cbn; rewrite Hl). by rewrite Hr, Hl.
Qed.

(** *** Running a prologue *)

(** The registers a prologue saves: x19 up with x29 and the link register, d8 up. *)
Inductive areg : Type := G (r : Z) | F (n : Z).
#[export] Instance areg_eq_dec : EqDecision areg.
Proof. solve_decision. Defined.

Definition val (c : unwind_context) (q : areg) : Z := match q with G r => gp c r | F n => fp_regs c n end.

(** How far an instruction moves sp down first, and what it then stores, where. *)
Definition pre (op : prolog_op) : Z :=
  match op with
  | Sub n => n * 16
  | R19R20Pre z => z * 8
  | FpLrPre z | StpPre _ z | StrPre _ z | StpDPre _ z | StrDPre _ z => (z + 1) * 8
  | _ => 0
  end.
Definition slots (op : prolog_op) : list (areg * Z) :=
  match op with
  | R19R20Pre _ => [(G 19, 0); (G 20, 8)]
  | FpLr z => [(G 29, z * 8); (G 30, z * 8 + 8)]
  | FpLrPre _ => [(G 29, 0); (G 30, 8)]
  | Stp x z => [(G (19 + x), z * 8); (G (19 + x + 1), z * 8 + 8)]
  | StpPre x _ => [(G (19 + x), 0); (G (19 + x + 1), 8)]
  | Str x z => [(G (19 + x), z * 8)]
  | StrPre x _ => [(G (19 + x), 0)]
  | StpLr x z => [(G (19 + 2 * x), z * 8); (G 30, z * 8 + 8)]
  | StpD x z => [(F x, z * 8); (F (x + 1), z * 8 + 8)]
  | StpDPre x _ => [(F x, 0); (F (x + 1), 8)]
  | StrD x z => [(F x, z * 8)]
  | StrDPre x _ => [(F x, 0)]
  | Sub _ | MovFp | AddFp _ | Nop | Pac => []
  end.
Definition sets_fp (op : prolog_op) : option Z :=
  match op with MovFp => Some 0 | AddFp z => Some (z * 8) | _ => None end.

Definition state : Type := Z * (areg -> Z).
Definition exec_op (op : prolog_op) (s : state) : state :=
  (s.1 -w pre op,
   match sets_fp op with Some n => fun q => if decide (q = G 29) then s.1 +w n else s.2 q | None => s.2 end).
Definition exec (ops : list prolog_op) (s : state) : state := foldl (fun s op => exec_op op s) s ops.

Definition saves (op : prolog_op) (q : areg) : bool := existsb (fun p => bool_decide (p.1 = q)) (slots op).
Definition saved (ops : list prolog_op) (q : areg) : bool := existsb (fun op => saves op q) ops.

(** What an instruction stored is still there. *)
Definition keeps (mem : memory) (op : prolog_op) (s : state) : Prop :=
  Forall (fun p => mem ((exec_op op s).1 +w p.2) = Some (s.2 p.1)) (slots op).
Fixpoint intact (mem : memory) (ops : list prolog_op) (s : state) : Prop :=
  match ops with [] => True | op :: ops => keeps mem op s /\ intact mem ops (exec_op op s) end.

(** *** Undoing one instruction *)

Lemma val_set_gp r v c q : val (set_gp r v c) q = if decide (q = G r) then v else val c q.
Proof. destruct q as [r'|n]; cbn; [|done]. destruct (Z.eqb_spec r' r) as [->|]; case_decide; congruence. Qed.
Lemma val_set_fp r v c q : val (set_fp r v c) q = if decide (q = F r) then v else val c q.
Proof. destruct q as [r'|n]; cbn; [done|]. destruct (Z.eqb_spec n r) as [->|]; case_decide; congruence. Qed.
Lemma val_add_sp n c q : val (add_sp n c) q = val c q.
Proof. by destruct q. Qed.

Lemma load_reg_ok mem reg off c v :
  reg < 31 -> mem (sp c +w off) = Some v -> load_reg mem reg off c = Done (set_gp reg v c).
Proof. intros H E. unfold load_reg, max_gp, read_mem. rewrite (proj2 (Z.ltb_lt _ _)) by done. by rewrite E. Qed.
Lemma load_fp_ok mem n off c v :
  n < 8 -> mem (sp c +w off) = Some v -> load_fp mem n off c = Done (set_fp n v c).
Proof. intros H E. unfold load_fp, max_fp, read_mem. rewrite (proj2 (Z.ltb_lt _ _)) by done. by rewrite E. Qed.

Lemma load_pair_ok mem reg off c v w :
  reg < 30 -> mem (sp c +w off) = Some v -> mem (sp c +w (off + 8)) = Some w ->
  load_pair mem reg off c = Done (set_gp (reg + 1) w (set_gp reg v c)).
Proof.
  intros H E1 E2. unfold load_pair. rewrite (load_reg_ok mem reg off c v) by (done || lia). cbn [obind].
  destruct (Z.eqb_spec reg reg_fp) as [->|]; by apply load_reg_ok; [unfold reg_lr; lia|].
Qed.
Lemma load_fp_pair_ok mem n off c v w :
  n < 7 -> mem (sp c +w off) = Some v -> mem (sp c +w (off + 8)) = Some w ->
  load_fp_pair mem n off c = Done (set_fp (n + 1) w (set_fp n v c)).
Proof.
  intros H E1 E2. unfold load_fp_pair. rewrite (load_fp_ok mem n off c v) by (done || lia). cbn [obind].
  apply load_fp_ok; [lia|done].
Qed.

Lemma add_sp_0 x : in_u64 x -> x +w 0 = x.
Proof. intros H. rewrite Z.add_0_r. by apply u64_small. Qed.

Ltac same_val := intros q; cbn [ctx_ with_ctx mark_pair]; rewrite ?val_add_sp, ?val_set_gp, ?val_set_fp;
  unfold saves; cbn; repeat (case_decide || case_bool_decide); simplify_eq; done.

(** A store undone: sp is back, and what was stored is in its registers. *)
Lemma perform_store mem op r s :
  op_ok op = true -> sets_fp op = None -> keeps mem op s -> in_u64 (sp (ctx_ r)) -> sp (ctx_ r) = (exec_op op s).1 ->
  exists r', perform mem (insn_of op) r = Done r' /\ sp (ctx_ r') = sp (ctx_ r) +w pre op /\
    forall q, val (ctx_ r') q = if saves op q then s.2 q else val (ctx_ r) q.
Proof.
  intros Hok Hfp Hk Hr Hsp. unfold keeps in Hk. rewrite <- Hsp in Hk. clear Hsp.
  destruct op; cbn [sets_fp op_ok] in *; try done; unfold rng in Hok; cbn [slots] in Hk.
  all: repeat match type of Hk with
    | Forall _ (_ :: _) => let H := fresh "Hm" in inversion_clear Hk as [|? ? H Hk']; rename Hk' into Hk; cbn in H
    end.
  all: cbn [insn_of perform]; unfold reg_fp in *.
  - eexists. split_and!; [done|done|same_val].
  - erewrite load_pair_ok by (lia || eassumption). eexists. split_and!; [done|done|same_val].
  - erewrite load_pair_ok by (lia || eassumption). eexists. split_and!; [done|done|same_val].
  - erewrite load_pair_ok by (lia || eassumption). eexists. split_and!; [done|done|same_val].
  - erewrite load_pair_ok by (lia || eassumption). eexists. split_and!; [done|done|same_val].
  - erewrite load_pair_ok by (lia || eassumption). eexists. split_and!; [done|done|same_val].
  - erewrite load_reg_ok by (lia || eassumption). eexists. split_and!; [done|done|same_val].
  - erewrite load_reg_ok by (lia || eassumption). eexists. split_and!; [done|done|same_val].
  - erewrite load_reg_ok by (lia || eassumption). cbn [obind].
    erewrite (load_reg_ok mem reg_lr) by (unfold reg_lr; lia || eassumption).
    eexists. split_and!; [done|by rewrite add_sp_0|unfold reg_lr; same_val].
  - erewrite load_fp_pair_ok by (lia || eassumption). eexists. split_and!; [done|done|same_val].
  - erewrite load_fp_pair_ok by (lia || eassumption). eexists. split_and!; [done|done|same_val].
  - erewrite load_fp_ok by (lia || eassumption). eexists. split_and!; [done|done|same_val].
  - erewrite load_fp_ok by (lia || eassumption). eexists. split_and!; [done|done|same_val].
  - eexists. split_and!; [done|by rewrite add_sp_0|same_val].
  - eexists. split_and!; [done|by rewrite add_sp_0|same_val].
Qed.

(** *** Undoing a prologue *)

(** The frame pointer is set at most once, and not saved after that. *)
Definition is_set_fp (op : prolog_op) : bool := match sets_fp op with Some _ => true | None => false end.
Fixpoint frame_ok (ops : list prolog_op) : bool :=
  match ops with
  | [] => true
  | op :: ops =>
      if is_set_fp op then forallb (fun o => negb (is_set_fp o) && negb (saves o (G 29))) ops else frame_ok ops
  end.

Lemma frame_ok_snoc ops op :
  frame_ok (ops ++ [op]) = true ->
  frame_ok ops = true /\ (existsb is_set_fp ops = true -> is_set_fp op = false /\ saves op (G 29) = false).
Proof.
  induction ops as [|o ops IH]; cbn; [done|]. destruct (is_set_fp o) eqn:E; [|by rewrite orb_false_l].
  rewrite forallb_app. intros H. apply andb_true_iff in H as [H1 H2]. split; [done|]. intros _. cbn in H2.
  rewrite andb_true_r in H2. by apply andb_true_iff in H2 as [?%negb_true_iff ?%negb_true_iff].
Qed.

Lemma prolog_intact_app mem ops ops' s : intact mem (ops ++ ops') s <-> intact mem ops s /\ intact mem ops' (exec ops s).
Proof. revert s. induction ops as [|op ops IH]; intros s; cbn; [tauto|]. rewrite IH. unfold exec. cbn. tauto. Qed.
Lemma prolog_exec_app ops ops' s : exec (ops ++ ops') s = exec ops' (exec ops s).
Proof. apply foldl_app. Qed.
Lemma exec_snoc ops op s : exec (ops ++ [op]) s = exec_op op (exec ops s).
Proof. by rewrite prolog_exec_app. Qed.
Lemma saved_snoc ops op q : saved (ops ++ [op]) q = saved ops q || saves op q.
Proof. unfold saved. rewrite existsb_app. cbn. by rewrite orb_false_r. Qed.

Lemma exec_range ops s : in_u64 s.1 -> in_u64 (exec ops s).1.
Proof. destruct ops as [|op ops _] using rev_ind; [done|]. intros _. rewrite exec_snoc. apply u64_range. Qed.

Lemma exec_keeps ops s q : q <> G 29 \/ existsb is_set_fp ops = false -> (exec ops s).2 q = s.2 q.
Proof.
  revert s. induction ops as [|op ops IH]; intros s H; [done|]. cbn [exec foldl]. fold (exec ops (exec_op op s)). rewrite IH.
  - cbn. unfold is_set_fp in H. cbn in H. destruct (sets_fp op); [|done]. case_decide; [|done]. by destruct H.
  - destruct H as [?|H]; [by left|]. right. cbn in H. by apply orb_false_iff in H as [_ ?].
Qed.

(** Where the replayer can start: sp is where the prologue left it, or the last
    instruction set the frame pointer; and the frame pointer, once set, is. *)
Definition located (ops : list prolog_op) (s : state) (c : unwind_context) : Prop :=
  in_u64 (sp c) /\
  (sp c = (exec ops s).1 \/ exists front op, ops = front ++ [op] /\ is_set_fp op = true) /\
  (existsb is_set_fp ops = true -> gp c 29 = (exec ops s).2 (G 29)).

Lemma perform_set_fp mem op n r s :
  sets_fp op = Some n -> in_u64 s.1 -> gp (ctx_ r) 29 = (exec_op op s).2 (G 29) ->
  exists r', perform mem (insn_of op) r = Done r' /\ sp (ctx_ r') = s.1 /\ forall q, val (ctx_ r') q = val (ctx_ r) q.
Proof.
  intros Hf Hs Hg. unfold exec_op in Hg. cbn in Hg. rewrite Hf in Hg.
  destruct op; try done; cbn in Hf; injection Hf as <-; cbn [insn_of perform]; eexists; split_and!; [done| |by intros []|done| |by intros []];
    cbn; unfold reg_fp; rewrite Hg; cbn.
  - rewrite Z.add_0_r. by apply u64_small.
  - by apply u64_add_sub.
Qed.

Lemma undo_last mem ops op r s :
  op_ok op = true -> frame_ok (ops ++ [op]) = true -> in_u64 s.1 -> keeps mem op (exec ops s) -> located (ops ++ [op]) s (ctx_ r) ->
  exists r', perform mem (insn_of op) r = Done r' /\ located ops s (ctx_ r') /\ sp (ctx_ r') = (exec ops s).1 /\
    forall q, val (ctx_ r') q = if saves op q then (exec ops s).2 q else val (ctx_ r) q.
Proof.
  intros Hok Hf Hs Hk (Hr & Hsp & Hg). pose proof (exec_range ops s Hs) as Hrange.
  apply frame_ok_snoc in Hf as [_ Hf]. rewrite existsb_app in Hg. cbn in Hg. rewrite orb_false_r in Hg.
  rewrite exec_snoc in Hg, Hsp. destruct (sets_fp op) as [n|] eqn:En.
  - assert (is_set_fp op = true) as Eop by (unfold is_set_fp; by rewrite En).
    destruct (perform_set_fp mem op n r (exec ops s) En Hrange ltac:(apply Hg; rewrite Eop; apply orb_true_r)) as (r' & E & S & V).
    exists r'. split_and!; [done| |done|].
    + split_and!; [by rewrite S|by left|]. intros Hset. destruct (Hf Hset). congruence.
    + intros q. rewrite V. destruct op; try done.
  - assert (is_set_fp op = false) as Eop by (unfold is_set_fp; by rewrite En).
    destruct Hsp as [Hsp|(front & o & Heq & Ho)]; [|apply app_inj_tail in Heq as [_ <-]; congruence].
    destruct (perform_store mem op r (exec ops s) Hok En Hk Hr Hsp) as (r' & E & S & V).
    assert (sp (ctx_ r') = (exec ops s).1) as S' by (rewrite S, Hsp; by apply u64_sub_add).
    exists r'. split_and!; [done| |done|done]. split_and!; [by rewrite S'|by left|]. intros Hset.
    specialize (V (G 29)). cbn [val] in V. rewrite V. destruct (Hf Hset) as [_ ->]. rewrite Hg by (by rewrite Hset).
    unfold exec_op. cbn. by rewrite En.
Qed.

(** ** Replaying encoded codes *)

Definition bytes_at (byte : Z -> Z) (at_ : Z) (l : list Z) : Prop :=
  forall k b, l !! k = Some b -> byte (at_ + Z.of_nat k) = b.

Lemma bytes_at_app byte at_ l l' :
  bytes_at byte at_ (l ++ l') -> bytes_at byte at_ l /\ bytes_at byte (at_ + Z.of_nat (length l)) l'.
Proof.
  intros H. split; intros k b Hk.
  - apply H. by apply lookup_app_l_Some.
  - rewrite <- Z.add_assoc, <- Nat2Z.inj_add. apply H. rewrite lookup_app_r by lia. by replace (length l + k - length l)%nat with k by lia.
Qed.

Lemma encode_op_length op : (length (encode_op op) = 1 \/ 1 < length (encode_op op))%nat.
Proof. destruct op; cbn; repeat case_match; cbn; lia. Qed.

(** One turn of [run] at an encoded instruction performs it. *)
Lemma run_step fuel mem byte cs size i op r :
  op_ok op = true -> bytes_at byte (cs + i) (encode_op op) -> 0 <= i -> i + Z.of_nat (length (encode_op op)) <= size ->
  run (S fuel) mem byte cs size i r =
    let? r := perform mem (insn_of op) r in run fuel mem byte cs size (i + Z.of_nat (length (encode_op op))) r.
Proof.
  intros Hok Hb Hi Hs. destruct (decode_encoded op byte (cs + i) Hok Hb) as (Hlong & Hone & _). cbn [run].
  assert (forall x, match insn_of op with i_end => Done (true, r) | i_unhandled => Done (false, r) | _ => x end = x) as Hm
    by (intros x; by destruct op).
  rewrite (proj2 (Z.ltb_lt i size)) by (destruct (encode_op_length op); lia). rewrite <- !Z.add_assoc in *.
  destruct (encode_op_length op) as [H1|H1].
  - rewrite (Hone _ H1). rewrite H1. apply Hm.
  - rewrite (proj2 (Z.ltb_lt (i + 1) size)) by lia. rewrite (Hlong _ H1) by (by destruct (_ =? 0xE0)). apply Hm.
Qed.

Lemma run_encoded mem byte cs size s : forall ops fuel i r,
  forallb op_ok ops = true -> frame_ok ops = true -> in_u64 s.1 -> intact mem ops s -> located ops s (ctx_ r) ->
  bytes_at byte (cs + i) (encode (reverse ops) ++ [0xE4]) -> 0 <= i ->
  i + Z.of_nat (length (encode (reverse ops))) < size -> (length ops < fuel)%nat ->
  exists r', run fuel mem byte cs size i r = Done (true, r') /\ sp (ctx_ r') = (if ops is [] then sp (ctx_ r) else s.1) /\
    forall q, val (ctx_ r') q = if saved ops q then s.2 q else val (ctx_ r) q.
Proof.
  induction ops as [|op ops IH] using rev_ind; intros [|fuel] i r Hok Hf Hs Hint Hl Hb Hi Hn Hfu; cbn in Hfu; try lia.
  { cbn in Hb, Hn. specialize (Hb 0%nat 0xE4 eq_refl). rewrite Z.add_0_r in Hb. cbn [run].
    rewrite (proj2 (Z.ltb_lt _ _)) by lia. rewrite Hb. exists r. by rewrite (Z.eqb_refl 0xE0) || (cbn; done). }
  rewrite length_app in Hfu. cbn in Hfu. rewrite reverse_snoc in Hb, Hn. cbn [encode flat_map] in Hb, Hn. fold (encode (reverse ops)) in Hb, Hn.
  rewrite length_app in Hn. rewrite <- app_assoc in Hb. apply bytes_at_app in Hb as [Hb1 Hb2].
  rewrite forallb_app in Hok. apply andb_true_iff in Hok as [Hok1 Hok2]. cbn in Hok2. rewrite andb_true_r in Hok2.
  rewrite prolog_intact_app in Hint. destruct Hint as [Hint [Hk _]].
  rewrite (run_step fuel mem byte cs size i op r Hok2 Hb1 Hi) by lia.
  destruct (undo_last mem ops op r s Hok2 Hf Hs Hk Hl) as (r1 & -> & L1 & S1 & V1). cbn [obind].
  destruct (IH fuel (i + Z.of_nat (length (encode_op op))) r1) as (r' & E & S & V); try done; try lia.
  { by apply frame_ok_snoc in Hf as [? _]. }
  { by rewrite Z.add_assoc. }
  exists r'. split; [done|]. split.
  { rewrite S. destruct ops; [by rewrite S1|done]. }
  intros q. rewrite V, saved_snoc, V1. destruct (saved ops q); [done|]. cbn [orb]. destruct (saves op q) eqn:Eq; [|done].
  apply exec_keeps. destruct (decide (q = G 29)) as [->|]; [|by left]. right.
  apply frame_ok_snoc in Hf as [_ Hf]. destruct (existsb is_set_fp ops); [|done]. destruct (Hf eq_refl). congruence.
Qed.

(** ** Finding the function and the codes to run *)

Definition sorted_functions (img : pe_arm64) : Prop :=
  forall i j, 0 <= i < j -> j < function_count img -> begin_address (function_at img i) < begin_address (function_at img j).

Lemma function_upper_bound fuel img rva k lo hi :
  sorted_functions img -> 0 <= k < function_count img -> begin_address (function_at img k) <= rva ->
  (k + 1 < function_count img -> rva < begin_address (function_at img (k + 1))) ->
  0 <= lo <= k + 1 -> k + 1 <= hi <= function_count img -> hi - lo < Z.of_nat fuel ->
  upper_bound fuel img rva lo hi = Done (k + 1).
Proof.
  intros Hs Hk Hb Hn. revert lo hi. induction fuel as [|fuel IH]; intros lo hi Hl Hh Hf; [lia|]. cbn [upper_bound].
  destruct (Z.ltb_spec lo hi) as [Hlt|]; [|f_equal; lia].
  assert (lo <= lo + (hi - lo) / 2 < hi) as Hm
    by (split; [pose proof (Z.div_pos (hi - lo) 2); lia|enough ((hi - lo) / 2 < hi - lo) by lia; apply Z.div_lt; lia]).
  set (mid := lo + _) in *. destruct (Z.leb_spec (begin_address (function_at img mid)) rva).
  - apply IH; [|lia..]. split; [lia|]. destruct (Z.le_gt_cases (mid + 1) (k + 1)); [done|exfalso].
    assert (k + 1 < function_count img) as Hk1 by lia. specialize (Hn Hk1).
    destruct (decide (mid = k + 1)) as [->|]; [lia|]. pose proof (Hs (k + 1) mid ltac:(lia) ltac:(lia)). lia.
  - apply IH; [lia| |lia]. split; [|lia]. destruct (Z.le_gt_cases (k + 1) mid); [done|exfalso].
    destruct (decide (mid = k)) as [->|]; [lia|]. pose proof (Hs mid k ltac:(lia) ltac:(lia)). lia.
Qed.

(** Skipping the codes of instructions lands on the code of the next one. *)
Lemma skip_encoded byte cs total : forall n l at_,
  forallb op_ok l = true -> (n <= length l)%nat -> bytes_at byte (cs + at_) (encode l) ->
  at_ + Z.of_nat (length (encode l)) <= total ->
  skip_codes n byte cs total at_ = at_ + Z.of_nat (length (encode (take n l))).
Proof.
  induction n as [|n IH]; intros [|op l] at_ Hok Hn Hb Ht; cbn in Hn; try lia; cbn [skip_codes take]; [cbn; lia..|].
  cbn [encode flat_map] in Hb, Ht |- *. fold (encode l) in Hb, Ht. fold (encode (take n l)). rewrite length_app in Ht |- *.
  apply bytes_at_app in Hb as [Hb1 Hb2]. cbn in Hok. apply andb_true_iff in Hok as [Hok1 Hok2].
  destruct (decode_encoded op byte (cs + at_) Hok1 Hb1) as (_ & _ & Hc).
  rewrite (proj2 (Z.ltb_lt _ _)) by (destruct (encode_op_length op); lia). rewrite Hc, (IH l); [lia|done|lia| |lia].
  by rewrite Z.add_assoc.
Qed.

(** The code of an instruction is not an end code. *)
Lemma encode_op_no_end op byte at_ : op_ok op = true -> bytes_at byte at_ (encode_op op) -> byte at_ <> 0xE4 /\ byte at_ <> 0xE5.
Proof.
  intros Hok Hb. destruct (decode_encoded op byte at_ Hok Hb) as (Hlong & Hone & _).
  assert (exists b1 b2 b3 n, decode (byte at_) b1 b2 b3 = (insn_of op, n)) as (b1 & b2 & b3 & n & E).
  { destruct (encode_op_length op) as [H|H]; eexists _, _, _, _; [by apply (Hone 0)|by apply (Hlong _ H)]. }
  split; intros Hz; rewrite Hz in E; change (decode _ b1 b2 b3) with (i_end, 1) in E; by destruct op.
Qed.

(** [extent] counts the instructions of an epilogue, its return among them. *)
Lemma extent_encoded byte cs total : forall l fuel at_,
  forallb op_ok l = true -> bytes_at byte (cs + at_) (encode l ++ [0xE4]) -> at_ + Z.of_nat (length (encode l)) < total ->
  (length l < fuel)%nat -> extent fuel byte cs total at_ = Z.of_nat (length l) + 1.
Proof.
  induction l as [|op l IH]; intros [|fuel] at_ Hok Hb Ht Hf; cbn [length] in Hf; try lia; cbn [extent].
  - cbn in Ht. rewrite (proj2 (Z.ltb_lt _ _)) by lia. specialize (Hb 0%nat 0xE4 eq_refl). rewrite Z.add_0_r in Hb. by rewrite Hb.
  - cbn [encode flat_map] in Hb, Ht. fold (encode l) in Hb, Ht. rewrite length_app in Ht. rewrite <- app_assoc in Hb.
    apply bytes_at_app in Hb as [Hb1 Hb2]. cbn in Hok. apply andb_true_iff in Hok as [Hok1 Hok2].
    destruct (decode_encoded op byte (cs + at_) Hok1 Hb1) as (_ & _ & Hc). destruct (encode_op_no_end op byte (cs + at_) Hok1 Hb1) as [N1 N2].
    rewrite (proj2 (Z.ltb_lt _ _)) by lia. rewrite (proj2 (Z.eqb_neq _ _) N1), (proj2 (Z.eqb_neq _ _) N2). cbn [orb].
    rewrite Hc, IH; [cbn [length]; lia|done|by rewrite Z.add_assoc|lia|lia].
Qed.

Lemma encode_length l : (length l <= length (encode l))%nat.
Proof.
  induction l as [|op l IH]; cbn; [lia|]. rewrite length_app. destruct (encode_op_length op); unfold encode in IH; lia.
Qed.

(** *** A thread in a function with full unwind data *)

(** An epilogue: where it begins in the function, the index of its first code, and
    how much of the prologue it undoes before it returns, an instruction each. *)
Record epilogue : Type := Epilogue { e_begin : Z; e_index : Z; e_undoes : nat }.
Definition e_size (e : epilogue) : Z := 4 * (Z.of_nat (e_undoes e) + 1).
Definition in_epilogue (e : epilogue) (rva : Z) : Prop := e_begin e <= rva < e_begin e + e_size e.

Record frame : Type := Frame {
  f_mod : proc_module; f_img : pe_arm64; f_index : Z; f_hdr : xdata_header;
  f_ops : list prolog_op; f_epilogs : list epilogue; f_stack : Z; f_regs : areg -> Z
}.
Definition f_entry (f : frame) : runtime_function_arm64 := function_at (f_img f) (f_index f).
Definition f_pc (f : frame) (c : unwind_context) : Z := u32 (pc c - addr (f_mod f)).
Definition f_rva (f : frame) (c : unwind_context) : Z := u32 (f_pc f c - begin_address (f_entry f)).
Definition f_total (f : frame) : Z := code_words (f_hdr f) * 4.
Definition f_end (f : frame) : Z :=
  u32 (begin_address (f_entry f) + field (word_at (f_img f) (unwind_data (f_entry f))) 0 18 * 4).

(** The codes of instructions, in reverse and ended, at an index of the code words. *)
Definition codes_at (f : frame) (at_ : Z) (ops : list prolog_op) : Prop :=
  0 <= at_ /\ at_ + Z.of_nat (length (encode (reverse ops))) < f_total f /\
  bytes_at (byte_at (f_img f)) (codes (f_hdr f) + at_) (encode (reverse ops) ++ [0xE4]).

(** The header's list of the epilogues, as the format lays it out: with the bit E
    there is one, at the end of the function, and the header has the index of its
    codes; otherwise there is a scope word for each, with its place in units of four
    bytes in the low 18 bits and the index in the high ten.  They lie apart. *)
Record epilogs_listed (f : frame) : Prop := {
  el_codes : Forall (fun e => 0 <= e_begin e /\ (e_undoes e <= length (f_ops f))%nat /\
    codes_at f (e_index e) (take (e_undoes e) (f_ops f))) (f_epilogs f);
  el_apart : forall i j e e', (i < j)%nat -> f_epilogs f !! i = Some e -> f_epilogs f !! j = Some e' ->
    e_begin e + e_size e <= e_begin e' \/ e_begin e' + e_size e' <= e_begin e;
  el_header :
    if epilog_in_header (f_hdr f) then
      exists e, f_epilogs f = [e] /\ e_index e = epilog_count (f_hdr f) /\ e_begin e + e_size e = function_length (f_hdr f)
    else
      Z.of_nat (length (f_epilogs f)) = epilog_count (f_hdr f) /\
      forall i e, f_epilogs f !! i = Some e ->
        let word := word_at (f_img f) (epilog_scopes (f_hdr f) + 4 * Z.of_nat i) in
        field word 0 18 * 4 = e_begin e /\ field word 22 10 = e_index e
}.

(** What is still to be undone [rva] bytes into the function: in an epilogue, of
    what it undoes, what its instructions before the pc have not; elsewhere the whole
    prologue. *)
Inductive to_undo (f : frame) (rva : Z) : list prolog_op -> Prop :=
  | undo_rest e k : e ∈ f_epilogs f -> (k <= e_undoes e)%nat -> rva = e_begin e + 4 * Z.of_nat k ->
      to_undo f rva (take (e_undoes e - k) (f_ops f))
  | undo_body : (forall e, e ∈ f_epilogs f -> ~ in_epilogue e rva) -> to_undo f rva (f_ops f).

(** A thread in the body or in an epilogue, with [rest] of the prologue still to be
    undone. *)
Record in_frame (mem : memory) (f : frame) (rest : list prolog_op) (c : unwind_context) : Prop := {
  if_pe : pe (f_mod f) = Some (f_img f);
  if_used : exception_used (f_img f) = true;
  if_size : 0 <= exception_size (f_img f);
  if_sorted : sorted_functions (f_img f);
  if_index : 0 <= f_index f < function_count (f_img f);
  if_inside : begin_address (f_entry f) <= f_pc f c < f_end f;
  if_next : f_index f + 1 < function_count (f_img f) -> f_pc f c < begin_address (function_at (f_img f) (f_index f + 1));
  if_started : pc c <> addr (f_mod f) +w begin_address (f_entry f);
  if_unpacked : Z.land (unwind_data (f_entry f)) 3 = 0;
  if_header : parse_xdata (f_img f) (unwind_data (f_entry f)) = Some (f_hdr f);
  if_ops : forallb op_ok (f_ops f) = true;
  if_frame : frame_ok (f_ops f) = true;
  if_codes : codes_at f 0 (f_ops f);
  if_epilogs : epilogs_listed f;
  if_rest : to_undo f (f_rva f c) rest;
  if_stack : in_u64 (f_stack f);
  if_intact : intact mem rest (f_stack f, f_regs f);
  if_located : located rest (f_stack f, f_regs f) c
}.

Lemma arm64_lookup_finds mem f rest c :
  in_frame mem f rest c ->
  exists len, lookup_function_entry (f_mod f) (pc c) =
    Done (Some (FunctionEntry (begin_address (f_entry f)) len (unwind_data (f_entry f)) false)).
Proof.
  intros Hi. destruct Hi as [Hpe Hu Hsz Hso Hk [Hb He] Hnx _ Hup _ _ _ _ _ _ _ _ _]. unfold lookup_function_entry. rewrite Hpe, Hu.
  cbn [negb]. assert (0 <= function_count (f_img f)) by (apply Z.div_pos; [done|unfold runtime_function_size; lia]).
  fold (f_pc f c). rewrite (function_upper_bound _ _ _ (f_index f)) by (done || lia). cbn [obind].
  rewrite (proj2 (Z.eqb_neq _ _)) by lia. replace (f_index f + 1 - 1) with (f_index f) by lia. fold (f_entry f).
  rewrite Hup. cbn [Z.eqb negb]. fold (f_end f). rewrite (proj2 (Z.leb_gt _ _)) by lia. by eexists.
Qed.

Lemma forallb_reverse {A} (p : A -> bool) l : forallb p l = true -> forallb p (reverse l) = true.
Proof. rewrite !forallb_forall. intros H x Hx. apply H. rewrite <- list_elem_of_In in *. by rewrite <- elem_of_reverse. Qed.

Lemma forallb_take {A} (p : A -> bool) n l : forallb p l = true -> forallb p (take n l) = true.
Proof. revert n. induction l as [|x l IH]; intros [|n]; cbn; try done. intros H. apply andb_true_iff in H as [-> H]. by apply IH. Qed.

Lemma frame_ok_take n ops : frame_ok ops = true -> frame_ok (take n ops) = true.
Proof.
  revert n. induction ops as [|op ops IH]; intros [|n]; cbn; try done. destruct (is_set_fp op); [apply forallb_take|apply IH].
Qed.

(** *** Which epilogue, and how far into it *)

Lemma function_length_small f : parse_xdata (f_img f) (unwind_data (f_entry f)) = Some (f_hdr f) ->
  function_length (f_hdr f) < 2 ^ 20.
Proof.
  unfold parse_xdata. destruct (negb _); [discriminate|]. intros H.
  apply (f_equal (fun o => match o with Some h => function_length h | None => 0 end)) in H. cbn [function_length] in H. rewrite <- H. unfold field.
  change (2 ^ 18 - 1) with (Z.ones 18). rewrite Z.land_ones by lia.
  pose proof (Z.mod_pos_bound (Z.shiftr (word_at (f_img f) (unwind_data (f_entry f))) 0) (2 ^ 18)). lia.
Qed.

Lemma epilogue_extent f e : forallb op_ok (f_ops f) = true -> (e_undoes e <= length (f_ops f))%nat ->
  codes_at f (e_index e) (take (e_undoes e) (f_ops f)) ->
  (f_total f <=? e_index e) = false /\
  extent (Z.to_nat (f_total f)) (byte_at (f_img f)) (codes (f_hdr f)) (f_total f) (e_index e) * 4 = e_size e.
Proof.
  intros Hok Hn (H0 & Ht & Hb). set (l := reverse (take (e_undoes e) (f_ops f))) in *.
  assert (length l = e_undoes e) as Hl by (unfold l; rewrite length_reverse, length_take; lia).
  pose proof (encode_length l). split; [apply Z.leb_gt; lia|].
  rewrite (extent_encoded _ _ _ l); [unfold e_size; lia|by apply forallb_reverse, forallb_take|done|done|lia].
Qed.

Definition place (e : epilogue) (rva : Z) : option (Z * Z) := Some (e_index e, (rva - e_begin e) / 4).

(** The one test of [find_epilog], at an epilogue that is where its codes say. *)
Lemma in_epilogue_test e rva : (e_begin e <=? rva) && (rva <? e_begin e + e_size e) = true <-> in_epilogue e rva.
Proof. unfold in_epilogue. rewrite andb_true_iff, Z.leb_le, Z.ltb_lt. done. Qed.

Lemma find_scope_spec f rva : forallb op_ok (f_ops f) = true -> epilogs_listed f -> epilog_in_header (f_hdr f) = false ->
  forall n i, (i + n = length (f_epilogs f))%nat ->
  match find_scope n (f_img f) (f_hdr f) rva (f_total f) (Z.of_nat i) with
  | Some p => exists e, e ∈ f_epilogs f /\ in_epilogue e rva /\ Some p = place e rva
  | None => forall j e, (i <= j)%nat -> f_epilogs f !! j = Some e -> ~ in_epilogue e rva
  end.
Proof.
  intros Hok [Hc _ Hh] Hbit. rewrite Hbit in Hh. destruct Hh as [_ Hw]. induction n as [|n IH]; intros i Hi; cbn [find_scope].
  { intros j e Hj He. apply lookup_lt_Some in He. lia. }
  destruct (lookup_lt_is_Some_2 (f_epilogs f) i ltac:(lia)) as [e He]. destruct (Hw i e He) as [-> ->].
  destruct (proj1 (list.Forall_forall _ _) Hc e ltac:(by eapply list_elem_of_lookup_2)) as (_ & Hu & Hat).
  destruct (epilogue_extent f e Hok Hu Hat) as [-> ->]. destruct (_ && _) eqn:E.
  - exists e. split_and!; [by eapply list_elem_of_lookup_2|by apply in_epilogue_test|done].
  - specialize (IH (S i) ltac:(lia)). replace (Z.of_nat (S i)) with (Z.of_nat i + 1) in IH by lia.
    destruct (find_scope n _ _ _ _ _); [done|]. intros j e' Hj He'. destruct (decide (j = i)) as [->|Hne]; [|apply (IH j); [lia|done]].
    rewrite He in He'. injection He' as <-. intros Hin%in_epilogue_test. congruence.
Qed.

(** [find_epilog] finds the epilogue the pc is in, and how many of its instructions
    have run. *)
Lemma find_epilog_spec f rva : forallb op_ok (f_ops f) = true -> epilogs_listed f ->
  parse_xdata (f_img f) (unwind_data (f_entry f)) = Some (f_hdr f) ->
  match find_epilog (f_img f) (f_hdr f) rva (f_total f) with
  | Some p => exists e, e ∈ f_epilogs f /\ in_epilogue e rva /\ Some p = place e rva
  | None => forall e, e ∈ f_epilogs f -> ~ in_epilogue e rva
  end.
Proof.
  intros Hok Hl Hp. unfold find_epilog. destruct (epilog_in_header (f_hdr f)) eqn:Hbit.
  - pose proof (el_header _ Hl) as H. rewrite Hbit in H. destruct H as (e & Ee & Ei & Eb).
    pose proof (el_codes _ Hl) as Hc. rewrite Ee, Forall_singleton in Hc. destruct Hc as (H0 & Hu & Hat).
    destruct (epilogue_extent f e Hok Hu Hat) as [Et Ex]. rewrite <- Ei, Et, Ex, <- Eb. pose proof (function_length_small f Hp).
    assert (u32 (e_begin e + e_size e - e_size e) = e_begin e) as -> by (unfold u32; rewrite Z.mod_small; unfold e_size in *; lia).
    rewrite Ee. destruct (_ && _) eqn:E.
    + exists e. split_and!; [by apply list_elem_of_singleton|by apply in_epilogue_test|done].
    + intros e' ->%list_elem_of_singleton Hin%in_epilogue_test. congruence.
  - pose proof (el_header _ Hl) as H. rewrite Hbit in H. destruct H as [<- _]. rewrite Nat2Z.id.
    pose proof (find_scope_spec f rva Hok Hl Hbit (length (f_epilogs f)) 0 ltac:(lia)) as H. change (Z.of_nat 0) with 0 in H.
    destruct (find_scope _ _ _ _ _ _); [done|]. intros e [j Hj]%list_elem_of_lookup. by apply (H j); [lia|].
Qed.

Lemma epilogue_unique f e e' rva : epilogs_listed f -> e ∈ f_epilogs f -> e' ∈ f_epilogs f ->
  in_epilogue e rva -> in_epilogue e' rva -> e = e'.
Proof.
  intros Hl [i Hi]%list_elem_of_lookup [j Hj]%list_elem_of_lookup He He'. unfold in_epilogue in *.
  destruct (Nat.lt_trichotomy i j) as [H|[->|H]]; [|congruence|].
  - pose proof (el_apart _ Hl i j e e' H Hi Hj). lia.
  - pose proof (el_apart _ Hl j i e' e H Hj Hi). lia.
Qed.

(** Where the replayer starts, and the codes it finds there. *)
Definition f_start (f : frame) (c : unwind_context) : Z :=
  match find_epilog (f_img f) (f_hdr f) (f_rva f c) (f_total f) with
  | Some (at_, k) => skip_codes (Z.to_nat k) (byte_at (f_img f)) (codes (f_hdr f)) (f_total f) at_
  | None => 0
  end.

(** After [k] codes of an epilogue come those of the rest of it. *)
Lemma skip_to_rest f e k : forallb op_ok (f_ops f) = true -> (e_undoes e <= length (f_ops f))%nat ->
  codes_at f (e_index e) (take (e_undoes e) (f_ops f)) -> (k <= e_undoes e)%nat ->
  codes_at f (skip_codes k (byte_at (f_img f)) (codes (f_hdr f)) (f_total f) (e_index e)) (take (e_undoes e - k) (f_ops f)).
Proof.
  intros Hok Hu (Ha & Hn & Hb) Hk. set (ops := take (e_undoes e) (f_ops f)) in *.
  assert (length ops = e_undoes e) as Hlen by (unfold ops; rewrite length_take; lia).
  assert (take (e_undoes e - k) (f_ops f) = take (e_undoes e - k) ops) as -> by (unfold ops; rewrite take_take; f_equal; lia).
  assert (reverse (take (e_undoes e - k) ops) = drop k (reverse ops)) as Hrev.
  { set (j := (e_undoes e - k)%nat). replace (reverse ops) with (reverse (drop j ops) ++ reverse (take j ops)) by (by rewrite <- reverse_app, take_drop).
    symmetry. apply drop_app_length'. rewrite length_reverse, length_drop. lia. }
  unfold codes_at. rewrite Hrev. set (l := reverse ops) in *. assert (length l = e_undoes e) as Hll by (unfold l; by rewrite length_reverse).
  assert (encode l = encode (take k l) ++ encode (drop k l)) as Henc by (unfold encode; rewrite <- flat_map_app, take_drop; done).
  rewrite (skip_encoded _ _ _ k l (e_index e)); [| |lia|by apply bytes_at_app in Hb as [? _]|lia].
  2: { by apply forallb_reverse, forallb_take. }
  split_and!; [lia|rewrite Henc, length_app in Hn; lia|].
  rewrite Henc, <- app_assoc in Hb. apply bytes_at_app in Hb as [_ Hb]. by rewrite Z.add_assoc.
Qed.

Lemma start_codes mem f rest c :
  in_frame mem f rest c -> codes_at f (f_start f c) rest /\ forallb op_ok rest = true /\ frame_ok rest = true.
Proof.
  intros Hi. pose proof (if_ops _ _ _ _ Hi) as Hok. pose proof (if_epilogs _ _ _ _ Hi) as Hl.
  pose proof (find_epilog_spec f (f_rva f c) Hok Hl (if_header _ _ _ _ Hi)) as Hfind. unfold f_start.
  destruct (if_rest _ _ _ _ Hi) as [e k He Hk Hr|Hbody].
  - assert (in_epilogue e (f_rva f c)) as Hin by (unfold in_epilogue, e_size; lia).
    split; [|split; [by apply forallb_take|by apply frame_ok_take, Hi]].
    destruct (find_epilog _ _ _ _) as [[at_ n]|]; [|by exfalso; apply (Hfind e)].
    destruct Hfind as (e' & He' & Hin' & [= -> ->]). rewrite (epilogue_unique f e' e (f_rva f c)) by done.
    rewrite Hr. replace (e_begin e + 4 * Z.of_nat k - e_begin e) with (Z.of_nat k * 4) by lia. rewrite Z.div_mul, Nat2Z.id by lia.
    destruct (proj1 (list.Forall_forall _ _) (el_codes _ Hl) e He) as (_ & Hu & Hat). by apply skip_to_rest.
  - destruct (find_epilog _ _ _ _) as [p|]; [|split_and!; apply Hi].
    destruct Hfind as (e & He & Hin & _). by destruct (Hbody e).
Qed.

(** C40: from the body of a function with .xdata, or from anywhere in one of its
    epilogues, one step of the AArch64 unwinder takes the thread to its caller: sp is
    the caller's, every register the prologue saved and that is not restored yet,
    x29 and the link register among them, has the caller's value, the pc is the link
    register, and the other registers are left alone.  The epilogues are those the
    header lists, at the end of the function or by scope words; in one of them
    exactly the instructions before the pc have been undone.  The prologue is made
    of any saves, allocations, frame pointer settings, no-ops and pacibsp, of which
    every code is read back as its instruction, with x29 set at most once and not
    saved after that; what it saved is still in place, and sp is where it was left,
    or anywhere if the prologue ends by setting x29.  save_next, which the code
    misreads (see [save_next_misread]), is not among the instructions, and a pc inside
    the prologue is not treated by the code. *)
Theorem arm64_unwind_correct mem f rest c :
  in_frame mem f rest c ->
  let lr := if saved rest (G 30) then f_regs f (G 30) else gp c 30 in
  exists res c', unwind_frame mem (f_mod f) c = Done (negb (lr =? 0), res, c') /\
    pc c' = lr /\ sp c' = f_stack f /\
    (forall q, val c' q = if saved rest q then f_regs f q else val c q) /\
    establisher_frame res = sp c /\
    handler res = if exception_data (f_hdr f) then addr (f_mod f) +w word_at (f_img f) (after_codes (f_hdr f)) else 0.
Proof.
  intros Hi lr. destruct (arm64_lookup_finds mem f rest c Hi) as [len Hl].
  destruct (start_codes mem f rest c Hi) as ((Hs & Hn & Hb) & Hok & Hfr).
  destruct (run_encoded mem (byte_at (f_img f)) (codes (f_hdr f) + f_start f c) (f_total f - f_start f c) (f_stack f, f_regs f)
    rest (S (Z.to_nat (f_total f))) 0 (Replayer c 19 0 false) Hok Hfr (if_stack _ _ _ _ Hi) (if_intact _ _ _ _ Hi)
    (if_located _ _ _ _ Hi)) as (r' & E & S & V); [by rewrite Z.add_0_r|lia|lia| |].
  { pose proof (encode_length (reverse rest)) as Hlen. rewrite length_reverse in Hlen. lia. }
  assert (sp (ctx_ r') = f_stack f) as Sp.
  { rewrite S. destruct rest; [|done]. destruct (if_located _ _ _ _ Hi) as (_ & [?|(front & o & Heq & _)] & _); [done|].
    by destruct front. }
  unfold unwind_frame. rewrite Hl. cbn [obind]. rewrite (if_pe _ _ _ _ Hi). cbn [begin_rva packed data].
  rewrite (proj2 (Z.eqb_neq _ _)) by apply Hi. rewrite (if_header _ _ _ _ Hi). fold (f_pc f c) (f_total f). fold (f_rva f c).
  fold (f_start f c). rewrite E. cbn [obind]. unfold return_to_lr.
  assert (gp (ctx_ r') reg_lr = lr) as Hlr by apply (V (G 30)). rewrite Hlr.
  eexists _, _. split; [reflexivity|]. split_and!; [done|done| |by destruct (exception_data (f_hdr f))..].
  intros q. rewrite <- V. by destruct q.
Qed.

End A64Thm.
