(* ===== verification/Arm64UnwindExamples.v ===== *)
(** * A small AArch64 image

    A function stopped in its epilogue, and codes the replayer misreads. *)

From stdpp Require Import list.
From S2P Require Import Prelude Mmu Unwind UnwindThm Arm64Unwind Arm64UnwindThm.
From stdpp Require Import options.

Open Scope Z_scope.
Open Scope kern_scope.

Module A64Examples.
Import A64 A64Thm.

(** stp x19, x20, [sp, #-32]!; stp x29, lr, [sp, #16]; mov x29, sp *)
Definition prolog : list prolog_op := [StpPre 0 3; FpLr 2; MovFp].

(** 0x40 bytes of code, one epilogue that shares the codes, two code words. *)
Definition xdata : list Z :=
  le_bytes 4 (0x10 + Z.shiftl 1 21 + Z.shiftl 2 27) ++ encode (reverse prolog) ++ [0xE4; 0xE3; 0xE3; 0xE3].
Definition image_of (xdata : list Z) : pe_arm64 :=
  PeArm64 true 8 (fun _ => RuntimeFunctionArm64 0x1000 0x3000) (fun rva => default 0 (xdata !! Z.to_nat (rva - 0x3000))).
Definition driver_of (xdata : list Z) : proc_module := ProcModule 0x140000000 (Some (image_of xdata)).

Definition caller_regs (q : areg) : Z :=
  match q with G 19 => 0x1919 | G 20 => 0x2020 | G 29 => 0x2929 | G 30 => 0x140002000 | _ => 0 end.
Definition stack_memory : memory := fun a =>
  if a =? 0x7FE0 then Some 0x1919 else if a =? 0x7FE8 then Some 0x2020
  else if a =? 0x7FF0 then Some 0x2929 else if a =? 0x7FF8 then Some 0x140002000 else None.

Definition the_frame : frame :=
  Frame (driver_of xdata) (image_of xdata) 0 (XdataHeader 0x40 0 2 false true 0x3004 0x3004 0x300C) prolog [Epilogue 0x30 0 3] 0x8000 caller_regs.

(** The epilogue is four instructions from 0x1030; the first has run. *)
Definition in_epilogue : unwind_context := Ctx 0x140001034 0x7FE0 (fun _ => 0x55) (fun _ => 0).

Lemma in_epilogue_frame : in_frame stack_memory the_frame [StpPre 0 3; FpLr 2] in_epilogue.
Proof.
  assert (codes_at the_frame 0 prolog) as Hc.
  { split; [done|]. split; [by vm_compute|]. intros k b Hk.
    do 5 (destruct k as [|k]; [vm_compute in Hk; injection Hk as <-; by vm_compute|]). by vm_compute in Hk. }
  split; [reflexivity|reflexivity|cbn; lia| |by vm_compute|by vm_compute|by vm_compute|by vm_compute|by vm_compute|
    by vm_compute|by vm_compute|by vm_compute|exact Hc| | |by vm_compute| |].
  - intros i j Hij Hj. change (function_count (f_img the_frame)) with 1 in Hj. lia.
  - split.
    + apply Forall_singleton. split; [cbn; lia|]. split; [cbn; lia|exact Hc].
    + intros [|i] [|j] e e' Hij He He'; cbn in He, He'; try done; lia.
    + by exists (Epilogue 0x30 0 3).
  - apply (undo_rest the_frame _ (Epilogue 0x30 0 3) 1); [by apply list_elem_of_singleton|cbn; lia|vm_compute; reflexivity].
  - cbn [intact]. split; [|split; [|exact I]]; repeat constructor; vm_compute; reflexivity.
  - split; [by vm_compute|]. split; [left; vm_compute; reflexivity|done].
Qed.

Lemma arm64_unwind_witness :
  exists res c', A64.unwind_frame stack_memory (driver_of xdata) in_epilogue = Done (true, res, c') /\
    pc c' = 0x140002000 /\ sp c' = 0x8000 /\ gp c' 29 = 0x2929 /\ gp c' 19 = 0x1919 /\ gp c' 21 = 0x55.
Proof.
  destruct (arm64_unwind_correct stack_memory the_frame _ in_epilogue in_epilogue_frame) as (res & c' & E & P & S & V & _).
  exists res, c'. split; [exact E|]. split; [exact P|]. split; [exact S|].
  split; [exact (V (G 29))|]. split; [exact (V (G 19))|exact (V (G 21))].
Defined.

(** ** A pair that continues another

    [sub sp, sp, #48; stp x19, x20, [sp, #16]; stp x21, x22, [sp, #32]]: the codes
    list the last instruction first, so [save_next] comes before the pair it
    continues, and the replayer, which continues the pair before it, reads x21
    from where x19 is. *)
Definition next_xdata : list Z :=
  le_bytes 4 (0x10 + Z.shiftl 2 27) ++ [0xE6; 0xC8; 0x02; 0x03; 0xE4; 0xE3; 0xE3; 0xE3].

Lemma save_next_misread :
  exists res c', A64.unwind_frame (fun a => Some a) (driver_of next_xdata)
      (Ctx 0x140001020 0x7000 (fun _ => 0x55) (fun _ => 0)) = Done (true, res, c') /\
    gp c' 19 = 0x7010 /\ gp c' 21 = 0x7010.
Proof. eexists _, _. vm_compute. repeat split. Qed.

(** ** A code the two readers disagree about *)

(** [code_len] takes 0xDF for a code of two bytes; the replayer gives up on it. *)
Lemma reserved_code_length : code_len 0xDF = 2 /\ decode 0xDF 0 0 0 = (i_unhandled, 0).
Proof. split; vm_compute; reflexivity. Qed.

(** They agree on every code the replayer knows. *)
Lemma code_len_agrees b0 :
  0 <= b0 < 256 -> (decode b0 0 0 0).1 <> i_unhandled -> code_len b0 = (decode b0 0 0 0).2.
Proof.
  intros Hb Hu. assert (forallb (fun b => bool_decide ((decode b 0 0 0).1 = i_unhandled) || (code_len b =? (decode b 0 0 0).2)) (upto 256) = true) as H
    by (vm_compute; reflexivity).
  rewrite forallb_forall in H. specialize (H b0 (rng_upto b0 256 ltac:(unfold rng; lia))).
  apply orb_true_iff in H as [H|H]; [by apply bool_decide_eq_true in H|by apply Z.eqb_eq].
Qed.

End A64Examples.
