(* ===== verification/Paths.v ===== *)
(** * Names and paths

    Strings are lists of bytes.  The object manager, the registry and the
    filesystem keep flat maps from paths to things and list the children of a
    directory out of them; what they share is here. *)

From Stdlib Require Ascii String.
From S2P Require Import Prelude.
From stdpp Require Import list sorting.
From stdpp Require Import options.

Open Scope Z_scope.
Open Scope kern_scope.

Definition str : Type := list Z.
Definition slash : Z := 47.
Definition backslash : Z := 92.

(** A literal of the source. *)
Definition ascii (s : list Ascii.ascii) : str := map (fun c => Z.of_N (Ascii.N_of_ascii c)) s.
Definition text (s : String.string) : str := ascii (String.list_ascii_of_string s).

(** [std::tolower] of the C locale. *)
Definition tolower (c : Z) : Z := if (65 <=? c) && (c <=? 90) then c + 32 else c.

(** Backslashes to slashes, then lower case. *)
Definition fold_char (c : Z) : Z := tolower (if c =? backslash then slash else c).

(** The part of [s] after [p], when it starts with it. *)
Fixpoint after_prefix (p s : str) : option str :=
  match p, s with
  | [], s => Some s
  | c :: p, d :: s => if c =? d then after_prefix p s else None
  | _ :: _, [] => None
  end.
Definition starts_with (s p : str) : bool := match after_prefix p s with Some _ => true | None => false end.

(** [s.substr(0, s.find('/'))]. *)
Fixpoint before_slash (s : str) : str :=
  match s with [] => [] | c :: s => if c =? slash then [] else c :: before_slash s end.
Definition has_slash (s : str) : bool := existsb (fun c => c =? slash) s.

(** [while (!s.empty() && s.back() == '/') s.pop_back()]. *)
Fixpoint drop_slashes (s : str) : str :=
  match s with
  | [] => []
  | c :: s => match drop_slashes s with [] => if c =? slash then [] else [c] | s => c :: s end
  end.

(** ** Sorted sets of strings *)

Fixpoint str_compare (a b : str) : comparison :=
  match a, b with
  | [], [] => Eq
  | [], _ => Lt
  | _, [] => Gt
  | x :: a, y :: b => match x ?= y with Eq => str_compare a b | c => c end
  end.
Definition str_lt (a b : str) : Prop := str_compare a b = Lt.

(** Insertion into [std::set]. *)
Fixpoint set_insert (x : str) (l : list str) : list str :=
  match l with
  | [] => [x]
  | y :: l => match str_compare x y with Eq => y :: l | Lt => x :: y :: l | Gt => y :: set_insert x l end
  end.
Definition to_set (l : list str) : list str := foldr set_insert [] l.

Lemma str_compare_eq a b : str_compare a b = Eq <-> a = b.
Proof.
  revert b. induction a as [|x a IH]; intros [|y b]; cbn; try done. destruct (Z.compare_spec x y) as [->|H|H].
  - rewrite IH. split; congruence.
  - split; [done|]. intros E. injection E as -> ->. lia.
  - split; [done|]. intros E. injection E as -> ->. lia.
Qed.

Lemma str_compare_refl a : str_compare a a = Eq.
Proof. by apply str_compare_eq. Qed.

Lemma str_compare_antisym a b : str_compare b a = CompOpp (str_compare a b).
Proof.
  revert b. induction a as [|x a IH]; intros [|y b]; cbn; try done. rewrite (Z.compare_antisym x y).
  destruct (x ?= y); cbn; auto.
Qed.

Lemma str_lt_trans a b c : str_lt a b -> str_lt b c -> str_lt a c.
Proof.
  unfold str_lt. revert b c. induction a as [|x a IH]; intros [|y b] [|z c]; cbn; try done.
  destruct (Z.compare_spec x y) as [->|H|H]; try done.
  - destruct (Z.compare_spec y z) as [->|H|H]; try done. apply IH.
  - intros _. destruct (Z.compare_spec y z) as [->|H'|H']; try done.
    + intros _. by rewrite (proj2 (Z.compare_lt_iff x z)).
    + intros _. rewrite (proj2 (Z.compare_lt_iff x z)) by lia. done.
Qed.

Lemma elem_of_set_insert x y l : y ∈ set_insert x l <-> y = x \/ y ∈ l.
Proof.
  induction l as [|z l IH]; cbn; [by rewrite list_elem_of_singleton, elem_of_nil; tauto|].
  destruct (str_compare x z) eqn:E.
  - apply str_compare_eq in E as ->. rewrite elem_of_cons. tauto.
  - rewrite !elem_of_cons. tauto.
  - rewrite !elem_of_cons, IH. tauto.
Qed.

Lemma set_insert_sorted x l : StronglySorted str_lt l -> StronglySorted str_lt (set_insert x l).
Proof.
  induction 1 as [|y l Hl IH Hy]; cbn; [by repeat constructor|]. destruct (str_compare x y) eqn:E.
  - by constructor.
  - constructor; [by constructor|]. constructor; [done|]. eapply Forall_impl; [exact Hy|]. intros z Hz. by apply (str_lt_trans x y z).
  - constructor; [done|]. apply Forall_forall. intros z Hz. apply elem_of_set_insert in Hz as [->|Hz].
    + unfold str_lt. rewrite str_compare_antisym, E. done.
    + rewrite Forall_forall in Hy. by apply Hy.
Qed.

Lemma to_set_sorted l : StronglySorted str_lt (to_set l).
Proof. induction l as [|x l IH]; [constructor|]. by apply set_insert_sorted. Qed.

Lemma elem_of_to_set x l : x ∈ to_set l <-> x ∈ l.
Proof. induction l as [|y l IH]; cbn; [done|]. by rewrite elem_of_set_insert, IH, elem_of_cons. Qed.

(** ** Prefixes and children *)

Lemma after_prefix_app p s : after_prefix p (p ++ s) = Some s.
Proof. induction p as [|c p IH]; [done|]. cbn. by rewrite Z.eqb_refl. Qed.

Lemma after_prefix_Some p s r : after_prefix p s = Some r <-> s = p ++ r.
Proof.
  split; [|intros ->; apply after_prefix_app]. revert s. induction p as [|c p IH]; intros [|d s]; cbn; try congruence.
  destruct (Z.eqb_spec c d) as [->|]; [|done]. intros H. by rewrite (IH s H).
Qed.

Lemma before_slash_split s :
  has_slash (before_slash s) = false /\
  exists r, s = before_slash s ++ r /\ (r = [] \/ exists r', r = slash :: r').
Proof.
  induction s as [|c s [IH1 (r & IH2 & IH3)]]; cbn; [split; [done|]; by exists []; auto|].
  destruct (Z.eqb_spec c slash) as [->|Hc]; cbn.
  - split; [done|]. exists (slash :: s). split; [done|]. right. by exists s.
  - rewrite (proj2 (Z.eqb_neq _ _) Hc). split; [done|]. exists r. split; [by rewrite <- IH2|done].
Qed.

Lemma before_slash_app c r : has_slash c = false -> r = [] \/ (exists r', r = slash :: r') -> before_slash (c ++ r) = c.
Proof.
  intros Hc Hr. induction c as [|d c IH]; cbn in *.
  - destruct Hr as [->|[r' ->]]; [done|]. cbn. done.
  - apply orb_false_iff in Hc as [Hd Hc]. rewrite Hd. by rewrite IH.
Qed.

Lemma drop_slashes_spec s : exists n, s = drop_slashes s ++ replicate n slash /\ List.last (drop_slashes s) 0 <> slash.
Proof.
  induction s as [|c s (n & IH1 & IH2)]; cbn; [by exists 0%nat|]. destruct (drop_slashes s) as [|d t] eqn:E.
  - destruct (Z.eqb_spec c slash) as [->|Hc].
    + exists (S n). cbn in *. split; [by rewrite IH1 at 1|done].
    + exists n. cbn in *. split; [by rewrite IH1 at 1|done].
  - exists n. split; [by rewrite IH1 at 1|]. done.
Qed.

Lemma drop_slashes_id s : List.last s 0 <> slash -> drop_slashes s = s.
Proof.
  induction s as [|c s IH]; intros H; [done|]. cbn. destruct s as [|d s].
  - cbn in *. by destruct (Z.eqb_spec c slash).
  - rewrite IH by done. done.
Qed.

Lemma tolower_idemp c : tolower (tolower c) = tolower c.
Proof. unfold tolower. destruct ((65 <=? c) && (c <=? 90)) eqn:E; [|by rewrite E]. by rewrite (proj2 (Z.leb_gt (c + 32) 90)), andb_false_r by lia. Qed.

Lemma fold_char_idemp c : fold_char (fold_char c) = fold_char c.
Proof.
  unfold fold_char. destruct (Z.eqb_spec c backslash) as [->|Hc]; [done|].
  assert ((tolower c =? backslash) = false) as ->; [|apply tolower_idemp].
  apply Z.eqb_neq. unfold tolower, backslash in *. destruct ((65 <=? c) && (c <=? 90)) eqn:E; lia.
Qed.
