(* ===== verification/LinkedList.v ===== *)
(** * Circular lists in guest memory

    class win_linked_list of kernel/win/linked_list.hpp: the loaded modules, the
    processes and the threads, linked through a LIST_ENTRY inside each entry.
    Memory is 8-byte words; a LIST_ENTRY at [a] has its flink at [a] and its blink
    at [a + 8]. *)

From stdpp Require Import list.
From S2P Require Import Prelude Mmu.
From stdpp Require Import options.

Open Scope Z_scope.
Open Scope kern_scope.

Definition words : Type := Z -> Z.
Definition write_word (a v : Z) (m : words) : words := fun x => if x =? a then v else m x.

Definition read_flink (m : words) (at_ : Z) : Z := m at_.
Definition read_blink (m : words) (at_ : Z) : Z := m (at_ +w 8).
Definition write_flink (at_ v : Z) (m : words) : words := write_word at_ v m.
Definition write_blink (at_ v : Z) (m : words) : words := write_word (at_ +w 8) v m.

(** The words of an entry, stored one after the other. *)
Fixpoint write_entry (a : Z) (l : list Z) (m : words) : words :=
  match l with [] => m | v :: l => write_entry (a +w 8) l (write_word a v m) end.

Section List.
(** Where the LIST_ENTRY is in an entry, in bytes and in words. *)
Context (links_word : nat).
Definition links_offset : Z := 8 * Z.of_nat links_word.

Definition links_addr (entry : Z) : Z := entry +w links_offset.

Definition init (head : Z) (m : words) : words := write_blink head head (write_flink head head m).

(** The contents with the links of the new last entry in place. *)
Definition links_of (flink blink : Z) (contents : list Z) : list Z :=
  <[S links_word := blink]> (<[links_word := flink]> contents).

Definition push_back (head : Z) (contents : list Z) (entry : Z) (m : words) : words :=
  let head_flink := read_flink m head in
  let tail_links := read_blink m head in
  let m := write_entry entry (links_of head tail_links contents) m in
  if tail_links =? head
  then write_blink head (links_addr entry) (write_flink head (links_addr entry) m)
  else write_blink head (links_addr entry)
         (write_flink head head_flink (write_flink tail_links (links_addr entry) m)).

Definition remove (entry : Z) (m : words) : words :=
  let flink := read_flink m (links_addr entry) in
  let blink := read_blink m (links_addr entry) in
  write_flink blink flink (write_blink flink blink m).

(** [for_each]: the next entry is read before the callback runs, which gets the
    memory and a state of its own and says whether to go on. *)
Section ForEach.
Context {A : Type} (fn : Z -> words * A -> bool * (words * A)).

Fixpoint for_each_from (fuel : nat) (head cur : Z) (s : words * A) : option (words * A) :=
  match fuel with
  | O => None
  | S fuel =>
      if cur =? head then Some s else
      let next := read_flink s.1 cur in
      let '(go_on, s) := fn (cur -w links_offset) s in
      if go_on then for_each_from fuel head next s else Some s
  end.

Definition for_each (fuel : nat) (head : Z) (s : words * A) : option (words * A) :=
  for_each_from fuel head (read_flink s.1 head) s.
End ForEach.

Definition size (fuel : nat) (head : Z) (m : words) : option nat :=
  snd <$> for_each (fun _ s => (true, (s.1, S s.2))) fuel head (m, 0%nat).

Definition empty (head : Z) (m : words) : bool := read_flink m head =? head.

(** ** What memory says the list is *)

(** From the links at [a], the links [l] follow, and then [z]; every blink points back. *)
Fixpoint chain (m : words) (a : Z) (l : list Z) (z : Z) : Prop :=
  match l with
  | [] => read_flink m a = z /\ read_blink m z = a
  | x :: l => read_flink m a = x /\ read_blink m x = a /\ chain m x l z
  end.

(** Two LIST_ENTRYs that do not overlap. *)
Definition apart (x y : Z) : Prop := x <> y /\ x <> y +w 8 /\ x +w 8 <> y /\ x +w 8 <> y +w 8.

Fixpoint all_apart (l : list Z) : Prop :=
  match l with [] => True | x :: l => Forall (apart x) l /\ all_apart l end.

(** The list at [head] holds the entries [es], in this order. *)
Record is_list (m : words) (head : Z) (es : list Z) : Prop := {
  il_chain : chain m head (map links_addr es) head;
  il_apart : all_apart (head :: map links_addr es);
  il_range : Forall in_u64 (head :: es)
}.

(** ** Lemmas *)

Lemma write_word_same a v m : write_word a v m a = v.
Proof. unfold write_word. by rewrite Z.eqb_refl. Qed.
Lemma write_word_other a v m x : x <> a -> write_word a v m x = m x.
Proof. intros H. unfold write_word. by rewrite (proj2 (Z.eqb_neq _ _)). Qed.

(** Memory that agrees on the links of a chain has the same chain. *)
Definition same_links (m m' : words) (x : Z) : Prop := m' x = m x /\ m' (x +w 8) = m (x +w 8).

Lemma chain_same m m' a l z :
  read_flink m' a = read_flink m a -> Forall (same_links m m') l -> read_blink m' z = read_blink m z ->
  chain m a l z -> chain m' a l z.
Proof.
  intros Ha Hl Hz. revert a Ha. induction Hl as [|x l [H1 H2] _ IH]; intros a Ha; cbn.
  - rewrite Ha, Hz. done.
  - unfold read_flink, read_blink in *. rewrite Ha, H2. intros (? & ? & ?). split_and!; [done|done|by apply IH].
Qed.

Lemma chain_app m a l x l' z : chain m a (l ++ x :: l') z <-> chain m a l x /\ chain m x l' z.
Proof. revert a. induction l as [|y l IH]; intros a; cbn; [tauto|]. rewrite IH. tauto. Qed.

Lemma last_default (x a : Z) l : List.last l x = List.last (x :: l) a.
Proof. revert x. induction l as [|y l IH]; intros x; [done|]. destruct l; [done|]. apply (IH x). Qed.

(** The first and the last link of a chain. *)
Lemma chain_first m a l z : chain m a l z -> read_flink m a = hd z l.
Proof. destruct l; cbn; tauto. Qed.
Lemma chain_last m a l z : chain m a l z -> read_blink m z = List.last l a.
Proof. revert a. induction l as [|x l IH]; intros a; cbn; [tauto|]. intros (_ & _ & H). rewrite (IH _ H). apply last_default. Qed.

Lemma apart_sym x y : apart x y -> apart y x.
Proof. unfold apart. intuition congruence. Qed.

Lemma all_apart_app l l' : all_apart (l ++ l') <-> all_apart l /\ all_apart l' /\ Forall (fun x => Forall (apart x) l') l.
Proof.
  induction l as [|x l IH]; cbn; [split; [intros H; split; [done|]; split; [done|constructor]|tauto]|].
  rewrite Forall_app, IH, Forall_cons_iff. tauto.
Qed.

(** The words of an entry, and that they do not meet the links of the list. *)
Definition clear_of (entry : Z) (n : nat) (x : Z) : Prop :=
  forall k, (k < n)%nat -> entry +w 8 * Z.of_nat k <> x /\ entry +w 8 * Z.of_nat k <> x +w 8.

Lemma word_step a k : (a +w 8) +w 8 * k = a +w 8 * (k + 1).
Proof. unfold u64. rewrite Zplus_mod_idemp_l. f_equal. lia. Qed.

Lemma words_distinct a j k : 8 * Z.of_nat j < 2 ^ 64 -> 8 * Z.of_nat k < 2 ^ 64 -> j <> k -> a +w 8 * Z.of_nat j <> a +w 8 * Z.of_nat k.
Proof.
  intros Hj Hk Hne E. unfold u64 in E. apply Hne.
  assert ((8 * Z.of_nat j - 8 * Z.of_nat k) mod 2 ^ 64 = 0) as H.
  { replace (8 * Z.of_nat j - 8 * Z.of_nat k) with ((a + 8 * Z.of_nat j) - (a + 8 * Z.of_nat k)) by lia.
    rewrite Zminus_mod, E, Z.sub_diag. done. }
  apply Z.mod_divide in H as [q Hq]; [|lia]. nia.
Qed.

Lemma write_entry_other l : forall a m x,
  (forall k, (k < length l)%nat -> x <> a +w 8 * Z.of_nat k) -> in_u64 a -> write_entry a l m x = m x.
Proof.
  induction l as [|v l IH]; intros a m x H Ha; [done|]. cbn. rewrite IH.
  - apply write_word_other. intros ->. apply (H 0%nat); [cbn; lia|]. cbn. rewrite Z.add_0_r. symmetry. by apply u64_small.
  - intros k Hk. rewrite word_step. replace (Z.of_nat k + 1) with (Z.of_nat (S k)) by lia.
    apply H. cbn. lia.
  - apply u64_range.
Qed.

Lemma write_entry_at l : forall a m k v,
  l !! k = Some v -> in_u64 a -> 8 * Z.of_nat (length l) < 2 ^ 64 -> write_entry a l m (a +w 8 * Z.of_nat k) = v.
Proof.
  induction l as [|w l IH]; intros a m k v Hk Ha Hl; [done|]. cbn in Hl. cbn [write_entry]. destruct k as [|k].
  - cbn in Hk. injection Hk as ->. rewrite write_entry_other; [|intros j Hj|apply u64_range].
    + rewrite Z.mul_0_r, Z.add_0_r, u64_small by done. apply write_word_same.
    + rewrite word_step. replace (Z.of_nat j + 1) with (Z.of_nat (S j)) by lia. apply words_distinct; lia.
  - cbn in Hk. replace (a +w 8 * Z.of_nat (S k)) with ((a +w 8) +w 8 * Z.of_nat k) by (rewrite word_step; do 2 f_equal; lia).
    apply IH; [done|apply u64_range|lia].
Qed.

End List.
