(* ===== verification/LinkedListThm.v ===== *)
(** * Circular lists hold sequences

    Every operation of [LinkedList] refines its counterpart on the sequence of the
    entries, and a walk visits exactly them, also when the callback takes out the
    entry it is handed. *)

From S2P Require Import Prelude Mmu LinkedList.
From stdpp Require Import list.
From stdpp Require Import options.

Open Scope Z_scope.
Open Scope kern_scope.

Section Thm.
Context (k : nat).
Abbreviation la := (links_addr k).

Lemma links_word_at e : la e = e +w 8 * Z.of_nat k.
Proof. done. Qed.
Lemma blink_word_at e : la e +w 8 = e +w 8 * Z.of_nat (S k).
Proof. unfold links_addr, links_offset, u64. rewrite Zplus_mod_idemp_l. f_equal. lia. Qed.

(** ** Writing one link *)

Lemma same_links_flink m at_ v x : apart at_ x -> same_links m (write_flink at_ v m) x.
Proof. intros (H1 & H2 & _). split; apply write_word_other; congruence. Qed.
Lemma same_links_blink m at_ v x : apart at_ x -> same_links m (write_blink at_ v m) x.
Proof. intros (_ & _ & H1 & H2). split; apply write_word_other; congruence. Qed.
Lemma same_links_trans m m' m'' x : same_links m m' x -> same_links m' m'' x -> same_links m m'' x.
Proof. intros [H1 H2] [H3 H4]. split; congruence. Qed.

Lemma u64_8_ne a : in_u64 a -> a +w 8 <> a.
Proof.
  intros Ha E. unfold u64, in_u64 in *. destruct (Z.lt_ge_cases (a + 8) (2 ^ 64)).
  - rewrite Z.mod_small in E by lia. lia.
  - rewrite <- (Z.mod_add (a + 8) (-1)) in E by lia. rewrite Z.mod_small in E by lia. lia.
Qed.

Lemma flink_of_blink m at_ v : in_u64 at_ -> read_flink (write_blink at_ v m) at_ = read_flink m at_.
Proof. intros H. unfold read_flink, read_blink, write_flink, write_blink. rewrite write_word_other; [done|]. pose proof (u64_8_ne at_ H). congruence. Qed.
Lemma blink_of_flink m at_ v : in_u64 at_ -> read_blink (write_flink at_ v m) at_ = read_blink m at_.
Proof. intros H. unfold read_flink, read_blink, write_flink, write_blink. rewrite write_word_other; [done|]. pose proof (u64_8_ne at_ H). congruence. Qed.
Lemma flink_same at_ v m : read_flink (write_flink at_ v m) at_ = v.
Proof. apply write_word_same. Qed.
Lemma blink_same at_ v m : read_blink (write_blink at_ v m) at_ = v.
Proof. apply write_word_same. Qed.

(** ** Refinement *)

Lemma init_spec head m : in_u64 head -> is_list k (init head m) head [].
Proof.
  intros H. split; [|split; [by apply Forall_nil|done]|apply Forall_cons_2; [done|by apply Forall_nil]]. cbn. unfold init.
  rewrite flink_of_blink, flink_same, blink_same by done. done.
Qed.

Lemma all_apart_snoc l x : all_apart (l ++ [x]) <-> all_apart l /\ Forall (fun y => apart y x) l.
Proof.
  rewrite all_apart_app. cbn. split.
  - intros (H1 & _ & H2). split; [done|]. eapply Forall_impl; [exact H2|]. intros y Hy. cbn in Hy. by rewrite Forall_singleton in Hy.
  - intros [H1 H2]. split_and!; [done|by apply Forall_nil|done|]. eapply Forall_impl; [exact H2|]. intros y Hy. cbn. by apply Forall_singleton.
Qed.

(** The new entry meets none of the list, and fits in the address space. *)
Record fits (head : Z) (es : list Z) (e : Z) (contents : list Z) : Prop := {
  fi_links : (S k < length contents)%nat;
  fi_size : 8 * Z.of_nat (length contents) < 2 ^ 64;
  fi_range : in_u64 e;
  fi_clear : Forall (clear_of e (length contents)) (head :: map la es)
}.

Lemma clear_apart e n x : (S k < n)%nat -> clear_of e n x -> apart (la e) x.
Proof.
  intros Hn H. unfold apart. rewrite blink_word_at, links_word_at.
  destruct (H k ltac:(lia)), (H (S k) Hn). done.
Qed.

Lemma clear_same e contents m x : in_u64 e -> clear_of e (length contents) x -> same_links m (write_entry e contents m) x.
Proof. intros He H. split; apply write_entry_other; try done; intros j Hj E; destruct (H j Hj); congruence. Qed.

Lemma length_links_of f b contents : length (links_of k f b contents) = length contents.
Proof. unfold links_of. by rewrite !length_insert. Qed.

(** The links of the entry just written. *)
Lemma entry_links head es e contents f b m :
  fits head es e contents ->
  read_flink (write_entry e (links_of k f b contents) m) (la e) = f /\
  read_blink (write_entry e (links_of k f b contents) m) (la e) = b.
Proof.
  intros [Hl Hs Hr _]. unfold read_flink, read_blink. rewrite blink_word_at, links_word_at.
  split; apply write_entry_at; rewrite ?length_links_of; try done; unfold links_of.
  - rewrite list_lookup_insert_ne by lia. apply list_lookup_insert_eq. lia.
  - apply list_lookup_insert_eq. rewrite length_insert. lia.
Qed.

(** The words [push_back] changes among the links: the flink of the last links [b],
    the blink of the head, and the new links. *)
Lemma push_back_words head es e contents m :
  fits head es e contents -> in_u64 head -> let b := read_blink m head in
  in_u64 b -> (b = head \/ (apart b head /\ apart b (la e))) -> clear_of e (length contents) b ->
  (b = head -> read_flink m head = head) ->
  let m' := push_back k head contents e m in
  read_blink m' head = la e /\ read_flink m' (la e) = head /\ read_blink m' (la e) = b /\ read_flink m' b = la e /\
  (b <> head -> read_flink m' head = read_flink m head) /\ (b <> head -> read_blink m' b = read_blink m b) /\
  (forall x, apart x head -> apart x b -> clear_of e (length contents) x -> same_links m m' x).
Proof.
  intros Hf Hh b Hb Hbh Hcb Hbf m'. pose proof Hf as [Hl Hs He Hcl]. inversion_clear Hcl as [|? ? Hch Hcs].
  set (m1 := write_entry e (links_of k head b contents) m).
  destruct (entry_links head es e contents head b m Hf) as [Ef Eb]. fold m1 in Ef, Eb.
  assert (forall x, clear_of e (length contents) x -> same_links m m1 x) as Hm1
    by (intros x Hx; apply clear_same; [done|by rewrite length_links_of]).
  assert (apart head (la e)) as Hah by (apply apart_sym; by eapply clear_apart).
  assert (forall v x, apart head x -> same_links m1 (write_blink head (la e) (write_flink head v m1)) x) as Hw1.
  { intros v x Hx. eapply same_links_trans; [by apply (same_links_flink _ head v)|by apply same_links_blink]. }
  unfold m', push_back. fold b. fold m1. destruct (Z.eqb_spec b head) as [E|E].
  - destruct (Hw1 (la e) _ Hah) as [W1 W2]. unfold read_flink, read_blink in Ef, Eb. split_and!; try done.
    + apply blink_same.
    + unfold read_flink. congruence.
    + unfold read_blink. congruence.
    + rewrite E, flink_of_blink by done. apply flink_same.
    + intros x Hx _ Hc. eapply same_links_trans; [by apply Hm1|]. apply Hw1. by apply apart_sym.
  - destruct Hbh as [|[Hbh Hbe]]; [done|].
    set (m2 := write_flink b (la e) m1). set (m3 := write_flink head (read_flink m head) m2).
    assert (forall x, apart b x -> same_links m1 m2 x) as H2 by (intros x Hx; by apply same_links_flink).
    assert (forall x, apart head x -> same_links m2 m3 x) as H3 by (intros x Hx; by apply same_links_flink).
    assert (forall x, apart head x -> same_links m3 (write_blink head (la e) m3) x) as H4 by (intros x Hx; by apply same_links_blink).
    assert (apart head b) as Hhb by (by apply apart_sym).
    destruct (H2 _ Hbe) as [A1 A2], (H3 _ Hah) as [B1 B2], (H4 _ Hah) as [C1 C2], (H3 _ Hhb) as [D1 D2], (H4 _ Hhb) as [G1 G2], (Hm1 _ Hcb) as [K1 K2].
    unfold read_flink, read_blink in *. split_and!; try congruence.
    + apply blink_same.
    + rewrite G1, D1. apply flink_same.
    + intros _. change (read_flink (write_blink head (la e) m3) head = m head). rewrite flink_of_blink by done. apply flink_same.
    + intros _. rewrite G2, D2. unfold m2. change (read_blink (write_flink b (la e) m1) b = m (b +w 8)). by rewrite blink_of_flink.
    + intros x Hx Hxb Hc. eapply same_links_trans; [by apply Hm1|]. eapply same_links_trans; [apply H2; by apply apart_sym|].
      eapply same_links_trans; [apply H3; by apply apart_sym|]. apply H4. by apply apart_sym.
Qed.

Lemma push_back_spec head es e contents m :
  is_list k m head es -> fits head es e contents -> is_list k (push_back k head contents e m) head (es ++ [e]).
Proof.
  intros [Hc Ha Hr] Hf. pose proof Hf as [Hl Hs He Hcl]. inversion_clear Hr as [|? ? Hh Hes].
  split; rewrite ?List.map_app; cbn [map].
  2: { rewrite app_comm_cons, all_apart_snoc. split; [done|]. eapply Forall_impl; [exact Hcl|].
       intros x Hx. apply apart_sym. by eapply clear_apart. }
  2: { constructor; [done|]. apply Forall_app. split; [done|by apply Forall_singleton]. }
  apply chain_app. cbn [chain].
  pose proof (chain_last _ _ _ _ Hc) as Hb. inversion_clear Hcl as [|? ? Hch Hcs].
  destruct (map la es) as [|t L _] eqn:EL using rev_ind.
  - cbn in Hb. destruct Hc as [Hc1 Hc2].
    destruct (push_back_words head es e contents m Hf Hh) as (W1 & W2 & W3 & W4 & _); rewrite ?Hb; auto.
    rewrite Hb in W3, W4. cbn [chain]. done.
  - rewrite List.last_last in Hb. apply chain_app in Hc as [Hc1 [Hc2 Hc3]].
    apply Forall_app in Hcs as [HcL Hct]. inversion_clear Hct as [|? ? Hct' _].
    cbn [all_apart] in Ha. destruct Ha as [Hah Ha]. apply Forall_app in Hah as [HahL Hat]. inversion_clear Hat as [|? ? Hat' _].
    apply all_apart_snoc in Ha as [HaL HaLt].
    assert (in_u64 t) as Ht. { assert (In t (map la es)) as Hin by (rewrite EL; apply in_or_app; right; by left).
      apply in_map_iff in Hin as (y & <- & _). apply u64_range. }
    destruct (push_back_words head es e contents m Hf Hh) as (W1 & W2 & W3 & W4 & W5 & W6 & W7); rewrite ?Hb in *; auto.
    { right. split; [by apply apart_sym|]. apply apart_sym. by eapply clear_apart. }
    { intros ->. by destruct Hat'. }
    split; [|done]. apply chain_app. cbn [chain]. split; [|done].
    assert (t <> head) as Hth by (intros ->; by destruct Hat').
    eapply chain_same; [by apply W5| |by apply W6|exact Hc1].
    apply Forall_forall. intros x Hx. rewrite Forall_forall in HcL, HahL, HaLt. apply W7; [apply apart_sym; by apply HahL|by apply HaLt|by apply HcL].
Qed.
(** Of the rest of memory [push_back] leaves everything, and of the entry it
    changes only the links. *)
Lemma push_back_frame head es e contents m x :
  fits head es e contents -> (forall j, (j < length contents)%nat -> x <> e +w 8 * Z.of_nat j) ->
  x <> head -> x <> head +w 8 -> x <> read_blink m head -> push_back k head contents e m x = m x.
Proof.
  intros [_ _ He _] Hx H1 H2 H3. unfold push_back.
  destruct (_ =? head); unfold write_blink, write_flink; rewrite !write_word_other by done;
    apply write_entry_other; rewrite ?length_links_of; done.
Qed.

Lemma push_back_contents head es e contents m j v :
  is_list k m head es -> fits head es e contents -> contents !! j = Some v -> j <> k -> j <> S k ->
  push_back k head contents e m (e +w 8 * Z.of_nat j) = v.
Proof.
  intros [Hc _ _] [Hl Hs He Hcl] Hj H1 H2. apply lookup_lt_Some in Hj as Hjl. inversion_clear Hcl as [|? ? Hch Hcs].
  assert (clear_of e (length contents) (read_blink m head)) as Hcb.
  { rewrite (chain_last _ _ _ _ Hc). destruct (map (links_addr k) es) as [|t L _] eqn:E using rev_ind; [done|].
    rewrite List.last_last. apply Forall_app in Hcs as [_ Ht]. by rewrite Forall_singleton in Ht. }
  destruct (Hch j Hjl), (Hcb j Hjl). unfold push_back.
  destruct (_ =? head); unfold write_blink, write_flink; rewrite !write_word_other by done;
    (apply write_entry_at; [unfold links_of; by rewrite !list_lookup_insert_ne by done|done|by rewrite length_links_of]).
Qed.

(** *** Removing *)

Lemma ring_apart l x y : all_apart l -> In x l -> In y l -> x = y \/ apart x y.
Proof.
  induction l as [|z l IH]; [done|]. intros [Hz Ha] [<-|Hx] [<-|Hy]; [by left|..]; rewrite Forall_forall in Hz.
  - right. apply Hz. by apply list_elem_of_In.
  - right. apply apart_sym, Hz. by apply list_elem_of_In.
  - by apply IH.
Qed.

Lemma all_apart_nodup l : all_apart l -> NoDup l.
Proof.
  induction l as [|x l IH]; [constructor|]. intros [Hx Ha]. constructor; [|by apply IH]. intros Hin.
  rewrite Forall_forall in Hx. destruct (Hx x Hin) as [? _]. done.
Qed.

Lemma last_In (l : list Z) x : In (List.last l x) (x :: l).
Proof. revert x. induction l as [|y l IH]; intros x; [by left|]. rewrite <- last_default. right. apply IH. Qed.

(** A chain that ends elsewhere. *)
Lemma chain_retarget m m' a l x y :
  chain m a l x -> NoDup (a :: l) -> read_flink m' (List.last l a) = y -> read_blink m' y = List.last l a ->
  (forall w, In w (a :: l) -> w <> List.last l a -> read_flink m' w = read_flink m w) ->
  (forall w, In w l -> read_blink m' w = read_blink m w) -> chain m' a l y.
Proof.
  intros Hc Hnd. revert a Hc Hnd. induction l as [|z l IH]; intros a Hc Hnd Hf Hb Hfs Hbs; [done|].
  destruct Hc as (H1 & H2 & H3). rewrite <- (last_default z a l) in *. cbn [chain]. inversion_clear Hnd as [|? ? Ha Hnd'].
  split_and!.
  - rewrite <- H1. apply Hfs; [by left|]. intros E. apply Ha. rewrite E. apply list_elem_of_In, last_In.
  - rewrite <- H2. apply Hbs. by left.
  - apply IH; try done.
    + intros w Hw. apply Hfs. by right.
    + intros w Hw. apply Hbs. by right.
Qed.
(** The links an entry sits between, and the only two words its removal changes. *)
Record removal (m m' : words) (ring : list Z) (p n : Z) : Prop := {
  rm_flink : read_flink m' p = n;
  rm_blink : read_blink m' n = p;
  rm_flinks : forall w, In w ring -> w <> p -> read_flink m' w = read_flink m w;
  rm_blinks : forall w, In w ring -> w <> n -> read_blink m' w = read_blink m w;
  rm_other : forall x, x <> p -> x <> n +w 8 -> m' x = m x
}.

Lemma removal_words m ring p n :
  all_apart ring -> (forall x, In x ring -> in_u64 x) -> In p ring -> In n ring ->
  removal m (write_flink p n (write_blink n p m)) ring p n.
Proof.
  intros Ha Hrange Hp Hn. set (m' := write_flink p n (write_blink n p m)).
  assert (forall x, x <> p -> x <> n +w 8 -> m' x = m x) as Hoth.
  { intros x H1 H2. unfold m', write_flink, write_blink. by rewrite !write_word_other. }
  split; [apply flink_same| | | |done].
  - unfold m', read_blink, write_flink. rewrite write_word_other; [apply write_word_same|].
    destruct (ring_apart _ n p Ha Hn Hp) as [->|Hap]; [by apply u64_8_ne, Hrange|apply Hap].
  - intros w Hw Hwp. apply Hoth; [done|]. destruct (ring_apart _ w n Ha Hw Hn) as [->|Hap]; [|apply Hap].
    intros E. symmetry in E. by apply (u64_8_ne n (Hrange n Hn)).
  - intros w Hw Hwn. apply Hoth.
    + destruct (ring_apart _ w p Ha Hw Hp) as [->|Hap]; [by apply u64_8_ne, Hrange|apply Hap].
    + destruct (ring_apart _ w n Ha Hw Hn) as [->|Hap]; [done|apply Hap].
Qed.

(** A ring without one of its links, once the two links beside it are joined. *)
Lemma ring_removal m m' head L1 x L2 :
  chain m head L1 x -> chain m x L2 head -> NoDup (head :: L1 ++ x :: L2) ->
  removal m m' (head :: L1 ++ x :: L2) (List.last L1 head) (hd head L2) -> chain m' head (L1 ++ L2) head.
Proof.
  intros Hc1 Hc2 Hnd [Hpf Hnb Hfs Hbs _]. rewrite app_comm_cons in Hnd. apply NoDup_app in Hnd as (Hnd1 & Hdis & Hnd2).
  assert (forall w, In w (x :: L2) -> In w (head :: L1 ++ x :: L2)) as Hin2 by (intros w Hw; right; apply in_or_app; by right).
  assert (chain m' head L1 (hd head L2)) as Hch1.
  { apply (chain_retarget m m' head L1 x); try done.
    - intros w Hw. apply Hfs. destruct Hw as [<-|Hw]; [by left|]. right. apply in_or_app. by left.
    - intros w Hw. apply Hbs; [right; apply in_or_app; by left|]. intros ->. apply list_elem_of_In in Hw.
      destruct L2 as [|y L2]; cbn in Hw; [by inversion_clear Hnd1|]. apply (Hdis y); [by right|]. right. left. }
  destruct L2 as [|y L2]; cbn in Hch1; [by rewrite app_nil_r|].
  apply chain_app. split; [done|]. destruct Hc2 as (_ & _ & Hc2).
  assert (forall w, w ∈ y :: L2 -> w ∉ head :: L1) as Hd2 by (intros w Hw Hw'; apply (Hdis w Hw'); by right).
  assert (forall w, w ∈ y :: L2 -> w <> List.last L1 head) as Hlast
    by (intros w Hw ->; apply (Hd2 _ Hw), list_elem_of_In, last_In).
  inversion_clear Hnd2 as [|? ? Hy1 Hy2]. inversion_clear Hy2 as [|? ? Hy Hnd3].
  eapply chain_same; [| |apply Hbs; [by left|]|exact Hc2].
  - apply Hfs; [apply Hin2; right; by left|apply Hlast; by left].
  - apply Forall_forall. intros w Hw. apply list_elem_of_In in Hw as Hw'. split.
    + apply Hfs; [apply Hin2; right; by right|apply Hlast; by right].
    + apply Hbs; [apply Hin2; right; by right|]. cbn. congruence.
  - cbn. intros <-. apply (Hd2 head); [by left|by left].
Qed.

Lemma remove_spec head es1 e es2 m :
  is_list k m head (es1 ++ e :: es2) ->
  is_list k (LinkedList.remove k e m) head (es1 ++ es2) /\
  forall x, x <> List.last (map la es1) head -> x <> hd head (map la es2) +w 8 -> LinkedList.remove k e m x = m x.
Proof.
  intros [Hc Ha Hr]. rewrite List.map_app in Hc, Ha. cbn [map] in Hc, Ha. apply chain_app in Hc as [Hc1 Hc2].
  unfold LinkedList.remove. rewrite (chain_first _ _ _ _ Hc2), (chain_last _ _ _ _ Hc1).
  assert (removal m (write_flink (List.last (map la es1) head) (hd head (map la es2))
    (write_blink (hd head (map la es2)) (List.last (map la es1) head) m)) (head :: map la es1 ++ la e :: map la es2)
    (List.last (map la es1) head) (hd head (map la es2))) as Hrm.
  { apply removal_words; [done| | |].
    - intros x [<-|Hx]; [by inversion_clear Hr|].
      change (la e :: map la es2) with (map la (e :: es2)) in Hx. rewrite <- List.map_app in Hx.
      apply in_map_iff in Hx as (y & <- & _). apply u64_range.
    - pose proof (last_In (map la es1) head) as [H|H]; [by left|]. right. apply in_or_app. by left.
    - destruct es2 as [|y es2]; [by left|]. right. apply in_or_app. right. right. by left. }
  split; [|apply Hrm]. split; [rewrite List.map_app; eapply ring_removal; [done|done|by apply all_apart_nodup|done]| |].
  - rewrite List.map_app. rewrite app_comm_cons in Ha |- *. rewrite !all_apart_app in Ha |- *. cbn in Ha. destruct Ha as (H1 & [H2 H3] & H4).
    split_and!; [done|done|]. eapply Forall_impl; [exact H4|]. intros x Hx. cbn in Hx. by inversion_clear Hx.
  - inversion_clear Hr as [|? ? Hh Hr']. apply Forall_cons_2; [done|]. apply Forall_app in Hr' as [H1 H2].
    apply Forall_app. split; [done|]. by inversion_clear H2.
Qed.

(** ** Walking *)

(** A callback that takes out the entries [p] picks and folds [f] over all. *)
Definition visit {A} (p : Z -> bool) (f : Z -> A -> A) (e : Z) (s : words * A) : bool * (words * A) :=
  (true, (if p e then LinkedList.remove k e s.1 else s.1, f e s.2)).

Lemma walk_rest {A} p (f : Z -> A -> A) head rest : forall fuel kept m (x : A),
  is_list k m head (kept ++ rest) -> (length rest < fuel)%nat ->
  exists m', for_each_from k (visit p f) fuel head (hd head (map la rest)) (m, x) = Some (m', foldl (fun x e => f e x) x rest) /\
    is_list k m' head (kept ++ List.filter (fun e => negb (p e)) rest).
Proof.
  induction rest as [|e rest IH]; intros [|fuel] kept m x Hl Hf; cbn in Hf; try lia.
  { exists m. cbn. by rewrite Z.eqb_refl. }
  cbn [for_each_from hd map]. pose proof Hl as [Hc Ha Hr]. rewrite List.map_app in Hc, Ha. cbn [map] in Hc, Ha.
  apply chain_app in Hc as [_ Hc].
  assert (la e <> head) as Hne.
  { apply all_apart_nodup in Ha. inversion_clear Ha as [|? ? Hn _]. intros E. apply Hn. rewrite <- E. apply elem_of_app. right. left. }
  rewrite (proj2 (Z.eqb_neq _ _) Hne). cbn [fst visit]. rewrite (chain_first _ _ _ _ Hc).
  assert (la e -w links_offset k = e) as ->.
  { apply u64_add_sub. inversion_clear Hr as [|? ? _ Hr']. apply Forall_app in Hr' as [_ Hr']. by inversion_clear Hr'. }
  unfold visit at 1. cbn [fst snd]. destruct (p e) eqn:Ep; cbn [List.filter foldl]; rewrite Ep; cbn [negb].
  - apply IH; [|lia]. by apply remove_spec in Hl as [? _].
  - destruct (IH fuel (kept ++ [e]) m (f e x)) as (m' & E & Hl'); [by rewrite <- app_assoc|lia|].
    exists m'. split; [done|]. by rewrite <- app_assoc in Hl'.
Qed.

Lemma for_each_spec {A} p (f : Z -> A -> A) head es fuel m x :
  is_list k m head es -> (length es < fuel)%nat ->
  exists m', for_each k (visit p f) fuel head (m, x) = Some (m', foldl (fun x e => f e x) x es) /\
    is_list k m' head (List.filter (fun e => negb (p e)) es).
Proof.
  intros Hl Hf. unfold for_each. cbn [fst]. rewrite (chain_first _ _ _ _ (il_chain _ _ _ _ Hl)).
  by apply (walk_rest p f head es fuel []).
Qed.
Lemma size_spec head es fuel m : is_list k m head es -> (length es < fuel)%nat -> LinkedList.size k fuel head m = Some (length es).
Proof.
  intros Hl Hf. unfold LinkedList.size.
  destruct (for_each_spec (fun _ => false) (fun _ => S) head es fuel m 0%nat Hl Hf) as (m' & E & _).
  change (for_each k (fun _ s => (true, (s.1, S s.2)))) with (for_each k (visit (fun _ => false) (fun _ => S))).
  rewrite E. cbn. f_equal. clear. rewrite <- (Nat.add_0_r (length es)). generalize 0%nat.
  induction es as [|e es IH]; intros n; cbn; [done|]. rewrite IH. lia.
Qed.

Lemma empty_spec head es m : is_list k m head es -> LinkedList.empty head m = match es with [] => true | _ => false end.
Proof.
  intros [Hc Ha _]. unfold LinkedList.empty. rewrite (chain_first _ _ _ _ Hc). destruct es as [|e es]; cbn; [apply Z.eqb_refl|].
  apply Z.eqb_neq. apply all_apart_nodup in Ha. inversion_clear Ha as [|? ? Hn _]. intros E. apply Hn. rewrite E. left.
Qed.

(** C32: a circular list in memory is the sequence of its entries.  [init] makes
    the empty one; [push_back] adds an entry that meets no other at the end, with
    its contents, and touches no memory but the entry and the two links beside it;
    [remove] takes out any entry, wherever it is; [for_each] visits every entry
    once, in order, and comes back, also when the callback removes the entries it
    is handed; [size] and [empty] count them. *)
Theorem linked_list_refines head m es :
  in_u64 head -> is_list k (init head m) head [] /\
  (is_list k m head es ->
    (forall e contents, fits head es e contents ->
       is_list k (push_back k head contents e m) head (es ++ [e]) /\
       (forall j v, contents !! j = Some v -> j <> k -> j <> S k -> push_back k head contents e m (e +w 8 * Z.of_nat j) = v) /\
       (forall x, (forall j, (j < length contents)%nat -> x <> e +w 8 * Z.of_nat j) ->
          x <> head -> x <> head +w 8 -> x <> read_blink m head -> push_back k head contents e m x = m x)) /\
    (forall es1 e es2, es = es1 ++ e :: es2 -> is_list k (LinkedList.remove k e m) head (es1 ++ es2)) /\
    (forall A p (f : Z -> A -> A) fuel x, (length es < fuel)%nat ->
       exists m', for_each k (visit p f) fuel head (m, x) = Some (m', foldl (fun x e => f e x) x es) /\
         is_list k m' head (List.filter (fun e => negb (p e)) es)) /\
    (forall fuel, (length es < fuel)%nat -> LinkedList.size k fuel head m = Some (length es)) /\
    LinkedList.empty head m = match es with [] => true | _ => false end).
Proof.
  intros Hh. split; [by apply init_spec|]. intros Hl. split_and!.
  - intros e contents Hf. split_and!; [by apply push_back_spec| |].
    + intros j v Hj H1 H2. by eapply push_back_contents.
    + intros x. by eapply push_back_frame.
  - intros es1 e es2 ->. by apply remove_spec in Hl as [? _].
  - intros A p f fuel x Hf. by apply for_each_spec.
  - intros fuel Hf. by apply size_spec.
  - by apply empty_spec.
Qed.
End Thm.
