(* ===== verification/Objects.v ===== *)
(** * Objects and handles

    kernel/win/win_obj_manager.cpp and win_handle_table.cpp: the objects by the
    address of their bodies, their names, and the handles that stand for them.
    The header of an object is the _OBJECT_HEADER in front of its body; an object
    registered without one is not counted. *)

From S2P Require Import Prelude Paths.
From stdpp Require Import list gmap.
From stdpp Require Import options.

Open Scope Z_scope.
Open Scope kern_scope.

Record header : Type := Header { PointerCount : Z; HandleCount : Z; TypeIndex : Z }.
Record object_entry : Type := ObjectEntry { o_header : option header; o_host : option Z }.

Record manager : Type := Manager {
  objects_ : gmap Z object_entry;
  named_ : gmap str Z;
  next_id_ : Z
}.
Definition set_objects f m := Manager (f (objects_ m)) (named_ m) (next_id_ m).
Definition set_named f m := Manager (objects_ m) (f (named_ m)) (next_id_ m).

(** [sizeof(_OBJECT_HEADER)]. *)
Definition hdr_size : Z := 0x38.

(** [base] is what the address space allocated. *)
Definition create_object (base type_index : Z) (host : option Z) (m : manager) : Z * manager :=
  let body_addr := base +w hdr_size in
  (body_addr, set_objects <[body_addr := ObjectEntry (Some (Header 1 0 type_index)) host]> m).

Definition register_object (body_addr : Z) (host : option Z) (m : manager) : manager :=
  set_objects <[body_addr := ObjectEntry None host]> m.

Definition register_named_object (name : str) (body_addr : Z) (m : manager) : manager :=
  match name with [] => m | _ => set_named <[name := body_addr]> m end.
Definition lookup_named_object (name : str) (m : manager) : Z := default 0 (named_ m !! name).
Definition unregister_named_object (name : str) (m : manager) : manager := set_named (delete name) m.

(** The names directly under a directory, sorted, each once. *)
Definition child_of (prefix name : str) : option str :=
  match after_prefix prefix name with
  | Some leaf => match before_slash leaf with [] => None | c => Some c end
  | None => None
  end.
Definition child_names (prefix : str) (m : manager) : list str :=
  to_set (omap (fun p => child_of prefix p.1) (map_to_list (named_ m))).

Definition get_object (body_addr : Z) (m : manager) : option Z := objects_ m !! body_addr ≫= o_host.
Definition has_object (body_addr : Z) (m : manager) : bool := bool_decide (is_Some (objects_ m !! body_addr)).

(** Reading the header, changing it, writing it back. *)
Definition on_header (f : header -> header) (body_addr : Z) (m : manager) : manager :=
  set_objects (alter (fun o => ObjectEntry (f <$> o_header o) (o_host o)) body_addr) m.
Definition add_pointer (d : Z) (h : header) : header := Header (s64 (PointerCount h + d)) (HandleCount h) (TypeIndex h).
Definition add_handle (d : Z) (h : header) : header := Header (PointerCount h) (s64 (HandleCount h + d)) (TypeIndex h).

Definition reference_object : Z -> manager -> manager := on_header (add_pointer 1).
Definition dereference_object : Z -> manager -> manager := on_header (add_pointer (-1)).
Definition increment_handle_count : Z -> manager -> manager := on_header (add_handle 1).
Definition decrement_handle_count : Z -> manager -> manager := on_header (add_handle (-1)).

Definition allocate_id (m : manager) : Z * manager := (next_id_ m, Manager (objects_ m) (named_ m) (u32 (next_id_ m + 4))).

(** ** The handle table *)

Record table : Type := Table { handles_ : gmap Z (Z * Z); next_handle_ : Z; objs_ : manager }.

Definition lookup_handle (handle : Z) (t : table) : option (Z * Z) := handles_ t !! handle.

Definition create_handle (body_addr access : Z) (t : table) : Z * table :=
  if has_object body_addr (objs_ t) then
    let h := next_handle_ t in
    (h, Table (<[h := (body_addr, access)]> (handles_ t)) (h +w 4) (increment_handle_count body_addr (objs_ t)))
  else (0, t).

Definition close_handle (handle : Z) (t : table) : bool * table :=
  match handles_ t !! handle with
  | None => (false, t)
  | Some (body_addr, _) =>
      (true, Table (delete handle (handles_ t)) (next_handle_ t) (decrement_handle_count body_addr (objs_ t)))
  end.

Definition get_object_of (handle : Z) (t : table) : option Z :=
  lookup_handle handle t ≫= fun e => get_object e.1 (objs_ t).

(** ** What can happen to a table *)

Definition on_objs (f : manager -> manager) (t : table) : table := Table (handles_ t) (next_handle_ t) (f (objs_ t)).

Inductive step (t : table) : table -> Prop :=
  (** The address space hands out memory no object is in. *)
  | s_create base type host :
      objects_ (objs_ t) !! (base +w hdr_size) = None -> step t (on_objs (fun m => (create_object base type host m).2) t)
  | s_register body host : step t (on_objs (register_object body host) t)
  | s_name name body : step t (on_objs (register_named_object name body) t)
  | s_unname name : step t (on_objs (unregister_named_object name) t)
  | s_reference body : step t (on_objs (reference_object body) t)
  | s_dereference body : step t (on_objs (dereference_object body) t)
  | s_open body access : next_handle_ t < 2 ^ 64 - 4 -> step t (create_handle body access t).2
  | s_close handle : step t (close_handle handle t).2.

Inductive reachable : table -> Prop :=
  | r_start : reachable (Table ∅ 4 (Manager ∅ ∅ 4))
  | r_step t t' : reachable t -> step t t' -> reachable t'.

(** ** The invariant *)

Definition handles_to (body : Z) (hs : gmap Z (Z * Z)) : nat := size (filter (fun p => p.2.1 = body) hs).

Record table_ok (t : table) : Prop := {
  tk_next : 0 < next_handle_ t < 2 ^ 64 /\ next_handle_ t mod 4 = 0;
  tk_handles : forall h e, handles_ t !! h = Some e -> 0 < h < next_handle_ t /\ h mod 4 = 0;
  tk_objects : forall h e, handles_ t !! h = Some e -> is_Some (objects_ (objs_ t) !! e.1);
  tk_counts : forall body o hd, objects_ (objs_ t) !! body = Some o -> o_header o = Some hd ->
    HandleCount hd = s64 (Z.of_nat (handles_to body (handles_ t)))
}.

Lemma s64_add x d : s64 (s64 x + d) = s64 (x + d).
Proof.
  unfold s64, signed. set (y := x mod 2 ^ 64). assert ((if y <? 2 ^ (64 - 1) then y else y - 2 ^ 64) mod 2 ^ 64 = y) as E.
  { assert (0 <= y < 2 ^ 64) by (apply Z.mod_pos_bound; lia). destruct (y <? 2 ^ (64 - 1)); [by apply Z.mod_small|].
    replace (y - 2 ^ 64) with (y + (-1) * 2 ^ 64) by lia. rewrite Z.mod_add by lia. by apply Z.mod_small. }
  set (z := if y <? 2 ^ (64 - 1) then y else y - 2 ^ 64) in *.
  assert ((z + d) mod 2 ^ 64 = (x + d) mod 2 ^ 64) as ->; [|done].
  rewrite Zplus_mod, E. unfold y. by rewrite <- Zplus_mod.
Qed.

Lemma handles_to_insert body h b a hs :
  hs !! h = None -> handles_to body (<[h := (b, a)]> hs) = if decide (b = body) then S (handles_to body hs) else handles_to body hs.
Proof.
  intros Hn. unfold handles_to. case_decide as Hb.
  - rewrite map_filter_insert_True by done. apply map_size_insert_None. rewrite map_lookup_filter_None. by left.
  - rewrite map_filter_insert_False by done. by rewrite delete_id.
Qed.

Lemma handles_to_delete body h b a hs :
  hs !! h = Some (b, a) -> handles_to body hs = if decide (b = body) then S (handles_to body (delete h hs)) else handles_to body (delete h hs).
Proof. intros Hs. rewrite <- (insert_delete_id hs h (b, a) Hs) at 1. apply handles_to_insert, lookup_delete_eq. Qed.

Lemma handles_to_none body hs : (forall h e, hs !! h = Some e -> e.1 <> body) -> handles_to body hs = 0%nat.
Proof. intros H. unfold handles_to. apply map_size_empty_iff, map_empty. intros h. apply map_lookup_filter_None. right. intros e He. by apply (H h e). Qed.

(** Changes of objects that keep the counts of those that stay. *)
Lemma table_ok_objs t m :
  table_ok t ->
  (forall body, is_Some (objects_ (objs_ t) !! body) -> is_Some (objects_ m !! body)) ->
  (forall body o hd, objects_ m !! body = Some o -> o_header o = Some hd ->
     (exists o' hd', objects_ (objs_ t) !! body = Some o' /\ o_header o' = Some hd' /\ HandleCount hd = HandleCount hd') \/
     (objects_ (objs_ t) !! body = None /\ HandleCount hd = 0)) ->
  table_ok (Table (handles_ t) (next_handle_ t) m).
Proof.
  intros [H1 H2 H3 H4] Hk Hc. split; cbn; [done|done| |].
  - intros h e He. by apply Hk, (H3 h).
  - intros body o hd Ho Hh. destruct (Hc body o hd Ho Hh) as [(o' & hd' & Ho' & Hh' & ->)|[Hn ->]]; [by eapply H4|].
    rewrite handles_to_none; [done|]. intros h e He <-. destruct (H3 h e He). congruence.
Qed.

Lemma on_header_lookup f body m b :
  objects_ (on_header f body m) !! b =
    (fun o => if decide (b = body) then ObjectEntry (f <$> o_header o) (o_host o) else o) <$> objects_ m !! b.
Proof.
  unfold on_header, set_objects. cbn. destruct (decide (b = body)) as [->|Hb].
  - by rewrite lookup_alter_eq.
  - rewrite lookup_alter_ne by congruence. by destruct (_ !! b).
Qed.

Lemma step_pointer d body t : table_ok t -> table_ok (on_objs (on_header (add_pointer d) body) t).
Proof.
  intros H. apply table_ok_objs; [done| |].
  - intros b [o Ho]. rewrite on_header_lookup, Ho. by eexists.
  - intros b o hd. rewrite on_header_lookup. destruct (objects_ (objs_ t) !! b) as [o'|] eqn:E; cbn; [|done].
    intros Ho Hh. left. case_decide; simplify_eq; cbn in Hh.
    + destruct (o_header o') as [hd'|] eqn:Eh; [|done]. injection Hh as <-. by exists o', hd'.
    + by exists o, hd.
Qed.

Lemma step_open body access t : next_handle_ t < 2 ^ 64 - 4 -> table_ok t -> table_ok (create_handle body access t).2.
Proof.
  intros Hn Hok. pose proof Hok as [[H1 H1'] H2 H3 H4]. unfold create_handle. destruct (has_object body (objs_ t)) eqn:E; [|done]. cbn [snd].
  assert (handles_ t !! next_handle_ t = None) as Hfresh.
  { destruct (handles_ t !! next_handle_ t) as [e|] eqn:Ee; [|done]. destruct (H2 _ _ Ee). lia. }
  assert (next_handle_ t +w 4 = next_handle_ t + 4) as En by (apply u64_small; unfold in_u64; lia).
  split; cbn [objs_ handles_ next_handle_]; rewrite ?En.
  - split; [lia|]. rewrite <- Zplus_mod_idemp_l, H1'. done.
  - intros h e He. apply lookup_insert_Some in He as [[<- <-]|[_ He]]; [by split; [lia|]|]. destruct (H2 h e He). split; [lia|done].
  - intros h e He. unfold increment_handle_count. rewrite on_header_lookup.
    apply lookup_insert_Some in He as [[<- <-]|[_ He]].
    + apply bool_decide_eq_true in E as [o Eo]. cbn. rewrite Eo. by eexists.
    + destruct (H3 h e He) as [o Eo]. rewrite Eo. by eexists.
  - intros b o hd. unfold increment_handle_count. rewrite on_header_lookup.
    destruct (objects_ (objs_ t) !! b) as [o'|] eqn:Eo; cbn; [|done]. intros Ho Hh. rewrite handles_to_insert by done.
    case_decide as Hb; simplify_eq; cbn in Hh.
    + destruct (o_header o') as [hd'|] eqn:Eh; [|done]. injection Hh as <-. cbn. rewrite decide_True by done.
      rewrite (H4 _ _ _ Eo Eh), s64_add. f_equal. lia.
    + rewrite decide_False by congruence. by eapply H4.
Qed.

Lemma step_close handle t : table_ok t -> table_ok (close_handle handle t).2.
Proof.
  intros Hok. pose proof Hok as [H1 H2 H3 H4]. unfold close_handle. destruct (handles_ t !! handle) as [[body a]|] eqn:E; [|done]. cbn [snd].
  split; cbn [objs_ handles_ next_handle_]; [done| | |].
  - intros h e He. apply lookup_delete_Some in He as [_ He]. by apply (H2 h e).
  - intros h e He. apply lookup_delete_Some in He as [_ He]. unfold decrement_handle_count. rewrite on_header_lookup.
    destruct (H3 h e He) as [o Eo]. rewrite Eo. by eexists.
  - intros b o hd. unfold decrement_handle_count. rewrite on_header_lookup.
    destruct (objects_ (objs_ t) !! b) as [o'|] eqn:Eo; cbn; [|done]. intros Ho Hh.
    pose proof (handles_to_delete b handle body a _ E) as Hd. destruct (decide (b = body)) as [->|Hb]; simplify_eq; cbn in Hh.
    + destruct (o_header o') as [hd'|] eqn:Eh; [|done]. injection Hh as <-. cbn. rewrite decide_True in Hd by done.
      rewrite (H4 _ _ _ Eo Eh), s64_add, Hd. f_equal. lia.
    + rewrite decide_False in Hd by congruence. rewrite <- Hd. by eapply H4.
Qed.

Lemma step_ok t t' : table_ok t -> step t t' -> table_ok t'.
Proof.
  intros Hok Hs. destruct Hs as [base type host Hn|body host|name body|name|body|body|body access Hn|handle].
  - apply table_ok_objs; [done| |].
    + intros b [o Ho]. cbn. destruct (decide (b = base +w hdr_size)) as [->|Hb]; [rewrite lookup_insert_eq|rewrite lookup_insert_ne by congruence; rewrite Ho]; by eexists.
    + intros b o hd Ho Hh. cbn in Ho. apply lookup_insert_Some in Ho as [[<- <-]|[_ Ho]]; [|left; by exists o, hd].
      right. cbn in Hh. injection Hh as <-. done.
  - apply table_ok_objs; [done| |].
    + intros b [o Ho]. cbn. destruct (decide (b = body)) as [->|Hb]; [rewrite lookup_insert_eq|rewrite lookup_insert_ne by congruence; rewrite Ho]; by eexists.
    + intros b o hd Ho Hh. cbn in Ho. apply lookup_insert_Some in Ho as [[<- <-]|[_ Ho]]; [done|left; by exists o, hd].
  - apply table_ok_objs; [done|by destruct name|]. intros b o hd Ho Hh. left. exists o, hd. by destruct name.
  - apply table_ok_objs; [done..|]. intros b o hd Ho Hh. left. by exists o, hd.
  - by apply step_pointer.
  - by apply step_pointer.
  - by apply step_open.
  - by apply step_close.
Qed.

Lemma reachable_ok t : reachable t -> table_ok t.
Proof.
  induction 1 as [|t t' _ IH Hs]; [|by eapply step_ok]. split; cbn; [done|..]; intros *; by rewrite lookup_empty.
Qed.

(** C18: however objects and handles are made, named, referenced and closed, every
    handle is a positive multiple of 4 below the next one, stands for an object
    that is there, and the HandleCount in an object's header is the number of
    handles open on it.  A new handle was not open before, stands for the object
    it was made for, and leaves every other handle alone; a closed one stands for
    nothing, and closing it again is refused. *)
Theorem handle_counts t :
  reachable t -> next_handle_ t < 2 ^ 64 - 4 ->
  (forall h e, lookup_handle h t = Some e -> 0 < h < next_handle_ t /\ h mod 4 = 0 /\ has_object e.1 (objs_ t) = true) /\
  (forall body o hd, objects_ (objs_ t) !! body = Some o -> o_header o = Some hd ->
     HandleCount hd = s64 (Z.of_nat (handles_to body (handles_ t)))) /\
  (forall body access, let '(h, t') := create_handle body access t in
     if has_object body (objs_ t) then
       h <> 0 /\ lookup_handle h t = None /\ lookup_handle h t' = Some (body, access) /\
       handles_to body (handles_ t') = S (handles_to body (handles_ t)) /\
       forall h', h' <> h -> lookup_handle h' t' = lookup_handle h' t
     else h = 0 /\ t' = t) /\
  (forall h, let '(ok, t') := close_handle h t in
     ok = bool_decide (is_Some (lookup_handle h t)) /\ lookup_handle h t' = None /\ (close_handle h t').1 = false /\
     forall h', h' <> h -> lookup_handle h' t' = lookup_handle h' t).
Proof.
  intros Hr Hn. pose proof (reachable_ok t Hr) as [[H1 H1'] H2 H3 H4]. split_and!; [|done| |].
  - intros h e He. destruct (H2 h e He). split; [done|]. split; [done|]. apply bool_decide_eq_true. by apply (H3 h e).
  - intros body access. unfold create_handle. destruct (has_object body (objs_ t)); [|done]. unfold lookup_handle. cbn.
    assert (handles_ t !! next_handle_ t = None) as Hfresh.
    { destruct (handles_ t !! next_handle_ t) as [e|] eqn:Ee; [|done]. destruct (H2 _ _ Ee). lia. }
    split_and!; [lia|done|by rewrite lookup_insert_eq| |].
    + rewrite handles_to_insert by done. by rewrite decide_True.
    + intros h' Hh'. by rewrite lookup_insert_ne.
  - intros h. unfold close_handle, lookup_handle. destruct (handles_ t !! h) as [[body a]|] eqn:E; cbn.
    + rewrite lookup_delete_eq. split_and!; [done|done|done|]. intros h' Hh'. by rewrite lookup_delete_ne.
    + rewrite E. by split_and!.
Qed.
