(* ===== verification/ObjectsThm.v ===== *)
(** * A new object and the handle to it

    What several entry points do with the object manager: they make an object,
    name it, and open a handle on it.  The handle stands for the object, and
    everything there was before is still what it was. *)

From stdpp Require Import list gmap.
From S2P Require Import Prelude Paths Objects.
From stdpp Require Import options.

Open Scope Z_scope.
Open Scope kern_scope.

(** The object manager has memory no object is in, and the table handles left. *)
Definition body_of (base : Z) : Z := base +w hdr_size.
Definition has_room (base : Z) (t : table) : Prop :=
  body_of base <> 0 /\ objects_ (objs_ t) !! body_of base = None /\ next_handle_ t < 2 ^ 64 - 4.

Definition named_object (host : option Z) (base : Z) (n : str) (t : table) : table :=
  on_objs (register_named_object n (body_of base)) (on_objs (fun _ => (create_object base 0 host (objs_ t)).2) t).

Record created (host : option Z) (base : Z) (n : str) (access : Z) (t t' : table) : Prop := {
  cr_ok : table_ok t';
  cr_handles : handles_ t' = <[next_handle_ t := (body_of base, access)]> (handles_ t);
  cr_body : objects_ (objs_ t') !! body_of base = Some (ObjectEntry (Some (Header 1 (s64 1) 0)) host);
  cr_name : n <> [] -> lookup_named_object n (objs_ t') = body_of base;
  cr_objects : forall b, b <> body_of base -> objects_ (objs_ t') !! b = objects_ (objs_ t) !! b
}.

Lemma named_object_created host base n access t :
  table_ok t -> has_room base t ->
  exists t', create_handle (body_of base) access (named_object host base n t) = (next_handle_ t, t') /\ created host base n access t t'.
Proof.
  intros Hok (Hb & Hnone & Hnext). set (t2 := named_object host base n t).
  assert (table_ok t2) as Ok2.
  { apply (step_ok (on_objs (fun _ => (create_object base 0 host (objs_ t)).2) t)); [|apply s_name].
    apply (step_ok t); [done|]. by apply (s_create t base 0 host). }
  assert (objects_ (objs_ t2) = <[body_of base := ObjectEntry (Some (Header 1 0 0)) host]> (objects_ (objs_ t))) as Eo by (by destruct n).
  assert (has_object (body_of base) (objs_ t2) = true) as Eh by (apply bool_decide_eq_true; rewrite Eo, lookup_insert_eq; by eexists).
  assert (table_ok (create_handle (body_of base) access t2).2) as Ok3 by (by apply step_open).
  unfold create_handle in *. rewrite Eh in *. cbn [snd] in Ok3. eexists. split; [reflexivity|].
  assert (forall b, objects_ (increment_handle_count (body_of base) (objs_ t2)) !! b =
    if decide (b = body_of base) then Some (ObjectEntry (Some (Header 1 (s64 1) 0)) host) else objects_ (objs_ t) !! b) as El.
  { intros b. unfold increment_handle_count. rewrite on_header_lookup, Eo. case_decide as E; [subst b; by rewrite lookup_insert_eq|].
    rewrite lookup_insert_ne by congruence. by destruct (_ !! b). }
  split; cbn [handles_ objs_]; [done|done| | |].
  - rewrite El. by rewrite decide_True.
  - intros Hn. unfold lookup_named_object. cbn. destruct n; [done|]. cbn. by rewrite lookup_insert_eq.
  - intros b Hne. rewrite El. by rewrite decide_False.
Qed.

Section Created.
Context (host : option Z) (base : Z) (n : str) (access : Z) (t t' : table).
Context (Ht : table_ok t) (Hroom : has_room base t) (H : created host base n access t t').

Lemma created_lookup : lookup_handle (next_handle_ t) t' = Some (body_of base, access).
Proof using H. unfold lookup_handle. rewrite (cr_handles _ _ _ _ _ _ H). by rewrite lookup_insert_eq. Qed.
Lemma created_body : get_object (body_of base) (objs_ t') = host.
Proof using H. unfold get_object. by rewrite (cr_body _ _ _ _ _ _ H). Qed.
Lemma created_new : get_object_of (next_handle_ t) t' = host.
Proof using H. unfold get_object_of. rewrite created_lookup. cbn. apply created_body. Qed.

Lemma created_object b : is_Some (objects_ (objs_ t) !! b) -> objects_ (objs_ t') !! b = objects_ (objs_ t) !! b.
Proof using Hroom H.
  intros [o Eo]. apply (cr_objects _ _ _ _ _ _ H). intros ->. destruct Hroom as (_ & Hn & _). congruence.
Qed.

(** Handles that were open stand for what they stood for. *)
Lemma created_handle h e : lookup_handle h t = Some e ->
  h <> next_handle_ t /\ lookup_handle h t' = Some e /\ get_object_of h t' = get_object_of h t.
Proof using Ht Hroom H.
  unfold get_object_of, lookup_handle. intros E. destruct (tk_handles _ Ht h _ E) as [Hh _]. pose proof (tk_objects _ Ht h _ E) as Ho.
  rewrite (cr_handles _ _ _ _ _ _ H), lookup_insert_ne by lia. rewrite E. split_and!; [lia|done|]. cbn. unfold get_object. by rewrite created_object.
Qed.
Lemma created_handle_host h r : get_object_of h t = Some r -> get_object_of h t' = Some r /\ h <> next_handle_ t.
Proof using Ht Hroom H.
  intros E. pose proof E as E'. unfold get_object_of in E'. destruct (lookup_handle h t) as [e|] eqn:Eh; [|done].
  destruct (created_handle h e Eh) as (H1 & _ & ->). done.
Qed.
End Created.
