(* ===== verification/Registry.v ===== *)
(** * The registry

    kernel/win/registry.cpp: a flat map from normalized paths to keys.  Keys are
    shared objects: a handle keeps the one it was opened with, whatever happens to
    the path. *)

From S2P Require Import Prelude Paths.
From stdpp Require Import list gmap sorting.
From stdpp Require Import options.

Open Scope Z_scope.
Open Scope kern_scope.

(** ** Keys *)

(** A type the guest names is cast, so it may be none of the enumerators. *)
Inductive registry_type : Type :=
  | reg_none | reg_sz | reg_expand_sz | reg_binary | reg_dword | reg_dword_be | reg_link | reg_multi_sz | reg_qword
  | reg_other (code : Z).

Definition type_code (t : registry_type) : Z :=
  match t with
  | reg_none => 0 | reg_sz => 1 | reg_expand_sz => 2 | reg_binary => 3 | reg_dword => 4 | reg_dword_be => 5
  | reg_link => 6 | reg_multi_sz => 7 | reg_qword => 11 | reg_other code => code
  end.
Definition type_of_code (c : Z) : registry_type :=
  if c =? 0 then reg_none else if c =? 1 then reg_sz else if c =? 2 then reg_expand_sz else if c =? 3 then reg_binary
  else if c =? 4 then reg_dword else if c =? 5 then reg_dword_be else if c =? 6 then reg_link else if c =? 7 then reg_multi_sz
  else if c =? 11 then reg_qword else reg_other c.

Lemma type_code_of c : type_code (type_of_code c) = c.
Proof.
  unfold type_of_code. repeat match goal with |- context [c =? ?n] => destruct (Z.eqb_spec c n) as [->|]; [reflexivity|] end. reflexivity.
Qed.

Record registry_value : Type := RegistryValue { r_type : registry_type; r_data : list Z }.
Definition key : Type := gmap str registry_value.

(** With a null pointer the data is [size] zero bytes if the value is new; an old
    value is cut or extended. *)
Definition set_value_null (name : str) (type : registry_type) (size : nat) (k : key) : key :=
  let old := default [] (r_data <$> k !! name) in
  <[name := RegistryValue type (take size old ++ replicate (size - length old) 0)]> k.
Definition set_value (name : str) (type : registry_type) (data : list Z) (k : key) : key :=
  <[name := RegistryValue type data]> k.
Definition query_value (name : str) (k : key) : option registry_value := k !! name.
Definition delete_value (name : str) (k : key) : bool * key := (bool_decide (is_Some (k !! name)), delete name k).

Definition set_dword (name : str) (v : Z) (k : key) : key := set_value name reg_dword (le_bytes 4 v) k.
Definition set_qword (name : str) (v : Z) (k : key) : key := set_value name reg_qword (le_bytes 8 v) k.
(** 16-bit characters, and a terminator. *)
Definition set_wstring (name : str) (v : list Z) (k : key) : key :=
  set_value name reg_sz (flat_map (le_bytes 2) v ++ [0; 0]) k.
Definition set_string (name : str) (v : str) (k : key) : key := set_wstring name v k.
Definition set_binary (name : str) (data : list Z) (k : key) : key := set_value name reg_binary data k.
Definition enumerate_values (k : key) : list str := to_set (map_to_list k).*1.

(** ** The registry *)

(** [keys_] holds references; the keys they refer to are in [store]. *)
Record registry : Type := Registry { keys_ : gmap str nat; store : gmap nat key; fresh_ref : nat }.

Definition open_key (path : str) (g : registry) : option nat := keys_ g !! path.
Definition key_exists (path : str) (g : registry) : bool := bool_decide (is_Some (keys_ g !! path)).

Definition make_key (path : str) (g : registry) : nat * registry :=
  let r := fresh_ref g in (r, Registry (<[path := r]> (keys_ g)) (<[r := ∅]> (store g)) (S r)).

(** The prefixes of a path that end before a slash, shortest first. *)
Fixpoint ancestors_from (front rest : str) : list str :=
  match rest with
  | [] => []
  | c :: rest => if c =? slash then front :: ancestors_from (front ++ [c]) rest else ancestors_from (front ++ [c]) rest
  end.
Definition ancestors (path : str) : list str := ancestors_from [] path.

Definition ensure_key (path : str) (g : registry) : registry :=
  if key_exists path g then g else (make_key path g).2.

Definition create_key (path : str) (g : registry) : nat * registry :=
  match keys_ g !! path with
  | Some r => (r, g)
  | None => make_key path (foldl (fun g p => ensure_key p g) g (ancestors path))
  end.

Definition delete_key (path : str) (g : registry) : bool * registry :=
  (key_exists path g, Registry (delete path (keys_ g)) (store g) (fresh_ref g)).

Definition subkey_of (prefix path : str) : option str := before_slash <$> after_prefix prefix path.
Definition enumerate_subkeys (parent : str) (g : registry) : list str :=
  to_set (omap (fun p => subkey_of (parent ++ [slash]) p.1) (map_to_list (keys_ g))).

(** "registry/machine/" *)
Definition machine_prefix : str := [114; 101; 103; 105; 115; 116; 114; 121; 47; 109; 97; 99; 104; 105; 110; 101; 47].

Definition strip (p s : str) : str := default s (after_prefix p s).

(** From the 16-bit characters of the guest, of which the low byte is kept. *)
Definition normalize_path (guest_path : list Z) : str :=
  let path := map fold_char (map (fun c => Z.land c 0xFF) guest_path) in
  let path := strip machine_prefix path in
  let path := strip [slash] path in
  let path := strip machine_prefix path in
  drop_slashes path.

(** ** Properties *)

Lemma ancestors_from_spec rest : forall front p,
  p ∈ ancestors_from front rest <-> exists r r', rest = r ++ slash :: r' /\ p = front ++ r.
Proof.
  induction rest as [|c rest IH]; intros front p; cbn.
  - rewrite elem_of_nil. split; [done|]. intros (r & r' & E & _). by destruct r.
  - destruct (Z.eqb_spec c slash) as [->|Hc]; rewrite ?elem_of_cons, IH.
    + split.
      * intros [->|(r & r' & -> & ->)]; [exists [], rest; by rewrite app_nil_r|].
        exists (slash :: r), r'. split; [done|]. by rewrite <- app_assoc.
      * intros ([|d r] & r' & E & ->); [left; by rewrite app_nil_r|]. cbn in E. injection E as <- ->.
        right. exists r, r'. split; [done|]. by rewrite <- app_assoc.
    + split.
      * intros (r & r' & -> & ->). exists (c :: r), r'. split; [done|]. by rewrite <- app_assoc.
      * intros ([|d r] & r' & E & ->); cbn in E; injection E as -> ->; [done|]. exists r, r'. split; [done|]. by rewrite <- app_assoc.
Qed.

(** A path is below an ancestor when the ancestor, a slash and more make it. *)
Lemma elem_of_ancestors path p : p ∈ ancestors path <-> exists r, path = p ++ slash :: r.
Proof.
  unfold ancestors. rewrite ancestors_from_spec. split.
  - intros (r & r' & -> & ->). by exists r'.
  - intros (r & ->). by exists p, r.
Qed.

(** Every key has its ancestors, and no two paths name one key. *)
Record registry_ok (g : registry) : Prop := {
  rk_closed : forall path p, is_Some (keys_ g !! path) -> p ∈ ancestors path -> is_Some (keys_ g !! p);
  rk_refs : forall path r, keys_ g !! path = Some r -> (r < fresh_ref g)%nat /\ is_Some (store g !! r);
  rk_inj : forall p q r, keys_ g !! p = Some r -> keys_ g !! q = Some r -> p = q
}.

(** What making keys keeps: all the old ones, with their contents; and what it adds. *)
Record extends (g g' : registry) (added : list str) : Prop := {
  ex_keys : forall p r, keys_ g !! p = Some r -> keys_ g' !! p = Some r;
  ex_store : forall r, (r < fresh_ref g)%nat -> store g' !! r = store g !! r;
  ex_added : forall p, keys_ g !! p = None -> is_Some (keys_ g' !! p) <-> p ∈ added;
  ex_empty : forall p r, keys_ g !! p = None -> keys_ g' !! p = Some r -> store g' !! r = Some ∅;
  ex_fresh : (fresh_ref g <= fresh_ref g')%nat;
  ex_refs : forall p r, keys_ g' !! p = Some r -> (r < fresh_ref g')%nat /\ is_Some (store g' !! r);
  ex_inj : forall p q r, keys_ g' !! p = Some r -> keys_ g' !! q = Some r -> p = q
}.

Lemma extends_refl g : registry_ok g -> extends g g [].
Proof. intros [H1 H2 H3]. split; try done. - intros p ->. split; [by intros []|by rewrite elem_of_nil]. - intros p r ->. done. Qed.

Lemma make_key_extends g0 g added path :
  extends g0 g added -> keys_ g !! path = None -> extends g0 (make_key path g).2 (path :: added).
Proof.
  intros [H1 H2 H3 H4 H5 H6 H7] Hn. unfold make_key. cbn.
  assert (forall p, keys_ g !! p <> Some (fresh_ref g)) as Hfr by (intros p Hp; destruct (H6 p _ Hp); lia).
  split; cbn.
  - intros p r Hp. rewrite lookup_insert_ne; [by apply H1|]. intros ->. rewrite (H1 _ _ Hp) in Hn. done.
  - intros r Hr. rewrite lookup_insert_ne by lia. by apply H2.
  - intros p Hp. rewrite elem_of_cons, <- (H3 p Hp). destruct (decide (p = path)) as [->|Hne].
    + rewrite lookup_insert_eq. split; [by left|by eexists].
    + rewrite lookup_insert_ne by congruence. split; [by right|]. by intros [?|?].
  - intros p r Hp. destruct (decide (p = path)) as [->|Hne].
    + rewrite lookup_insert_eq. intros [= <-]. apply lookup_insert_eq.
    + rewrite lookup_insert_ne by congruence. intros Hr. rewrite lookup_insert_ne; [by apply (H4 p)|]. intros <-. by apply (Hfr p).
  - lia.
  - intros p r. destruct (decide (p = path)) as [->|Hne].
    + rewrite lookup_insert_eq. intros [= <-]. split; [lia|]. rewrite lookup_insert_eq. by eexists.
    + rewrite lookup_insert_ne by congruence. intros Hr. destruct (H6 p r Hr) as [Hlt Hs]. split; [lia|].
      rewrite lookup_insert_ne by lia. done.
  - intros p q r. rewrite !lookup_insert_Some. intros [[<- <-]|[Hp Hpr]] [[<- Hr]|[Hq Hqr]]; try done.
    + exfalso. by apply (Hfr q).
    + subst r. exfalso. by apply (Hfr p).
    + by apply (H7 p q r).
Qed.

Lemma ensure_extends g0 l : forall g added,
  extends g0 g added -> (forall p, p ∈ added -> keys_ g0 !! p = None) ->
  exists added', extends g0 (foldl (fun g p => ensure_key p g) g l) added' /\
    (forall p, p ∈ added' <-> p ∈ added \/ (p ∈ l /\ keys_ g0 !! p = None)).
Proof.
  induction l as [|x l IH]; intros g added Hx Ha; cbn [foldl].
  { exists added. split; [done|]. intros p. rewrite elem_of_nil. tauto. }
  unfold ensure_key at 2. unfold key_exists. destruct (keys_ g !! x) as [r|] eqn:E.
  - rewrite bool_decide_true by (by eexists). destruct (IH g added Hx Ha) as (added' & H1 & H2).
    exists added'. split; [done|]. intros p. rewrite H2, elem_of_cons. split; [tauto|]. intros [?|[[->|?] Hn]]; [tauto| |tauto].
    left. apply (ex_added _ _ _ Hx x Hn). by eexists.
  - rewrite bool_decide_false by (intros [? ?]; congruence).
    assert (keys_ g0 !! x = None) as Hn by (destruct (keys_ g0 !! x) eqn:E'; [by rewrite (ex_keys _ _ _ Hx _ _ E') in E|done]).
    destruct (IH (make_key x g).2 (x :: added)) as (added' & H1 & H2).
    { by apply make_key_extends. }
    { intros p [->|Hp]%elem_of_cons; [done|by apply Ha]. }
    exists added'. split; [done|]. intros p. rewrite H2, !elem_of_cons. split; [|tauto].
    intros [[->|?]|[? ?]]; [right; split; [by left|done]|by left|right; split; [by right|done]].
Qed.

Lemma not_own_ancestor path : path ∉ ancestors path.
Proof. rewrite elem_of_ancestors. intros (r & E). apply (f_equal length) in E. rewrite length_app in E. cbn in E. lia. Qed.

Lemma ancestors_trans path p q : p ∈ ancestors path -> q ∈ ancestors p -> q ∈ ancestors path.
Proof. rewrite !elem_of_ancestors. intros (r & ->) (r' & ->). exists (r' ++ slash :: r). by rewrite <- app_assoc. Qed.

Lemma create_key_spec path g :
  registry_ok g -> let '(r, g') := create_key path g in
  registry_ok g' /\ keys_ g' !! path = Some r /\
  exists added, extends g g' added /\ forall p, p ∈ added <-> (p = path \/ p ∈ ancestors path) /\ keys_ g !! p = None.
Proof.
  intros Hok. unfold create_key. destruct (keys_ g !! path) as [r|] eqn:E.
  { split_and!; [done|done|]. exists []. split; [by apply extends_refl|]. intros p. rewrite elem_of_nil. split; [done|].
    intros [[->|Hp] Hn]; [congruence|]. destruct (rk_closed _ Hok path p); [by eexists|done|congruence]. }
  destruct (ensure_extends g (ancestors path) g [] (extends_refl g Hok)) as (added & Hx & Ha); [by setoid_rewrite elem_of_nil|].
  set (g1 := foldl _ _ _) in *.
  assert (keys_ g1 !! path = None) as Hn.
  { destruct (keys_ g1 !! path) eqn:E1; [|done]. exfalso. assert (path ∈ added) as Hp by (apply (ex_added _ _ _ Hx path E); by eexists).
    apply Ha in Hp as [Hp|[Hp _]]; [by apply elem_of_nil in Hp|]. by apply not_own_ancestor in Hp. }
  pose proof (make_key_extends g g1 added path Hx Hn) as Hx2. destruct (make_key path g1) as [r g'] eqn:Em.
  assert (r = fresh_ref g1 /\ g' = (make_key path g1).2) as [-> Eg] by (rewrite Em; unfold make_key in Em; by injection Em as <- <-).
  cbn [snd] in Hx2. assert (forall p, p ∈ path :: added <-> (p = path \/ p ∈ ancestors path) /\ keys_ g !! p = None) as Hadd.
  { intros p. rewrite elem_of_cons, Ha, elem_of_nil. split; [|tauto].
    intros [->|[[]|[? ?]]]; [split; [by left|done]|split; [by right|done]]. }
  split_and!.
  - split; [|apply Hx2|apply Hx2]. intros q p Hq Hp.
    destruct (keys_ g !! p) as [r0|] eqn:Ep; [eexists; by apply (ex_keys _ _ _ Hx2)|].
    apply (ex_added _ _ _ Hx2 p Ep), Hadd. split; [|done]. destruct (keys_ g !! q) as [r0|] eqn:Eq.
    { destruct (rk_closed _ Hok q p); [by eexists|done|congruence]. }
    apply (ex_added _ _ _ Hx2 q Eq), Hadd in Hq as [[->|Hq] _]; [by right|]. right. by eapply ancestors_trans.
  - rewrite Eg. cbn. apply lookup_insert_eq.
  - by exists (path :: added).
Qed.

Lemma elem_of_subkeys parent g c :
  c ∈ enumerate_subkeys parent g <->
  has_slash c = false /\ exists path r, is_Some (keys_ g !! path) /\ path = parent ++ slash :: c ++ r /\ (r = [] \/ exists r', r = slash :: r').
Proof.
  unfold enumerate_subkeys. rewrite elem_of_to_set, list_elem_of_omap. unfold subkey_of. split.
  - intros ([path r0] & Hin & Hc). apply elem_of_map_to_list in Hin. cbn in Hc.
    destruct (after_prefix (parent ++ [slash]) path) as [rest|] eqn:E; [|done]. cbn in Hc. injection Hc as <-.
    apply after_prefix_Some in E as ->. destruct (before_slash_split rest) as [Hs (r & Hr & Hr')].
    split; [done|]. eexists _, r. split; [by eexists|]. split; [|done]. rewrite <- app_assoc. cbn. by rewrite <- Hr.
  - intros (Hs & path & r & [k0 Hk] & -> & Hr). exists (parent ++ slash :: c ++ r, k0). split; [by apply elem_of_map_to_list|]. cbn.
    replace (parent ++ slash :: c ++ r) with ((parent ++ [slash]) ++ c ++ r) by (by rewrite <- app_assoc).
    rewrite after_prefix_app. cbn. by rewrite before_slash_app.
Qed.

(** C37: [create_key] returns the key at the path, new and empty if there was none,
    and makes exactly the ancestors that were missing; every other key keeps its
    place, its identity and its values.  In a registry made this way
    [enumerate_subkeys] lists, sorted and without repetition, exactly the names
    under which a key can be opened below the parent; and no two paths share a
    key, so a value set through one is not seen through another. *)
Theorem create_key_correct path g :
  registry_ok g -> let '(r, g') := create_key path g in
  registry_ok g' /\ open_key path g' = Some r /\
  (forall p, p ∈ ancestors path -> key_exists p g' = true) /\
  (forall p r0, open_key p g = Some r0 -> open_key p g' = Some r0 /\ store g' !! r0 = store g !! r0) /\
  (forall p, key_exists p g = false -> key_exists p g' = true -> (p = path \/ p ∈ ancestors path) /\
     exists r0, open_key p g' = Some r0 /\ store g' !! r0 = Some ∅) /\
  (forall parent, StronglySorted str_lt (enumerate_subkeys parent g')) /\
  (forall parent c, c ∈ enumerate_subkeys parent g' <-> has_slash c = false /\ key_exists (parent ++ slash :: c) g' = true) /\
  (forall p q r0, open_key p g' = Some r0 -> open_key q g' = Some r0 -> p = q).
Proof.
  intros Hok. pose proof (create_key_spec path g Hok) as H. destruct (create_key path g) as [r g'].
  destruct H as (Hok' & Hp & added & Hx & Ha). unfold open_key, key_exists. split_and!; [done|done| | | | | |apply Hok'].
  - intros p Hin. apply bool_decide_eq_true. apply (rk_closed _ Hok' path p); [by eexists|done].
  - intros p r0 Hr0. split; [by apply (ex_keys _ _ _ Hx)|]. apply (ex_store _ _ _ Hx). by apply (rk_refs _ Hok p).
  - intros p Hn Hs. apply bool_decide_eq_false, eq_None_not_Some in Hn. apply bool_decide_eq_true in Hs.
    split; [apply Ha; by apply (ex_added _ _ _ Hx)|]. destruct Hs as [r0 Hr0]. exists r0. split; [done|]. by apply (ex_empty _ _ _ Hx p).
  - intros parent. apply to_set_sorted.
  - intros parent c. rewrite elem_of_subkeys, bool_decide_eq_true. split.
    + intros (Hs & q & r0 & Hq & -> & Hr0). split; [done|]. destruct Hr0 as [->|[r' ->]]; [by rewrite app_nil_r in Hq|].
      apply (rk_closed _ Hok' _ _ Hq). apply elem_of_ancestors. exists r'. by rewrite <- app_assoc.
    + intros [Hs Hk]. split; [done|]. exists (parent ++ slash :: c), []. rewrite app_nil_r. auto.
Qed.
