(* ===== verification/Filesystem.v ===== *)
(** * The filesystem

    kernel/win/filesystem.cpp: files by normalized path, and the directories no
    file implies.  A file is a shared object: two paths can name one file, and a
    handle keeps it alive. *)

From S2P Require Import Prelude Paths.
From stdpp Require Import list gmap sorting.
From stdpp Require Import options.

Open Scope Z_scope.
Open Scope kern_scope.

(** "/systemroot", "c:/windows", "/??/" and "/dosdevices/". *)
Definition systemroot_name : str := [47; 115; 121; 115; 116; 101; 109; 114; 111; 111; 116].
Definition windows_dir_key : str := [99; 58; 47; 119; 105; 110; 100; 111; 119; 115].
Definition nt_prefix : str := [47; 63; 63; 47].
Definition dosdevices_prefix : str := [47; 100; 111; 115; 100; 101; 118; 105; 99; 101; 115; 47].

Definition normalize (path : str) : str :=
  let result := drop_slashes (map fold_char path) in
  let result :=
    match after_prefix nt_prefix result with
    | Some r => r
    | None => default result (after_prefix dosdevices_prefix result)
    end in
  match after_prefix systemroot_name result with
  | Some [] => windows_dir_key
  | Some (c :: r) => if c =? slash then windows_dir_key ++ c :: r else result
  | None => result
  end.

(** [files_] holds references to the files of [contents]; [holders] counts the
    references the rest of the system has. *)
Record filesystem : Type := Filesystem {
  files_ : gmap str nat; dirs_ : gset str; contents : gmap nat (list Z); holders : nat -> nat; fresh_file : nat
}.
Definition set_files f fs := Filesystem (f (files_ fs)) (dirs_ fs) (contents fs) (holders fs) (fresh_file fs).

(** The two forms of [win_file::write]: the bytes of a span, and [size] bytes at a
    pointer, where a null pointer only resizes. *)
Definition write (r : nat) (data : list Z) (fs : filesystem) : filesystem :=
  Filesystem (files_ fs) (dirs_ fs) (<[r := data]> (contents fs)) (holders fs) (fresh_file fs).
Definition write_at (r : nat) (buf : option (list Z)) (size : nat) (fs : filesystem) : filesystem :=
  write r (match buf with Some data => data | None => resize size 0 (default [] (contents fs !! r)) end) fs.

Definition open (path : str) (fs : filesystem) : option nat := files_ fs !! normalize path.
Definition exists_ (path : str) (fs : filesystem) : bool := bool_decide (is_Some (files_ fs !! normalize path)).

Definition create (path : str) (fs : filesystem) : nat * filesystem :=
  let r := fresh_file fs in
  (r, Filesystem (<[normalize path := r]> (files_ fs)) (dirs_ fs) (<[r := []]> (contents fs)) (holders fs) (S r)).

(** [use_count]: the paths that name the file and everybody else who holds it. *)
Definition use_count (r : nat) (fs : filesystem) : nat :=
  (size (filter (fun p => p.2 = r) (files_ fs)) + holders fs r)%nat.

Definition remove (path : str) (fs : filesystem) : bool * filesystem :=
  match files_ fs !! normalize path with
  | None => (false, fs)
  | Some r => if (1 <? use_count r fs)%nat then (false, fs) else (true, set_files (delete (normalize path)) fs)
  end.

Definition link (from to : str) (fs : filesystem) : bool * filesystem :=
  match files_ fs !! normalize from with
  | None => (false, fs)
  | Some r => (true, set_files <[normalize to := r]> fs)
  end.

(** [load_file] on the bytes the host gave and the size it reports. *)
Definition load_file (buffer : list Z) (host_size : Z) (virtual_path : str) (fs : filesystem) : bool * filesystem :=
  match buffer with
  | [] => if host_size =? 0 then (true, (create virtual_path fs).2) else (false, fs)
  | _ => let '(r, fs) := create virtual_path fs in (true, write r buffer fs)
  end.

(** The path up to its last slash, if it has one. *)
Fixpoint parent_of (s : str) : option str :=
  match s with
  | [] => None
  | c :: s => match parent_of s with Some p => Some (c :: p) | None => if c =? slash then Some [] else None end
  end.

(** The loop of [create_directory]; each turn shortens the path. *)
Fixpoint directory_chain (fuel : nat) (norm : str) : list str :=
  match fuel, norm with
  | S fuel, _ :: _ => norm :: match parent_of norm with Some p => directory_chain fuel p | None => [] end
  | _, _ => []
  end.
Definition create_directory (path : str) (fs : filesystem) : filesystem :=
  let norm := normalize path in
  Filesystem (files_ fs) (list_to_set (directory_chain (length norm) norm) ∪ dirs_ fs) (contents fs) (holders fs) (fresh_file fs).

Definition dir_exists (path : str) (fs : filesystem) : bool :=
  let norm := normalize path in
  match norm with
  | [] => true
  | _ => bool_decide (norm ∈ dirs_ fs) ||
         existsb (fun p => starts_with p.1 (norm ++ [slash])) (map_to_list (files_ fs))
  end.

(** ** Listing *)

Record dir_entry : Type := DirEntry { is_directory : bool; e_size : Z }.
Definition entries : Type := gmap str dir_entry.

Definition dir_prefix (path : str) : str := match normalize path with [] => [] | p => p ++ [slash] end.

Definition as_file (name : str) (n : Z) (es : entries) : entries :=
  <[name := DirEntry (default false (is_directory <$> es !! name)) n]> es.
Definition as_directory (name : str) (es : entries) : entries :=
  <[name := DirEntry true (default 0 (e_size <$> es !! name))]> es.

Definition list_file (prefix key : str) (n : Z) (es : entries) : entries :=
  match after_prefix prefix key with
  | None | Some [] => es
  | Some rest => if has_slash rest then as_directory (before_slash rest) es else as_file rest n es
  end.
Definition list_directory (prefix dir : str) (es : entries) : entries :=
  match after_prefix prefix dir with
  | None | Some [] => es
  | Some rest => as_directory (before_slash rest) es
  end.

Definition file_size (fs : filesystem) (r : nat) : Z := Z.of_nat (length (default [] (contents fs !! r))).

Definition dir_entries (path : str) (fs : filesystem) : entries :=
  let prefix := dir_prefix path in
  let es := foldr (fun p es => list_file prefix p.1 (file_size fs p.2) es) ∅ (map_to_list (files_ fs)) in
  foldr (fun d es => list_directory prefix d es) es (elements (dirs_ fs)).

(** In the order of the names. *)
Definition list_dir (path : str) (fs : filesystem) : list (str * dir_entry) :=
  omap (fun n => e ← dir_entries path fs !! n; Some (n, e)) (to_set (map_to_list (dir_entries path fs)).*1).

(** ** Properties *)

(** What a file or a directory at [key] contributes under the name [n]. *)
Definition below (prefix key n : str) : Prop := exists r, key = prefix ++ n ++ slash :: r /\ has_slash n = false.
Definition at_name (prefix key n : str) : Prop := key = prefix ++ n /\ has_slash n = false /\ n <> [].

Lemma has_slash_app a b : has_slash (a ++ b) = has_slash a || has_slash b.
Proof. apply existsb_app. Qed.

Lemma has_slash_mid a b : has_slash (a ++ slash :: b) = true.
Proof. rewrite has_slash_app. cbn. apply orb_true_r. Qed.

Lemma rest_cases rest : rest <> [] ->
  (has_slash rest = false /\ before_slash rest = rest) \/
  (has_slash rest = true /\ exists r, rest = before_slash rest ++ slash :: r /\ has_slash (before_slash rest) = false).
Proof.
  intros Hne. destruct (before_slash_split rest) as [Hs (r & Hr & [->|[r' ->]])].
  - left. rewrite app_nil_r in Hr. rewrite <- Hr in Hs. split; [done|by symmetry].
  - right. split; [|by exists r']. rewrite Hr. apply has_slash_mid.
Qed.

Lemma after_prefix_None p s : after_prefix p s = None -> forall r, s <> p ++ r.
Proof. intros H r ->. by rewrite after_prefix_app in H. Qed.

(** What a key contributes under one name: nothing, a directory, or a file. *)
Lemma contribution prefix key n :
  (at_name prefix key n /\ ~ below prefix key n /\
    (forall z es, list_file prefix key z es !! n = Some (DirEntry (default false (is_directory <$> es !! n)) z)) /\
    (forall es, list_directory prefix key es !! n = Some (DirEntry true (default 0 (e_size <$> es !! n))))) \/
  (~ at_name prefix key n /\ below prefix key n /\
    (forall z es, list_file prefix key z es !! n = Some (DirEntry true (default 0 (e_size <$> es !! n)))) /\
    (forall es, list_directory prefix key es !! n = Some (DirEntry true (default 0 (e_size <$> es !! n))))) \/
  (~ at_name prefix key n /\ ~ below prefix key n /\
    (forall z es, list_file prefix key z es !! n = es !! n) /\ (forall es, list_directory prefix key es !! n = es !! n)).
Proof.
  unfold list_file, list_directory, as_file, as_directory. destruct (after_prefix prefix key) as [[|c rest]|] eqn:E.
  - apply after_prefix_Some in E as ->. right. right. split_and!; [| |done|done].
    + intros (H & _ & Hn). apply app_inv_head in H. by subst n.
    + intros (r & H & _). apply app_inv_head in H. by destruct n.
  - apply after_prefix_Some in E as ->. destruct (rest_cases (c :: rest)) as [[Hs Hb]|[Hs (r & Hr & Hb)]]; [done| |].
    + rewrite Hs, Hb. assert (~ below prefix (prefix ++ c :: rest) n) as Hnb.
      { intros (r & H & _). apply app_inv_head in H. by rewrite H, has_slash_mid in Hs. }
      destruct (decide (n = c :: rest)) as [->|Hn].
      * left. split_and!; [by split|done|intros; apply lookup_insert_eq..].
      * right. right. split_and!; [|done|intros; by apply lookup_insert_ne..].
        intros (H & _). by apply app_inv_head in H.
    + rewrite Hs. assert (~ at_name prefix (prefix ++ c :: rest) n) as Hna.
      { intros (H & Hn & _). apply app_inv_head in H. congruence. }
      destruct (decide (n = before_slash (c :: rest))) as [->|Hn].
      * right. left. split_and!; [done| |intros; apply lookup_insert_eq..]. exists r. by rewrite <- Hr.
      * right. right. split_and!; [done| |intros; by apply lookup_insert_ne..].
        intros (r' & H & Hn'). apply app_inv_head in H. apply Hn. rewrite H. symmetry. apply before_slash_app; [done|]. right. by exists r'.
  - right. right. pose proof (after_prefix_None _ _ E) as H. split_and!; [intros (H' & _); by apply (H n)| |done|done].
    intros (r & H' & _). by apply (H (n ++ slash :: r)).
Qed.

(** What a listing of the files [F] and the directories [D] has under the name [n]. *)
Definition dir_of (o : option dir_entry) : bool := default false (is_directory <$> o).
Definition size_of (o : option dir_entry) : Z := default 0 (e_size <$> o).

Record listed (prefix : str) (F : list (str * Z)) (D : list str) (n : str) (o : option dir_entry) : Prop := {
  li_some : is_Some o <-> Exists (fun p => at_name prefix p.1 n \/ below prefix p.1 n) F \/ Exists (fun d => at_name prefix d n \/ below prefix d n) D;
  li_dir : dir_of o = true <-> Exists (fun p => below prefix p.1 n) F \/ Exists (fun d => at_name prefix d n \/ below prefix d n) D;
  li_file : forall p, p ∈ F -> at_name prefix p.1 n -> size_of o = p.2;
  li_other : Forall (fun p => ~ at_name prefix p.1 n) F -> size_of o = 0
}.

Lemma listed_nil prefix n : listed prefix [] [] n None.
Proof.
  split; [| |intros p Hp; by apply elem_of_nil in Hp|done]; rewrite !Exists_nil; split; [by intros []|tauto|done|tauto].
Qed.

Lemma listed_file prefix F key z n es :
  key ∉ F.*1 -> listed prefix F [] n (es !! n) -> listed prefix ((key, z) :: F) [] n (list_file prefix key z es !! n).
Proof.
  intros Hk [H1 H2 H3 H4]. rewrite Exists_nil in H1, H2.
  assert (at_name prefix key n -> Forall (fun p => ~ at_name prefix p.1 n) F) as Hone.
  { intros (E & _). apply Forall_forall. intros p Hp (E' & _). apply Hk. rewrite E, <- E'. apply list_elem_of_fmap. by exists p. }
  destruct (contribution prefix key n) as [(Ha & Hb & -> & _)|[(Ha & Hb & -> & _)|(Ha & Hb & -> & _)]].
  all: split; rewrite ?Exists_cons, ?Exists_nil, ?Forall_cons; cbn [fst snd dir_of size_of is_directory e_size fmap option_fmap option_map default].
  - split; [auto|by eexists].
  - fold (dir_of (es !! n)). tauto.
  - intros p [->|Hp]%elem_of_cons Hp'; [done|]. exfalso. apply Hone in Ha. rewrite Forall_forall in Ha. by apply (Ha p).
  - tauto.
  - split; [auto|by eexists].
  - tauto.
  - intros p [->|Hp]%elem_of_cons Hp'; [done|]. by apply (H3 p).
  - intros [_ Hf]. by apply H4.
  - tauto.
  - tauto.
  - intros p [->|Hp]%elem_of_cons Hp'; [done|]. by apply (H3 p).
  - intros [_ Hf]. by apply H4.
Qed.

Lemma listed_directory prefix F D dir n es :
  listed prefix F D n (es !! n) -> listed prefix F (dir :: D) n (list_directory prefix dir es !! n).
Proof.
  intros [H1 H2 H3 H4].
  destruct (contribution prefix dir n) as [(Ha & Hb & _ & ->)|[(Ha & Hb & _ & ->)|(Ha & Hb & _ & ->)]].
  all: split; rewrite ?Exists_cons; cbn [fst snd dir_of size_of is_directory e_size fmap option_fmap option_map default];
    try done; try tauto; split; auto; by eexists.
Qed.

Definition file_list (fs : filesystem) : list (str * Z) := (fun p => (p.1, file_size fs p.2)) <$> map_to_list (files_ fs).

Lemma dir_entries_listed path fs n :
  listed (dir_prefix path) (file_list fs) (elements (dirs_ fs)) n (dir_entries path fs !! n).
Proof.
  unfold dir_entries. induction (elements (dirs_ fs)) as [|d D IH]; cbn [foldr]; [|by apply listed_directory].
  unfold file_list. pose proof (NoDup_fst_map_to_list (files_ fs)) as Hnd.
  induction (map_to_list (files_ fs)) as [|[k r] F IH]; cbn [foldr fmap list_fmap fst snd] in *; [exact (listed_nil _ n)|].
  apply NoDup_cons in Hnd as [Hk Hnd]. apply listed_file; [|by apply IH].
  rewrite <- list_fmap_compose. exact Hk.
Qed.

(** ** Directories *)

Lemma parent_of_Some s p : parent_of s = Some p <-> exists r, s = p ++ slash :: r /\ has_slash r = false.
Proof.
  revert p. induction s as [|c s IH]; intros p; cbn [parent_of].
  { split; [done|]. intros (r & H & _). by destruct p. }
  destruct (parent_of s) as [p'|] eqn:E.
  - destruct (IH p') as [IH' _]. destruct (IH' eq_refl) as (r' & -> & Hr). split.
    + intros [= <-]. by exists r'.
    + intros (r & H & Hr'). destruct p as [|c' p]; cbn in H; injection H as -> H.
      * by rewrite <- H, has_slash_mid in Hr'.
      * f_equal. f_equal. assert (Some p' = Some p) as [= ->]; [|done]. apply IH. exists r. by split.
  - assert (has_slash s = false) as Hs.
    { destruct (has_slash s) eqn:Hs; [|done]. exfalso. clear IH. induction s as [|d s IHs]; [done|]. cbn in E, Hs.
      destruct (parent_of s); [done|]. destruct (d =? slash) eqn:Ed; [done|]. by apply IHs. }
    destruct (c =? slash) eqn:Ec.
    + apply Z.eqb_eq in Ec as ->. split.
      * intros [= <-]. by exists s.
      * intros (r & H & Hr). destruct p as [|c' p]; [done|]. injection H as _ H. by rewrite H, has_slash_mid in Hs.
    + split; [done|]. intros (r & H & Hr). destruct p as [|c' p]; cbn in H; injection H as -> H; [by rewrite Z.eqb_refl in Ec|].
      by rewrite H, has_slash_mid in Hs.
Qed.

Lemma parent_of_None s : parent_of s = None -> has_slash s = false.
Proof.
  induction s as [|d s IH]; [done|]. cbn. destruct (parent_of s); [done|]. destruct (d =? slash); [done|]. intros _. by apply IH.
Qed.

(** The chain of a path: itself and every proper prefix that ends before a slash. *)
Lemma elem_of_directory_chain fuel : forall norm p, (length norm <= fuel)%nat ->
  p ∈ directory_chain fuel norm <-> p <> [] /\ (p = norm \/ exists r, norm = p ++ slash :: r).
Proof.
  induction fuel as [|fuel IH]; intros norm p Hl.
  { destruct norm; [|cbn in Hl; lia]. cbn. rewrite elem_of_nil. split; [done|]. intros [Hp [->|[r H]]]; [done|by destruct p]. }
  destruct norm as [|c norm].
  { cbn. rewrite elem_of_nil. split; [done|]. intros [Hp [->|[r H]]]; [done|by destruct p]. }
  cbn [directory_chain]. rewrite elem_of_cons. destruct (parent_of (c :: norm)) as [q|] eqn:E.
  - apply parent_of_Some in E as (r & Hq & Hr). rewrite IH by (apply (f_equal length) in Hq; rewrite length_app in Hq; cbn in *; lia).
    rewrite Hq. split.
    + intros [->|[Hp [->|[r' ->]]]]; [split; [by destruct q|by left]|split; [done|right; by exists r]|].
      split; [done|]. right. exists (r' ++ slash :: r). by rewrite <- app_assoc.
    + intros [Hp [->|[r' H]]]; [by left|]. right. split; [done|].
      assert (exists r0, (q = p ++ r0 \/ p = q ++ r0)) as (r0 & [H0|H0]).
      { destruct (app_eq_inv _ _ _ _ H) as [(k & ? & _)|(k & ? & _)]; exists k; auto. }
      * subst q. rewrite <- app_assoc in H. apply app_inv_head in H. destruct r0 as [|d r0]; [left; by rewrite app_nil_r|].
        injection H as -> _. right. by exists r0.
      * subst p. rewrite <- app_assoc in H. apply app_inv_head in H. destruct r0 as [|d r0]; [left; by rewrite app_nil_r|].
        injection H as _ H. by rewrite H, has_slash_mid in Hr.
  - apply parent_of_None in E. rewrite elem_of_nil. split.
    + intros [->|[]]. by split; [|left].
    + intros [Hp [->|[r H]]]; [by left|]. by rewrite H, has_slash_mid in E.
Qed.

(** Every directory has its ancestors. *)
Definition dirs_closed (fs : filesystem) : Prop := forall p r, p ++ slash :: r ∈ dirs_ fs -> p <> [] -> p ∈ dirs_ fs.

Lemma create_directory_dirs path fs p :
  p ∈ dirs_ (create_directory path fs) <->
  p <> [] /\ (p = normalize path \/ exists r, normalize path = p ++ slash :: r) \/ p ∈ dirs_ fs.
Proof. cbn [create_directory dirs_]. rewrite elem_of_union, elem_of_list_to_set. by rewrite elem_of_directory_chain. Qed.

Lemma create_directory_closed path fs : dirs_closed fs -> dirs_closed (create_directory path fs).
Proof.
  intros Hc p r. rewrite !create_directory_dirs. intros [[_ H]|H] Hp; [left|right; by apply (Hc p r)].
  split; [done|]. right. destruct H as [H|[r' H]]; [by exists r|]. exists (r ++ slash :: r'). rewrite H. by rewrite <- app_assoc.
Qed.

Lemma dir_exists_true path fs :
  dir_exists path fs = true <->
  normalize path = [] \/ normalize path ∈ dirs_ fs \/ exists r, is_Some (files_ fs !! (normalize path ++ slash :: r)).
Proof.
  unfold dir_exists. destruct (normalize path) as [|c s]; [tauto|]. rewrite orb_true_iff, bool_decide_eq_true, existsb_exists. split.
  - intros [H|([k r] & Hin & H)]; [auto|]. right. right. unfold starts_with in H. cbn [fst] in H.
    destruct (after_prefix _ k) as [rest|] eqn:E; [|done]. apply after_prefix_Some in E as ->. exists rest.
    apply list_elem_of_In, elem_of_map_to_list in Hin. exists r. by rewrite <- app_assoc in Hin.
  - intros [|[H|(rest & r & H)]]; [done|by left|]. right. exists ((c :: s) ++ slash :: rest, r). split.
    + apply list_elem_of_In, elem_of_map_to_list. exact H.
    + unfold starts_with. cbn [fst]. replace ((c :: s) ++ slash :: rest) with (((c :: s) ++ [slash]) ++ rest) by (by rewrite <- app_assoc).
      by rewrite after_prefix_app.
Qed.

(** ** The listing as a list *)

Lemma elem_of_list_dir path fs n e : (n, e) ∈ list_dir path fs <-> dir_entries path fs !! n = Some e.
Proof.
  unfold list_dir. rewrite list_elem_of_omap. split.
  - intros (m & _ & H). by destruct (dir_entries path fs !! m) eqn:E; cbn in H; simplify_eq.
  - intros H. exists n. rewrite H. split; [|done]. apply elem_of_to_set, list_elem_of_fmap. exists (n, e). split; [done|]. by apply elem_of_map_to_list.
Qed.

Lemma list_dir_names path fs : (list_dir path fs).*1 = to_set (map_to_list (dir_entries path fs)).*1.
Proof.
  unfold list_dir. assert (forall n, n ∈ to_set (map_to_list (dir_entries path fs)).*1 -> is_Some (dir_entries path fs !! n)) as H.
  { intros n. rewrite elem_of_to_set, list_elem_of_fmap. intros ([m e] & -> & Hin). exists e. by apply elem_of_map_to_list. }
  induction (to_set _) as [|n l IH]; [done|]. destruct (H n) as [e He]; [apply elem_of_cons; by left|].
  cbn. rewrite He. cbn. f_equal. apply IH. intros m Hm. apply H, elem_of_cons. by right.
Qed.

Lemma elem_of_file_list fs k z : (k, z) ∈ file_list fs <-> exists r, files_ fs !! k = Some r /\ z = file_size fs r.
Proof.
  unfold file_list. rewrite list_elem_of_fmap. split.
  - intros ([k' r] & [= -> ->] & H). exists r. by apply elem_of_map_to_list in H.
  - intros (r & H & ->). exists (k, r). split; [done|]. by apply elem_of_map_to_list.
Qed.

Lemma Exists_file_list (Q : str -> Prop) fs : Exists (fun p => Q p.1) (file_list fs) <-> exists k, is_Some (files_ fs !! k) /\ Q k.
Proof.
  rewrite Exists_exists. split.
  - intros ([k z] & Hin & HQ). apply elem_of_file_list in Hin as (r & Hr & _). exists k. split; [by exists r|done].
  - intros (k & [r Hr] & HQ). exists (k, file_size fs r). split; [|done]. apply elem_of_file_list. by exists r.
Qed.

Lemma Exists_dirs (Q : str -> Prop) fs : Exists Q (elements (dirs_ fs)) <-> exists k, k ∈ dirs_ fs /\ Q k.
Proof. rewrite Exists_exists. by setoid_rewrite elem_of_elements. Qed.

(** A file under [key] or a directory at it is listed under the name that comes
    next on its path. *)
Definition present (key : str) (fs : filesystem) : Prop := is_Some (files_ fs !! key) \/ key ∈ dirs_ fs.

Lemma list_dir_lists path fs n :
  n ∈ (list_dir path fs).*1 <-> exists key, present key fs /\ (at_name (dir_prefix path) key n \/ below (dir_prefix path) key n).
Proof.
  assert (n ∈ (list_dir path fs).*1 <-> is_Some (dir_entries path fs !! n)) as ->.
  { rewrite list_elem_of_fmap. split.
    - intros ([m e] & -> & H). exists e. by apply elem_of_list_dir.
    - intros [e H]. exists (n, e). split; [done|]. by apply elem_of_list_dir. }
  rewrite (li_some _ _ _ _ _ (dir_entries_listed path fs n)).
  rewrite (Exists_file_list (fun k => at_name (dir_prefix path) k n \/ below (dir_prefix path) k n)), Exists_dirs.
  unfold present. firstorder.
Qed.

Lemma list_dir_is_directory path fs n e q :
  dirs_closed fs -> (n, e) ∈ list_dir path fs -> normalize q = dir_prefix path ++ n -> is_directory e = dir_exists q fs.
Proof.
  intros Hc Hin Hq. apply elem_of_list_dir in Hin. pose proof (dir_entries_listed path fs n) as HL. rewrite Hin in HL.
  pose proof (li_dir _ _ _ _ _ HL) as Hd. pose proof (proj1 (li_some _ _ _ _ _ HL) ltac:(by eexists)) as Hs. cbn [dir_of fmap option_fmap option_map default] in Hd.
  rewrite (Exists_file_list (fun k => below (dir_prefix path) k n)), Exists_dirs in Hd.
  rewrite (Exists_file_list (fun k => at_name (dir_prefix path) k n \/ below (dir_prefix path) k n)), Exists_dirs in Hs.
  apply eq_true_iff_eq. rewrite Hd, dir_exists_true, Hq. split.
  - intros [(k & Hk & r & -> & _)|(k & Hk & [(-> & _)|(r & -> & _)])].
    + right. right. exists r. by rewrite <- app_assoc.
    + auto.
    + rewrite app_assoc in Hk. destruct (decide (dir_prefix path ++ n = [])); [by left|]. right. left. by apply (Hc _ r).
  - assert (has_slash n = false) as Hn by (destruct Hs as [(k & _ & [(_ & ? & _)|(r & _ & ?)])|(k & _ & [(_ & ? & _)|(r & _ & ?)])]; done).
    assert (n = [] -> (exists k, is_Some (files_ fs !! k) /\ below (dir_prefix path) k n) \/
      exists k, k ∈ dirs_ fs /\ (at_name (dir_prefix path) k n \/ below (dir_prefix path) k n)) as H0.
    { intros ->. destruct Hs as [(k & Hk & [(_ & _ & ?)|Hb])|Hs]; [done|left; by exists k|by right]. }
    intros [E|[Hk|(r & Hk)]].
    + apply app_eq_nil in E as [_ ->]. by apply H0.
    + destruct (decide (n = [])); [by apply H0|]. right. exists (dir_prefix path ++ n). split; [done|]. left. by split.
    + left. exists (dir_prefix path ++ n ++ slash :: r). split; [by rewrite app_assoc|]. by exists r.
Qed.

Lemma list_dir_size path fs n e q :
  (n, e) ∈ list_dir path fs -> n <> [] -> normalize q = dir_prefix path ++ n ->
  e_size e = match open q fs with Some r => file_size fs r | None => 0 end.
Proof.
  intros Hin Hne Hq. pose proof (proj1 (list_dir_lists path fs n) ltac:(apply list_elem_of_fmap; by exists (n, e))) as (k0 & _ & Hk0).
  assert (has_slash n = false) as Hn by (destruct Hk0 as [(_ & ? & _)|(r & _ & ?)]; done).
  apply elem_of_list_dir in Hin. pose proof (dir_entries_listed path fs n) as HL. rewrite Hin in HL.
  unfold open. destruct (files_ fs !! normalize q) as [r|] eqn:E; rewrite Hq in E.
  - apply (li_file _ _ _ _ _ HL (dir_prefix path ++ n, file_size fs r)); [apply elem_of_file_list; by exists r|]. by split.
  - apply (li_other _ _ _ _ _ HL). apply Forall_forall. intros [k z] (r & Hr & _)%elem_of_file_list (E' & _). cbn [fst] in E'. congruence.
Qed.

(** C22: what [list_dir] reports is what the other operations find.  The names come
    in order and once each, and are exactly the next components of the files and
    directories below the path; an entry is a directory exactly if [dir_exists]
    says so of its path, and has the size of the file [open] finds there, or 0.
    [create_directory] makes the path and every ancestor of it a directory and
    nothing else, so that this stays true. *)
Theorem list_dir_correct path fs :
  dirs_closed fs ->
  StronglySorted str_lt (list_dir path fs).*1 /\
  (forall n, n ∈ (list_dir path fs).*1 <->
     has_slash n = false /\ exists key, present key fs /\
       (key = dir_prefix path ++ n /\ n <> [] \/ exists r, key = dir_prefix path ++ n ++ slash :: r)) /\
  (forall n e q, (n, e) ∈ list_dir path fs -> normalize q = dir_prefix path ++ n ->
     is_directory e = dir_exists q fs /\
     (n <> [] -> e_size e = match open q fs with Some r => file_size fs r | None => 0 end)) /\
  (dirs_closed (create_directory path fs) /\ dir_exists path (create_directory path fs) = true /\
   forall p, p ∈ dirs_ (create_directory path fs) <->
     p <> [] /\ (p = normalize path \/ exists r, normalize path = p ++ slash :: r) \/ p ∈ dirs_ fs).
Proof.
  intros Hc. split_and!.
  - rewrite list_dir_names. apply to_set_sorted.
  - intros n. rewrite list_dir_lists. unfold at_name, below. split.
    + intros (key & Hp & [(H1 & H2 & H3)|(r & H1 & H2)]); (split; [done|]); exists key; (split; [done|]); [left|right; exists r]; done.
    + intros (H2 & key & Hp & [(H1 & H3)|(r & H1)]); exists key; (split; [done|]); [left|right; exists r]; done.
  - intros n e q Hin Hq. split; [by apply (list_dir_is_directory path fs n)|]. intros Hn. by apply (list_dir_size path fs n).
  - by apply create_directory_closed.
  - apply dir_exists_true. destruct (decide (normalize path = [])); [by left|]. right. left. apply create_directory_dirs. left. auto.
  - intros p. apply create_directory_dirs.
Qed.
