(* ===== verification/Locks.v ===== *)
(** * Push locks, resources and rundown protection

    modules/nt_lock_ops.cpp and rundown.hpp.  A null pointer is [None].  Nothing
    here waits: what cannot be taken is reported in the log and left as it is. *)

From stdpp Require Import list.
From S2P Require Import Prelude Mmu Pool.
From stdpp Require Import options.

Open Scope Z_scope.
Open Scope kern_scope.

(** Memory, as the words and structures at their addresses. *)
Definition upd {A} (x : Z) (v : A) (f : Z -> A) : Z -> A := fun y => if y =? x then v else f y.
Definition on {S} (p : option Z) (f : Z -> S -> S) (s : S) : S := match p with Some x => f x s | None => s end.
Definition words : Type := Z -> Z.

Definition KeInitializeSpinLock (spin_lock : option Z) : words -> words := on spin_lock (fun x => upd x 0).

(** ** Push locks *)

Definition push_lock_locked : Z := 0x1.
Definition push_lock_waiting : Z := 0x2.
Definition push_lock_multiple_shared : Z := 0x8.
Definition push_lock_share_increment : Z := 0x10.
Definition push_lock_state_mask : Z := 0xF.

Definition take_push_lock (shared : bool) (x : Z) (m : words) : words :=
  let value := m x in
  let shares := value / push_lock_share_increment in
  if negb (Z.land value push_lock_locked =? 0) && ((shares =? 0) || negb shared) then m else
  let taken :=
    if shared
    then Z.lor (Z.lor value push_lock_locked +w push_lock_share_increment)
           (if shares =? 0 then 0 else push_lock_multiple_shared)
    else Z.lor value push_lock_locked in
  upd x taken m.

Definition give_push_lock (x : Z) (m : words) : words :=
  let value := m x in
  if Z.land value push_lock_locked =? 0 then m else
  let released :=
    if Z.land value (Z.lnot push_lock_state_mask) <=? push_lock_share_increment then 0
    else value - push_lock_share_increment in
  upd x released m.

Definition ExInitializePushLock (push_lock : option Z) : words -> words := on push_lock (fun x => upd x 0).
Definition ExAcquirePushLockExclusiveEx (push_lock : option Z) : words -> words := on push_lock (take_push_lock false).
Definition ExAcquirePushLockSharedEx (push_lock : option Z) : words -> words := on push_lock (take_push_lock true).
Definition ExReleasePushLockEx (push_lock : option Z) : words -> words := on push_lock give_push_lock.

(** ** Resources *)

(** _ERESOURCE: its owner entry, and what else the operations look at. *)
Record eresource : Type := EResource {
  links : Z * Z; Flag : Z; OwnerThread : Z; TableSize : Z; ActiveEntries : Z; ActiveCount : Z
}.
Definition resources : Type := Z -> eresource.

Definition resource_owned_exclusive : Z := 0x80.
Definition owner_flag_mask : Z := 0x7.
Definition owner_count_shift : Z := 3.

Definition owner_count (r : eresource) : Z := Z.shiftr (TableSize r) owner_count_shift.
Definition set_owner (owner_thread count : Z) (r : eresource) : eresource :=
  EResource (links r) (Flag r) owner_thread
    (Z.lor (Z.land (TableSize r) owner_flag_mask) (u32 (Z.shiftl count owner_count_shift))) (ActiveEntries r) (ActiveCount r).
Definition set_flag (v : Z) (r : eresource) : eresource :=
  EResource (links r) v (OwnerThread r) (TableSize r) (ActiveEntries r) (ActiveCount r).
Definition set_active (entries count : Z) (r : eresource) : eresource :=
  EResource (links r) (Flag r) (OwnerThread r) (TableSize r) entries count.

(** [owner] is [current_ethread]. *)
Definition take_resource (owner : Z) (exclusive : bool) (r : eresource) : bool * eresource :=
  let entries := ActiveEntries r in
  let flag := Flag r in
  let held_exclusive := negb (Z.land flag resource_owned_exclusive =? 0) in
  let held_by := OwnerThread r in
  if entries =? 0 then
    (true, set_active 1 1 (set_owner owner 1
       (set_flag (if exclusive then Z.lor flag resource_owned_exclusive
                  else Z.land flag (Z.lnot resource_owned_exclusive)) r)))
  else if (held_by =? owner) || (negb exclusive && negb held_exclusive) then
    let r := if held_by =? owner then r else set_active (u32 (entries + 1)) (s16 (ActiveCount r + 1)) r in
    (true, set_owner owner (owner_count r + 1) r)
  else (false, r).

Definition release_resource (r : eresource) : eresource :=
  let count := owner_count r in
  let entries := ActiveEntries r in
  if (count =? 0) || (entries =? 0) then r
  else if 1 <? count then set_owner (OwnerThread r) (count - 1) r
  else
    let r := set_owner 0 0 r in
    let r := set_active (entries - 1) (if entries =? 1 then 0 else ActiveCount r) r in
    set_flag (Z.land (Flag r) (Z.lnot resource_owned_exclusive)) r.

Definition STATUS_SUCCESS : Z := 0.
Definition STATUS_INVALID_PARAMETER : Z := 0xC000000D.

Definition ExInitializeResourceLite (resource : option Z) (m : resources) : Z * resources :=
  match resource with
  | None => (STATUS_INVALID_PARAMETER, m)
  | Some x => (STATUS_SUCCESS, upd x (EResource (x, x) 0 0 0 0 0) m)
  end.
Definition acquire_resource (exclusive : bool) (owner : Z) (resource : option Z) (m : resources) : bool * resources :=
  match resource with
  | None => (false, m)
  | Some x => let '(ok, r) := take_resource owner exclusive (m x) in (ok, upd x r m)
  end.
Definition ExAcquireResourceExclusiveLite := acquire_resource true.
Definition ExAcquireResourceSharedLite := acquire_resource false.
Definition ExReleaseResourceLite (resource : option Z) (m : resources) : resources :=
  match resource with None => m | Some x => upd x (release_resource (m x)) m end.
Definition ExDeleteResourceLite (resource : option Z) (m : resources) : Z * resources :=
  match resource with
  | None => (STATUS_INVALID_PARAMETER, m)
  | Some x => (STATUS_SUCCESS, upd x (EResource (0, 0) 0 0 0 0 0) m)
  end.

(** ** Rundown protection *)

Definition rundown_active : Z := 0x1.
Definition rundown_reference : Z := 0x2.

Definition rundown_references (x : Z) (m : words) : Z := Z.land (m x) (Z.lnot rundown_active) / rundown_reference.
Definition acquire_rundown (x : Z) (m : words) : bool * words :=
  if negb (Z.land (m x) rundown_active =? 0) then (false, m) else (true, upd x (m x +w rundown_reference) m).
Definition release_rundown (x : Z) (m : words) : bool * words :=
  let references := Z.land (m x) (Z.lnot rundown_active) in
  if references <? rundown_reference then (false, m)
  else (true, upd x (Z.lor (Z.land (m x) rundown_active) (references - rundown_reference)) m).
Definition begin_rundown (x : Z) : words -> words := upd x rundown_active.

Definition ExInitializeRundownProtection (p : option Z) : words -> words := on p (fun x => upd x 0).
Definition ExAcquireRundownProtection (p : option Z) (m : words) : bool * words :=
  match p with None => (false, m) | Some x => (true, upd x (m x +w 2) m) end.
Definition ExReleaseRundownProtection (p : option Z) : words -> words :=
  on p (fun x m => upd x (if 2 <=? m x then m x - 2 else 0) m).
Definition ExWaitForRundownProtectionRelease (p : option Z) : words -> words := on p begin_rundown.

(** The cache aware form: one reference per processor, [stride] apart, in a block
    of its own.  [ExAllocateCacheAwareRundownProtection] also returns what it
    writes to the header. *)
Record cache_aware : Type := CacheAware { RunRefs : Z; PoolToFree : Z; RunRefSize : Z; Number : Z }.

Definition largest_cache_line : Z := 64.
Definition run_ref_size : Z := 8.
Definition cache_aware_size : Z := 0x18.

Section CacheAware.
Context {X : Type} `{!Pool.PoolSpace X}.

Definition run_stride (processors : Z) : Z := if 1 <? processors then largest_cache_line else run_ref_size.
Definition carve_refs (processors pool_to_free : Z) : cache_aware :=
  let stride := run_stride processors in
  CacheAware (Z.land (u64 (pool_to_free + stride - 1)) (u64 (Z.lnot (stride - 1)))) pool_to_free stride processors.

Definition ExAllocateCacheAwareRundownProtection (processors pool_tag : Z) :
    st (Pool.win_pool X) (Z * option cache_aware) :=
  let stride := run_stride processors in
  let! header := Pool.allocate cache_aware_size pool_tag true in
  let! pool_to_free := if header =? 0 then ret 0 else Pool.allocate (u64 (stride * (processors + 1))) pool_tag true in
  if (header =? 0) || (pool_to_free =? 0) then
    (if header =? 0 then ret tt else Pool.free header ;; ret tt) ;; ret (0, None)
  else ret (header, Some (carve_refs processors pool_to_free)).

Definition free_if (block : Z) : st (Pool.win_pool X) unit := if block =? 0 then ret tt else Pool.free block ;; ret tt.
Definition ExFreeCacheAwareRundownProtection (address : Z) (entry : cache_aware) : st (Pool.win_pool X) unit :=
  if address =? 0 then ret tt else free_if (PoolToFree entry) ;; free_if address.

End CacheAware.

Fixpoint run_down_each (n : nat) (refs size : Z) (m : words) : words :=
  match n with
  | O => m
  | S n => begin_rundown (u64 (refs + size * Z.of_nat n)) (run_down_each n refs size m)
  end.
Definition ExWaitForRundownProtectionReleaseCacheAware (entry : option cache_aware) (m : words) : words :=
  match entry with
  | None => m
  | Some e => if RunRefs e =? 0 then m else run_down_each (Z.to_nat (Number e)) (RunRefs e) (RunRefSize e) m
  end.
