(* ===== verification/LocksThm.v ===== *)
(** * Push locks, resources and rundown protection: properties *)

From stdpp Require Import list.
From S2P Require Import Prelude Mmu Pool Locks.
From stdpp Require Import options.

Open Scope Z_scope.
Open Scope kern_scope.

(** ** A word with four state bits below a count *)

Lemma join_low q s : 0 <= s < 16 -> 16 * q + s = Z.lor (Z.shiftl q 4) s.
Proof.
  intros Hs. replace (16 * q) with (Z.shiftl q 4) by (rewrite Z.shiftl_mul_pow2; lia).
  apply Z.add_nocarry_lor. replace s with (Z.land s (Z.ones 4)) by (rewrite Z.land_ones by lia; by apply Z.mod_small).
  rewrite (Z.land_comm s), Z.land_assoc, Z.land_ones by lia.
  rewrite Z.shiftl_mul_pow2, Z.mod_mul by lia. apply Z.land_0_l.
Qed.

Lemma low_bits s : 0 <= s < 16 ->
  s = 0 \/ s = 1 \/ s = 2 \/ s = 3 \/ s = 4 \/ s = 5 \/ s = 6 \/ s = 7 \/
  s = 8 \/ s = 9 \/ s = 10 \/ s = 11 \/ s = 12 \/ s = 13 \/ s = 14 \/ s = 15.
Proof. lia. Qed.

Ltac word_cases H :=
  apply low_bits in H; destruct H as [->|[->|[->|[->|[->|[->|[->|[->|[->|[->|[->|[->|[->|[->|[->| ->]]]]]]]]]]]]]]].

Lemma lor_small s k : 0 <= s < 16 -> 0 <= k < 16 -> 0 <= Z.lor s k < 16.
Proof. intros Hs Hk. word_cases Hs; word_cases Hk; by vm_compute. Qed.

Lemma lor_low q s k : 0 <= s < 16 -> 0 <= k < 16 -> Z.lor (16 * q + s) k = 16 * q + Z.lor s k.
Proof. intros Hs Hk. rewrite !join_low by (done || by apply lor_small). by rewrite Z.lor_assoc. Qed.

Lemma land_low q s k : 0 <= s < 16 -> 0 <= k < 16 -> Z.land (16 * q + s) k = Z.land s k.
Proof.
  intros Hs Hk. rewrite join_low, Z.land_lor_distr_l by done.
  replace (Z.land (Z.shiftl q 4) k) with 0; [done|].
  replace k with (Z.land k (Z.ones 4)) by (rewrite Z.land_ones by lia; by apply Z.mod_small).
  rewrite (Z.land_comm k), Z.land_assoc, Z.land_ones by lia.
  rewrite Z.shiftl_mul_pow2, Z.mod_mul by lia. by rewrite Z.land_0_l.
Qed.

Lemma land_high q s : 0 <= s < 16 -> Z.land (16 * q + s) (Z.lnot 15) = 16 * q.
Proof.
  intros Hs. change 15 with (Z.ones 4). rewrite <- Z.ldiff_land, Z.ldiff_ones_r by lia.
  rewrite Z.shiftr_div_pow2, Z.shiftl_mul_pow2 by lia. change (2 ^ 4) with 16. Z.to_euclidean_division_equations. lia.
Qed.

(** ** Push locks: the lock a word stands for *)

Inductive lock : Type := Free | Exclusive | Shared (n : Z).

Definition lock_of (v : Z) : lock :=
  if Z.land v push_lock_locked =? 0 then Free
  else if v / push_lock_share_increment =? 0 then Exclusive else Shared (v / push_lock_share_increment).

Inductive lock_op : Type := AcquireExclusive | AcquireShared | Release.

(** What the lock promises: nothing is taken that another holds. *)
Definition spec (o : lock_op) (l : lock) : lock :=
  match o, l with
  | AcquireExclusive, Free => Exclusive
  | AcquireExclusive, l => l
  | AcquireShared, Free => Shared 1
  | AcquireShared, Shared n => Shared (n + 1)
  | AcquireShared, Exclusive => Exclusive
  | Release, Shared n => if n =? 1 then Free else Shared (n - 1)
  | Release, _ => Free
  end.

Definition perform (x : Z) (o : lock_op) : words -> words :=
  match o with
  | AcquireExclusive => ExAcquirePushLockExclusiveEx (Some x)
  | AcquireShared => ExAcquirePushLockSharedEx (Some x)
  | Release => ExReleasePushLockEx (Some x)
  end.

(** A word of a lock: free, it has no shares. *)
Definition lock_word (v : Z) : Prop :=
  0 <= v < 2 ^ 64 /\ (Z.land v push_lock_locked = 0 -> v / push_lock_share_increment = 0).

Lemma lock_split v : exists q s, v = 16 * q + s /\ 0 <= s < 16 /\ v / 16 = q.
Proof. exists (v / 16), (v mod 16). Z.to_euclidean_division_equations. lia. Qed.

Lemma upd_eq {A} x (v : A) f : upd x v f x = v.
Proof. unfold upd. by rewrite Z.eqb_refl. Qed.
Lemma upd_ne {A} x y (v : A) f : y <> x -> upd x v f y = f y.
Proof. intros H. unfold upd. by rewrite (proj2 (Z.eqb_neq _ _) H). Qed.

Lemma word_div q s : 0 <= s < 16 -> (16 * q + s) / 16 = q.
Proof. intros. Z.to_euclidean_division_equations. lia. Qed.

Definition shares_of (v : Z) : Z := v / push_lock_share_increment.

Lemma held_word q s : 0 <= s < 16 -> Z.land s 1 = 1 -> 0 <= q < 2 ^ 60 ->
  lock_word (16 * q + s) /\ lock_of (16 * q + s) = (if q =? 0 then Exclusive else Shared q) /\ shares_of (16 * q + s) = q.
Proof.
  intros Hs Ho Hq. unfold lock_word, lock_of, shares_of, push_lock_locked, push_lock_share_increment.
  rewrite word_div, land_low, Ho by lia. split_and!; [lia|lia|done|done|done].
Qed.

Lemma free_word s : 0 <= s < 16 -> Z.land s 1 = 0 -> lock_word s /\ lock_of s = Free /\ shares_of s = 0.
Proof.
  intros Hs He. unfold lock_word, lock_of, shares_of, push_lock_locked, push_lock_share_increment. rewrite He.
  assert (s / 16 = 0) by (apply Z.div_small; lia). split_and!; [lia|lia|done|done|done].
Qed.

Lemma low_parity s : Z.land s 1 = 0 \/ Z.land s 1 = 1.
Proof. pose proof (Z.land_ones s 1 ltac:(lia)) as H. change (Z.ones 1) with 1 in H. pose proof (Z.mod_pos_bound s (2 ^ 1) ltac:(lia)). lia. Qed.

(** Each operation on a word, by what the word says. *)
Lemma take_free shared x m s : m x = s -> 0 <= s < 16 -> Z.land s 1 = 0 ->
  take_push_lock shared x m x = 16 * (if shared then 1 else 0) + Z.lor s 1.
Proof.
  intros E Hs He. unfold take_push_lock, push_lock_locked, push_lock_share_increment. rewrite E, He.
  rewrite (Z.div_small s 16) by lia. cbn [negb andb Z.eqb]. rewrite upd_eq. pose proof (lor_small s 1 Hs ltac:(lia)).
  destruct shared; [|lia]. rewrite Z.lor_0_r, u64_small by (unfold in_u64; lia). lia.
Qed.

Lemma take_held shared x m q s : m x = 16 * q + s -> 0 <= s < 16 -> Z.land s 1 = 1 -> 0 <= q < 2 ^ 60 - 1 ->
  take_push_lock shared x m x = if shared && negb (q =? 0) then 16 * (q + 1) + Z.lor s 8 else 16 * q + s.
Proof.
  intros E Hs Ho Hq. unfold take_push_lock, push_lock_locked, push_lock_share_increment, push_lock_multiple_shared.
  rewrite E, word_div, land_low, Ho by lia. cbn [negb andb Z.eqb].
  destruct shared, (q =? 0) eqn:E0; cbn [orb andb negb]; try done. rewrite upd_eq, lor_low by lia.
  replace (Z.lor s 1) with s by (word_cases Hs; done). rewrite u64_small by (unfold in_u64; lia).
  replace (16 * q + s + 16) with (16 * (q + 1) + s) by lia. by rewrite lor_low by lia.
Qed.

Lemma give_held x m q s : m x = 16 * q + s -> 0 <= s < 16 -> Z.land s 1 = 1 ->
  give_push_lock x m x = if q <=? 1 then 0 else 16 * (q - 1) + s.
Proof.
  intros E Hs Ho. unfold give_push_lock, push_lock_locked, push_lock_share_increment, push_lock_state_mask.
  rewrite E, land_low, land_high, Ho by lia. cbn [Z.eqb]. rewrite upd_eq.
  destruct (Z.leb_spec (16 * q) 16), (Z.leb_spec q 1); lia.
Qed.

Lemma perform_elsewhere x o m y : y <> x -> perform x o m y = m y.
Proof.
  intros H. destruct o; cbn [perform]; unfold ExAcquirePushLockExclusiveEx, ExAcquirePushLockSharedEx, ExReleasePushLockEx, on, take_push_lock, give_push_lock;
    case_match; try done; by rewrite upd_ne.
Qed.

Lemma perform_one x o m :
  lock_word (m x) -> shares_of (m x) < 2 ^ 60 - 1 ->
  lock_word (perform x o m x) /\ lock_of (perform x o m x) = spec o (lock_of (m x)) /\
  shares_of (perform x o m x) <= shares_of (m x) + 1.
Proof.
  intros Hw Hn. destruct (lock_split (m x)) as (q & s & E & Hs & Eq).
  unfold perform, ExAcquirePushLockExclusiveEx, ExAcquirePushLockSharedEx, ExReleasePushLockEx, on.
  destruct (low_parity s) as [He|Ho].
  - assert (q = 0) as ->.
    { destruct Hw as [_ H]. rewrite E in H. unfold push_lock_locked, push_lock_share_increment in H. rewrite word_div, land_low in H by lia. auto. }
    replace (16 * 0 + s) with s in E by lia. rewrite E. destruct (free_word s Hs He) as (H1 & -> & ->).
    pose proof (lor_small s 1 Hs ltac:(lia)) as Hl. assert (Z.land (Z.lor s 1) 1 = 1) as Ho by (word_cases Hs; done).
    destruct o; cbn [spec]; rewrite ?(take_free _ x m s E Hs He).
    1: destruct (held_word 0 (Z.lor s 1) Hl Ho ltac:(lia)) as (? & -> & ->).
    2: destruct (held_word 1 (Z.lor s 1) Hl Ho ltac:(lia)) as (? & -> & ->).
    1,2: split_and!; [done|done|lia].
    unfold give_push_lock, push_lock_locked. rewrite E, He. cbn [Z.eqb]. rewrite E. destruct (free_word s Hs He) as (? & -> & ->). split_and!; [done|done|lia].
  - assert (0 <= q < 2 ^ 60 - 1) as Hq.
    { unfold shares_of, push_lock_share_increment in Hn. rewrite Eq in Hn. destruct Hw as [Hw _]. lia. }
    rewrite E. destruct (held_word q s Hs Ho ltac:(lia)) as (H1 & H2 & H3). rewrite H2, H3.
    destruct o; rewrite ?(take_held _ x m q s E Hs Ho Hq), ?(give_held x m q s E Hs Ho); cbn [andb].
    + rewrite H2, H3. split_and!; [done|by destruct (q =? 0)|lia].
    + destruct (Z.eqb_spec q 0) as [->|Hq0]; cbn [negb]; [rewrite H2, H3; split_and!; [done|done|lia]|].
      pose proof (lor_small s 8 Hs ltac:(lia)) as Hl. assert (Z.land (Z.lor s 8) 1 = 1) as Ho' by (word_cases Hs; done).
      destruct (held_word (q + 1) (Z.lor s 8) Hl Ho' ltac:(lia)) as (? & -> & ->).
      rewrite (proj2 (Z.eqb_neq (q + 1) 0)) by lia. split_and!; [done|done|lia].
    + destruct (free_word 0 ltac:(lia) eq_refl) as (F1 & F2 & F3).
      destruct (Z.leb_spec q 1).
      * rewrite F2, F3. split_and!; [done| |lia]. assert (q = 0 \/ q = 1) as [->| ->] by lia; done.
      * destruct (held_word (q - 1) s Hs Ho ltac:(lia)) as (? & -> & ->).
        rewrite (proj2 (Z.eqb_neq q 0)), (proj2 (Z.eqb_neq (q - 1) 0)) by lia. cbn [spec]. rewrite (proj2 (Z.eqb_neq q 1)) by lia.
        split_and!; [done|done|lia].
Qed.

(** C31: a push lock word is the lock it encodes, however it is used.  From the
    word [ExInitializePushLock] writes, any sequence of acquires and releases,
    less than 2^60 of them, leaves a word that stands for exactly the lock the
    same operations give on free, held, and held shared by [n]: an exclusive
    acquire succeeds only on a free lock, a shared one never on a held one, a
    release takes off one share; and no other word of memory changes. *)
Theorem push_lock_refines x ops m :
  Z.of_nat (length ops) < 2 ^ 60 ->
  let m' := fold_left (fun m o => perform x o m) ops (ExInitializePushLock (Some x) m) in
  lock_of (m' x) = fold_left (fun l o => spec o l) ops Free /\ lock_word (m' x) /\ forall y, y <> x -> m' y = m y.
Proof.
  intros Hl. set (m0 := ExInitializePushLock (Some x) m).
  assert (lock_word (m0 x) /\ lock_of (m0 x) = Free /\ shares_of (m0 x) = 0) as (Hw & <- & Hs).
  { unfold m0, ExInitializePushLock, on. rewrite upd_eq. by apply free_word. }
  assert (forall y, y <> x -> m0 y = m y) as Hm by (intros y Hy; by apply upd_ne).
  clearbody m0. cbn zeta. assert (shares_of (m0 x) + Z.of_nat (length ops) < 2 ^ 60) as Hb by lia. clear Hs Hl.
  revert m0 Hw Hm Hb. induction ops as [|o ops IH]; intros m0 Hw Hm Hb; cbn [fold_left length] in *; [done|].
  destruct (perform_one x o m0 Hw ltac:(lia)) as (Hw' & <- & Hs'). apply IH; [done| |lia].
  intros y Hy. rewrite perform_elsewhere by done. by apply Hm.
Qed.

(** ** Resources with one owner *)

(** Held by thread [t], [n] times. *)
Record owned (t n : Z) (exclusive : bool) (r : eresource) : Prop := {
  ow_entries : ActiveEntries r = 1; ow_thread : OwnerThread r = t; ow_count : owner_count r = n; ow_pos : 1 <= n < 2 ^ 29;
  ow_flag : negb (Z.land (Flag r) resource_owned_exclusive =? 0) = exclusive
}.

Lemma owner_count_set t n r : 0 <= n < 2 ^ 29 -> owner_count (set_owner t n r) = n.
Proof.
  intros Hn. unfold owner_count, set_owner, owner_count_shift, owner_flag_mask. cbn [TableSize].
  rewrite Z.shiftr_lor, Z.shiftr_land. replace (Z.shiftr 7 3) with 0 by reflexivity. rewrite Z.land_0_r, Z.lor_0_l.
  rewrite Z.shiftl_mul_pow2 by lia. unfold u32. rewrite Z.mod_small by lia. rewrite Z.shiftr_div_pow2 by lia. apply Z.div_mul. lia.
Qed.

Lemma flag_set f : Z.land (Z.lor f resource_owned_exclusive) resource_owned_exclusive = resource_owned_exclusive.
Proof. apply Z.bits_inj'. intros i _. rewrite Z.land_spec, Z.lor_spec. by destruct (Z.testbit f i), (Z.testbit resource_owned_exclusive i). Qed.
Lemma flag_clear f : Z.land (Z.land f (Z.lnot resource_owned_exclusive)) resource_owned_exclusive = 0.
Proof. rewrite <- Z.land_assoc, (Z.land_comm (Z.lnot _)), Z.land_lnot_diag. apply Z.land_0_r. Qed.

(** A free resource goes to whoever asks; its owner can take it again and others,
    but for readers of a read one, cannot; the owner keeps it until it has given
    it back as often as it took it. *)
Lemma take_resource_free t exclusive r :
  ActiveEntries r = 0 -> let '(ok, r') := take_resource t exclusive r in ok = true /\ owned t 1 exclusive r'.
Proof.
  intros He. unfold take_resource. rewrite He. cbn [Z.eqb]. split; [done|].
  split; cbn [ActiveEntries OwnerThread Flag set_active set_owner set_flag]; [done|done|by apply (owner_count_set t 1)|lia|].
  destruct exclusive; [by rewrite flag_set|by rewrite flag_clear].
Qed.

Lemma take_resource_again t n e exclusive r :
  owned t n e r -> n + 1 < 2 ^ 29 -> let '(ok, r') := take_resource t exclusive r in ok = true /\ owned t (n + 1) e r'.
Proof.
  intros [H1 H2 H3 H4 H5] Hn. unfold take_resource. rewrite H1, H2, Z.eqb_refl, H3. cbn [Z.eqb orb]. split; [done|].
  split; [done|done|apply owner_count_set; lia|lia|done].
Qed.

Lemma take_resource_other t t' n e exclusive r :
  owned t n e r -> t' <> t -> exclusive || e = true -> take_resource t' exclusive r = (false, r).
Proof.
  intros [H1 H2 H3 H4 H5] Ht He. unfold take_resource. rewrite H1, H2, H5, (proj2 (Z.eqb_neq t t')) by done. cbn [Z.eqb orb].
  by destruct exclusive, e.
Qed.

Lemma release_resource_owned t n e r :
  owned t n e r -> if n =? 1 then ActiveEntries (release_resource r) = 0 /\ owner_count (release_resource r) = 0
                   else owned t (n - 1) e (release_resource r).
Proof.
  intros [H1 H2 H3 H4 H5]. unfold release_resource. rewrite H1, H3, (proj2 (Z.eqb_neq n 0)) by lia. cbn [orb Z.eqb].
  destruct (Z.eqb_spec n 1) as [->|Hn]; cbn [Z.ltb Z.compare Pos.compare Pos.compare_cont].
  - split; [done|]. apply (owner_count_set 0 0). lia.
  - rewrite (proj2 (Z.ltb_lt 1 n)) by lia. split; [done|done|apply owner_count_set; lia|lia|done].
Qed.

(** ** Rundown protection *)

Lemma even_word v : Z.land v 1 = 0 -> Z.land v (Z.lnot 1) = v.
Proof. intros H. pose proof (Z.lor_ldiff_and v 1) as E. rewrite H, Z.lor_0_r, Z.ldiff_land in E. exact E. Qed.

Lemma even_add v : Z.land v 1 = 0 -> Z.land (v + 2) 1 = 0.
Proof.
  pose proof (fun w => Z.land_ones w 1 ltac:(lia)) as H. change (Z.ones 1) with 1 in H. rewrite !H. change (2 ^ 1) with 2.
  intros E. Z.to_euclidean_division_equations. lia.
Qed.

(** A reference can be taken while the object is not running down and adds one to
    the count; giving it back restores the word; once it runs down none is given. *)
Lemma rundown_balanced x m :
  0 <= m x < 2 ^ 64 - 2 -> Z.land (m x) rundown_active = 0 ->
  let '(ok, m1) := acquire_rundown x m in
  ok = true /\ rundown_references x m1 = rundown_references x m + 1 /\
  (release_rundown x m1).1 = true /\ (release_rundown x m1).2 x = m x /\
  (acquire_rundown x (begin_rundown x m1)).1 = false.
Proof.
  intros Hb He. unfold rundown_active in He. unfold acquire_rundown at 1, rundown_references, release_rundown, rundown_active, rundown_reference.
  rewrite He. cbn [Z.eqb negb]. assert (m x +w 2 = m x + 2) as Hu by (apply u64_small; unfold in_u64; lia).
  pose proof (even_add _ He) as He2. rewrite !upd_eq, Hu, (even_word (m x + 2)), (even_word (m x)), He2 by done.
  rewrite (proj2 (Z.ltb_ge (m x + 2) 2)) by lia. cbn [fst snd]. rewrite upd_eq, Z.lor_0_l. split_and!; [done| |done|lia|].
  - Z.to_euclidean_division_equations. lia.
  - unfold acquire_rundown, begin_rundown. by rewrite upd_eq.
Qed.

(** The references of the cache aware form lie in its block, each on its own line. *)
Lemma cache_refs_fit processors pool i :
  0 < processors < 2 ^ 32 -> 0 < pool -> pool + run_stride processors * (processors + 1) <= 2 ^ 64 ->
  0 <= i < processors ->
  let e := carve_refs processors pool in
  pool <= RunRefs e + RunRefSize e * i /\
  RunRefs e + RunRefSize e * (i + 1) <= pool + run_stride processors * (processors + 1) /\
  (RunRefs e + RunRefSize e * i) mod run_stride processors = 0.
Proof.
  intros Hp Hpool Hfit Hi. unfold carve_refs. cbn [RunRefs RunRefSize].
  assert (run_stride processors = 2 ^ 6 \/ run_stride processors = 2 ^ 3) as Hs by (unfold run_stride; destruct (1 <? processors); auto).
  assert (forall k, 0 <= k < 64 -> 2 ^ k <= pool + 2 ^ k - 1 < 2 ^ 64 ->
    Z.land (u64 (pool + 2 ^ k - 1)) (u64 (Z.lnot (2 ^ k - 1))) = (pool + 2 ^ k - 1) / 2 ^ k * 2 ^ k) as Hmask.
  { intros k Hk Hr. rewrite u64_small by (unfold in_u64; assert (0 < 2 ^ k) by (apply Z.pow_pos_nonneg; lia); lia).
    unfold u64. rewrite <- Z.land_ones, Z.land_assoc, (Z.land_comm _ (Z.lnot _)), <- Z.land_assoc, Z.land_ones, Z.land_comm by lia.
    rewrite (Z.mod_small _ (2 ^ 64)) by (assert (0 < 2 ^ k) by (apply Z.pow_pos_nonneg; lia); lia).
    replace (2 ^ k - 1) with (Z.ones k) by (rewrite Z.ones_equiv; lia).
    rewrite <- Z.ldiff_land, Z.ldiff_ones_r, Z.shiftr_div_pow2, Z.shiftl_mul_pow2 by lia. done. }
  assert (forall s, 0 < s -> let r := (pool + s - 1) / s * s in
    pool <= r + s * i /\ r + s * (i + 1) <= pool + s * (processors + 1) /\ (r + s * i) mod s = 0) as Hall.
  { intros s Hs0. cbn zeta. assert (pool <= (pool + s - 1) / s * s < pool + s) by (Z.to_euclidean_division_equations; nia).
    split; [nia|]. split; [nia|]. replace ((pool + s - 1) / s * s + s * i) with (((pool + s - 1) / s + i) * s) by lia. apply Z.mod_mul. lia. }
  destruct Hs as [E|E]; rewrite E in *; (rewrite Hmask; [apply Hall; lia|lia|lia]).
Qed.
