(* ===== verification/Iocp.v ===== *)
(** * Completion ports

    modules/nt_iocp_ops.cpp, over the handle table of [Objects] and the dispatcher
    objects of [SyncOps].  A host object is reached by a reference, which is what
    the object manager keeps; a reference [hosts] does not know is a host of some
    other kind.  What an entry point writes through its out pointers is part of its
    result. *)

From stdpp Require Import list gmap.
From S2P Require Import Prelude Mmu Thread SyncOps Paths Objects.
From stdpp Require Import options.

Open Scope Z_scope.
Open Scope kern_scope.

Record packet : Type := Packet { key_context : Z; apc_context : Z; status : Z; information : Z }.

Record port : Type := Port { p_name : str; p_body : Z; packets_ : list packet }.
Record wait_packet : Type := WaitPacket { w_port : option Z; w_packet : packet; associated : bool }.
Record worker_factory : Type := WorkerFactory {
  f_port : Z; start_routine : Z; start_parameter : Z; maximum_thread_count : Z; shut_down : bool
}.
Inductive host : Type := HPort (p : port) | HPacket (w : wait_packet) | HFactory (f : worker_factory).

(** What a _KQUEUE has after its header. *)
Record kqueue : Type := KQueue { EntryListHead : Z * Z; CurrentCount : Z; MaximumCount : Z; ThreadListHead : Z * Z }.
Definition kqueue_size : Z := 16.

Record sys : Type := Sys { tbl : table; hosts : gmap Z host; fresh_host : Z; queues : Z -> kqueue; kern : ksys }.

Definition set_tbl t s := Sys t (hosts s) (fresh_host s) (queues s) (kern s).
Definition set_host r h s := Sys (tbl s) (<[r := h]> (hosts s)) (fresh_host s) (queues s) (kern s).
Definition add_host h s := Sys (tbl s) (<[fresh_host s := h]> (hosts s)) (fresh_host s + 1) (queues s) (kern s).
Definition set_queue x q s := Sys (tbl s) (hosts s) (fresh_host s) (fun y => if y =? x then q else queues s y) (kern s).
Definition set_kern k s := Sys (tbl s) (hosts s) (fresh_host s) (queues s) k.

Definition STATUS_INSUFFICIENT_RESOURCES : Z := 0xC000009A.
Definition STATUS_INVALID_INFO_CLASS : Z := 0xC0000003.
Definition STATUS_INFO_LENGTH_MISMATCH : Z := 0xC0000004.
Definition STATUS_TOO_LATE : Z := 0xC0000189.

(** [get_object<T>(handle)]: the reference and the host, if it is of the kind. *)
Definition host_of (handle : Z) (s : sys) : option (Z * host) :=
  r ← get_object_of handle (tbl s); h ← hosts s !! r; Some (r, h).
Definition port_from_handle (handle : Z) (s : sys) : option (Z * port) :=
  match host_of handle s with Some (r, HPort p) => Some (r, p) | _ => None end.
Definition packet_from_handle (handle : Z) (s : sys) : option (Z * wait_packet) :=
  match host_of handle s with Some (r, HPacket w) => Some (r, w) | _ => None end.
Definition factory_from_handle (handle : Z) (s : sys) : option (Z * worker_factory) :=
  match host_of handle s with Some (r, HFactory f) => Some (r, f) | _ => None end.

(** ** A port and its queue object *)

Definition resync (p : port) (s : sys) : sys :=
  let body := p_body p in
  if body =? 0 then s else
  let n := Z.of_nat (length (packets_ p)) in
  let q := queues s body in
  set_queue body (KQueue (EntryListHead q) (u32 n) (MaximumCount q) (ThreadListHead q))
    (set_kern (set_mem (set_state_at body n (mem (kern s))) (kern s)) s).

Definition with_packets (l : list packet) (p : port) : port := Port (p_name p) (p_body p) l.

Definition push (r : Z) (p : port) (k : packet) (s : sys) : sys :=
  let p := with_packets (packets_ p ++ [k]) p in
  resync p (set_host r (HPort p) s).

Definition pop (r : Z) (p : port) (s : sys) : option packet * port * sys :=
  match packets_ p with
  | [] => (None, p, resync p s)
  | k :: l => let p := with_packets l p in (Some k, p, resync p (set_host r (HPort p) s))
  end.

(** ** Ports *)

(** [base] is where the object manager puts the object, [name] the name in the
    attributes. *)
Definition CreateIoCompletion (handle_out : bool) (desired_access : Z) (name : str) (concurrent_threads base : Z)
    (s : sys) : Z * Z * sys :=
  if negb handle_out then (STATUS_INVALID_PARAMETER, 0, s) else
  let r := fresh_host s in
  let '(addr, objs) := create_object base 0 (Some r) (objs_ (tbl s)) in
  let s := set_tbl (on_objs (fun _ => objs) (tbl s)) (add_host (HPort (Port name 0 [])) s) in
  if addr =? 0 then (STATUS_INSUFFICIENT_RESOURCES, 0, s) else
  let s := set_kern (set_mem (init_dispatcher addr queue_object kqueue_size 0 (mem (kern s))) (kern s)) s in
  let s := set_queue addr (KQueue (addr +w 0x18, addr +w 0x18) 0 (if concurrent_threads =? 0 then 1 else concurrent_threads)
             (addr +w 0x30, addr +w 0x30)) s in
  let s := set_host r (HPort (Port name addr [])) s in
  let s := set_tbl (on_objs (register_named_object name addr) (tbl s)) s in
  let '(handle, t) := create_handle addr desired_access (tbl s) in
  (STATUS_SUCCESS, handle, set_tbl t s).

Definition wake_port (p : port) (s : sys) : sys := set_kern (wake (p_body p) (kern s)) s.

Definition SetIoCompletion (handle : Z) (k : packet) (s : sys) : Z * sys :=
  match port_from_handle handle s with
  | None => (STATUS_INVALID_HANDLE, s)
  | Some (r, p) => (STATUS_SUCCESS, wake_port p (push r p k s))
  end.

Definition SetIoCompletionEx (handle packet_handle : Z) (k : packet) (s : sys) : Z * sys :=
  match packet_from_handle packet_handle s with
  | None => (STATUS_INVALID_HANDLE, s)
  | Some _ => SetIoCompletion handle k s
  end.

Definition RemoveIoCompletion (handle : Z) (s : sys) : Z * list packet * sys :=
  match port_from_handle handle s with
  | None => (STATUS_INVALID_HANDLE, [], s)
  | Some (r, p) =>
      match pop r p s with
      | (None, _, s) => (STATUS_TIMEOUT, [], s)
      | (Some k, _, s) => (STATUS_SUCCESS, [k], s)
      end
  end.

(** The loop: [n] more packets may be written. *)
Fixpoint remove_loop (n : nat) (r : Z) (p : port) (s : sys) : list packet * sys :=
  match n with
  | O => ([], s)
  | S n =>
      match pop r p s with
      | (None, _, s) => ([], s)
      | (Some k, p, s) => let '(ks, s) := remove_loop n r p s in (k :: ks, s)
      end
  end.

Definition RemoveIoCompletionEx (handle : Z) (entries : bool) (count : Z) (s : sys) : Z * list packet * sys :=
  match port_from_handle handle s with
  | None => (STATUS_INVALID_HANDLE, [], s)
  | Some (r, p) =>
      if negb entries || (count =? 0) then (STATUS_INVALID_PARAMETER, [], s) else
      match remove_loop (Z.to_nat count) r p s with
      | ([], s) => (STATUS_TIMEOUT, [], s)
      | (ks, s) => (STATUS_SUCCESS, ks, s)
      end
  end.

(** ** Wait completion packets *)

Definition create_host_object (h : host) (desired_access base : Z) (s : sys) : Z * Z * sys :=
  let '(addr, objs) := create_object base 0 (Some (fresh_host s)) (objs_ (tbl s)) in
  let s := set_tbl (on_objs (fun _ => objs) (tbl s)) (add_host h s) in
  if addr =? 0 then (STATUS_INSUFFICIENT_RESOURCES, 0, s) else
  let '(handle, t) := create_handle addr desired_access (tbl s) in
  (STATUS_SUCCESS, handle, set_tbl t s).

Definition CreateWaitCompletionPacket (handle_out : bool) (desired_access base : Z) (s : sys) : Z * Z * sys :=
  if negb handle_out then (STATUS_INVALID_PARAMETER, 0, s) else
  create_host_object (HPacket (WaitPacket None (Packet 0 0 STATUS_SUCCESS 0) false)) desired_access base s.

(** The flag is what is written to [already_signalled]. *)
Definition AssociateWaitCompletionPacket (packet_handle port_handle target_handle : Z) (k : packet) (s : sys) :
    Z * option bool * sys :=
  match packet_from_handle packet_handle s, port_from_handle port_handle s with
  | Some (rw, w), Some (r, p) =>
      match lookup_handle target_handle (tbl s) with
      | None => (STATUS_INVALID_HANDLE, None, s)
      | Some (target, _) =>
          let s := set_host rw (HPacket (WaitPacket (Some r) k true)) s in
          if is_signalled (mem (kern s)) target 0 then
            let s := push r p k s in
            let s := set_host rw (HPacket (WaitPacket (Some r) k false)) s in
            (STATUS_SUCCESS, Some true, wake_port p s)
          else (STATUS_SUCCESS, Some false, s)
      end
  | _, _ => (STATUS_INVALID_HANDLE, None, s)
  end.

Definition CancelWaitCompletionPacket (packet_handle : Z) (s : sys) : Z * sys :=
  match packet_from_handle packet_handle s with
  | None => (STATUS_INVALID_HANDLE, s)
  | Some (rw, w) => (STATUS_SUCCESS, set_host rw (HPacket (WaitPacket None (w_packet w) false)) s)
  end.

(** ** Worker factories *)

Definition CreateWorkerFactory (handle_out : bool) (desired_access port_handle start parameter maximum base : Z) (s : sys) :
    Z * Z * sys :=
  if negb handle_out || (start =? 0) then (STATUS_INVALID_PARAMETER, 0, s) else
  match port_from_handle port_handle s with
  | None => (STATUS_INVALID_HANDLE, 0, s)
  | Some (r, _) => create_host_object (HFactory (WorkerFactory r start parameter maximum false)) desired_access base s
  end.

Definition SetInformationWorkerFactory (handle : Z) (s : sys) : Z :=
  match factory_from_handle handle s with None => STATUS_INVALID_HANDLE | Some _ => STATUS_SUCCESS end.

Definition worker_factory_basic_information : Z := 7.
Definition basic_information_size : Z := 0x70.

(** The length written to [return_length], and the three fields of the record that
    are not zero. *)
Definition QueryInformationWorkerFactory (handle information_class length : Z) (s : sys) :
    Z * option Z * option (Z * Z * Z) :=
  match factory_from_handle handle s with
  | None => (STATUS_INVALID_HANDLE, None, None)
  | Some (_, f) =>
      if negb (information_class =? worker_factory_basic_information) then (STATUS_INVALID_INFO_CLASS, None, None)
      else if length <? basic_information_size then (STATUS_INFO_LENGTH_MISMATCH, Some basic_information_size, None)
      else (STATUS_SUCCESS, Some basic_information_size, Some (maximum_thread_count f, start_routine f, start_parameter f))
  end.

(** [NtWorkerFactoryWorkerReady] and [NtReleaseWorkerFactoryWorker]. *)
Definition worker_call (handle : Z) (s : sys) : Z :=
  match factory_from_handle handle s with
  | None => STATUS_INVALID_HANDLE
  | Some (_, f) => if shut_down f then STATUS_TOO_LATE else STATUS_SUCCESS
  end.

Definition ShutdownWorkerFactory (handle : Z) (s : sys) : Z * sys :=
  match factory_from_handle handle s with
  | None => (STATUS_INVALID_HANDLE, s)
  | Some (r, f) =>
      (STATUS_SUCCESS, set_host r (HFactory (WorkerFactory (f_port f) (start_routine f) (start_parameter f) (maximum_thread_count f) true)) s)
  end.
