(* ===== verification/IocpThm.v ===== *)
(** * Completion ports are queues

    Whatever is done with handles, threads, packets and factories in between, a
    port gives out what was posted to it, in the order it was posted. *)

From stdpp Require Import list gmap.
From S2P Require Import Prelude Mmu Thread SyncOps Paths Objects Iocp.
From stdpp Require Import options.

Open Scope Z_scope.
Open Scope kern_scope.

(** ** What can happen *)

Inductive op : Type :=
  | OCreatePort (handle_out : bool) (access : Z) (name : str) (threads base : Z)
  | OSet (handle : Z) (k : packet)
  | OSetEx (handle packet_handle : Z) (k : packet)
  | ORemove (handle : Z)
  | ORemoveEx (handle : Z) (entries : bool) (count : Z)
  | OCreatePacket (handle_out : bool) (access base : Z)
  | OAssociate (packet_handle port_handle target_handle : Z) (k : packet)
  | OCancel (packet_handle : Z)
  | OCreateFactory (handle_out : bool) (access port_handle start parameter maximum base : Z)
  | OShutdown (handle : Z)
  (** Anything else the system does with handles and objects, with threads and
      dispatcher objects, or the guest with the queue objects. *)
  | OTable (f : table -> table)
  | OKernel (f : ksys -> ksys)
  | OQueues (body : Z) (q : kqueue).

Definition exec (o : op) (s : sys) : Z * list packet * sys :=
  match o with
  | OCreatePort h a n t b => let '(st, _, s) := CreateIoCompletion h a n t b s in (st, [], s)
  | OSet h k => let '(st, s) := SetIoCompletion h k s in (st, [], s)
  | OSetEx h ph k => let '(st, s) := SetIoCompletionEx h ph k s in (st, [], s)
  | ORemove h => RemoveIoCompletion h s
  | ORemoveEx h e c => RemoveIoCompletionEx h e c s
  | OCreatePacket h a b => let '(st, _, s) := CreateWaitCompletionPacket h a b s in (st, [], s)
  | OAssociate ph h th k => let '(st, _, s) := AssociateWaitCompletionPacket ph h th k s in (st, [], s)
  | OCancel ph => let '(st, s) := CancelWaitCompletionPacket ph s in (st, [], s)
  | OCreateFactory h a ph st pa mx b => let '(st, _, s) := CreateWorkerFactory h a ph st pa mx b s in (st, [], s)
  | OShutdown h => let '(st, s) := ShutdownWorkerFactory h s in (st, [], s)
  | OTable f => (0, [], set_tbl (f (tbl s)) s)
  | OKernel f => (0, [], set_kern (f (kern s)) s)
  | OQueues b q => (0, [], set_queue b q s)
  end.

(** The packets an operation posts, with the port each goes to, and those it gives
    out, with the port they come from. *)
Definition to_port (handle : Z) (s : sys) (ks : list packet) : list (Z * packet) :=
  match port_from_handle handle s with Some (r, _) => (fun k => (r, k)) <$> ks | None => [] end.

Definition posts (o : op) (s : sys) : list (Z * packet) :=
  match o with
  | OSet h k => to_port h s [k]
  | OSetEx h ph k => match packet_from_handle ph s with Some _ => to_port h s [k] | None => [] end
  | OAssociate ph h th k =>
      match packet_from_handle ph s, lookup_handle th (tbl s) with
      | Some _, Some (target, _) => if is_signalled (mem (kern s)) target 0 then to_port h s [k] else []
      | _, _ => []
      end
  | _ => []
  end.
Definition gives (o : op) (s : sys) : list (Z * packet) :=
  match o with
  | ORemove h | ORemoveEx h _ _ => to_port h s (exec o s).1.2
  | _ => []
  end.

Fixpoint run (ops : list op) (s : sys) : list (Z * packet) * list (Z * packet) * sys :=
  match ops with
  | [] => ([], [], s)
  | o :: ops => let '(ps, gs, s') := run ops (exec o s).2 in (posts o s ++ ps, gives o s ++ gs, s')
  end.

Definition of_port (r : Z) (l : list (Z * packet)) : list packet := (List.filter (fun x => x.1 =? r) l).*2.
Definition packets_of (r : Z) (s : sys) : list packet :=
  match hosts s !! r with Some (HPort p) => packets_ p | _ => [] end.

Definition hosts_ok (s : sys) : Prop := forall r, is_Some (hosts s !! r) -> r < fresh_host s.

Lemma of_port_app r l l' : of_port r (l ++ l') = of_port r l ++ of_port r l'.
Proof. unfold of_port. by rewrite List.filter_app, fmap_app. Qed.

Lemma of_port_same r r' ks : of_port r ((fun k => (r', k)) <$> ks) = if r' =? r then ks else [].
Proof.
  unfold of_port. induction ks as [|k ks IH]; cbn; [by destruct (r' =? r)|]. destruct (r' =? r) eqn:E; cbn; [by f_equal|done].
Qed.

(** ** Changes of the hosts *)

Lemma port_from_handle_Some handle s r p :
  port_from_handle handle s = Some (r, p) -> hosts s !! r = Some (HPort p).
Proof.
  unfold port_from_handle, host_of. destruct (get_object_of handle (tbl s)) as [r0|]; [|done]. cbn.
  destruct (hosts s !! r0) as [[]|] eqn:E; cbn; try done. by intros [= <- <-].
Qed.
Lemma packet_from_handle_Some handle s r w :
  packet_from_handle handle s = Some (r, w) -> hosts s !! r = Some (HPacket w).
Proof.
  unfold packet_from_handle, host_of. destruct (get_object_of handle (tbl s)) as [r0|]; [|done]. cbn.
  destruct (hosts s !! r0) as [[]|] eqn:E; cbn; try done. by intros [= <- <-].
Qed.
Lemma factory_from_handle_Some handle s r f :
  factory_from_handle handle s = Some (r, f) -> hosts s !! r = Some (HFactory f).
Proof.
  unfold factory_from_handle, host_of. destruct (get_object_of handle (tbl s)) as [r0|]; [|done]. cbn.
  destruct (hosts s !! r0) as [[]|] eqn:E; cbn; try done. by intros [= <- <-].
Qed.

(** [s'] has the hosts of [s], but for the one at [r]. *)
Record only (r : Z) (h : host) (s s' : sys) : Prop := {
  on_hosts : hosts s' = <[r := h]> (hosts s); on_fresh : fresh_host s' = fresh_host s
}.

Lemma resync_hosts p s : hosts (resync p s) = hosts s /\ fresh_host (resync p s) = fresh_host s.
Proof. unfold resync. by destruct (p_body p =? 0). Qed.

Lemma push_only r p k s : only r (HPort (with_packets (packets_ p ++ [k]) p)) s (push r p k s).
Proof.
  unfold push. cbn zeta. set (p' := with_packets (packets_ p ++ [k]) p).
  destruct (resync_hosts p' (set_host r (HPort p') s)) as [E1 E2]. by split; rewrite ?E1, ?E2.
Qed.

Lemma only_ok r h s s' : is_Some (hosts s !! r) -> only r h s s' -> hosts_ok s -> hosts_ok s'.
Proof.
  intros Hr [E1 E2] H r' Hr'. rewrite E2. rewrite E1 in Hr'. destruct (decide (r' = r)) as [->|Hn]; [by apply H|].
  rewrite lookup_insert_ne in Hr' by done. by apply H.
Qed.

Lemma only_packets r h s s' r' :
  only r h s s' -> packets_of r' s' = if r =? r' then match h with HPort p => packets_ p | _ => [] end else packets_of r' s.
Proof.
  intros [E _]. unfold packets_of. rewrite E. destruct (Z.eqb_spec r r') as [->|Hn]; [by rewrite lookup_insert_eq|by rewrite lookup_insert_ne].
Qed.

Lemma pop_spec r p s : hosts s !! r = Some (HPort p) ->
  let '(k, p', s') := pop r p s in
  k = head (packets_ p) /\ p' = with_packets (tail (packets_ p)) p /\ only r (HPort p') s s'.
Proof.
  intros Hr. unfold pop. destruct p as [n b [|k l]]; cbn [packets_ with_packets head tail p_name p_body].
  - split_and!; [done|done|]. destruct (resync_hosts (Port n b []) s) as [E1 E2]. split; [|done]. by rewrite E1, insert_id.
  - split_and!; [done|done|]. destruct (resync_hosts (Port n b l) (set_host r (HPort (Port n b l)) s)) as [E1 E2].
    by split; rewrite ?E1, ?E2.
Qed.

Lemma only_trans r h h' s s' s'' : only r h s s' -> only r h' s' s'' -> only r h' s s''.
Proof. intros [E1 E2] [E3 E4]. split; [|by rewrite E4]. by rewrite E3, E1, insert_insert_eq. Qed.

Lemma remove_loop_spec n : forall r p s, hosts s !! r = Some (HPort p) ->
  let '(ks, s') := remove_loop n r p s in
  ks = firstn n (packets_ p) /\ only r (HPort (with_packets (skipn n (packets_ p)) p)) s s'.
Proof.
  induction n as [|n IH]; intros r p s Hr; cbn [remove_loop firstn skipn].
  { split; [done|]. split; [|done]. destruct p. by rewrite insert_id. }
  pose proof (pop_spec r p s Hr) as Hp. destruct (pop r p s) as [[k p'] s']. destruct Hp as (-> & -> & Ho).
  destruct (packets_ p) as [|k l] eqn:El; cbn [head tail] in *.
  { by split. }
  specialize (IH r (with_packets l p) s'). destruct (remove_loop n r (with_packets l p) s') as [ks s''].
  destruct IH as [-> Ho']; [destruct Ho as [-> _]; apply lookup_insert_eq|].
  split; [done|]. by apply (only_trans _ _ _ _ _ _ Ho).
Qed.

(** ** One operation *)

(** What an operation may do to the packets of the ports. *)
Definition moves (ps gs : list (Z * packet)) (s s' : sys) : Prop :=
  hosts_ok s -> hosts_ok s' /\ forall r, packets_of r s ++ of_port r ps = of_port r gs ++ packets_of r s'.

Lemma moves_same s s' : hosts s' = hosts s -> fresh_host s' = fresh_host s -> moves [] [] s s'.
Proof.
  intros E1 E2 Hok. split; [intros r Hr; rewrite E2; rewrite E1 in Hr; by apply Hok|].
  intros r. unfold packets_of. rewrite E1. apply app_nil_r.
Qed.

Lemma moves_new h s s' :
  hosts s' = <[fresh_host s := h]> (hosts s) -> fresh_host s' = fresh_host s + 1 ->
  match h with HPort p => packets_ p = [] | _ => True end -> moves [] [] s s'.
Proof.
  intros E1 E2 Hh Hok. split.
  - intros r Hr. rewrite E2. rewrite E1 in Hr. destruct (decide (r = fresh_host s)) as [->|Hn]; [lia|].
    rewrite lookup_insert_ne in Hr by done. apply Hok in Hr. lia.
  - intros r. rewrite app_nil_r. unfold packets_of. rewrite E1. destruct (decide (r = fresh_host s)) as [->|Hn]; [|by rewrite lookup_insert_ne].
    rewrite lookup_insert_eq. destruct (hosts s !! fresh_host s) as [x|] eqn:E; [assert (fresh_host s < fresh_host s) by (apply Hok; by eexists); lia|].
    destruct h; by rewrite ?Hh.
Qed.

Lemma moves_other r h s s' :
  only r h s s' -> match hosts s !! r with Some (HPort _) | None => False | _ => True end ->
  match h with HPort _ => False | _ => True end -> moves [] [] s s'.
Proof.
  intros Ho Hr Hh Hok. assert (is_Some (hosts s !! r)) as Hs by (destruct (hosts s !! r); [by eexists|done]).
  split; [by apply (only_ok r h s)|]. intros r'. rewrite app_nil_r, (only_packets r h s s' r' Ho).
  destruct (Z.eqb_spec r r') as [<-|Hn]; [|done]. unfold packets_of. by destruct (hosts s !! r) as [[]|], h.
Qed.

Lemma moves_port r p l ps gs s s' :
  hosts s !! r = Some (HPort p) -> only r (HPort (with_packets l p)) s s' ->
  packets_ p ++ ps = gs ++ l -> moves ((fun k => (r, k)) <$> ps) ((fun k => (r, k)) <$> gs) s s'.
Proof.
  intros Hr Ho El Hok. split; [apply (only_ok r (HPort (with_packets l p)) s); [by eexists|done|done]|].
  intros r'. rewrite !of_port_same, (only_packets _ _ _ _ _ Ho). cbn [packets_ with_packets]. destruct (Z.eqb_spec r r') as [<-|Hn].
  - unfold packets_of. by rewrite Hr.
  - apply app_nil_r.
Qed.

Lemma moves_then ps gs s s' s'' : moves ps gs s s' -> hosts s'' = hosts s' -> fresh_host s'' = fresh_host s' -> moves ps gs s s''.
Proof.
  intros H E1 E2 Hok. destruct (H Hok) as [H1 H2]. split; [intros r Hr; rewrite E2; rewrite E1 in Hr; by apply H1|].
  intros r. rewrite H2. unfold packets_of. by rewrite E1.
Qed.

Lemma moves_set h k s : moves (to_port h s [k]) [] s (SetIoCompletion h k s).2.
Proof.
  unfold SetIoCompletion, to_port. destruct (port_from_handle h s) as [[r p]|] eqn:E; [|by apply moves_same].
  apply (moves_then _ _ _ (push r p k s)); [|done|done].
  apply (moves_port r p (packets_ p ++ [k]) [k] []); [by apply (port_from_handle_Some h)|apply push_only|done].
Qed.

Lemma moves_create_host h a b s :
  match h with HPort _ => False | _ => True end -> moves [] [] s (create_host_object h a b s).2.
Proof.
  intros Hh. unfold create_host_object. destruct (create_object b 0 (Some (fresh_host s)) (objs_ (tbl s))) as [addr objs].
  destruct (addr =? 0).
  - apply (moves_new h); [done|done|by destruct h].
  - destruct (create_handle _ _ _). apply (moves_new h); [done|done|by destruct h].
Qed.

Lemma moves_create_port ho a n t b s : moves [] [] s (CreateIoCompletion ho a n t b s).2.
Proof.
  unfold CreateIoCompletion. destruct ho; cbn [negb]; [|by apply moves_same].
  destruct (create_object b 0 (Some (fresh_host s)) (objs_ (tbl s))) as [addr objs].
  destruct (addr =? 0); [by apply (moves_new (HPort (Port n 0 [])))|].
  cbv zeta. destruct (create_handle _ _ _). apply (moves_new (HPort (Port n addr []))); [|done|done].
  cbn [snd hosts set_tbl set_host set_queue set_kern add_host]. by rewrite insert_insert_eq.
Qed.

Lemma only_set r h s : only r h s (set_host r h s).
Proof. by split. Qed.

Lemma moves_associate ph h th k s :
  moves (posts (OAssociate ph h th k) s) [] s (AssociateWaitCompletionPacket ph h th k s).2.
Proof.
  unfold AssociateWaitCompletionPacket, posts, to_port. destruct (packet_from_handle ph s) as [[rw w]|] eqn:Ew; [|by apply moves_same].
  apply packet_from_handle_Some in Ew. destruct (port_from_handle h s) as [[r p]|] eqn:Ep; [apply port_from_handle_Some in Ep|].
  2: { destruct (lookup_handle th (tbl s)) as [[target ?]|]; [destruct (is_signalled _ _ _)|]; by apply moves_same. }
  destruct (lookup_handle th (tbl s)) as [[target ?]|]; [|by apply moves_same]. cbn [kern set_host mem]. destruct (is_signalled _ target 0).
  - assert (rw <> r) as Hne by congruence. cbn [snd]. set (s1 := set_host rw (HPacket (WaitPacket (Some r) k true)) s).
    set (s2 := push r p k s1). intros Hok.
    destruct (moves_other rw _ s s1 (only_set _ _ s) ltac:(by rewrite Ew) I Hok) as [Hok1 H1].
    assert (hosts s1 !! r = Some (HPort p)) as Hr1 by (unfold s1; cbn; by rewrite lookup_insert_ne).
    destruct (moves_port r p (packets_ p ++ [k]) [k] [] s1 s2 Hr1 (push_only r p k s1) eq_refl Hok1) as [Hok2 H2].
    assert (hosts s2 !! rw = Some (HPacket (WaitPacket (Some r) k true))) as Hr2.
    { destruct (push_only r p k s1) as [E _]. unfold s2. rewrite E, lookup_insert_ne by done. unfold s1. cbn. apply lookup_insert_eq. }
    destruct (moves_then _ _ _ _ (wake_port p (set_host rw (HPacket (WaitPacket (Some r) k false)) s2))
      (moves_other rw _ s2 _ (only_set _ (HPacket (WaitPacket (Some r) k false)) s2) ltac:(by rewrite Hr2) I) eq_refl eq_refl Hok2) as [Hok3 H3].
    split; [done|]. intros r'. specialize (H1 r'). specialize (H2 r'). specialize (H3 r'). cbn in H1, H2, H3.
    rewrite !app_nil_r in *. cbn. rewrite <- H3, <- H2, <- H1. done.
  - cbn [snd]. apply (moves_other rw (HPacket (WaitPacket (Some r) k true))); [apply only_set|by rewrite Ew|done].
Qed.

Lemma exec_moves o s : moves (posts o s) (gives o s) s (exec o s).2.
Proof.
  destruct o as [ho a n t b|h k|h ph k|h|h e c|ho a b|ph h th k|ph|ho a ph st pa mx b|h|f|f|b q]; cbn [exec posts gives].
  - pose proof (moves_create_port ho a n t b s). by destruct (CreateIoCompletion ho a n t b s) as [[? ?] ?].
  - pose proof (moves_set h k s). by destruct (SetIoCompletion h k s).
  - unfold SetIoCompletionEx. destruct (packet_from_handle ph s); [|by apply moves_same].
    pose proof (moves_set h k s). by destruct (SetIoCompletion h k s).
  - unfold RemoveIoCompletion, to_port. destruct (port_from_handle h s) as [[r p]|] eqn:E; [|by apply moves_same].
    apply port_from_handle_Some in E. pose proof (pop_spec r p s E) as H. destruct (pop r p s) as [[k p'] s'].
    destruct H as (-> & -> & Ho). destruct (packets_ p) as [|k l] eqn:El; cbn [head tail fst snd] in *.
    + by apply (moves_port r p [] [] []); rewrite ?El.
    + by apply (moves_port r p l [] [k]); rewrite ?El, ?app_nil_r.
  - unfold RemoveIoCompletionEx, to_port. destruct (port_from_handle h s) as [[r p]|] eqn:E; [|by apply moves_same].
    apply port_from_handle_Some in E. destruct (negb e || (c =? 0)); [by apply moves_same|].
    pose proof (remove_loop_spec (Z.to_nat c) r p s E) as H. destruct (remove_loop (Z.to_nat c) r p s) as [ks s'].
    destruct H as [Hk Ho].
    assert (moves [] ((fun k => (r, k)) <$> ks) s s') as Hm.
    { apply (moves_port r p (skipn (Z.to_nat c) (packets_ p)) [] ks); [done|done|]. rewrite app_nil_r, Hk. symmetry. apply List.firstn_skipn. }
    by destruct ks.
  - unfold CreateWaitCompletionPacket. destruct ho; cbn [negb]; [|by apply moves_same].
    pose proof (moves_create_host (HPacket (WaitPacket None (Packet 0 0 STATUS_SUCCESS 0) false)) a b s I) as H.
    by destruct (create_host_object _ _ _ _) as [[? ?] ?].
  - pose proof (moves_associate ph h th k s). by destruct (AssociateWaitCompletionPacket ph h th k s) as [[? ?] ?].
  - unfold CancelWaitCompletionPacket. destruct (packet_from_handle ph s) as [[rw w]|] eqn:E; [|by apply moves_same].
    apply packet_from_handle_Some in E. eapply moves_other; [apply only_set|by rewrite E|done].
  - unfold CreateWorkerFactory. destruct (negb ho || (st =? 0)); [by apply moves_same|].
    destruct (port_from_handle ph s) as [[r p]|]; [|by apply moves_same].
    pose proof (moves_create_host (HFactory (WorkerFactory r st pa mx false)) a b s I) as H.
    by destruct (create_host_object _ _ _ _) as [[? ?] ?].
  - unfold ShutdownWorkerFactory. destruct (factory_from_handle h s) as [[r f]|] eqn:E; [|by apply moves_same].
    apply factory_from_handle_Some in E. eapply moves_other; [apply only_set|by rewrite E|done].
  - by apply moves_same.
  - by apply moves_same.
  - by apply moves_same.
Qed.

Lemma run_moves ops : forall s, let '(ps, gs, s') := run ops s in moves ps gs s s'.
Proof.
  induction ops as [|o ops IH]; intros s; cbn [run]; [by apply moves_same|].
  specialize (IH (exec o s).2). destruct (run ops (exec o s).2) as [[ps gs] s']. intros Hok.
  destruct (exec_moves o s Hok) as [Hok1 H1]. destruct (IH Hok1) as [Hok2 H2]. split; [done|].
  intros r. rewrite !of_port_app, app_assoc, H1, <- !app_assoc. f_equal. apply H2.
Qed.

(** ** The queue object follows the packets *)

Lemma resync_state p s : p_body p <> 0 ->
  state_at (mem (kern (resync p s))) (p_body p) = s32 (Z.of_nat (length (packets_ p))) /\
  CurrentCount (queues (resync p s) (p_body p)) = u32 (Z.of_nat (length (packets_ p))).
Proof.
  intros Hb. unfold resync. rewrite (proj2 (Z.eqb_neq _ _) Hb). cbn. unfold state_at, set_state_at, set_object. by rewrite !Z.eqb_refl.
Qed.

Lemma pop_state r p s : p_body p <> 0 ->
  let '(_, p', s') := pop r p s in p_body p' = p_body p /\ packets_ p' = tail (packets_ p) /\
  state_at (mem (kern s')) (p_body p) = s32 (Z.of_nat (length (packets_ p'))).
Proof.
  intros Hb. unfold pop. destruct p as [n b [|k l]]; cbn [packets_ with_packets p_name p_body tail] in *.
  - split_and!; [done|done|]. by apply (resync_state (Port n b [])).
  - split_and!; [done|done|]. by apply (resync_state (Port n b l)).
Qed.

Lemma remove_loop_state n : forall r p s, p_body p <> 0 -> (0 < n)%nat ->
  state_at (mem (kern (remove_loop n r p s).2)) (p_body p) = s32 (Z.of_nat (length (skipn n (packets_ p)))).
Proof.
  induction n as [|n IH]; intros r p s Hb Hn; [lia|]. cbn [remove_loop]. pose proof (pop_state r p s Hb) as H.
  assert ((pop r p s).1.1 = head (packets_ p)) as Hk by (unfold pop; by destruct (packets_ p)).
  destruct (pop r p s) as [[k p'] s']. cbn [fst] in Hk. destruct H as (Eb & Ep & Hst). destruct (packets_ p) as [|k0 l] eqn:El; cbn [head tail] in *; subst k.
  - cbn [snd]. rewrite Hst, Ep. done.
  - destruct n as [|n]; [cbn; rewrite Hst, Ep; done|].
    specialize (IH r p' s' ltac:(congruence) ltac:(lia)). rewrite Eb, Ep in IH. destruct (remove_loop (S n) r p' s') as [ks s''].
    cbn [snd] in *. exact IH.
Qed.

(** C21: a completion port is a first-in first-out queue.  From a system with no
    packets, whatever sequence of entry points and of other activity of the
    system: the packets accepted for a port, by NtSetIoCompletion, its Ex form or
    a signalled wait packet, are those it has given out followed by those it still
    holds, in order; none is lost, repeated or sent to another port.  At any time
    NtRemoveIoCompletionEx gives the first packets, as many as asked for or there
    are, STATUS_TIMEOUT exactly when there is none, and leaves the signal state of
    the queue object at the number that is left. *)
Theorem completion_fifo ops s :
  hosts_ok s -> (forall r, packets_of r s = []) ->
  let '(posted, given, s') := run ops s in
  (forall r, of_port r posted = of_port r given ++ packets_of r s') /\
  (forall handle r p, port_from_handle handle s' = Some (r, p) ->
     packets_of r s' = packets_ p /\
     (forall k, (SetIoCompletion handle k s').1 = STATUS_SUCCESS /\
        packets_of r (SetIoCompletion handle k s').2 = packets_ p ++ [k]) /\
     (forall count, 0 < count -> let '(st, ks, s2) := RemoveIoCompletionEx handle true count s' in
        ks = firstn (Z.to_nat count) (packets_ p) /\ packets_of r s2 = skipn (Z.to_nat count) (packets_ p) /\
        st = match packets_ p with [] => STATUS_TIMEOUT | _ => STATUS_SUCCESS end /\
        (p_body p <> 0 -> state_at (mem (kern s2)) (p_body p) = s32 (Z.of_nat (length (packets_of r s2)))))).
Proof.
  intros Hok H0. pose proof (run_moves ops s) as H. destruct (run ops s) as [[ps gs] s']. destruct (H Hok) as [Hok' Hr].
  split; [intros r; by rewrite <- Hr, H0|]. intros handle r p Ep. pose proof (port_from_handle_Some _ _ _ _ Ep) as Hh.
  split_and!.
  - unfold packets_of. by rewrite Hh.
  - intros k. unfold SetIoCompletion. rewrite Ep. split; [done|]. cbn [snd]. change (packets_of r (wake_port p (push r p k s'))) with (packets_of r (push r p k s')).
    by rewrite (only_packets _ _ _ _ _ (push_only r p k s')), Z.eqb_refl.
  - intros count Hc. unfold RemoveIoCompletionEx. rewrite Ep. cbn [negb orb]. rewrite (proj2 (Z.eqb_neq count 0)) by lia.
    pose proof (remove_loop_spec (Z.to_nat count) r p s' Hh) as HL. pose proof (remove_loop_state (Z.to_nat count) r p s') as HS.
    destruct (remove_loop (Z.to_nat count) r p s') as [ks s2]. destruct HL as [-> Ho]. cbn [snd] in HS.
    pose proof (only_packets _ _ _ _ r Ho) as Hp. rewrite Z.eqb_refl in Hp. cbn [packets_ with_packets] in Hp.
    destruct (packets_ p) as [|k l] eqn:El; [rewrite List.firstn_nil|destruct (Z.to_nat count) as [|n] eqn:En; [lia|]; cbn [firstn]].
    all: split_and!; [done|done|done|]; intros Hb; rewrite Hp; apply HS; [done|lia].
Qed.
