(* ===== verification/GuestMem.v ===== *)
(** * Guest memory as the entry points see it

    [addr_space::read_mem] and [write_mem] on the bytes of the current space, and
    the strings of util/string.hpp over them.  A byte that is not mapped is [None]
    and reaching it throws; mapping is by whole pages, so what a write leaves when
    it throws is every byte before the first such one. *)

From S2P Require Import Prelude.
From stdpp Require Import list.
From stdpp Require Import options.

Open Scope Z_scope.
Open Scope kern_scope.

Definition gmem : Type := Z -> option Z.
Abbreviation gst := (st gmem).

Definition read_byte (a : Z) : gst Z := fun m =>
  match m (u64 a) with Some b => (Ok b, m) | None => (Throw unmapped_va, m) end.
Definition write_byte (a b : Z) : gst unit := fun m =>
  match m (u64 a) with
  | Some _ => (Ok tt, fun x => if x =? u64 a then Some b else m x)
  | None => (Throw unmapped_va, m)
  end.

Fixpoint read_mem (a : Z) (n : nat) : gst (list Z) :=
  match n with
  | O => ret []
  | S n => let! b := read_byte a in let! l := read_mem (a + 1) n in ret (b :: l)
  end.
Fixpoint write_mem (a : Z) (l : list Z) : gst unit :=
  match l with
  | [] => ret tt
  | b :: l => write_byte a b ;; write_mem (a + 1) l
  end.

(** ** Characters

    [w] is [sizeof(T)]: 1 for char, 2 for char16_t.  A string is the list of its
    characters. *)

Definition read_char (w : nat) (a : Z) : gst Z := let! l := read_mem a w in ret (le_val l).
Definition chars_bytes (w : nat) (s : list Z) : list Z := flat_map (le_bytes w) s.
Definition write_chars (w : nat) (a : Z) (s : list Z) : gst unit := write_mem a (chars_bytes w s).
Definition char_size (w : nat) : Z := Z.of_nat w.
(** [n * sizeof(T)] past [a]. *)
Definition char_at (w : nat) (a : Z) (n : Z) : Z := a + n * char_size w.

Definition max_chars : nat := 4096.

Fixpoint read_basic_string (w : nat) (a : Z) (n : nat) : gst (list Z) :=
  match n with
  | O => ret []
  | S n =>
      let! c := read_char w a in
      if c =? 0 then ret [] else let! s := read_basic_string w (a + char_size w) n in ret (c :: s)
  end.
Definition read_string (a : Z) : gst (list Z) := read_basic_string 1 a max_chars.
Definition read_wstring (a : Z) : gst (list Z) := read_basic_string 2 a max_chars.

(** [chars] is unsigned: a count of 0 leaves the whole string. *)
Definition write_basic_string_buffer (w : nat) (a buf_count : Z) (s : list Z) : gst unit :=
  let chars := Z.to_nat (Z.min (Z.of_nat (length s)) (buf_count -w 1)) in
  (if (0 <? chars)%nat then write_chars w a (take chars s) else ret tt) ;;
  write_chars w (char_at w a (Z.of_nat chars)) [0].

(** ** Conversions and comparisons *)

Definition narrow_wstring (s : list Z) : list Z := map (fun c => Z.land c 0xFF) s.
Definition widen_string (s : list Z) : list Z := map u8 s.

Definition ascii_lower (c : Z) : Z := if (65 <=? c) && (c <=? 90) then c - 65 + 97 else c.

(** The value of a character in a comparison: char is signed, char16_t is not. *)
Definition char_value (w : nat) (c : Z) : Z := match w with 1%nat => signed 8 c | _ => c end.

Fixpoint compare_count (w : nat) (a b : list Z) (count : nat) : Z :=
  match count, a, b with
  | S count, x :: a, y :: b =>
      let ca := ascii_lower x in
      let cb := ascii_lower y in
      if negb (ca =? cb) then (if char_value w ca <? char_value w cb then -1 else 1) else compare_count w a b count
  | _, _, _ => 0
  end.

Definition compare_ascii_nocase (w : nat) (a b : list Z) : Z :=
  let diff := compare_count w a b (Nat.min (length a) (length b)) in
  if negb (diff =? 0) then diff
  else if (length a =? length b)%nat then 0 else if (length a <? length b)%nat then -1 else 1.

(** The sign of [a.compare(b)] and of [strcmp]: by unsigned characters, then by
    length. *)
Fixpoint compare_exact (a b : list Z) : Z :=
  match a, b with
  | [], [] => 0
  | [], _ => -1
  | _, [] => 1
  | x :: a, y :: b => if x =? y then compare_exact a b else if x <? y then -1 else 1
  end.

(** ** What reads and writes do *)

Definition mapped (m : gmem) (a n : Z) : Prop := forall x, a <= x < a + n -> is_Some (m x).
(** The bytes [l] are at [a]. *)
Definition holds (m : gmem) (a : Z) (l : list Z) : Prop := forall i b, l !! i = Some b -> m (a + Z.of_nat i) = Some b.
(** [m] with the bytes [l] at [a]. *)
Definition splice (a : Z) (l : list Z) (m : gmem) : gmem := fun x =>
  if (a <=? x) && (x <? a + Z.of_nat (length l)) then l !! Z.to_nat (x - a) else m x.
Definition same (m m' : gmem) : Prop := forall x, m x = m' x.

Lemma splice_in a l m x : a <= x < a + Z.of_nat (length l) -> splice a l m x = l !! Z.to_nat (x - a).
Proof. intros H. unfold splice. by rewrite (proj2 (Z.leb_le _ _)), (proj2 (Z.ltb_lt _ _)) by lia. Qed.
Lemma splice_out a l m x : ~ a <= x < a + Z.of_nat (length l) -> splice a l m x = m x.
Proof. intros H. unfold splice. destruct (Z.leb_spec a x), (Z.ltb_spec x (a + Z.of_nat (length l))); cbn; [lia|done..]. Qed.

Lemma holds_cons m a b l : holds m a (b :: l) <-> m a = Some b /\ holds m (a + 1) l.
Proof.
  split.
  - intros H. split; [specialize (H 0%nat b eq_refl); by rewrite Z.add_0_r in H|].
    intros i c Hi. specialize (H (S i) c Hi). by replace (a + 1 + Z.of_nat i) with (a + Z.of_nat (S i)) by lia.
  - intros [H0 H] [|i] c Hi; [cbn in Hi; simplify_eq; by rewrite Z.add_0_r|].
    replace (a + Z.of_nat (S i)) with (a + 1 + Z.of_nat i) by lia. by apply H.
Qed.

Lemma holds_app m a l l' : holds m a (l ++ l') <-> holds m a l /\ holds m (a + Z.of_nat (length l)) l'.
Proof.
  revert a. induction l as [|b l IH]; intros a; cbn [app length].
  - rewrite Z.add_0_r. split; [intros H; split; [intros ? ? ?; done|done]|tauto].
  - rewrite !holds_cons, IH. replace (a + 1 + Z.of_nat (length l)) with (a + Z.of_nat (S (length l))) by lia. tauto.
Qed.

Lemma splice_holds a l m : holds (splice a l m) a l.
Proof.
  intros i b Hi. apply lookup_lt_Some in Hi as Hl. rewrite splice_in by lia. by replace (Z.to_nat (a + Z.of_nat i - a)) with i by lia.
Qed.

Lemma read_mem_holds m l : forall a, 0 <= a -> a + Z.of_nat (length l) <= 2 ^ 64 -> holds m a l -> read_mem a (length l) m = (Ok l, m).
Proof.
  induction l as [|b l IH]; intros a Ha Hb H; [done|]. apply holds_cons in H as [H0 H]. cbn [read_mem length] in *.
  unfold bind, read_byte. rewrite u64_small, H0 by (unfold in_u64; lia). rewrite IH; [done|lia|lia|done].
Qed.

Lemma write_mem_mapped l : forall a m, 0 <= a -> a + Z.of_nat (length l) <= 2 ^ 64 -> mapped m a (Z.of_nat (length l)) ->
  exists m', write_mem a l m = (Ok tt, m') /\ same m' (splice a l m).
Proof.
  induction l as [|b l IH]; intros a m Ha Hb Hm; cbn [write_mem length] in *.
  { exists m. split; [done|]. intros x. by rewrite splice_out by (cbn; lia). }
  destruct (Hm a ltac:(lia)) as [b0 H0]. unfold bind, write_byte. rewrite u64_small, H0 by (unfold in_u64; lia).
  destruct (IH (a + 1) (fun x => if x =? a then Some b else m x)) as (m' & E & Hs); [lia|lia| |].
  { intros x Hx. destruct (x =? a); [by eexists|]. apply Hm. lia. }
  exists m'. split; [done|]. intros x. rewrite Hs. destruct (decide (a <= x < a + Z.of_nat (S (length l)))) as [Hx|Hx].
  - rewrite (splice_in a) by (cbn [length]; lia). destruct (Z.eqb_spec x a) as [->|Hne].
    + rewrite splice_out, Z.eqb_refl, Z.sub_diag by lia. done.
    + rewrite splice_in by lia. by replace (Z.to_nat (x - a)) with (S (Z.to_nat (x - (a + 1)))) by lia.
  - rewrite !splice_out by (cbn [length]; lia). by destruct (Z.eqb_spec x a); [lia|].
Qed.

Lemma length_chars_bytes w s : length (chars_bytes w s) = (w * length s)%nat.
Proof. induction s as [|c s IH]; cbn; [lia|]. rewrite length_app, length_le_bytes. unfold chars_bytes in IH. rewrite IH. lia. Qed.

Lemma chars_bytes_app w s s' : chars_bytes w (s ++ s') = chars_bytes w s ++ chars_bytes w s'.
Proof. apply flat_map_app. Qed.

(** ** Strings in memory *)

(** Characters that are not the terminator. *)
Definition is_char (w : nat) (c : Z) : Prop := 0 < c < 256 ^ Z.of_nat w.
(** A terminated string at [a]. *)
Definition string_at (w : nat) (m : gmem) (a : Z) (s : list Z) : Prop := holds m a (chars_bytes w (s ++ [0])).

Lemma read_char_holds w m a c : 0 <= a -> a + char_size w <= 2 ^ 64 -> 0 <= c < 256 ^ Z.of_nat w ->
  holds m a (le_bytes w c) -> read_char w a m = (Ok c, m).
Proof.
  intros Ha Hb Hc H. unfold read_char, bind, char_size in *. pose proof (read_mem_holds m (le_bytes w c) a Ha) as Hr.
  rewrite length_le_bytes in Hr. rewrite Hr by done. rewrite le_val_bytes. by rewrite Z.mod_small.
Qed.

Lemma read_string_at w m s : forall a n, (0 < w)%nat -> Forall (is_char w) s -> 0 <= a ->
  a + char_size w * Z.of_nat (length s + 1) <= 2 ^ 64 -> string_at w m a s ->
  read_basic_string w a n m = (Ok (take n s), m).
Proof.
  induction s as [|c s IH]; intros a n Hw Hs Ha Hb Hat; destruct n as [|n]; try done; unfold string_at in Hat; cbn [app chars_bytes flat_map read_basic_string take] in *.
  - rewrite app_nil_r in Hat. unfold bind. rewrite (read_char_holds w m a 0); [done|done|cbn in Hb; lia|split; [done|apply Z.pow_pos_nonneg; lia]|done].
  - apply holds_app in Hat as [H0 H1]. rewrite length_le_bytes in H1. apply Forall_cons in Hs as [Hc Hs].
    unfold bind. rewrite (read_char_holds w m a c); [|done|cbn [length] in Hb; unfold char_size in *; nia|unfold is_char in Hc; lia|done].
    destruct (Z.eqb_spec c 0); [unfold is_char in Hc; lia|].
    rewrite (IH (a + char_size w) n); [done|done|done|unfold char_size; lia|cbn [length] in Hb; unfold char_size in *; nia|].
    unfold string_at. by apply H1.
Qed.

Lemma same_holds m m' a l : same m m' -> holds m' a l -> holds m a l.
Proof. intros Hs H i b Hi. rewrite Hs. by apply H. Qed.
Lemma same_trans m1 m2 m3 : same m1 m2 -> same m2 m3 -> same m1 m3.
Proof. intros H1 H2 x. by rewrite H1. Qed.
Lemma splice_same a l m m' : same m m' -> same (splice a l m) (splice a l m').
Proof. intros H x. unfold splice. destruct (_ && _); [done|apply H]. Qed.
Lemma splice_splice a l l' m : same (splice (a + Z.of_nat (length l)) l' (splice a l m)) (splice a (l ++ l') m).
Proof.
  intros x. destruct (decide (a <= x < a + Z.of_nat (length l))) as [H1|H1].
  - rewrite splice_out, !splice_in by (rewrite ?length_app; lia). rewrite lookup_app_l by lia. done.
  - destruct (decide (a + Z.of_nat (length l) <= x < a + Z.of_nat (length l) + Z.of_nat (length l'))) as [H2|H2].
    + rewrite !splice_in by (rewrite ?length_app; lia). rewrite lookup_app_r by lia. f_equal. lia.
    + rewrite !splice_out by (rewrite ?length_app; lia). done.
Qed.
Lemma splice_mapped a l m b n : mapped m b n -> mapped (splice a l m) b n.
Proof.
  intros H x Hx. destruct (decide (a <= x < a + Z.of_nat (length l))) as [H1|H1]; [|rewrite splice_out by done; by apply H].
  rewrite splice_in by done. apply lookup_lt_is_Some. lia.
Qed.

(** The buffer gets as much of the string as fits and its terminator, and nothing
    else changes. *)
Lemma write_string_buffer_spec w a count s m : (0 < w)%nat -> 0 < count < 2 ^ 64 -> 0 <= a ->
  a + char_size w * count <= 2 ^ 64 -> mapped m a (char_size w * count) ->
  let kept := take (Z.to_nat (count - 1)) s in
  exists m', write_basic_string_buffer w a count s m = (Ok tt, m') /\ same m' (splice a (chars_bytes w (kept ++ [0])) m).
Proof.
  intros Hw Hc Ha Hb Hm kept. unfold write_basic_string_buffer.
  assert ((count -w 1) = count - 1) as -> by (apply u64_small; unfold in_u64; lia).
  set (chars := Z.to_nat (Z.min (Z.of_nat (length s)) (count - 1))).
  assert (take chars s = kept) as Ek.
  { unfold kept, chars. destruct (decide (Z.of_nat (length s) <= count - 1)).
    - rewrite Z.min_l, Nat2Z.id, firstn_all by lia. symmetry. apply take_ge. lia.
    - by rewrite Z.min_r by lia. }
  assert (length kept = chars) as Hl by (rewrite <- Ek, length_take; unfold chars; lia).
  rewrite Ek. assert (Z.of_nat chars <= count - 1) as Hcl by (unfold chars; lia). clearbody kept chars. clear s Ek. unfold char_size in *.
  assert (exists m1, (if (0 <? chars)%nat then write_chars w a kept else ret tt) m = (Ok tt, m1) /\ same m1 (splice a (chars_bytes w kept) m)) as (m1 & E1 & H1).
  { destruct (Nat.ltb_spec 0 chars) as [|Hz].
    - apply write_mem_mapped; [done|rewrite length_chars_bytes; nia|]. intros x Hx. apply Hm. rewrite length_chars_bytes in Hx. nia.
    - exists m. split; [done|]. assert (kept = []) as -> by (apply nil_length_inv; lia). intros x. by rewrite splice_out by (cbn; lia). }
  unfold bind. rewrite E1. unfold write_chars, char_at, char_size.
  destruct (write_mem_mapped (chars_bytes w [0]) (a + Z.of_nat chars * Z.of_nat w) m1) as (m' & E & H).
  { nia. } { rewrite length_chars_bytes. cbn [length]. nia. }
  { intros x Hx. rewrite H1. apply (splice_mapped a _ m a (Z.of_nat w * count) Hm). rewrite length_chars_bytes in Hx. cbn [length] in Hx. nia. }
  exists m'. split; [done|]. intros x. rewrite H. rewrite (splice_same _ _ _ _ H1 x).
  replace (a + Z.of_nat chars * Z.of_nat w) with (a + Z.of_nat (length (chars_bytes w kept))) by (rewrite length_chars_bytes; nia).
  rewrite splice_splice. by rewrite chars_bytes_app.
Qed.

Lemma narrow_widen s : Forall is_byte s -> narrow_wstring (widen_string s) = s.
Proof.
  intros H. unfold narrow_wstring, widen_string. rewrite map_map. induction H as [|c s Hc _ IH]; [done|]. cbn [map]. f_equal; [|done].
  unfold is_byte in Hc. change 255 with (Z.ones 8). rewrite Z.land_ones by lia. unfold u8. rewrite Z.mod_mod by lia. by apply Z.mod_small.
Qed.
