(* ===== verification/Crt.v ===== *)
(** * C runtime entry points

    modules/nt_crt_ops.cpp over the strings of [GuestMem].  An argument of type
    std::string or std::u16string is read from the guest before the entry point
    runs (emu/calling_conv.hpp), so it is an address here.  Of a comparison only
    the sign of the result is modelled. *)

From S2P Require Import Prelude GuestMem.
From stdpp Require Import list.
From stdpp Require Import options.

Open Scope Z_scope.
Open Scope kern_scope.

Definition crt_einval : Z := 22.
Definition crt_erange : Z := 34.

(** ** Lengths and comparisons *)

Definition wcslen (str : Z) : gst Z := let! s := read_wstring str in ret (Z.of_nat (length s)).

(** Reads both strings, then compares. *)
Definition compare_with {A} (w : nat) (cmp : list Z -> list Z -> A) (str1 str2 : Z) : gst A :=
  let! s1 := read_basic_string w str1 max_chars in
  let! s2 := read_basic_string w str2 max_chars in
  ret (cmp s1 s2).

(** [std::min(count, std::min(a.size(), b.size()) + 1)]. *)
Definition through_terminator (count : Z) (a b : list Z) : nat :=
  Z.to_nat (Z.min count (Z.of_nat (Nat.min (length a) (length b)) + 1)).

Definition strcmp : Z -> Z -> gst Z := compare_with 1 compare_exact.
Definition strncmp (str1 str2 count : Z) : gst Z :=
  compare_with 1 (fun a b => compare_exact (take (through_terminator count a b) (a ++ [0])) (take (through_terminator count a b) (b ++ [0]))) str1 str2.
Definition stricmp : Z -> Z -> gst Z := compare_with 1 (compare_ascii_nocase 1).
Definition strnicmp (str1 str2 count : Z) : gst Z :=
  compare_with 1 (fun a b => compare_count 1 (a ++ [0]) (b ++ [0]) (through_terminator count a b)) str1 str2.
Definition wcscmp : Z -> Z -> gst Z := compare_with 2 compare_exact.
Definition wcsncmp (str1 str2 count : Z) : gst Z :=
  compare_with 2 (fun a b => compare_exact (take (through_terminator count a b) a) (take (through_terminator count a b) b)) str1 str2.
Definition wcsicmp : Z -> Z -> gst Z := compare_with 2 (compare_ascii_nocase 2).
Definition wcsnicmp (str1 str2 count : Z) : gst Z :=
  compare_with 2 (fun a b => compare_count 2 (a ++ [0]) (b ++ [0]) (through_terminator count a b)) str1 str2.

(** ** Searches in the guest's own bytes *)

Fixpoint strchr_loop (fuel : nat) (at_ wanted : Z) : gst Z :=
  match fuel with
  | O => throw out_of_fuel
  | S fuel =>
      let! ch := read_byte at_ in
      if ch =? wanted then ret at_
      else if ch =? 0 then ret 0
      else strchr_loop fuel (at_ +w 1) wanted
  end.
Definition strchr (fuel : nat) (str c : Z) : gst Z := if str =? 0 then ret 0 else strchr_loop fuel str (u8 c).

Fixpoint strnlen_loop (fuel : nat) (str n max_count : Z) : gst Z :=
  match fuel with
  | O => throw out_of_fuel
  | S fuel =>
      if n <? max_count then
        let! ch := read_byte (str + n) in
        if ch =? 0 then ret n else strnlen_loop fuel str (n + 1) max_count
      else ret n
  end.
Definition strnlen (fuel : nat) (str max_count : Z) : gst Z :=
  if (str =? 0) || (max_count =? 0) then ret 0 else strnlen_loop fuel str 0 max_count.

(** [haystack.find(sub)]. *)
Fixpoint starts (p s : list Z) : bool :=
  match p, s with
  | [], _ => true
  | c :: p, d :: s => (c =? d) && starts p s
  | _, _ => false
  end.
Fixpoint find_sub (sub s : list Z) : option nat :=
  if starts sub s then Some O else match s with [] => None | _ :: s => S <$> find_sub sub s end.
Definition strstr (str sub_str : Z) : gst Z :=
  let! sub := read_string sub_str in
  let! haystack := read_string str in
  ret (match find_sub sub haystack with Some pos => str +w Z.of_nat pos | None => 0 end).

(** ** Copies *)

(** strcpy_s and wcscpy_s: the narrow one writes the terminated string, the wide
    one goes through the buffer writer. *)
Definition strcpy_s (destination size source : Z) : gst Z :=
  let! s := read_string source in
  if (destination =? 0) || (size =? 0) then ret crt_einval
  else if size <? Z.of_nat (length s) + 1 then write_chars 1 destination [0] ;; ret crt_erange
  else write_mem destination (s ++ [0]) ;; ret 0.

Definition truncate : Z := 2 ^ 64 - 1.

Definition strncpy_s (destination size source count : Z) : gst Z :=
  let! s := read_string source in
  if (destination =? 0) || (size =? 0) then ret crt_einval
  else
    let wanted := if count =? truncate then Z.of_nat (length s) else Z.min count (Z.of_nat (length s)) in
    let room := size - 1 in
    if (room <? wanted) && negb (count =? truncate) then write_chars 1 destination [0] ;; ret crt_erange
    else
      let n := Z.min wanted room in
      write_mem destination (take (Z.to_nat n) s ++ [0]) ;;
      ret (if n <? wanted then crt_erange else 0).

(** strncpy and wcsncpy: [count] characters, the rest of them 0. *)
Definition ncpy (w : nat) (destination source count : Z) : gst Z :=
  let! s := read_basic_string w source max_chars in
  let n := Z.to_nat count in
  write_chars w destination (take n s ++ replicate (n - length s) 0) ;; ret destination.
Definition strncpy : Z -> Z -> Z -> gst Z := ncpy 1.
Definition wcsncpy : Z -> Z -> Z -> gst Z := ncpy 2.

Definition wcscpy_s (destination size_in_words source : Z) : gst Z :=
  let! s := read_wstring source in
  if (destination =? 0) || (size_in_words =? 0) then ret crt_einval
  else if size_in_words <? Z.of_nat (length s) + 1 then write_chars 2 destination [0] ;; ret crt_erange
  else write_basic_string_buffer 2 destination size_in_words s ;; ret 0.

Definition wcscat_s (destination size_in_words source : Z) : gst Z :=
  let! s := read_wstring source in
  if (destination =? 0) || (size_in_words =? 0) then ret crt_einval
  else
    let! existing := read_wstring destination in
    if size_in_words <? Z.of_nat (length existing) + Z.of_nat (length s) + 1 then write_chars 2 destination [0] ;; ret crt_erange
    else write_basic_string_buffer 2 destination size_in_words (existing ++ s) ;; ret 0.

Definition tolower_int (c : Z) : Z := if (65 <=? c) && (c <=? 90) then c + 32 else c.

(** ** Formatted text into a buffer *)

(** _snwprintf and its relatives, with the text already formatted. *)
Definition write_formatted (destination count : Z) (text : list Z) (secure : bool) : gst Z :=
  if (destination =? 0) || (count =? 0) then ret (-1)
  else if count <=? Z.of_nat (length text) then
    if secure then write_chars 2 destination [0] ;; ret (-1)
    else write_chars 2 destination (take (Z.to_nat count) text) ;; ret (-1)
  else write_basic_string_buffer 2 destination count text ;; ret (s32 (Z.of_nat (length text))).

(** _snprintf_s, _vsnprintf_s and _vsnwprintf_s. *)
Definition write_counted (w : nat) (destination count max_count : Z) (text : list Z) : gst Z :=
  if (destination =? 0) || (count =? 0) then ret crt_einval
  else
    let wanted := if max_count =? truncate then Z.of_nat (length text) else Z.min (Z.of_nat (length text)) max_count in
    if wanted + 1 <=? count then
      write_basic_string_buffer w destination count (take (Z.to_nat wanted) text) ;; ret (s32 wanted)
    else
      let kept := if max_count =? truncate then count - 1 else 0 in
      write_basic_string_buffer w destination count (take (Z.to_nat kept) text) ;; ret (-1).

(** ** bsearch and qsort

    [compar] is the guest's routine at [comparator]: it gets two addresses and may
    do anything to memory. *)
Section Compar.
Context (compar : Z -> Z -> gst Z).

Fixpoint bsearch_loop (fuel : nat) (key base width low high : Z) : gst Z :=
  match fuel with
  | O => throw out_of_fuel
  | S fuel =>
      if low <? high then
        let mid := low + (high - low) / 2 in
        let at_ := base +w mid * width in
        let! order := compar key at_ in
        if s32 order =? 0 then ret at_
        else if s32 order <? 0 then bsearch_loop fuel key base width low mid
        else bsearch_loop fuel key base width (mid + 1) high
      else ret 0
  end.
(** A range of less than 2^64 halves to nothing in 64 rounds. *)
Definition bsearch (key base count width comparator : Z) : gst Z :=
  if (key =? 0) || (base =? 0) || (width =? 0) || (comparator =? 0) || (count =? 0) then ret 0
  else bsearch_loop 65 key base width 0 count.

(** [std::stable_sort] of the indices: each goes behind those it is not less than,
    which is one of the orders the library may call the comparator in.  The list is
    kept with the last one first. *)
Fixpoint insert_index (base width : Z) (x : nat) (l : list nat) : gst (list nat) :=
  match l with
  | [] => ret [x]
  | y :: l' =>
      let! order := compar (base +w Z.of_nat x * width) (base +w Z.of_nat y * width) in
      if s32 order <? 0 then let! l' := insert_index base width x l' in ret (y :: l')
      else ret (x :: l)
  end.
Fixpoint sort_indices (base width : Z) (xs : list nat) (sorted : list nat) : gst (list nat) :=
  match xs with
  | [] => ret sorted
  | x :: xs => let! sorted := insert_index base width x sorted in sort_indices base width xs sorted
  end.

Definition chunk (width : nat) (l : list Z) (i : nat) : list Z := take width (drop (i * width) l).

Definition qsort (base count width comparator : Z) : gst unit :=
  if (base =? 0) || (width =? 0) || (comparator =? 0) || (count <? 2) then ret tt else
  let n := Z.to_nat count in
  let w := Z.to_nat width in
  let! elements := read_mem base (Z.to_nat (u64 (count * width))) in
  let! order := sort_indices base width (seq 0 n) [] in
  write_mem base (flat_map (chunk w elements) (rev order)).
End Compar.
