(* ===== verification/CrtThm.v ===== *)
(** * C runtime entry points: copies, searches and sorts *)

From S2P Require Import Prelude GuestMem Crt.
From stdpp Require Import list sorting.
From stdpp Require Import options.

Open Scope Z_scope.
Open Scope kern_scope.

(** ** Copies into a buffer of [size] characters *)

(** Only the buffer changed, and it holds a terminated string. *)
Definition buffer_holds (w : nat) (m : gmem) (d size : Z) (m' : gmem) (s : list Z) : Prop :=
  (forall x, ~ d <= x < d + char_size w * size -> m' x = m x) /\ string_at w m' d s.

Record buffer (w : nat) (m : gmem) (d size : Z) : Prop := {
  bu_size : 0 < size < 2 ^ 64; bu_addr : 0 < d; bu_end : d + char_size w * size <= 2 ^ 64;
  bu_mapped : mapped m d (char_size w * size)
}.

(** A terminated string at [a], of any length. *)
Record source (w : nat) (m : gmem) (a : Z) (s : list Z) : Prop := {
  so_chars : Forall (is_char w) s; so_addr : 0 <= a; so_end : a + char_size w * Z.of_nat (length s + 1) <= 2 ^ 64;
  so_at : string_at w m a s
}.

(** What the entry points see of such a string: its first 4096 characters. *)
Definition seen (s : list Z) : list Z := take max_chars s.

Lemma read_source w m a s : (0 < w)%nat -> source w m a s -> read_basic_string w a max_chars m = (Ok (seen s), m).
Proof. intros Hw [H1 H2 H3 H4]. by rewrite (read_string_at w m s). Qed.

Lemma seen_chars w m a s : source w m a s -> Forall (is_char w) (seen s).
Proof. intros [H _ _ _]. by apply Forall_take. Qed.

Lemma length_seen s : (length (seen s) <= max_chars)%nat.
Proof. unfold seen. rewrite length_take. lia. Qed.

Lemma splice_buffer w m d size m' s : (0 < w)%nat -> Z.of_nat (length s) < size ->
  same m' (splice d (chars_bytes w (s ++ [0])) m) -> buffer_holds w m d size m' s.
Proof.
  intros Hw Hl H. split; [|unfold string_at; eapply same_holds; [exact H|apply splice_holds]].
  intros x Hx. rewrite H, splice_out; [done|]. rewrite length_chars_bytes, length_app. cbn [length]. unfold char_size in Hx. nia.
Qed.

Lemma write_terminated w m d size s : (0 < w)%nat -> buffer w m d size -> Z.of_nat (length s) < size ->
  exists m', write_chars w d (s ++ [0]) m = (Ok tt, m') /\ buffer_holds w m d size m' s.
Proof.
  intros Hw [H1 H2 H3 H4] Hl. unfold write_chars, char_size in *.
  destruct (write_mem_mapped (chars_bytes w (s ++ [0])) d m) as (m' & E & H); [lia| | |].
  - rewrite length_chars_bytes, length_app. cbn [length]. nia.
  - intros x Hx. apply H4. rewrite length_chars_bytes, length_app in Hx. cbn [length] in Hx. nia.
  - exists m'. split; [done|]. by apply splice_buffer.
Qed.

Lemma write_buffer w m d size s : (0 < w)%nat -> buffer w m d size ->
  exists m', write_basic_string_buffer w d size s m = (Ok tt, m') /\ buffer_holds w m d size m' (take (Z.to_nat (size - 1)) s).
Proof.
  intros Hw [H1 H2 H3 H4]. destruct (write_string_buffer_spec w d size s m) as (m' & E & H); [done..|lia|done|done|].
  exists m'. split; [done|]. apply splice_buffer; [done| |done]. rewrite length_take. lia.
Qed.

Lemma chars_bytes_1 s : Forall is_byte s -> chars_bytes 1 s = s.
Proof.
  induction 1 as [|c s Hc _ IH]; [done|]. unfold chars_bytes in *. change (flat_map (le_bytes 1) (c :: s)) with (c mod 256 :: flat_map (le_bytes 1) s). unfold is_byte in Hc. rewrite Z.mod_small by lia. by rewrite IH.
Qed.

Lemma is_char_byte c : is_char 1 c -> is_byte c.
Proof. unfold is_char, is_byte. change (256 ^ Z.of_nat 1) with 256. lia. Qed.

Lemma write_narrow m d size s : buffer 1 m d size -> Forall (is_char 1) s -> Z.of_nat (length s) < size ->
  exists m', write_mem d (s ++ [0]) m = (Ok tt, m') /\ buffer_holds 1 m d size m' s.
Proof.
  intros Hb Hs Hl. destruct (write_terminated 1 m d size s) as (m' & E & H); [lia|done|done|]. exists m'. split; [|done].
  unfold write_chars in E. rewrite chars_bytes_1 in E; [done|]. apply Forall_app. split; [|by apply Forall_singleton; vm_compute].
  eapply Forall_impl; [exact Hs|]. apply is_char_byte.
Qed.

Lemma write_empty w m d size : (0 < w)%nat -> buffer w m d size ->
  exists m', write_chars w d [0] m = (Ok tt, m') /\ buffer_holds w m d size m' [].
Proof. intros Hw Hb. apply (write_terminated w m d size []); [done|done|]. destruct Hb. cbn. lia. Qed.

Lemma buffer_test w m d size : buffer w m d size -> (d =? 0) || (size =? 0) = false.
Proof. intros [H1 H2 _ _]. apply orb_false_iff. split; apply Z.eqb_neq; lia. Qed.

(** The entry points, given what they read. *)
Definition copies (w : nat) (op : gst Z) (m : gmem) (d size : Z) (s : list Z) (code : Z) : Prop :=
  exists m', op m = (Ok code, m') /\ buffer_holds w m d size m' s.

Lemma strcpy_s_ok m d size a s : buffer 1 m d size -> source 1 m a s ->
  if size <=? Z.of_nat (length (seen s)) then copies 1 (strcpy_s d size a) m d size [] crt_erange
  else copies 1 (strcpy_s d size a) m d size (seen s) 0.
Proof.
  intros Hb Hs. unfold copies, strcpy_s, bind, read_string. rewrite (read_source 1 m a s), (buffer_test _ _ _ _ Hb) by (done || lia).
  pose proof (seen_chars _ _ _ _ Hs) as Hc. revert Hc. generalize (seen s). clear s Hs. intros s Hs.
  destruct (Z.leb_spec size (Z.of_nat (length s))), (Z.ltb_spec size (Z.of_nat (length s) + 1)); try lia.
  - destruct (write_empty 1 m d size) as (m' & -> & H'); [lia|done|]. by exists m'.
  - destruct (write_narrow m d size s) as (m' & -> & H'); [done..|]. by exists m'.
Qed.

Lemma strncpy_s_ok m d size a s count : buffer 1 m d size -> source 1 m a s -> 0 <= count <= truncate ->
  let n := Z.min count (Z.of_nat (length (seen s))) in
  if n <? size then copies 1 (strncpy_s d size a count) m d size (take (Z.to_nat n) (seen s)) 0
  else if count =? truncate then copies 1 (strncpy_s d size a count) m d size (take (Z.to_nat (size - 1)) (seen s)) crt_erange
  else copies 1 (strncpy_s d size a count) m d size [] crt_erange.
Proof.
  intros Hb Hs Hc n. unfold copies, strncpy_s, bind, read_string. rewrite (read_source 1 m a s), (buffer_test _ _ _ _ Hb) by (done || lia).
  pose proof (seen_chars _ _ _ _ Hs) as Hch. pose proof (length_seen s) as Hlen. unfold n. clear n.
  revert Hch Hlen. generalize (seen s). clear s Hs. intros s Hs Hlen. set (n := Z.min count (Z.of_nat (length s))).
  assert ((if count =? truncate then Z.of_nat (length s) else n) = n) as ->.
  { destruct (Z.eqb_spec count truncate) as [->|]; [|done]. unfold n, truncate, max_chars in *. lia. }
  pose proof (bu_size _ _ _ _ Hb). assert (forall k, Forall (is_char 1) (take k s)) as Ht by (intros k; by apply Forall_take).
  destruct (Z.ltb_spec n size), (Z.ltb_spec (size - 1) n); try lia; cbn [andb].
  - rewrite Z.min_l, Z.ltb_irrefl by lia. destruct (write_narrow m d size (take (Z.to_nat n) s)) as (m' & -> & H'); [done|done|rewrite length_take; lia|]. by exists m'.
  - destruct (count =? truncate); cbn [negb].
    + rewrite Z.min_r, (proj2 (Z.ltb_lt (size - 1) n)) by lia.
      destruct (write_narrow m d size (take (Z.to_nat (size - 1)) s)) as (m' & -> & H'); [done|done|rewrite length_take; lia|]. by exists m'.
    + destruct (write_empty 1 m d size) as (m' & -> & H'); [lia|done|]. by exists m'.
Qed.

Lemma wcscpy_s_ok m d size a s : buffer 2 m d size -> source 2 m a s ->
  if size <=? Z.of_nat (length (seen s)) then copies 2 (wcscpy_s d size a) m d size [] crt_erange
  else copies 2 (wcscpy_s d size a) m d size (seen s) 0.
Proof.
  intros Hb Hs. unfold copies, wcscpy_s, bind, read_wstring. rewrite (read_source 2 m a s), (buffer_test _ _ _ _ Hb) by (done || lia).
  clear Hs. generalize (seen s). clear s. intros s. destruct (Z.leb_spec size (Z.of_nat (length s))), (Z.ltb_spec size (Z.of_nat (length s) + 1)); try lia.
  - destruct (write_empty 2 m d size) as (m' & -> & H'); [lia|done|]. by exists m'.
  - destruct (write_buffer 2 m d size s) as (m' & -> & H'); [lia|done|]. exists m'. split; [done|]. by rewrite take_ge in H' by lia.
Qed.

Lemma wcscat_s_ok m d size a s e : buffer 2 m d size -> source 2 m a s -> source 2 m d e ->
  if size <=? Z.of_nat (length (seen e) + length (seen s)) then copies 2 (wcscat_s d size a) m d size [] crt_erange
  else copies 2 (wcscat_s d size a) m d size (seen e ++ seen s) 0.
Proof.
  intros Hb Hs He. unfold copies, wcscat_s, bind, read_wstring.
  rewrite (read_source 2 m a s), (buffer_test _ _ _ _ Hb), (read_source 2 m d e) by (done || lia).
  clear Hs He. generalize (seen s), (seen e). clear s e. intros s e. destruct (Z.leb_spec size (Z.of_nat (length e + length s))), (Z.ltb_spec size (Z.of_nat (length e) + Z.of_nat (length s) + 1)); try lia.
  - destruct (write_empty 2 m d size) as (m' & -> & H'); [lia|done|]. by exists m'.
  - destruct (write_buffer 2 m d size (e ++ s)) as (m' & -> & H'); [lia|done|]. exists m'. split; [done|]. by rewrite take_ge in H' by (rewrite length_app; lia).
Qed.

Lemma write_counted_ok w m d size max text : (0 < w)%nat -> buffer w m d size -> 0 <= max <= truncate -> Z.of_nat (length text) < 2 ^ 31 ->
  let n := Z.min (Z.of_nat (length text)) max in
  if n <? size then copies w (write_counted w d size max text) m d size (take (Z.to_nat n) text) n
  else copies w (write_counted w d size max text) m d size (if max =? truncate then take (Z.to_nat (size - 1)) text else []) (-1).
Proof.
  intros Hw Hb Hm Hl n. unfold copies, write_counted, bind. rewrite (buffer_test _ _ _ _ Hb).
  assert ((if max =? truncate then Z.of_nat (length text) else Z.min (Z.of_nat (length text)) max) = n) as ->.
  { destruct (Z.eqb_spec max truncate) as [->|]; [|done]. unfold n, truncate. lia. }
  pose proof (bu_size _ _ _ _ Hb). destruct (Z.ltb_spec n size), (Z.leb_spec (n + 1) size); try lia.
  - destruct (write_buffer w m d size (take (Z.to_nat n) text)) as (m' & -> & H'); [done|done|]. exists m'. split.
    + unfold ret. do 2 f_equal. unfold s32, signed. rewrite Z.mod_small by lia. by rewrite (proj2 (Z.ltb_lt _ _)) by (change (2 ^ (32 - 1)) with (2 ^ 31); lia).
    + rewrite take_take in H'. by rewrite Nat.min_r in H' by lia.
  - match goal with |- context [write_basic_string_buffer w d size ?t] => destruct (write_buffer w m d size t) as (m' & -> & H'); [done|done|] end.
    exists m'. split; [done|]. destruct (max =? truncate); rewrite take_take in H'.
    + by rewrite Nat.min_id in H'.
    + change (Z.to_nat 0) with 0%nat in H'. by rewrite Nat.min_0_r in H'.
Qed.

Lemma write_formatted_ok m d size text : buffer 2 m d size -> Z.of_nat (length text) < 2 ^ 31 ->
  if size <=? Z.of_nat (length text) then copies 2 (write_formatted d size text true) m d size [] (-1)
  else copies 2 (write_formatted d size text true) m d size text (Z.of_nat (length text)).
Proof.
  intros Hb Hl. unfold copies, write_formatted, bind. rewrite (buffer_test _ _ _ _ Hb). pose proof (bu_size _ _ _ _ Hb).
  destruct (Z.leb_spec size (Z.of_nat (length text))).
  - destruct (write_empty 2 m d size) as (m' & -> & H'); [lia|done|]. by exists m'.
  - destruct (write_buffer 2 m d size text) as (m' & -> & H'); [lia|done|]. exists m'. split.
    + unfold ret. do 2 f_equal. unfold s32, signed. rewrite Z.mod_small by lia. by rewrite (proj2 (Z.ltb_lt _ _)) by (change (2 ^ (32 - 1)) with (2 ^ 31); lia).
    + by rewrite take_ge in H' by lia.
Qed.

(** The buffer is full of [s], with no room left for a terminator. *)
Definition fills (w : nat) (op : gst Z) (m : gmem) (d size : Z) (s : list Z) (code : Z) : Prop :=
  exists m', op m = (Ok code, m') /\ (forall x, ~ d <= x < d + char_size w * size -> m' x = m x) /\
    holds m' d (chars_bytes w s) /\ Z.of_nat (length s) = size.

Lemma write_unterminated_ok m d size text : buffer 2 m d size -> Z.of_nat (length text) < 2 ^ 31 ->
  if size <=? Z.of_nat (length text) then fills 2 (write_formatted d size text false) m d size (take (Z.to_nat size) text) (-1)
  else copies 2 (write_formatted d size text false) m d size text (Z.of_nat (length text)).
Proof.
  intros Hb Hl. pose proof (write_formatted_ok m d size text Hb Hl) as Hfit. pose proof (bu_size _ _ _ _ Hb) as Hsz.
  unfold fills, copies, write_formatted, bind in *. rewrite (buffer_test _ _ _ _ Hb) in *.
  destruct (Z.leb_spec size (Z.of_nat (length text))); [|done]. clear Hfit.
  set (s := take (Z.to_nat size) text). assert (Z.of_nat (length s) = size) as Hs by (unfold s; rewrite length_take; lia).
  destruct Hb as [_ H2 H3 H4]. unfold write_chars, char_size in *. pose proof (length_chars_bytes 2 s) as Hlen.
  destruct (write_mem_mapped (chars_bytes 2 s) d m) as (m' & -> & H'); [lia|rewrite Hlen; lia| |].
  { intros x Hx. apply H4. lia. }
  exists m'. split_and!; [done| | |done].
  - intros x Hx. rewrite H', splice_out; [done|]. lia.
  - eapply same_holds; [exact H'|]. apply splice_holds.
Qed.

(** ** The order a comparator stands for *)

Section Order.
#[local] Set Default Proof Using "Type*".
Context (f : list Z -> list Z -> Z) (width : nat) (l : list Z).
(** Element [i] of the array of bytes [l] against element [j], by their values. *)
Definition less (i j : nat) : bool := s32 (f (chunk width l i) (chunk width l j)) <? 0.

Fixpoint ins (x : nat) (q : list nat) : list nat :=
  match q with [] => [x] | y :: q' => if less x y then y :: ins x q' else x :: q end.

Lemma ins_perm x q : ins x q ≡ₚ x :: q.
Proof. induction q as [|y q IH]; [done|]. cbn [ins]. destruct (less x y); [|done]. rewrite IH. apply Permutation_swap. Qed.

Context (n : nat).
Hypothesis Hasym : forall i j, (i < n)%nat -> (j < n)%nat -> less i j = true -> less j i = false.
Hypothesis Htrans : forall i j k, (i < n)%nat -> (j < n)%nat -> (k < n)%nat -> less i j = false -> less j k = false -> less i k = false.

(** [i] may come before [j]: it is not greater, and of equals the first comes first. *)
Definition before (i j : nat) : Prop := less j i = false /\ (less i j = false -> (i < j)%nat).

Lemma ins_sorted x q : (x < n)%nat -> Forall (fun y => (y < x)%nat) q ->
  StronglySorted (fun a b => before b a) q -> StronglySorted (fun a b => before b a) (ins x q).
Proof.
  intros Hx Hl. induction 1 as [|y q Hs IH Hy]; cbn [ins]; [by repeat constructor|].
  rewrite Forall_cons in Hl. destruct Hl as [Hyx Hl]. destruct (less x y) eqn:E.
  - constructor; [by apply IH|]. rewrite (ins_perm x q), Forall_cons. split; [|done].
    split; [apply Hasym; [done|lia|done]|]. intros H. congruence.
  - constructor; [by constructor|]. rewrite Forall_cons. split; [by split|].
    rewrite Forall_forall in Hl, Hy |- *. intros z Hz. specialize (Hl z Hz). destruct (Hy z Hz) as [Hzy _].
    split; [|done]. apply (Htrans x y z); [done|lia|lia|done|done].
Qed.

Lemma sort_sorted k : forall m q, (m + k = n)%nat -> Forall (fun y => (y < m)%nat) q -> StronglySorted (fun a b => before b a) q ->
  StronglySorted (fun a b => before b a) (fold_left (fun q x => ins x q) (seq m k) q) /\
  fold_left (fun q x => ins x q) (seq m k) q ≡ₚ q ++ seq m k.
Proof.
  induction k as [|k IH]; intros m q Hm Hl Hs; cbn [seq fold_left]; [split; [done|by rewrite app_nil_r]|].
  destruct (IH (S m) (ins m q)) as [H1 H2]; [lia| |by apply ins_sorted; [lia|..]|].
  { rewrite ins_perm, Forall_cons. split; [lia|]. eapply Forall_impl; [exact Hl|]. cbn. lia. }
  split; [done|]. rewrite H2, ins_perm. rewrite <- Permutation_middle. done.
Qed.

End Order.

(** ** bsearch and qsort with a comparator that compares elements *)

Section Comparator.
#[local] Set Default Proof Using "Type".
Context (compar : Z -> Z -> gst Z) (f : list Z -> list Z -> Z) (width : nat) (scratch : Z -> Prop).

(** The element [x] at [a], out of the way of what the comparator writes. *)
Record element (m : gmem) (a : Z) (x : list Z) : Prop := {
  el_len : length x = width; el_addr : 0 <= a; el_end : a + Z.of_nat width <= 2 ^ 64; el_at : holds m a x;
  el_apart : forall i, a <= i < a + Z.of_nat width -> ~ scratch i
}.

(** [m] has the bytes of [m0] except for those of [scratch], which are mapped. *)
Record kept (m0 m : gmem) : Prop := {
  ke_same : forall i, ~ scratch i -> m i = m0 i; ke_mapped : forall i, scratch i -> is_Some (m i)
}.

(** A routine of the guest that answers by the values of the two elements it is
    given the addresses of.  It may write its stack and its own data, [scratch]. *)
Definition compares : Prop := forall a b x y m, element m a x -> element m b y -> kept m m ->
  exists m', compar a b m = (Ok (f x y), m') /\ kept m m'.

Lemma kept_trans m0 m1 m2 : kept m0 m1 -> kept m1 m2 -> kept m0 m2.
Proof. intros [H1 _] [H2 H3]. split; [|done]. intros i Hi. by rewrite H2, H1. Qed.

Lemma kept_self m0 m : kept m0 m -> kept m m.
Proof. intros [_ H]. by split. Qed.

Lemma element_kept m0 m a x : kept m0 m -> element m0 a x -> element m a x.
Proof.
  intros [H _] [H1 H2 H3 H4 H5]. split; [done..| |done]. intros i b Hi. rewrite H; [by apply H4|].
  apply H5. apply lookup_lt_Some in Hi. lia.
Qed.

(** An array of [count] elements at [base]. *)
Record array (m : gmem) (base count : Z) (l : list Z) : Prop := {
  ar_base : 0 < base; ar_width : (0 < width)%nat; ar_end : base + count * Z.of_nat width <= 2 ^ 64;
  ar_len : Z.of_nat (length l) = count * Z.of_nat width; ar_at : holds m base l;
  ar_apart : forall i, base <= i < base + count * Z.of_nat width -> ~ scratch i
}.

Lemma array_address m base count l i : array m base count l -> 0 <= i < count -> base +w i * Z.of_nat width = base + i * Z.of_nat width.
Proof. intros [H1 H2 H3 _ _ _] Hi. apply u64_small. unfold in_u64. nia. Qed.

Lemma array_element m base count l i : array m base count l -> 0 <= i < count ->
  element m (base +w i * Z.of_nat width) (chunk width l (Z.to_nat i)).
Proof.
  intros Ha Hi. rewrite (array_address m base count l) by done. destruct Ha as [H1 H2 H3 H4 H5 H6]. unfold chunk. split.
  - rewrite length_take, length_drop. nia.
  - nia.
  - nia.
  - intros k b Hk. apply lookup_take_Some in Hk as [Hk Hlt]. rewrite lookup_drop in Hk. rewrite <- (H5 _ _ Hk). f_equal. lia.
  - intros k Hk. apply H6. nia.
Qed.

Hypothesis Hcmp : compares.

Lemma bsearch_loop_ok m0 key kb base count l fuel : element m0 key kb -> array m0 base count l -> forall low high m,
  let g i := s32 (f kb (chunk width l (Z.to_nat i))) in
  (forall i j, 0 <= i <= j -> j < count -> (g i < 0 -> g j < 0) /\ (0 < g j -> 0 < g i)) ->
  0 <= low -> low <= high <= count -> high - low < 2 ^ Z.of_nat fuel ->
  (forall i, 0 <= i < low -> 0 < g i) -> (forall i, high <= i < count -> g i < 0) -> kept m0 m ->
  exists r m', bsearch_loop compar (S fuel) key base (Z.of_nat width) low high m = (Ok r, m') /\ kept m0 m' /\
    ((exists i, 0 <= i < count /\ r = base + i * Z.of_nat width /\ g i = 0) \/ (r = 0 /\ forall i, 0 <= i < count -> g i <> 0)).
Proof using Hcmp.
  intros Hk Ha. induction fuel as [|fuel IH]; intros low high m g Hmon Hlow Hhigh Hlt Hbelow Habove Hm.
  - change (2 ^ Z.of_nat 0) with 1 in Hlt. cbn [bsearch_loop]. rewrite (proj2 (Z.ltb_ge low high)) by lia. exists 0, m. split_and!; [done..|]. right. split; [done|].
    intros i Hi. destruct (decide (i < low)) as [H|H]; [specialize (Hbelow i ltac:(lia)); lia|specialize (Habove i ltac:(lia)); lia].
  - rewrite Nat2Z.inj_succ, Z.pow_succ_r in Hlt by lia. cbn [bsearch_loop]. destruct (Z.ltb_spec low high) as [Hl|Hl].
    2: { exists 0, m. split_and!; [done..|]. right. split; [done|]. intros i Hi. destruct (decide (i < low)); [specialize (Hbelow i ltac:(lia)); lia|specialize (Habove i ltac:(lia)); lia]. }
    set (mid := low + (high - low) / 2). assert (low <= mid < high) as Hmid by (unfold mid; Z.to_euclidean_division_equations; lia).
    assert (mid - low < 2 ^ Z.of_nat fuel /\ high - (mid + 1) < 2 ^ Z.of_nat fuel) as [H1 H2] by (unfold mid; Z.to_euclidean_division_equations; lia).
    destruct (Hcmp key (base +w mid * Z.of_nat width) kb (chunk width l (Z.to_nat mid)) m) as (m1 & E & Hm1).
    { by eapply element_kept. }
    { eapply element_kept; [done|]. apply (array_element m0 base count l); [done|lia]. }
    { by eapply kept_self. }
    pose proof (kept_trans _ _ _ Hm Hm1) as Hm'. unfold bind. rewrite E. fold (g mid). destruct (Z.eqb_spec (g mid) 0) as [E0|E0].
    { eexists _, m1. split_and!; [done..|]. left. exists mid. split_and!; [lia..| |done]. apply (array_address m0 base count l); [done|lia]. }
    destruct (Z.ltb_spec (g mid) 0) as [Hneg|Hpos].
    + apply IH; [done|done|lia|done|done| |done]. intros i Hi. apply (Hmon mid i); [lia|lia|done].
    + apply IH; [done|lia|lia|done| |done|done]. intros i Hi. destruct (decide (i < low)); [by apply Hbelow; lia|]. apply (Hmon i mid); lia.
Qed.

Lemma insert_index_ok m0 base count l x q : array m0 base count l -> Z.of_nat x < count -> Forall (fun i => Z.of_nat i < count) q ->
  forall m, kept m0 m -> exists m', insert_index compar base (Z.of_nat width) x q m = (Ok (ins f width l x q), m') /\ kept m0 m'.
Proof using Hcmp.
  intros Ha Hx. induction 1 as [|y q Hy Hq IH]; intros m Hm; cbn [insert_index ins]; [by exists m|].
  destruct (Hcmp (base +w Z.of_nat x * Z.of_nat width) (base +w Z.of_nat y * Z.of_nat width) (chunk width l x) (chunk width l y) m) as (m1 & E & Hm1).
  { eapply element_kept; [done|]. rewrite <- (Nat2Z.id x) at 2. apply (array_element m0 base count l); [done|lia]. }
  { eapply element_kept; [done|]. rewrite <- (Nat2Z.id y) at 2. apply (array_element m0 base count l); [done|lia]. }
  { by eapply kept_self. }
  unfold bind. rewrite E. unfold less. pose proof (kept_trans _ _ _ Hm Hm1) as Hm'. destruct (s32 _ <? 0); [|by exists m1].
  destruct (IH m1 Hm') as (m2 & -> & Hm2). by exists m2.
Qed.

Lemma ins_below count l x q : Z.of_nat x < count -> Forall (fun i => Z.of_nat i < count) q -> Forall (fun i => Z.of_nat i < count) (ins f width l x q).
Proof. intros Hx Hq. rewrite (ins_perm f width l x q). by constructor. Qed.

Lemma sort_indices_ok m0 base count l xs : array m0 base count l -> Forall (fun i => Z.of_nat i < count) xs ->
  forall q m, Forall (fun i => Z.of_nat i < count) q -> kept m0 m ->
  exists m', sort_indices compar base (Z.of_nat width) xs q m = (Ok (fold_left (fun q x => ins f width l x q) xs q), m') /\ kept m0 m'.
Proof using Hcmp.
  intros Ha. induction 1 as [|x xs Hx Hxs IH]; intros q m Hq Hm; cbn [sort_indices fold_left]; [by exists m|].
  destruct (insert_index_ok m0 base count l x q Ha Hx Hq m Hm) as (m1 & E & Hm1). unfold bind. rewrite E. apply IH; [by apply ins_below|done].
Qed.

End Comparator.

Lemma StronglySorted_rev (R : nat -> nat -> Prop) l : StronglySorted (fun a b => R b a) l -> StronglySorted R (rev l).
Proof.
  induction 1 as [|x l Hs IH Hx]; cbn [rev]; [constructor|]. apply StronglySorted_app_2; [|done|by repeat constructor].
  intros y z Hy Hz. apply list_elem_of_singleton in Hz as ->. rewrite Forall_forall in Hx. apply Hx. rewrite <- elem_of_reverse.
  by rewrite rev_alt in Hy.
Qed.

(** The bytes of the elements in the order [p]. *)
Definition reordered (width : nat) (l : list Z) (p : list nat) : list Z := flat_map (chunk width l) p.

Lemma length_reordered width l p count : length l = (count * width)%nat -> Forall (fun i => (i < count)%nat) p ->
  length (reordered width l p) = (length p * width)%nat.
Proof.
  intros Hl. unfold reordered. induction 1 as [|i p Hi _ IH]; cbn [flat_map length]; [done|]. rewrite length_app, IH. unfold chunk.
  rewrite length_take, length_drop, Hl. nia.
Qed.

Section Qsort.
#[local] Set Default Proof Using "Type*".
Context (compar : Z -> Z -> gst Z) (f : list Z -> list Z -> Z) (scratch : Z -> Prop) (width : nat).
Context (Hcmp : compares compar f width scratch) (base count : Z) (m : gmem) (l : list Z).
Hypothesis Hm : kept scratch m m.
Hypothesis Harr : array width scratch m base count l.
Hypothesis Hcount : 2 <= count.
Hypothesis Hasym : forall i j, (i < Z.to_nat count)%nat -> (j < Z.to_nat count)%nat ->
  less f width l i j = true -> less f width l j i = false.
Hypothesis Htrans : forall i j k, (i < Z.to_nat count)%nat -> (j < Z.to_nat count)%nat -> (k < Z.to_nat count)%nat ->
  less f width l i j = false -> less f width l j k = false -> less f width l i k = false.

Lemma qsort_ok comparator : comparator <> 0 ->
  exists p m', qsort compar base count (Z.of_nat width) comparator m = (Ok tt, m') /\ p ≡ₚ seq 0 (Z.to_nat count) /\
    StronglySorted (before f width l) p /\ (forall x, ~ scratch x -> m' x = splice base (reordered width l p) m x).
Proof.
  intros Hc. pose proof Harr as [H1 H2 H3 Hl Hat Hap]. unfold qsort.
  rewrite (proj2 (Z.eqb_neq base 0)), (proj2 (Z.eqb_neq (Z.of_nat width) 0)), (proj2 (Z.eqb_neq comparator 0)), (proj2 (Z.ltb_ge count 2)) by lia. cbn [orb].
  unfold bind. rewrite (u64_small (count * Z.of_nat width)), <- Hl, !Nat2Z.id by (unfold in_u64; nia). rewrite read_mem_holds by (done || lia).
  destruct (sort_indices_ok compar f width scratch Hcmp m base count l (seq 0 (Z.to_nat count)) Harr) with (q := @nil nat) (m := m) as (m1 & -> & Hm1);
    [apply Forall_seq; lia|constructor|done|].
  destruct (sort_sorted f width l (Z.to_nat count) Hasym Htrans (Z.to_nat count) 0 []) as [Hs Hp]; [lia|constructor|constructor|].
  set (r := fold_left _ _ _) in *. exists (rev r). cbn [app] in Hp.
  assert (rev r ≡ₚ seq 0 (Z.to_nat count)) as Hp' by (by rewrite <- Permutation_rev).
  assert (length (reordered width l (rev r)) = length l) as Hlen.
  { rewrite (length_reordered _ _ _ (Z.to_nat count)); [rewrite Hp', length_seq; nia|nia|]. rewrite Hp'. apply Forall_seq. lia. }
  destruct (write_mem_mapped (reordered width l (rev r)) base m1) as (m' & E & Hm'); [lia|rewrite Hlen; lia| |].
  { intros x Hx. rewrite Hlen in Hx. destruct (lookup_lt_is_Some_2 l (Z.to_nat (x - base)) ltac:(lia)) as [b Hb].
    exists b. rewrite (ke_same _ _ _ Hm1) by (apply Hap; lia). rewrite <- (Hat _ _ Hb). f_equal. lia. }
  exists m'. split; [done|]. split; [done|]. split; [by apply StronglySorted_rev|].
  intros x Hx. rewrite Hm'. unfold splice. destruct (_ && _); [done|]. by apply (ke_same _ _ _ Hm1).
Qed.
End Qsort.

(** C2: the bounded copies and the bounded printf writers stay inside their
    buffer.  With a buffer of [size] characters and a terminated source of any
    length, strcpy_s, strncpy_s, wcscpy_s and wcscat_s see the first 4096
    characters of the source (and wcscat_s of what is there), of which strncpy_s takes
    [count]; if they go in with a terminator they are what the buffer holds,
    terminated, with result 0, and if not the buffer holds the empty string with an
    error, or after strncpy_s under _TRUNCATE the first [size - 1] characters with an
    error.  swprintf_s and vswprintf_s
    ([write_formatted] secure) leave the text with its length or the empty string
    with -1; _snprintf_s, _vsnprintf_s and _vsnwprintf_s ([write_counted], narrow
    and wide) the first [max] characters of it with their number, or, where those do
    not go in, the empty string or under _TRUNCATE what goes in, with -1; and
    _snwprintf and _vsnwprintf ([write_formatted] not secure) the text with its
    length, or, where it does not go in, its first [size] characters with no
    terminator and -1.  (A text has less than 2^31 characters.)  No byte outside
    the buffer changes, and none at all when the buffer is null or has no
    characters. *)
Theorem secure_copies_bounded m d1 size1 a1 s1 count d2 size2 a2 s2 existing text max :
  buffer 1 m d1 size1 -> source 1 m a1 s1 -> 0 <= count <= truncate ->
  buffer 2 m d2 size2 -> source 2 m a2 s2 -> source 2 m d2 existing ->
  Z.of_nat (length text) < 2 ^ 31 -> 0 <= max <= truncate ->
  (if size1 <=? Z.of_nat (length (seen s1)) then copies 1 (strcpy_s d1 size1 a1) m d1 size1 [] crt_erange
   else copies 1 (strcpy_s d1 size1 a1) m d1 size1 (seen s1) 0) /\
  (let n := Z.min count (Z.of_nat (length (seen s1))) in
   if n <? size1 then copies 1 (strncpy_s d1 size1 a1 count) m d1 size1 (take (Z.to_nat n) (seen s1)) 0
   else if count =? truncate then copies 1 (strncpy_s d1 size1 a1 count) m d1 size1 (take (Z.to_nat (size1 - 1)) (seen s1)) crt_erange
   else copies 1 (strncpy_s d1 size1 a1 count) m d1 size1 [] crt_erange) /\
  (if size2 <=? Z.of_nat (length (seen s2)) then copies 2 (wcscpy_s d2 size2 a2) m d2 size2 [] crt_erange
   else copies 2 (wcscpy_s d2 size2 a2) m d2 size2 (seen s2) 0) /\
  (if size2 <=? Z.of_nat (length (seen existing) + length (seen s2)) then copies 2 (wcscat_s d2 size2 a2) m d2 size2 [] crt_erange
   else copies 2 (wcscat_s d2 size2 a2) m d2 size2 (seen existing ++ seen s2) 0) /\
  (if size2 <=? Z.of_nat (length text)
   then copies 2 (write_formatted d2 size2 text true) m d2 size2 [] (-1) /\
        fills 2 (write_formatted d2 size2 text false) m d2 size2 (take (Z.to_nat size2) text) (-1)
   else copies 2 (write_formatted d2 size2 text true) m d2 size2 text (Z.of_nat (length text)) /\
        copies 2 (write_formatted d2 size2 text false) m d2 size2 text (Z.of_nat (length text))) /\
  (let n := Z.min (Z.of_nat (length text)) max in
   let kept size := if max =? truncate then take (Z.to_nat (size - 1)) text else [] in
   (if n <? size1 then copies 1 (write_counted 1 d1 size1 max text) m d1 size1 (take (Z.to_nat n) text) n
    else copies 1 (write_counted 1 d1 size1 max text) m d1 size1 (kept size1) (-1)) /\
   (if n <? size2 then copies 2 (write_counted 2 d2 size2 max text) m d2 size2 (take (Z.to_nat n) text) n
    else copies 2 (write_counted 2 d2 size2 max text) m d2 size2 (kept size2) (-1))) /\
  (forall d size, d = 0 \/ size = 0 ->
     strcpy_s d size a1 m = (Ok crt_einval, m) /\ strncpy_s d size a1 count m = (Ok crt_einval, m) /\
     wcscpy_s d size a2 m = (Ok crt_einval, m) /\ wcscat_s d size a2 m = (Ok crt_einval, m) /\
     (forall secure, write_formatted d size text secure m = (Ok (-1), m)) /\
     (forall w, write_counted w d size max text m = (Ok crt_einval, m))).
Proof.
  intros Hb1 Hs1 Hc Hb2 Hs2 He Ht Hm. split_and!.
  - by apply strcpy_s_ok.
  - by apply strncpy_s_ok.
  - by apply wcscpy_s_ok.
  - by apply wcscat_s_ok.
  - pose proof (write_formatted_ok m d2 size2 text Hb2 Ht). pose proof (write_unterminated_ok m d2 size2 text Hb2 Ht).
    destruct (size2 <=? _); by split.
  - split; (apply write_counted_ok; [lia|done..]).
  - intros d size Hn. assert ((d =? 0) || (size =? 0) = true) as Hz by (destruct Hn as [-> | ->]; [done|by rewrite orb_true_r]).
    unfold strcpy_s, strncpy_s, wcscpy_s, wcscat_s, write_formatted, write_counted, bind, read_string, read_wstring.
    rewrite (read_source 1 m a1 s1), (read_source 2 m a2 s2), Hz by (done || lia). done.
Qed.

(** C24: a comparator of the guest reads two elements and answers by their bytes,
    writing nothing but its own [scratch] memory, away from the array and the key.
    With one that is a strict weak order on the elements, qsort leaves the elements
    of the array, each once, in ascending order and equal ones as they were, and
    changes nothing else.  In an array that is in order with respect to the key
    (first the elements below it, then the equal ones, then those above it) bsearch
    always returns, the address of an element that compares equal to the key if the
    array has one and 0 if it has none, and changes nothing. *)
Theorem qsort_bsearch_correct compar f width scratch base count comparator m l key kb :
  compares compar f width scratch -> kept scratch m m -> comparator <> 0 ->
  array width scratch m base count l -> 0 <= count < 2 ^ 64 ->
  (forall i j, (i < Z.to_nat count)%nat -> (j < Z.to_nat count)%nat -> less f width l i j = true -> less f width l j i = false) ->
  (forall i j k, (i < Z.to_nat count)%nat -> (j < Z.to_nat count)%nat -> (k < Z.to_nat count)%nat ->
     less f width l i j = false -> less f width l j k = false -> less f width l i k = false) ->
  key <> 0 -> element width scratch m key kb ->
  (if count <? 2 then qsort compar base count (Z.of_nat width) comparator m = (Ok tt, m) else
   exists p m', qsort compar base count (Z.of_nat width) comparator m = (Ok tt, m') /\ p ≡ₚ seq 0 (Z.to_nat count) /\
     StronglySorted (before f width l) p /\ (forall x, ~ scratch x -> m' x = splice base (reordered width l p) m x)) /\
  (let order i := s32 (f kb (chunk width l (Z.to_nat i))) in
   (forall i j, 0 <= i <= j -> j < count -> (order i < 0 -> order j < 0) /\ (0 < order j -> 0 < order i)) ->
   exists r m', bsearch compar key base count (Z.of_nat width) comparator m = (Ok r, m') /\ (forall x, ~ scratch x -> m' x = m x) /\
     ((exists i, 0 <= i < count /\ r = base + i * Z.of_nat width /\ order i = 0) \/ (r = 0 /\ forall i, 0 <= i < count -> order i <> 0))).
Proof.
  intros Hcmp Hm Hc Harr Hn Ha Ht Hk Hkey. split.
  { destruct (Z.ltb_spec count 2) as [Hl|]; [|by eapply qsort_ok; eauto]. unfold qsort. by rewrite (proj2 (Z.ltb_lt _ _) Hl), orb_true_r. }
  intros order Hmon. unfold bsearch. pose proof Harr as [H1 H2 H3 Hl _ _].
  rewrite (proj2 (Z.eqb_neq key 0)), (proj2 (Z.eqb_neq base 0)), (proj2 (Z.eqb_neq (Z.of_nat width) 0)), (proj2 (Z.eqb_neq comparator 0)) by lia.
  cbn [orb]. destruct (Z.eqb_spec count 0) as [E0|E0].
  { exists 0, m. split_and!; [done..|]. right. split; [done|]. lia. }
  destruct (bsearch_loop_ok compar f width scratch Hcmp m key kb base count l 64 Hkey Harr 0 count m) as (r & m' & E & [He _] & H).
  - done.
  - lia.
  - lia.
  - change (Z.of_nat 64) with 64. lia.
  - intros i Hi. lia.
  - intros i Hi. lia.
  - done.
  - exists r, m'. by split_and!.
Qed.
