(* ===== verification/Format.v ===== *)
(** * printf for the guest

    util/format.hpp: [vformat], behind the printf family of nt_crt_ops.cpp.  [w] is
    the size of a character, 1 for vsprintf and 2 for vswprintf.  Integers go
    through the host's snprintf, of which [host_format] models the conversions the
    code asks for; what it prints for a pointer is up to the host, as is what it
    prints where the C standard leaves a conversion undefined, so these are
    parameters. *)

From S2P Require Import Prelude GuestMem.
From stdpp Require Import list.
From stdpp Require Import options.

Open Scope Z_scope.
Open Scope kern_scope.

(** The characters by their codes. *)
Definition c_pct : Z := 37.
Definition c_minus : Z := 45.
Definition c_plus : Z := 43.
Definition c_space : Z := 32.
Definition c_0 : Z := 48.
Definition c_hash : Z := 35.
Definition c_star : Z := 42.
Definition c_dot : Z := 46.

Definition is_flag (c : Z) : bool := (c =? c_minus) || (c =? c_plus) || (c =? c_space) || (c =? c_0) || (c =? c_hash).
Definition is_digit (c : Z) : bool := (48 <=? c) && (c <=? 57).

(** The longest prefix of characters that satisfy [p], and the rest. *)
Fixpoint span (p : Z -> bool) (s : list Z) : list Z * list Z :=
  match s with
  | c :: s' => if p c then let '(a, b) := span p s' in (c :: a, b) else ([], s)
  | [] => ([], [])
  end.

(** ** The host's snprintf *)

Fixpoint digits_of (fuel : nat) (base : Z) (upper : bool) (n : Z) (acc : list Z) : list Z :=
  match fuel with
  | O => acc
  | S fuel =>
      if n =? 0 then acc else
      let d := n mod base in
      digits_of fuel base upper (n / base) ((if d <? 10 then 48 + d else (if upper then 55 else 87) + d) :: acc)
  end.
Definition digits (base : Z) (upper : bool) (n : Z) : list Z := digits_of 64 base upper n [].

(** [std::to_string] of a 32-bit integer. *)
Definition to_string (n : Z) : list Z :=
  if n =? 0 then [c_0] else if n <? 0 then c_minus :: digits 10 false (- n) else digits 10 false n.

Definition number_of (s : list Z) : Z := fold_left (fun n c => n * 10 + (c - 48)) s 0.

Record conversion : Type := Conversion { k_flags : list Z; k_width : Z; k_precision : option Z }.

(** What follows a '%': flags, a width, a precision.  [None] where the C standard
    leaves the conversion undefined. *)
Definition parse_mods (mods : list Z) : option conversion :=
  let '(flags, r) := span is_flag mods in
  let '(width, r) := span is_digit r in
  match r with
  | [] => Some (Conversion flags (number_of width) None)
  | c :: r => if negb (c =? c_dot) then None else
      let '(precision, r) := span is_digit r in
      match r with [] => Some (Conversion flags (number_of width) (Some (number_of precision))) | _ => None end
  end.

Definition has_flag (c : Z) (k : conversion) : bool := existsb (fun x => x =? c) (k_flags k).

Definition starts_zero (s : list Z) : bool := match s with c :: _ => c =? c_0 | [] => false end.

(** [value] is the unsigned argument of [bits] bits. *)
Definition host_integer (k : conversion) (bits conv value : Z) : list Z :=
  let is_signed := (conv =? 100) || (conv =? 105) in
  let v := if is_signed then signed bits value else value in
  let base := if conv =? 111 then 8 else if (conv =? 120) || (conv =? 88) then 16 else 10 in
  let ds := digits base (conv =? 88) (Z.abs v) in
  let missing := default 1 (k_precision k) - Z.of_nat (length ds) in
  let ds := replicate (Z.to_nat missing) c_0 ++ ds in
  let ds := if has_flag c_hash k && (base =? 8) && negb (starts_zero ds) then c_0 :: ds else ds in
  let sign :=
    if negb is_signed then [] else if v <? 0 then [c_minus]
    else if has_flag c_plus k then [c_plus] else if has_flag c_space k then [c_space] else [] in
  let prefix := if has_flag c_hash k && (base =? 16) && negb (value =? 0) then [c_0; conv] else [] in
  let head := sign ++ prefix in
  let pad := Z.to_nat (k_width k - Z.of_nat (length head + length ds)) in
  if has_flag c_minus k then head ++ ds ++ replicate pad c_space
  else if has_flag c_0 k && match k_precision k with None => true | Some _ => false end then head ++ replicate pad c_0 ++ ds
  else replicate pad c_space ++ head ++ ds.

(** The buffer has 256 characters, the last for the terminator. *)
Definition buffer_chars : nat := 255.
Definition host_format (mods : list Z) (bits conv value : Z) : option (list Z) :=
  k ← parse_mods mods; Some (take buffer_chars (host_integer k bits conv value)).

(** ** The format string *)

Inductive length_mod : Type := lm_none | lm_h | lm_hh | lm_l | lm_ll | lm_I64 | lm_I32 | lm_z.
Definition lm_eqb (a b : length_mod) : bool :=
  match a, b with
  | lm_none, lm_none | lm_h, lm_h | lm_hh, lm_hh | lm_l, lm_l | lm_ll, lm_ll | lm_I64, lm_I64 | lm_I32, lm_I32 | lm_z, lm_z => true
  | _, _ => false
  end.

Definition parse_length_mod (fmt : list Z) : length_mod * list Z :=
  match fmt with
  | [] => (lm_none, [])
  | c :: r =>
      if c =? 104 then (match r with d :: r' => if d =? 104 then (lm_hh, r') else (lm_h, r) | [] => (lm_h, r) end)
      else if c =? 108 then (match r with d :: r' => if d =? 108 then (lm_ll, r') else (lm_l, r) | [] => (lm_l, r) end)
      else if c =? 73 then
        match r with
        | d :: e :: r' =>
            if (d =? 54) && (e =? 52) then (lm_I64, r')
            else if (d =? 51) && (e =? 50) then (lm_I32, r') else (lm_z, r)
        | _ => (lm_z, r)
        end
      else if c =? 122 then (lm_z, r)
      else (lm_none, fmt)
  end.
Definition is_64bit (lm : length_mod) : bool := match lm with lm_ll | lm_I64 | lm_z => true | _ => false end.

(** The 'Z' after a 'w'. *)
Definition starts_Z (s : list Z) : bool := match s with c :: _ => c =? 90 | [] => false end.

Definition null_text : list Z := [40; 110; 117; 108; 108; 41].

Section Format.
(** Where the arguments come from, and the host's choices. *)
Context {A : Type} (next_arg : A -> gst (Z * A)) (format_pointer : list Z -> Z -> list Z) (format_undefined : list Z -> Z -> list Z).
Context (w : nat).

Definition narrow : bool := (w =? 1)%nat.
Definition foreign_mod : length_mod := if narrow then lm_l else lm_h.

Definition read_unicode_string (ptr : Z) : gst (list Z) :=
  let! buffer := read_mem (ptr + 8) 8 in
  let! length := read_mem ptr 2 in
  let! ws := read_basic_string 2 (le_val buffer) (Z.to_nat (le_val length / 2)) in
  ret (if narrow then narrow_wstring ws else ws).
Definition read_native (addr : Z) : gst (list Z) := read_basic_string w addr max_chars.
Definition read_foreign (addr : Z) : gst (list Z) :=
  if narrow then let! s := read_wstring addr in ret (narrow_wstring s)
  else let! s := read_string addr in ret (widen_string s).

(** A width or precision: digits of the format, or a star for an argument. *)
Definition field (s : list Z) (a : A) : gst (list Z * list Z * A) :=
  match s with
  | c :: r =>
      if c =? c_star then let! v := next_arg a in let '(v, a) := v in ret (to_string (s32 v), r, a)
      else let '(d, r) := span is_digit s in ret (d, r, a)
  | [] => ret ([], [], a)
  end.
Definition precision_field (s : list Z) (a : A) : gst (list Z * list Z * A) :=
  match s with
  | c :: r => if c =? c_dot then let! v := field r a in let '(d, r, a) := v in ret (c_dot :: d, r, a) else ret ([], s, a)
  | [] => ret ([], [], a)
  end.

Definition string_arg (read : Z -> gst (list Z)) (a : A) : gst (list Z * A) :=
  let! v := next_arg a in let '(ptr, a) := v in
  if ptr =? 0 then ret (null_text, a) else let! s := read ptr in ret (s, a).

Definition is_integer_conv (c : Z) : bool :=
  (c =? 100) || (c =? 105) || (c =? 117) || (c =? 120) || (c =? 88) || (c =? 111).

Definition format_spec (mods : list Z) (bits conv value : Z) : list Z :=
  match host_format mods bits conv value with Some t => t | None => take buffer_chars (format_undefined mods value) end.

(** One conversion; [spelled] is how the format spells it. *)
Definition convert (mods : list Z) (length : length_mod) (spec : Z) (spelled : list Z) (a : A) : gst (list Z * A) :=
  if is_integer_conv spec then
    let! v := next_arg a in let '(raw, a) := v in
    ret (if is_64bit length then format_spec mods 64 spec (u64 raw) else format_spec mods 32 spec (u32 raw), a)
  else if spec =? 112 then let! v := next_arg a in let '(raw, a) := v in ret (take buffer_chars (format_pointer mods raw), a)
  else if spec =? 115 then string_arg (if lm_eqb length foreign_mod then read_foreign else read_native) a
  else if spec =? 83 then string_arg read_foreign a
  else if spec =? 99 then let! v := next_arg a in let '(raw, a) := v in ret ([raw mod 256 ^ Z.of_nat w], a)
  else if spec =? 67 then
    let! v := next_arg a in let '(raw, a) := v in
    ret ([if narrow then u8 (u16 raw) else u16 (signed 8 raw)], a)
  else ret (spelled, a).

(** What comes after a '%' that is not doubled: the text, the rest of the format
    and the arguments left.  [fmt] begins at the '%'; [None] when it ends before
    the conversion does. *)
Definition one_conversion (fmt r : list Z) (a : A) : gst (option (list Z * list Z * A)) :=
  let '(flags, r) := span is_flag r in
  let! v := field r a in
  let '(width, r, a) := v in
  let! v := precision_field r a in
  let '(precision, r, a) := v in
  let '(lm, r) := parse_length_mod r in
  match r with
  | [] => ret None
  | spec :: rest =>
      if (spec =? 119) && starts_Z rest then
        let! v := string_arg read_unicode_string a in ret (Some (v.1, tail rest, v.2))
      else if spec =? 90 then
        let! v := string_arg read_unicode_string a in ret (Some (v.1, rest, v.2))
      else
        let! v := convert (flags ++ width ++ precision) lm spec (take (length fmt - length rest) fmt) a in
        ret (Some (v.1, rest, v.2))
  end.

Fixpoint vformat_loop (fuel : nat) (fmt : list Z) (a : A) (result : list Z) : gst (list Z) :=
  match fuel, fmt with
  | O, _ :: _ => throw out_of_fuel
  | _, [] => ret result
  | S fuel, c :: r =>
      if negb (c =? c_pct) then vformat_loop fuel r a (result ++ [c]) else
      match r with
      | [] => ret result
      | d :: r' =>
          if d =? c_pct then vformat_loop fuel r' a (result ++ [c_pct]) else
          let! v := one_conversion fmt r a in
          match v with
          | None => ret result
          | Some (t, rest, a) => vformat_loop fuel rest a (result ++ t)
          end
      end
  end.
(** Every round takes a character off the format. *)
Definition vformat (fmt : list Z) (a : A) : gst (list Z) := vformat_loop (length fmt) fmt a [].
End Format.

(** [va_list_args]: consecutive 8-byte slots from an address. *)
Definition va_list_args (addr : Z) : gst (Z * Z) := let! l := read_mem addr 8 in ret (le_val l, addr +w 8).
