(* ===== verification/FormatThm.v ===== *)
(** * A format string means its conversions

    A format as the sequence of literal characters and conversions it was written
    as, its text, and the proof that [vformat] reads every conversion back and
    prints them one after the other. *)

From S2P Require Import Prelude GuestMem Format.
From stdpp Require Import list.
From stdpp Require Import options.

Open Scope Z_scope.
Open Scope kern_scope.

(** ** Formats *)

Inductive field_spec : Type := Digits (ds : list Z) | Star.
Inductive kind : Type := KInteger (c : Z) | KPointer | KString | KForeign | KChar | KForeignChar | KUnicode | KWideUnicode.

Inductive segment : Type :=
  | Literal (c : Z)
  | Percent
  | Conv (flags : list Z) (width : field_spec) (precision : option field_spec) (lm : length_mod) (k : kind).

Definition field_text (f : field_spec) : list Z := match f with Digits ds => ds | Star => [c_star] end.
Definition lm_text (lm : length_mod) : list Z :=
  match lm with
  | lm_none => [] | lm_h => [104] | lm_hh => [104; 104] | lm_l => [108] | lm_ll => [108; 108]
  | lm_I64 => [73; 54; 52] | lm_I32 => [73; 51; 50] | lm_z => [122]
  end.
Definition kind_text (k : kind) : list Z :=
  match k with
  | KInteger c => [c] | KPointer => [112] | KString => [115] | KForeign => [83] | KChar => [99] | KForeignChar => [67]
  | KUnicode => [90] | KWideUnicode => [119; 90]
  end.
Definition precision_text (p : option field_spec) : list Z := match p with Some f => c_dot :: field_text f | None => [] end.
Definition text (s : segment) : list Z :=
  match s with
  | Literal c => [c]
  | Percent => [c_pct; c_pct]
  | Conv fl wd pr lm k => c_pct :: fl ++ field_text wd ++ precision_text pr ++ lm_text lm ++ kind_text k
  end.

(** Digits of a width do not begin with the flag '0'. *)
Definition segment_ok (s : segment) : Prop :=
  match s with
  | Literal c => c <> c_pct
  | Percent => True
  | Conv fl wd pr lm k =>
      Forall (fun c => is_flag c = true) fl /\
      match wd with Digits ds => Forall (fun c => is_digit c = true) ds /\ List.hd 49 ds <> c_0 | Star => True end /\
      match pr with Some (Digits ds) => Forall (fun c => is_digit c = true) ds | _ => True end /\
      match k with KInteger c => is_integer_conv c = true | _ => True end
  end.

(** ** What a segment prints *)

Section Render.
Context {A : Type} (next_arg : A -> gst (Z * A)) (format_pointer format_undefined : list Z -> Z -> list Z).
Context (w : nat).

Definition field_arg (f : field_spec) (a : A) : gst (list Z * A) :=
  match f with
  | Digits ds => ret (ds, a)
  | Star => let! v := next_arg a in let '(v, a) := v in ret (to_string (s32 v), a)
  end.
Definition precision_arg (p : option field_spec) (a : A) : gst (list Z * A) :=
  match p with Some f => let! v := field_arg f a in let '(d, a) := v in ret (c_dot :: d, a) | None => ret ([], a) end.

Definition kind_char (k : kind) : Z :=
  match k with KInteger c => c | KPointer => 112 | KString => 115 | KForeign => 83 | KChar => 99 | KForeignChar => 67 | _ => 90 end.
Definition render_kind (mods : list Z) (lm : length_mod) (k : kind) (a : A) : gst (list Z * A) :=
  match k with
  | KUnicode | KWideUnicode => string_arg next_arg (read_unicode_string w) a
  | _ => convert next_arg format_pointer format_undefined w mods lm (kind_char k) [] a
  end.

Definition render (s : segment) (a : A) : gst (list Z * A) :=
  match s with
  | Literal c => ret ([c], a)
  | Percent => ret ([c_pct], a)
  | Conv fl wd pr lm k =>
      let! v := field_arg wd a in let '(width, a) := v in
      let! v := precision_arg pr a in let '(precision, a) := v in
      render_kind (fl ++ width ++ precision) lm k a
  end.
Fixpoint render_all (segs : list segment) (a : A) : gst (list Z) :=
  match segs with
  | [] => ret []
  | s :: segs =>
      let! v := render s a in let '(t, a) := v in
      let! rest := render_all segs a in ret (t ++ rest)
  end.

(** ** Reading a conversion back *)

(** The first character of [s], if it has one, is not one of [p]. *)
Definition begins_not (p : Z -> bool) (s : list Z) : Prop := match s with c :: _ => p c = false | [] => True end.

Lemma span_app p a b : Forall (fun c => p c = true) a -> begins_not p b -> span p (a ++ b) = (a, b).
Proof.
  induction 1 as [|c a Hc _ IH]; intros Hb; cbn [app span]; [|by rewrite Hc, IH].
  destruct b as [|d b]; [done|]. cbn in Hb |- *. by rewrite Hb.
Qed.

Lemma field_reads f r a m :
  match f with Digits ds => Forall (fun c => is_digit c = true) ds | Star => True end ->
  begins_not is_digit r -> begins_not (fun c => c =? c_star) r ->
  field next_arg (field_text f ++ r) a m = (let! v := field_arg f a in ret (v.1, r, v.2)) m.
Proof.
  intros Hf Hd Hs. destruct f as [ds|]; cbn [field_text field_arg].
  - unfold bind, ret. assert (span is_digit (ds ++ r) = (ds, r)) as Hsp by (by apply span_app).
    destruct (ds ++ r) as [|c l] eqn:E; cbn [field].
    + apply app_eq_nil in E as [-> ->]. done.
    + assert ((c =? c_star) = false) as ->; [|by rewrite Hsp].
      destruct ds as [|c' ds]; cbn [app] in E; simplify_eq; [done|].
      rewrite Forall_cons in Hf. destruct Hf as [Hc _]. unfold is_digit in Hc. apply andb_true_iff in Hc as [H1 H2].
      apply Z.leb_le in H1. apply Z.eqb_neq. unfold c_star. lia.
  - cbn [app field]. change (c_star =? c_star) with true. unfold bind, ret. by destruct (next_arg a m) as [[[v a']|e] m'].
Qed.

Lemma precision_reads p r a m :
  match p with Some (Digits ds) => Forall (fun c => is_digit c = true) ds | _ => True end ->
  begins_not is_digit r -> begins_not (fun c => c =? c_star) r -> begins_not (fun c => c =? c_dot) r ->
  precision_field next_arg (precision_text p ++ r) a m = (let! v := precision_arg p a in ret (v.1, r, v.2)) m.
Proof.
  intros Hp Hd Hs Hdot. destruct p as [f|]; cbn [precision_text precision_arg app].
  - cbn [precision_field]. change (c_dot =? c_dot) with true. unfold bind. rewrite field_reads by (done || by destruct f).
    unfold bind, ret. by destruct (field_arg f a m) as [[[v a']|e] m'].
  - destruct r as [|c r]; [done|]. cbn [precision_field]. cbn in Hdot. by rewrite Hdot.
Qed.

(** The characters a conversion ends with are none of those that come before. *)
Definition is_tail (c : Z) : Prop :=
  is_flag c = false /\ is_digit c = false /\ (c =? c_star) = false /\ (c =? c_dot) = false /\ (c =? c_pct) = false.

Lemma integer_cases c : is_integer_conv c = true -> c = 100 \/ c = 105 \/ c = 117 \/ c = 120 \/ c = 88 \/ c = 111.
Proof. unfold is_integer_conv. rewrite !orb_true_iff, !Z.eqb_eq. tauto. Qed.

Lemma kind_text_head k : match k with KInteger c => is_integer_conv c = true | _ => True end ->
  exists c r, kind_text k = c :: r /\ is_tail c /\ (c =? 104) = false /\ (c =? 108) = false /\ (c =? 73) = false /\ (c =? 122) = false /\
    (c =? 54) = false /\ (c =? 51) = false.
Proof.
  destruct k as [c| | | | | | |]; intros H; cbn [kind_text]; eexists _, _; (split; [reflexivity|]); try (by vm_compute).
  apply integer_cases in H as [->|[->|[->|[->|[->| ->]]]]]; by vm_compute.
Qed.

Lemma parse_lm lm k r : match k with KInteger c => is_integer_conv c = true | _ => True end ->
  parse_length_mod (lm_text lm ++ kind_text k ++ r) = (lm, kind_text k ++ r).
Proof.
  intros H. destruct (kind_text_head k H) as (c & r' & -> & _ & H1 & H2 & H3 & H4 & H5 & H6).
  destruct lm; cbn [lm_text app]; unfold parse_length_mod; cbn [Z.eqb Pos.eqb].
  - by rewrite H1, H2, H3, H4.
  - by rewrite H1.
  - done.
  - by rewrite H2.
  - done.
  - done.
  - done.
  - done.
Qed.

Lemma lm_kind_head lm k r : match k with KInteger c => is_integer_conv c = true | _ => True end ->
  exists c t, lm_text lm ++ kind_text k ++ r = c :: t /\ is_tail c.
Proof.
  intros H. destruct (kind_text_head k H) as (c & r' & -> & Hc & _).
  destruct lm; cbn [lm_text app]; eexists _, _; (split; [reflexivity|]); [done|by vm_compute..].
Qed.

Lemma convert_spelled mods lm k sp a :
  match k with KInteger c => is_integer_conv c = true | KUnicode | KWideUnicode => False | _ => True end ->
  convert next_arg format_pointer format_undefined w mods lm (kind_char k) sp a = render_kind mods lm k a.
Proof.
  destruct k as [c| | | | | | |]; intros H; try done; cbn [kind_char render_kind].
  unfold convert. by rewrite H.
Qed.

Definition conv_tail (wd : field_spec) (pr : option field_spec) (lm : length_mod) (k : kind) (rest : list Z) : list Z :=
  field_text wd ++ precision_text pr ++ lm_text lm ++ kind_text k ++ rest.

Lemma begins_precision p pr lm k rest :
  match k with KInteger c => is_integer_conv c = true | _ => True end ->
  p c_dot = false -> (forall c, is_tail c -> p c = false) -> begins_not p (precision_text pr ++ lm_text lm ++ kind_text k ++ rest).
Proof.
  intros Hk Hp Ht. destruct pr as [f|]; [done|]. cbn [precision_text app].
  destruct (lm_kind_head lm k rest Hk) as (c & t & -> & Hc). by apply Ht.
Qed.

Lemma begins_tail p wd pr lm k rest :
  match k with KInteger c => is_integer_conv c = true | _ => True end ->
  match wd with Digits ds => Forall (fun c => is_digit c = true) ds /\ List.hd 49 ds <> c_0 | Star => True end ->
  p c_star = false -> p c_dot = false -> (forall c, is_tail c -> p c = false) -> (forall c, 49 <= c <= 57 -> p c = false) ->
  begins_not p (conv_tail wd pr lm k rest).
Proof.
  intros Hk Hw Hs Hp Ht Hd. unfold conv_tail. destruct wd as [[|d ds]|]; [|..]; cbn [field_text app]; [by apply begins_precision| |done].
  destruct Hw as [Hw H0]. rewrite Forall_cons in Hw. destruct Hw as [Hw _]. apply Hd. unfold is_digit in Hw.
  apply andb_true_iff in Hw as [H1 H2]. apply Z.leb_le in H1, H2. cbn in H0. unfold c_0 in H0. lia.
Qed.

Lemma no_pct fl wd pr lm k rest : segment_ok (Conv fl wd pr lm k) ->
  exists d r', fl ++ conv_tail wd pr lm k rest = d :: r' /\ (d =? c_pct) = false.
Proof.
  intros (Hfl & Hwd & Hpr & Hk).
  assert (begins_not (fun c => c =? c_pct) (fl ++ conv_tail wd pr lm k rest)) as Hnp.
  { destruct fl as [|c fl]; cbn [app]; [|rewrite Forall_cons in Hfl; destruct Hfl as [Hfl _]; cbn; apply Z.eqb_neq; intros ->; by vm_compute in Hfl].
    apply begins_tail; [done|done|done|done|by intros c (? & ? & ? & ? & ?)|]. intros c Hc. apply Z.eqb_neq. unfold c_pct. lia. }
  destruct (fl ++ conv_tail wd pr lm k rest) as [|d r'] eqn:E; [|by exists d, r'].
  exfalso. destruct (lm_kind_head lm k rest Hk) as (c & t & Ec & _). apply app_eq_nil in E as [_ E]. unfold conv_tail in E.
  apply app_eq_nil in E as [_ E]. apply app_eq_nil in E as [_ E]. by rewrite Ec in E.
Qed.

Lemma one_conversion_reads fl wd pr lm k rest fmt a m : segment_ok (Conv fl wd pr lm k) ->
  one_conversion next_arg format_pointer format_undefined w fmt (fl ++ conv_tail wd pr lm k rest) a m =
  bind (render (Conv fl wd pr lm k) a) (fun v => ret (Some (v.1, rest, v.2))) m.
Proof.
  intros (Hfl & Hwd & Hpr & Hk). unfold one_conversion. rewrite span_app; [|done|].
  2: { apply begins_tail; [done|done|done|done|by intros c (? & _)|]. intros c Hc. unfold is_flag, c_minus, c_plus, c_space, c_0, c_hash.
    by repeat rewrite (proj2 (Z.eqb_neq _ _)) by lia. }
  unfold conv_tail. cbn [render]. unfold bind, ret.
  pose proof (field_reads wd (precision_text pr ++ lm_text lm ++ kind_text k ++ rest) a m) as H1. unfold bind, ret in H1. rewrite H1.
  2: by destruct wd as [ds|]; [destruct Hwd|].
  2, 3: apply begins_precision; [done|done|by intros c (? & ? & ? & ? & ?)].
  destruct (field_arg wd a m) as [[[width a1]|e] m1]; [|done]. cbn [fst snd].
  pose proof (precision_reads pr (lm_text lm ++ kind_text k ++ rest) a1 m1) as H2. unfold bind, ret in H2. rewrite H2; [|done|..].
  2, 3, 4: destruct (lm_kind_head lm k rest Hk) as (c & t & -> & ? & ? & ? & ? & ?); done.
  destruct (precision_arg pr a1 m1) as [[[precision a2]|e] m2]; [|done]. cbn [fst snd].
  rewrite parse_lm by done.
  destruct k as [c| | | | | | |]; cbn [kind_text app]; try reflexivity.
  rewrite <- (convert_spelled _ _ (KInteger c) (take (length fmt - length rest) fmt)) by done. cbn [kind_char].
  apply integer_cases in Hk as [->|[->|[->|[->|[->| ->]]]]]; reflexivity.
Qed.

Lemma conv_step fl wd pr lm k rest fuel a acc m :
  segment_ok (Conv fl wd pr lm k) ->
  vformat_loop next_arg format_pointer format_undefined w (S fuel) (text (Conv fl wd pr lm k) ++ rest) a acc m =
  bind (render (Conv fl wd pr lm k) a)
    (fun v => vformat_loop next_arg format_pointer format_undefined w fuel rest v.2 (acc ++ v.1)) m.
Proof.
  intros Hok. cbn [text app]. rewrite <- !app_assoc. fold (conv_tail wd pr lm k rest).
  cbn [vformat_loop]. change (c_pct =? c_pct) with true. cbn [negb].
  pose proof (one_conversion_reads fl wd pr lm k rest (c_pct :: fl ++ conv_tail wd pr lm k rest) a m Hok) as H.
  destruct (no_pct fl wd pr lm k rest Hok) as (d & r' & E & Hd). rewrite E in H |- *. rewrite Hd.
  unfold bind at 1. rewrite H. unfold bind, ret. by destruct (render _ a m) as [[[t a']|e] m'].
Qed.

Lemma vformat_segments segs : forall fuel a acc m, Forall segment_ok segs -> (length (flat_map text segs) <= fuel)%nat ->
  vformat_loop next_arg format_pointer format_undefined w fuel (flat_map text segs) a acc m =
  bind (render_all segs a) (fun t => ret (acc ++ t)) m.
Proof.
  induction segs as [|s segs IH]; intros fuel a acc m Hok Hf; cbn [flat_map render_all] in *.
  { unfold bind, ret. rewrite app_nil_r. by destruct fuel. }
  rewrite Forall_cons in Hok. destruct Hok as [Hs Hok]. rewrite length_app in Hf.
  destruct fuel as [|fuel]; [exfalso; destruct s; cbn in Hf; lia|]. destruct s as [c| |fl wd pr lm k].
  - cbn [text app vformat_loop]. cbn in Hs. rewrite (proj2 (Z.eqb_neq c c_pct) Hs). cbn [negb]. rewrite IH by (done || cbn in Hf; lia).
    unfold bind, ret. cbn [render]. unfold ret. destruct (render_all segs a m) as [[t|e] m']; [|done]. by rewrite <- app_assoc.
  - cbn [text app vformat_loop]. change (c_pct =? c_pct) with true. cbn [negb]. rewrite IH by (done || cbn in Hf; lia).
    unfold bind, ret. cbn [render]. unfold ret. destruct (render_all segs a m) as [[t|e] m']; [|done]. by rewrite <- app_assoc.
  - rewrite conv_step by done. unfold bind. destruct (render (Conv fl wd pr lm k) a m) as [[[t a']|e] m']; [|done]. cbn [fst snd].
    rewrite IH; [|done|cbn [text length] in Hf; rewrite !length_app in Hf; lia].
    unfold bind, ret. destruct (render_all segs a' m') as [[t'|e] m'']; [|done]. by rewrite <- app_assoc.
Qed.
End Render.

(** C10: [vformat] prints a format string as the sequence of its literal
    characters and conversions.  For every such sequence, each conversion with any
    flags, width, precision and length modifier, given in digits or taken from the
    arguments by a star, what it prints for the text of the sequence is what its
    parts print one after the other, with the arguments taken in that order; if
    reading an argument or a string faults it faults there and not before. *)
Theorem vformat_prints {A} (next_arg : A -> gst (Z * A)) format_pointer format_undefined w segs a m :
  Forall segment_ok segs ->
  vformat next_arg format_pointer format_undefined w (flat_map text segs) a m =
  render_all next_arg format_pointer format_undefined w segs a m.
Proof.
  intros Hok. unfold vformat. rewrite vformat_segments by done.
  unfold bind, ret. by destruct (render_all _ _ _ _ _ _ _) as [[t|e] m'].
Qed.
