(* ===== verification/StringOps.v ===== *)
(** * Counted strings and the Rtl string entry points

    kernel/win/string.hpp and modules/nt_string_ops.cpp.  A descriptor, _STRING or
    _UNICODE_STRING, is 16 bytes of guest memory; three entry points also take
    their buffers from the pool, which they reach through the class [GuestPool]. *)

From S2P Require Import Prelude GuestMem.
From stdpp Require Import list.
From stdpp Require Import options.

Open Scope Z_scope.
Open Scope kern_scope.

Definition STATUS_SUCCESS : Z := 0.
Definition STATUS_BUFFER_OVERFLOW : Z := 0x80000005.
Definition STATUS_INVALID_PARAMETER : Z := 0xC000000D.
Definition STATUS_NO_MEMORY : Z := 0xC0000017.
Definition STATUS_BUFFER_TOO_SMALL : Z := 0xC0000023.
Definition STATUS_INVALID_PARAMETER_2 : Z := 0xC00000F0.

Definition string_pool_tag : Z := 0x67727453.
Definition max_counted_string_bytes : Z := 0xFFFF.

(** ** Descriptors *)

Record descriptor : Type := Descriptor { Length : Z; MaximumLength : Z; Padding : Z; Buffer : Z }.
Definition empty_descriptor : descriptor := Descriptor 0 0 0 0.

Definition descriptor_bytes (d : descriptor) : list Z :=
  le_bytes 2 (Length d) ++ le_bytes 2 (MaximumLength d) ++ le_bytes 4 (Padding d) ++ le_bytes 8 (Buffer d).
Definition descriptor_of (l : list Z) : descriptor :=
  Descriptor (le_val (take 2 l)) (le_val (take 2 (drop 2 l))) (le_val (take 4 (drop 4 l))) (le_val (drop 8 l)).
Definition read_descriptor (a : Z) : gst descriptor := let! l := read_mem a 16 in ret (descriptor_of l).
Definition write_descriptor (a : Z) (d : descriptor) : gst unit := write_mem a (descriptor_bytes d).

(** [n] characters of [w] bytes. *)
Fixpoint decode_chars (w n : nat) (l : list Z) : list Z :=
  match n with
  | O => []
  | S n => le_val (take w l) :: decode_chars w n (drop w l)
  end.

(** An odd Length is read whole; the half character at its end is not part of the
    string. *)
Definition read_counted_string (w : nat) (d : descriptor) : gst (list Z) :=
  if (Length d =? 0) || (Buffer d =? 0) then ret [] else
  let! l := read_mem (Buffer d) (Z.to_nat (Length d)) in
  ret (decode_chars w (Z.to_nat (Length d / char_size w)) l).
Definition read_counted_at (w : nat) (a : Z) : gst (list Z) :=
  if a =? 0 then ret [] else let! d := read_descriptor a in read_counted_string w d.
Definition read_unicode_string : Z -> gst (list Z) := read_counted_at 2.
Definition read_ansi_string : Z -> gst (list Z) := read_counted_at 1.

Definition compare_unicode (a b : list Z) (case_insensitive : bool) : Z :=
  if case_insensitive then compare_ascii_nocase 2 a b else compare_exact a b.

(** ** Descriptors of terminated strings *)

Definition RtlInitUnicodeString (destination source : Z) : gst unit :=
  if destination =? 0 then ret tt else
  let! out :=
    (if source =? 0 then ret (Descriptor 0 0 0 source)
     else
       let! s := read_wstring source in
       let len := u16 (Z.of_nat (length s) * 2) in
       ret (Descriptor len (u16 (len + 2)) 0 source)) in
  write_descriptor destination out.

Definition RtlInitAnsiString (destination source : Z) : gst unit :=
  if destination =? 0 then ret tt else
  let! out :=
    (if source =? 0 then ret (Descriptor 0 0 0 source)
     else
       let! s := read_string source in
       let len := u16 (Z.of_nat (length s)) in
       ret (Descriptor len (u16 (len + 1)) 0 source)) in
  write_descriptor destination out.

(** ** Comparisons: only the sign of a comparison is modelled *)

Definition RtlCompareUnicodeString (string1 string2 case_insensitive : Z) : gst Z :=
  let! a := read_unicode_string string1 in
  let! b := read_unicode_string string2 in
  ret (compare_unicode a b (negb (case_insensitive =? 0))).

Definition RtlEqualUnicodeString (string1 string2 case_insensitive : Z) : gst bool :=
  let! a := read_unicode_string string1 in
  let! b := read_unicode_string string2 in
  ret ((length a =? length b)%nat && (compare_unicode a b (negb (case_insensitive =? 0)) =? 0)).

Definition RtlPrefixUnicodeString (prefix string case_insensitive : Z) : gst bool :=
  let! a := read_unicode_string prefix in
  let! b := read_unicode_string string in
  ret ((length a <=? length b)%nat && (compare_unicode a (take (length a) b) (negb (case_insensitive =? 0)) =? 0)).

Definition RtlCompareString (string1 string2 case_insensitive : Z) : gst Z :=
  let! a := read_ansi_string string1 in
  let! b := read_ansi_string string2 in
  let r := if negb (case_insensitive =? 0) then compare_count 1 a b (Nat.min (length a) (length b)) else compare_exact a b in
  ret (if negb (r =? 0) then r else Z.of_nat (length a) - Z.of_nat (length b)).

(** [std::mismatch] of two vectors. *)
Fixpoint mismatch (a b : list Z) : nat :=
  match a, b with
  | x :: a, y :: b => if x =? y then S (mismatch a b) else O
  | _, _ => O
  end.
Definition RtlCompareMemory (source1 source2 len : Z) : gst Z :=
  let! a := read_mem source1 (Z.to_nat len) in
  let! b := read_mem source2 (Z.to_nat len) in
  ret (Z.of_nat (mismatch a b)).

(** ** Conversions into a buffer *)

(** [emu_object<uint32_t>::write], skipped when there is nowhere to write. *)
Definition write_optional (w : nat) (a v : Z) : gst unit := if a =? 0 then ret tt else write_mem a (le_bytes w v).

Definition RtlMultiByteToUnicodeN (unicode_string max_bytes bytes_in_unicode multi_byte bytes_in_multi_byte : Z) : gst Z :=
  let! narrow := (if bytes_in_multi_byte =? 0 then ret [] else read_mem multi_byte (Z.to_nat bytes_in_multi_byte)) in
  let chars := Z.to_nat (Z.min (Z.of_nat (length narrow)) (max_bytes / 2)) in
  let wide := widen_string (take chars narrow) in
  write_optional 4 bytes_in_unicode (u32 (Z.of_nat (length wide) * 2)) ;;
  (if negb (unicode_string =? 0) && (0 <? length wide)%nat then write_chars 2 unicode_string wide else ret tt) ;;
  ret STATUS_SUCCESS.

Definition RtlUnicodeToUTF8N (utf8 max_bytes actual_byte_count source source_byte_count : Z) : gst Z :=
  let! wide := (if source_byte_count =? 0 then ret [] else
    let! l := read_mem source (Z.to_nat source_byte_count) in ret (decode_chars 2 (Z.to_nat (source_byte_count / 2)) l)) in
  let narrow := narrow_wstring wide in
  let written := Z.min (Z.of_nat (length narrow)) max_bytes in
  write_optional 4 actual_byte_count (u32 written) ;;
  (if negb (utf8 =? 0) && negb (written =? 0) then write_mem utf8 (take (Z.to_nat written) narrow) else ret tt) ;;
  ret (if written <? Z.of_nat (length narrow) then STATUS_BUFFER_TOO_SMALL else STATUS_SUCCESS).

Definition RtlGetDefaultCodePage (ansi_code_page oem_code_page : Z) : gst unit :=
  write_optional 2 ansi_code_page 1252 ;; write_optional 2 oem_code_page 437.

(** ** What the allocating entry points ask of the kernel *)

Class GuestPool (K : Type) : Type := {
  gp_mem : K -> gmem;
  gp_set : gmem -> K -> K;
  gp_allocate : Z -> Z -> bool -> st K Z;
  gp_free : Z -> st K bool
}.

Section Kernel.
Context {K : Type} `{!GuestPool K}.

Definition on_mem {A} (f : gst A) : st K A := fun k => let '(r, m) := f (gp_mem k) in (r, gp_set m k).

Definition RtlAnsiStringToUnicodeString (destination_string source_string allocate_destination : Z) : st K Z :=
  if (destination_string =? 0) || (source_string =? 0) then ret STATUS_INVALID_PARAMETER else
  let! narrow := on_mem (read_ansi_string source_string) in
  let wide := widen_string narrow in
  let len := Z.of_nat (length wide) * 2 in
  let needed := len + 2 in
  if max_counted_string_bytes <? needed then ret STATUS_INVALID_PARAMETER_2 else
  let! out := on_mem (read_descriptor destination_string) in
  let! prepared :=
    (if negb (allocate_destination =? 0) then
       let! buffer := gp_allocate needed string_pool_tag true in
       ret (if buffer =? 0 then inr STATUS_NO_MEMORY
            else inl (Descriptor (Length out) (u16 needed) (Padding out) buffer))
     else ret (if MaximumLength out <? needed then inr STATUS_BUFFER_OVERFLOW else inl out)) in
  match prepared with
  | inr status => ret status
  | inl out =>
      let out := Descriptor (u16 len) (MaximumLength out) (Padding out) (Buffer out) in
      on_mem (write_descriptor destination_string out) ;;
      on_mem (write_basic_string_buffer 2 (Buffer out) (MaximumLength out / 2) wide) ;;
      ret STATUS_SUCCESS
  end.

Definition RtlFreeUnicodeString (unicode_string : Z) : st K unit :=
  if unicode_string =? 0 then ret tt else
  let! str := on_mem (read_descriptor unicode_string) in
  if Buffer str =? 0 then ret tt else
  on_mem (write_descriptor unicode_string empty_descriptor) ;;
  gp_free (Buffer str) ;;
  ret tt.

Definition duplicate_null_terminate : Z := 0x1.
Definition duplicate_allocate_null_string : Z := 0x2.
Definition duplicate_known_flags : Z := Z.lor duplicate_null_terminate duplicate_allocate_null_string.

Definition has_flag (flags f : Z) : bool := negb (Z.land flags f =? 0).

Definition RtlDuplicateUnicodeString (flags string_in string_out : Z) : st K Z :=
  if (string_in =? 0) || (string_out =? 0) || negb (Z.land flags (Z.lnot duplicate_known_flags) =? 0)
  then ret STATUS_INVALID_PARAMETER else
  let! source := on_mem (read_unicode_string string_in) in
  if (length source =? 0)%nat && negb (has_flag flags duplicate_allocate_null_string) then
    on_mem (write_descriptor string_out empty_descriptor) ;; ret STATUS_SUCCESS
  else
    let len := Z.of_nat (length source) * 2 in
    let needed := if has_flag flags duplicate_null_terminate then len + 2 else Z.max len 2 in
    let! buffer := gp_allocate needed string_pool_tag true in
    if buffer =? 0 then ret STATUS_NO_MEMORY else
    (if (length source =? 0)%nat then ret tt else on_mem (write_chars 2 buffer source)) ;;
    on_mem (write_descriptor string_out (Descriptor (u16 len) (u16 needed) 0 buffer)) ;;
    ret STATUS_SUCCESS.

End Kernel.
