(* ===== verification/StringThm.v ===== *)
(** * Counted strings: the theorems

    What the comparing entry points of modules/nt_string_ops.cpp answer, against
    the lexicographic order, and what a conversion does to guest memory and to the
    pool, against the interface of [GuestPoolLaws]. *)

From S2P Require Import Prelude GuestMem StringOps.
From stdpp Require Import list.
From stdpp Require Import options.

Open Scope Z_scope.
Open Scope kern_scope.

(** ** A counted string in memory *)

Record descriptor_ok (d : descriptor) : Prop := {
  do_length : 0 <= Length d < 2 ^ 16;
  do_maximum : 0 <= MaximumLength d < 2 ^ 16;
  do_padding : 0 <= Padding d < 2 ^ 32;
  do_buffer : 0 <= Buffer d < 2 ^ 64
}.
Definition in_range (w : nat) (c : Z) : Prop := 0 <= c < 256 ^ Z.of_nat w.

Record descriptor_at (m : gmem) (a : Z) (d : descriptor) : Prop := {
  da_at : 0 < a /\ a + 16 <= 2 ^ 64;
  da_ok : descriptor_ok d;
  da_holds : holds m a (descriptor_bytes d)
}.
(** [a] is the address of a descriptor of the characters [s]. *)
Record counted (w : nat) (m : gmem) (a : Z) (s : list Z) (d : descriptor) : Prop := {
  ct_at : descriptor_at m a d;
  ct_length : Length d = char_size w * Z.of_nat (length s);
  ct_buffer : s <> [] -> Buffer d <> 0;
  ct_chars : Forall (in_range w) s;
  ct_end : Buffer d + char_size w * Z.of_nat (length s) <= 2 ^ 64;
  ct_holds : holds m (Buffer d) (chars_bytes w s)
}.

Lemma length_descriptor_bytes d : length (descriptor_bytes d) = 16%nat.
Proof. unfold descriptor_bytes. by rewrite !length_app, !length_le_bytes. Qed.

Lemma descriptor_roundtrip d : descriptor_ok d -> descriptor_of (descriptor_bytes d) = d.
Proof.
  intros [H1 H2 H3 H4]. unfold descriptor_of, descriptor_bytes.
  set (b1 := le_bytes 2 (Length d)). set (b2 := le_bytes 2 (MaximumLength d)). set (b3 := le_bytes 4 (Padding d)). set (b4 := le_bytes 8 (Buffer d)).
  assert (length b1 = 2%nat /\ length b2 = 2%nat /\ length b3 = 4%nat) as (L1 & L2 & L3) by (by split_and!; apply length_le_bytes).
  rewrite (take_app_length' b1), (drop_app_length' b1), (take_app_length' b2) by done.
  rewrite (assoc_L app b1 b2), (drop_app_length' (b1 ++ b2)), (take_app_length' b3) by (rewrite ?length_app; lia).
  rewrite (assoc_L app (b1 ++ b2) b3), (drop_app_length' ((b1 ++ b2) ++ b3)) by (rewrite !length_app; lia).
  unfold b1, b2, b3, b4. rewrite !le_val_bytes. destruct d as [x1 x2 x3 x4]; cbn [Length MaximumLength Padding Buffer] in *.
  change (256 ^ Z.of_nat 2) with (2 ^ 16). change (256 ^ Z.of_nat 4) with (2 ^ 32). change (256 ^ Z.of_nat 8) with (2 ^ 64).
  by rewrite !Z.mod_small.
Qed.

Lemma read_descriptor_at m a d : descriptor_at m a d -> read_descriptor a m = (Ok d, m).
Proof.
  intros [Ha Hd H]. unfold read_descriptor, bind. pose proof (read_mem_holds m (descriptor_bytes d) a) as Hr.
  rewrite length_descriptor_bytes in Hr. rewrite Hr by (done || lia). unfold ret. by rewrite descriptor_roundtrip.
Qed.

Lemma decode_chars_bytes w s : Forall (in_range w) s -> decode_chars w (length s) (chars_bytes w s) = s.
Proof.
  induction 1 as [|c s Hc _ IH]; [done|]. cbn [length decode_chars chars_bytes flat_map].
  rewrite take_app_length' by (by rewrite length_le_bytes). rewrite drop_app_length' by (by rewrite length_le_bytes).
  rewrite le_val_bytes, Z.mod_small by done. f_equal. apply IH.
Qed.

Lemma read_counted_ok w m a s d : (0 < w)%nat -> counted w m a s d -> read_counted_at w a m = (Ok s, m).
Proof.
  intros Hw [Hat Hl Hb Hc He Hh]. pose proof (da_at _ _ _ Hat) as Ha. pose proof (do_buffer _ (da_ok _ _ _ Hat)) as Hbuf.
  unfold read_counted_at. rewrite (proj2 (Z.eqb_neq a 0)) by lia. unfold bind at 1. rewrite (read_descriptor_at _ _ _ Hat).
  unfold read_counted_string. destruct s as [|c s].
  { rewrite Hl. cbn [length]. by rewrite Z.mul_0_r. }
  unfold char_size in *. specialize (Hb ltac:(done)). rewrite (proj2 (Z.eqb_neq (Length d) 0)), (proj2 (Z.eqb_neq (Buffer d) 0)) by (cbn [length] in *; nia).
  cbn [orb]. pose proof (read_mem_holds m (chars_bytes w (c :: s)) (Buffer d)) as Hr. rewrite length_chars_bytes in Hr.
  replace (Z.to_nat (Length d)) with (w * length (c :: s))%nat by (rewrite Hl; lia).
  unfold bind. rewrite Hr by (done || lia). unfold ret. rewrite Hl, Z.mul_comm, Z.div_mul, Nat2Z.id by lia. by rewrite decode_chars_bytes.
Qed.

(** ** The lexicographic order *)

Definition precedes (a b : list Z) : Prop :=
  exists p, (a = p /\ exists y t, b = p ++ y :: t) \/ (exists x a' y b', a = p ++ x :: a' /\ b = p ++ y :: b' /\ x < y).

Lemma precedes_cons x y a b : precedes (x :: a) (y :: b) <-> x < y \/ (x = y /\ precedes a b).
Proof.
  split.
  - intros ([|z p] & [(Ha & y' & t & Hb)|(x' & a' & y' & b' & Ha & Hb & Hlt)]); cbn in *; simplify_eq.
    + by left.
    + right. split; [done|]. exists p. left. split; [done|]. by exists y', t.
    + right. split; [done|]. exists p. right. by exists x', a', y', b'.
  - intros [Hlt|[-> (p & [(-> & z & t & ->)|(x' & a' & y' & b' & -> & -> & Hlt)])]].
    + exists []. right. by exists x, a, y, b.
    + exists (y :: p). left. split; [done|]. by exists z, t.
    + exists (y :: p). right. by exists x', a', y', b'.
Qed.
Lemma precedes_nil_l b : precedes [] b <-> b <> [].
Proof.
  split.
  - intros (p & [(<- & y & t & ->)|(x & a' & y & b' & Ha & _)]); [done|]. by destruct p.
  - destruct b as [|y b]; [done|]. intros _. exists []. left. split; [done|]. by exists y, b.
Qed.
Lemma precedes_nil_r a : ~ precedes a [].
Proof. intros (p & [(-> & y & t & Hb)|(x & a' & y & b' & _ & Hb & _)]); by destruct p. Qed.

(** [r] tells how [a] and [b] are ordered. *)
Definition orders (r : Z) (a b : list Z) : Prop :=
  (r < 0 <-> precedes a b) /\ (r = 0 <-> a = b) /\ (0 < r <-> precedes b a).

Lemma compare_exact_orders a b : orders (compare_exact a b) a b.
Proof.
  revert b. induction a as [|x a IH]; intros [|y b]; unfold orders; cbn [compare_exact]; rewrite ?precedes_cons, ?precedes_nil_l.
  1-3: split_and!; split; intros H; try done; try lia; by apply precedes_nil_r in H.
  destruct (IH b) as (H1 & H2 & H3). destruct (Z.eqb_spec x y) as [->|Hne].
  - rewrite H1, H2, H3. split_and!.
    + split; [by right|]. intros [?|[_ ?]]; [lia|done].
    + split; [by intros ->|]. intros H. by simplify_eq.
    + split; [by right|]. intros [?|[_ ?]]; [lia|done].
  - destruct (Z.ltb_spec x y).
    + split_and!; split; intros H'; try lia; simplify_eq; destruct H'; lia.
    + split_and!; split; intros H'; try lia; simplify_eq; destruct H'; lia.
Qed.

(** The folded comparison is the exact one of the folded strings, taken by the
    value of their characters. *)
Definition char_key (w : nat) (c : Z) : Z := char_value w (ascii_lower c).

Lemma ascii_lower_range w c : (0 < w)%nat -> in_range w c -> in_range w (ascii_lower c).
Proof.
  intros Hw. unfold in_range, ascii_lower. destruct ((65 <=? c) && (c <=? 90)) eqn:E; [|done].
  intros H. assert (256 ^ 1 <= 256 ^ Z.of_nat w) by (apply Z.pow_le_mono_r; lia). lia.
Qed.

Lemma char_value_inj w x y : (0 < w)%nat -> in_range w x -> in_range w y -> char_value w x = char_value w y -> x = y.
Proof.
  intros Hw Hx Hy. unfold in_range, char_value in *. destruct w as [|[|w]]; [lia| |done]. change (256 ^ Z.of_nat 1) with 256 in *.
  unfold signed. rewrite !Z.mod_small by lia. destruct (Z.ltb_spec x (2 ^ (8 - 1))), (Z.ltb_spec y (2 ^ (8 - 1))); lia.
Qed.

Lemma compare_count_exact w a b : (0 < w)%nat -> Forall (in_range w) a -> Forall (in_range w) b ->
  let diff := compare_count w a b (Nat.min (length a) (length b)) in
  compare_exact (map (char_key w) a) (map (char_key w) b) =
    if negb (diff =? 0) then diff else if (length a =? length b)%nat then 0 else if (length a <? length b)%nat then -1 else 1.
Proof.
  intros Hw Ha. revert b. induction Ha as [|x a Hx Ha IH]; intros [|y b] Hb; [done..|]. apply Forall_cons in Hb as [Hy Hb].
  cbn [length Nat.min compare_count map compare_exact Nat.eqb Nat.ltb]. unfold char_key at 1 2 3 4. 
  destruct (Z.eqb_spec (ascii_lower x) (ascii_lower y)) as [->|Hne]; cbn [negb].
  - rewrite Z.eqb_refl. by apply IH.
  - destruct (Z.eqb_spec (char_value w (ascii_lower x)) (char_value w (ascii_lower y))) as [He|_].
    + destruct Hne. apply (char_value_inj w); [done| | |done]; by apply ascii_lower_range.
    + by destruct (_ <? _).
Qed.

Lemma nocase_exact w a b : (0 < w)%nat -> Forall (in_range w) a -> Forall (in_range w) b ->
  compare_ascii_nocase w a b = compare_exact (map (char_key w) a) (map (char_key w) b).
Proof. intros Hw Ha Hb. by rewrite compare_count_exact. Qed.

(** What a string is compared by. *)
Definition key2 (ci : Z) (s : list Z) : list Z := if ci =? 0 then s else map ascii_lower s.
Definition key1 (ci : Z) (s : list Z) : list Z := if ci =? 0 then s else map (fun c => signed 8 (ascii_lower c)) s.

Lemma compare_unicode_orders ci a b : Forall (in_range 2) a -> Forall (in_range 2) b ->
  orders (compare_unicode a b (negb (ci =? 0))) (key2 ci a) (key2 ci b).
Proof.
  intros Ha Hb. unfold compare_unicode, key2. destruct (ci =? 0); cbn [negb]; [apply compare_exact_orders|].
  rewrite nocase_exact by (done || lia). apply (compare_exact_orders (map ascii_lower a)).
Qed.

Lemma length_key2 ci s : length (key2 ci s) = length s.
Proof. unfold key2. by destruct (ci =? 0); rewrite ?length_map. Qed.
Lemma take_key2 ci n s : key2 ci (take n s) = take n (key2 ci s).
Proof. unfold key2. destruct (ci =? 0); [done|]. symmetry. apply firstn_map. Qed.

Lemma prefix_of_take (a b : list Z) : a `prefix_of` b <-> (length a <= length b)%nat /\ a = take (length a) b.
Proof.
  split.
  - intros [k ->]. rewrite length_app, take_app_length. split; [lia|done].
  - intros [_ H]. exists (drop (length a) b). by rewrite H at 1; rewrite take_drop.
Qed.

Lemma mismatch_ok a b : length a = length b ->
  let n := mismatch a b in
  (n <= length a)%nat /\ take n a = take n b /\ ((n < length a)%nat -> a !! n <> b !! n).
Proof.
  revert b. induction a as [|x a IH]; intros [|y b] Hl; try done; cbn [mismatch length] in *.
  - split_and!; [lia|done|lia].
  - destruct (Z.eqb_spec x y) as [->|Hne].
    + destruct (IH b ltac:(lia)) as (H1 & H2 & H3). cbn [take]. split_and!; [lia|by rewrite H2|]. intros H. apply H3. lia.
    + split_and!; [lia|done|]. intros _. cbn. congruence.
Qed.

(** C26: on counted strings the comparing entry points agree with one
    lexicographic order of the characters, lowered first when case is ignored.
    RtlCompareUnicodeString is negative, zero or positive exactly as the first
    precedes, equals or follows the second, RtlEqualUnicodeString and
    RtlPrefixUnicodeString are true exactly on equal strings and on prefixes,
    RtlCompareString orders bytes (those from 0x80 up before the others when case
    is ignored), and RtlCompareMemory is the length of the longest common prefix.
    None of them changes memory. *)
Theorem rtl_comparisons m ci a1 s1 d1 a2 s2 d2 b1 t1 e1 b2 t2 e2 p1 l1 p2 l2 :
  counted 2 m a1 s1 d1 -> counted 2 m a2 s2 d2 -> counted 1 m b1 t1 e1 -> counted 1 m b2 t2 e2 ->
  (0 <= p1 /\ p1 + Z.of_nat (length l1) <= 2 ^ 64 /\ holds m p1 l1) ->
  (0 <= p2 /\ p2 + Z.of_nat (length l2) <= 2 ^ 64 /\ holds m p2 l2) -> length l1 = length l2 ->
  (exists r, RtlCompareUnicodeString a1 a2 ci m = (Ok r, m) /\ orders r (key2 ci s1) (key2 ci s2)) /\
  (exists r, RtlEqualUnicodeString a1 a2 ci m = (Ok r, m) /\ (r = true <-> key2 ci s1 = key2 ci s2)) /\
  (exists r, RtlPrefixUnicodeString a1 a2 ci m = (Ok r, m) /\ (r = true <-> key2 ci s1 `prefix_of` key2 ci s2)) /\
  (exists r, RtlCompareString b1 b2 ci m = (Ok r, m) /\ orders r (key1 ci t1) (key1 ci t2)) /\
  (exists n, RtlCompareMemory p1 p2 (Z.of_nat (length l1)) m = (Ok (Z.of_nat n), m) /\
     (n <= length l1)%nat /\ take n l1 = take n l2 /\ ((n < length l1)%nat -> l1 !! n <> l2 !! n)).
Proof.
  intros C1 C2 D1 D2 (P1 & Q1 & H1) (P2 & Q2 & H2) Hl.
  pose proof (read_counted_ok 2 m a1 s1 d1 ltac:(lia) C1) as R1. pose proof (read_counted_ok 2 m a2 s2 d2 ltac:(lia) C2) as R2.
  pose proof (read_counted_ok 1 m b1 t1 e1 ltac:(lia) D1) as R3. pose proof (read_counted_ok 1 m b2 t2 e2 ltac:(lia) D2) as R4.
  pose proof (ct_chars _ _ _ _ _ C1) as F1. pose proof (ct_chars _ _ _ _ _ C2) as F2.
  split_and!.
  - eexists. unfold RtlCompareUnicodeString, read_unicode_string, bind. rewrite R1, R2. split; [done|]. by apply compare_unicode_orders.
  - eexists. unfold RtlEqualUnicodeString, read_unicode_string, bind. rewrite R1, R2. split; [done|].
    destruct (compare_unicode_orders ci s1 s2 F1 F2) as (_ & E & _). rewrite andb_true_iff, Nat.eqb_eq, Z.eqb_eq, E.
    split; [tauto|]. intros He. split; [|done]. by rewrite <- (length_key2 ci s1), He, length_key2.
  - eexists. unfold RtlPrefixUnicodeString, read_unicode_string, bind. rewrite R1, R2. split; [done|].
    destruct (compare_unicode_orders ci s1 (take (length s1) s2) F1 (Forall_take _ _ _ F2)) as (_ & E & _).
    rewrite andb_true_iff, Nat.leb_le, Z.eqb_eq, E, prefix_of_take, !length_key2, take_key2. tauto.
  - eexists. unfold RtlCompareString, read_ansi_string, bind. rewrite R3, R4. split; [done|].
    pose proof (compare_count_exact 1 t1 t2 ltac:(lia) (ct_chars _ _ _ _ _ D1) (ct_chars _ _ _ _ _ D2)) as E. cbn zeta in E.
    unfold key1. destruct (Z.eqb_spec ci 0); cbn [negb].
    + pose proof (compare_exact_orders t1 t2) as O. destruct (Z.eqb_spec (compare_exact t1 t2) 0) as [H0|]; cbn [negb]; [|done].
      destruct O as (_ & O & _). assert (t1 = t2) as -> by (by apply O). rewrite Z.sub_diag.
      pose proof (compare_exact_orders t2 t2) as O'. by rewrite H0 in O'.
    + change (fun c => signed 8 (ascii_lower c)) with (char_key 1). pose proof (compare_exact_orders (map (char_key 1) t1) (map (char_key 1) t2)) as O.
      rewrite E in O. destruct (Z.eqb_spec (compare_count 1 t1 t2 (Nat.min (length t1) (length t2))) 0); cbn [negb] in *; [|done].
      destruct (Nat.eqb_spec (length t1) (length t2)) as [->|]; [by rewrite Z.sub_diag|].
      unfold orders in *. destruct O as (O1 & O2 & O3).
      destruct (Nat.ltb_spec (length t1) (length t2)); (split_and!; [rewrite <- O1|rewrite <- O2|rewrite <- O3]; lia).
  - exists (mismatch l1 l2). unfold RtlCompareMemory, bind. rewrite Nat2Z.id, (read_mem_holds m l1 p1), Hl, (read_mem_holds m l2 p2) by done.
    split; [done|]. rewrite <- Hl. by apply mismatch_ok.
Qed.
