(* ===== verification/StringPoolThm.v ===== *)
(** * Conversions of counted strings

    RtlAnsiStringToUnicodeString and RtlFreeUnicodeString of
    modules/nt_string_ops.cpp over any kernel that keeps [GuestPoolLaws]. *)

From S2P Require Import Prelude GuestMem StringOps StringThm.
From stdpp Require Import list.
From stdpp Require Import options.

Open Scope Z_scope.
Open Scope kern_scope.

(** What is asked of the pool: an allocation is zeroed bytes that belonged to
    nobody, and no byte that belongs to someone changes; what was allocated and
    not freed is live, and freeing says whether it was. *)
Class GuestPoolLaws (K : Type) `{!GuestPool K} : Type := {
  gp_ok : K -> Prop;
  gp_room : K -> Z -> Prop;
  gp_used : K -> Z -> Prop;
  gp_live : K -> Z -> Prop;
  gp_get_set : forall m k, gp_mem (gp_set m k) = m;
  gp_set_get : forall k, gp_set (gp_mem k) k = k;
  gp_set_set : forall m m' k, gp_set m' (gp_set m k) = gp_set m' k;
  gp_set_ok : forall m k, gp_ok k -> (forall y, is_Some (gp_mem k y) -> is_Some (m y)) -> gp_ok (gp_set m k);
  gp_live_set : forall m k a, gp_live (gp_set m k) a <-> gp_live k a;
  gp_allocate_ok : forall size tag k, gp_ok k -> 0 < size < 2 ^ 62 -> gp_room k size ->
    wp (gp_allocate size tag true) k
      (fun a k' => gp_ok k' /\ gp_live k' a /\ 0 < a /\ a + size < 2 ^ 64 /\ holds (gp_mem k') a (replicate (Z.to_nat size) 0) /\
         (forall y, a <= y < a + size -> ~ gp_used k y) /\ forall y, gp_used k y -> gp_mem k' y = gp_mem k y)
      (fun e k' => gp_ok k' /\ forall y, gp_used k y -> gp_mem k' y = gp_mem k y);
  gp_free_ok : forall a k, gp_ok k ->
    exists b k', gp_free a k = (Ok b, k') /\ (b = true <-> gp_live k a) /\ gp_ok k' /\ ~ gp_live k' a /\ gp_mem k' = gp_mem k
}.

(** ** Memory after the two writes *)

Lemma mapped_holds m a l : holds m a l -> mapped m a (Z.of_nat (length l)).
Proof.
  intros H x Hx. destruct (lookup_lt_is_Some_2 l (Z.to_nat (x - a)) ltac:(lia)) as [b Hb].
  exists b. rewrite <- (H _ _ Hb). f_equal. lia.
Qed.
Lemma holds_frame m m' a l : (forall y, a <= y < a + Z.of_nat (length l) -> m' y = m y) -> holds m a l -> holds m' a l.
Proof. intros He H i b Hi. rewrite He; [by apply H|]. apply lookup_lt_Some in Hi. lia. Qed.

(** The text arrived at the descriptor [dp]: it describes it, the terminator is
    behind it, and of the bytes in [used] only the descriptor's and the buffer's
    changed. *)
Record delivered (used : Z -> Prop) (m m' : gmem) (dp : Z) (s : list Z) (d : descriptor) : Prop := {
  dl_counted : counted 2 m' dp s d;
  dl_terminated : holds m' (Buffer d + Length d) [0; 0];
  dl_frame : forall y, used y -> ~ dp <= y < dp + 16 -> ~ Buffer d <= y < Buffer d + Length d + 2 -> m' y = m y
}.

(** A buffer of [MaximumLength] bytes apart from the descriptor. *)
Record room (m : gmem) (dp : Z) (d : descriptor) : Prop := {
  rm_buffer : 0 < Buffer d /\ Buffer d + MaximumLength d <= 2 ^ 64;
  rm_mapped : mapped m (Buffer d) (MaximumLength d);
  rm_apart : forall y, dp <= y < dp + 16 -> ~ Buffer d <= y < Buffer d + MaximumLength d
}.

Lemma widen_bytes s : Forall (in_range 1) s -> widen_string s = s.
Proof.
  induction 1 as [|c s Hc _ IH]; [done|]. cbn [widen_string map]. unfold widen_string in IH. rewrite IH. f_equal.
  unfold u8. apply Z.mod_small. exact Hc.
Qed.
Lemma wide_chars s : Forall (in_range 1) s -> Forall (in_range 2) s.
Proof. intros H. eapply Forall_impl; [exact H|]. unfold in_range. intros c. change (256 ^ Z.of_nat 1) with 256. change (256 ^ Z.of_nat 2) with 65536. lia. Qed.

(** The writes of the entry point, into a buffer with room. *)
Lemma deliver (m : gmem) dp d s :
  0 < dp /\ dp + 16 <= 2 ^ 64 -> mapped m dp 16 -> descriptor_ok d -> room m dp d ->
  Forall (in_range 1) s -> Length d = 2 * Z.of_nat (length s) -> Length d + 2 <= MaximumLength d ->
  exists m', (write_descriptor dp d ;; write_basic_string_buffer 2 (Buffer d) (MaximumLength d / 2) s) m = (Ok tt, m') /\
    (forall y, is_Some (m y) -> is_Some (m' y)) /\ delivered (fun _ => True) m m' dp s d.
Proof.
  intros [Hd1 Hd2] Hmd Hdo [[Hb1 Hb2] Hmb Hap] Hs Hl Hmax. pose proof (do_maximum _ Hdo) as Hm2.
  assert (MaximumLength d / 2 * 2 <= MaximumLength d /\ Z.of_nat (length s) + 1 <= MaximumLength d / 2) as [Hc1 Hc2].
  { pose proof (Z.div_mod (MaximumLength d) 2 ltac:(lia)). pose proof (Z.mod_pos_bound (MaximumLength d) 2 ltac:(lia)). lia. }
  set (c := MaximumLength d / 2) in *. clearbody c.
  destruct (write_mem_mapped (descriptor_bytes d) dp m) as (m1 & E1 & H1).
  { lia. } { rewrite length_descriptor_bytes. lia. } { rewrite length_descriptor_bytes. exact Hmd. }
  assert (forall y, is_Some (m y) -> is_Some (m1 y)) as K1.
  { intros y Hy. rewrite H1. apply (splice_mapped _ _ m y 1); [|lia]. intros x Hx. by replace x with y by lia. }
  destruct (write_string_buffer_spec 2 (Buffer d) c s m1 ltac:(lia) ltac:(lia) ltac:(lia)) as (m' & E & H).
  { unfold char_size. lia. } { intros y Hy. unfold char_size in Hy. apply K1, Hmb. lia. }
  rewrite take_ge in H by lia.
  exists m'. unfold bind, write_descriptor. rewrite E1. split; [exact E|].
  assert (holds m' (Buffer d) (chars_bytes 2 (s ++ [0]))) as Hh by (by eapply same_holds; [exact H|apply splice_holds]).
  assert (length (chars_bytes 2 (s ++ [0])) = (2 * length s + 2)%nat) as Hlen by (rewrite length_chars_bytes, length_app; cbn [length]; lia).
  split_and!.
  { intros y Hy. rewrite H. apply (splice_mapped _ _ m1 y 1); [|lia]. intros x Hx. replace x with y by lia. auto. }
  rewrite chars_bytes_app in Hh. apply holds_app in Hh as [Hh1 Hh2]. rewrite length_chars_bytes in Hh2. split.
  - split.
    + split; [lia|done|]. eapply holds_frame; [|eapply same_holds; [exact H1|apply splice_holds]].
      intros y Hy. rewrite length_descriptor_bytes in Hy. rewrite H. apply splice_out. rewrite Hlen. pose proof (Hap y). lia.
    + unfold char_size. lia.
    + intros _. lia.
    + by apply wide_chars.
    + unfold char_size. lia.
    + exact Hh1.
  - replace (Buffer d + Length d) with (Buffer d + Z.of_nat (2 * length s)) by lia. exact Hh2.
  - intros y _ Hy1 Hy2. rewrite H, splice_out by (rewrite Hlen; lia). rewrite H1. apply splice_out. by rewrite length_descriptor_bytes.
Qed.

(** ** The entry points *)

Section Conversion.
Context {K : Type} {gp : GuestPool K} {laws : GuestPoolLaws K}.
Implicit Types (k : K).

Lemma on_mem_read {A} (f : gst A) k r : f (gp_mem k) = (r, gp_mem k) -> on_mem f k = (r, k).
Proof using laws. intros E. unfold on_mem. by rewrite E, gp_set_get. Qed.

Lemma bind_ext {S A B} (m : st S A) (f g : A -> st S B) s : (forall a s', f a s' = g a s') -> bind m f s = bind m g s.
Proof using Type. intros H. unfold bind. by destruct (m s) as [[a|e] s']. Qed.

(** Two accesses to memory are one. *)
Lemma on_mem_then {A B C} (f : gst A) (g : gst B) (h : B -> st K C) k :
  (on_mem f ;; (let! b := on_mem g in h b)) k = (let! b := on_mem (f ;; g) in h b) k.
Proof using laws.
  unfold on_mem, bind. destruct (f (gp_mem k)) as [[a|e] m]; [|done]. rewrite gp_get_set.
  destruct (g m) as [[b|e] m']; by rewrite gp_set_set.
Qed.

Definition converted_len (s : list Z) : Z := 2 * Z.of_nat (length s).

(** After both strings are read. *)
Lemma convert_reads k sp s sd dp dd alloc :
  counted 1 (gp_mem k) sp s sd -> descriptor_at (gp_mem k) dp dd ->
  RtlAnsiStringToUnicodeString dp sp alloc k =
    (if max_counted_string_bytes <? converted_len s + 2 then ret STATUS_INVALID_PARAMETER_2 else
     let! prepared :=
       (if negb (alloc =? 0) then
          let! buffer := gp_allocate (converted_len s + 2) string_pool_tag true in
          ret (if buffer =? 0 then inr STATUS_NO_MEMORY else inl (Descriptor (Length dd) (u16 (converted_len s + 2)) (Padding dd) buffer))
        else ret (if MaximumLength dd <? converted_len s + 2 then inr STATUS_BUFFER_OVERFLOW else inl dd)) in
     match prepared with
     | inr status => ret status
     | inl out =>
         let out := Descriptor (u16 (converted_len s)) (MaximumLength out) (Padding out) (Buffer out) in
         let! _ := on_mem (write_descriptor dp out ;; write_basic_string_buffer 2 (Buffer out) (MaximumLength out / 2) s) in
         ret STATUS_SUCCESS
     end) k.
Proof using laws.
  intros Hs Hd. unfold RtlAnsiStringToUnicodeString.
  rewrite (proj2 (Z.eqb_neq dp 0)) by (pose proof (da_at _ _ _ Hd); lia).
  rewrite (proj2 (Z.eqb_neq sp 0)) by (pose proof (da_at _ _ _ (ct_at _ _ _ _ _ Hs)); lia). cbn [orb].
  rewrite (bind_ok _ _ k s k) by (apply on_mem_read; unfold read_ansi_string; by apply (read_counted_ok 1 _ _ _ sd); [lia|]).
  rewrite (widen_bytes s) by apply (ct_chars _ _ _ _ _ Hs). cbn zeta.
  replace (Z.of_nat (length s) * 2) with (converted_len s) by (unfold converted_len; lia).
  destruct (_ <? _); [done|].
  rewrite (bind_ok _ _ k dd k) by (by apply on_mem_read, read_descriptor_at).
  apply bind_ext. intros [out|st] k'; [apply on_mem_then|done].
Qed.

Lemma small_descriptor k dp dd s max buf :
  descriptor_at (gp_mem k) dp dd -> converted_len s + 2 <= max -> 0 <= max < 2 ^ 16 -> 0 <= buf < 2 ^ 64 ->
  u16 (converted_len s) = converted_len s /\ descriptor_ok (Descriptor (converted_len s) max (Padding dd) buf).
Proof using Type.
  intros [_ [H1 H2 H3 H4] _] Hl Hm Hb. assert (0 <= converted_len s) by (unfold converted_len; lia).
  split; [apply Z.mod_small; lia|]. split; cbn [Length MaximumLength Padding Buffer]; lia.
Qed.

Lemma deliver_to k dp d s :
  gp_ok k -> 0 < dp /\ dp + 16 <= 2 ^ 64 -> mapped (gp_mem k) dp 16 -> descriptor_ok d -> room (gp_mem k) dp d ->
  Forall (in_range 1) s -> Length d = converted_len s -> converted_len s + 2 <= MaximumLength d ->
  exists k', (let! _ := on_mem (write_descriptor dp d ;; write_basic_string_buffer 2 (Buffer d) (MaximumLength d / 2) s) in ret STATUS_SUCCESS) k =
      (Ok STATUS_SUCCESS, k') /\ gp_ok k' /\ (forall a, gp_live k' a <-> gp_live k a) /\ delivered (fun _ => True) (gp_mem k) (gp_mem k') dp s d.
Proof using laws.
  intros Hk Hdp Hm Hd Hr Hs Hl Hmax. destruct (deliver (gp_mem k) dp d s Hdp Hm Hd Hr Hs Hl) as (m' & E & Hkeep & Hdel); [lia|].
  exists (gp_set m' k). unfold bind at 1, on_mem. rewrite E. split; [done|]. rewrite gp_get_set.
  split; [by apply gp_set_ok|]. split; [intros a; apply gp_live_set|done].
Qed.

(** The bytes of an allocation, after it. *)
Lemma allocated_room k k' dp (d : descriptor) :
  (forall y, dp <= y < dp + 16 -> gp_used k y) ->
  0 < Buffer d -> Buffer d + MaximumLength d < 2 ^ 64 -> 0 <= MaximumLength d ->
  holds (gp_mem k') (Buffer d) (replicate (Z.to_nat (MaximumLength d)) 0) ->
  (forall y, Buffer d <= y < Buffer d + MaximumLength d -> ~ gp_used k y) ->
  room (gp_mem k') dp d.
Proof using Type.
  intros Hused H1 H2 H0 Hh Hfresh. split; [lia| |].
  - pose proof (mapped_holds _ _ _ Hh) as Hm. by rewrite length_replicate, Z2Nat.id in Hm.
  - intros y Hy Hy'. by apply (Hfresh y Hy'), Hused.
Qed.

(** Freeing the string that was delivered. *)
Lemma free_delivered k dp s d :
  gp_ok k -> gp_live k (Buffer d) -> Buffer d <> 0 -> counted 2 (gp_mem k) dp s d ->
  exists k', RtlFreeUnicodeString dp k = (Ok tt, k') /\ ~ gp_live k' (Buffer d) /\
    read_descriptor dp (gp_mem k') = (Ok empty_descriptor, gp_mem k').
Proof using laws.
  intros Hk Hlive Hb Hc. pose proof (ct_at _ _ _ _ _ Hc) as Hd. pose proof (da_at _ _ _ Hd) as Hdp.
  assert (descriptor_ok empty_descriptor) as He by (split; cbn; lia).
  destruct (write_mem_mapped (descriptor_bytes empty_descriptor) dp (gp_mem k)) as (m & E & H).
  { lia. } { rewrite length_descriptor_bytes. lia. }
  { rewrite length_descriptor_bytes, <- (length_descriptor_bytes d). apply mapped_holds, Hd. }
  destruct (gp_free_ok (Buffer d) (gp_set m k)) as (b & k' & Ef & _ & _ & Hn & Hmem).
  { apply gp_set_ok; [done|]. intros y Hy. rewrite H. apply (splice_mapped _ _ (gp_mem k) y 1); [|lia]. intros x Hx. by replace x with y by lia. }
  exists k'. unfold RtlFreeUnicodeString. rewrite (proj2 (Z.eqb_neq dp 0)) by lia.
  rewrite (bind_ok _ _ k d k) by (by apply on_mem_read, read_descriptor_at). rewrite (proj2 (Z.eqb_neq (Buffer d) 0)) by done.
  unfold bind at 1, on_mem, write_descriptor. rewrite E. unfold bind. rewrite Ef. split; [done|]. split; [done|].
  rewrite Hmem, gp_get_set. apply read_descriptor_at. split; [lia|done|]. eapply same_holds; [exact H|apply splice_holds].
Qed.

Lemma allocating k sp s sd dp dd :
  gp_ok k -> counted 1 (gp_mem k) sp s sd -> descriptor_at (gp_mem k) dp dd ->
  gp_room k (converted_len s + 2) -> (forall y, dp <= y < dp + 16 -> gp_used k y) -> converted_len s + 2 <= max_counted_string_bytes ->
  wp (RtlAnsiStringToUnicodeString dp sp 1) k
    (fun status k' => status = STATUS_SUCCESS /\ exists b, gp_live k' b /\ (forall y, b <= y < b + (converted_len s + 2) -> ~ gp_used k y) /\
       delivered (gp_used k) (gp_mem k) (gp_mem k') dp s (Descriptor (converted_len s) (converted_len s + 2) (Padding dd) b) /\ gp_ok k' /\ b <> 0)
    (fun e k' => forall y, gp_used k y -> gp_mem k' y = gp_mem k y).
Proof using laws.
  intros Hk Hs Hd Hroom Hused Hsmall. pose proof (da_at _ _ _ Hd) as Hdp.
  assert (0 <= converted_len s) as H0 by (unfold converted_len; lia). unfold max_counted_string_bytes in Hsmall.
  unfold wp. rewrite (convert_reads k sp s sd dp dd) by done. set (needed := converted_len s + 2) in *.
  rewrite (proj2 (Z.ltb_ge max_counted_string_bytes needed)) by done. change (negb (1 =? 0)) with true. cbn match.
  pose proof (gp_allocate_ok needed string_pool_tag k Hk ltac:(lia) Hroom) as Ha. unfold wp in Ha. unfold bind at 1 2.
  destruct (gp_allocate needed string_pool_tag true k) as [[b|e] k1]; [|apply Ha].
  destruct Ha as (Hk1 & Hlive & Hb1 & Hb2 & Hz & Hfresh & Hsame). unfold ret at 1.
  rewrite (proj2 (Z.eqb_neq b 0)) by lia. cbn match zeta. cbn [MaximumLength Padding Buffer].
  assert (u16 needed = needed) as -> by (apply Z.mod_small; lia).
  destruct (small_descriptor k dp dd s needed b Hd) as [-> Hok]; [lia|lia|lia|].
  set (d := Descriptor (converted_len s) needed (Padding dd) b) in *.
  destruct (deliver_to k1 dp d s) as (k' & E & Hk' & Hl' & Hdel).
  { done. } { done. }
  { intros x Hx. rewrite Hsame by auto. apply (mapped_holds _ _ _ (da_holds _ _ _ Hd)). by rewrite length_descriptor_bytes. }
  { done. } { apply (allocated_room k); try done; cbn [Buffer MaximumLength d]; try done; lia. } { apply (ct_chars _ _ _ _ _ Hs). } { done. } { done. }
  cbn [MaximumLength Buffer d] in E. rewrite E. split; [done|]. exists b. split; [by apply Hl'|]. split; [done|].
  split; [|split; [done|lia]]. destruct Hdel as [D1 D2 D3]. split; [done|done|]. intros y Hy Hy1 Hy2. rewrite D3 by done. by apply Hsame.
Qed.

(** C34: RtlAnsiStringToUnicodeString into a buffer of the caller's either
    delivers the whole text, terminated, and changes no byte but the descriptor's
    and the text's, or refuses it, because a counted string cannot describe it or
    the buffer has no room, and changes nothing.  With allocation it delivers the
    text into bytes that nobody used, and if the pool throws nothing anyone uses
    has changed; RtlFreeUnicodeString then releases that buffer and empties the
    descriptor. *)
Theorem ansi_to_unicode k sp s sd dp dd :
  gp_ok k -> counted 1 (gp_mem k) sp s sd -> descriptor_at (gp_mem k) dp dd -> room (gp_mem k) dp dd ->
  gp_room k (converted_len s + 2) -> (forall y, dp <= y < dp + 16 -> gp_used k y) ->
  let needed := converted_len s + 2 in
  if max_counted_string_bytes <? needed then forall alloc, RtlAnsiStringToUnicodeString dp sp alloc k = (Ok STATUS_INVALID_PARAMETER_2, k) else
  (if MaximumLength dd <? needed then RtlAnsiStringToUnicodeString dp sp 0 k = (Ok STATUS_BUFFER_OVERFLOW, k)
   else exists k', RtlAnsiStringToUnicodeString dp sp 0 k = (Ok STATUS_SUCCESS, k') /\
     delivered (fun _ => True) (gp_mem k) (gp_mem k') dp s (Descriptor (converted_len s) (MaximumLength dd) (Padding dd) (Buffer dd))) /\
  wp (RtlAnsiStringToUnicodeString dp sp 1) k
    (fun status k' => status = STATUS_SUCCESS /\ exists b, gp_live k' b /\ (forall y, b <= y < b + needed -> ~ gp_used k y) /\
       delivered (gp_used k) (gp_mem k) (gp_mem k') dp s (Descriptor (converted_len s) needed (Padding dd) b) /\
       exists k'', RtlFreeUnicodeString dp k' = (Ok tt, k'') /\ ~ gp_live k'' b /\ read_descriptor dp (gp_mem k'') = (Ok empty_descriptor, gp_mem k''))
    (fun e k' => forall y, gp_used k y -> gp_mem k' y = gp_mem k y).
Proof using laws.
  intros Hk Hs Hd Hr Hroom Hused needed. pose proof (da_at _ _ _ Hd) as Hdp. pose proof (da_ok _ _ _ Hd) as Hdo.
  pose proof (ct_chars _ _ _ _ _ Hs) as Hc. assert (0 <= converted_len s) as H0 by (unfold converted_len; lia).
  assert (mapped (gp_mem k) dp 16) as Hmd.
  { intros x Hx. apply (mapped_holds _ _ _ (da_holds _ _ _ Hd)). by rewrite length_descriptor_bytes. }
  destruct (Z.ltb_spec max_counted_string_bytes needed) as [Hbig|Hsmall].
  { intros alloc. rewrite (convert_reads k sp s sd dp dd) by done. fold needed. by rewrite (proj2 (Z.ltb_lt _ _) Hbig). }
  unfold max_counted_string_bytes in Hsmall. split.
  - rewrite (convert_reads k sp s sd dp dd) by done. fold needed. rewrite (proj2 (Z.ltb_ge max_counted_string_bytes needed) Hsmall). change (negb (0 =? 0)) with false. cbn match.
    destruct (Z.ltb_spec (MaximumLength dd) needed) as [|Hfits]; [done|]. unfold bind at 1, ret at 1. cbn zeta.
    destruct (small_descriptor k dp dd s (MaximumLength dd) (Buffer dd) Hd) as [-> Hok]; [done|apply Hdo|apply Hdo|].
    destruct (deliver_to k dp (Descriptor (converted_len s) (MaximumLength dd) (Padding dd) (Buffer dd)) s) as (k' & E & _ & _ & Hdel).
    { done. } { done. } { done. } { done. } { by destruct Hr. } { done. } { done. } { done. }
    by exists k'.
  - pose proof (allocating k sp s sd dp dd Hk Hs Hd Hroom Hused Hsmall) as Ha. unfold wp in *.
    destruct (RtlAnsiStringToUnicodeString dp sp 1 k) as [[st|e] k']; [|done].
    destruct Ha as (-> & b & Hlive & Hfresh & Hdel & Hk' & Hb). split; [done|]. exists b. split; [done|]. split; [done|]. split; [done|].
    apply (free_delivered k' dp s (Descriptor (converted_len s) needed (Padding dd) b) Hk' Hlive Hb), Hdel.
Qed.
End Conversion.
