(* ===== verification/StringPool.v ===== *)
(** * Strings in pool memory

    The kernel pool of [Pool] over an address space whose bytes the guest can
    see: what the string entry points ask of a kernel ([GuestPoolLaws]), from the
    theorems of [PoolClaims]. *)

From S2P Require Import Prelude Mmu OrdMap Pool PoolThm PoolClaims GuestMem StringOps StringPoolThm.
From stdpp Require Import options.

Open Scope Z_scope.
Open Scope kern_scope.

Import Pool.

(** A space with its bytes: writing goes to them, and an allocation maps bytes and
    leaves those that were given out. *)
Class SpaceMem (X : Type) `{!PoolSpace X} : Type := { sm_mem : X -> gmem; sm_set : gmem -> X -> X }.
Class SpaceMemLaws (X : Type) `{!PoolSpace X, !PoolSpaceLaws X, !SpaceMem X} : Type := {
  sm_get_set : forall m x, sm_mem (sm_set m x) = m;
  sm_set_get : forall x, sm_set (sm_mem x) x = x;
  sm_set_set : forall m m' x, sm_set m' (sm_set m x) = sm_set m' x;
  sm_set_given : forall m x y, given (sm_set m x) y <-> given x y;
  sm_write : forall a bs x, ps_write_mem a bs x = let '(r, m) := write_mem a bs (sm_mem x) in (r, sm_set m x);
  sm_alloc_kept : forall n p x y, room_for x n -> given x y -> sm_mem (ps_alloc n p x).2 y = sm_mem x y;
  sm_alloc_mapped : forall n p x a x', has p prot_supervisor = true -> 0 < n -> room_for x n -> ps_alloc n p x = (Ok a, x') -> mapped (sm_mem x') a n
}.

#[export] Instance pool_of_strings {X} `{!PoolSpace X, !SpaceMem X} : GuestPool (win_pool X) := {
  gp_mem s := sm_mem (space_ s);
  gp_set m s := WinPool (sm_set m (space_ s)) (blocks_ s);
  gp_allocate := allocate;
  gp_free a := let! r := free a in ret (match r with Some _ => true | None => false end)
}.

Lemma wp_both {S A} (m : st S A) (s : S) (Q Q' : A -> S -> Prop) (E E' : error -> S -> Prop) :
  wp m s Q E -> wp m s Q' E' -> wp m s (fun a s' => Q a s' /\ Q' a s') (fun e s' => E e s' /\ E' e s').
Proof. unfold wp. by destruct (m s) as [[a|e] s']. Qed.

Section Laws.
Context {X : Type} {ps : PoolSpace X} {pl : PoolSpaceLaws X} {sm : SpaceMem X} {sl : SpaceMemLaws X}.
Implicit Types (s : win_pool X).

Definition memory_of s : gmem := sm_mem (space_ s).
Definition pool_mapped s : Prop := forall y, covered (blocks_ s) y -> is_Some (memory_of s y).
(** Given out by the space, and not in a free block. *)
Definition in_use s (y : Z) : Prop := given (space_ s) y /\ forall k b, at_addr (blocks_ s) y = Some (k, b) -> b_free b = false.

(** Memory where the block was found. *)
Definition found s (it : Z * Z) s' : Prop :=
  pool_mapped s' /\ (forall y, in_use s y -> memory_of s' y = memory_of s y) /\
  forall b y, find (blocks_ s') it.1 = Some b -> it.1 <= y < it.1 + b_size b -> ~ in_use s y.

Lemma find_block_memory s size :
  pool_wf s -> pool_mapped s -> 0 < size < 2 ^ 62 -> room_for (space_ s) (run_of size) ->
  wp (match first_fit (blocks_ s) (alignment_of size) (align_up size pool_alignment) with
      | Some it => ret it
      | None => let! k := reserve (align_up size pool_alignment +w alignment_of size) in ret (k, align_up k (alignment_of size))
      end) s (found s) (fun e s' => blocks_ s' = blocks_ s /\ pool_mapped s' /\ forall y, in_use s y -> memory_of s' y = memory_of s y).
Proof using sl.
  intros [W Hg] Hm Hsz Hroom. destruct (needed_ok size Hsz) as [N1 N2]. destruct (alignment_ok size) as (A1 & A2 & A3).
  destruct (first_fit _ _ _) as [[k addr]|] eqn:Ef.
  - destruct (first_fit_spec _ _ _ _ _ _ (pw_ivs _ W) Ef) as (b & Hf & Fb & _ & _).
    split; [done|]. split; [done|]. intros b' y Hf' Hy [_ Hu]. cbn [fst] in *. rewrite Hf in Hf'. simplify_eq.
    rewrite (Hu k b') in Fb; [done|]. by apply (find_at_addr _ _ _ _ _ _ (pw_ivs _ W) Hf).
  - unfold reserve. rewrite u64_small by (unfold in_u64; lia). fold (run_of size).
    assert (run_of size mod Pool.page_size = 0 /\ 0 < run_of size) as (R1 & R2).
    { split; [apply align_up_mod, pow2_page|]. unfold run_of.
      pose proof (align_up_bounds (Z.max (align_up size pool_alignment + alignment_of size) run_size) _ pow2_page) as Hu.
      unfold run_size, Pool.page_size in *. lia. }
    pose proof (fun y => sm_alloc_kept (run_of size) (Z.lor prot_rw prot_supervisor) (space_ s) y Hroom) as Hkept.
    apply wp_bind, wp_bind, wp_on_space.
    + intros a x Ha. destruct (ps_alloc_ok _ (Z.lor prot_rw prot_supervisor) _ _ _ eq_refl R2 Hroom Ha) as (L1 & L2 & L3 & L4 & L5).
      pose proof (sm_alloc_mapped _ (Z.lor prot_rw prot_supervisor) _ _ _ eq_refl R2 Hroom Ha) as Hmap. rewrite Ha in Hkept. cbn [snd] in Hkept.
      destruct (add_run (blocks_ s) a (run_of size) W L1 R1 L2 R2 L3) as (W' & F' & V' & C').
      { intros y Hy Hc. apply (L4 y Hy), Hg, Hc. }
      apply wp_bind. unfold wp, on_blocks, modify, ret, found, pool_mapped, memory_of. cbn [space_ blocks_ fst]. split_and!.
      * intros y [Hy|Hy]%C'; [rewrite Hkept by auto; by apply Hm|by apply Hmap].
      * intros y [Hy _]. by apply Hkept.
      * intros b y Hf Hy [Hu _]. rewrite F' in Hf. simplify_eq. by apply (L4 y).
    + intros e x Ha. rewrite Ha in Hkept. cbn [snd] in Hkept. unfold pool_mapped, memory_of. cbn [blocks_ space_]. split; [done|]. split.
      * intros y Hy. rewrite Hkept by auto. by apply Hm.
      * intros y [Hy _]. by apply Hkept.
Qed.

(** [allocate] with zeroing, as the guest sees it. *)
Lemma allocate_memory s size tag :
  pool_wf s -> pool_mapped s -> 0 < size < 2 ^ 62 -> room_for (space_ s) (run_of size) ->
  wp (allocate size tag true) s
    (fun a s' => pool_mapped s' /\ holds (memory_of s') a (replicate (Z.to_nat size) 0) /\
       (forall y, a <= y < a + size -> ~ in_use s y) /\ forall y, in_use s y -> memory_of s' y = memory_of s y)
    (fun e s' => pool_mapped s' /\ forall y, in_use s y -> memory_of s' y = memory_of s y).
Proof using sl.
  intros W Hm Hsz Hroom. unfold allocate. rewrite (proj2 (Z.eqb_neq size 0)) by lia. cbn zeta.
  fold (alignment_of size). destruct (needed_ok size ltac:(lia)) as [N1 N2]. destruct (alignment_ok size) as (A1 & A2 & A3).
  unfold wp at 1, get, bind at 1. apply wp_bind.
  eapply wp_mono; [apply wp_both; [apply (find_block s size (fun _ _ => True) W ltac:(lia) Hroom); by auto|by apply find_block_memory]| |].
  2: { intros e s' (_ & _ & H). done. }
  intros [k addr] s1 (([W1 G1] & L1 & b & Hf & Fb & Ea & Hfit) & Hm1 & Hsame & Hfresh). cbn [fst snd] in *.
  pose proof (find_bounds _ _ _ _ _ (pw_ivs _ W1) Hf) as Hb. unfold size_of, block_sized, hi in Hb.
  pose proof (align_up_bounds k _ A1 ltac:(lia) ltac:(lia)) as Hu. rewrite <- Ea in Hu.
  assert (addr mod alignment_of size = 0) as Ham by (rewrite Ea; by apply align_up_mod).
  pose proof (carve_spec (blocks_ s1) k b addr (align_up size pool_alignment) size tag W1 Hf Fb ltac:(lia) (A3 _ Ham) N1 ltac:(lia) ltac:(lia))
    as (W2 & _ & _ & C2 & Cv & _).
  apply wp_bind. unfold wp at 1, on_blocks, modify. apply wp_bind. set (m2 := carve _ _ _ _ _ _) in *. clearbody m2.
  set (zeros := replicate (Z.to_nat size) 0). assert (Z.of_nat (length zeros) = size) as Hz by (unfold zeros; rewrite length_replicate; lia).
  destruct (write_mem_mapped zeros addr (memory_of s1)) as (m' & E & H).
  { lia. } { lia. } { intros y Hy. apply Hm1, Cv. lia. }
  unfold wp at 1, on_space. cbn [space_]. rewrite sm_write. fold (memory_of s1). rewrite E. unfold wp, ret, memory_of, pool_mapped in *. cbn [space_ blocks_].
  unfold memory_of. cbn [space_]. rewrite sm_get_set. split_and!.
  - intros y Hy. rewrite H. apply (splice_mapped _ _ _ y 1); [|lia]. intros x Hx. apply Hm1, C2. by replace x with y by lia.
  - by eapply same_holds; [exact H|apply splice_holds].
  - intros y Hy. apply (Hfresh b); [done|lia].
  - intros y Hy. rewrite H, splice_out; [by apply Hsame|]. intros Hin. apply (Hfresh b y Hf); [lia|done].
Qed.

#[export] Instance pool_of_strings_laws : GuestPoolLaws (win_pool X).
Proof using sl.
  refine {| gp_ok s := pool_wf s /\ pool_mapped s; gp_room s size := room_for (space_ s) (run_of size);
            gp_used := in_use; gp_live s a := is_Some (live (blocks_ s) a) |}.
  - intros m s. apply sm_get_set.
  - intros [x m]. cbn. by rewrite sm_set_get.
  - intros m m' s. cbn. by rewrite sm_set_set.
  - intros m s [[W G] Hm] Hk. cbn in *. split; [split; [done|]|].
    + intros y Hy. apply sm_set_given. by apply G.
    + intros y Hy. unfold memory_of. cbn. rewrite sm_get_set. by apply Hk, Hm.
  - intros m s a. done.
  - intros size tag s [W Hm] Hsz Hroom. cbn [gp_allocate pool_of_strings gp_mem].
    eapply wp_mono; [apply wp_both; [apply (pool_allocate_ok s size tag true W); [lia|done]|by apply allocate_memory]| |].
    + intros a s' ((W' & Ha) & Hm' & Hz & Hfresh & Hsame). rewrite (proj2 (Z.eqb_neq size 0)) in Ha by lia.
      destruct Ha as (P1 & P2 & _ & _ & _ & Hl & _). split_and!; try done. rewrite Hl, decide_True by done. by eexists.
    + intros e s' ((W' & _) & Hm' & Hsame). done.
  - intros a s [W Hm]. destruct (pool_free_ok s a W) as (s' & E & W' & Hn & Hl & Hc & _).
    exists (match live (blocks_ s) a with Some _ => true | None => false end), s'. cbn [gp_free pool_of_strings gp_mem]. unfold bind. rewrite E.
    assert (space_ s' = space_ s) as Hs.
    { unfold free, get, bind, on_blocks, modify, ret in E. cbv beta iota in E.
      destruct (find (blocks_ s) a) as [b|]; [destruct (b_free b)|]; congruence || (injection E; intros <-; reflexivity). }
    split; [done|]. split_and!.
    + destruct (live (blocks_ s) a); split; done || by intros [? ?].
    + done.
    + intros y Hy. unfold memory_of. rewrite Hs. by apply Hm, Hc.
    + rewrite Hl, decide_True by done. by intros [? ?].
    + by rewrite Hs.
Defined.
End Laws.
