(* ===== verification/StringExamples.v ===== *)
(** * Counted strings: examples

    The theorems on a small machine: 64 KiB of bytes, above which the pool takes
    its runs. *)

From S2P Require Import Prelude Mmu OrdMap Pool PoolThm PoolClaims GuestMem StringOps StringThm StringPoolThm StringPool.
From stdpp Require Import options.

Open Scope Z_scope.
Open Scope kern_scope.

(** ** A space that maps upwards *)

Record bump : Type := Bump { bytes : gmem; next : Z }.
Definition pages (n : Z) : Z := (n + 0xFFF) / 0x1000 * 0x1000.

#[export] Instance bump_space : Pool.PoolSpace bump := {
  ps_alloc n p x := (Ok (next x), Bump (fun y => if (next x <=? y) && (y <? next x + pages n) then Some 0 else bytes x y) (next x + pages n));
  ps_write_mem a bs x := let '(r, m) := write_mem a bs (bytes x) in (r, Bump m (next x))
}.

Lemma pages_ok n : 0 < n -> pages n mod 0x1000 = 0 /\ n <= pages n < n + 0x1000.
Proof.
  intros H. unfold pages. split; [apply Z.mod_mul; lia|]. pose proof (Z.div_mod (n + 0xFFF) 0x1000 ltac:(lia)).
  pose proof (Z.mod_pos_bound (n + 0xFFF) 0x1000 ltac:(lia)). lia.
Qed.

#[export] Instance bump_laws : Pool.PoolSpaceLaws bump.
Proof.
  refine {| Pool.given x y := y < next x;
            Pool.room_for x n := 0 < n /\ next x mod 0x1000 = 0 /\ 0 < next x /\ next x + n + 0x1000 < 2 ^ 64 |}.
  - intros n p x a x' _ Hn (_ & H1 & H2 & H3) E. cbn in E. injection E as <- <-. destruct (pages_ok n Hn) as [P1 P2]. cbn [next].
    split_and!; [exact H1|lia|lia|intros; lia|]. intros y [|]; lia.
  - intros n p x e x' _ _ E. cbn in E. discriminate.
  - intros a bs x y Hy. cbn. by destruct (write_mem a bs (bytes x)).
Defined.

#[export] Instance bump_mem : SpaceMem bump := { sm_mem := bytes; sm_set m x := Bump m (next x) }.
#[export] Instance bump_mem_laws : SpaceMemLaws bump.
Proof.
  split.
  - done.
  - by intros [m n].
  - done.
  - done.
  - done.
  - intros n p x y _ Hy. cbn in *. rewrite (proj2 (Z.leb_gt _ _)) by lia. done.
  - intros n p x a x' _ Hn _ E y Hy. cbn in E. injection E as <- <-. cbn. destruct (pages_ok n Hn).
    rewrite (proj2 (Z.leb_le _ _)), (proj2 (Z.ltb_lt _ _)) by lia. by eexists.
Defined.

(** ** The machine: "hi" at 0x2000, described at 0x1000; a descriptor at 0x3000 of
    eight bytes at 0x4000; L"Hi" at 0x5000, described at 0x6000. *)

Definition layout : list (Z * list Z) :=
  [(0x1000, descriptor_bytes (Descriptor 2 3 0 0x2000)); (0x2000, [104; 105; 0]);
   (0x3000, descriptor_bytes (Descriptor 0 8 0 0x4000)); (0x5000, [72; 0; 105; 0]);
   (0x6000, descriptor_bytes (Descriptor 4 4 0 0x5000)); (0x7000, descriptor_bytes (Descriptor 4 4 0 0x8000)); (0x8000, [104; 0; 105; 0])].
Definition zero_bytes : gmem := fun y => if (0 <=? y) && (y <? 0x10000) then Some 0 else None.
Definition machine_bytes : gmem := foldr (fun p m => splice p.1 p.2 m) zero_bytes layout.
Definition machine : Pool.win_pool bump := Pool.WinPool (Bump machine_bytes 0x10000) [].

Lemma holds_check m a l : forallb (fun i => match m (a + Z.of_nat i), (l : list Z) !! i with Some x, Some y => x =? y | _, _ => false end) (seq 0 (length l)) = true -> holds m a l.
Proof.
  intros H i b Hi. rewrite forallb_forall in H. specialize (H i). rewrite Hi in H.
  destruct (m (a + Z.of_nat i)) as [x|]; [|exfalso; discriminate H; apply in_seq; apply lookup_lt_Some in Hi; lia].
  rewrite Z.eqb_eq in H. rewrite H; [done|]. apply in_seq. apply lookup_lt_Some in Hi. lia.
Qed.

Ltac described := split; [lia|split; cbn; lia|apply holds_check; vm_compute; reflexivity].
Ltac counted_string := split;
  [described|reflexivity|intros _; discriminate|repeat constructor; discriminate|vm_compute; discriminate|
   apply holds_check; vm_compute; reflexivity].

Lemma hi_ansi : counted 1 machine_bytes 0x1000 [104; 105] (Descriptor 2 3 0 0x2000).
Proof. counted_string. Qed.
Lemma hi_upper : counted 2 machine_bytes 0x6000 [72; 105] (Descriptor 4 4 0 0x5000).
Proof. counted_string. Qed.
Lemma hi_lower : counted 2 machine_bytes 0x7000 [104; 105] (Descriptor 4 4 0 0x8000).
Proof. counted_string. Qed.

(** "Hi" and "hi" are equal when case is ignored, and ordered when it is not. *)
Lemma rtl_comparisons_witness :
  (exists r, RtlEqualUnicodeString 0x6000 0x7000 1 machine_bytes = (Ok r, machine_bytes) /\ (r = true <-> [104; 105] = [104; 105])) /\
  (exists r, RtlCompareUnicodeString 0x6000 0x7000 0 machine_bytes = (Ok r, machine_bytes) /\ orders r [72; 105] [104; 105]).
Proof.
  split.
  - destruct (rtl_comparisons machine_bytes 1 _ _ _ _ _ _ _ _ _ _ _ _ 0 [] 0 [] hi_upper hi_lower hi_ansi hi_ansi) as (_ & H & _).
    + split_and!; [lia|cbn; lia|intros i b Hi; done].
    + split_and!; [lia|cbn; lia|intros i b Hi; done].
    + reflexivity.
    + exact H.
  - destruct (rtl_comparisons machine_bytes 0 _ _ _ _ _ _ _ _ _ _ _ _ 0 [] 0 [] hi_upper hi_lower hi_ansi hi_ansi) as (H & _).
    + split_and!; [lia|cbn; lia|intros i b Hi; done].
    + split_and!; [lia|cbn; lia|intros i b Hi; done].
    + reflexivity.
    + exact H.
Defined.

Lemma machine_ok : gp_ok machine.
Proof.
  change (pool_wf machine /\ pool_mapped machine).
  split; [split; [split; [done|intros k b Hf; done]|intros x [r Hr]; done]|intros y [r Hr]; done].
Qed.

Definition wide_descriptor (b : Z) : descriptor := Descriptor 4 6 0 b.

(** "hi" goes into the eight bytes at 0x4000, and into six bytes of pool. *)
Lemma ansi_to_unicode_witness :
  (exists k', RtlAnsiStringToUnicodeString 0x3000 0x1000 0 machine = (Ok STATUS_SUCCESS, k') /\
     delivered (fun _ => True) machine_bytes (gp_mem k') 0x3000 [104; 105] (Descriptor 4 8 0 0x4000)) /\
  wp (RtlAnsiStringToUnicodeString 0x3000 0x1000 1) machine
    (fun status k' => status = STATUS_SUCCESS /\ exists b, gp_live k' b /\
       delivered (gp_used machine) machine_bytes (gp_mem k') 0x3000 [104; 105] (wide_descriptor b)) (fun _ _ => True).
Proof.
  destruct (ansi_to_unicode machine 0x1000 [104; 105] (Descriptor 2 3 0 0x2000) 0x3000 (Descriptor 0 8 0 0x4000) machine_ok hi_ansi) as [H1 H2].
  - described.
  - split; [cbn; lia| |intros y; cbn; lia]. intros y Hy. cbn in Hy.
    assert (holds machine_bytes 0x4000 [0; 0; 0; 0; 0; 0; 0; 0]) as Hz by (apply holds_check; vm_compute; reflexivity).
    apply (mapped_holds _ _ _ Hz). cbn. lia.
  - vm_compute. split_and!; congruence.
  - intros y Hy. split; [cbn; lia|]. intros k b Hat. done.
  - split; [exact H1|]. eapply wp_mono; [exact H2| |done].
    intros status k' (-> & b & Hl & _ & Hd & _). split; [done|]. exists b. split; [exact Hl|exact Hd].
Defined.

(** A byte from 0x80 up follows the letters, but precedes them when case is
    ignored. *)
Example high_bytes : compare_exact [0x80] [97] = 1 /\ compare_count 1 [0x80] [97] 1 = -1.
Proof. split; reflexivity. Qed.

(** An odd byte count: two characters of "hi" and half of another give one. *)
Example odd_count :
  (let! d := ret (Descriptor 3 3 0 0x2000) in read_counted_string 2 d) machine_bytes = (Ok [0x6968], machine_bytes).
Proof. reflexivity. Qed.
