(* ===== verification/Exception.v ===== *)
(** * Exception dispatch

    kernel/win/exception.cpp, the frame a handler is called with from
    unwind/unwind.cpp, and the call itself from emu/guest_call.hpp.  What the
    guest's own routines do when they run is a parameter, as are the images (the
    pe library) and what the target's register file puts in a CONTEXT. *)

From S2P Require Import Prelude Mmu Unwind GuestMem.
From stdpp Require Import list.
From stdpp Require Import options.

Open Scope Z_scope.
Open Scope kern_scope.

Inductive cpu_exception : Type := divide_by_zero | debug | breakpoint | illegal_instruction | page_fault | interrupt | other.
#[export] Instance cpu_exception_eq_dec : EqDecision cpu_exception.
Proof. solve_decision. Defined.

Definition status_access_violation : Z := 0xC0000005.
Definition status_integer_divide_by_zero : Z := 0xC0000094.
Definition status_single_step : Z := 0x80000004.
Definition status_breakpoint : Z := 0x80000003.
Definition status_illegal_instruction : Z := 0xC000001D.

Definition exception_to_status (ex : cpu_exception) : Z :=
  match ex with
  | divide_by_zero => status_integer_divide_by_zero
  | debug => status_single_step
  | breakpoint => status_breakpoint
  | illegal_instruction => status_illegal_instruction
  | _ => status_access_violation
  end.

Definition exception_continue_execution : Z := 0.
Definition exception_continue_search : Z := 1.
Definition exception_execute_handler : Z := 2.

Record exception_info : Type := ExceptionInfo { e_code : Z; exception_address : Z; fault_address : Z }.

Record dispatcher_context64 : Type := DispatcherContext {
  control_pc : Z; image_base : Z; d_function_entry : Z; d_establisher_frame : Z; target_ip : Z;
  context_record : Z; language_handler : Z; d_handler_data : Z; history_table : Z; scope_index : Z; fill0 : Z
}.
Definition dispatcher_size : nat := 80.
Definition dispatcher_bytes (d : dispatcher_context64) : list Z :=
  flat_map (le_bytes 8) [control_pc d; image_base d; d_function_entry d; d_establisher_frame d; target_ip d;
    context_record d; language_handler d; d_handler_data d; history_table d] ++ le_bytes 4 (scope_index d) ++ le_bytes 4 (fill0 d).
Definition word_in (l : list Z) (i n : nat) : Z := le_val (take n (drop i l)).
Definition dispatcher_of (l : list Z) : dispatcher_context64 :=
  DispatcherContext (word_in l 0 8) (word_in l 8 8) (word_in l 16 8) (word_in l 24 8) (word_in l 32 8) (word_in l 40 8)
    (word_in l 48 8) (word_in l 56 8) (word_in l 64 8) (word_in l 72 4) (word_in l 76 4).

(** _EXCEPTION_RECORD: code, flags, chained record, address, parameters. *)
Definition record_size : Z := 0x98.
Definition record_bytes (info : exception_info) : list Z :=
  let violation := e_code info =? status_access_violation in
  le_bytes 4 (e_code info) ++ le_bytes 4 0 ++ le_bytes 8 0 ++ le_bytes 8 (exception_address info) ++
  le_bytes 4 (if violation then 2 else 0) ++ le_bytes 4 0 ++
  le_bytes 8 0 ++ le_bytes 8 (if violation then fault_address info else 0) ++ replicate 104 0.

(** ** The cpu and the memory it runs on

    [regs_] is every register but the two named; [rest_] what else the guest can
    change; [unwinder_] whether the first fault found an image to unwind by. *)
Record machine (R W : Type) : Type := Machine {
  pc_ : Z; sp_ : Z; regs_ : R; mem_ : gmem; rest_ : W; unwinder_ : option bool
}.
Arguments Machine {R W} _ _ _ _ _ _.
Arguments pc_ {R W} _.
Arguments sp_ {R W} _.
Arguments regs_ {R W} _.
Arguments mem_ {R W} _.
Arguments rest_ {R W} _.
Arguments unwinder_ {R W} _.

Section Exception.
Context {R W Mod : Type}.
Abbreviation mach := (machine R W).
Abbreviation mst := (st mach).

Definition set_pc (v : Z) (s : mach) : mach := Machine v (sp_ s) (regs_ s) (mem_ s) (rest_ s) (unwinder_ s).
Definition set_sp (v : Z) (s : mach) : mach := Machine (pc_ s) v (regs_ s) (mem_ s) (rest_ s) (unwinder_ s).
Definition set_mem (m : gmem) (s : mach) : mach := Machine (pc_ s) (sp_ s) (regs_ s) m (rest_ s) (unwinder_ s).
Definition set_regs (r : R) (s : mach) : mach := Machine (pc_ s) (sp_ s) r (mem_ s) (rest_ s) (unwinder_ s).
Definition set_unwinder (u : option bool) (s : mach) : mach := Machine (pc_ s) (sp_ s) (regs_ s) (mem_ s) (rest_ s) u.

Definition on_mem {A} (f : gst A) : mst A := fun s => let '(r, m) := f (mem_ s) in (r, set_mem m s).

(** What an image says, what its unwinder does with a frame, and where its load
    configuration puts the security cookie. *)
Record image_reader : Type := ImageReader {
  module_addr : Mod -> Z;
  find_module : W -> Z -> option Mod;
  has_unwinder : Mod -> bool;
  context_from_vcpu : mach -> unwind_context;
  unwind : memory -> Mod -> unwind_context -> outcome (bool * unwind_result * unwind_context);
  cookie_rva : Mod -> option Z
}.

(** The target: the flags it clears when it takes an exception, the address that
    faulted, the bytes of a CONTEXT, and the guest's code from the current pc until
    it comes back to the trampoline, with the arguments it is given. *)
Record target : Type := Target {
  on_exception : R -> R;
  fault_addr : mach -> Z;
  context_size : Z;
  capture_context : mach -> list Z;
  run : list Z -> mst Z;
  emulate_privileged_insn : mst bool;
  setup_exception_frame : Z -> exception_info -> mst bool;
  end_thread : Z -> mst unit
}.

(** The kernel: the memory of the user process the thread belongs to, if it is
    one, its exception dispatcher, and whether an emulator is attached. *)
Record kernel : Type := Kernel {
  user_fault : option (Z -> mst bool);
  dispatcher : W -> option Z;
  emulator : bool;
  on_thread : bool
}.

Context (img : image_reader) (tgt : target) (ker : kernel).

(** ** /GS handlers *)

Definition gs_stub : list Z := [0x48; 0x83; 0xEC; 0x28; 0x4D; 0x8B; 0x41; 0x38; 0x48; 0x8B; 0xCA; 0x49; 0x8B; 0xD1; 0xE8].

Fixpoint stub_matches (a : Z) (stub : list Z) : gst bool :=
  match stub with
  | [] => ret true
  | c :: stub => let! b := read_byte a in if negb (b =? c) then ret false else stub_matches (a + 1) stub
  end.
Definition is_gs_handler (handler : Z) : gst bool := if handler =? 0 then ret false else stub_matches handler gs_stub.

Definition read_u64 (a : Z) : gst Z := let! l := read_mem a 8 in ret (le_val l).
Definition read_u32 (a : Z) : gst Z := let! l := read_mem a 4 in ret (le_val l).

Fixpoint any_cookie (candidates : list Z) (expected : Z) : gst bool :=
  match candidates with
  | [] => ret false
  | gs :: t =>
      if gs =? 0 then any_cookie t expected
      else let! v := read_u64 gs in if v =? expected then ret true else any_cookie t expected
  end.

(** The comparison a /GS handler makes; its answer is only logged. *)
Definition gs_check (m : Mod) (r : unwind_result) : gst bool :=
  match cookie_rva img m with
  | None => ret false
  | Some rva =>
      let! expected := read_u64 (module_addr img m +w rva) in
      if handler_data r =? 0 then ret false else
      let! data := read_u32 (handler_data r) in
      any_cookie [establisher_frame r -w data; establisher_frame r +w Z.land data (Z.lnot 1)] expected
  end.

(** ** Calling a guest routine *)

Definition red_zone : Z := 0x100.
Definition scratch_base (s : mach) (size : Z) : Z := Z.land (sp_ s -w (red_zone + size)) (Z.lnot 0xF).

(** Every register is put back when the routine returns. *)
Definition call (routine : Z) (args : list Z) (scratch : Z) : mst Z := fun s =>
  match run tgt args (set_pc routine (set_sp (scratch_base s scratch) s)) with
  | (Ok r, s') => (Ok r, Machine (pc_ s) (sp_ s) (regs_ s) (mem_ s') (rest_ s') (unwinder_ s'))
  | (Throw e, s') => (Throw e, s')
  end.

(** A zeroed CONTEXT, then the cpu's registers in it. *)
Definition write_context (a : Z) : mst unit :=
  on_mem (write_mem a (replicate (Z.to_nat (context_size tgt)) 0)) ;;
  let! s := get in
  on_mem (write_mem a (capture_context tgt s)).

Record dispatch_frame : Type := DispatchFrame { f_record : Z; f_context : Z; f_dispatcher : Z; f_scratch : Z }.

Definition frame_at (s : mach) : dispatch_frame :=
  let scratch := record_size + context_size tgt + Z.of_nat dispatcher_size + 0x40 in
  let record_addr := scratch_base s scratch in
  let context_addr := Z.land (record_addr +w (record_size + 0xF)) (Z.lnot 0xF) in
  let dispatcher_addr := Z.land (context_addr +w (context_size tgt + 0xF)) (Z.lnot 0xF) in
  DispatchFrame record_addr context_addr dispatcher_addr scratch.

Definition build_dispatch_frame (info : exception_info) : mst dispatch_frame := fun s =>
  let f := frame_at s in
  (on_mem (write_mem (f_record f) (record_bytes info)) ;;
   write_context (f_context f) ;;
   ret f) s.

(** ** Delivery to the dispatcher of a user process

    The two implementations of [setup_exception_frame], of x86_win.hpp and
    arm64_win.hpp: a context where the dispatcher's stack will be, the record above
    it, and on x86-64 a machine frame above that. *)

Definition x86_record_offset : Z := 0x4F0.
Definition machine_frame_offset : Z := 0x590.
Definition machine_frame_size : Z := 40.
Definition user_cs : Z := 0x33.
Definition user_ds : Z := 0x2B.
Definition machine_frame (rip eflags rsp : Z) : list Z := flat_map (le_bytes 8) [rip; user_cs; eflags; rsp; user_ds].

Definition x86_setup_exception_frame (rflags : R -> Z) (disp : Z) (info : exception_info) : mst bool :=
  let! s := get in
  let context_addr := Z.land (sp_ s -w (0x100 + (machine_frame_offset + machine_frame_size))) (Z.lnot 0xF) in
  write_context context_addr ;;
  on_mem (write_mem (context_addr +w x86_record_offset) (record_bytes info)) ;;
  on_mem (write_mem (context_addr +w machine_frame_offset) (machine_frame (exception_address info) (rflags (regs_ s)) (sp_ s))) ;;
  modify (set_sp context_addr) ;;
  modify (set_pc disp) ;;
  ret true.

Definition arm64_record_offset : Z := 0x3B0.
Definition arm64_context_full : Z := 0x400007.

Definition arm64_setup_exception_frame (disp : Z) (info : exception_info) : mst bool :=
  let! s := get in
  let frame := Z.land (arm64_record_offset + record_size + 0xF) (Z.lnot 0xF) in
  let context_addr := Z.land (sp_ s -w (0x100 + frame)) (Z.lnot 0xF) in
  write_context context_addr ;;
  on_mem (write_mem context_addr (le_bytes 4 arm64_context_full)) ;;
  on_mem (write_mem (context_addr +w arm64_record_offset) (record_bytes info)) ;;
  modify (set_sp context_addr) ;;
  modify (set_pc disp) ;;
  ret true.

(** ** The search *)

(** Where the unwinder reads its words. *)
Definition words (m : gmem) : memory := fun a => match read_mem a 8 m with (Ok l, _) => Some (le_val l) | (Throw _, _) => None end.

Definition unwind_frame (m : Mod) (c : unwind_context) : mst (bool * unwind_result * unwind_context) := fun s =>
  match unwind img (words (mem_ s)) m c with
  | Done r => (Ok r, s)
  | Faulted => (Throw unmapped_va, s)
  | Looping => (Throw out_of_fuel, s)
  end.

Definition dispatcher_for (m : Mod) (pc : Z) (r : unwind_result) (context : Z) : dispatcher_context64 :=
  DispatcherContext pc (module_addr img m) (function_entry r) (establisher_frame r) 0 context (handler r) (handler_data r) 0 0 0.

(** One handler is asked; [None] when it passes the exception on.  The log line
    before the call reads the first word of the handler's data. *)
Definition ask (info : exception_info) (m : Mod) (pc : Z) (r : unwind_result) (original_pc saved_pc saved_sp : Z) : mst (option bool) :=
  let! frame := build_dispatch_frame info in
  on_mem (write_mem (f_dispatcher frame) (dispatcher_bytes (dispatcher_for m pc r (f_context frame)))) ;;
  (if handler_data r =? 0 then ret 0 else on_mem (read_u32 (handler_data r))) ;;
  let! answer := call (handler r) [f_record frame; establisher_frame r; f_context frame; f_dispatcher frame] (f_scratch frame) in
  let disposition := s32 answer in
  let! answered := on_mem (read_mem (f_dispatcher frame) dispatcher_size) in
  let answered := dispatcher_of answered in
  if (disposition =? exception_execute_handler) && negb (target_ip answered =? 0) then
    modify (set_pc (target_ip answered)) ;; modify (set_sp (d_establisher_frame answered)) ;; ret (Some true)
  else if disposition =? exception_continue_execution then
    modify (set_pc original_pc) ;; modify (set_sp saved_sp) ;; ret (Some true)
  else
    modify (set_pc saved_pc) ;; modify (set_sp saved_sp) ;; ret None.

(** Up to [n] frames; [None] when no frame took the exception. *)
Fixpoint dispatch_loop (n : nat) (above : bool) (info : exception_info) (original_pc saved_pc saved_sp : Z) (c : unwind_context) : mst (option bool) :=
  match n with
  | O => ret None
  | S n =>
      let c := if above then Unwind.set_pc (pc c -w 1) c else c in
      let! s := get in
      match find_module img (rest_ s) (pc c) with
      | None => ret None
      | Some m =>
          let control := pc c in
          let! u := unwind_frame m c in
          let '(unwound, r, c) := u in
          if negb unwound then ret None
          else if handler r =? 0 then dispatch_loop n true info original_pc saved_pc saved_sp c
          else
            let! gs := on_mem (is_gs_handler (handler r)) in
            if gs then on_mem (gs_check m r) ;; dispatch_loop n true info original_pc saved_pc saved_sp c
            else if negb (emulator ker) then ret None
            else
              let! v := ask info m control r original_pc saved_pc saved_sp in
              match v with
              | Some b => ret (Some b)
              | None => dispatch_loop n true info original_pc saved_pc saved_sp c
              end
      end
  end.

(** ** [win_exception::handle] *)

Definition handle_page_fault : mst bool :=
  match user_fault ker with
  | None => ret false
  | Some handle_fault => let! s := get in handle_fault (fault_addr tgt s)
  end.

Definition is_user : bool := match user_fault ker with Some _ => true | None => false end.

(** [std::call_once]: the unwinder is made of the module of the first fault. *)
Definition make_unwinder_once (m : Mod) : mst bool := fun s =>
  match unwinder_ s with
  | Some u => (Ok u, s)
  | None => (Ok (has_unwinder img m), set_unwinder (Some (has_unwinder img m)) s)
  end.

Definition unclaimed (ex : cpu_exception) : mst bool :=
  if decide (ex = debug) then
    if is_user && on_thread ker then end_thread tgt status_single_step ;; ret true else ret true
  else ret false.

Definition deliver_to_user (info : exception_info) : mst bool :=
  let! s := get in
  match dispatcher ker (rest_ s), emulator ker with
  | Some d, true => setup_exception_frame tgt d info
  | _, _ => ret false
  end.

Definition search_frames (ex : cpu_exception) (info : exception_info) (original_pc : Z) : mst bool :=
  let! s := get in
  match find_module img (rest_ s) original_pc with
  | None => ret false
  | Some m =>
      let! made := make_unwinder_once m in
      if negb made then ret false else
      let! s := get in
      let! v := dispatch_loop 64 false info original_pc (pc_ s) (sp_ s) (context_from_vcpu img s) in
      match v with Some b => ret b | None => unclaimed ex end
  end.

Definition handle (ex : cpu_exception) : mst bool :=
  let! served := (if decide (ex = page_fault) then handle_page_fault else ret false) in
  if served then ret true else
  let! emulated := (if decide (ex = illegal_instruction) then if emulator ker then emulate_privileged_insn tgt else ret false else ret false) in
  if emulated then ret true else
  let! s := get in
  let original_pc := pc_ s in
  modify (fun s => set_regs (on_exception tgt (regs_ s)) s) ;;
  let! s := get in
  let info := ExceptionInfo (exception_to_status ex) original_pc (fault_addr tgt s) in
  if is_user then deliver_to_user info else search_frames ex info original_pc.

End Exception.
