(* ===== verification/ExceptionThm.v ===== *)
(** * Exception dispatch: the theorems

    Which frames are asked, what each handler is given, and where the guest goes
    on, for any unwinder and whatever the handlers do to their own stack. *)

From S2P Require Import Prelude Mmu Unwind GuestMem Exception.
From stdpp Require Import list.
From stdpp Require Import options.

Open Scope Z_scope.
Open Scope kern_scope.

(** ** Writes and their range *)

Lemma write_mem_outside l : forall a m x, 0 <= a -> a + Z.of_nat (length l) <= 2 ^ 64 -> ~ a <= x < a + Z.of_nat (length l) ->
  (write_mem a l m).2 x = m x.
Proof.
  induction l as [|b l IH]; intros a m x Ha Hb Hx; [done|]. cbn [write_mem length] in *. unfold bind, write_byte.
  rewrite u64_small by (unfold in_u64; lia). destruct (m a) as [b0|]; [|done].
  rewrite IH by lia. cbn. by destruct (Z.eqb_spec x a); [lia|].
Qed.

Lemma land_15 x : Z.land x (Z.lnot 0xF) = align_down x 16.
Proof. done. Qed.

(** The search of [search_scope_table] and the unwinder read, they do not write. *)
Lemma read_mem_same n : forall a m, (read_mem a n m).2 = m.
Proof.
  induction n as [|n IH]; intros a m; [done|]. cbn [read_mem]. unfold bind, read_byte. destruct (m (u64 a)); [|done].
  pose proof (IH (a + 1) m) as H. by destruct (read_mem (a + 1) n m) as [[l|e] m'].
Qed.

(** [m'] has the bytes of [m] from [lo] up. *)
Definition kept_from (lo : Z) (m m' : gmem) : Prop := forall x, lo <= x -> m' x = m x.

(** [m'] has the bytes of [m] where [P] says. *)
Definition kept_on (P : Z -> Prop) (m m' : gmem) : Prop := forall x, P x -> m' x = m x.

Section Thm.
Context {R W Mod : Type} (img : @image_reader R W Mod) (tgt : @target R W) (ker : @kernel R W).
Abbreviation mach := (machine R W).
Implicit Types (s : mach).

Lemma set_mem_same s : set_mem (mem_ s) s = s.
Proof. by destruct s. Qed.
Lemma on_mem_run {A} (f : gst A) s : @on_mem R W A f s = ((f (mem_ s)).1, set_mem (f (mem_ s)).2 s).
Proof. unfold on_mem. by destruct (f (mem_ s)). Qed.

(** ** The frame a handler is called with *)

Definition deep_enough s : Prop := 0 <= context_size tgt /\ 0x1000 + context_size tgt <= sp_ s < 2 ^ 64.

Record layout (f : dispatch_frame) (top : Z) : Prop := {
  ly_low : 0 < f_record f;
  ly_aligned : f_record f mod 16 = 0 /\ f_context f mod 16 = 0 /\ f_dispatcher f mod 16 = 0;
  ly_record : f_record f + record_size <= f_context f;
  ly_context : f_context f + context_size tgt <= f_dispatcher f;
  ly_dispatcher : f_dispatcher f + Z.of_nat dispatcher_size <= top
}.

Lemma frame_layout s : deep_enough s -> layout (frame_at tgt s) (sp_ s - red_zone) /\ scratch_base s (f_scratch (frame_at tgt s)) = f_record (frame_at tgt s).
Proof.
  intros [H1 H2]. split; [|done]. unfold frame_at, scratch_base, record_size, dispatcher_size, red_zone. rewrite !land_15.
  set (c := context_size tgt) in *. rewrite (u64_small (sp_ s - _)) by (unfold in_u64; lia).
  change (Z.of_nat 80) with 80. set (x := sp_ s - (0x100 + (0x98 + c + 80 + 0x40))). assert (x = sp_ s - c - 0x228) as Ex by (unfold x; lia). clearbody x.
  pose proof (align_down_bounds x 16 pow2_16) as B1. pose proof (align_down_mod x 16 pow2_16) as M1.
  rewrite (u64_small (align_down x 16 + _)) by (unfold in_u64; lia).
  set (y := align_down x 16 + (0x98 + 0xF)). assert (y = align_down x 16 + 0xA7) as Ey by done. clearbody y. pose proof (align_down_bounds y 16 pow2_16) as B2. pose proof (align_down_mod y 16 pow2_16) as M2.
  rewrite (u64_small (align_down y 16 + _)) by (unfold in_u64; lia).
  set (z := align_down y 16 + (c + 0xF)). assert (z = align_down y 16 + c + 0xF) as Ez by (unfold z; lia). clearbody z. pose proof (align_down_bounds z 16 pow2_16) as B3. pose proof (align_down_mod z 16 pow2_16) as M3.
  split; cbn [f_record f_context f_dispatcher]; change (Z.of_nat dispatcher_size) with 80; unfold record_size; fold c; [lia|done|lia|lia|lia].
Qed.

Lemma frame_at_sp s s' : sp_ s' = sp_ s -> frame_at tgt s' = frame_at tgt s.
Proof. intros E. unfold frame_at, scratch_base. by rewrite E. Qed.

Lemma length_record_bytes info : Z.of_nat (length (record_bytes info)) = record_size.
Proof. unfold record_bytes. rewrite !length_app, !length_le_bytes, length_replicate. done. Qed.
Lemma length_dispatcher_bytes d : length (dispatcher_bytes d) = dispatcher_size.
Proof. unfold dispatcher_bytes. rewrite !length_app, !length_le_bytes. done. Qed.
Lemma length_machine_frame a b c : Z.of_nat (length (machine_frame a b c)) = machine_frame_size.
Proof. done. Qed.

(** A state with the same cpu, and the memory of [P]. *)
Record same_cpu (P : Z -> Prop) s s' : Prop := {
  sc_pc : pc_ s' = pc_ s;
  sc_sp : sp_ s' = sp_ s;
  sc_regs : regs_ s' = regs_ s;
  sc_modules : find_module img (rest_ s') = find_module img (rest_ s);
  sc_mem : kept_on P (mem_ s) (mem_ s')
}.
Lemma same_cpu_refl P s : same_cpu P s s.
Proof. by split. Qed.
Lemma same_cpu_trans P s1 s2 s3 : same_cpu P s1 s2 -> same_cpu P s2 s3 -> same_cpu P s1 s3.
Proof. intros [A1 A2 A3 A4 A5] [B1 B2 B3 B4 B5]. split; try congruence. intros x Hx. by rewrite B5, A5. Qed.

(** Whichever way it ends, [f] leaves the cpu and the memory of [P]. *)
Definition quiet {A} (P : Z -> Prop) (f : st mach A) : Prop := forall s, same_cpu P s (f s).2.

Lemma quiet_ret {A} P (a : A) : quiet P (ret a).
Proof. intros s. apply same_cpu_refl. Qed.
Lemma quiet_bind {A B} P (f : st mach A) (g : A -> st mach B) : quiet P f -> (forall a, quiet P (g a)) -> quiet P (bind f g).
Proof.
  intros Hf Hg s. specialize (Hf s). unfold bind. destruct (f s) as [[a|e] s']; [|done]. eapply same_cpu_trans; [exact Hf|apply Hg].
Qed.
Lemma quiet_get P : quiet P (@get mach).
Proof. intros s. apply same_cpu_refl. Qed.
Lemma quiet_read {A} P (f : gst A) : (forall m, (f m).2 = m) -> quiet P (on_mem f).
Proof. intros H s. rewrite on_mem_run. cbn. rewrite H. by split. Qed.
(** [P] is no part of what is below [lo]. *)
Definition above (lo : Z) (P : Z -> Prop) : Prop := forall x, P x -> lo <= x.

Lemma quiet_write P lo a l : above lo P -> 0 <= a -> a + Z.of_nat (length l) <= lo -> lo <= 2 ^ 64 -> quiet P (on_mem (write_mem a l)).
Proof.
  intros HP Ha Hb Hl s. rewrite on_mem_run. cbn. split; try done. intros x Hx%HP. cbn. apply write_mem_outside; lia.
Qed.

Lemma bind_cong {S A B} (f : st S A) (g g' : A -> st S B) (x : S) :
  (forall a x', f x = (Ok a, x') -> g a x' = g' a x') -> bind f g x = bind f g' x.
Proof. intros H. unfold bind. destruct (f x) as [[a|e] x'] eqn:E; [by apply H|done]. Qed.

(** What the handlers of a stack at [lo] leave alone, called with the frame that is
    written below it and running on the stack below that: the bytes of [P], and the
    modules.  Their own stack, from the return address down, is theirs, and so is the
    frame and whatever else is outside [P]. *)
Definition well_behaved (P : Z -> Prop) (lo : Z) : Prop := forall s0 s establisher, sp_ s0 = lo ->
  let f := frame_at tgt s0 in
  let s' := (run tgt [f_record f; establisher; f_context f; f_dispatcher f] s).2 in
  sp_ s = f_record f -> kept_on P (mem_ s) (mem_ s') /\ find_module img (rest_ s') = find_module img (rest_ s).
Definition contexts_fit : Prop := forall s, Z.of_nat (length (capture_context tgt s)) = context_size tgt.

Lemma quiet_write_context P lo a : above lo P -> contexts_fit -> 0 <= context_size tgt -> 0 <= a -> a + context_size tgt <= lo -> lo <= 2 ^ 64 -> quiet P (write_context tgt a).
Proof.
  intros HP Hc H0 Ha Hb Hl. unfold write_context.
  apply quiet_bind; [apply (quiet_write P lo); rewrite ?length_replicate; auto; lia|]. intros _.
  apply quiet_bind; [apply quiet_get|]. intros s. apply (quiet_write P lo); rewrite ?Hc; auto; lia.
Qed.

Lemma quiet_build P info s : above (sp_ s) P -> contexts_fit -> deep_enough s -> same_cpu P s (build_dispatch_frame tgt info s).2.
Proof.
  intros HP Hc Hd. destruct (frame_layout s Hd) as [[L1 L2 L3 L4 L5] _]. destruct Hd as [D1 D2]. unfold build_dispatch_frame.
  set (f := frame_at tgt s) in *. unfold dispatcher_size, record_size, red_zone in *.
  refine (quiet_bind P (on_mem (write_mem (f_record f) (record_bytes info))) _ _ _ s).
  - apply (quiet_write P (sp_ s)); rewrite ?length_record_bytes; unfold record_size; auto; lia.
  - intros _. apply quiet_bind; [apply (quiet_write_context P (sp_ s)); try done; lia|]. intros _. apply quiet_ret.
Qed.

Lemma build_returns info s f s' : build_dispatch_frame tgt info s = (Ok f, s') -> f = frame_at tgt s.
Proof.
  unfold build_dispatch_frame. intros H. apply bind_inv_ok in H as (u & s1 & _ & H).
  apply bind_inv_ok in H as (v & s2 & _ & H). unfold ret in H. congruence.
Qed.

Lemma call_same P s1 s routine establisher r s' : let f := frame_at tgt s1 in
  deep_enough s1 -> well_behaved P (sp_ s1) -> sp_ s = sp_ s1 ->
  call tgt routine [f_record f; establisher; f_context f; f_dispatcher f] (f_scratch f) s = (Ok r, s') -> same_cpu P s s'.
Proof.
  intros f Hd Hw Hsp. unfold call. destruct (frame_layout s1 Hd) as [_ E]. fold f in E.
  destruct (Hw s1 (set_pc routine (set_sp (scratch_base s (f_scratch f)) s)) establisher eq_refl) as [H1 H2].
  { cbn. unfold scratch_base in *. by rewrite Hsp. }
  fold f in H1, H2. destruct (run tgt _ _) as [[x|e] s2]; [|done]. intros [= <- <-]. by split.
Qed.

(** What asking one handler comes to. *)
Definition asked (P : Z -> Prop) (original : Z) s (v : option bool) s' : Prop :=
  match v with
  | None => same_cpu P s s'
  | Some b => b = true /\ regs_ s' = regs_ s /\
      ((pc_ s' = original /\ sp_ s' = sp_ s) \/
       exists l, read_mem (f_dispatcher (frame_at tgt s)) dispatcher_size (mem_ s') = (Ok l, mem_ s') /\
         target_ip (dispatcher_of l) <> 0 /\ pc_ s' = target_ip (dispatcher_of l) /\ sp_ s' = d_establisher_frame (dispatcher_of l))
  end.

Lemma ask_outcome P info m pc0 r original s v s' :
  above (sp_ s) P -> contexts_fit -> well_behaved P (sp_ s) -> deep_enough s ->
  ask img tgt info m pc0 r original (pc_ s) (sp_ s) s = (Ok v, s') -> asked P original s v s'.
Proof.
  intros HP Hc Hw Hd H. destruct (frame_layout s Hd) as [[L1 L2 L3 L4 L5] _]. pose proof Hd as [D1 D2]. unfold ask in H.
  apply bind_inv_ok in H as (f & s1 & E1 & H). pose proof (build_returns _ _ _ _ E1) as ->.
  pose proof (quiet_build P info s HP Hc Hd) as S1. rewrite E1 in S1. cbn [snd] in S1. set (f := frame_at tgt s) in *.
  unfold record_size, red_zone in *. change (Z.of_nat dispatcher_size) with 80 in L5.
  apply bind_inv_ok in H as (u & s2 & E2 & H). set (d := dispatcher_bytes _) in *.
  assert (same_cpu P s s2) as S2.
  { eapply same_cpu_trans; [exact S1|]. pose proof (quiet_write P (sp_ s) (f_dispatcher f) d HP) as Q. unfold quiet in Q.
    specialize (Q ltac:(lia) ltac:(unfold d; rewrite length_dispatcher_bytes; change (Z.of_nat dispatcher_size) with 80; lia) ltac:(lia) s1). by rewrite E2 in Q. }
  apply bind_inv_ok in H as (u' & s3 & E3 & H).
  assert (same_cpu P s s3) as S3.
  { eapply same_cpu_trans; [exact S2|]. destruct (handler_data r =? 0); [injection E3 as _ <-; apply same_cpu_refl|].
    pose proof (quiet_read P (read_u32 (handler_data r))) as Q. specialize (Q ltac:(intros mm; unfold read_u32, bind; pose proof (read_mem_same 4 (handler_data r) mm); by destruct (read_mem _ 4 mm) as [[?|?] ?]) s2).
    by rewrite E3 in Q. }
  apply bind_inv_ok in H as (answer & s4 & E4 & H).
  assert (same_cpu P s s4) as S4.
  { eapply same_cpu_trans; [exact S3|]. eapply (call_same P s); [done|done| |exact E4]. by apply S3. }
  apply bind_inv_ok in H as (l & s5 & E5 & H).
  rewrite on_mem_run in E5. pose proof (read_mem_same dispatcher_size (f_dispatcher f) (mem_ s4)) as Hr.
  pose proof (f_equal snd E5) as Es. apply (f_equal fst) in E5. cbn [fst snd] in E5, Es. rewrite Hr in Es.
  assert (s5 = s4) as -> by (rewrite <- Es; apply set_mem_same). clear Es.
  assert (read_mem (f_dispatcher f) dispatcher_size (mem_ s4) = (Ok l, mem_ s4)) as Hread.
  { rewrite (surjective_pairing (read_mem _ _ _)). rewrite Hr. f_equal. exact E5. }
  destruct S4 as [P1 P2 P3 P4 P5]. cbv zeta in H.
  destruct (_ && _) eqn:Ex.
  - unfold bind, modify, ret in H. injection H as <- <-. cbn. split; [done|]. split; [done|]. right. exists l.
    apply andb_true_iff in Ex as [_ Ex]. apply negb_true_iff, Z.eqb_neq in Ex. done.
  - destruct (_ =? exception_continue_execution); unfold bind, modify, ret in H; injection H as <- <-; cbn.
    + split; [done|]. split; [done|]. by left.
    + by split.
Qed.
End Thm.
