(* ===== verification/ExceptionClaims.v ===== *)
(** * Exception dispatch: which frames are asked, and what a handler is given *)

From S2P Require Import Prelude Mmu Unwind GuestMem Exception ExceptionThm.
From stdpp Require Import list.
From stdpp Require Import options.

Open Scope Z_scope.
Open Scope kern_scope.

Section Claims.
Context {R W Mod : Type} (img : @image_reader R W Mod) (tgt : @target R W) (ker : @kernel R W).
Abbreviation mach := (machine R W).
Implicit Types (s : mach).

(** ** The frames of a stack

    A frame by the module and pc it stands at, what unwinding it said, and the
    context of its caller.  The list ends where no module is, where unwinding says
    so, or where it faults. *)
Record visit : Type := Visit { v_module : Mod; v_pc : Z; v_result : unwind_result; v_after : unwind_context }.

Fixpoint frames_of (n : nat) (above : bool) (find : Z -> option Mod) (mem : memory) (c : unwind_context) : list visit * option error :=
  match n with
  | O => ([], None)
  | S n =>
      let c := if above then Unwind.set_pc (pc c -w 1) c else c in
      match find (pc c) with
      | None => ([], None)
      | Some m =>
          match unwind img mem m c with
          | Done (true, r, c') => let '(l, e) := frames_of n true find mem c' in (Visit m (pc c) r c' :: l, e)
          | Done (false, _, _) => ([], None)
          | Faulted => ([], Some unmapped_va)
          | Looping => ([], Some out_of_fuel)
          end
      end
  end.

(** The reference: ask the handlers of the frames in order, leaving out the frames
    that have none and the cookie checks. *)
Fixpoint search (info : exception_info) (original_pc saved_pc saved_sp : Z) (vs : list visit) (last : option error) : st mach (option bool) :=
  match vs with
  | [] => match last with None => ret None | Some e => throw e end
  | v :: vs =>
      if handler (v_result v) =? 0 then search info original_pc saved_pc saved_sp vs last
      else
        let! gs := on_mem (is_gs_handler (handler (v_result v))) in
        if gs then on_mem (gs_check img (v_module v) (v_result v)) ;; search info original_pc saved_pc saved_sp vs last
        else
          let! answer := ask img tgt info (v_module v) (v_pc v) (v_result v) original_pc saved_pc saved_sp in
          match answer with Some b => ret (Some b) | None => search info original_pc saved_pc saved_sp vs last end
  end.

Lemma stub_reads l : forall a m, (stub_matches a l m).2 = m.
Proof.
  induction l as [|b l IH]; intros a m; [done|]. cbn [stub_matches]. unfold bind, read_byte. destruct (m (u64 a)); [|done].
  destruct (negb _); [done|apply IH].
Qed.
Lemma read_word_same n a m : ((let! l := read_mem a n in ret (le_val l)) m).2 = m.
Proof. unfold bind. pose proof (read_mem_same n a m). by destruct (read_mem a n m) as [[?|?] ?]. Qed.
Lemma gs_reads h m : (is_gs_handler h m).2 = m.
Proof. unfold is_gs_handler. destruct (h =? 0); [done|apply stub_reads]. Qed.
Lemma cookie_reads l e m : (any_cookie l e m).2 = m.
Proof.
  induction l as [|a l IH]; [done|]. cbn [any_cookie]. destruct (a =? 0); [done|]. unfold bind.
  pose proof (read_word_same 8 a m) as H. unfold read_u64. destruct ((let! l := read_mem a 8 in ret (le_val l)) m) as [[v|?] ?]; cbn in H; subst; [|done].
  by destruct (v =? e).
Qed.
Lemma check_reads md r m : (gs_check img md r m).2 = m.
Proof.
  unfold gs_check. destruct (cookie_rva img md) as [rva|]; [|done]. unfold bind at 1. pose proof (read_word_same 8 (module_addr img md +w rva) m) as H.
  unfold read_u64. destruct ((let! l := read_mem _ 8 in ret (le_val l)) m) as [[v|?] m1]; cbn in H; subst m1; [|done].
  destruct (_ =? 0); [done|]. unfold bind at 1. pose proof (read_word_same 4 (handler_data r) m) as H.
  unfold read_u32. destruct ((let! l := read_mem _ 4 in ret (le_val l)) m) as [[d|?] m1]; cbn in H; subst m1; [|done]. apply cookie_reads.
Qed.

(** A read of memory, in a state. *)
Lemma on_mem_reads {A} (f : gst A) s a s' : (forall m, (f m).2 = m) -> on_mem f s = (Ok a, s') -> s' = s.
Proof. intros Hf. rewrite on_mem_run, Hf, set_mem_same. congruence. Qed.

(** The loop asks the frames of the stack as it was when the fault came. *)
Lemma dispatch_loop_search (P : Z -> Prop) (m0 : gmem) (find0 : Z -> option Mod) info original pc0 sp0 n : forall first c s F,
  above sp0 P -> contexts_fit tgt -> well_behaved img tgt P sp0 -> emulator ker = true ->
  deep_enough tgt s -> pc_ s = pc0 -> sp_ s = sp0 -> kept_on P m0 (mem_ s) -> find_module img (rest_ s) = find0 ->
  (forall m', kept_on P m0 m' -> frames_of n first find0 (words m') c = F) ->
  dispatch_loop img tgt ker n first info original pc0 sp0 c s = search info original pc0 sp0 F.1 F.2 s.
Proof.
  induction n as [|n IH]; intros first c s F HP Hc Hw He Hd Hp Hs Hm Hf HF; pose proof (HF (mem_ s) Hm) as E; cbn [frames_of] in E; [by subst F|].
  cbn [dispatch_loop]. set (c1 := if first then _ else c) in *. unfold bind at 1, get at 1. rewrite Hf.
  destruct (find0 (pc c1)) as [md|] eqn:Efind; [|by subst F]. unfold bind at 1, unwind_frame.
  destruct (unwind img (words (mem_ s)) md c1) as [[[[|] r] c2]| |] eqn:Eu; [|by subst F..].
  cbn [negb]. set (T := frames_of n true find0 (words (mem_ s)) c2) in *.
  assert (forall m', kept_on P m0 m' -> frames_of n true find0 (words m') c2 = T) as HT.
  { intros m' Hm'. specialize (HF m' Hm'). cbn [frames_of] in HF. fold c1 in HF. rewrite Efind in HF. subst F.
    destruct (unwind img (words m') md c1) as [[[[|] r'] c2']| |]; destruct T as [tl te]; try congruence.
    destruct (frames_of n true find0 (words m') c2') as [tl' te'] eqn:E'. simplify_eq. exact E'. }
  assert (F = (Visit md (pc c1) r c2 :: T.1, T.2)) as -> by (subst F; by destruct T).
  cbn [fst snd search v_result v_module v_pc]. clear E HF Eu.
  destruct (handler r =? 0); [by apply IH|].
  apply bind_cong. intros gs s1 Eg. apply on_mem_reads in Eg as ->; [|apply gs_reads]. destruct gs.
  { apply bind_cong. intros u s2 E2. apply on_mem_reads in E2 as ->; [|apply check_reads]. by apply IH. }
  rewrite He. cbn [negb]. apply bind_cong. intros v s1 Ea. subst pc0 sp0. apply (ask_outcome img _ P) in Ea; [|done..].
  destruct v as [b|]; [done|]. destruct Ea as [A1 A2 A3 A4 A5]. apply IH; try congruence; try done.
  - destruct Hd. split; [done|]. by rewrite A2.
  - intros x Hx. rewrite A5 by done. by apply Hm.
Qed.

(** Whoever takes the exception says where to go on. *)
Lemma search_outcome P info original pc0 sp0 vs last : forall s v s',
  above sp0 P -> contexts_fit tgt -> well_behaved img tgt P sp0 -> deep_enough tgt s -> pc_ s = pc0 -> sp_ s = sp0 ->
  search info original pc0 sp0 vs last s = (Ok v, s') -> asked img tgt P original s v s'.
Proof.
  induction vs as [|w vs IH]; intros s v s' HP Hc Hw Hd Hp Hs H; cbn [search] in H.
  { destruct last; [done|]. injection H as <- <-. apply same_cpu_refl. }
  destruct (handler (v_result w) =? 0); [by apply IH|].
  apply bind_inv_ok in H as (gs & s1 & Eg & H). apply on_mem_reads in Eg as ->; [|apply gs_reads]. destruct gs.
  { apply bind_inv_ok in H as (u & s2 & E2 & H). apply on_mem_reads in E2 as ->; [|apply check_reads]. by apply IH. }
  apply bind_inv_ok in H as (a & s1 & Ea & H). subst pc0 sp0. apply (ask_outcome img _ P) in Ea; [|done..].
  destruct a as [b|]; [by injection H as <- <-|]. pose proof Ea as [A1 A2 A3 A4 A5].
  apply IH in H; [|by rewrite ?A2|done|by rewrite ?A2|destruct Hd; split; [done|by rewrite A2]|done|done].
  destruct v as [b|]; cbn [asked] in *.
  - rewrite A2, A3 in H. by rewrite (frame_at_sp _ s s1) in H.
  - by eapply same_cpu_trans.
Qed.

(** An exception of kernel code that nothing serves comes to the search. *)
Lemma handle_searches ex s :
  user_fault ker = None -> emulator ker = true ->
  (ex = illegal_instruction -> emulate_privileged_insn tgt s = (Ok false, s)) ->
  let taken := set_regs (on_exception tgt (regs_ s)) s in
  handle img tgt ker ex s =
    search_frames img tgt ker ex (ExceptionInfo (exception_to_status ex) (pc_ s) (fault_addr tgt taken)) (pc_ s) taken.
Proof.
  intros Hu He Hi taken. unfold handle, handle_page_fault, is_user. rewrite Hu, He.
  assert ((if decide (ex = page_fault) then ret false else ret false) s = (Ok false, s)) as E1 by by destruct (decide (ex = page_fault)).
  assert ((if decide (ex = illegal_instruction) then emulate_privileged_insn tgt else ret false) s = (Ok false, s)) as E2 by (destruct (decide (ex = illegal_instruction)); [by apply Hi|done]).
  unfold bind at 1. rewrite E1. unfold bind at 1. rewrite E2. done.
Qed.

(** What is done in the module [m] of the fault. *)
Definition search_with ex info original_pc (m : Mod) : st mach bool :=
  let! made := make_unwinder_once img m in
  if negb made then ret false else
  let! s := get in
  let! v := dispatch_loop img tgt ker 64 false info original_pc (pc_ s) (sp_ s) (context_from_vcpu img s) in
  match v with Some b => ret b | None => unclaimed tgt ker ex end.

Lemma search_frames_run ex info pc0 s : search_frames img tgt ker ex info pc0 s =
  match find_module img (rest_ s) pc0 with None => (Ok false, s) | Some m => search_with ex info pc0 m s end.
Proof. unfold search_frames, bind at 1, get at 1. by destruct (find_module img (rest_ s) pc0). Qed.

(** [call_once]: what was found stays; otherwise this module decides. *)
Lemma made_once m s : let u := default (has_unwinder img m) (unwinder_ s) in
  make_unwinder_once img m (set_regs (on_exception tgt (regs_ s)) s) =
    (Ok u, set_unwinder (Some u) (set_regs (on_exception tgt (regs_ s)) s)).
Proof. unfold make_unwinder_once. cbn [unwinder_ set_regs]. destruct (unwinder_ s) as [u|] eqn:E; [|done]. unfold set_regs, set_unwinder. cbn. by rewrite ?E. Qed.

Lemma unclaimed_kernel ex s : user_fault ker = None -> unclaimed tgt ker ex s = (Ok (bool_decide (ex = debug)), s).
Proof.
  intros Hu. unfold unclaimed, is_user. rewrite Hu. case_bool_decide; [by rewrite decide_True by done|by rewrite decide_False by done].
Qed.


End Claims.

(** ** What is written for a handler *)

Section Frames.
Context {R W : Type} (tgt : @target R W).
Abbreviation mach := (machine R W).
Implicit Types (s : mach).

(** [l] was written at [a]: memory alone changed, there. *)
Definition wrote (a : Z) (l : list Z) s s' : Prop := s' = set_mem (mem_ s') s /\ same (mem_ s') (splice a l (mem_ s)).

Lemma write_step a l s : 0 <= a -> a + Z.of_nat (length l) <= 2 ^ 64 -> mapped (mem_ s) a (Z.of_nat (length l)) ->
  exists s', on_mem (write_mem a l) s = (Ok tt, s') /\ wrote a l s s'.
Proof.
  intros Ha Hb Hm. destruct (write_mem_mapped l a (mem_ s) Ha Hb Hm) as (m' & E & H).
  exists (set_mem m' s). rewrite on_mem_run, E. split; [done|]. by split.
Qed.

Lemma wrote_mapped a l s s' b n : wrote a l s s' -> mapped (mem_ s) b n -> mapped (mem_ s') b n.
Proof. intros [_ H] Hm x Hx. rewrite H. by apply (splice_mapped a l _ b n). Qed.
Lemma wrote_holds a l s s' : wrote a l s s' -> holds (mem_ s') a l.
Proof. intros [_ H]. by eapply same_holds; [exact H|apply splice_holds]. Qed.
Lemma wrote_keeps a l s s' b t : wrote a l s s' -> b + Z.of_nat (length t) <= a \/ a + Z.of_nat (length l) <= b -> holds (mem_ s) b t -> holds (mem_ s') b t.
Proof.
  intros [_ H] Hd Ht i c Hi. rewrite H, splice_out; [by apply Ht|]. apply lookup_lt_Some in Hi. lia.
Qed.
Lemma wrote_outside a l s s' x : wrote a l s s' -> ~ a <= x < a + Z.of_nat (length l) -> mem_ s' x = mem_ s x.
Proof. intros [_ H] Hx. rewrite H. by apply splice_out. Qed.
Lemma wrote_cpu a l s s' : wrote a l s s' -> pc_ s' = pc_ s /\ sp_ s' = sp_ s /\ regs_ s' = regs_ s /\ rest_ s' = rest_ s.
Proof. intros [-> _]. done. Qed.

(** A CONTEXT of the cpu as it is. *)
Record context_written (a : Z) s s' : Prop := {
  cw_bytes : exists q, pc_ q = pc_ s /\ sp_ q = sp_ s /\ regs_ q = regs_ s /\ holds (mem_ s') a (capture_context tgt q);
  cw_cpu : pc_ s' = pc_ s /\ sp_ s' = sp_ s /\ regs_ s' = regs_ s /\ rest_ s' = rest_ s;
  cw_mapped : forall b n, mapped (mem_ s) b n -> mapped (mem_ s') b n;
  cw_outside : forall x, ~ a <= x < a + context_size tgt -> mem_ s' x = mem_ s x
}.

Lemma context_step a s : contexts_fit tgt -> 0 <= context_size tgt -> 0 <= a -> a + context_size tgt <= 2 ^ 64 -> mapped (mem_ s) a (context_size tgt) ->
  exists s', write_context tgt a s = (Ok tt, s') /\ context_written a s s'.
Proof.
  intros Hc H0 Ha Hb Hm. set (zeros := replicate (Z.to_nat (context_size tgt)) 0).
  assert (Z.of_nat (length zeros) = context_size tgt) as Hz by (unfold zeros; rewrite length_replicate; lia).
  destruct (write_step a zeros s) as (s1 & E1 & W1); [done|lia|by rewrite Hz|].
  pose proof (Hc s1) as Hl. destruct (write_step a (capture_context tgt s1) s1) as (s2 & E2 & W2); [done|lia|rewrite Hl; by eapply wrote_mapped|].
  destruct (wrote_cpu _ _ _ _ W1) as (P1 & P2 & P3 & P4). destruct (wrote_cpu _ _ _ _ W2) as (Q1 & Q2 & Q3 & Q4).
  exists s2. unfold write_context. rewrite (bind_ok _ _ _ _ _ E1). unfold bind, get. rewrite E2. split; [done|]. split.
  - exists s1. split_and!; try done. by eapply wrote_holds.
  - split_and!; congruence.
  - intros b n Hbn. eapply wrote_mapped; [exact W2|]. by eapply wrote_mapped.
  - intros x Hx. rewrite (wrote_outside _ _ _ _ x W2), (wrote_outside _ _ _ _ x W1); [done|lia|lia].
Qed.

Lemma holds_outside a l s s' : (forall x, a <= x < a + Z.of_nat (length l) -> mem_ s' x = mem_ s x) -> holds (mem_ s) a l -> holds (mem_ s') a l.
Proof. intros He Hh i b Hi. rewrite He; [by apply Hh|]. apply lookup_lt_Some in Hi. lia. Qed.

(** What a handler finds: the record of the exception, the registers, and the
    dispatcher context of its frame, each in its place and the stack free below. *)
Record handler_sees (info : exception_info) (d : dispatcher_context64) s s' : Prop := {
  hs_layout : layout tgt (frame_at tgt s) (sp_ s - red_zone);
  hs_stack : scratch_base s' (f_scratch (frame_at tgt s)) = f_record (frame_at tgt s);
  hs_record : holds (mem_ s') (f_record (frame_at tgt s)) (record_bytes info);
  hs_context : exists q, pc_ q = pc_ s /\ sp_ q = sp_ s /\ regs_ q = regs_ s /\ holds (mem_ s') (f_context (frame_at tgt s)) (capture_context tgt q);
  hs_dispatcher : holds (mem_ s') (f_dispatcher (frame_at tgt s)) (dispatcher_bytes d);
  hs_cpu : pc_ s' = pc_ s /\ sp_ s' = sp_ s /\ regs_ s' = regs_ s;
  hs_kept : kept_from (sp_ s - red_zone) (mem_ s) (mem_ s')
}.

Lemma handler_frame info (d : Z -> dispatcher_context64) s :
  contexts_fit tgt -> deep_enough tgt s -> mapped (mem_ s) (f_record (frame_at tgt s)) (sp_ s - red_zone - f_record (frame_at tgt s)) ->
  exists s', (let! frame := build_dispatch_frame tgt info in
              on_mem (write_mem (f_dispatcher frame) (dispatcher_bytes (d (f_context frame)))) ;; ret frame) s = (Ok (frame_at tgt s), s') /\
    handler_sees info (d (f_context (frame_at tgt s))) s s'.
Proof.
  intros Hc Hd Hm. destruct (frame_layout tgt s Hd) as [L Hsc]. pose proof L as [L1 L2 L3 L4 L5]. pose proof Hd as [D1 D2].
  set (f := frame_at tgt s) in *. unfold record_size, red_zone in *. change (Z.of_nat dispatcher_size) with 80 in L5.
  pose proof (length_record_bytes info) as Hr. unfold record_size in Hr.
  destruct (write_step (f_record f) (record_bytes info) s) as (s1 & E1 & W1); [lia|lia|intros x Hx; apply Hm; lia|].
  destruct (context_step (f_context f) s1) as (s2 & E2 & [C1 C2 C3 C4]); [done..|lia|lia|eapply wrote_mapped; [exact W1|]; intros x Hx; apply Hm; lia|].
  pose proof (length_dispatcher_bytes (d (f_context f))) as Hdl.
  destruct (write_step (f_dispatcher f) (dispatcher_bytes (d (f_context f))) s2) as (s3 & E3 & W3).
  { lia. } { rewrite Hdl. change (Z.of_nat dispatcher_size) with 80. lia. }
  { apply C3. eapply wrote_mapped; [exact W1|]. intros x Hx. rewrite Hdl in Hx. change (Z.of_nat dispatcher_size) with 80 in Hx. apply Hm. lia. }
  destruct (wrote_cpu _ _ _ _ W1) as (P1 & P2 & P3 & P4). destruct C2 as (Q1 & Q2 & Q3 & Q4). destruct (wrote_cpu _ _ _ _ W3) as (T1 & T2 & T3 & T4).
  exists s3. split.
  { unfold bind at 1, build_dispatch_frame. fold f. rewrite (bind_ok _ _ _ _ _ E1), (bind_ok _ _ _ _ _ E2). unfold ret at 1. by rewrite (bind_ok _ _ _ _ _ E3). }
  split; fold f.
  - done.
  - unfold scratch_base in *. by rewrite T2, Q2, P2.
  - eapply wrote_keeps; [exact W3|left; lia|]. eapply holds_outside; [|by eapply wrote_holds]. intros x Hx. apply C4. lia.
  - destruct C1 as (q & q1 & q2 & q3 & Hq). exists q. split_and!; try congruence.
    eapply wrote_keeps; [exact W3|left; rewrite Hc; lia|done].
  - by eapply wrote_holds.
  - split_and!; congruence.
  - intros x Hx. unfold red_zone in Hx. rewrite (wrote_outside _ _ _ _ x W3), C4, (wrote_outside _ _ _ _ x W1); [done|lia|lia|].
    rewrite Hdl. change (Z.of_nat dispatcher_size) with 80. lia.
Qed.

(** The stack a user fault is delivered on. *)
Record user_sees (info : exception_info) (eflags disp : Z) s s' : Prop := {
  us_pc : pc_ s' = disp;
  us_sp : sp_ s' mod 16 = 0 /\ 0 < sp_ s' /\ sp_ s' + (machine_frame_offset + machine_frame_size) <= sp_ s - red_zone;
  us_context : exists q, pc_ q = pc_ s /\ sp_ q = sp_ s /\ regs_ q = regs_ s /\ holds (mem_ s') (sp_ s') (capture_context tgt q);
  us_record : holds (mem_ s') (sp_ s' + x86_record_offset) (record_bytes info);
  us_frame : holds (mem_ s') (sp_ s' + machine_frame_offset) (machine_frame (exception_address info) eflags (sp_ s));
  us_kept : kept_from (sp_ s - red_zone) (mem_ s) (mem_ s')
}.

Lemma user_frame rflags disp info s :
  contexts_fit tgt -> context_size tgt = 0x4D0 -> 0x1000 <= sp_ s < 2 ^ 64 ->
  mapped (mem_ s) (sp_ s - 0x800) (0x800 - red_zone) ->
  exists s', x86_setup_exception_frame tgt rflags disp info s = (Ok true, s') /\ user_sees info (rflags (regs_ s)) disp s s'.
Proof.
  intros Hc Hsz Hsp Hm. unfold x86_setup_exception_frame, bind at 1, get at 1. rewrite land_15.
  rewrite (u64_small (sp_ s - _)) by (unfold in_u64, machine_frame_offset, machine_frame_size; lia).
  set (x := sp_ s - _). assert (x = sp_ s - 0x6B8) as Ex by (unfold x, machine_frame_offset, machine_frame_size; lia). clearbody x.
  pose proof (align_down_bounds x 16 pow2_16) as B. pose proof (align_down_mod x 16 pow2_16) as M. set (a := align_down x 16) in *. clearbody a.
  unfold red_zone, x86_record_offset, machine_frame_offset, machine_frame_size in *.
  pose proof (length_record_bytes info) as Hr. unfold record_size in Hr.
  rewrite (u64_small (a + 0x4F0)), (u64_small (a + 0x590)) by (unfold in_u64; lia).
  destruct (context_step a s) as (s1 & E1 & [C1 C2 C3 C4]); [done|lia|lia|lia|intros y Hy; apply Hm; lia|].
  destruct (write_step (a + 0x4F0) (record_bytes info) s1) as (s2 & E2 & W2); [lia|lia|apply C3; intros y Hy; apply Hm; lia|].
  set (fr := machine_frame _ _ _). pose proof (length_machine_frame (exception_address info) (rflags (regs_ s)) (sp_ s)) as Hf. fold fr in Hf. unfold machine_frame_size in Hf.
  destruct (write_step (a + 0x590) fr s2) as (s3 & E3 & W3); [lia|lia|eapply wrote_mapped; [exact W2|]; apply C3; intros y Hy; apply Hm; lia|].
  rewrite (bind_ok _ _ _ _ _ E1), (bind_ok _ _ _ _ _ E2), (bind_ok _ _ _ _ _ E3).
  eexists. split; [reflexivity|]. split; cbn [pc_ sp_ mem_ set_pc set_sp].
  - done.
  - unfold machine_frame_offset, machine_frame_size, red_zone. split; [done|]. lia.
  - destruct C1 as (q & q1 & q2 & q3 & Hq). exists q. split_and!; try done. pose proof (Hc q) as Hl.
    eapply wrote_keeps; [exact W3|left; lia|]. eapply wrote_keeps; [exact W2|left; lia|done].
  - unfold x86_record_offset. eapply wrote_keeps; [exact W3|left; lia|]. by eapply wrote_holds.
  - unfold machine_frame_offset. by eapply wrote_holds.
  - intros y Hy. unfold red_zone in Hy. rewrite (wrote_outside _ _ _ _ y W3), (wrote_outside _ _ _ _ y W2), C4; [done|lia|lia|lia].
Qed.

(** C35: what is written for the guest before it sees an exception stands in its
    place.  A kernel handler is called with the addresses of the exception record,
    of a CONTEXT of the registers as they were and of the dispatcher context of
    its frame, which are aligned, apart from each other, and between the stack the
    handler runs on and the red zone of the code that faulted.  The dispatcher of
    a user process starts on an aligned stack with the CONTEXT at its bottom and
    the record and the machine frame at the offsets its unwind codes name, the
    frame holding the address that faulted and the stack pointer.  Nothing above
    the red zone changes. *)
Theorem exception_frames info rflags disp (d : Z -> dispatcher_context64) s :
  contexts_fit tgt -> deep_enough tgt s ->
  mapped (mem_ s) (f_record (frame_at tgt s)) (sp_ s - red_zone - f_record (frame_at tgt s)) ->
  mapped (mem_ s) (sp_ s - 0x800) (0x800 - red_zone) ->
  (exists s', (let! frame := build_dispatch_frame tgt info in
               on_mem (write_mem (f_dispatcher frame) (dispatcher_bytes (d (f_context frame)))) ;; ret frame) s = (Ok (frame_at tgt s), s') /\
     handler_sees info (d (f_context (frame_at tgt s))) s s') /\
  (context_size tgt = 0x4D0 ->
   exists s', x86_setup_exception_frame tgt rflags disp info s = (Ok true, s') /\ user_sees info (rflags (regs_ s)) disp s s').
Proof.
  intros Hc Hd H1 H2. split; [by apply handler_frame|]. intros Hsz. apply user_frame; try done. destruct Hd as [D1 D2]. lia.
Qed.
End Frames.
