(* ===== verification/ExceptionExamples.v ===== *)
(** * Exception dispatch: a driver with a handler

    One function of one driver, with a handler that resumes at another place. *)

From S2P Require Import Prelude Mmu Unwind UnwindThm UnwindExamples GuestMem Exception ExceptionThm ExceptionClaims.
From stdpp Require Import list.
From stdpp Require Import options.

Open Scope Z_scope.
Open Scope kern_scope.

Definition handled_info : unwind_info := UnwindInfo 0 0 0 0 (codes_of []) false true false.
Definition handled_image : pe_x64 :=
  PeX64 true 0x2000 12 (fun _ => RuntimeFunction 0x1000 0x1100 0x3000) (fun _ => handled_info)
    (fun rva i => rva + 4 + 2 * i) (fun _ => RuntimeFunction 0 0 0) (fun _ => 0x1800).
Definition handled_driver : proc_module := ProcModule 0x140000000 0x10000 (Some handled_image).

Abbreviation guest := (machine Z unit).

Definition reader : @image_reader Z unit proc_module := {|
  module_addr := addr;
  find_module _ := find_module_by_addr [handled_driver];
  has_unwinder m := match pe m with Some _ => true | None => false end;
  context_from_vcpu s := Ctx (pc_ s) (sp_ s) (fun r => if r =? rsp then sp_ s else 0) (fun _ => 0);
  unwind := Unwind.unwind_frame documented_slots 1;
  cookie_rva _ := None
|}.

(** The handler runs on the stack it is given, its return address and a local on it,
    counts its calls in a global of the driver, and writes where to go on into its
    dispatcher context. *)
Definition resume_at : Z := 0x140001020.
Definition counter : Z := 0x140009000.
Definition handler_code (args : list Z) : st guest Z :=
  match args with
  | [_; _; _; d] =>
      let! s := get in
      on_mem (write_mem (sp_ s -w 8) (le_bytes 8 0x77000)) ;;
      on_mem (write_mem (sp_ s -w 0x30) (le_bytes 8 d)) ;;
      let! n := on_mem (read_u64 counter) in
      on_mem (write_mem counter (le_bytes 8 (n + 1))) ;;
      on_mem (write_mem (d +w 32) (le_bytes 8 resume_at)) ;; ret 2
  | _ => ret 1
  end.

(** [n] is the size of a CONTEXT. *)
Definition cpu_with (n : Z) : @target Z unit := {|
  on_exception r := Z.land r (Z.lnot 0x10100);
  fault_addr _ := 0;
  context_size := n;
  capture_context _ := replicate (Z.to_nat n) 0;
  run := handler_code;
  emulate_privileged_insn := ret false;
  setup_exception_frame _ _ := ret false;
  end_thread _ := ret tt
|}.
Definition cpu : @target Z unit := cpu_with 0x4D0.
Definition small_cpu : @target Z unit := cpu_with 0x10.
Definition kern : @kernel Z unit := Kernel None (fun _ => None) true true.

Definition fault_bytes : gmem := fun y =>
  if (0 <=? y) && (y <? 0x10000) then Some 0 else if (0x140000000 <=? y) && (y <? 0x140010000) then Some 0xC3 else None.
Definition faulting : guest := Machine 0x140001050 0x8000 0x102 fault_bytes tt None.

(** ** The hypotheses hold *)

Lemma contexts_fit_cpu n : 0 <= n -> contexts_fit (cpu_with n).
Proof. intros Hn s. cbn [cpu_with capture_context context_size]. rewrite length_replicate. lia. Qed.

(** The part of the stack that unwinding depends on: the frame of the code that
    faulted. *)
Definition its_frame (x : Z) : Prop := 0x8000 <= x < 0x8100.

Lemma frame_above : above (sp_ faulting) its_frame.
Proof. intros x Hx. cbn. unfold its_frame in Hx. lia. Qed.

Lemma quiet_writes a l : 0 <= a -> a + Z.of_nat (length l) <= 2 ^ 64 -> a + Z.of_nat (length l) <= 0x8000 \/ 0x8100 <= a ->
  quiet reader its_frame (on_mem (write_mem a l)).
Proof.
  intros Ha Hb Ho s. rewrite on_mem_run. cbn. split; try done. intros x Hx. unfold its_frame in Hx. cbn. apply write_mem_outside; lia.
Qed.

Lemma handler_quiet s x y z : sp_ s = 0x7DC0 -> same_cpu reader its_frame s (handler_code [x; y; z; 0x7E70] s).2.
Proof.
  intros Hs. unfold handler_code, bind at 1, get at 1. rewrite Hs.
  apply (quiet_bind reader its_frame (on_mem (write_mem (0x7DC0 -w 8) (le_bytes 8 0x77000)))).
  { by apply quiet_writes; vm_compute; [..|left]. }
  intros _. apply quiet_bind; [by apply quiet_writes; vm_compute; [..|left]|].
  intros _. apply quiet_bind.
  { apply quiet_read. intros m. unfold read_u64, bind. pose proof (read_mem_same 8 counter m). by destruct (read_mem counter 8 m) as [[?|?] ?]. }
  intros n. apply quiet_bind; [apply quiet_writes; rewrite ?length_le_bytes; unfold counter; lia|].
  intros _. apply quiet_bind; [by apply quiet_writes; vm_compute; [..|left]|]. intros _. apply quiet_ret.
Qed.

Lemma handler_behaves : well_behaved reader small_cpu its_frame 0x8000.
Proof.
  intros s0 s est Hs0. assert (frame_at small_cpu s0 = frame_at small_cpu faulting) as -> by by apply frame_at_sp. cbn zeta.
  set (f := frame_at small_cpu faulting). vm_compute in f. subst f. cbn [f_record f_context f_dispatcher]. intros Hs.
  destruct (handler_quiet s 32192 est 32352 Hs) as [_ _ _ H4 H5]. by split.
Qed.

Lemma faulting_deep n : 0 <= n <= 0x4D0 -> deep_enough (cpu_with n) faulting.
Proof. intros H. split; cbn; lia. Qed.

Lemma words_kept P m m' a : kept_on P m m' -> (forall x, a <= x < a + 8 -> P x) -> 0 <= a -> a + 8 <= 2 ^ 64 -> words m' a = words m a.
Proof.
  intros H HP Ha Hb. unfold words. assert (forall n b, a <= b -> b + Z.of_nat n <= a + 8 -> (read_mem b n m').1 = (read_mem b n m).1) as Hr.
  { induction n as [|n IH]; intros b Hb1 Hb2; [done|]. cbn [read_mem]. unfold bind, read_byte. rewrite u64_small by (unfold in_u64; lia). rewrite (H b) by (apply HP; lia).
    destruct (m b); [|done]. specialize (IH (b + 1) ltac:(lia) ltac:(lia)).
    destruct (read_mem (b + 1) n m') as [[?|?] ?], (read_mem (b + 1) n m) as [[?|?] ?]; cbn in *; congruence. }
  specialize (Hr 8%nat a ltac:(lia) ltac:(lia)). destruct (read_mem a 8 m') as [[?|?] ?], (read_mem a 8 m) as [[?|?] ?]; cbn in *; congruence.
Qed.

Definition fault_state : guest := set_unwinder (Some true) (set_regs 2 faulting).
Definition first_visit : @visit proc_module :=
  let c := Ctx 0 0x8008 (fun r => if r =? rsp then 0x8008 else if r =? rsp then 0x8000 else 0) (fun _ => 0) in
  Visit handled_driver 0x140001050 (UnwindResult 0x140001800 0x140003008 0x8000 0x140002000) c.

Lemma one_frame n w : w 0x8000 = Some 0 ->
  frames_of reader (S n) false (find_module_by_addr [handled_driver]) w (context_from_vcpu reader fault_state) = ([first_visit], None).
Proof.
  intros Hw. cbn [frames_of].
  assert (unwind reader w handled_driver (context_from_vcpu reader fault_state) = Done (true, v_result first_visit, v_after first_visit)) as E.
  { cbn [reader unwind context_from_vcpu fault_state faulting set_unwinder set_regs pc_ sp_]. unfold Unwind.unwind_frame.
    vm_compute. vm_compute in Hw. rewrite Hw. reflexivity. }
  change (find_module_by_addr [handled_driver] (pc (context_from_vcpu reader fault_state))) with (Some handled_driver). cbn match. rewrite E. cbn match.
  assert (frames_of reader n true (find_module_by_addr [handled_driver]) w (v_after first_visit) = ([], None)) as -> by by destruct n.
  reflexivity.
Qed.

Lemma stable_frames m' : kept_on its_frame (mem_ faulting) m' ->
  frames_of reader 64 false (find_module reader (rest_ faulting)) (words m') (context_from_vcpu reader fault_state) = ([first_visit], None).
Proof.
  intros H. apply (one_frame 63). rewrite (words_kept _ _ _ 0x8000 H); [reflexivity|unfold its_frame; lia|lia..].
Qed.


Lemma exception_frames_witness :
  exists s', x86_setup_exception_frame cpu (fun r => r) 0x77001000 (ExceptionInfo status_breakpoint 0x140001050 0) faulting = (Ok true, s') /\
    user_sees cpu (ExceptionInfo status_breakpoint 0x140001050 0) 0x102 0x77001000 faulting s'.
Proof.
  destruct (exception_frames cpu (ExceptionInfo status_breakpoint 0x140001050 0) (fun r => r) 0x77001000
    (fun c => dispatcher_for reader handled_driver 0 no_result c) faulting) as [_ H].
  - apply (contexts_fit_cpu 0x4D0). lia.
  - apply (faulting_deep 0x4D0). lia.
  - intros x Hx. assert (f_record (frame_at cpu faulting) = 0x7900) as E by (vm_compute; reflexivity). rewrite E in Hx.
    cbn [faulting sp_] in Hx. unfold red_zone in Hx. cbn [faulting mem_]. unfold fault_bytes. rewrite (proj2 (Z.leb_le _ _)), (proj2 (Z.ltb_lt _ _)) by lia. by eexists.
  - intros x Hx. cbn [faulting sp_] in Hx. unfold red_zone in Hx. cbn [faulting mem_]. unfold fault_bytes. rewrite (proj2 (Z.leb_le _ _)), (proj2 (Z.ltb_lt _ _)) by lia. by eexists.
  - exact (H eq_refl).
Defined.

(** The unwinder is made of the module of the first fault, and only once: after a
    fault in a module without an image every exception goes unhandled. *)
Example never_again : (handle reader cpu kern divide_by_zero (set_unwinder (Some false) faulting)).1 = Ok false.
Proof. vm_compute. reflexivity. Qed.
