(* ===== verification/RegOps.v ===== *)
(** * Registry entry points

    modules/nt_reg_ops.cpp: the Zw, Rtl and Cm routines over the keys of
    [Registry], the handle table of [Objects] and guest memory.  A handle stands for
    an object whose host is the key it was opened with and the path it was opened
    at; a reference [key_hosts] does not know is a host of another kind. *)

From Stdlib Require Ascii String.
From stdpp Require Import list gmap.
From S2P Require Import Prelude Paths Objects Registry GuestMem StringOps.
From stdpp Require Import options.

Open Scope Z_scope.
Open Scope kern_scope.

Definition STATUS_PENDING : Z := 0x103.
Definition STATUS_NO_MORE_ENTRIES : Z := 0x8000001A.
Definition STATUS_UNSUCCESSFUL : Z := 0xC0000001.
Definition STATUS_INVALID_INFO_CLASS : Z := 0xC0000003.
Definition STATUS_INVALID_HANDLE : Z := 0xC0000008.
Definition STATUS_OBJECT_NAME_NOT_FOUND : Z := 0xC0000034.
Definition STATUS_INSUFFICIENT_RESOURCES : Z := 0xC000009A.

Definition key_basic_information : Z := 0.
Definition key_node_information : Z := 1.
Definition key_full_information : Z := 2.
Definition key_value_basic_information : Z := 0.
Definition key_value_full_information : Z := 1.
Definition key_value_partial_information : Z := 2.
Definition reg_created_new_key : Z := 1.
Definition reg_opened_existing_key : Z := 2.

(** ** State *)

Record key_host : Type := KeyHost { h_key : nat; h_path : str }.
Record rsys : Type := RSys {
  r_mem : gmem; reg : registry; tbl : table; key_hosts : gmap Z key_host; fresh_host : Z; next_cookie : Z
}.
Abbreviation rst := (st rsys).

Definition set_mem m s := RSys m (reg s) (tbl s) (key_hosts s) (fresh_host s) (next_cookie s).
Definition set_reg g s := RSys (r_mem s) g (tbl s) (key_hosts s) (fresh_host s) (next_cookie s).
Definition set_tbl t s := RSys (r_mem s) (reg s) t (key_hosts s) (fresh_host s) (next_cookie s).
Definition set_cookie c s := RSys (r_mem s) (reg s) (tbl s) (key_hosts s) (fresh_host s) c.
Definition add_host h s := RSys (r_mem s) (reg s) (tbl s) (<[fresh_host s := h]> (key_hosts s)) (fresh_host s + 1) (next_cookie s).

Definition on_mem {A} (f : gst A) : rst A := fun s => let '(r, m) := f (r_mem s) in (r, set_mem m s).

(** The values of a key, and changing them. *)
Definition values_of (k : nat) (s : rsys) : key := default ∅ (store (reg s) !! k).
Definition with_values (k : nat) (v : key) (s : rsys) : rsys :=
  set_reg (Registry (keys_ (reg s)) (<[k := v]> (store (reg s))) (fresh_ref (reg s))) s.

(** ** Handles and paths *)

Definition key_from_handle (handle : Z) (s : rsys) : option key_host := get_object_of handle (tbl s) ≫= fun r => key_hosts s !! r.

(** [base] is where the object manager puts the object. *)
Definition open_key_handle (k : nat) (path : str) (access base : Z) : rst Z := fun s =>
  let r := fresh_host s in
  let s := add_host (KeyHost k path) s in
  let '(addr, objs) := create_object base 0 (Some r) (objs_ (tbl s)) in
  let s := set_tbl (on_objs (fun _ => objs) (tbl s)) s in
  if addr =? 0 then (Ok 0, s) else
  let '(handle, t) := create_handle addr access (tbl s) in (Ok handle, set_tbl t s).

(** RootDirectory and ObjectName of an _OBJECT_ATTRIBUTES. *)
Definition attributes_size : nat := 0x30.
Definition read_attributes (a : Z) : gst (Z * Z) :=
  let! l := read_mem a attributes_size in ret (le_val (take 8 (drop 8 l)), le_val (take 8 (drop 16 l))).

Definition resolve_key_path (object_attributes : Z) : rst str :=
  if object_attributes =? 0 then ret [] else
  let! attrs := on_mem (read_attributes object_attributes) in
  let '(root, name) := attrs in
  let! name := on_mem (read_unicode_string name) in
  let relative := normalize_path name in
  if root =? 0 then ret relative else
  let! s := get in
  match key_from_handle root s with
  | None => ret relative
  | Some parent => ret (match relative with [] => h_path parent | _ => h_path parent ++ [slash] ++ relative end)
  end.

Definition rtl_registry_services : Z := 1.
Definition rtl_registry_control : Z := 2.
Definition rtl_registry_windows_nt : Z := 3.
Definition rtl_registry_devicemap : Z := 4.
Definition rtl_registry_user : Z := 5.
Definition rtl_registry_optional : Z := 0x80000000.
Definition rtl_registry_handle : Z := 0x40000000.

Import String.StringSyntax.
Delimit Scope string_scope with string.

Definition services_prefix : str := text "system/currentcontrolset/services/"%string.
Definition control_prefix : str := text "system/currentcontrolset/control/"%string.
Definition windows_nt_prefix : str := text "software/microsoft/windows nt/currentversion/"%string.
Definition devicemap_prefix : str := text "hardware/devicemap/"%string.
Definition user_prefix : str := text "user/"%string.

Definition resolve_rtl_path (relative_to : Z) (path : list Z) : str :=
  let relative := normalize_path path in
  let where_ := Z.land relative_to (Z.lnot (Z.lor rtl_registry_optional rtl_registry_handle)) in
  if where_ =? rtl_registry_services then services_prefix ++ relative
  else if where_ =? rtl_registry_control then control_prefix ++ relative
  else if where_ =? rtl_registry_windows_nt then windows_nt_prefix ++ relative
  else if where_ =? rtl_registry_devicemap then devicemap_prefix ++ relative
  else if where_ =? rtl_registry_user then user_prefix ++ relative
  else relative.

(** ** What is written for a query *)

Definition byte_length (s : list Z) : Z := u32 (Z.of_nat (length s) * 2).

Definition write_info (response : list Z) (buffer len result_length : Z) : gst Z :=
  let required := u32 (Z.of_nat (length response)) in
  write_optional 4 result_length required ;;
  if (buffer =? 0) || (len =? 0) then ret STATUS_BUFFER_TOO_SMALL
  else if len <? required then write_mem buffer (take (Z.to_nat len) response) ;; ret STATUS_BUFFER_OVERFLOW
  else write_mem buffer (take (Z.to_nat required) response) ;; ret STATUS_SUCCESS.

(** The heads of the responses: little-endian fields, without padding. *)
Definition basic_head (name_length : Z) : list Z := le_bytes 8 0 ++ le_bytes 4 0 ++ le_bytes 4 name_length.
Definition full_head (sub_keys max_name values max_value_name max_value_data : Z) : list Z :=
  le_bytes 8 0 ++ flat_map (le_bytes 4) [0; 0x2C; 0; sub_keys; max_name; 0; values; max_value_name; max_value_data].
Definition value_basic_head (type name_length : Z) : list Z := flat_map (le_bytes 4) [0; type; name_length].
Definition value_partial_head (type data_length : Z) : list Z := flat_map (le_bytes 4) [0; type; data_length].
Definition value_full_size : Z := 0x14.
Definition value_full_head (type data_offset data_length name_length : Z) : list Z := flat_map (le_bytes 4) [0; type; data_offset; data_length; name_length].

(** Empty for a class the code does not know. *)
Definition value_response (info_class : Z) (value_name : list Z) (v : registry_value) : list Z :=
  let type := type_code (r_type v) in
  let name_bytes := byte_length value_name in
  let data_bytes := u32 (Z.of_nat (length (r_data v))) in
  if info_class =? key_value_basic_information then value_basic_head type name_bytes ++ chars_bytes 2 value_name
  else if info_class =? key_value_partial_information then value_partial_head type data_bytes ++ r_data v
  else if info_class =? key_value_full_information then
    value_full_head type (u32 (value_full_size + name_bytes)) data_bytes name_bytes ++ chars_bytes 2 value_name ++ r_data v
  else [].

(** ** The Zw entry points *)

Definition ZwCreateKey (key_handle desired_access object_attributes disposition base : Z) : rst Z :=
  let! path := resolve_key_path object_attributes in
  if (key_handle =? 0) || match path with [] => true | _ => false end then ret STATUS_INVALID_PARAMETER else
  let! s := get in
  let existed := key_exists path (reg s) in
  let '(k, g) := create_key path (reg s) in
  modify (set_reg g) ;;
  let! handle := open_key_handle k path desired_access base in
  if handle =? 0 then ret STATUS_INSUFFICIENT_RESOURCES else
  on_mem (write_mem key_handle (le_bytes 8 handle)) ;;
  on_mem (write_optional 4 disposition (if existed then reg_opened_existing_key else reg_created_new_key)) ;;
  ret STATUS_SUCCESS.

Definition ZwOpenKey (key_handle desired_access object_attributes base : Z) : rst Z :=
  let! path := resolve_key_path object_attributes in
  if key_handle =? 0 then ret STATUS_INVALID_PARAMETER else
  let! s := get in
  match open_key path (reg s) with
  | None => ret STATUS_OBJECT_NAME_NOT_FOUND
  | Some k =>
      let! handle := open_key_handle k path desired_access base in
      if handle =? 0 then ret STATUS_INSUFFICIENT_RESOURCES else
      on_mem (write_mem key_handle (le_bytes 8 handle)) ;; ret STATUS_SUCCESS
  end.

(** After the last slash. *)
Definition leaf (path : str) : str := rev (before_slash (rev path)).

Definition longest (f : str -> Z) (l : list str) : Z := foldr (fun n m => Z.max m (f n)) 0 l.

Definition ZwQueryKey (handle info_class buffer len result_length : Z) : rst Z :=
  let! s := get in
  match key_from_handle handle s with
  | None => ret STATUS_INVALID_HANDLE
  | Some h =>
      let name := widen_string (leaf (h_path h)) in
      if (info_class =? key_basic_information) || (info_class =? key_node_information) then
        on_mem (write_info (basic_head (byte_length name) ++ chars_bytes 2 name) buffer len result_length)
      else if info_class =? key_full_information then
        let subkeys := enumerate_subkeys (h_path h) (reg s) in
        let k := values_of (h_key h) s in
        let values := enumerate_values k in
        let data_len n := match query_value n k with Some v => u32 (Z.of_nat (length (r_data v))) | None => 0 end in
        on_mem (write_info (full_head (u32 (Z.of_nat (length subkeys))) (longest byte_length subkeys)
          (u32 (Z.of_nat (length values))) (longest byte_length values) (longest data_len values)) buffer len result_length)
      else ret STATUS_INVALID_INFO_CLASS
  end.

Definition ZwEnumerateKey (handle index info_class buffer len result_length : Z) : rst Z :=
  let! s := get in
  match key_from_handle handle s with
  | None => ret STATUS_INVALID_HANDLE
  | Some h =>
      match enumerate_subkeys (h_path h) (reg s) !! Z.to_nat index with
      | None => ret STATUS_NO_MORE_ENTRIES
      | Some name =>
          if negb (info_class =? key_basic_information) && negb (info_class =? key_node_information) then ret STATUS_INVALID_INFO_CLASS
          else
            let name := widen_string name in
            on_mem (write_info (basic_head (byte_length name) ++ chars_bytes 2 name) buffer len result_length)
      end
  end.

Definition answer_value (info_class : Z) (name : list Z) (v : registry_value) (buffer len result_length : Z) : rst Z :=
  match value_response info_class name v with
  | [] => ret STATUS_INVALID_INFO_CLASS
  | response => on_mem (write_info response buffer len result_length)
  end.

Definition ZwQueryValueKey (handle value_name info_class buffer len result_length : Z) : rst Z :=
  let! s := get in
  match key_from_handle handle s with
  | None => ret STATUS_INVALID_HANDLE
  | Some h =>
      let! name := on_mem (read_unicode_string value_name) in
      match query_value (narrow_wstring name) (values_of (h_key h) s) with
      | None => on_mem (write_optional 4 result_length 0) ;; ret STATUS_OBJECT_NAME_NOT_FOUND
      | Some v => answer_value info_class name v buffer len result_length
      end
  end.

Definition ZwEnumerateValueKey (handle index info_class buffer len result_length : Z) : rst Z :=
  let! s := get in
  match key_from_handle handle s with
  | None => ret STATUS_INVALID_HANDLE
  | Some h =>
      let k := values_of (h_key h) s in
      match enumerate_values k !! Z.to_nat index with
      | None => ret STATUS_NO_MORE_ENTRIES
      | Some name =>
          match query_value name k with
          | None => ret STATUS_OBJECT_NAME_NOT_FOUND
          | Some v => answer_value info_class (widen_string name) v buffer len result_length
          end
      end
  end.

(** The bytes the guest gives, zeros if it gives only their number. *)
Definition value_bytes (data size : Z) : gst (list Z) :=
  if negb (size =? 0) && negb (data =? 0) then read_mem data (Z.to_nat size) else ret (replicate (Z.to_nat size) 0).

Definition ZwSetValueKey (handle value_name type data data_size : Z) : rst Z :=
  let! s := get in
  match key_from_handle handle s with
  | None => ret STATUS_INVALID_HANDLE
  | Some h =>
      let! name := on_mem (read_unicode_string value_name) in
      let! bytes := on_mem (value_bytes data data_size) in
      modify (fun s => with_values (h_key h) (set_value (narrow_wstring name) (type_of_code type) bytes (values_of (h_key h) s)) s) ;;
      ret STATUS_SUCCESS
  end.

Definition ZwDeleteValueKey (handle value_name : Z) : rst Z :=
  let! s := get in
  match key_from_handle handle s with
  | None => ret STATUS_INVALID_HANDLE
  | Some h =>
      let! name := on_mem (read_unicode_string value_name) in
      let '(deleted, k) := delete_value (narrow_wstring name) (values_of (h_key h) s) in
      modify (with_values (h_key h) k) ;;
      ret (if deleted then STATUS_SUCCESS else STATUS_OBJECT_NAME_NOT_FOUND)
  end.

Definition ZwDeleteKey (handle : Z) : rst Z :=
  let! s := get in
  match key_from_handle handle s with
  | None => ret STATUS_INVALID_HANDLE
  | Some h =>
      let '(deleted, g) := delete_key (h_path h) (reg s) in
      modify (set_reg g) ;;
      ret (if deleted then STATUS_SUCCESS else STATUS_OBJECT_NAME_NOT_FOUND)
  end.

Definition ZwFlushKey (handle : Z) : rst Z :=
  let! s := get in ret (match key_from_handle handle s with None => STATUS_INVALID_HANDLE | Some _ => STATUS_SUCCESS end).

(** ** The Rtl entry points *)

Definition RtlWriteRegistryValue (relative_to path value_name value_type value_data value_length : Z) : rst Z :=
  let! path := on_mem (read_wstring path) in
  let! name := on_mem (read_wstring value_name) in
  let! s := get in
  let '(k, g) := create_key (resolve_rtl_path relative_to path) (reg s) in
  modify (set_reg g) ;;
  let! bytes := on_mem (value_bytes value_data value_length) in
  modify (fun s => with_values k (set_value (narrow_wstring name) (type_of_code value_type) bytes (values_of k s)) s) ;;
  ret STATUS_SUCCESS.

Definition RtlDeleteRegistryValue (relative_to path value_name : Z) : rst Z :=
  let! path := on_mem (read_wstring path) in
  let! name := on_mem (read_wstring value_name) in
  let! s := get in
  match open_key (resolve_rtl_path relative_to path) (reg s) with
  | None => ret STATUS_OBJECT_NAME_NOT_FOUND
  | Some k =>
      let '(deleted, v) := delete_value (narrow_wstring name) (values_of k s) in
      modify (with_values k v) ;;
      ret (if deleted then STATUS_SUCCESS else STATUS_OBJECT_NAME_NOT_FOUND)
  end.

Record query_row : Type := QueryRow { query_routine : Z; row_flags : Z; row_name : Z; entry_context : Z; default_data : Z; default_length : Z }.
Definition row_size : nat := 56.
Definition row_of (l : list Z) : query_row :=
  QueryRow (le_val (take 8 l)) (le_val (take 4 (drop 8 l))) (le_val (take 8 (drop 16 l))) (le_val (take 8 (drop 24 l)))
    (le_val (take 8 (drop 40 l))) (le_val (take 4 (drop 48 l))).
Definition rtl_query_registry_required : Z := 0x04.
Definition rtl_query_registry_direct : Z := 0x20.

(** One row: a status when it ends the query. *)
Definition query_one (values : option key) (row : query_row) : gst (option Z) :=
  let! name := read_wstring (row_name row) in
  let name := narrow_wstring name in
  if negb (has_flag (row_flags row) rtl_query_registry_direct) then ret None else
  match values ≫= query_value name with
  | None =>
      if has_flag (row_flags row) rtl_query_registry_required then ret (Some STATUS_OBJECT_NAME_NOT_FOUND)
      else if negb (default_data row =? 0) && negb (default_length row =? 0) && negb (entry_context row =? 0) then
        let! bytes := read_mem (default_data row) (Z.to_nat (default_length row)) in
        write_mem (entry_context row) bytes ;; ret None
      else ret None
  | Some v => if entry_context row =? 0 then ret None else write_mem (entry_context row) (r_data v) ;; ret None
  end.

Fixpoint query_rows (n : nat) (values : option key) (table : Z) : gst Z :=
  match n with
  | O => ret STATUS_SUCCESS
  | S n =>
      let! l := read_mem table row_size in
      let row := row_of l in
      if (row_name row =? 0) && (query_routine row =? 0) then ret STATUS_SUCCESS else
      let! done_ := query_one values row in
      match done_ with Some status => ret status | None => query_rows n values (table +w Z.of_nat row_size) end
  end.

Definition RtlQueryRegistryValues (relative_to path query_table : Z) : rst Z :=
  let! path := on_mem (read_wstring path) in
  let! s := get in
  let values := (fun k => values_of k s) <$> open_key (resolve_rtl_path relative_to path) (reg s) in
  on_mem (query_rows 64 values query_table).

(** ** Callbacks and notifications, which nothing here raises *)

Definition CmRegisterCallbackEx (altitude cookie : Z) : rst Z :=
  if cookie =? 0 then ret STATUS_INVALID_PARAMETER else
  let! s := get in
  modify (set_cookie (s64 (next_cookie s + 1))) ;;
  on_mem (write_mem cookie (le_bytes 8 (next_cookie s))) ;;
  on_mem (read_unicode_string altitude) ;;
  ret STATUS_SUCCESS.
Definition CmUnRegisterCallback (cookie : Z) : rst Z := ret STATUS_SUCCESS.

Definition NotifyChangeKey (handle io_status_block : Z) (asynchronous : bool) : rst Z :=
  let! s := get in
  match lookup_handle handle (tbl s) with
  | None => ret STATUS_INVALID_HANDLE
  | Some _ =>
      (if io_status_block =? 0 then ret tt else on_mem (write_mem io_status_block (replicate 16 0))) ;;
      ret (if asynchronous then STATUS_PENDING else STATUS_SUCCESS)
  end.
