(* ===== verification/RegThm.v ===== *)
(** * Registry entry points: the theorems

    What is set through one handle is found through every handle to the key, and
    what a query writes to guest memory. *)

From stdpp Require Import list gmap.
From S2P Require Import Prelude Paths Objects Registry GuestMem StringOps StringThm StringPoolThm RegOps.
From stdpp Require Import options.

Open Scope Z_scope.
Open Scope kern_scope.

(** ** A query's answer *)

(** Where a number of four bytes may be written: nowhere, or at mapped bytes. *)
Definition optional_out (m : gmem) (a : Z) : Prop := a = 0 \/ (0 < a /\ a + 4 <= 2 ^ 64 /\ mapped m a 4).
Definition reported (a v : Z) (m : gmem) : gmem := if a =? 0 then m else splice a (le_bytes 4 v) m.

Definition info_status (required buffer len : Z) : Z :=
  if (buffer =? 0) || (len =? 0) then STATUS_BUFFER_TOO_SMALL else if len <? required then STATUS_BUFFER_OVERFLOW else STATUS_SUCCESS.
Definition sent (response : list Z) (buffer len : Z) : list Z :=
  if (buffer =? 0) || (len =? 0) then [] else take (Z.to_nat len) response.
(** A buffer of [len] bytes, as far as the response needs it. *)
Definition buffer_out (m : gmem) (buffer len required : Z) : Prop :=
  buffer = 0 \/ (0 < buffer /\ buffer + Z.min len required <= 2 ^ 64 /\ mapped m buffer (Z.min len required)).

(** The guest's memory after an answer: the size at [result_length], whatever the
    status, then as much of the response as there is room for. *)
Definition answered (response : list Z) (buffer len result_length : Z) (m m' : gmem) : Prop :=
  same m' (splice buffer (sent response buffer len) (reported result_length (Z.of_nat (length response)) m)).

Lemma write_optional_ok a v m : optional_out m a -> exists m', write_optional 4 a v m = (Ok tt, m') /\ same m' (reported a v m).
Proof.
  unfold write_optional, reported. intros [->|(H1 & H2 & H3)]; [by exists m|]. rewrite (proj2 (Z.eqb_neq a 0)) by lia.
  apply write_mem_mapped; rewrite ?length_le_bytes; lia || done.
Qed.

Lemma reported_mapped a v m b n : mapped m b n -> mapped (reported a v m) b n.
Proof. unfold reported. destruct (a =? 0); [done|apply splice_mapped]. Qed.

Lemma same_mapped m m' b n : same m m' -> mapped m' b n -> mapped m b n.
Proof. intros H Hm x Hx. rewrite H. by apply Hm. Qed.

Lemma write_info_ok response buffer len result_length m :
  Z.of_nat (length response) < 2 ^ 32 -> 0 <= len < 2 ^ 32 -> optional_out m result_length ->
  buffer_out m buffer len (Z.of_nat (length response)) ->
  exists m', write_info response buffer len result_length m = (Ok (info_status (Z.of_nat (length response)) buffer len), m') /\
    answered response buffer len result_length m m'.
Proof.
  intros Hr Hl Ho Hb. unfold write_info, info_status, answered, sent. unfold u32. rewrite Z.mod_small by lia. set (req := Z.of_nat (length response)) in *.
  destruct (write_optional_ok result_length req m Ho) as (m1 & E1 & H1). rewrite (bind_ok _ _ _ _ _ E1).
  destruct Hb as [->|(B1 & B2 & B3)].
  { cbn [orb Z.eqb]. exists m1. split; [done|]. intros x. rewrite splice_out by (cbn; lia). apply H1. }
  rewrite (proj2 (Z.eqb_neq buffer 0)) by lia. cbn [orb]. destruct (Z.eqb_spec len 0) as [->|Hn].
  { exists m1. split; [done|]. intros x. rewrite splice_out by (cbn; lia). apply H1. }
  assert (mapped m1 buffer (Z.min len req)) as Hm1 by (eapply same_mapped; [exact H1|]; by apply reported_mapped).
  set (l := take (Z.to_nat len) response).
  assert (Z.of_nat (length l) = Z.min len req) as Hll by (unfold l; rewrite length_take; lia).
  destruct (write_mem_mapped l buffer m1) as (m2 & E2 & H2); [lia|lia|by rewrite Hll|].
  exists m2. split.
  - destruct (Z.ltb_spec len req); [by rewrite (bind_ok _ _ _ _ _ E2)|].
    assert (take (Z.to_nat req) response = l) as -> by (unfold l; rewrite !take_ge; [done|lia..]). by rewrite (bind_ok _ _ _ _ _ E2).
  - eapply same_trans; [exact H2|]. by apply splice_same.
Qed.

(** ** States *)

Lemma reg_mem_same s : set_mem (r_mem s) s = s.
Proof. by destruct s. Qed.
Lemma reg_mem_reads {A} (f : gst A) s r : f (r_mem s) = (r, r_mem s) -> on_mem f s = (r, s).
Proof. intros E. unfold on_mem. by rewrite E, reg_mem_same. Qed.

(** Only memory differs. *)
Definition only_memory (s s' : rsys) : Prop := s' = set_mem (r_mem s') s.

Lemma reg_mem_writes {A} (f : gst A) s r m : f (r_mem s) = (r, m) -> on_mem f s = (r, set_mem m s).
Proof. intros E. unfold on_mem. by rewrite E. Qed.

(** The value is what a query finds. *)
Lemma query_finds handle np n nd h v info_class buffer len result_length s :
  key_from_handle handle s = Some h -> counted 2 (r_mem s) np n nd ->
  query_value (narrow_wstring n) (values_of (h_key h) s) = Some v ->
  ZwQueryValueKey handle np info_class buffer len result_length s = answer_value info_class n v buffer len result_length s.
Proof.
  intros Hh Hc Hv. unfold ZwQueryValueKey, bind at 1, get at 1. rewrite Hh.
  rewrite (bind_ok _ _ s n s) by (apply reg_mem_reads; by apply (read_counted_ok 2 _ _ _ nd); [lia|]). by rewrite Hv.
Qed.

Lemma query_misses handle np n nd h info_class buffer len result_length s :
  key_from_handle handle s = Some h -> counted 2 (r_mem s) np n nd ->
  query_value (narrow_wstring n) (values_of (h_key h) s) = None -> optional_out (r_mem s) result_length ->
  exists m', ZwQueryValueKey handle np info_class buffer len result_length s = (Ok STATUS_OBJECT_NAME_NOT_FOUND, set_mem m' s) /\
    same m' (reported result_length 0 (r_mem s)).
Proof.
  intros Hh Hc Hv Ho. unfold ZwQueryValueKey, bind at 1, get at 1. rewrite Hh.
  rewrite (bind_ok _ _ s n s) by (apply reg_mem_reads; by apply (read_counted_ok 2 _ _ _ nd); [lia|]). rewrite Hv.
  destruct (write_optional_ok result_length 0 (r_mem s) Ho) as (m' & E & H). exists m'. split; [|done].
  by rewrite (bind_ok _ _ _ _ _ (reg_mem_writes _ _ _ _ E)).
Qed.

Lemma answer_ok info_class n v buffer len result_length s :
  let response := value_response info_class n v in
  response <> [] -> Z.of_nat (length response) < 2 ^ 32 -> 0 <= len < 2 ^ 32 -> optional_out (r_mem s) result_length ->
  buffer_out (r_mem s) buffer len (Z.of_nat (length response)) ->
  exists m', answer_value info_class n v buffer len result_length s = (Ok (info_status (Z.of_nat (length response)) buffer len), set_mem m' s) /\
    answered response buffer len result_length (r_mem s) m'.
Proof.
  intros response Hne Hr Hl Ho Hb. unfold answer_value. fold response. clearbody response.
  destruct (write_info_ok response buffer len result_length (r_mem s) Hr Hl Ho Hb) as (m' & E & H).
  exists m'. split; [|done]. destruct response; [done|]. by rewrite (reg_mem_writes _ _ _ _ E).
Qed.

(** ** Responses *)

(** The four bytes at [i]. *)
Definition field (i : nat) (l : list Z) : Z := le_val (take 4 (drop i l)).

Lemma field_cons v i l : field (4 + i) (le_bytes 4 v ++ l) = field i l.
Proof. unfold field. rewrite <- drop_drop, drop_app_length' by (by rewrite length_le_bytes). done. Qed.
Lemma field_here v l : 0 <= v < 2 ^ 32 -> field 0 (le_bytes 4 v ++ l) = v.
Proof. intros H. unfold field. rewrite drop_0, take_app_length' by (by rewrite length_le_bytes). rewrite le_val_bytes. by apply Z.mod_small. Qed.
Lemma drop_four v n l : drop (4 + n) (le_bytes 4 v ++ l) = drop n l.
Proof. rewrite <- drop_drop, drop_app_length' by (by rewrite length_le_bytes). done. Qed.

Definition fits (n : list Z) (v : registry_value) : Prop :=
  0 <= type_code (r_type v) < 2 ^ 32 /\ value_full_size + 2 * Z.of_nat (length n) + Z.of_nat (length (r_data v)) < 2 ^ 32.

(** Where the fields of the three classes are. *)
Definition response_fields (n : list Z) (v : registry_value) : Prop :=
  let basic := value_response key_value_basic_information n v in
  let partial := value_response key_value_partial_information n v in
  let full := value_response key_value_full_information n v in
  (field 4 basic = type_code (r_type v) /\ drop 12 basic = chars_bytes 2 n /\ field 8 basic = 2 * Z.of_nat (length n)) /\
  (field 4 partial = type_code (r_type v) /\ drop 12 partial = r_data v /\ field 8 partial = Z.of_nat (length (r_data v))) /\
  (field 4 full = type_code (r_type v) /\ field 12 full = Z.of_nat (length (r_data v)) /\
   drop (Z.to_nat (field 8 full)) full = r_data v /\ take (Z.to_nat (field 16 full)) (drop 20 full) = chars_bytes 2 n).

Lemma value_responses n v : fits n v -> response_fields n v.
Proof.
  intros [Ht Hf]. unfold response_fields. set (basic := value_response key_value_basic_information n v). set (partial := value_response key_value_partial_information n v). set (full := value_response key_value_full_information n v). unfold value_full_size in Hf.
  assert (byte_length n = 2 * Z.of_nat (length n)) as Hn by (unfold byte_length, u32; rewrite Z.mod_small; lia).
  assert (u32 (Z.of_nat (length (r_data v))) = Z.of_nat (length (r_data v))) as Hd by (unfold u32; rewrite Z.mod_small; lia).
  assert (basic = le_bytes 4 0 ++ le_bytes 4 (type_code (r_type v)) ++ le_bytes 4 (2 * Z.of_nat (length n)) ++ chars_bytes 2 n) as ->.
  { unfold basic, value_response. cbn [Z.eqb key_value_basic_information]. unfold value_basic_head. cbn [flat_map]. rewrite Hn. by rewrite <- !app_assoc. }
  assert (partial = le_bytes 4 0 ++ le_bytes 4 (type_code (r_type v)) ++ le_bytes 4 (Z.of_nat (length (r_data v))) ++ r_data v) as ->.
  { unfold partial, value_response. change (key_value_partial_information =? key_value_basic_information) with false. change (key_value_partial_information =? key_value_partial_information) with true.
    unfold value_partial_head. cbn [flat_map]. rewrite Hd. by rewrite <- !app_assoc. }
  assert (full = le_bytes 4 0 ++ le_bytes 4 (type_code (r_type v)) ++ le_bytes 4 (20 + 2 * Z.of_nat (length n)) ++
    le_bytes 4 (Z.of_nat (length (r_data v))) ++ le_bytes 4 (2 * Z.of_nat (length n)) ++ chars_bytes 2 n ++ r_data v) as ->.
  { unfold full, value_response. change (key_value_full_information =? key_value_basic_information) with false. change (key_value_full_information =? key_value_partial_information) with false.
    change (key_value_full_information =? key_value_full_information) with true. unfold value_full_head, value_full_size. cbn [flat_map]. rewrite Hn, Hd.
    unfold u32. rewrite Z.mod_small by lia. by rewrite <- !app_assoc. }
  change 20%nat with (4 + (4 + (4 + (4 + (4 + 0)))))%nat. change 16%nat with (4 + (4 + (4 + (4 + 0))))%nat.
  change 12%nat with (4 + (4 + (4 + 0)))%nat. change 8%nat with (4 + (4 + 0))%nat. change (field 4) with (field (4 + 0)).
  rewrite !field_cons, !drop_four, !field_here by lia. split_and!; try done.
  - replace (Z.to_nat (20 + 2 * Z.of_nat (length n))) with (4 + (4 + (4 + (4 + (4 + 2 * length n)))))%nat by lia.
    rewrite !drop_four. apply drop_app_length'. by rewrite length_chars_bytes.
  - apply take_app_length'. rewrite length_chars_bytes. lia.
Qed.

(** C9: a value set through a handle is what a query of its name finds through
    every handle to that key, with the type and the bytes that were given; no
    other value of the key and no other key changes.  A query reports the size of
    its response whatever it answers, and writes as much of the response as the
    buffer has room for and nothing else: STATUS_SUCCESS with all of it,
    STATUS_BUFFER_OVERFLOW with the part that fits, STATUS_BUFFER_TOO_SMALL with
    none.  The fields of each class say where the name and the data are.  After a
    delete the name is not found, and a handle that is not a key changes nothing. *)
Theorem registry_value_roundtrip handle handle2 np n nd h h2 type dp data info_class buffer len result_length s :
  key_from_handle handle s = Some h -> key_from_handle handle2 s = Some h2 -> h_key h2 = h_key h ->
  counted 2 (r_mem s) np n nd -> 0 <= type < 2 ^ 32 ->
  (0 < dp /\ dp + Z.of_nat (length data) <= 2 ^ 64 /\ holds (r_mem s) dp data) ->
  value_full_size + 2 * Z.of_nat (length n) + Z.of_nat (length data) < 2 ^ 32 ->
  info_class = key_value_basic_information \/ info_class = key_value_partial_information \/ info_class = key_value_full_information ->
  0 <= len < 2 ^ 32 -> optional_out (r_mem s) result_length ->
  let v := RegistryValue (type_of_code type) data in
  let response := value_response info_class n v in
  buffer_out (r_mem s) buffer len (Z.of_nat (length response)) ->
  exists s1, ZwSetValueKey handle np type dp (Z.of_nat (length data)) s = (Ok STATUS_SUCCESS, s1) /\
    r_mem s1 = r_mem s /\ tbl s1 = tbl s /\ keys_ (reg s1) = keys_ (reg s) /\
    values_of (h_key h) s1 = <[narrow_wstring n := v]> (values_of (h_key h) s) /\
    (forall k, k <> h_key h -> values_of k s1 = values_of k s) /\
    (exists m', ZwQueryValueKey handle2 np info_class buffer len result_length s1 =
        (Ok (info_status (Z.of_nat (length response)) buffer len), set_mem m' s1) /\
      answered response buffer len result_length (r_mem s) m') /\
    response_fields n v /\
    (exists s2 m', ZwDeleteValueKey handle2 np s1 = (Ok STATUS_SUCCESS, s2) /\
      ZwQueryValueKey handle np info_class buffer len result_length s2 = (Ok STATUS_OBJECT_NAME_NOT_FOUND, set_mem m' s2)) /\
    (forall bad, key_from_handle bad s = None ->
      ZwSetValueKey bad np type dp (Z.of_nat (length data)) s = (Ok STATUS_INVALID_HANDLE, s) /\
      ZwQueryValueKey bad np info_class buffer len result_length s = (Ok STATUS_INVALID_HANDLE, s) /\
      ZwDeleteValueKey bad np s = (Ok STATUS_INVALID_HANDLE, s)).
Proof.
  intros Hh Hh2 Hk Hc Ht (D1 & D2 & D3) Hfit Hclass Hl Ho v response Hb.
  assert (fits n v) as Hfits by (split; cbn [v r_type r_data]; [by rewrite type_code_of|done]).
  set (values := <[narrow_wstring n := v]> (values_of (h_key h) s)). set (s1 := with_values (h_key h) values s).
  assert (forall k, values_of k s1 = if decide (k = h_key h) then values else values_of k s) as Hv1.
  { intros k. unfold s1, with_values, values_of. cbn. case_decide as E; [subst; by rewrite lookup_insert_eq|by rewrite lookup_insert_ne]. }
  assert (ZwSetValueKey handle np type dp (Z.of_nat (length data)) s = (Ok STATUS_SUCCESS, s1)) as Eset.
  { unfold ZwSetValueKey, bind at 1, get at 1. rewrite Hh.
    rewrite (bind_ok _ _ s n s) by (apply reg_mem_reads; by apply (read_counted_ok 2 _ _ _ nd); [lia|]).
    rewrite (bind_ok _ _ s data s); [done|]. apply reg_mem_reads. unfold value_bytes.
    destruct data as [|b data]; [done|]. rewrite (proj2 (Z.eqb_neq (Z.of_nat _) 0)), (proj2 (Z.eqb_neq dp 0)) by (cbn [length] in *; lia). cbn [negb andb].
    rewrite Nat2Z.id. by apply read_mem_holds; [lia|..]. }
  exists s1. split; [exact Eset|]. split; [done|]. split; [done|]. split; [done|].
  split; [by rewrite Hv1, decide_True|]. split; [intros k Hkn; by rewrite Hv1, decide_False|].
  assert (query_value (narrow_wstring n) (values_of (h_key h2) s1) = Some v) as Hq.
  { rewrite Hk, Hv1, decide_True by done. apply lookup_insert_eq. }
  assert (response <> [] /\ Z.of_nat (length response) < 2 ^ 32) as [Hne Hlen].
  { unfold response, value_response, fits, value_full_size in *. destruct Hfits as [_ Hf]. cbn [v r_data] in *.
    destruct Hclass as [-> |[-> | ->]]; cbn -[le_bytes flat_map]; (split; [done|]); rewrite ?length_app, ?length_chars_bytes; cbn -[Z.of_nat Z.pow]; lia. }
  split.
  { rewrite (query_finds handle2 np n nd h2 v) by done. by apply (answer_ok info_class n v buffer len result_length s1). }
  split; [by apply value_responses|]. split.
  - set (s2 := with_values (h_key h2) (delete (narrow_wstring n) (values_of (h_key h2) s1)) s1). exists s2.
    assert (ZwDeleteValueKey handle2 np s1 = (Ok STATUS_SUCCESS, s2)) as Edel.
    { unfold ZwDeleteValueKey, bind at 1, get at 1. change (key_from_handle handle2 s1) with (key_from_handle handle2 s). rewrite Hh2.
      rewrite (bind_ok _ _ s1 n s1) by (apply reg_mem_reads; by apply (read_counted_ok 2 _ _ _ nd); [lia|]).
      unfold delete_value. rewrite bool_decide_true by (unfold query_value in Hq; rewrite Hq; by eexists). done. }
    destruct (query_misses handle np n nd h info_class buffer len result_length s2) as (m' & E & _); [done|done| |done|by exists m'].
    unfold s2, with_values, values_of at 1. cbn. rewrite Hk, lookup_insert_eq. cbn. apply lookup_delete_eq.
  - intros bad Hbad. unfold ZwSetValueKey, ZwQueryValueKey, ZwDeleteValueKey, bind, get. by rewrite Hbad.
Qed.
