(* ===== verification/VmOps.v ===== *)
(** * Virtual memory entry points

    modules/nt_vm_ops.cpp, the routines over memory: allocate, free, protect and
    query.  For a thread of a user process they answer from its [win_user_mem];
    for one of the kernel they work on the page tables alone, which keep no
    reservations.  [user] says whether user_mem(cpu) finds a process; the current
    space is the one in the state either way. *)

From S2P Require Import Prelude Mmu OrdMap UserMem.
From stdpp Require Import options.

Open Scope Z_scope.
Open Scope kern_scope.

Module Nt.
Definition STATUS_SUCCESS : Z := 0.
Definition STATUS_INVALID_INFO_CLASS : Z := 0xC0000003.
Definition STATUS_INFO_LENGTH_MISMATCH : Z := 0xC0000004.
Definition STATUS_INVALID_HANDLE : Z := 0xC0000008.
Definition STATUS_INVALID_PARAMETER : Z := 0xC000000D.
Definition STATUS_NO_MEMORY : Z := 0xC0000017.
Definition STATUS_CONFLICTING_ADDRESSES : Z := 0xC0000018.
Definition STATUS_UNABLE_TO_FREE_VM : Z := 0xC000001C.
Definition STATUS_MEMORY_NOT_ALLOCATED : Z := 0xC00000A0.
Definition STATUS_NOT_SUPPORTED : Z := 0xC00000BB.
Definition STATUS_INVALID_ADDRESS : Z := 0xC0000141.

Definition of_status (s : ntstatus) : Z :=
  match s with
  | UserMem.STATUS_SUCCESS => STATUS_SUCCESS
  | UserMem.STATUS_INVALID_PARAMETER => STATUS_INVALID_PARAMETER
  | UserMem.STATUS_NO_MEMORY => STATUS_NO_MEMORY
  | UserMem.STATUS_CONFLICTING_ADDRESSES => STATUS_CONFLICTING_ADDRESSES
  | UserMem.STATUS_UNABLE_TO_FREE_VM => STATUS_UNABLE_TO_FREE_VM
  | UserMem.STATUS_MEMORY_NOT_ALLOCATED => STATUS_MEMORY_NOT_ALLOCATED
  end.
End Nt.

(** ** Protections of the kernel's own pages *)

Definition prot_from_page (protect : Z) : Z :=
  let p := Z.land protect 0xFF in
  if p =? page_noaccess then 0
  else if p =? page_readonly then prot_read
  else if (p =? page_readwrite) || (p =? page_writecopy) then prot_rw
  else if p =? page_execute then prot_exec
  else if p =? page_execute_read then prot_rx
  else if (p =? page_execute_readwrite) || (p =? page_execute_writecopy) then prot_rwx
  else prot_rw.

Definition memory_basic_information : Z := 0.
Definition memory_working_set_ex_information : Z := 4.
Definition memory_image_information : Z := 6.
Definition memory_image_extension_information : Z := 14.

Definition working_set_valid : Z := 1.
Definition working_set_protection_shift : Z := 4.

Definition current_process_handle : Z := 2 ^ 64 - 1.
Definition is_current_process (handle : Z) : bool := (handle =? 0) || (handle =? current_process_handle).

Definition mdl_page_base (a : Z) : Z := page_align a.

(** A struct as it lies in memory. *)
Definition basic_info_bytes (i : memory_basic_info) : list Z :=
  le_bytes 8 (base_address i) ++ le_bytes 8 (allocation_base i) ++ le_bytes 4 (allocation_protect i) ++ le_bytes 4 0 ++
  le_bytes 8 (region_size i) ++ le_bytes 4 (i_state i) ++ le_bytes 4 (i_protect i) ++ le_bytes 4 (i_type i) ++ le_bytes 4 0.
Definition image_info_bytes (base size : Z) : list Z := le_bytes 8 base ++ le_bytes 8 size ++ le_bytes 4 0 ++ le_bytes 4 0.

(** A module of a process: where it is and how long. *)
Definition contains_addr (m : Z * Z) (a : Z) : bool := (m.1 <=? a) && (a <? m.1 +w m.2).
Definition find_module_by_addr (modules : list (Z * Z)) (a : Z) : option (Z * Z) :=
  match filter (fun m => contains_addr m a = true) modules with m :: _ => Some m | [] => None end.

(** The space of the thread: guest memory, and the allocator of the kernel's. *)
Class GuestSpace (X : Type) : Type := {
  gs_read : Z -> nat -> st X (list Z);
  gs_write : Z -> list Z -> st X unit;
  gs_alloc : Z -> Z -> st X Z
}.

Section VmOps.
Context {X : Type} {um : UserMmu X} {gs : GuestSpace X}.
#[local] Abbreviation ust := (st (win_user_mem X)).

Definition in_space {A} (f : st X A) : ust A := fun s =>
  let '(r, x) := f (mm s) in (r, UserMem x (next_free_ s) (reservations_ s) (backing_ s)).

(** [catch (const std::exception&)]: the model's own bound is no exception. *)
Definition catch {A} (f h : ust A) : ust A := fun s =>
  match f s with
  | (Throw out_of_fuel, s) => (Throw out_of_fuel, s)
  | (Throw _, s) => h s
  | r => r
  end.

Definition read_word (w : nat) (a : Z) : ust Z := let! l := in_space (gs_read a w) in ret (le_val l).
Definition write_word (w : nat) (a v : Z) : ust unit := in_space (gs_write a (le_bytes w v)).
(** [if (object) object.write(v)]. *)
Definition write_if (w : nat) (a v : Z) : ust unit := if a =? 0 then ret tt else write_word w a v.
Definition read_if (w : nat) (a : Z) : ust Z := if a =? 0 then ret 0 else read_word w a.

(** ** Allocating *)

Definition NtAllocateVirtualMemory (user : bool) (process_handle base_address region_size allocation_type protect : Z) : ust Z :=
  if negb (is_current_process process_handle) then ret Nt.STATUS_INVALID_HANDLE else
  if (base_address =? 0) || (region_size =? 0) then ret Nt.STATUS_INVALID_PARAMETER else
  let! requested := read_word 8 region_size in
  if requested =? 0 then ret Nt.STATUS_INVALID_PARAMETER else
  let! wanted := read_word 8 base_address in
  let size := size_align requested in
  if negb (has allocation_type (Z.lor mem_commit mem_reserve)) then ret Nt.STATUS_INVALID_PARAMETER else
  if user then
    let! r := UserMem.allocate wanted size allocation_type protect 0 in
    let '(status, base, region) := r in
    match status with
    | STATUS_SUCCESS => write_word 8 base_address base ;; write_word 8 region_size region ;; ret Nt.STATUS_SUCCESS
    | _ => ret (Nt.of_status status)
    end
  else
    let! addr := catch (let! a := in_space (gs_alloc size (Z.lor (prot_from_page protect) prot_supervisor)) in ret (Some a)) (ret None) in
    match addr with
    | None => ret Nt.STATUS_NO_MEMORY
    | Some addr =>
        if addr =? 0 then ret Nt.STATUS_NO_MEMORY else
        write_word 8 base_address addr ;; write_word 8 region_size size ;; ret Nt.STATUS_SUCCESS
    end.

(** ** Freeing *)

Definition NtFreeVirtualMemory (user : bool) (process_handle base_address region_size free_type : Z) : ust Z :=
  if negb (is_current_process process_handle) then ret Nt.STATUS_INVALID_HANDLE else
  if base_address =? 0 then ret Nt.STATUS_INVALID_PARAMETER else
  let! wanted := read_word 8 base_address in
  let base := mdl_page_base wanted in
  let! size := read_if 8 region_size in
  if user then
    let! r := UserMem.free base size free_type in
    let '(status, start, region) := r in
    match status with
    | STATUS_SUCCESS => write_word 8 base_address start ;; write_if 8 region_size region ;; ret Nt.STATUS_SUCCESS
    | _ => ret (Nt.of_status status)
    end
  else
    if has free_type mem_release && negb (size =? 0) then ret Nt.STATUS_INVALID_PARAMETER else
    let size := if has free_type mem_release then page_size else size in
    if size =? 0 then ret Nt.STATUS_INVALID_PARAMETER else
    let! freed := catch (in_space (um_unmap_virt base size) ;; ret true) (ret false) in
    if freed then write_if 8 region_size size ;; ret Nt.STATUS_SUCCESS else ret Nt.STATUS_MEMORY_NOT_ALLOCATED.

(** ** Protecting *)

Definition NtProtectVirtualMemory (user : bool) (process_handle base_address region_size new_protect old_protect : Z) : ust Z :=
  if negb (is_current_process process_handle) then ret Nt.STATUS_INVALID_HANDLE else
  if (base_address =? 0) || (region_size =? 0) then ret Nt.STATUS_INVALID_PARAMETER else
  let! requested := read_word 8 base_address in
  let base := mdl_page_base requested in
  let! length := read_word 8 region_size in
  let size := size_align (length +w (requested - base)) in
  if user then
    let! r := UserMem.protect base size new_protect in
    let '(status, start, region, previous) := r in
    match status with
    | STATUS_SUCCESS =>
        write_if 4 old_protect previous ;; write_word 8 base_address start ;; write_word 8 region_size region ;; ret Nt.STATUS_SUCCESS
    | _ => ret (Nt.of_status status)
    end
  else
    write_if 4 old_protect page_readwrite ;;
    let! done := catch (in_space (um_prot_virt base size (Z.lor (prot_from_page new_protect) prot_supervisor)) ;; ret true) (ret false) in
    if done then write_word 8 base_address base ;; write_word 8 region_size size ;; ret Nt.STATUS_SUCCESS
    else ret Nt.STATUS_INVALID_ADDRESS.

(** ** Querying *)

(** Entry by entry: the address asked about stays, the attributes are filled in. *)
Fixpoint working_set_loop (n : nat) (information : Z) : ust unit :=
  match n with
  | O => ret tt
  | S n =>
      let! entry := in_space (gs_read information 16) in
      let! s := get in
      let attributes :=
        match um_virt_to_phys (mm s) (mdl_page_base (le_val (take 8 entry))) with
        | Some _ => Z.lor working_set_valid (Z.shiftl page_execute_readwrite working_set_protection_shift)
        | None => 0
        end in
      in_space (gs_write information (take 8 entry ++ le_bytes 8 attributes)) ;;
      working_set_loop n (information +w 16)
  end.

(** [modules] are those of the thread's process. *)
Definition NtQueryVirtualMemory (user : bool) (modules : list (Z * Z)) (process_handle base_address info_class information length return_length : Z) : ust Z :=
  if negb (is_current_process process_handle) then ret Nt.STATUS_INVALID_HANDLE else
  if info_class =? memory_working_set_ex_information then
    let count := length / 16 in
    write_if 8 return_length (count * 16) ;;
    (if count =? 0 then ret Nt.STATUS_INFO_LENGTH_MISMATCH
     else working_set_loop (Z.to_nat count) information ;; ret Nt.STATUS_SUCCESS)
  else if info_class =? memory_image_information then
    write_if 8 return_length 0x18 ;;
    (if length <? 0x18 then ret Nt.STATUS_INFO_LENGTH_MISMATCH else
     match find_module_by_addr modules base_address with
     | None => ret Nt.STATUS_INVALID_ADDRESS
     | Some m => in_space (gs_write information (image_info_bytes m.1 m.2)) ;; ret Nt.STATUS_SUCCESS
     end)
  else if info_class =? memory_image_extension_information then
    write_if 8 return_length 0 ;; ret Nt.STATUS_NOT_SUPPORTED
  else if negb (info_class =? memory_basic_information) then ret Nt.STATUS_INVALID_INFO_CLASS
  else
    write_if 8 return_length 0x30 ;;
    (if length <? 0x30 then ret Nt.STATUS_INFO_LENGTH_MISMATCH else
     let! s := get in
     if user then
       let '(status, info) := query (reservations_ s) base_address in
       match status with
       | STATUS_SUCCESS => in_space (gs_write information (basic_info_bytes info)) ;; ret Nt.STATUS_SUCCESS
       | _ => ret (Nt.of_status status)
       end
     else
       let base := mdl_page_base base_address in
       let mapped := match um_virt_to_phys (mm s) base with Some _ => true | None => false end in
       in_space (gs_write information (basic_info_bytes
         (if mapped then Info base base page_readwrite page_size mem_commit page_readwrite mem_private
          else Info base 0 0 page_size mem_free 0 0))) ;;
       ret Nt.STATUS_SUCCESS).

End VmOps.
