(* ===== verification/VmThm.v ===== *)
(** * Virtual memory entry points: what the guest can rely on

    The routines of [VmOps] composed, as a guest composes them: what it reserves it
    can query and give back, and a protection it changes it can restore.  Between
    two calls the guest runs, which changes its memory and no reservation. *)

From S2P Require Import Prelude Mmu OrdMap UserMem UserMemMaps UserMemSpec UserMemThm UserMemClaims VmOps.
From stdpp Require Import options.

Open Scope Z_scope.
Open Scope kern_scope.

Section VmThm.
Context {X : Type} {um : UserMmu X} {gs : GuestSpace X}.
Implicit Types s : win_user_mem X.

(** The word at [a] is [v], and reading it changes nothing. *)
Definition word_at (s : win_user_mem X) (a v : Z) : Prop :=
  a <> 0 /\ in_u64 v /\ gs_read a 8 (mm s) = (Ok (le_bytes 8 v), mm s).

Lemma read_word_at s a v : word_at s a v -> read_word 8 a s = (Ok v, s).
Proof.
  intros (_ & Hv & E). unfold read_word, bind, in_space. rewrite E. destruct s. cbn -[le_bytes le_val]. unfold ret.
  rewrite le_val_bytes. by rewrite Z.mod_small by (unfold in_u64 in Hv; lia).
Qed.

Lemma in_space_inv {A} (f : st X A) s a s' : in_space f s = (Ok a, s') -> f (mm s) = (Ok a, mm s').
Proof. unfold in_space. destruct (f (mm s)) as [r x]. by intros [= -> <-]. Qed.

Lemma keeps_in_space {A} (f : st X A) : keeps (in_space f).
Proof. intros s. unfold in_space. by destruct (f (mm s)). Qed.
Lemma keeps_write_word w a v : keeps (write_word w a v).
Proof. apply keeps_in_space. Qed.
Lemma keeps_write_if w a v : keeps (write_if w a v).
Proof. unfold write_if. case_match; [apply keeps_ret|apply keeps_write_word]. Qed.

(** What is said of reservations alone stays true over what keeps them. *)
Lemma wp_over {A B} (f : st _ A) (g : A -> st _ B) s (Q : B -> win_user_mem X -> Prop) E :
  keeps f ->
  (forall a s', reservations_ s' = reservations_ s -> next_free_ s' = next_free_ s -> wp (g a) s' Q E) ->
  (forall e s', reservations_ s' = reservations_ s -> E e s') -> wp (bind f g) s Q E.
Proof. intros Hk HQ HE. apply wp_bind. by apply wp_keeps. Qed.

(** ** What a reservation leaves in the map *)

Definition reserved (kind prot b n : Z) : reservation :=
  Reservation n prot mem_private (if has kind mem_commit then [(b, Committed n prot)] else []).

Lemma reserve_reserved kind prot b n s s' :
  (set_reservations (insert b (Reservation n prot mem_private [])) ;;
   (if has kind mem_commit then
      commit_pages b n prot ;; on_committed b (insert b (Committed n prot))
    else ret tt)) s = (Ok tt, s') ->
  find (reservations_ s') b = Some (reserved kind prot b n).
Proof.
  unfold reserved, set_reservations at 1, modify, bind at 1. destruct (has kind mem_commit).
  - intros E. inv_bind E. unfold on_committed, set_reservations, modify in E. injection E as <-. cbn [reservations_].
    epose proof (keeps_commit_pages b n prot _) as [K _]. rewrite E0 in K. cbn [snd reservations_] in K.
    by rewrite K, !find_insert_eq.
  - intros E. injection E as <-. cbn [reservations_]. by rewrite find_insert_eq.
Qed.

Lemma allocate_reserved s base size kind prot al b n s' :
  has kind mem_reserve = true -> allocate base size kind prot al s = (Ok (STATUS_SUCCESS, b, n), s') ->
  b +w n <= user_addr_limit /\ find (reservations_ s') b = Some (reserved kind prot b n).
Proof.
  intros Hr E. unfold allocate in E. rewrite Hr in E. cbn [negb] in E. rewrite andb_false_r in E. cbn [andb] in E.
  destruct (_ =? 0) in E; [done|]. unfold bind at 1, get at 1 in E. inv_bind E.
  destruct (_ || _) eqn:Hl in E; [done|]. unfold bind at 1, get at 1 in E. case_match; [done|].
  inv_bind E. inv_bind E. injection E as <- <- <-. destruct a0, a1. apply orb_false_iff in Hl as [_ Hl%Z.ltb_ge]. split; [done|].
  eapply reserve_reserved. erewrite bind_ok by exact E1. exact E2.
Qed.

(** Where a reservation of [n] bytes goes.  At the base asked for, rounded down to
    64 KiB; or if none was asked for at the lowest range aligned to 64 KiB, from the
    cursor on, that meets no reservation. *)
Definition placed_at s (wanted n b : Z) : Prop :=
  if wanted =? 0 then
    b mod alloc_granularity = 0 /\ align_up (next_free_ s) alloc_granularity <= b /\
    forall b', b' mod alloc_granularity = 0 -> align_up (next_free_ s) alloc_granularity <= b' < b ->
      exists x, b' <= x < b' + n /\ at_view s x <> None
  else b = align_down wanted alloc_granularity.

(** How much is reserved: the size in whole pages, and a page more when the base is
    inside a page. *)
Definition reserved_size (wanted requested : Z) : Z :=
  size_align requested + (if wanted mod page_size =? 0 then 0 else page_size).

Lemma region_of_reserved wanted requested : 0 <= wanted -> 0 <= requested < 2 ^ 61 ->
  region_of wanted (size_align requested) = reserved_size wanted requested.
Proof.
  intros Hw Hr. pose proof (size_align_ok requested ltac:(lia) ltac:(lia)) as [H1 H2].
  pose proof (region_ok wanted (size_align requested) Hw ltac:(lia)) as (H3 & _ & H4). unfold reserved_size, page_align, page_size in *.
  pose proof (align_down_eq wanted 0x1000 pow2_4096) as E. rewrite E in H4. set (n := region_of _ _) in *. set (k := size_align _) in *.
  destruct (Z.eqb_spec (wanted mod 0x1000) 0); Z.to_euclidean_division_equations; lia.
Qed.

Lemma allocate_placed s base size kind prot b n s' :
  um_ok s -> 0 <= base -> 0 < region_of base size < 2 ^ 62 ->
  has kind mem_reserve = true -> allocate base size kind prot 0 s = (Ok (STATUS_SUCCESS, b, n), s') ->
  n = region_of base size /\ placed_at s base n b.
Proof.
  intros Hok Hb0 Hn Hr E. unfold allocate in E. rewrite Hr in E. cbn [negb] in E. rewrite andb_false_r in E. cbn [andb] in E.
  fold (region_of base size) in E. rewrite (proj2 (Z.eqb_neq _ 0)) in E by lia. unfold bind at 1, get at 1 in E. inv_bind E.
  destruct (_ || _) eqn:Hl in E; [done|]. unfold bind at 1, get at 1 in E. case_match; [done|].
  inv_bind E. inv_bind E. injection E as <- <- <-. apply orb_false_iff in Hl as [Ht%Z.eqb_neq _]. split; [done|].
  unfold placed_at. destruct (Z.eqb_spec base 0) as [->|]; cbn [negb] in E0; [|by injection E0 as <- _].
  destruct Hok as [W Hnf].
  pose proof (pick_base_spec (region_of 0 size) 0 s (fun _ _ => False) W ltac:(lia) ltac:(lia) pow2_64k ltac:(vm_compute; discriminate)) as Hp.
  apply (wp_ok _ _ _ _ _ _ Hp) in E0 as [_ [[H0 _]|(H1 & H2 & _ & _ & _ & H3)]]; [done|]. change (Z.max 0 alloc_granularity) with alloc_granularity in *.
  split_and!; [done|done|]. intros b' Hb1 Hb2. destruct (H3 b' Hb1 Hb2) as (x & Hx & Hne). exists x. split; [done|].
  intros Hv. by apply Hne, view_free.
Qed.

Lemma placed_covers s wanted requested n b : placed_at s wanted n b -> requested <= n ->
  wanted mod alloc_granularity = 0 -> wanted <> 0 -> b <= wanted /\ wanted + requested <= b + n.
Proof.
  unfold placed_at. intros Hp Hn Hm H0. rewrite (proj2 (Z.eqb_neq _ _) H0), align_down_id in Hp by (apply pow2_64k || done). lia.
Qed.

(** ** Giving a reservation back *)

Lemma release_reserved s b r :
  um_wf (reservations_ s) -> find (reservations_ s) b = Some r -> r_type r = mem_private -> b mod page_size = 0 ->
  wp (free b 0 mem_release) s
    (fun res s' => res = (STATUS_SUCCESS, b, r_size r) /\ um_wf (reservations_ s') /\
       forall x, at_view s' x = if in_range b (b + r_size r) x then None else at_view s x)
    (fun _ s' => um_wf (reservations_ s')).
Proof.
  intros W Hf Hp Hb. pose proof (find_bounds _ _ _ _ _ (uw_ivs _ W) Hf) as Hr. unfold size_of, reservation_sized in Hr.
  assert (page_align b = b) as Eb by (apply align_down_id; [apply pow2_4096|done]).
  unfold free. rewrite Eb. cbn zeta. unfold wp at 1, get, bind at 1. rewrite (find_reservation_at _ W).
  rewrite (find_at_addr _ _ _ _ _ b (uw_ivs _ W) Hf) by (unfold size_of, reservation_sized; lia).
  change (has mem_release mem_release) with true. cbn iota. rewrite Z.eqb_refl. cbn [negb]. rewrite Z.eqb_refl, Hp.
  change (mem_private =? mem_private) with true. cbn [negb].
  apply wp_over; [apply keeps_release_loop| |by intros e s' ->]. intros _ s' Es' _.
  unfold wp, set_reservations, modify, bind, ret. cbn [reservations_]. rewrite Es'. split_and!; [done|by apply (release_view _ _ _ 0 W Hf)|].
  intros x. unfold at_view. cbn [reservations_]. by apply release_view.
Qed.

(** ** The entry points *)

Lemma NtAllocate_inv s h pb ps kind prot wanted requested s1 :
  word_at s pb wanted -> word_at s ps requested ->
  NtAllocateVirtualMemory true h pb ps kind prot s = (Ok Nt.STATUS_SUCCESS, s1) ->
  requested <> 0 /\ exists b n s', allocate wanted (size_align requested) kind prot 0 s = (Ok (STATUS_SUCCESS, b, n), s') /\
    (write_word 8 pb b ;; write_word 8 ps n) s' = (Ok tt, s1).
Proof.
  intros Hb Hs. unfold NtAllocateVirtualMemory. destruct (negb _); [done|]. destruct (_ || _); [done|].
  erewrite bind_ok by by apply read_word_at. destruct (Z.eqb_spec requested 0) as [|Hne]; [done|]. erewrite bind_ok by by apply read_word_at.
  destruct (negb _); [done|]. intros E. split; [done|]. inv_bind E. destruct a as [[st b] n]. destruct st; cbn in E; try done.
  inv_bind E. inv_bind E. injection E as <-. destruct a, a0. exists b, n, s0. split; [done|]. by erewrite bind_ok.
Qed.

(** A query whose buffer has room answers what [query] says. *)
Lemma NtQuery_basic s mods h x info len :
  is_current_process h = true -> 0x30 <= len ->
  NtQueryVirtualMemory true mods h x memory_basic_information info len 0 s =
    (let '(st, i) := query (reservations_ s) x in
     match st with
     | STATUS_SUCCESS => in_space (gs_write info (basic_info_bytes i)) ;; ret Nt.STATUS_SUCCESS
     | _ => ret (Nt.of_status st)
     end) s.
Proof.
  intros Hh Hl. unfold NtQueryVirtualMemory. rewrite Hh. cbn [negb].
  do 4 (match goal with |- context [if memory_basic_information =? ?c then _ else _] => change (memory_basic_information =? c) with false; cbn iota end || idtac).
  change (negb (memory_basic_information =? memory_basic_information)) with false. cbn iota.
  change (write_if 8 0 0x30) with (@ret (win_user_mem X) unit tt). unfold bind at 1, ret at 1.
  rewrite (proj2 (Z.ltb_ge _ _)) by lia. unfold bind at 1, get. by destruct (query _ x).
Qed.

Lemma NtFree_reserved s h pb ps b r :
  is_current_process h = true -> word_at s pb b -> ps = 0 \/ word_at s ps 0 ->
  um_wf (reservations_ s) -> find (reservations_ s) b = Some r -> r_type r = mem_private -> b mod page_size = 0 ->
  wp (NtFreeVirtualMemory true h pb ps mem_release) s
    (fun st s' => st = Nt.STATUS_SUCCESS /\ um_wf (reservations_ s') /\
       forall x, at_view s' x = if in_range b (b + r_size r) x then None else at_view s x)
    (fun _ s' => um_wf (reservations_ s')).
Proof.
  intros Hh Hb Hs W Hf Hp Hm. unfold NtFreeVirtualMemory. rewrite Hh. cbn [negb].
  rewrite (proj2 (Z.eqb_neq pb 0)) by apply Hb. unfold wp at 1. erewrite bind_ok by by apply read_word_at.
  assert (read_if 8 ps s = (Ok 0, s)) as Er.
  { unfold read_if. destruct Hs as [->|Hs]; [done|]. case_match; [done|by apply read_word_at]. }
  erewrite bind_ok by exact Er. apply wp_bind. unfold mdl_page_base. replace (page_align b) with b by (symmetry; apply align_down_id; [apply pow2_4096|done]).
  eapply wp_mono; [by apply (release_reserved s b r)| |done]. intros [[st b'] n] s1 ([= -> -> ->] & W1 & V1).
  apply wp_over; [apply keeps_write_word| |by intros e s' ->]. intros _ s2 E2 _.
  apply wp_over; [apply keeps_write_if| |by intros e s' ->; rewrite E2]. intros _ s3 E3 _.
  unfold wp, ret, at_view in *. by rewrite E3, E2.
Qed.

(** What the answer to a query has to say of an address in a reservation at [b]. *)
Definition answers (b x : Z) (p : option Z) (i : memory_basic_info) : Prop :=
  base_address i = page_align x /\ x < base_address i + region_size i /\ allocation_base i = b /\
  match p with Some p => i_state i = mem_commit /\ i_protect i = p | None => i_state i = mem_reserve end.

Lemma query_answers m b x p :
  um_wf m -> 0 <= x <= user_addr_limit -> view m x = Some (b, p) ->
  (query m x).1 = STATUS_SUCCESS /\ answers b x p (query m x).2.
Proof.
  intros W Hx Hv. pose proof (query_spec m x W Hx) as H. destruct (query m x) as [st i]. rewrite Hv in H.
  destruct H as (-> & Hb & Hl & _ & _ & H). split; [done|]. unfold answers. cbn [snd].
  destruct p as [p|]; cbn in H; destruct H as [H1 H2]; split_and!; try done; by destruct H2.
Qed.

(** C33: what a reservation is for.  When NtAllocateVirtualMemory reserves (and, if
    asked, commits), it tells the guest an address and a size.  The address is the
    one asked for rounded down to 64 KiB, or the lowest range free from the cursor on
    if none was asked for; the size is the one asked for in whole pages, and one
    page more when the address asked for is inside a page.  (So a range asked for at
    a multiple of 64 KiB is covered; [reserve_misses_request] is one that is not.)
    All of it was free before and is one reservation now, and no other address
    changes.  Until the reservations change, whatever the guest does to its memory,
    a query of any address there succeeds with the page, this reservation and its
    protection, or that it is reserved only; and NtFreeVirtualMemory of the address
    it was told succeeds and makes every address what it was before. *)
Theorem vm_reserve_query_release s h pb ps kind prot wanted requested s1 :
  um_ok s -> word_at s pb wanted -> word_at s ps requested -> wanted < 2 ^ 63 -> requested < 2 ^ 60 ->
  has kind mem_reserve = true -> is_current_process h = true ->
  NtAllocateVirtualMemory true h pb ps kind prot s = (Ok Nt.STATUS_SUCCESS, s1) ->
  exists b n,
    let p := if has kind mem_commit then Some prot else None in
    placed_at s wanted n b /\ n = reserved_size wanted requested /\
    (wanted mod alloc_granularity = 0 -> wanted <> 0 -> b <= wanted /\ wanted + requested <= b + n) /\
    requested <= n /\ b mod page_size = 0 /\ n mod page_size = 0 /\
    (exists x x', gs_write pb (le_bytes 8 b) x = (Ok tt, x') /\ gs_write ps (le_bytes 8 n) x' = (Ok tt, mm s1)) /\
    (forall x, b <= x < b + n -> at_view s x = None) /\
    (forall x, at_view s1 x = if in_range b (b + n) x then Some (b, p) else at_view s x) /\
    forall s2, reservations_ s2 = reservations_ s1 ->
      (forall mods x info len, b <= x < b + n -> 0x30 <= len ->
         wp (NtQueryVirtualMemory true mods h x memory_basic_information info len 0) s2
           (fun st s3 => st = Nt.STATUS_SUCCESS /\ reservations_ s3 = reservations_ s1 /\
              exists i, answers b x p i /\ gs_write info (basic_info_bytes i) (mm s2) = (Ok tt, mm s3))
           (fun _ s3 => reservations_ s3 = reservations_ s1)) /\
      (forall pb' ps', word_at s2 pb' b -> ps' = 0 \/ word_at s2 ps' 0 ->
         wp (NtFreeVirtualMemory true h pb' ps' mem_release) s2
           (fun st s3 => st = Nt.STATUS_SUCCESS /\ forall x, at_view s3 x = at_view s x)
           (fun _ s3 => um_wf (reservations_ s3))).
Proof.
  intros Hok Hb Hs Hb' Hs' Hr Hh E. destruct (NtAllocate_inv _ _ _ _ _ _ _ _ _ Hb Hs E) as (Hr0 & b & n & s' & Ea & Ew).
  destruct Hb as (_ & [Hb0 _] & _), Hs as (_ & [Hs0 _] & _). pose proof (size_align_ok requested Hs0 ltac:(lia)) as [Hsz _].
  assert (wp (allocate wanted (size_align requested) kind prot 0) s (alloc_post kind prot 0 wanted (size_align requested) s) (fun _ => um_ok)) as Hp.
  { apply allocate_spec; try done; [unfold in_u64 in *; lia..|apply pow2_64k]. }
  apply (wp_ok _ _ _ _ _ _ Hp) in Ea as Hpost. destruct Hpost as ([W' _] & Hbm & Hn & Hnm & Hcov & _ & _ & k & Hk & Hv).
  pose proof (allocate_reserved _ _ _ _ _ _ _ _ _ Hr Ea) as [Hlim Hf].
  pose proof (region_of_reserved wanted requested Hb0 ltac:(lia)) as Er. assert (0 < reserved_size wanted requested < 2 ^ 61) as Hrs by (unfold reserved_size, page_size in *; case_match; lia).
  destruct (allocate_placed s wanted (size_align requested) kind prot b n s' Hok Hb0 ltac:(lia) Hr Ea) as [En Hpl].
  inv_bind Ew. destruct a.
  pose proof (proj1 (keeps_write_word 8 pb b s')) as K1. rewrite E0 in K1. pose proof (proj1 (keeps_write_word 8 ps n s0)) as K2. rewrite Ew in K2.
  cbn [snd] in K1, K2. assert (reservations_ s1 = reservations_ s') as R1 by congruence.
  destruct Hk as [[-> Hfree]|[Hk _]]; [|congruence]. exists b, n. cbn zeta. unfold at_view in *.
  pose proof (find_bounds _ _ _ _ _ (uw_ivs _ W') Hf) as Hbd. unfold size_of, reservation_sized, top in Hbd. cbn [r_size reserved] in Hbd.
  rewrite u64_small in Hlim by (unfold in_u64; lia). rewrite R1.
  split_and!; [done|congruence|apply (placed_covers s wanted requested n b Hpl); lia|lia|done|done|exists (mm s'), (mm s0); split; by apply in_space_inv|done|done|].
  intros s2 E2. split.
  - intros mods x info len Hx Hl. unfold wp. rewrite NtQuery_basic, E2 by done.
    destruct (query_answers (reservations_ s') b x (if has kind mem_commit then Some prot else None) W') as [Q1 Q2];
      [lia|by rewrite Hv, (proj2 (in_range_true _ _ _))|].
    destruct (query (reservations_ s') x) as [st i]. cbn [fst] in Q1. subst st.
    unfold bind, in_space. destruct (gs_write info _ (mm s2)) as [[[]|e] x'] eqn:Ex; cbn; [|done]. split_and!; [done|done|by exists i].
  - intros pb' ps' Hpb Hps. eapply wp_mono; [apply (NtFree_reserved s2 h pb' ps' b (reserved kind prot b n))| |done]; rewrite ?E2; try done.
    intros st s3 (-> & _ & V). split; [done|]. intros x. unfold at_view in V. rewrite V, E2, Hv. cbn [r_size reserved].
    destruct (in_range b (b + n) x) eqn:Hx; [|done]. apply in_range_true in Hx. symmetry. by apply Hfree.
Qed.

(** ** Protections *)

(** Every address of the range is committed in the reservation [k] with [p]. *)
Definition all_committed s b n k p : Prop := forall x, b <= x < b + n -> at_view s x = Some (k, Some p).

Lemma NtProtect_committed s h pb ps new po b n k p :
  is_current_process h = true -> word_at s pb b -> word_at s ps n -> um_wf (reservations_ s) ->
  b < 2 ^ 63 -> 0 < n < 2 ^ 60 -> b mod page_size = 0 -> n mod page_size = 0 -> all_committed s b n k p ->
  wp (NtProtectVirtualMemory true h pb ps new po) s
    (fun st s' => st = Nt.STATUS_SUCCESS /\ um_wf (reservations_ s') /\
       (po <> 0 -> exists x x', gs_write po (le_bytes 4 p) x = (Ok tt, x')) /\
       forall x, at_view s' x = if in_range b (b + n) x then Some (k, Some new) else at_view s x)
    (fun _ s' => um_wf (reservations_ s')).
Proof.
  intros Hh Hb Hn W Hb' Hn' Hbm Hnm Hall. assert (page_align b = b) as Eb by (apply align_down_id; [apply pow2_4096|done]).
  assert (size_align (n +w (b - b)) = n) as En.
  { rewrite Z.sub_diag, Z.add_0_r, u64_small by (unfold in_u64; lia). apply align_up_id; [apply pow2_4096|lia|unfold page_size; lia|done]. }
  unfold NtProtectVirtualMemory. rewrite Hh, (proj2 (Z.eqb_neq pb 0)), (proj2 (Z.eqb_neq ps 0)) by first [apply Hb|apply Hn]. cbn [negb orb].
  unfold wp at 1. erewrite bind_ok by by apply read_word_at. erewrite bind_ok by by apply read_word_at. unfold mdl_page_base. rewrite Eb, En.
  apply wp_bind. eapply wp_mono; [apply (protect_spec s b n new (fun _ s' => um_wf (reservations_ s'))); try done; [destruct Hb as (_ & [? _] & _); lia|lia]| |done].
  intros [[[st c] m] old] s1 [W1 H]. cbn zeta in H. unfold all_committed, at_view in *. unfold region_of in H.
  rewrite Eb, En, (Hall b ltac:(lia)) in H. destruct H as [[= -> -> -> ->] V].
  apply wp_bind. destruct (write_if 4 po p s1) as [r s2] eqn:E. pose proof (proj1 (keeps_write_if 4 po p s1)) as E2. rewrite E in E2. cbn [snd] in E2.
  unfold wp at 1. rewrite E. destruct r as [[]|e]; [|by rewrite E2].
  apply wp_over; [apply keeps_write_word| |by intros e s' ->; rewrite E2]. intros _ s3 E3 _.
  apply wp_over; [apply keeps_write_word| |by intros e s' ->; rewrite E3, E2]. intros _ s4 E4 _.
  unfold wp, ret. rewrite E4, E3, E2. split_and!; [done|done| |].
  - intros Hpo. unfold write_if in E. rewrite (proj2 (Z.eqb_neq po 0)) in E by done. apply in_space_inv in E. eauto.
  - intros x. rewrite V. unfold revised. destruct (in_range b (b + n) x) eqn:Hx; [|by destruct (view _ x) as [[k' q]|]; [rewrite andb_false_r|]].
    apply in_range_true in Hx. rewrite Hall by done. by rewrite Z.eqb_refl.
Qed.

(** A protection changed can be put back: over a range committed with one
    protection NtProtectVirtualMemory reports it, gives the new one to exactly that
    range, and a second call with what was reported makes every address what it
    was, whatever the guest does to its memory in between. *)
Theorem vm_protect_restores s h pb ps new po b n k p :
  is_current_process h = true -> word_at s pb b -> word_at s ps n -> um_wf (reservations_ s) ->
  b < 2 ^ 63 -> 0 < n < 2 ^ 60 -> b mod page_size = 0 -> n mod page_size = 0 -> all_committed s b n k p ->
  wp (NtProtectVirtualMemory true h pb ps new po) s
    (fun st s1 => st = Nt.STATUS_SUCCESS /\
       (po <> 0 -> exists x x', gs_write po (le_bytes 4 p) x = (Ok tt, x')) /\
       (forall x, at_view s1 x = if in_range b (b + n) x then Some (k, Some new) else at_view s x) /\
       forall s2 pb' ps' po', reservations_ s2 = reservations_ s1 -> word_at s2 pb' b -> word_at s2 ps' n ->
         wp (NtProtectVirtualMemory true h pb' ps' p po') s2
           (fun st s3 => st = Nt.STATUS_SUCCESS /\ forall x, at_view s3 x = at_view s x)
           (fun _ s3 => um_wf (reservations_ s3)))
    (fun _ s1 => um_wf (reservations_ s1)).
Proof.
  intros Hh Hb Hn W Hb' Hn' Hbm Hnm Hall.
  eapply wp_mono; [by apply (NtProtect_committed s h pb ps new po b n k p)| |done].
  intros st s1 (-> & W1 & Ho & V). split_and!; [done|done|done|]. intros s2 pb' ps' po' E2 Hpb Hps.
  eapply wp_mono; [apply (NtProtect_committed s2 h pb' ps' p po' b n k new); rewrite ?E2; try done| |done].
  - intros x Hx. unfold at_view in *. rewrite E2, V. by rewrite (proj2 (in_range_true _ _ _)).
  - intros st s3 (-> & _ & _ & V3). split; [done|]. intros x. unfold at_view in *. rewrite V3, E2, V.
    destruct (in_range b (b + n) x) eqn:Hx; [|done]. apply in_range_true in Hx. symmetry. by apply Hall.
Qed.

(** ** What is refused

    Another process, a null pointer, an empty size or no kind of allocation: the
    status says so and nothing at all changes. *)
Theorem vm_refusals s user h pb ps kind prot :
  (is_current_process h = false ->
     NtAllocateVirtualMemory user h pb ps kind prot s = (Ok Nt.STATUS_INVALID_HANDLE, s) /\
     NtFreeVirtualMemory user h pb ps kind s = (Ok Nt.STATUS_INVALID_HANDLE, s) /\
     (forall po, NtProtectVirtualMemory user h pb ps prot po s = (Ok Nt.STATUS_INVALID_HANDLE, s)) /\
     forall mods x c i len rl, NtQueryVirtualMemory user mods h x c i len rl s = (Ok Nt.STATUS_INVALID_HANDLE, s)) /\
  (is_current_process h = true ->
     (pb = 0 \/ ps = 0 -> NtAllocateVirtualMemory user h pb ps kind prot s = (Ok Nt.STATUS_INVALID_PARAMETER, s) /\
        forall po, NtProtectVirtualMemory user h pb ps prot po s = (Ok Nt.STATUS_INVALID_PARAMETER, s)) /\
     NtFreeVirtualMemory user h 0 ps kind s = (Ok Nt.STATUS_INVALID_PARAMETER, s) /\
     (forall v, word_at s ps 0 -> word_at s pb v -> NtAllocateVirtualMemory user h pb ps kind prot s = (Ok Nt.STATUS_INVALID_PARAMETER, s)) /\
     (forall v r, word_at s ps r -> word_at s pb v -> has kind (Z.lor mem_commit mem_reserve) = false ->
        NtAllocateVirtualMemory user h pb ps kind prot s = (Ok Nt.STATUS_INVALID_PARAMETER, s))).
Proof.
  unfold NtAllocateVirtualMemory, NtFreeVirtualMemory, NtProtectVirtualMemory, NtQueryVirtualMemory. split; intros ->; cbn [negb]; [done|].
  split_and!; [|done| |].
  - intros [->| ->]; [done|]. rewrite Z.eqb_refl, orb_true_r. done.
  - intros v Hs Hb. rewrite (proj2 (Z.eqb_neq pb 0)), (proj2 (Z.eqb_neq ps 0)) by first [apply Hb|apply Hs]. cbn [orb].
    by erewrite bind_ok by by apply read_word_at.
  - intros v r Hs Hb Hk. rewrite (proj2 (Z.eqb_neq pb 0)), (proj2 (Z.eqb_neq ps 0)) by first [apply Hb|apply Hs]. cbn [orb].
    erewrite bind_ok by by apply read_word_at. destruct (r =? 0); [done|]. erewrite bind_ok by by apply read_word_at. by rewrite Hk.
Qed.

End VmThm.
