(* ===== verification/VmExamples.v ===== *)
(** * Virtual memory entry points at work

    A user process on the x86-64 MMU with one page of arguments mapped, the
    theorems of [VmThm] at this state, and the two ways in which the size
    NtAllocateVirtualMemory works with is not the one it was given. *)

From S2P Require Import Prelude Phys Mmu Space X86Mmu X86Examples.
From S2P Require Import OrdMap UserMem UserMemMaps UserMemSpec UserMemThm UserMemClaims VmOps VmThm.
From stdpp Require Import options.

Open Scope Z_scope.
Open Scope kern_scope.

(** [addr_space::read_mem], [write_mem] and [alloc] over the x86-64 MMU. *)
#[export] Instance x86_guest_space : GuestSpace (mmu Unicorn.mem * addr_space) := {
  gs_read a n x := let '(r, m) := read_virt x.2 a (replicate n 0) x.1 in (r, (m, x.2));
  gs_write a l x := let '(r, m) := write_virt x.2 a l x.1 in (r, (m, x.2));
  gs_alloc := X86Mmu.alloc
}.

(** The word at 0x10000 is the base, the one at 0x10008 the size. *)
Definition with_args (base size : Z) : win_user_mem (mmu Unicorn.mem * addr_space) :=
  snd ((in_space (um_map_virt 0x10000 0x1000 prot_rw) ;; write_word 8 0x10000 base ;; write_word 8 0x10008 size)
    (UserMem (one_space, first_space) user_alloc_base [] [])).

Definition asking : win_user_mem (mmu Unicorn.mem * addr_space) := with_args 0 0x5000.
Definition both : Z := Z.lor mem_reserve mem_commit.

Definition asked := NtAllocateVirtualMemory true current_process_handle 0x10000 0x10008 both page_readwrite asking.
Lemma asked_ok :
  NtAllocateVirtualMemory true current_process_handle 0x10000 0x10008 both page_readwrite asking = (Ok Nt.STATUS_SUCCESS, snd asked).
Proof. assert (fst asked = Ok Nt.STATUS_SUCCESS) as <- by (vm_compute; reflexivity). apply surjective_pairing. Qed.

Lemma nothing_wf : um_wf [].
Proof. split; [cbn; unfold top; lia|]. intros k r H. discriminate H. Qed.

Lemma asking_ok : um_ok asking.
Proof.
  assert (reservations_ asking = [] /\ next_free_ asking = user_alloc_base) as [E1 E2] by (split; vm_compute; reflexivity).
  split; [rewrite E1; exact nothing_wf|]. rewrite E2. clear E1 E2. unfold user_alloc_base. lia.
Qed.

(** Reading leaves the space alone, so that only what is read has to be looked at. *)
Lemma read_virt_same sp fuel va buf done m : (copy_virt fuel sp va buf done false m).2 = m.
Proof.
  revert buf done m. induction fuel as [|fuel IH]; intros buf done m; cbn [copy_virt Space.copy_virt]; case_match; try reflexivity.
  unfold bind, get. by case_match; [apply IH|].
Qed.

Lemma word_here (s : win_user_mem (mmu Unicorn.mem * addr_space)) a l :
  fst (gs_read a 8 (mm s)) = Ok l -> gs_read a 8 (mm s) = (Ok l, mm s).
Proof.
  cbn [gs_read x86_guest_space]. pose proof (read_virt_same (mm s).2 (Space.copy_fuel (length (replicate 8 0))) a (replicate 8 0) 0 (mm s).1) as H.
  unfold read_virt, Space.read_virt. fold copy_virt. destruct (copy_virt _ _ _ _ _ _ (mm s).1) as [r m]. cbn in *. intros ->. subst m. by destruct (mm s).
Qed.

Lemma asking_words : word_at asking 0x10000 0 /\ word_at asking 0x10008 0x5000.
Proof. split; (split; [lia|split; [unfold in_u64; lia|apply word_here; vm_compute; reflexivity]]). Qed.

#[local] Opaque asking asked.

(** What is told is there, and the last byte of it can be asked about. *)
Lemma vm_reserve_query_release_witness :
  exists b n, 0x5000 <= n /\ b mod page_size = 0 /\
    at_view (snd asked) b = Some (b, Some page_readwrite) /\
    wp (NtQueryVirtualMemory true [] current_process_handle (b + n - 1) memory_basic_information 0x10100 0x30 0) (snd asked)
      (fun st _ => st = Nt.STATUS_SUCCESS) (fun _ _ => True).
Proof.
  destruct asking_words as [Hb Hs].
  destruct (vm_reserve_query_release asking current_process_handle 0x10000 0x10008 both page_readwrite 0 0x5000 (snd asked)
    asking_ok Hb Hs ltac:(lia) ltac:(lia) eq_refl eq_refl asked_ok) as (b & n & _ & _ & _ & H1 & H2 & _ & _ & _ & V & H).
  exists b, n. change (has both mem_commit) with true in *. cbn iota in *. split_and!; [done|done| |].
  - rewrite V. by rewrite (proj2 (in_range_true _ _ _)) by lia.
  - destruct (H (snd asked) eq_refl) as [Hq _]. eapply wp_mono; [apply Hq; lia| |done]. by intros st s3 [-> _].
Defined.

(** ** Protections *)

(** The reservation just made, with the arguments of NtProtectVirtualMemory. *)
Definition protecting : win_user_mem (mmu Unicorn.mem * addr_space) :=
  snd ((write_word 8 0x10000 0x100001000 ;; write_word 8 0x10008 0x2000) (snd asked)).

Lemma protecting_words : word_at protecting 0x10000 0x100001000 /\ word_at protecting 0x10008 0x2000.
Proof. split; (split; [lia|split; [unfold in_u64; lia|apply word_here; vm_compute; reflexivity]]). Qed.

Lemma protecting_map :
  reservations_ protecting = [(0x100000000, Reservation 0x5000 page_readwrite mem_private [(0x100000000, Committed 0x5000 page_readwrite)])].
Proof. vm_compute. reflexivity. Qed.

Lemma protecting_wf : um_wf (reservations_ protecting).
Proof.
  rewrite protecting_map. split; [cbn; unfold top; lia|]. intros k r Hf. cbn in Hf.
  destruct (Z.eqb_spec k 0x100000000) as [->|]; [|discriminate Hf]. injection Hf as <-.
  split; [reflexivity|reflexivity|]. split; [cbn; lia|]. by repeat constructor.
Qed.

#[local] Opaque protecting.

(** Two pages in the middle are made read-only, and no others. *)
Lemma vm_protect_restores_witness :
  wp (NtProtectVirtualMemory true current_process_handle 0x10000 0x10008 page_readonly 0) protecting
    (fun st s1 => st = Nt.STATUS_SUCCESS /\ at_view s1 0x100001000 = Some (0x100000000, Some page_readonly) /\
       at_view s1 0x100003000 = Some (0x100000000, Some page_readwrite))
    (fun _ _ => True).
Proof.
  destruct protecting_words as [Hb Hn].
  eapply wp_mono; [apply (vm_protect_restores protecting current_process_handle 0x10000 0x10008 page_readonly 0 0x100001000 0x2000 0x100000000 page_readwrite)| |done].
  - reflexivity.
  - exact Hb.
  - exact Hn.
  - exact protecting_wf.
  - lia.
  - lia.
  - reflexivity.
  - reflexivity.
  - intros x Hx. unfold at_view, view. rewrite protecting_map. cbn.
    rewrite (proj2 (Z.leb_le _ _)), (proj2 (Z.ltb_lt _ _)) by lia. cbn. by rewrite (proj2 (Z.leb_le _ _)), (proj2 (Z.ltb_lt _ _)) by lia.
  - intros st s1 (-> & _ & V & _). split; [reflexivity|]. rewrite !V. split; [reflexivity|]. unfold at_view. rewrite protecting_map. reflexivity.
Defined.

(** ** The size is rounded before the address is

    The entry point rounds the size up to pages before [allocate] adds how far
    into its page the address is.  So a byte at the start of a page's last word,
    which lies in one page, is given two; and a size just under 2^64 wraps to 0 and
    is given the one page the address is in. *)

Definition allocated_by (base size : Z) : result Z * (Z * Z) :=
  let '(r, s) := NtAllocateVirtualMemory true current_process_handle 0x10000 0x10008 both page_readwrite (with_args base size) in
  let word a := match fst (read_word 8 a s) with Ok v => v | Throw _ => 0 end in
  (r, (word 0x10000, word 0x10008)).

Example allocate_anywhere : allocated_by 0 0x5000 = (Ok Nt.STATUS_SUCCESS, (0x100000000, 0x5000)).
Proof. vm_compute. reflexivity. Qed.

Theorem allocate_rounds_twice :
  allocated_by 0x200000FF8 1 = (Ok Nt.STATUS_SUCCESS, (0x200000000, 0x2000)) /\
  allocated_by 0x200000001 (2 ^ 64 - 1) = (Ok Nt.STATUS_SUCCESS, (0x200000000, 0x1000)) /\
  allocated_by 0x200000000 (2 ^ 64 - 1) = (Ok Nt.STATUS_INVALID_PARAMETER, (0x200000000, 2 ^ 64 - 1)).
Proof. vm_compute. auto. Qed.
