(* ===== verification/Ports.v ===== *)
(** * Ports

    modules/nt_lpc_ops.cpp: ALPC ports between the guest's own threads, over the
    handle table and the namespace of [Objects] and guest memory.  A port is a host
    object; its peer is a weak reference, which is gone once no object holds the
    port it names.  Nothing blocks on a port: an empty one answers at once. *)

From stdpp Require Import list gmap.
From S2P Require Import Prelude Mmu Paths Objects GuestMem StringOps.
From stdpp Require Import options.

Open Scope Z_scope.
Open Scope kern_scope.

Module Ports.

Definition STATUS_TIMEOUT : Z := 0x102.
Definition STATUS_INVALID_HANDLE : Z := 0xC0000008.
Definition STATUS_OBJECT_NAME_NOT_FOUND : Z := 0xC0000034.
Definition STATUS_OBJECT_NAME_COLLISION : Z := 0xC0000035.
Definition STATUS_PORT_DISCONNECTED : Z := 0xC0000037.
Definition STATUS_INSUFFICIENT_RESOURCES : Z := 0xC000009A.
Definition PORT_ALL_ACCESS : Z := 0x001F0001.

Definition maximum_message_length : Z := 0x10000.
Definition default_maximum_message_length : Z := 0x148.
Definition maximum_port_view_size : Z := 0x100000.
(** [sizeof(_PORT_MESSAGE)]. *)
Definition port_message_size : Z := 0x28.

(** ** State *)

Record alpc_port_host : Type := PortHost {
  name : str; is_server : bool; peer : option Z; messages_ : list (list Z)
}.
Record psys : Type := PSys { p_mem : gmem; tbl : table; ports : gmap Z alpc_port_host; fresh_host : Z }.
Abbreviation pst := (st psys).

Definition set_mem m s := PSys m (tbl s) (ports s) (fresh_host s).
Definition set_tbl t s := PSys (p_mem s) t (ports s) (fresh_host s).
Definition set_ports f s := PSys (p_mem s) (tbl s) (f (ports s)) (fresh_host s).
Definition new_port p s := PSys (p_mem s) (tbl s) (<[fresh_host s := p]> (ports s)) (fresh_host s + 1).
Definition on_mem {A} (f : gst A) : pst A := fun s => let '(r, m) := f (p_mem s) in (r, set_mem m s).

Definition with_messages l p := PortHost (name p) (is_server p) (peer p) l.
Definition with_peer q p := PortHost (name p) (is_server p) (Some q) (messages_ p).
Definition post (message : list Z) (p : alpc_port_host) : alpc_port_host := with_messages (messages_ p ++ [message]) p.
Definition take_message (p : alpc_port_host) : option (list Z) * alpc_port_host :=
  match messages_ p with [] => (None, p) | m :: l => (Some m, with_messages l p) end.

(** [weak_ptr::lock]: the port is there as long as an object holds it. *)
Definition alive (r : Z) (t : table) : bool := existsb (fun e => bool_decide (o_host e.2 = Some r)) (map_to_list (objects_ (objs_ t))).
Definition lock (p : alpc_port_host) (t : table) : option Z := peer p ≫= fun r => if alive r t then Some r else None.

(** [get_object<alpc_port_host>]: a host that is no port is none. *)
Definition port_of (host : option Z) (s : psys) : option (Z * alpc_port_host) :=
  host ≫= fun r => (fun p => (r, p)) <$> ports s !! r.
Definition port_from_handle (handle : Z) (s : psys) : option (Z * alpc_port_host) := port_of (get_object_of handle (tbl s)) s.

(** ** Messages *)

(** [client]: the ids of the process and thread that call. *)
Definition total_length (header : list Z) : Z := u64 (s16 (le_val (take 2 (drop 2 header)))).
Definition message_size (header : list Z) : Z := Z.max port_message_size (Z.min (total_length header) maximum_message_length).
Definition stamp (client : Z * Z) (l : list Z) : list Z := take 8 l ++ le_bytes 8 client.1 ++ le_bytes 8 client.2 ++ drop 24 l.
Definition read_message (client : Z * Z) (a : Z) : gst (list Z) :=
  let! header := read_mem a (Z.to_nat port_message_size) in
  let! bytes := read_mem a (Z.to_nat (message_size header)) in
  ret (stamp client bytes).

Definition clear_connection_information (information information_length : Z) : gst unit :=
  if (information =? 0) || (information_length =? 0) then ret tt else
  let! l := read_mem information_length 4 in
  let length := le_val l in
  if (length =? 0) || (maximum_message_length <? length) then ret tt else write_mem information (replicate (Z.to_nat length) 0).

(** ObjectName of an _OBJECT_ATTRIBUTES. *)
Definition attribute_name (object_attributes : Z) : gst str :=
  let! name := (if object_attributes =? 0 then ret 0 else let! l := read_mem (object_attributes + 0x10) 8 in ret (le_val l)) in
  let! s := read_unicode_string name in
  ret (narrow_wstring s).

(** ** Ports *)

(** [base] is where the object manager puts the object; the port [host] is already
    there. *)
Definition create_port_object (host : Z) (n : str) (access base : Z) : pst Z := fun s =>
  let '(addr, m) := create_object base 0 (Some host) (objs_ (tbl s)) in
  let s := set_tbl (on_objs (fun _ => m) (tbl s)) s in
  if addr =? 0 then (Ok 0, s) else
  let s := set_tbl (on_objs (register_named_object n addr) (tbl s)) s in
  let '(handle, t) := create_handle addr access (tbl s) in (Ok handle, set_tbl t s).

Definition AlpcCreatePort (port_handle object_attributes base : Z) : pst Z :=
  if port_handle =? 0 then ret STATUS_INVALID_PARAMETER else
  let! n := on_mem (attribute_name object_attributes) in
  let! s := get in
  if negb (bool_decide (n = [])) && negb (lookup_named_object n (objs_ (tbl s)) =? 0) then ret STATUS_OBJECT_NAME_COLLISION else
  modify (new_port (PortHost n true None [])) ;;
  let! handle := create_port_object (fresh_host s) n PORT_ALL_ACCESS base in
  if handle =? 0 then ret STATUS_INSUFFICIENT_RESOURCES else
  on_mem (write_mem port_handle (le_bytes 8 handle)) ;; ret STATUS_SUCCESS.

Definition AlpcConnectPort (client : Z * Z) (port_handle port_name connection_message buffer_length base : Z) : pst Z :=
  if port_handle =? 0 then ret STATUS_INVALID_PARAMETER else
  let! w := on_mem (read_unicode_string port_name) in
  let n := narrow_wstring w in
  let! s := get in
  let server_addr := lookup_named_object n (objs_ (tbl s)) in
  match (if server_addr =? 0 then None else port_of (get_object server_addr (objs_ (tbl s))) s) with
  | None => ret STATUS_OBJECT_NAME_NOT_FOUND
  | Some (server, v) =>
      if negb (is_server v) then ret STATUS_OBJECT_NAME_NOT_FOUND else
      let c := fresh_host s in
      modify (new_port (PortHost n false (Some server) [])) ;;
      let! handle := create_port_object c n PORT_ALL_ACCESS base in
      if handle =? 0 then ret STATUS_INSUFFICIENT_RESOURCES else
      modify (set_ports (alter (with_peer c) server)) ;;
      on_mem (write_mem port_handle (le_bytes 8 handle)) ;;
      (if connection_message =? 0 then ret tt else
         let! message := on_mem (read_message client connection_message) in
         modify (set_ports (alter (post message) server))) ;;
      on_mem (write_optional 8 buffer_length 0) ;;
      ret STATUS_SUCCESS
  end.

(** The first half: what is sent goes to the peer. *)
Definition send_part (client : Z * Z) (p : alpc_port_host) (send_message : Z) : pst (option Z) :=
  if send_message =? 0 then ret None else
  let! s := get in
  match lock p (tbl s) with
  | None => ret (Some STATUS_PORT_DISCONNECTED)
  | Some q =>
      let! message := on_mem (read_message client send_message) in
      modify (set_ports (alter (post message) q)) ;; ret None
  end.

(** The second: the oldest message is taken, and as much of it as there is room for
    is written. *)
Definition receive_part (r receive_message buffer_length : Z) : pst Z :=
  if receive_message =? 0 then ret STATUS_SUCCESS else
  let! s := get in
  match ports s !! r ≫= fun p => (take_message p).1 with
  | None => ret STATUS_TIMEOUT
  | Some message =>
      modify (set_ports (alter (fun p => (take_message p).2) r)) ;;
      let size := Z.of_nat (length message) in
      let! room := (if buffer_length =? 0 then ret size else let! l := on_mem (read_mem buffer_length 8) in ret (le_val l)) in
      let copied := Z.min room size in
      on_mem (write_mem receive_message (take (Z.to_nat copied) message)) ;;
      on_mem (write_optional 8 buffer_length copied) ;;
      ret (if copied <? size then STATUS_BUFFER_TOO_SMALL else STATUS_SUCCESS)
  end.

Definition AlpcSendWaitReceivePort (client : Z * Z) (port_handle send_message receive_message buffer_length : Z) : pst Z :=
  let! s := get in
  match port_from_handle port_handle s with
  | None => ret STATUS_INVALID_HANDLE
  | Some (r, p) =>
      let! refused := send_part client p send_message in
      match refused with
      | Some status => ret status
      | None => receive_part r receive_message buffer_length
      end
  end.

(** ** Connections to servers that do not run *)

(** Where [addr_space::alloc] puts a run of pages. *)
Section Views.
Context (space_alloc : Z -> Z -> gst Z).

Definition map_client_view (client_view : Z) : gst unit :=
  if client_view =? 0 then ret tt else
  let! l := read_mem (client_view +w 0x18) 8 in
  let view_size := le_val l in
  if negb (view_size =? 0) && (view_size <=? maximum_port_view_size) then
    let! base := space_alloc view_size prot_rw in
    write_mem (client_view +w 0x20) (le_bytes 8 base) ;; write_mem (client_view +w 0x28) (le_bytes 8 base)
  else ret tt.

Definition answer_server_view (server_view : Z) : gst unit :=
  if server_view =? 0 then ret tt else
  let! l := read_mem server_view 0x18 in
  write_mem server_view (take 8 l ++ le_bytes 8 maximum_port_view_size ++ le_bytes 8 0).

Definition connect_port (port_handle port_name client_view server_view maximum_length base : Z) : pst Z :=
  if port_handle =? 0 then ret STATUS_INVALID_PARAMETER else
  let! w := on_mem (read_unicode_string port_name) in
  let n := narrow_wstring w in
  let! s := get in
  let c := fresh_host s in
  modify (new_port (PortHost n false None [])) ;;
  let! handle := create_port_object c n PORT_ALL_ACCESS base in
  if handle =? 0 then ret STATUS_INSUFFICIENT_RESOURCES else
  on_mem (write_mem port_handle (le_bytes 8 handle)) ;;
  on_mem (map_client_view client_view) ;;
  on_mem (answer_server_view server_view) ;;
  on_mem (write_optional 4 maximum_length default_maximum_message_length) ;;
  ret STATUS_SUCCESS.

(** NtConnectPort, and NtSecureConnectPort, which ignores the sid it is given. *)
Definition ConnectPort (port_handle port_name client_view server_view maximum_length information information_length base : Z) : pst Z :=
  on_mem (clear_connection_information information information_length) ;;
  connect_port port_handle port_name client_view server_view maximum_length base.

End Views.
End Ports.
