(* ===== verification/PortsThm.v ===== *)
(** * Ports are two queues

    A client and a server that are connected hold a conversation: what one sends
    the other receives, whole or as much as it has room for, in order, whatever the
    two of them do in between.  And how a connection is made: the server names a
    port, a client connects to the name. *)

From stdpp Require Import list gmap.
From S2P Require Import Prelude Paths Objects ObjectsThm GuestMem StringOps Ports.
From stdpp Require Import options.

Open Scope Z_scope.
Open Scope kern_scope.
Import Ports.

(** ** Guest memory *)

Lemma port_mem_reads {A} (f : gst A) s r : f (p_mem s) = (r, p_mem s) -> on_mem f s = (r, s).
Proof. unfold on_mem. intros ->. by destruct s. Qed.
Lemma port_mem_writes {A} (f : gst A) s r m : f (p_mem s) = (r, m) -> on_mem f s = (r, set_mem m s).
Proof. unfold on_mem. by intros ->. Qed.

(** A message of the length its header says, within the bounds the code sets. *)
Record message_at (m : gmem) (a : Z) (l : list Z) : Prop := {
  ma_start : 0 < a;
  ma_end : a + Z.of_nat (length l) <= 2 ^ 64;
  ma_holds : holds m a l;
  ma_size : Z.of_nat (length l) = message_size (take 40 l)
}.

Lemma message_size_bounds h : port_message_size <= message_size h <= maximum_message_length.
Proof. unfold message_size, port_message_size, maximum_message_length. lia. Qed.

Lemma message_at_length m a l : message_at m a l -> (40 <= length l)%nat /\ Z.of_nat (length l) <= maximum_message_length.
Proof. intros [_ _ _ E]. pose proof (message_size_bounds (take 40 l)). unfold port_message_size in *. lia. Qed.

Lemma holds_take m a n l : holds m a l -> holds m a (take n l).
Proof. intros H. rewrite <- (take_drop n l) in H. by apply holds_app in H as [H _]. Qed.

Lemma read_message_at client m a l : message_at m a l -> read_message client a m = (Ok (stamp client l), m).
Proof.
  intros Hm. pose proof (message_at_length _ _ _ Hm) as [Hl _]. destruct Hm as [H1 H2 H3 H4]. unfold read_message.
  pose proof (read_mem_holds m (take 40 l) a ltac:(lia)) as E. rewrite length_take, Nat.min_l in E by lia.
  change (Z.to_nat port_message_size) with 40%nat. rewrite (bind_ok _ _ _ _ _ (E ltac:(lia) (holds_take _ _ _ _ H3))).
  rewrite <- H4, Nat2Z.id. by rewrite (bind_ok _ _ _ _ _ (read_mem_holds m l a ltac:(lia) H2 H3)).
Qed.

Lemma length_stamp client l : (24 <= length l)%nat -> length (stamp client l) = length l.
Proof. intros H. unfold stamp. rewrite !length_app, length_take, length_drop, !length_le_bytes. lia. Qed.

(** Room for a message, and where its size is said and told. *)
Record room_at (m : gmem) (dst bl room n : Z) : Prop := {
  ra_dst : 0 < dst /\ dst + Z.min room n <= 2 ^ 64 /\ mapped m dst (Z.min room n);
  ra_room : 0 <= room < 2 ^ 64 /\ 0 <= n;
  ra_length : if bl =? 0 then n <= room
    else 0 < bl /\ bl + 8 <= 2 ^ 64 /\ holds m bl (le_bytes 8 room) /\ (bl + 8 <= dst \/ dst + Z.min room n <= bl)
}.

(** ** The two halves of a call *)

Lemma send_part_ok client p q a l s :
  lock p (tbl s) = Some q -> message_at (p_mem s) a l ->
  send_part client p a s = (Ok None, set_ports (alter (post (stamp client l)) q) s).
Proof.
  intros Hq Hm. unfold send_part. rewrite (proj2 (Z.eqb_neq a 0)) by (pose proof (ma_start _ _ _ Hm); lia).
  unfold bind at 1, get. rewrite Hq. rewrite (bind_ok _ _ _ _ _ (port_mem_reads _ s _ (read_message_at client _ a l Hm))). done.
Qed.

Lemma send_part_none client p s : send_part client p 0 s = (Ok None, s).
Proof. done. Qed.

Lemma holds_mapped m a l : holds m a l -> mapped m a (Z.of_nat (length l)).
Proof.
  intros H x Hx. destruct (lookup_lt_is_Some_2 l (Z.to_nat (x - a))) as [b Hb]; [lia|]. exists b.
  rewrite <- (H _ _ Hb). f_equal. lia.
Qed.

Lemma receive_part_ok r p m rest dst bl room s :
  ports s !! r = Some p -> messages_ p = m :: rest -> room_at (p_mem s) dst bl room (Z.of_nat (length m)) ->
  exists m', receive_part r dst bl s =
      (Ok (if room <? Z.of_nat (length m) then STATUS_BUFFER_TOO_SMALL else STATUS_SUCCESS),
       set_mem m' (set_ports (alter (with_messages rest) r) s)) /\
    holds m' dst (take (Z.to_nat room) m) /\
    (bl <> 0 -> holds m' bl (le_bytes 8 (Z.min room (Z.of_nat (length m))))).
Proof.
  intros Hp Hm [(D1 & D2 & D3) (R1 & R2) L]. set (n := Z.of_nat (length m)) in *. unfold receive_part.
  rewrite (proj2 (Z.eqb_neq dst 0)) by lia. unfold bind at 1, get. rewrite Hp. cbn [mbind option_bind option_join]. unfold take_message at 1. rewrite Hm. cbn [fst].
  unfold bind at 1, modify. fold n.
  set (s1 := set_ports (alter (fun p => (take_message p).2) r) s).
  assert (s1 = set_ports (alter (with_messages rest) r) s) as Es.
  { unfold s1, set_ports. f_equal. apply map_eq. intros i. destruct (decide (i = r)) as [->|Hi]; [|by rewrite !lookup_alter_ne].
    rewrite !lookup_alter_eq, Hp. cbn. unfold take_message. by rewrite Hm. }
  rewrite Es. clear s1 Es. set (s1 := set_ports _ s). change (p_mem s) with (p_mem s1) in *.
  assert ((if bl =? 0 then ret n else let! l := on_mem (read_mem bl 8) in ret (le_val l)) s1 =
    (Ok (if bl =? 0 then n else room), s1)) as Er.
  { destruct (Z.eqb_spec bl 0); [done|]. destruct L as (L1 & L2 & L3 & _). erewrite bind_ok.
    - unfold ret. do 2 f_equal. rewrite (le_val_bytes 8). by apply Z.mod_small.
    - apply port_mem_reads. pose proof (read_mem_holds (p_mem s1) (le_bytes 8 room) bl ltac:(lia) ltac:(rewrite length_le_bytes; lia) L3) as E.
      by rewrite length_le_bytes in E. }
  rewrite (bind_ok _ _ _ _ _ Er). clear Er.
  assert (Z.min (if bl =? 0 then n else room) n = Z.min room n) as Emin by (destruct (Z.eqb_spec bl 0); lia). rewrite Emin.
  assert (take (Z.to_nat (Z.min room n)) m = take (Z.to_nat room) m) as Et.
  { unfold n. destruct (decide (room <= Z.of_nat (length m))); [by rewrite Z.min_l|]. rewrite !take_ge; [done|lia..]. }
  rewrite Et. set (out := take (Z.to_nat room) m).
  assert (Z.of_nat (length out) = Z.min room n) as Eo by (unfold out; rewrite length_take; lia).
  destruct (write_mem_mapped out dst (p_mem s1)) as (m1 & E1 & H1); [lia|lia|by rewrite Eo|].
  rewrite (bind_ok _ _ _ _ _ (port_mem_writes (write_mem dst out) s1 _ _ E1)).
  assert ((if Z.min room n <? n then STATUS_BUFFER_TOO_SMALL else STATUS_SUCCESS) = (if room <? n then STATUS_BUFFER_TOO_SMALL else STATUS_SUCCESS)) as ->.
  { destruct (Z.ltb_spec (Z.min room n) n), (Z.ltb_spec room n); done || lia. }
  unfold write_optional. destruct (Z.eqb_spec bl 0) as [->|Hbl].
  { exists m1. split; [done|]. split; [|done]. apply (same_holds _ _ _ _ H1). apply splice_holds. }
  destruct L as (L1 & L2 & L3 & L4).
  destruct (write_mem_mapped (le_bytes 8 (Z.min room n)) bl m1) as (m2 & E2 & H2); [lia|rewrite length_le_bytes; lia| |].
  { intros x Hx. rewrite H1. apply (splice_mapped dst out (p_mem s1) bl 8); [|by rewrite length_le_bytes in Hx]. apply (holds_mapped _ _ _ L3). }
  rewrite (bind_ok _ _ _ _ _ (port_mem_writes (write_mem bl _) (set_mem m1 s1) _ _ E2)). exists m2. split; [done|]. split; [|intros _].
  - intros i b Hi. apply lookup_lt_Some in Hi as Hlt. rewrite H2, splice_out, H1 by (rewrite length_le_bytes; lia). by apply splice_holds.
  - apply (same_holds _ _ _ _ H2), splice_holds.
Qed.

(** ** The conversation of two connected ports *)

Inductive action : Type :=
  | Send (at_client : bool) (ids : Z * Z) (a : Z) (l : list Z)
  | Receive (at_client : bool) (dst bl room : Z).

(** What the two of them are: a queue at either end. *)
Abbreviation queues := (bool -> list (list Z)).
Definition put_queue (side : bool) (l : list (list Z)) (q : queues) : queues := fun b => if Bool.eqb b side then l else q b.

(** The status, what is received, and the queues after. *)
Definition spec (act : action) (q : queues) : Z * option (list Z) * queues :=
  match act with
  | Send side ids _ l => (STATUS_SUCCESS, None, put_queue (negb side) (q (negb side) ++ [stamp ids l]) q)
  | Receive side _ _ room =>
      match q side with
      | [] => (STATUS_TIMEOUT, None, q)
      | m :: rest => (if room <? Z.of_nat (length m) then STATUS_BUFFER_TOO_SMALL else STATUS_SUCCESS,
                      Some (take (Z.to_nat room) m), put_queue side rest q)
      end
  end.

(** The guest's part: a message to send, or room for what is to come. *)
Definition ready (act : action) (m : gmem) (q : queues) : Prop :=
  match act with
  | Send _ _ a l => message_at m a l
  | Receive side dst bl room => 0 < dst /\ match q side with [] => True | x :: _ => room_at m dst bl room (Z.of_nat (length x)) end
  end.

Section Pair.
Context (hc hs c v : Z).
Let handle (side : bool) : Z := if side then hc else hs.
Let me (side : bool) : Z := if side then c else v.

Record connected (s : psys) : Prop := {
  cn_handles : forall b, get_object_of (handle b) (tbl s) = Some (me b);
  cn_peers : forall b, exists p, ports s !! me b = Some p /\ peer p = Some (me (negb b));
  cn_alive : forall b, alive (me b) (tbl s) = true;
  cn_apart : c <> v
}.

Definition messages_of (r : Z) (s : psys) : list (list Z) := match ports s !! r with Some p => messages_ p | None => [] end.
Definition queues_of (s : psys) : queues := fun b => messages_of (me b) s.

Definition perform (act : action) : pst Z :=
  match act with
  | Send side ids a _ => AlpcSendWaitReceivePort ids (handle side) a 0 0
  | Receive side dst bl _ => AlpcSendWaitReceivePort (0, 0) (handle side) 0 dst bl
  end.

Lemma me_negb b : me b <> me (negb b) <-> c <> v.
Proof. unfold me. destruct b; cbn; split; congruence. Qed.

(** Changing the messages at one end keeps the connection. *)
Lemma connected_messages s b l m :
  connected s -> connected (set_mem m (set_ports (alter (with_messages l) (me b)) s)) /\
  forall b', queues_of (set_mem m (set_ports (alter (with_messages l) (me b)) s)) b' = put_queue b l (queues_of s) b'.
Proof using Type.
  intros [H1 H2 H3 H4]. assert (forall b', me b' = me b -> b' = b) as Hinj.
  { intros b'. unfold me. destruct b, b'; intros; done || congruence. }
  split; [split; cbn; try done|].
  - intros b'. destruct (H2 b') as (p & E & Ep). destruct (decide (me b' = me b)) as [->%Hinj|Hn].
    + rewrite lookup_alter_eq, E. by eexists.
    + rewrite lookup_alter_ne by congruence. by exists p.
  - intros b'. unfold queues_of, messages_of, put_queue. cbn. destruct (eqb_spec b' b) as [->|Hn].
    + destruct (H2 b) as (p & E & _). by rewrite lookup_alter_eq, E.
    + rewrite lookup_alter_ne; [done|]. intros E. by apply Hn, Hinj.
Qed.

Lemma port_at s b : connected s -> exists p, port_from_handle (handle b) s = Some (me b, p) /\
  ports s !! me b = Some p /\ lock p (tbl s) = Some (me (negb b)) /\ messages_ p = queues_of s b.
Proof using Type.
  intros [H1 H2 H3 _]. destruct (H2 b) as (p & E & Ep). exists p. unfold port_from_handle, port_of. rewrite H1. cbn. rewrite E. cbn.
  split_and!; [done|done| |]; [unfold lock; rewrite Ep; cbn; by rewrite H3|]. unfold queues_of, messages_of. by rewrite E.
Qed.

Lemma perform_spec act s :
  connected s -> ready act (p_mem s) (queues_of s) ->
  let '(status, out, q) := spec act (queues_of s) in
  exists s', perform act s = (Ok status, s') /\ connected s' /\ (forall b, queues_of s' b = q b) /\
    match act, out with Receive _ dst _ _, Some l => holds (p_mem s') dst l | _, _ => True end.
Proof using Type.
  intros Hc Hr. destruct act as [side ids a l|side dst bl room]; cbn [spec ready perform] in *.
  - destruct (port_at s side Hc) as (p & E1 & E2 & E3 & E4). destruct (port_at s (negb side) Hc) as (q & _ & Q2 & _ & Q4).
    exists (set_mem (p_mem s) (set_ports (alter (with_messages (queues_of s (negb side) ++ [stamp ids l])) (me (negb side))) s)).
    split; [|split_and!; [by apply connected_messages..|done]].
    unfold AlpcSendWaitReceivePort. unfold bind at 1, get. rewrite E1. erewrite bind_ok by by apply send_part_ok. unfold receive_part, ret. cbn [Z.eqb].
    do 2 f_equal. unfold set_mem, set_ports. cbn. f_equal. apply map_eq. intros i. destruct (decide (i = me (negb side))) as [->|Hi]; [|by rewrite !lookup_alter_ne].
    rewrite !lookup_alter_eq, Q2. cbn. unfold post. by rewrite Q4.
  - destruct (port_at s side Hc) as (p & E1 & E2 & E3 & E4). destruct Hr as [Hd Hr].
    destruct (queues_of s side) as [|m rest] eqn:Eq.
    + exists s. split; [|done]. unfold AlpcSendWaitReceivePort. unfold bind at 1, get. rewrite E1.
      erewrite bind_ok by apply send_part_none. unfold receive_part. rewrite (proj2 (Z.eqb_neq dst 0)) by lia.
      unfold bind at 1, get. rewrite E2. cbn. unfold take_message. by rewrite E4.
    + destruct (receive_part_ok (me side) p m rest dst bl room s E2 E4 Hr) as (m' & E & Ho & _).
      exists (set_mem m' (set_ports (alter (with_messages rest) (me side)) s)). split; [|split_and!; [by apply connected_messages..|done]].
      unfold AlpcSendWaitReceivePort. unfold bind at 1, get. rewrite E1. by erewrite bind_ok by apply send_part_none.
Qed.

(** A conversation: before each call the guest's memory is what it likes, so long
    as it is ready for the call; the calls answer as the queues do. *)
Fixpoint converses (acts : list (gmem * action)) (s : psys) (q : queues) : Prop :=
  match acts with
  | [] => True
  | (m, act) :: acts =>
      ready act m q ->
      let '(status, out, q') := spec act q in
      exists s', perform act (set_mem m s) = (Ok status, s') /\
        match act, out with Receive _ dst _ _, Some l => holds (p_mem s') dst l | _, _ => True end /\
        converses acts s' q'
  end.

Lemma spec_ext act q q' : (forall b, q b = q' b) ->
  (spec act q).1 = (spec act q').1 /\ forall b, (spec act q).2 b = (spec act q').2 b.
Proof.
  intros H. destruct act as [side ids a l|side dst bl room]; cbn.
  - split; [done|]. intros b. unfold put_queue. case_match; [by rewrite H|apply H].
  - rewrite <- H. destruct (q side) as [|m rest]; split; try done. intros b. cbn. unfold put_queue. case_match; [done|apply H].
Qed.

Lemma conversation acts : forall s q, connected s -> (forall b, queues_of s b = q b) -> converses acts s q.
Proof using Type.
  induction acts as [|[m act] acts IH]; intros s q Hc Hq; [done|]. cbn [converses]. intros Hr.
  assert (connected (set_mem m s)) as Hc' by (by destruct Hc).
  assert (ready act m (queues_of s)) as Hr'.
  { destruct act; cbn [ready] in *; [done|]. by rewrite Hq. }
  pose proof (perform_spec act (set_mem m s) Hc' Hr') as H. change (queues_of (set_mem m s)) with (queues_of s) in H.
  pose proof (spec_ext act (queues_of s) q Hq) as [E1 E2].
  destruct (spec act q) as [[st out] q'], (spec act (queues_of s)) as [[st0 out0] q0]. cbn [fst snd] in *. injection E1 as -> ->.
  destruct H as (s' & P & Cs & Qs & Ho). exists s'. split_and!; [done|done|]. apply IH; [done|]. intros b. by rewrite Qs, E2.
Qed.

End Pair.

(** ** Making a connection *)

Lemma alive_spec r t : alive r t = true <-> exists body o, objects_ (objs_ t) !! body = Some o /\ o_host o = Some r.
Proof.
  unfold alive. rewrite existsb_exists. split.
  - intros ([body o] & Hin & H). apply bool_decide_eq_true in H. exists body, o. split; [|done].
    by apply elem_of_map_to_list, list_elem_of_In.
  - intros (body & o & Ho & H). exists (body, o). split; [by apply list_elem_of_In, elem_of_map_to_list|]. by apply bool_decide_eq_true.
Qed.

(** Host objects are numbered as they are made. *)
Record ports_ok (s : psys) : Prop := {
  po_table : table_ok (tbl s);
  po_ports : forall r, is_Some (ports s !! r) -> r < fresh_host s
}.

Lemma create_port_object_ok host n access base s :
  table_ok (tbl s) -> has_room base (tbl s) ->
  exists t', create_port_object host n access base s = (Ok (next_handle_ (tbl s)), set_tbl t' s) /\
    created (Some host) base n access (tbl s) t'.
Proof.
  intros Hok Hr. destruct (named_object_created (Some host) base n access (tbl s) Hok Hr) as (t' & E & C). exists t'. split; [|done].
  assert (create_port_object host n access base s =
    (if body_of base =? 0 then (Ok 0, set_tbl (on_objs (fun _ => (create_object base 0 (Some host) (objs_ (tbl s))).2) (tbl s)) s)
     else let '(h, t) := create_handle (body_of base) access (named_object (Some host) base n (tbl s)) in (Ok h, set_tbl t s))) as -> by reflexivity.
  rewrite (proj2 (Z.eqb_neq (body_of base) 0)) by apply Hr. by rewrite E.
Qed.

Lemma created_alive host base n access t t' r :
  has_room base t -> created (Some host) base n access t t' -> (r = host \/ alive r t = true) -> alive r t' = true.
Proof.
  intros Hr C [->|(b & o & Eo & Eh)%alive_spec]; apply alive_spec.
  - eexists _, _. by split; [apply (cr_body _ _ _ _ _ _ C)|].
  - exists b, o. split; [|done]. by rewrite (created_object _ _ _ _ _ _ Hr C) by by eexists.
Qed.

Definition writable (a : Z) (m : gmem) : Prop := 0 < a /\ a + 8 <= 2 ^ 64 /\ mapped m a 8.

Lemma write_handle a h m : writable a m ->
  exists m', write_mem a (le_bytes 8 h) m = (Ok tt, m') /\ same m' (splice a (le_bytes 8 h) m).
Proof. intros (H1 & H2 & H3). apply write_mem_mapped; rewrite ?length_le_bytes; lia || done. Qed.

(** A message clear of what is written before it is read. *)
Lemma message_at_splice m m' a l b bs :
  message_at m a l -> same m' (splice b bs m) -> a + Z.of_nat (length l) <= b \/ b + Z.of_nat (length bs) <= a -> message_at m' a l.
Proof.
  intros [H1 H2 H3 H4] Hs Hd. split; try done. intros i x Hi. apply lookup_lt_Some in Hi as Hl. rewrite Hs, splice_out by lia. by apply H3.
Qed.

(** The server's half. *)
Lemma AlpcCreatePort_ok ph oa base n s :
  ports_ok s -> has_room base (tbl s) -> n <> [] -> attribute_name oa (p_mem s) = (Ok n, p_mem s) ->
  lookup_named_object n (objs_ (tbl s)) = 0 -> writable ph (p_mem s) ->
  exists s1, AlpcCreatePort ph oa base s = (Ok STATUS_SUCCESS, s1) /\
    same (p_mem s1) (splice ph (le_bytes 8 (next_handle_ (tbl s))) (p_mem s)) /\
    created (Some (fresh_host s)) base n PORT_ALL_ACCESS (tbl s) (tbl s1) /\
    ports s1 = <[fresh_host s := PortHost n true None []]> (ports s) /\ fresh_host s1 = fresh_host s + 1.
Proof.
  intros Hok Hr Hn Ha Hl Hw. unfold AlpcCreatePort. rewrite (proj2 (Z.eqb_neq ph 0)) by (unfold writable in Hw; lia).
  rewrite (bind_ok _ _ _ _ _ (port_mem_reads (attribute_name oa) s _ Ha)). unfold bind at 1, get. rewrite Hl, andb_false_r. cbn iota.
  unfold bind at 1, modify. set (s0 := new_port _ s).
  destruct (create_port_object_ok (fresh_host s) n PORT_ALL_ACCESS base s0 (po_table _ Hok) Hr) as (t' & E & C).
  rewrite (bind_ok _ _ _ _ _ E). change (tbl s0) with (tbl s) in *.
  destruct (tk_next _ (po_table _ Hok)) as [[Hp _] _]. rewrite (proj2 (Z.eqb_neq (next_handle_ (tbl s)) 0)) by lia.
  destruct (write_handle ph (next_handle_ (tbl s)) (p_mem s) Hw) as (m' & Em & Hs).
  rewrite (bind_ok _ _ _ _ _ (port_mem_writes (write_mem ph _) (set_tbl t' s0) _ _ Em)).
  eexists. split; [reflexivity|]. by split_and!.
Qed.

(** What the server's half left is what the client's needs. *)
Record served (n : str) (v hs : Z) (s : psys) : Prop := {
  sv_ok : ports_ok s;
  sv_name : exists b, b <> 0 /\ lookup_named_object n (objs_ (tbl s)) = b /\ get_object b (objs_ (tbl s)) = Some v;
  sv_handle : get_object_of hs (tbl s) = Some v;
  sv_port : ports s !! v = Some (PortHost n true None []);
  sv_alive : alive v (tbl s) = true
}.

(** The first message of a queue. *)
Lemma post_only r message s : messages_of r s = [] ->
  modify (set_ports (alter (post message) r)) s = (Ok tt, set_mem (p_mem s) (set_ports (alter (with_messages [message]) r) s)).
Proof.
  intros Hq. unfold modify, set_mem, set_ports. cbn [p_mem tbl ports fresh_host].
  assert (alter (post message) r (ports s) = alter (with_messages [message]) r (ports s)) as ->; [|done]. apply map_eq. intros i.
  destruct (decide (i = r)) as [->|Hi]; [|by rewrite !lookup_alter_ne]. rewrite !lookup_alter_eq.
  unfold messages_of in Hq. destruct (ports s !! r) as [p|]; [|done]. cbn. unfold post. by rewrite Hq.
Qed.

(** The client's. *)
Lemma AlpcConnectPort_ok ids ph pn w msg l base n v hs s :
  served n v hs s -> has_room base (tbl s) -> n <> [] ->
  read_unicode_string pn (p_mem s) = (Ok w, p_mem s) -> narrow_wstring w = n -> writable ph (p_mem s) ->
  (msg = 0 \/ (message_at (p_mem s) msg l /\ (msg + Z.of_nat (length l) <= ph \/ ph + 8 <= msg))) ->
  let hc := next_handle_ (tbl s) in
  let c := fresh_host s in
  exists s', AlpcConnectPort ids ph pn msg 0 base s = (Ok STATUS_SUCCESS, s') /\
    holds (p_mem s') ph (le_bytes 8 hc) /\ connected hc hs c v s' /\
    created (Some c) base n PORT_ALL_ACCESS (tbl s) (tbl s') /\ is_server <$> ports s' !! c = Some false /\
    forall b, queues_of c v s' b = if b then [] else if msg =? 0 then [] else [stamp ids l].
Proof.
  intros [Hok (b & Hb & Hlk & Hg) Hh Hv Hal] Hr Hn Hw Ew Hph Hmsg hc c.
  assert (v < c) as Hvc by (apply (po_ports _ Hok); by eexists).
  unfold AlpcConnectPort. rewrite (proj2 (Z.eqb_neq ph 0)) by (unfold writable in Hph; lia).
  rewrite (bind_ok _ _ _ _ _ (port_mem_reads (read_unicode_string pn) s _ Hw)), Ew. unfold bind at 1, get. rewrite Hlk, (proj2 (Z.eqb_neq b 0)) by done.
  rewrite Hg. unfold port_of. cbn [mbind option_bind option_join]. rewrite Hv. cbn [fmap option_fmap option_map is_server negb].
  unfold bind at 1, modify at 1. fold c. set (s0 := new_port _ s).
  destruct (create_port_object_ok c n PORT_ALL_ACCESS base s0 (po_table _ Hok) Hr) as (t' & E & C).
  rewrite (bind_ok _ _ _ _ _ E). change (tbl s0) with (tbl s) in *.
  destruct (tk_next _ (po_table _ Hok)) as [[Hp _] _]. rewrite (proj2 (Z.eqb_neq (next_handle_ (tbl s)) 0)) by lia.
  unfold bind at 1, modify at 1.
  destruct (write_handle ph (next_handle_ (tbl s)) (p_mem s) Hph) as (m' & Em & Hs).
  set (s1 := set_ports _ (set_tbl t' s0)). rewrite (bind_ok _ _ _ _ _ (port_mem_writes (write_mem ph _) s1 _ _ Em)).
  set (s2 := set_mem m' s1).
  assert (connected hc hs c v s2 /\ forall b, queues_of c v s2 b = []) as [Hc Hq].
  { destruct (created_handle_host _ _ _ _ _ _ (po_table _ Hok) Hr C hs v Hh) as [Hh' _].
    assert (ports s2 = alter (with_peer c) v (<[c := PortHost n false (Some v) []]> (ports s))) as Ep by reflexivity.
    assert (ports s2 !! c = Some (PortHost n false (Some v) [])) as Ec by (rewrite Ep, lookup_alter_ne by lia; by rewrite lookup_insert_eq).
    assert (ports s2 !! v = Some (PortHost n true (Some c) [])) as Ev.
    { rewrite Ep, lookup_alter_eq, lookup_insert_ne by lia. by rewrite Hv. }
    split; [|by intros [|]; unfold queues_of, messages_of; rewrite ?Ec, ?Ev].
    split; [|intros [|]; eexists; (split; [first [exact Ec|exact Ev]|done])| |lia].
    - intros [|]; [apply (created_new _ _ _ _ _ _ C)|done].
    - intros [|]; apply (created_alive _ _ _ _ _ _ _ Hr C); [by left|by right]. }
  assert (is_server <$> ports s2 !! c = Some false) as Hcs.
  { change (ports s2) with (alter (with_peer c) v (<[c := PortHost n false (Some v) []]> (ports s))). rewrite lookup_alter_ne by lia. by rewrite lookup_insert_eq. }
  assert (holds m' ph (le_bytes 8 hc)) as Hhold by (apply (same_holds _ _ _ _ Hs), splice_holds).
  destruct Hmsg as [->|[Hm Hd]].
  { exists s2. split_and!; [reflexivity|done..|]. intros b0. rewrite Hq. by destruct b0. }
  pose proof (ma_start _ _ _ Hm) as Hm0. rewrite (proj2 (Z.eqb_neq msg 0)) by lia.
  assert (message_at (p_mem s2) msg l) as Hm2.
  { apply (message_at_splice _ _ _ _ _ _ Hm Hs). rewrite length_le_bytes. lia. }
  assert ((let! message := on_mem (read_message ids msg) in modify (set_ports (alter (post message) v))) s2 =
    (Ok tt, set_mem (p_mem s2) (set_ports (alter (with_messages [stamp ids l]) v) s2))) as Emsg.
  { rewrite (bind_ok _ _ _ _ _ (port_mem_reads _ s2 _ (read_message_at ids _ msg l Hm2))). apply post_only. apply (Hq false). }
  exists (set_mem (p_mem s2) (set_ports (alter (with_messages [stamp ids l]) v) s2)).
  destruct (connected_messages hc hs c v s2 false [stamp ids l] (p_mem s2) Hc) as [Hc' Hq'].
  split_and!; [|done|done|done| |].
  - by rewrite (bind_ok _ _ _ _ _ Emsg).
  - cbn. rewrite lookup_alter_ne by lia. exact Hcs.
  - intros [|]; rewrite Hq'; unfold put_queue; cbn; [apply Hq|done].
Qed.

Lemma served_mem n v hs s m : served n v hs s -> served n v hs (set_mem m s).
Proof. intros [[H1 H2] H3 H4 H5 H6]. by split. Qed.

Lemma created_served n base s s1 :
  ports_ok s -> has_room base (tbl s) -> n <> [] -> created (Some (fresh_host s)) base n PORT_ALL_ACCESS (tbl s) (tbl s1) ->
  ports s1 = <[fresh_host s := PortHost n true None []]> (ports s) -> fresh_host s1 = fresh_host s + 1 ->
  served n (fresh_host s) (next_handle_ (tbl s)) s1.
Proof.
  intros Hok Hr Hn C Ep Ef. split.
  - split; [apply (cr_ok _ _ _ _ _ _ C)|]. intros r Hrr. rewrite Ep in Hrr. rewrite Ef.
    destruct (decide (r = fresh_host s)) as [->|Hne]; [lia|]. rewrite lookup_insert_ne in Hrr by done. apply (po_ports _ Hok) in Hrr. lia.
  - exists (body_of base). split_and!; [apply Hr|by apply (cr_name _ _ _ _ _ _ C)|apply (created_body _ _ _ _ _ _ C)].
  - apply (created_new _ _ _ _ _ _ C).
  - by rewrite Ep, lookup_insert_eq.
  - apply (created_alive _ _ _ _ _ _ _ Hr C). by left.
Qed.

(** C36: a server that names a port and a client that connects to the name are connected:
    both calls succeed and write a handle, and from then on the two handles are the
    ends of two queues.  Whatever the two send and receive, in whatever order and
    from whatever memory, every call answers as the queues do: a message arrives
    once, in order, stamped with its sender's ids, cut to the room there is for it,
    and an empty queue answers at once. *)
Theorem alpc_conversation ids ph oa base n ph2 pn w msg l base2 m2 acts s :
  ports_ok s -> has_room base (tbl s) -> n <> [] -> attribute_name oa (p_mem s) = (Ok n, p_mem s) ->
  lookup_named_object n (objs_ (tbl s)) = 0 -> writable ph (p_mem s) ->
  exists s1, AlpcCreatePort ph oa base s = (Ok STATUS_SUCCESS, s1) /\
    let hs := next_handle_ (tbl s) in
    holds (p_mem s1) ph (le_bytes 8 hs) /\
    (has_room base2 (tbl s1) -> read_unicode_string pn m2 = (Ok w, m2) -> narrow_wstring w = n -> writable ph2 m2 ->
     (msg = 0 \/ (message_at m2 msg l /\ (msg + Z.of_nat (length l) <= ph2 \/ ph2 + 8 <= msg))) ->
     exists s2 hc, AlpcConnectPort ids ph2 pn msg 0 base2 (set_mem m2 s1) = (Ok STATUS_SUCCESS, s2) /\
       holds (p_mem s2) ph2 (le_bytes 8 hc) /\ hc <> hs /\
       converses hc hs acts s2 (fun b => if b then [] else if msg =? 0 then [] else [stamp ids l])).
Proof.
  intros Hok Hr Hn Ha Hl Hw. destruct (AlpcCreatePort_ok ph oa base n s Hok Hr Hn Ha Hl Hw) as (s1 & E1 & Hs & C & Ep & Ef).
  exists s1. split; [done|]. cbn zeta. split; [apply (same_holds _ _ _ _ Hs), splice_holds|].
  intros Hr2 Hn2 Ew Hw2 Hm2. pose proof (created_served n base s s1 Hok Hr Hn C Ep Ef) as Sv. apply (served_mem _ _ _ _ m2) in Sv.
  destruct (AlpcConnectPort_ok ids ph2 pn w msg l base2 n _ _ _ Sv Hr2 Hn Hn2 Ew Hw2 Hm2) as (s2 & E2 & Hh & Hc & C2 & _ & Hq).
  exists s2, (next_handle_ (tbl s1)). split_and!; [done|done| |by eapply conversation].
  intros E. apply (created_handle_host _ _ _ _ _ _ (cr_ok _ _ _ _ _ _ C) Hr2 C2 (next_handle_ (tbl s)) (fresh_host s)); [apply Sv|]. by cbn.
Qed.

(** A client's port is registered under the name it connected to, in place of the
    server's: nobody else can connect to that name. *)
Theorem second_client_refused ids ph pn w msg l base n v hs s :
  served n v hs s -> has_room base (tbl s) -> n <> [] ->
  read_unicode_string pn (p_mem s) = (Ok w, p_mem s) -> narrow_wstring w = n -> writable ph (p_mem s) ->
  (msg = 0 \/ (message_at (p_mem s) msg l /\ (msg + Z.of_nat (length l) <= ph \/ ph + 8 <= msg))) ->
  exists s', AlpcConnectPort ids ph pn msg 0 base s = (Ok STATUS_SUCCESS, s') /\
    forall ids' ph' pn' w' msg' bl' base' m, ph' <> 0 -> read_unicode_string pn' m = (Ok w', m) -> narrow_wstring w' = n ->
      AlpcConnectPort ids' ph' pn' msg' bl' base' (set_mem m s') = (Ok STATUS_OBJECT_NAME_NOT_FOUND, set_mem m s').
Proof.
  intros Sv Hr Hn Hw Ew Hph Hm.
  destruct (AlpcConnectPort_ok ids ph pn w msg l base n v hs s Sv Hr Hn Hw Ew Hph Hm) as (s' & E & _ & _ & C & Hc & _).
  exists s'. split; [done|]. intros ids' ph' pn' w' msg' bl' base' m Hph' Hw' Ew'. unfold AlpcConnectPort. rewrite (proj2 (Z.eqb_neq ph' 0)) by done.
  rewrite (bind_ok _ _ _ _ _ (port_mem_reads (read_unicode_string pn') (set_mem m s') _ Hw')), Ew'. unfold bind at 1, get.
  change (tbl (set_mem m s')) with (tbl s'). rewrite (cr_name _ _ _ _ _ _ C Hn). rewrite (proj2 (Z.eqb_neq (body_of base) 0)) by apply Hr.
  rewrite (created_body _ _ _ _ _ _ C). unfold port_of. cbn [mbind option_bind option_join]. change (ports (set_mem m s')) with (ports s').
  destruct (ports s' !! fresh_host s) as [p|]; [|done]. cbn in *. injection Hc as ->. done.
Qed.
