(* ===== verification/PortsExamples.v ===== *)
(** * Ports at work

    A server names a port "Hi", a client connects and the two exchange messages. *)

From stdpp Require Import list gmap.
From S2P Require Import Prelude Paths Objects ObjectsThm GuestMem StringOps StringThm StringPoolThm StringExamples Ports PortsThm.
From stdpp Require Import options.

Open Scope Z_scope.
Open Scope kern_scope.
Import Ports.

(** A header that says 42 bytes, and two bytes of data. *)
Definition hello : list Z := [2; 0; 42; 0] ++ replicate 36 0 ++ [104; 105].
(** The attributes of the port at 0x9000, the message at 0xA000. *)
Definition port_bytes : gmem := splice 0x9010 (le_bytes 8 0x6000) (splice 0xA000 hello machine_bytes).
Definition no_ports : psys := PSys port_bytes (Table ∅ 4 (Manager ∅ ∅ 4)) ∅ 0.

Lemma zeros_mapped a n : 0 <= a -> 0 <= n -> a + n <= 0x10000 -> mapped port_bytes a n.
Proof.
  intros H1 H2 H3. assert (mapped zero_bytes a n) as Hz.
  { intros x Hx. unfold zero_bytes. rewrite (proj2 (Z.leb_le _ _)), (proj2 (Z.ltb_lt _ _)) by lia. by eexists. }
  do 2 apply splice_mapped. unfold machine_bytes. induction layout as [|p l IH]; [exact Hz|]. cbn [foldr]. apply splice_mapped, IH.
Qed.

Lemma hello_here : message_at port_bytes 0xA000 hello.
Proof. split; [lia|vm_compute; discriminate|apply holds_check; vm_compute; reflexivity|vm_compute; reflexivity]. Qed.

Lemma no_ports_ok : ports_ok no_ports.
Proof.
  split; [apply reachable_ok, r_start|]. intros r [p Hp]. discriminate Hp.
Qed.

Lemma name_here : counted 2 port_bytes 0x6000 [72; 105] (Descriptor 4 4 0 0x5000).
Proof. counted_string. Qed.

Lemma read_name : read_unicode_string 0x6000 port_bytes = (Ok [72; 105], port_bytes).
Proof. apply (read_counted_ok 2 _ _ _ _ ltac:(lia) name_here). Qed.

Lemma read_port_name : attribute_name 0x9000 port_bytes = (Ok [72; 105], port_bytes).
Proof.
  assert (holds port_bytes 0x9010 (le_bytes 8 0x6000)) as Hn by (apply splice_holds).
  pose proof (read_mem_holds port_bytes (le_bytes 8 0x6000) 0x9010 ltac:(lia) ltac:(vm_compute; discriminate) Hn) as E.
  assert ((let! l := read_mem 0x9010 8 in ret (le_val l)) port_bytes = (Ok 0x6000, port_bytes)) as En.
  { rewrite length_le_bytes in E. rewrite (bind_ok _ _ _ _ _ E). reflexivity. }
  unfold attribute_name. change (0x9000 =? 0) with false. cbn iota. rewrite (bind_ok _ _ _ _ _ En), (bind_ok _ _ _ _ _ read_name). reflexivity.
Qed.

#[local] Opaque port_bytes.

(** The client says hello and the server, which has room for 41 bytes, gets the
    first 41 of them. *)
Lemma alpc_conversation_witness :
  exists s1 s2 s3 s4 hc, AlpcCreatePort 0xB000 0x9000 0x20000 no_ports = (Ok STATUS_SUCCESS, s1) /\
    AlpcConnectPort (1, 2) 0xB000 0x6000 0 0 0x30000 (set_mem port_bytes s1) = (Ok STATUS_SUCCESS, s2) /\
    AlpcSendWaitReceivePort (1, 2) hc 0xA000 0 0 (set_mem port_bytes s2) = (Ok STATUS_SUCCESS, s3) /\
    AlpcSendWaitReceivePort (0, 0) 4 0 0xC000 0xC100 (set_mem (splice 0xC100 (le_bytes 8 41) port_bytes) s3) = (Ok STATUS_BUFFER_TOO_SMALL, s4) /\
    holds (p_mem s4) 0xC000 (take 41 (stamp (1, 2) hello)).
Proof.
  set (m4 := splice 0xC100 (le_bytes 8 41) port_bytes).
  destruct (alpc_conversation (1, 2) 0xB000 0x9000 0x20000 [72; 105] 0xB000 0x6000 [72; 105] 0 [] 0x30000 port_bytes
    [(port_bytes, Send true (1, 2) 0xA000 hello); (m4, Receive false 0xC000 0xC100 41)] no_ports no_ports_ok) as (s1 & E1 & _ & H).
  - split; [vm_compute; discriminate|]. split; [reflexivity|vm_compute; reflexivity].
  - discriminate.
  - exact read_port_name.
  - reflexivity.
  - split; [lia|]. split; [lia|]. apply zeros_mapped; lia.
  - destruct H as (s2 & hc & E2 & _ & _ & Hc).
    + replace (tbl s1) with (tbl (snd (AlpcCreatePort 0xB000 0x9000 0x20000 no_ports))) by (rewrite E1; reflexivity).
      split; [vm_compute; discriminate|]. split; [vm_compute; reflexivity|vm_compute; reflexivity].
    + exact read_name.
    + reflexivity.
    + split; [lia|]. split; [lia|]. apply zeros_mapped; lia.
    + left. reflexivity.
    + change (0 =? 0) with true in Hc. cbn [converses spec] in Hc. destruct (Hc hello_here) as (s3 & E3 & _ & Hc').
      destruct Hc' as (s4 & E4 & Ho & _).
      * split; [lia|]. cbn. split; [split; [lia|split; [vm_compute; discriminate|]]|lia|].
        { apply splice_mapped, zeros_mapped; vm_compute; discriminate. }
        { cbn. split; [lia|]. split; [lia|]. split; [apply splice_holds|]. right. vm_compute. discriminate. }
      * exists s1, s2, s3, s4, hc. split; [exact E1|]. split; [exact E2|]. split; [exact E3|]. split; [exact E4|exact Ho].
Defined.
