(* ===== verification/DispatchOps.v ===== *)
(** * Dispatcher objects by handle, timers, interrupt levels

    [Timers]: modules/nt_timer_ops.cpp.  [Irql]: nt_irql_ops.cpp.  [Dispatch]:
    modules/nt_dispatch_ops.cpp, events, semaphores, mutants and keyed events
    behind handles, over the handle table of [Objects] and the objects, threads and
    waits of [SyncOps].  What an entry point writes through its out pointers is part
    of its result. *)

From stdpp Require Import list gmap.
From S2P Require Import Prelude Mmu Thread SyncOps Paths Objects.
From stdpp Require Import options.

Open Scope Z_scope.
Open Scope kern_scope.

Module Dispatch.

Definition STATUS_INVALID_INFO_CLASS : Z := 0xC0000003.
Definition STATUS_INFO_LENGTH_MISMATCH : Z := 0xC0000004.
Definition STATUS_OBJECT_NAME_NOT_FOUND : Z := 0xC0000034.
Definition STATUS_MUTANT_NOT_OWNED : Z := 0xC0000046.
Definition STATUS_SEMAPHORE_LIMIT_EXCEEDED : Z := 0xC0000047.
Definition STATUS_INSUFFICIENT_RESOURCES : Z := 0xC000009A.
Definition STATUS_INVALID_PARAMETER_4 : Z := 0xC00000F2.

Definition notification_event : Z := 0.
Definition event_basic_information : Z := 0.
Definition int32_max : Z := 2 ^ 31 - 1.

(** A gate: the semaphore waiters post and the one releasers post. *)
Inductive dhost : Type :=
  | HDispatcher (type : Z) (name : str)
  | HKeyed (gates_ : gmap Z (Z * Z)).

(** [default_keyed]: the keyed event of the null handle. *)
Record dsys : Type := DSys { tbl : table; hosts : gmap Z dhost; fresh_host : Z; default_keyed : Z; kern : ksys }.

Definition set_tbl t s := DSys t (hosts s) (fresh_host s) (default_keyed s) (kern s).
Definition add_host h s := DSys (tbl s) (<[fresh_host s := h]> (hosts s)) (fresh_host s + 1) (default_keyed s) (kern s).
Definition set_host r h s := DSys (tbl s) (<[r := h]> (hosts s)) (fresh_host s) (default_keyed s) (kern s).
Definition set_kern k s := DSys (tbl s) (hosts s) (fresh_host s) (default_keyed s) k.
Definition on_space f s := set_kern (set_mem (f (mem (kern s))) (kern s)) s.

Definition zeroed : kobject := KObject 0 0 0 0 0.

(** ** Making and finding objects *)

(** [size] is that of the body in words; [base] is where the object manager puts
    the object. *)
Definition create_dispatcher (type size signal_state access : Z) (name : str) (base : Z) (s : dsys) : Z * dsys :=
  let r := fresh_host s in
  let s := add_host (HDispatcher type name) s in
  let '(addr, objs) := create_object base 0 (Some r) (objs_ (tbl s)) in
  let s := on_space (set_object addr zeroed) (set_tbl (on_objs (fun _ => objs) (tbl s)) s) in
  if addr =? 0 then (0, s) else
  let s := on_space (init_dispatcher addr type size signal_state) s in
  let '(handle, t) := create_handle addr access (tbl s) in (handle, set_tbl t s).

Definition is_event (type : Z) : bool := (type =? event_notification_object) || (type =? event_synchronization_object).

(** The address of the object, 0 when the handle is no such object's. *)
Definition resolve (handle expected : Z) (s : dsys) : Z :=
  match lookup_handle handle (tbl s) with
  | None => 0
  | Some (body, _) =>
      match get_object body (objs_ (tbl s)) ≫= fun r => hosts s !! r with
      | Some (HDispatcher type _) => if (type =? expected) || (is_event expected && is_event type) then body else 0
      | _ => 0
      end
  end.

(** ** Events *)

Definition NtCreateEvent (handle_out : bool) (access : Z) (name : str) (event_type : Z) (initial_state : bool) (base : Z) (s : dsys) : Z * Z * dsys :=
  if negb handle_out then (STATUS_INVALID_PARAMETER, 0, s) else
  let type := if event_type =? notification_event then event_notification_object else event_synchronization_object in
  let '(handle, s) := create_dispatcher type kevent_size (if initial_state then 1 else 0) access name base s in
  if handle =? 0 then (STATUS_INSUFFICIENT_RESOURCES, 0, s) else (STATUS_SUCCESS, handle, s).

Definition NtOpenEvent (s : dsys) : Z * dsys := (STATUS_OBJECT_NAME_NOT_FOUND, s).

Definition NtSetEvent (handle : Z) (s : dsys) : Z * Z * dsys :=
  let event := resolve handle event_notification_object s in
  if event =? 0 then (STATUS_INVALID_HANDLE, 0, s) else
  let previous := state_at (mem (kern s)) event in
  let s := on_space (set_state_at event 1) s in
  (STATUS_SUCCESS, previous, set_kern (wake event (kern s)) s).

Definition NtResetEvent (handle : Z) (s : dsys) : Z * Z * dsys :=
  let event := resolve handle event_notification_object s in
  if event =? 0 then (STATUS_INVALID_HANDLE, 0, s) else
  (STATUS_SUCCESS, state_at (mem (kern s)) event, on_space (set_state_at event 0) s).

Definition NtClearEvent (handle : Z) (s : dsys) : Z * dsys :=
  let event := resolve handle event_notification_object s in
  if event =? 0 then (STATUS_INVALID_HANDLE, s) else (STATUS_SUCCESS, on_space (set_state_at event 0) s).

(** The type of the host the handle stands for. *)
Definition type_of_handle (handle : Z) (s : dsys) : Z :=
  match get_object_of handle (tbl s) ≫= fun r => hosts s !! r with Some (HDispatcher type _) => type | _ => 0 end.

(** The kind, 0 or 1, and the state. *)
Definition NtQueryEvent (handle info_class length : Z) (s : dsys) : Z * option (Z * Z) * dsys :=
  let event := resolve handle event_notification_object s in
  if event =? 0 then (STATUS_INVALID_HANDLE, None, s)
  else if negb (info_class =? event_basic_information) then (STATUS_INVALID_INFO_CLASS, None, s)
  else if length <? 8 then (STATUS_INFO_LENGTH_MISMATCH, None, s)
  else (STATUS_SUCCESS, Some (if type_of_handle handle s =? event_notification_object then 0 else 1, state_at (mem (kern s)) event), s).

(** ** Semaphores *)

Definition NtCreateSemaphore (handle_out : bool) (access : Z) (name : str) (initial_count maximum_count base : Z) (s : dsys) : Z * Z * dsys :=
  if negb handle_out then (STATUS_INVALID_PARAMETER, 0, s) else
  if (maximum_count <=? 0) || (initial_count <? 0) || (maximum_count <? initial_count) then (STATUS_INVALID_PARAMETER, 0, s) else
  let '(handle, s) := create_dispatcher semaphore_object ksemaphore_size initial_count access name base s in
  if handle =? 0 then (STATUS_INSUFFICIENT_RESOURCES, 0, s) else
  let body := match lookup_handle handle (tbl s) with Some (body, _) => body | None => 0 end in
  (STATUS_SUCCESS, handle, on_space (fun m => set_object body (set_limit maximum_count (m body)) m) s).

Definition NtReleaseSemaphore (handle release_count : Z) (s : dsys) : Z * Z * dsys :=
  let semaphore := resolve handle semaphore_object s in
  if semaphore =? 0 then (STATUS_INVALID_HANDLE, 0, s) else
  if release_count <=? 0 then (STATUS_INVALID_PARAMETER, 0, s) else
  let previous := state_at (mem (kern s)) semaphore in
  if k_limit (mem (kern s) semaphore) <? s32 (previous + release_count) then (STATUS_SEMAPHORE_LIMIT_EXCEEDED, 0, s) else
  let s := on_space (set_state_at semaphore (previous + release_count)) s in
  (STATUS_SUCCESS, previous, set_kern (wake semaphore (kern s)) s).

(** ** Mutants *)

(** [self] is the ETHREAD of the caller, 0 without one. *)
Definition NtCreateMutant (handle_out : bool) (access : Z) (name : str) (initial_owner : bool) (self base : Z) (s : dsys) : Z * Z * dsys :=
  if negb handle_out then (STATUS_INVALID_PARAMETER, 0, s) else
  let '(handle, s) := create_dispatcher mutant_object kmutant_size (if initial_owner then 0 else 1) access name base s in
  if handle =? 0 then (STATUS_INSUFFICIENT_RESOURCES, 0, s) else
  let body := match lookup_handle handle (tbl s) with Some (body, _) => body | None => 0 end in
  let s := if initial_owner then on_space (fun m => set_object body (set_owner self (m body)) m) s else s in
  (STATUS_SUCCESS, handle, s).

Definition NtReleaseMutant (handle : Z) (s : dsys) : Z * Z * dsys :=
  let mutant := resolve handle mutant_object s in
  if mutant =? 0 then (STATUS_INVALID_HANDLE, 0, s) else
  let previous := state_at (mem (kern s)) mutant in
  if 0 <? previous then (STATUS_MUTANT_NOT_OWNED, 0, s) else
  let s := on_space (fun m => let m := set_state_at mutant (previous + 1) m in set_object mutant (set_owner 0 (m mutant)) m) s in
  (STATUS_SUCCESS, previous, set_kern (wake mutant (kern s)) s).

(** ** Keyed events *)

Definition make_semaphore (base : Z) (s : dsys) : Z * dsys :=
  let '(addr, objs) := create_object base 0 None (objs_ (tbl s)) in
  let s := on_space (set_object addr zeroed) (set_tbl (on_objs (fun _ => objs) (tbl s)) s) in
  if addr =? 0 then (0, s) else
  (addr, on_space (fun m =>
     let m := init_dispatcher addr semaphore_object ksemaphore_size 0 m in set_object addr (set_limit int32_max (m addr)) m) s).

(** The two semaphores of a key, made when it is first met. *)
Definition gate_for (r : Z) (gates : gmap Z (Z * Z)) (key base1 base2 : Z) (s : dsys) : Z * Z * dsys :=
  let '(arrivals, releases) := default (0, 0) (gates !! key) in
  if negb (arrivals =? 0) then (arrivals, releases, s) else
  let '(arrivals, s) := make_semaphore base1 s in
  let '(releases, s) := make_semaphore base2 s in
  (arrivals, releases, set_host r (HKeyed (<[key := (arrivals, releases)]> gates)) s).

Definition keyed_event_from_handle (handle : Z) (s : dsys) : option (Z * gmap Z (Z * Z)) :=
  let keyed r := match hosts s !! r with Some (HKeyed g) => Some (r, g) | _ => None end in
  if handle =? 0 then keyed (default_keyed s) else get_object_of handle (tbl s) ≫= keyed.

Definition NtCreateKeyedEvent (handle_out : bool) (access : Z) (name : str) (flags base : Z) (s : dsys) : Z * Z * dsys :=
  if negb handle_out then (STATUS_INVALID_PARAMETER, 0, s) else
  if negb (flags =? 0) then (STATUS_INVALID_PARAMETER_4, 0, s) else
  let r := fresh_host s in
  let s := add_host (HKeyed ∅) s in
  let '(addr, objs) := create_object base 0 (Some r) (objs_ (tbl s)) in
  let s := set_tbl (on_objs (fun _ => objs) (tbl s)) s in
  if addr =? 0 then (STATUS_INSUFFICIENT_RESOURCES, 0, s) else
  let s := set_tbl (on_objs (register_named_object name addr) (tbl s)) s in
  let '(handle, t) := create_handle addr access (tbl s) in (STATUS_SUCCESS, handle, set_tbl t s).

(** The [cur]-th thread posts one semaphore of the gate and waits on the other. *)
Definition meet (c : clock) (i : nat) (post wait_on : Z) (timeout : option Z) (k : ksys) : ksys :=
  let k := wake post (set_mem (set_state_at post (state_at (mem k) post + 1) (mem k)) k) in
  let '(when, is_timed) := read_timeout (guest_now c) timeout in
  yield_current (park c i (WaitState [wait_on] false when is_timed false 0) k).

Definition rendezvous (c : clock) (cur : option nat) (handle key : Z) (timeout : option Z) (releasing : bool) (base1 base2 : Z) (s : dsys) : Z * dsys :=
  match keyed_event_from_handle handle s with
  | None => (STATUS_INVALID_HANDLE, s)
  | Some (r, gates) =>
      match cur with
      | None => (STATUS_INVALID_PARAMETER, s)
      | Some i =>
          let '(arrivals, releases, s) := gate_for r gates key base1 base2 s in
          if (arrivals =? 0) || (releases =? 0) then (STATUS_INSUFFICIENT_RESOURCES, s) else
          let post := if releasing then releases else arrivals in
          let wait_on := if releasing then arrivals else releases in
          (STATUS_SUCCESS, set_kern (meet c i post wait_on timeout (kern s)) s)
      end
  end.

Definition NtWaitForKeyedEvent c cur handle key timeout := rendezvous c cur handle key timeout false.
Definition NtReleaseKeyedEvent c cur handle key timeout := rendezvous c cur handle key timeout true.

End Dispatch.

(** ** Timers and DPCs

    modules/nt_timer_ops.cpp.  A timer's header is a dispatcher object of [Dispatch];
    what follows it, and the DPCs, are records by address.  A thread that is created
    is its routine and arguments. *)

Module Timers.
Import Dispatch.

Definition timer_synchronization_object : Z := 9.
Definition ktimer_size : Z := 16.
Definition dpc_object_type : Z := 19.
Definition medium_importance : Z := 1.
Definition synchronization_timer : Z := 1.

Record ktimer : Type := KTimer { DueTime : Z; TimerDpc : Z; Period : Z }.
Record kdpc : Type := KDpc {
  dpc_type : Z; Importance : Z; DeferredRoutine : Z; DeferredContext : Z; SystemArgument1 : Z; SystemArgument2 : Z; DpcData : Z
}.
Record tsys : Type := TSys { objs : dsys; timers : Z -> ktimer; dpcs : Z -> kdpc; started : list (Z * list Z) }.

Definition on_objects f t := TSys (f (objs t)) (timers t) (dpcs t) (started t).
Definition set_timer_at a f t := TSys (objs t) (fun y => if y =? a then f (timers t a) else timers t y) (dpcs t) (started t).
Definition set_dpc_at a d t := TSys (objs t) (timers t) (fun y => if y =? a then d else dpcs t y) (started t).
Definition create_thread routine args t := TSys (objs t) (timers t) (dpcs t) (started t ++ [(routine, args)]).

Definition KeInitializeDpc (dpc deferred_routine deferred_context : Z) (t : tsys) : tsys :=
  if dpc =? 0 then t else set_dpc_at dpc (KDpc dpc_object_type medium_importance deferred_routine deferred_context 0 0 0) t.

Definition KeInsertQueueDpc (dpc system_argument1 system_argument2 : Z) (t : tsys) : bool * tsys :=
  if dpc =? 0 then (false, t) else
  let e := dpcs t dpc in
  if DeferredRoutine e =? 0 then (false, t) else
  if negb (DpcData e =? 0) then (false, t) else
  (true, create_thread (DeferredRoutine e) [dpc; DeferredContext e; system_argument1; system_argument2]
           (set_dpc_at dpc (KDpc (dpc_type e) (Importance e) (DeferredRoutine e) (DeferredContext e) system_argument1 system_argument2 dpc) t)).

Definition init_timer (timer type : Z) (t : tsys) : tsys :=
  set_timer_at timer (fun _ => KTimer 0 0 0) (on_objects (on_space (init_dispatcher timer type ktimer_size 0)) t).
Definition KeInitializeTimer (timer : Z) (t : tsys) : tsys :=
  if timer =? 0 then t else init_timer timer timer_notification_object t.
Definition KeInitializeTimerEx (timer type : Z) (t : tsys) : tsys :=
  if timer =? 0 then t else init_timer timer (if type =? synchronization_timer then timer_synchronization_object else timer_notification_object) t.

(** [now] is the system time. *)
Definition set_timer (now timer due_time period dpc : Z) (t : tsys) : bool * tsys :=
  let was_set := negb (DueTime (timers t timer) =? 0) in
  let absolute := if due_time <? 0 then u64 (now - due_time) else due_time in
  (was_set, set_timer_at timer (fun _ => KTimer absolute dpc (u32 period)) (on_objects (on_space (set_state_at timer 0)) t)).
Definition KeSetTimer (now timer due_time dpc : Z) (t : tsys) : bool * tsys :=
  if timer =? 0 then (false, t) else set_timer now timer due_time 0 dpc t.
Definition KeSetTimerEx (now timer due_time period dpc : Z) (t : tsys) : bool * tsys :=
  if period <? 0 then (false, t) else if timer =? 0 then (false, t) else set_timer now timer due_time period dpc t.
Definition KeCancelTimer (timer : Z) (t : tsys) : bool * tsys :=
  if timer =? 0 then (false, t) else
  (negb (DueTime (timers t timer) =? 0), set_timer_at timer (fun e => KTimer 0 0 (Period e)) t).
Definition KeReadStateTimer (timer : Z) (t : tsys) : bool :=
  if timer =? 0 then false else negb (state_at (mem (kern (objs t))) timer =? 0).

Definition NtCreateTimer2 (handle_out : bool) (attributes access base : Z) (t : tsys) : Z * Z * tsys :=
  if negb handle_out then (STATUS_INVALID_PARAMETER, 0, t) else
  let '(addr, m) := create_object base 0 None (objs_ (tbl (objs t))) in
  let t := on_objects (fun s => on_space (set_object addr zeroed) (set_tbl (on_objs (fun _ => m) (tbl s)) s)) t in
  if addr =? 0 then (STATUS_INSUFFICIENT_RESOURCES, 0, t) else
  let t := set_timer_at addr (fun _ => KTimer 0 0 0) (on_objects (on_space (init_dispatcher addr
             (if Z.odd attributes then timer_synchronization_object else timer_notification_object) ktimer_size 0)) t) in
  let '(handle, tb) := create_handle addr access (tbl (objs t)) in
  (STATUS_SUCCESS, handle, on_objects (set_tbl tb) t).

(** The object is whatever the handle stands for. *)
Definition NtSetTimer2 (now timer_handle : Z) (due_time period : option Z) (t : tsys) : Z * tsys :=
  match lookup_handle timer_handle (tbl (objs t)), due_time with
  | None, _ => (STATUS_INVALID_HANDLE, t)
  | _, None => (STATUS_INVALID_PARAMETER, t)
  | Some (body, _), Some due =>
      (STATUS_SUCCESS, set_timer_at body (fun e => KTimer (u64 (read_timeout now (Some due)).1) (TimerDpc e) (u32 (Z.quot (default 0 period) 10000))) t)
  end.
Definition NtCancelTimer2 (timer_handle : Z) (t : tsys) : Z * tsys :=
  match lookup_handle timer_handle (tbl (objs t)) with
  | None => (STATUS_INVALID_HANDLE, t)
  | Some (body, _) => (STATUS_SUCCESS, set_timer_at body (fun e => KTimer 0 (TimerDpc e) 0) t)
  end.

End Timers.

(** ** Interrupt levels and spin locks

    modules/nt_irql_ops.cpp, on the level of the calling cpu.  A spin lock is its
    level alone: the word is not touched, and the routines for a caller that is at
    dispatch level already do nothing. *)

Module Irql.

Definition passive_level : Z := 0.
Definition dispatch_level : Z := 2.

Definition raise_to (n : Z) (k : ksys) : Z * ksys := (irql k, set_irql n k).
Definition KeGetCurrentIrql (k : ksys) : Z := irql k.
(** What is written through the pointer, where there is one. *)
Definition KeRaiseIrql (new_irql : Z) (old_irql_out : bool) (k : ksys) : option Z * ksys :=
  let '(old, k) := raise_to new_irql k in (if old_irql_out then Some old else None, k).
Definition KfRaiseIrql (new_irql : Z) (k : ksys) : Z * ksys := raise_to new_irql k.
Definition KeLowerIrql (new_irql : Z) (k : ksys) : ksys := (raise_to new_irql k).2.
Definition KfLowerIrql (new_irql : Z) (k : ksys) : ksys := (raise_to new_irql k).2.
Definition KeRaiseIrqlToDpcLevel (k : ksys) : Z * ksys := raise_to dispatch_level k.
Definition KeRaiseIrqlToSynchLevel (k : ksys) : Z * ksys := raise_to dispatch_level k.

Definition KeAcquireSpinLockRaiseToDpc (spin_lock : Z) (k : ksys) : Z * ksys := raise_to dispatch_level k.
Definition KeReleaseSpinLock (spin_lock new_irql : Z) (k : ksys) : ksys := (raise_to new_irql k).2.
Definition KeAcquireSpinLockAtDpcLevel (spin_lock : Z) (k : ksys) : ksys := k.
Definition KeReleaseSpinLockFromDpcLevel (spin_lock : Z) (k : ksys) : ksys := k.
Definition ExAcquireSpinLockShared (spin_lock : Z) (k : ksys) : Z * ksys := raise_to dispatch_level k.
Definition ExAcquireSpinLockExclusive (spin_lock : Z) (k : ksys) : Z * ksys := raise_to dispatch_level k.
Definition ExReleaseSpinLockShared (spin_lock old_irql : Z) (k : ksys) : ksys := (raise_to old_irql k).2.
Definition ExReleaseSpinLockExclusive (spin_lock old_irql : Z) (k : ksys) : ksys := (raise_to old_irql k).2.
Definition ExAcquireSpinLockExclusiveAtDpcLevel (spin_lock : Z) (k : ksys) : ksys := k.
Definition ExReleaseSpinLockExclusiveFromDpcLevel (spin_lock : Z) (k : ksys) : ksys := k.

End Irql.
