(* ===== verification/DispatchThm.v ===== *)
(** * Dispatcher objects by handle: what they are

    A handle that stands for an event, a semaphore or a mutant reaches the object
    behind it as the kernel's own routines do; and the two sides of a keyed event
    meet, whichever comes first.  Timers say whether they were set, a DPC runs once,
    and spin locks nest. *)

From stdpp Require Import list gmap.
From S2P Require Import Prelude Mmu Thread SyncOps SyncThm Paths Objects ObjectsThm DispatchOps.
From stdpp Require Import options.

Open Scope Z_scope.
Open Scope kern_scope.
Import Dispatch.

(** ** What is made *)

Record sys_ok (s : dsys) : Prop := {
  so_table : table_ok (tbl s);
  so_hosts : forall r, is_Some (hosts s !! r) -> r < fresh_host s
}.

Lemma create_dispatcher_ok type size state access n base s :
  sys_ok s -> has_room base (tbl s) ->
  exists s', create_dispatcher type size state access n base s = (next_handle_ (tbl s), s') /\
    created (Some (fresh_host s)) base [] access (tbl s) (tbl s') /\
    hosts s' = <[fresh_host s := HDispatcher type n]> (hosts s) /\ fresh_host s' = fresh_host s + 1 /\
    ts (kern s') = ts (kern s) /\
    forall x, mem (kern s') x = if x =? body_of base then KObject type size state 0 0 else mem (kern s) x.
Proof.
  intros Hok Hr. destruct (named_object_created (Some (fresh_host s)) base [] access (tbl s) (so_table _ Hok) Hr) as (t' & E & C).
  unfold create_dispatcher. cbn [fst snd create_object]. fold (body_of base). rewrite (proj2 (Z.eqb_neq (body_of base) 0)) by apply Hr.
  cbn -[body_of create_handle]. change (create_handle (body_of base) access _) with (create_handle (body_of base) access (named_object (Some (fresh_host s)) base [] (tbl s))).
  rewrite E. eexists. split; [reflexivity|]. cbn -[body_of]. split_and!; [done..|]. intros x.
  unfold init_dispatcher, set_object. rewrite Z.eqb_refl. cbn. by destruct (x =? body_of base).
Qed.

(** A handle and the object it reaches. *)
Definition reaches (s : dsys) (handle x type : Z) (n : str) : Prop :=
  x <> 0 /\ exists access r, lookup_handle handle (tbl s) = Some (x, access) /\ get_object x (objs_ (tbl s)) = Some r /\
    hosts s !! r = Some (HDispatcher type n).

Lemma resolve_reaches s handle x type n expected :
  reaches s handle x type n -> type = expected \/ (is_event expected = true /\ is_event type = true) -> resolve handle expected s = x.
Proof.
  intros (_ & access & r & E1 & E2 & E3) Ht. unfold resolve. rewrite E1, E2. cbn. rewrite E3.
  destruct Ht as [->|[-> ->]]; [by rewrite Z.eqb_refl|]. by rewrite orb_true_r.
Qed.

Lemma created_reaches type size state access n base s s' :
  sys_ok s -> has_room base (tbl s) -> create_dispatcher type size state access n base s = (next_handle_ (tbl s), s') ->
  sys_ok s' /\ reaches s' (next_handle_ (tbl s)) (body_of base) type n /\ next_handle_ (tbl s) <> 0 /\
  mem (kern s') (body_of base) = KObject type size state 0 0 /\
  (forall x, x <> body_of base -> mem (kern s') x = mem (kern s) x) /\
  (forall h x t m, reaches s h x t m -> reaches s' h x t m).
Proof.
  intros Hok Hr E. destruct (create_dispatcher_ok type size state access n base s Hok Hr) as (s0 & E0 & C & Eh & Ef & _ & Em).
  rewrite E in E0. injection E0 as <-. destruct (tk_next _ (so_table _ Hok)) as [[Hp _] _]. split_and!.
  - split; [apply (cr_ok _ _ _ _ _ _ C)|]. intros r Hrr. rewrite Ef. rewrite Eh in Hrr.
    destruct (decide (r = fresh_host s)) as [->|Hn]; [lia|]. rewrite lookup_insert_ne in Hrr by done. apply (so_hosts _ Hok) in Hrr. lia.
  - split; [apply Hr|]. exists access, (fresh_host s). split_and!; [apply (created_lookup _ _ _ _ _ _ C)|apply (created_body _ _ _ _ _ _ C)|by rewrite Eh, lookup_insert_eq].
  - lia.
  - by rewrite Em, Z.eqb_refl.
  - intros x Hx. by rewrite Em, (proj2 (Z.eqb_neq _ _)).
  - intros h x t m (Hx & a & r & E1 & E2 & E3). split; [done|]. exists a, r. destruct (created_handle _ _ _ _ _ _ (so_table _ Hok) Hr C h _ E1) as (_ & E1' & _).
    split_and!; [done| |].
    + unfold get_object in *. destruct (objects_ (objs_ (tbl s)) !! x) as [o|] eqn:Eo; [|done]. by rewrite (created_object _ _ _ _ _ _ Hr C) by (by rewrite Eo); rewrite Eo.
    + rewrite Eh, lookup_insert_ne; [done|]. intros <-. assert (fresh_host s < fresh_host s); [|lia]. apply (so_hosts _ Hok). by eexists.
Qed.

(** ** By handle as by pointer *)

(** On a handle that reaches an event, a semaphore or a mutant the Nt routines do
    to the object and the threads what the Ke routines do to it by its address,
    and report what those return; what is refused changes nothing. *)
Theorem nt_as_ke s handle x type n :
  reaches s handle x type n ->
  (is_event type = true ->
     NtSetEvent handle s = (let '(previous, k) := KeSetEvent (Some x) (kern s) in (STATUS_SUCCESS, previous, set_kern k s)) /\
     NtResetEvent handle s = (let '(previous, k) := KeResetEvent (Some x) (kern s) in (STATUS_SUCCESS, previous, set_kern k s)) /\
     NtClearEvent handle s = (STATUS_SUCCESS, set_kern (KeResetEvent (Some x) (kern s)).2 s) /\
     (forall len, 8 <= len -> NtQueryEvent handle event_basic_information len s = (STATUS_SUCCESS, Some (type, state_at (mem (kern s)) x), s)) /\
     NtReleaseMutant handle s = (STATUS_INVALID_HANDLE, 0, s) /\ forall count, NtReleaseSemaphore handle count s = (STATUS_INVALID_HANDLE, 0, s)) /\
  (type = semaphore_object -> forall count,
     NtReleaseSemaphore handle count s =
       if count <=? 0 then (STATUS_INVALID_PARAMETER, 0, s)
       else if k_limit (mem (kern s) x) <? s32 (state_at (mem (kern s)) x + count) then (STATUS_SEMAPHORE_LIMIT_EXCEEDED, 0, s)
       else let '(previous, k) := KeReleaseSemaphore (Some x) count (kern s) in (STATUS_SUCCESS, previous, set_kern k s)) /\
  (type = mutant_object ->
     NtReleaseMutant handle s =
       if 0 <? state_at (mem (kern s)) x then (STATUS_MUTANT_NOT_OWNED, 0, s)
       else let '(previous, k) := KeReleaseMutex (Some x) (kern s) in (STATUS_SUCCESS, previous, set_kern k s)).
Proof.
  intros H. pose proof (resolve_reaches s handle x type n) as Hres. specialize (fun e => Hres e H). destruct H as (Hx & a & r & E1 & E2 & E3). split_and!.
  - intros Ht. assert (resolve handle event_notification_object s = x) as Ee by (apply Hres; by right).
    assert (forall e, e = semaphore_object \/ e = mutant_object -> resolve handle e s = 0) as Eo.
    { intros e He. unfold resolve. rewrite E1, E2. cbn. rewrite E3. unfold is_event in *.
      apply orb_true_iff in Ht as [->%Z.eqb_eq| ->%Z.eqb_eq]; by destruct He as [-> | ->]. }
    unfold NtSetEvent, NtResetEvent, NtClearEvent, NtQueryEvent, NtReleaseMutant, NtReleaseSemaphore, KeSetEvent, KeResetEvent.
    rewrite Ee, !Eo, (proj2 (Z.eqb_neq x 0)) by auto. split_and!; try done.
    intros len Hl. rewrite (proj2 (Z.ltb_ge _ _)) by lia. cbn. do 2 f_equal. f_equal. f_equal.
    unfold type_of_handle, get_object_of. rewrite E1. cbn. rewrite E2. cbn. rewrite E3. unfold is_event in Ht.
    by apply orb_true_iff in Ht as [->%Z.eqb_eq| ->%Z.eqb_eq].
  - intros -> count. unfold NtReleaseSemaphore, KeReleaseSemaphore. rewrite (Hres semaphore_object) by by left. rewrite (proj2 (Z.eqb_neq x 0)) by done.
    destruct (count <=? 0); [done|]. by destruct (_ <? _).
  - intros ->. unfold NtReleaseMutant, KeReleaseMutex. rewrite (Hres mutant_object) by by left. rewrite (proj2 (Z.eqb_neq x 0)) by done.
    by destruct (0 <? _).
Qed.

Lemma set_object_same a o m : set_object a o m a = o.
Proof. unfold set_object. by rewrite Z.eqb_refl. Qed.
Lemma set_object_other a o m x : x <> a -> set_object a o m x = m x.
Proof. intros H. unfold set_object. by rewrite (proj2 (Z.eqb_neq x a)). Qed.

(** A new object is reached by its handle alone, and nothing else changes. *)
Definition made (s s' : dsys) (handle type : Z) (n : str) (base : Z) (o : kobject) : Prop :=
  sys_ok s' /\ handle <> 0 /\ reaches s' handle (body_of base) type n /\ mem (kern s') (body_of base) = o /\
  (forall x, x <> body_of base -> mem (kern s') x = mem (kern s) x) /\
  (forall h x t m, reaches s h x t m -> reaches s' h x t m /\ h <> handle).

Lemma reaches_space f s h x t n : reaches s h x t n -> reaches (on_space f s) h x t n.
Proof. done. Qed.

(** The handle that creating an event, a semaphore or a mutant gives out is new and
    reaches an object in the state asked for; no other object changes, and every
    handle goes on reaching what it did.  A semaphore whose counts make no sense is
    refused. *)
Theorem nt_create s access n base :
  sys_ok s -> has_room base (tbl s) ->
  let h := next_handle_ (tbl s) in
  (forall event_type initial, exists s', NtCreateEvent true access n event_type initial base s = (STATUS_SUCCESS, h, s') /\
     let type := if event_type =? notification_event then event_notification_object else event_synchronization_object in
     made s s' h type n base (KObject type kevent_size (if initial then 1 else 0) 0 0)) /\
  (forall initial maximum,
     if bool_decide (0 <= initial <= maximum /\ 0 < maximum)
     then exists s', NtCreateSemaphore true access n initial maximum base s = (STATUS_SUCCESS, h, s') /\
       made s s' h semaphore_object n base (KObject semaphore_object ksemaphore_size initial 0 maximum)
     else NtCreateSemaphore true access n initial maximum base s = (STATUS_INVALID_PARAMETER, 0, s)) /\
  (forall owned self, exists s', NtCreateMutant true access n owned self base s = (STATUS_SUCCESS, h, s') /\
     made s s' h mutant_object n base
       (if owned : bool then KObject mutant_object kmutant_size 0 self 0 else KObject mutant_object kmutant_size 1 0 0)).
Proof.
  intros Hok Hr h.
  assert (forall type size state, exists s', create_dispatcher type size state access n base s = (h, s') /\
    made s s' h type n base (KObject type size state 0 0) /\ lookup_handle h (tbl s') = Some (body_of base, access)) as Hmade.
  { intros type size state. destruct (create_dispatcher_ok type size state access n base s Hok Hr) as (s' & E & C & _).
    exists s'. split; [done|]. destruct (created_reaches type size state access n base s s' Hok Hr E) as (H1 & H2 & H3 & H4 & H5 & H6).
    split; [|apply (created_lookup _ _ _ _ _ _ C)]. split_and!; try done. intros h' x t m Hre. split; [by apply H6|].
    destruct Hre as (_ & a & r & E1 & _). by apply (created_handle _ _ _ _ _ _ (so_table _ Hok) Hr C h' _ E1). }
  assert (forall s' type o f, made s s' h type n base o -> (forall x, x <> body_of base -> f (mem (kern s')) x = mem (kern s') x) ->
    made s (on_space f s') h type n base (f (mem (kern s')) (body_of base))) as Hspace.
  { intros s' type o f (H1 & H2 & H3 & H4 & H5 & H6) Hf. split_and!; try done; [by split; apply H1|]. intros x Hx. cbn. rewrite Hf by done. by apply H5. }
  assert (h <> 0) as Hh by (destruct (Hmade 0 0 0) as (s' & _ & (_ & Hh & _) & _); done).
  split_and!.
  - intros event_type initial. destruct (Hmade (if event_type =? notification_event then event_notification_object else event_synchronization_object) kevent_size (if initial then 1 else 0)) as (s' & E & M & _).
    exists s'. unfold NtCreateEvent. cbn [negb]. rewrite E, (proj2 (Z.eqb_neq h 0)) by done. done.
  - intros initial maximum. unfold NtCreateSemaphore. cbn [negb]. case_bool_decide as Hc.
    + rewrite (proj2 (Z.leb_gt _ _)), (proj2 (Z.ltb_ge _ _)), (proj2 (Z.ltb_ge _ _)) by lia. cbn [orb].
      destruct (Hmade semaphore_object ksemaphore_size initial) as (s' & E & M & L). rewrite E, (proj2 (Z.eqb_neq h 0)), L by done. eexists. split; [done|].
      pose proof (Hspace s' _ _ (fun m => set_object (body_of base) (set_limit maximum (m (body_of base))) m) M) as Hs.
      destruct M as (_ & _ & _ & Eo & _). cbn beta in Hs. rewrite set_object_same, Eo in Hs. apply Hs.
      intros x Hx. by apply set_object_other.
    + destruct (Z.leb_spec maximum 0), (Z.ltb_spec initial 0), (Z.ltb_spec maximum initial); try done. lia.
  - intros owned self. unfold NtCreateMutant. cbn [negb]. destruct (Hmade mutant_object kmutant_size (if owned then 0 else 1)) as (s' & E & M & L).
    rewrite E, (proj2 (Z.eqb_neq h 0)), L by done. eexists. split; [done|]. destruct owned; [|done].
    pose proof (Hspace s' _ _ (fun m => set_object (body_of base) (set_owner self (m (body_of base))) m) M) as Hs.
    destruct M as (_ & _ & _ & Eo & _). cbn beta in Hs. rewrite set_object_same, Eo in Hs. apply Hs.
    intros x Hx. by apply set_object_other.
Qed.

(** ** The two sides of a keyed event *)

Lemma wake_each_none o l m : Forall (fun t => waiting_on t o = false) l -> wake_each o l m = (false, l, m).
Proof. induction 1 as [|t l Ht _ IH]; cbn; [done|]. by rewrite Ht, IH. Qed.

Lemma wake_each_one o l i t m :
  l !! i = Some t -> waiting_on t o = true -> (forall j u, j <> i -> l !! j = Some u -> waiting_on u o = false) ->
  wake_each o l m = (let '(b, t', m') := try_satisfy m t in (b, <[i := t']> l, m')).
Proof.
  revert i. induction l as [|u l IH]; intros i Hi Hw Hn; [done|]. destruct i as [|i]; cbn in Hi |- *.
  - injection Hi as ->. rewrite Hw. destruct (try_satisfy m t) as [[b t'] m']. rewrite wake_each_none; [by rewrite orb_false_r|].
    apply Forall_lookup. intros j v Hj. by apply (Hn (S j)).
  - rewrite (Hn 0%nat u) by done. rewrite (IH i Hi Hw); [|intros j v Hj Hv; apply (Hn (S j) v); [lia|done]].
    by destruct (try_satisfy m t) as [[b t'] m'].
Qed.

(** A wait for one semaphore. *)
Definition waits_for (o : Z) (w : wait_state) : Prop := objects w = [o] /\ all w = false /\ satisfied w = false.

Lemma try_satisfy_none m t o w : wait_ t = Some w -> waits_for o w -> type_at m o = semaphore_object -> state_at m o = 0 -> try_satisfy m t = (false, t, m).
Proof.
  intros Ht (E1 & E2 & E3) Hty Hs. unfold try_satisfy. rewrite Ht, E3, E2, E1. cbn. unfold is_signalled. by rewrite Hs, Hty.
Qed.

Lemma try_satisfy_one m t o w : wait_ t = Some w -> waits_for o w -> type_at m o = semaphore_object -> 0 < state_at m o ->
  try_satisfy m t = (true, set_wait (Some (satisfy w 0)) t, set_state_at o (state_at m o - 1) m).
Proof.
  intros Ht (E1 & E2 & E3) Hty Hs. unfold try_satisfy. rewrite Ht, E3, E2, E1. cbn. unfold is_signalled, take.
  rewrite Hty, (proj2 (Z.leb_gt _ _)), (proj2 (Z.ltb_lt _ _)) by lia. cbn. by rewrite Hty.
Qed.

Lemma begin_wait_wait c w t : wait_ (begin_wait c w t) = Some w.
Proof. done. Qed.
Lemma begin_wait_on c w t o : objects w = [o] -> waiting_on (begin_wait c w t) o = true /\ forall o', o' <> o -> waiting_on (begin_wait c w t) o' = false.
Proof.
  intros Ho. unfold waiting_on. rewrite begin_wait_wait, Ho. split; [apply bool_decide_eq_true; by left|].
  intros o' Hne. apply bool_decide_eq_false. by intros ?%list_elem_of_singleton.
Qed.

(** Both semaphores of the gate are at zero and nobody waits on either. *)
Record idle (a b : Z) (k : ksys) : Prop := {
  id_apart : a <> b;
  id_types : type_at (mem k) a = semaphore_object /\ type_at (mem k) b = semaphore_object;
  id_states : state_at (mem k) a = 0 /\ state_at (mem k) b = 0;
  id_waits : forall i t, ts k !! i = Some t -> waiting_on t a = false /\ waiting_on t b = false
}.

Lemma idle_sym a b k : idle a b k -> idle b a k.
Proof. intros [H1 [H2 H3] [H4 H5] H6]. split; [done|done|done|]. intros i t Hi. by destruct (H6 i t Hi). Qed.

(** The wait a caller of [meet] begins. *)
Definition meeting (c : clock) (wait_on : Z) (timeout : option Z) : wait_state :=
  let '(when, is_timed) := read_timeout (guest_now c) timeout in WaitState [wait_on] false when is_timed false 0.

Lemma meet_eq c i post wait_on timeout k :
  meet c i post wait_on timeout k =
    yield_current (park c i (meeting c wait_on timeout) (wake post (set_mem (set_state_at post (state_at (mem k) post + 1) (mem k)) k))).
Proof. unfold meet, meeting. by destruct (read_timeout _ _). Qed.

Lemma meeting_waits c o timeout : waits_for o (meeting c o timeout).
Proof. unfold meeting. by destruct (read_timeout _ _). Qed.

(** The first to come posts its side and is left waiting. *)
Lemma meet_first c i x y timeout k t :
  idle x y k -> ts k !! i = Some t ->
  let t1 := begin_wait c (meeting c y timeout) t in
  meet c i x y timeout k =
    yield_current (set_ts (<[i := t1]> (ts k)) (set_mem (set_state_at x 1 (mem k)) k)).
Proof.
  intros [H1 [H2 H3] [H4 H5] H6] Ht t1. rewrite meet_eq, H4. change (0 + 1) with 1.
  assert (forall k', ts k' = ts k -> wake x k' = k') as Hwake.
  { intros k' E. unfold wake, wake_waiters. rewrite E, wake_each_none; [destruct k'; cbn in *; by rewrite <- E|].
    apply Forall_lookup. intros j u Hj. by destruct (H6 j u Hj). }
  rewrite Hwake by done. unfold park. cbn [ts mem set_mem]. rewrite Ht.
  rewrite (try_satisfy_none _ (begin_wait c (meeting c y timeout) t) y (meeting c y timeout)); [done|done|apply meeting_waits| |].
  - unfold type_at, set_state_at. by rewrite set_object_other.
  - unfold state_at, set_state_at. by rewrite set_object_other.
Qed.

Lemma state_at_set x n m : - 2 ^ 31 <= n < 2 ^ 31 -> state_at (set_state_at x n m) x = n.
Proof. intros Hn. by apply set_state_at_same. Qed.
Lemma state_at_set_other x n m y : y <> x -> state_at (set_state_at x n m) y = state_at m y.
Proof. intros Hy. unfold state_at. by rewrite set_state_at_other. Qed.
Lemma type_at_set x n m y : type_at (set_state_at x n m) y = type_at m y.
Proof. unfold type_at, set_state_at, set_object. by destruct (Z.eqb_spec y x) as [->|]. Qed.

(** What the two have done when the second has come: both waits are satisfied, the
    semaphores are at zero again, and no other object or thread has changed. *)
Record met (i j : nat) (a b : Z) (k k' : ksys) : Prop := {
  mt_first : exists t w, ts k' !! i = Some t /\ wait_ t = Some (satisfy w 0);
  mt_second : exists t w, ts k' !! j = Some t /\ wait_ t = Some (satisfy w 0);
  mt_others : forall h, h <> i -> h <> j -> ts k' !! h = ts k !! h;
  mt_gate : state_at (mem k') a = 0 /\ state_at (mem k') b = 0 /\ forall x, type_at (mem k') x = type_at (mem k) x;
  mt_objects : forall x, x <> a -> x <> b -> mem k' x = mem k x
}.

Lemma meet_both c c' i j x y timeout timeout' k t u :
  idle x y k -> i <> j -> ts k !! i = Some t -> ts k !! j = Some u ->
  met i j x y k (meet c' j y x timeout' (meet c i x y timeout k)).
Proof.
  intros Hid Hij Ht Hu. pose proof Hid as [Hxy [Hx Hy] [Sx Sy] Hw].
  rewrite (meet_first c i x y timeout k t Hid Ht). set (t1 := begin_wait c (meeting c y timeout) t).
  set (k1 := yield_current _). set (m1 := set_state_at x 1 (mem k)).
  assert (mem k1 = m1 /\ ts k1 = <[i := t1]> (ts k)) as [Em Et] by done.
  assert (state_at m1 x = 1 /\ state_at m1 y = 0) as [M1x M1y] by (split; [by apply state_at_set|by unfold m1; rewrite state_at_set_other]).
  rewrite meet_eq, Em, M1y. change (0 + 1) with 1. set (m2 := set_state_at y 1 m1).
  assert (state_at m2 y = 1 /\ state_at m2 x = 1) as [M2y M2x] by (split; [by apply state_at_set|by unfold m2; rewrite state_at_set_other]).
  assert (forall z, type_at m2 z = type_at (mem k) z) as Hty by (intros z; unfold m2, m1; by rewrite !type_at_set).
  set (t1' := set_wait (Some (satisfy (meeting c y timeout) 0)) t1). set (m3 := set_state_at y 0 m2).
  assert (i < length (ts k))%nat as Hil by by eapply lookup_lt_Some.
  assert (wake y (set_mem m2 k1) = set_ts (<[i := t1']> (ts k)) (set_mem m3 k1)) as ->.
  { unfold wake, wake_waiters. cbn [ts mem set_mem]. rewrite Et. rewrite (wake_each_one y _ i t1).
    - rewrite (try_satisfy_one m2 t1 y (meeting c y timeout)); [|done|apply meeting_waits|by rewrite Hty|lia].
      rewrite M2y. rewrite list_insert_insert_eq. done.
    - by apply list_lookup_insert_eq.
    - apply (begin_wait_on c _ t y), meeting_waits.
    - intros h v Hh. rewrite list_lookup_insert_ne by done. intros Hv. by destruct (Hw h v Hv). }
  unfold park. cbn [ts mem set_ts set_mem]. rewrite list_lookup_insert_ne, Hu by done.
  assert (state_at m3 x = 1) as M3x by (unfold m3; by rewrite state_at_set_other).
  rewrite (try_satisfy_one m3 _ x (meeting c' x timeout')); [|done|apply meeting_waits|unfold m3; rewrite type_at_set, Hty; done|lia].
  rewrite M3x. change (1 - 1) with 0. split; cbn [ts mem set_ts set_mem yield_current].
  - exists t1', (meeting c y timeout). by rewrite list_lookup_insert_ne, list_lookup_insert_eq.
  - eexists _, (meeting c' x timeout'). rewrite list_lookup_insert_eq; [done|]. rewrite length_insert. by eapply lookup_lt_Some.
  - intros h Hi Hj. by rewrite !list_lookup_insert_ne.
  - split_and!; [by apply state_at_set|unfold m3; rewrite state_at_set_other by done; by apply state_at_set|]. intros z. unfold m3. by rewrite !type_at_set, Hty.
  - intros z Hzx Hzy. unfold m3, m2, m1. by rewrite !set_state_at_other.
Qed.

(** ** A rendezvous *)

(** The gate of the key is there and both sides of it are empty. *)
Record ready (s : dsys) (handle key a b : Z) : Prop := {
  rd_gate : exists r gates, keyed_event_from_handle handle s = Some (r, gates) /\ gates !! key = Some (a, b);
  rd_valid : a <> 0 /\ b <> 0;
  rd_idle : idle a b (kern s)
}.

Lemma rendezvous_ready c i handle key timeout releasing base1 base2 s r gates a b :
  keyed_event_from_handle handle s = Some (r, gates) -> gates !! key = Some (a, b) -> a <> 0 -> b <> 0 ->
  rendezvous c (Some i) handle key timeout releasing base1 base2 s =
    (STATUS_SUCCESS, set_kern (meet c i (if releasing then b else a) (if releasing then a else b) timeout (kern s)) s).
Proof.
  intros E1 E2 Ha Hb. unfold rendezvous, gate_for. rewrite E1, E2. cbn [from_option id].
  rewrite (proj2 (Z.eqb_neq a 0)) by done. cbn [negb]. by rewrite (proj2 (Z.eqb_neq a 0)), (proj2 (Z.eqb_neq b 0)) by done.
Qed.

(** C25: a thread that waits on a key and a thread that releases it pass each other,
    whichever comes first: both calls succeed, both waits are satisfied, and the
    gate is as empty as it was, for the next two. *)
Theorem keyed_rendezvous c c' i j handle key timeout timeout' releasing base1 base2 base1' base2' a b t u s :
  ready s handle key a b -> i <> j -> ts (kern s) !! i = Some t -> ts (kern s) !! j = Some u ->
  exists s1 s2,
    rendezvous c (Some i) handle key timeout releasing base1 base2 s = (STATUS_SUCCESS, s1) /\
    rendezvous c' (Some j) handle key timeout' (negb releasing) base1' base2' s1 = (STATUS_SUCCESS, s2) /\
    met i j a b (kern s) (kern s2) /\ tbl s2 = tbl s /\ hosts s2 = hosts s.
Proof.
  intros [(r & gates & E1 & E2) [Ha Hb] Hid] Hij Ht Hu. eexists _, _. split; [by eapply rendezvous_ready|]. split; [by eapply rendezvous_ready|].
  split; [|done]. cbn [kern set_kern]. destruct releasing; cbn [negb].
  - destruct (meet_both c c' i j b a timeout timeout' (kern s) t u) as [H1 H2 H3 (H4 & H5 & H6) H7]; [by apply idle_sym|done..|].
    split; [done..| |]; [done|]. intros x Hx Hy. by apply H7.
  - by apply (meet_both _ _ _ _ _ _ _ _ _ t u).
Qed.

Lemma make_semaphore_ok base s :
  body_of base <> 0 ->
  exists s', make_semaphore base s = (body_of base, s') /\ hosts s' = hosts s /\ default_keyed s' = default_keyed s /\ ts (kern s') = ts (kern s) /\
    handles_ (tbl s') = handles_ (tbl s) /\
    objects_ (objs_ (tbl s')) = <[body_of base := ObjectEntry (Some (Header 1 0 0)) None]> (objects_ (objs_ (tbl s))) /\
    forall x, mem (kern s') x = if x =? body_of base then KObject semaphore_object ksemaphore_size 0 0 int32_max else mem (kern s) x.
Proof.
  intros Hb. unfold make_semaphore. cbn [create_object]. fold (body_of base). rewrite (proj2 (Z.eqb_neq _ _)) by done.
  eexists. split; [reflexivity|]. split_and!; try done. intros x.
  cbn -[body_of]. unfold init_dispatcher, set_object. rewrite Z.eqb_refl. cbn. by destruct (x =? body_of base).
Qed.

(** The first use of a key makes its gate, in memory no object is in and no thread
    waits on; the call then goes on as on a gate that was there. *)
Theorem first_use handle key base1 base2 r gates s :
  keyed_event_from_handle handle s = Some (r, gates) -> gates !! key = None ->
  body_of base1 <> 0 -> body_of base2 <> 0 -> body_of base1 <> body_of base2 ->
  objects_ (objs_ (tbl s)) !! body_of base1 = None -> objects_ (objs_ (tbl s)) !! body_of base2 = None ->
  (forall i t, ts (kern s) !! i = Some t -> waiting_on t (body_of base1) = false /\ waiting_on t (body_of base2) = false) ->
  exists s', ready s' handle key (body_of base1) (body_of base2) /\ ts (kern s') = ts (kern s) /\
    (forall x, x <> body_of base1 -> x <> body_of base2 -> mem (kern s') x = mem (kern s) x) /\
    (forall key', key' <> key -> forall a b, ready s handle key' a b -> a <> body_of base1 -> a <> body_of base2 -> b <> body_of base1 -> b <> body_of base2 -> ready s' handle key' a b) /\
    forall c cur timeout releasing, rendezvous c (Some cur) handle key timeout releasing base1 base2 s = rendezvous c (Some cur) handle key timeout releasing base1 base2 s'.
Proof.
  intros E1 E2 B1 B2 B12 N1 N2 Hw.
  destruct (make_semaphore_ok base1 s B1) as (s1 & M1 & H1 & D1 & T1 & L1 & O1 & X1). destruct (make_semaphore_ok base2 s1 B2) as (s2 & M2 & H2 & D2 & T2 & L2 & O2 & X2).
  set (a := body_of base1) in *. set (b := body_of base2) in *. set (s' := set_host r (HKeyed (<[key := (a, b)]> gates)) s2).
  assert (gate_for r gates key base1 base2 s = (a, b, s')) as Eg by (unfold gate_for; rewrite E2; cbn [from_option]; change (negb (0 =? 0)) with false; cbn iota; by rewrite M1, M2).
  assert (forall x, mem (kern s') x = if x =? b then KObject semaphore_object ksemaphore_size 0 0 int32_max else if x =? a then KObject semaphore_object ksemaphore_size 0 0 int32_max else mem (kern s) x) as Xm.
  { intros x. cbn [s' kern set_host]. by rewrite X2, X1. }
  assert (keyed_event_from_handle handle s' = Some (r, <[key := (a, b)]> gates)) as Ek.
  { assert (forall r', match hosts s !! r' with Some (HKeyed g) => Some (r', g) | _ => None end = Some (r, gates) ->
      match hosts s' !! r' with Some (HKeyed g) => Some (r', g) | _ => None end = Some (r, <[key := (a, b)]> gates)) as Hk.
    { intros r' Hr. assert (r' = r) as -> by (destruct (hosts s !! r') as [[|]|]; try done; by injection Hr). cbn. by rewrite H2, H1, lookup_insert_eq. }
    unfold keyed_event_from_handle in *. destruct (handle =? 0); [apply Hk; by rewrite <- E1; cbn; rewrite D2, D1|].
    unfold get_object_of, lookup_handle in *. cbn [s' tbl set_host]. rewrite L2, L1. destruct (handles_ (tbl s) !! handle) as [[x acc]|]; [|done].
    cbn in *. unfold get_object in *. rewrite O2, O1. assert (x <> a /\ x <> b) as [Hxa Hxb].
    { split; intros ->; [by rewrite N1 in E1|by rewrite N2 in E1]. }
    rewrite !lookup_insert_ne by done. destruct (objects_ (objs_ (tbl s)) !! x) as [o|]; [|done]. cbn in *. destruct (o_host o) as [r'|]; [|done]. cbn in *. by apply Hk. }
  exists s'. split_and!.
  - split; [exists r, (<[key := (a, b)]> gates); by rewrite lookup_insert_eq|done|]. split; [done| | |].
    + unfold type_at. rewrite !Xm, (proj2 (Z.eqb_neq a b)), !Z.eqb_refl by done. done.
    + unfold state_at. rewrite !Xm, (proj2 (Z.eqb_neq a b)), !Z.eqb_refl by done. done.
    + intros i t. replace (ts (kern s')) with (ts (kern s)) by (by rewrite <- T1, <- T2). apply Hw.
  - by rewrite <- T1, <- T2.
  - intros x Hxa Hxb. by rewrite Xm, (proj2 (Z.eqb_neq x a)), (proj2 (Z.eqb_neq x b)).
  - intros key' Hne x y [(r0 & g0 & F1 & F2) F3 [G1 G2 G3 G4]] Hxa Hxb Hya Hyb. assert (r0 = r /\ g0 = gates) as [-> ->] by (rewrite E1 in F1; by injection F1).
    split; [exists r, (<[key := (a, b)]> gates); by rewrite lookup_insert_ne|done|].
    assert (forall z, z <> a -> z <> b -> mem (kern s') z = mem (kern s) z) as Xo by (intros z Za Zb; by rewrite Xm, (proj2 (Z.eqb_neq z a)), (proj2 (Z.eqb_neq z b))).
    split; [done|unfold type_at; by rewrite !Xo|unfold state_at; by rewrite !Xo|]. by replace (ts (kern s')) with (ts (kern s)) by (by rewrite <- T1, <- T2).
  - intros c cur timeout releasing. rewrite (rendezvous_ready c cur handle key timeout releasing base1 base2 s' r (<[key := (a, b)]> gates) a b Ek) by (done || by rewrite lookup_insert_eq).
    unfold rendezvous. rewrite E1, Eg, (proj2 (Z.eqb_neq a 0)), (proj2 (Z.eqb_neq b 0)) by done. done.
Qed.

(** ** Timers and DPCs *)

Module TimersThm.
Import Timers.

Inductive timer_call : Type := SetTimer (now due_time period dpc : Z) | CancelTimer.
Definition call_timer (timer : Z) (c : timer_call) : tsys -> bool * tsys :=
  match c with SetTimer now due_time period dpc => KeSetTimerEx now timer due_time period dpc | CancelTimer => KeCancelTimer timer end.
(** Whether the timer is set after the call. *)
Definition set_after (c : timer_call) (is_set : bool) : bool :=
  match c with
  | SetTimer now due_time period _ => negb ((if due_time <? 0 then u64 (now - due_time) else due_time) =? 0)
  | CancelTimer => false
  end.
Definition call_ok (c : timer_call) : Prop := match c with SetTimer _ _ period _ => 0 <= period | CancelTimer => True end.

Fixpoint call_timers (cs : list (Z * timer_call)) (t : tsys) : list bool * tsys :=
  match cs with
  | [] => ([], t)
  | (timer, c) :: cs => let '(b, t) := call_timer timer c t in let '(bs, t) := call_timers cs t in (b :: bs, t)
  end.
Fixpoint expected (cs : list (Z * timer_call)) (is_set : Z -> bool) : list bool :=
  match cs with
  | [] => []
  | (timer, c) :: cs => is_set timer :: expected cs (fun x => if x =? timer then set_after c (is_set timer) else is_set x)
  end.

Definition is_set (t : tsys) (timer : Z) : bool := negb (DueTime (timers t timer) =? 0).

Lemma call_timer_ok timer c t : timer <> 0 -> call_ok c ->
  (call_timer timer c t).1 = is_set t timer /\
  forall x, is_set (call_timer timer c t).2 x = if x =? timer then set_after c (is_set t timer) else is_set t x.
Proof.
  intros Ht Hc. destruct c as [now due period dpc|]; cbn [call_timer call_ok set_after] in *.
  - unfold KeSetTimerEx. rewrite (proj2 (Z.ltb_ge _ _) Hc), (proj2 (Z.eqb_neq _ _) Ht). split; [done|]. intros x. unfold is_set. cbn. by destruct (x =? timer).
  - unfold KeCancelTimer. rewrite (proj2 (Z.eqb_neq _ _) Ht). split; [done|]. intros x. unfold is_set. cbn. by destruct (x =? timer).
Qed.

Lemma expected_ext cs : forall f g, (forall x, f x = g x) -> expected cs f = expected cs g.
Proof.
  induction cs as [|[timer c] cs IH]; intros f g H; [done|]. cbn. rewrite H. f_equal. apply IH. intros x. by rewrite !H.
Qed.

(** However timers are set and cancelled, each call says whether its own timer was
    set, which no call on another timer changes. *)
Theorem timers_answer cs : forall t, Forall (fun p => p.1 <> 0 /\ call_ok p.2) cs -> (call_timers cs t).1 = expected cs (is_set t).
Proof.
  induction cs as [|[timer c] cs IH]; intros t H; [done|]. apply list.Forall_cons in H as [[Ht Hc] H]. cbn [call_timers expected].
  destruct (call_timer_ok timer c t Ht Hc) as [E1 E2]. destruct (call_timer timer c t) as [b t']. cbn [fst snd] in *. specialize (IH t' H).
  destruct (call_timers cs t') as [bs t'']. cbn in *. rewrite E1, IH. f_equal. by apply expected_ext.
Qed.

Fixpoint insert_dpc (dpc : Z) (args : list (Z * Z)) (t : tsys) : list bool * tsys :=
  match args with
  | [] => ([], t)
  | (a, b) :: args => let '(r, t) := KeInsertQueueDpc dpc a b t in let '(rs, t) := insert_dpc dpc args t in (r :: rs, t)
  end.

Lemma insert_queued dpc args t : dpc <> 0 -> DpcData (dpcs t dpc) <> 0 -> insert_dpc dpc args t = (replicate (length args) false, t).
Proof.
  intros Hd Hq. induction args as [|[a b] args IH]; [done|]. cbn [insert_dpc].
  assert (KeInsertQueueDpc dpc a b t = (false, t)) as ->; [|by rewrite IH]. unfold KeInsertQueueDpc.
  rewrite (proj2 (Z.eqb_neq _ _) Hd), (proj2 (Z.eqb_neq _ _) Hq). by destruct (_ =? 0).
Qed.

(** A DPC that was inserted once is never inserted again: nothing marks it as run. *)
Theorem dpc_runs_once dpc routine context a b args t :
  dpc <> 0 -> routine <> 0 ->
  exists t', insert_dpc dpc ((a, b) :: args) (KeInitializeDpc dpc routine context t) = (true :: replicate (length args) false, t') /\
    started t' = started t ++ [(routine, [dpc; context; a; b])].
Proof.
  intros Hd Hr. set (t1 := KeInitializeDpc dpc routine context t).
  assert (dpcs t1 dpc = KDpc dpc_object_type medium_importance routine context 0 0 0 /\ started t1 = started t) as [E1 E2].
  { unfold t1, KeInitializeDpc. rewrite (proj2 (Z.eqb_neq _ _) Hd). cbn. by rewrite Z.eqb_refl. }
  cbn [insert_dpc]. unfold KeInsertQueueDpc. rewrite (proj2 (Z.eqb_neq _ _) Hd), E1. cbn [DeferredRoutine DpcData]. rewrite (proj2 (Z.eqb_neq _ _) Hr). cbn [Z.eqb negb].
  rewrite insert_queued; [|done|by cbn; rewrite Z.eqb_refl]. eexists. split; [reflexivity|]. cbn. by rewrite E2.
Qed.
End TimersThm.

(** ** Spin locks nest *)

Module IrqlThm.
Import Irql.

(** A critical section holds a lock, of one of the three kinds, around others, and
    is given back the level it was entered at. *)
Inductive lock_kind : Type := Plain | Shared | Exclusive.
#[warnings="-register-all"]
Inductive section : Type := Section_ (kind : lock_kind) (spin_lock : Z) (inner : list section).

Definition acquire (kind : lock_kind) (l : Z) (k : ksys) : Z * ksys :=
  match kind with Plain => KeAcquireSpinLockRaiseToDpc l k | Shared => ExAcquireSpinLockShared l k | Exclusive => ExAcquireSpinLockExclusive l k end.
Definition release (kind : lock_kind) (l old : Z) (k : ksys) : ksys :=
  match kind with Plain => KeReleaseSpinLock l old k | Shared => ExReleaseSpinLockShared l old k | Exclusive => ExReleaseSpinLockExclusive l old k end.
Fixpoint run_section (x : section) (k : ksys) : ksys :=
  let 'Section_ kind l inner := x in
  let '(old, k) := acquire kind l k in
  let k := (fix go inner k := match inner with [] => k | y :: inner => go inner (run_section y k) end) inner k in
  release kind l old k.

(** However critical sections nest, the level after one is the level before it. *)
Theorem sections_nest : forall x k, run_section x k = k.
Proof.
  fix IH 1. intros [kind l inner] k.
  assert (forall inner k, (fix go inner k := match inner with [] => k | y :: inner => go inner (run_section y k) end) inner k = k) as Hgo.
  { clear inner k. fix IHs 1. intros [|y inner] k; [done|]. rewrite IH. apply IHs. }
  cbn [run_section]. by destruct kind, k; cbn; rewrite Hgo.
Qed.
End IrqlThm.
