(* ===== verification/NameOps.v ===== *)
(** * Entry points over objects and their names

    modules/nt_object_ops.cpp, and the handle callbacks of kernel/win/win_kernel.hpp
    it runs: references by handle and by pointer, the namespace and its directories,
    and the drivers that watch handles being made.  A host is what an object is to
    the code: a directory, a link, an open file and so on. *)

From Stdlib Require Ascii String.
From stdpp Require Import list gmap.
From S2P Require Import Prelude Mmu Paths Objects Filesystem GuestMem StringOps Ports.
From stdpp Require Import options.

Open Scope Z_scope.
Open Scope kern_scope.

Module Names.

Import String.StringSyntax.
Delimit Scope string_scope with string.

Definition STATUS_MORE_ENTRIES : Z := 0x105.
Definition STATUS_NO_MORE_ENTRIES : Z := 0x8000001A.
Definition STATUS_INVALID_HANDLE : Z := 0xC0000008.
Definition STATUS_ACCESS_DENIED : Z := 0xC0000022.
Definition STATUS_OBJECT_TYPE_MISMATCH : Z := 0xC0000024.
Definition STATUS_OBJECT_NAME_NOT_FOUND : Z := 0xC0000034.
Definition STATUS_INSUFFICIENT_RESOURCES : Z := 0xC000009A.

(** ** State *)

Inductive nhost : Type :=
  | HDirectory (name : str)
  | HLink (target : str)
  | HFile (device_object file_object : Z)
  | HDriver | HSection | HDevice | HThread | HOther.

Record ob_registration : Type := ObRegistration {
  registration : Z; object_type : Z; operations : Z; pre : Z; post : Z; context : Z
}.

(** What closing the last handle on a device sends out: a request to the driver,
    or a block given back to the pool. *)
Inductive request : Type :=
  | Irp (major device file : Z)
  | PoolFree (addr : Z).

Record nsys : Type := NSys {
  n_mem : gmem; tbl : table; hosts : gmap Z nhost; fresh_host : Z; ob_registrations : list ob_registration; sent : list request
}.
Abbreviation nst := (st nsys).

Definition set_mem m s := NSys m (tbl s) (hosts s) (fresh_host s) (ob_registrations s) (sent s).
Definition set_tbl t s := NSys (n_mem s) t (hosts s) (fresh_host s) (ob_registrations s) (sent s).
Definition add_host h s := NSys (n_mem s) (tbl s) (<[fresh_host s := h]> (hosts s)) (fresh_host s + 1) (ob_registrations s) (sent s).
Definition set_registrations l s := NSys (n_mem s) (tbl s) (hosts s) (fresh_host s) l (sent s).
Definition send l s := NSys (n_mem s) (tbl s) (hosts s) (fresh_host s) (ob_registrations s) (sent s ++ l).
Definition on_mem {A} (f : gst A) : nst A := fun s => let '(r, m) := f (n_mem s) in (r, set_mem m s).
Definition on_manager (f : manager -> manager) (s : nsys) : nsys := set_tbl (on_objs f (tbl s)) s.
Definition write_word (w : nat) (a v : Z) : nst unit := on_mem (write_mem a (le_bytes w v)).

Definition host_at (addr : Z) (s : nsys) : option nhost := get_object addr (objs_ (tbl s)) ≫= fun r => hosts s !! r.
Definition host_of (handle : Z) (s : nsys) : option nhost := get_object_of handle (tbl s) ≫= fun r => hosts s !! r.

(** ** References *)

Definition ObReferenceObjectByHandle (handle object_out : Z) : nst Z :=
  let! s := get in
  match lookup_handle handle (tbl s) with
  | None => ret STATUS_INVALID_HANDLE
  | Some (body_addr, _) =>
      modify (on_manager (reference_object body_addr)) ;;
      (if object_out =? 0 then ret tt else write_word 8 object_out body_addr) ;;
      ret STATUS_SUCCESS
  end.

Definition ObfReferenceObject (object : Z) (s : nsys) : nsys := on_manager (reference_object object) s.
Definition ObfDereferenceObject (object : Z) (s : nsys) : nsys := on_manager (dereference_object object) s.

Definition ObReferenceObjectByPointer (object : Z) (s : nsys) : Z * nsys :=
  if object =? 0 then (STATUS_INVALID_PARAMETER, s)
  else (STATUS_SUCCESS, if has_object object (objs_ (tbl s)) then on_manager (reference_object object) s else s).

Definition irp_mj_cleanup : Z := 0x12.
Definition irp_mj_close : Z := 2.

Definition NtClose (handle : Z) (s : nsys) : Z * nsys :=
  let s :=
    match host_of handle s with
    | Some (HFile device file) =>
        if device =? 0 then s else send [Irp irp_mj_cleanup device file; Irp irp_mj_close device file; PoolFree file] s
    | _ => s
    end in
  let '(closed, t) := close_handle handle (tbl s) in
  (if closed : bool then STATUS_SUCCESS else STATUS_INVALID_HANDLE, set_tbl t s).

(** ** Watching handles *)

(** [base] is where the object manager puts an object. *)
Definition new_object (base : Z) (host : option Z) : nst Z := fun s =>
  let '(addr, m) := create_object base 0 host (objs_ (tbl s)) in (Ok addr, on_manager (fun _ => m) s).

Definition field (l : list Z) (off size : nat) : Z := le_val (take size (drop off l)).

(** The i-th operation of a registration and what follows it. *)
Fixpoint register_operations (handle op context : Z) (count : nat) : nst unit :=
  match count with
  | O => ret tt
  | S count =>
      let! entry := on_mem (read_mem op 32) in
      let! type := on_mem (read_mem (field entry 0 8) 8) in
      modify (fun s => set_registrations (ob_registrations s ++ [ObRegistration handle (le_val type) (field entry 8 4) (field entry 16 8) (field entry 24 8) context]) s) ;;
      register_operations handle (op + 32) context count
  end.

Definition ObRegisterCallbacks (callback_registration registration_handle base : Z) : nst Z :=
  if (callback_registration =? 0) || (registration_handle =? 0) then ret STATUS_INVALID_PARAMETER else
  let! reg := on_mem (read_mem callback_registration 40) in
  let! altitude := on_mem (read_unicode_string (callback_registration + 8)) in
  let! handle := new_object base None in
  if handle =? 0 then ret STATUS_INSUFFICIENT_RESOURCES else
  write_word 8 registration_handle handle ;;
  register_operations handle (field reg 32 8) (field reg 24 8) (Z.to_nat (field reg 2 2)) ;;
  ret STATUS_SUCCESS.

Definition ObUnRegisterCallbacks (registration_handle : Z) (s : nsys) : nsys :=
  set_registrations (filter (fun r => registration r <> registration_handle) (ob_registrations s)) s.

Definition ob_operation_handle_create : Z := 1.

(** The registrations with the callback that are about the operation and the type. *)
Definition matches (callback : ob_registration -> Z) (type operation : Z) (l : list ob_registration) : list ob_registration :=
  filter (fun r => callback r <> 0 /\ Z.land (operations r) operation <> 0 /\ object_type r = type) l.

Definition pre_parameters (desired original source target : Z) : list Z := le_bytes 4 desired ++ le_bytes 4 original ++ le_bytes 8 source ++ le_bytes 8 target.
Definition pre_information (operation object type parameters : Z) : list Z :=
  le_bytes 4 (u32 (Z.shiftl operation 1)) ++ le_bytes 4 0 ++ le_bytes 8 object ++ le_bytes 8 type ++ le_bytes 8 0 ++ le_bytes 8 parameters.
Definition post_parameters (access : Z) : list Z := le_bytes 4 access ++ le_bytes 4 0.
Definition post_information (operation object type status parameters : Z) : list Z :=
  le_bytes 4 operation ++ le_bytes 4 0 ++ le_bytes 8 object ++ le_bytes 8 type ++ le_bytes 8 0 ++ le_bytes 4 status ++ le_bytes 4 0 ++ le_bytes 8 parameters.

Section Callbacks.
(** A guest routine, run on its arguments: it can change anything. *)
Context (guest : Z -> list Z -> nsys -> nsys).

Fixpoint run_pre (l : list ob_registration) (object type operation original source target params info access : Z) : nst Z :=
  match l with
  | [] => ret access
  | r :: l =>
      on_mem (write_mem params (pre_parameters access original source target)) ;;
      on_mem (write_mem info (pre_information operation object type params)) ;;
      modify (guest (pre r) [context r; info]) ;;
      let! updated := on_mem (read_mem params 24) in
      if field updated 0 4 =? 0 then ret 0
      else run_pre l object type operation original source target params info (field updated 0 4)
  end.

(** [params] and [info] are the blocks allocated for the callbacks. *)
Definition ob_pre_handle (object type operation desired source target params info : Z) : nst Z :=
  let! s := get in
  match matches pre type operation (ob_registrations s) with
  | [] => ret desired
  | l => if (params =? 0) || (info =? 0) then ret desired
         else run_pre l object type operation desired source target params info desired
  end.

Definition run_post (l : list ob_registration) (info : Z) (s : nsys) : nsys := foldl (fun s r => guest (post r) [context r; info] s) s l.

Definition ob_post_handle (object type operation status access params info : Z) : nst unit :=
  let! s := get in
  match matches post type operation (ob_registrations s) with
  | [] => ret tt
  | l => if (params =? 0) || (info =? 0) then ret tt else
         on_mem (write_mem params (post_parameters access)) ;;
         on_mem (write_mem info (post_information operation object type status params)) ;;
         modify (run_post l info)
  end.

(** [thread_type] is [object_type_pointer("PsThreadType")]; the last four are the
    blocks of the callbacks. *)
Definition ObOpenObjectByPointer (thread_type object desired handle pre_params pre_info post_params post_info : Z) : nst Z :=
  if handle =? 0 then ret STATUS_INVALID_PARAMETER else
  let! s := get in
  let type := match host_at object s with Some HThread => thread_type | _ => 0 end in
  let! access := (if type =? 0 then ret desired
                  else ob_pre_handle object type ob_operation_handle_create desired 0 0 pre_params pre_info) in
  if negb (type =? 0) && (access =? 0) then ret STATUS_ACCESS_DENIED else
  modify (on_manager (reference_object object)) ;;
  let! s := get in
  let '(value, t) := create_handle object access (tbl s) in
  modify (set_tbl t) ;;
  (if type =? 0 then ret tt
   else ob_post_handle object type ob_operation_handle_create STATUS_SUCCESS access post_params post_info) ;;
  write_word 8 handle value ;; ret STATUS_SUCCESS.
End Callbacks.

(** ** The namespace *)

Definition object_namespace_key (name : str) : str := normalize name.

Definition open_namespace_object (host : nhost) (name : str) (access base : Z) : nst Z := fun s =>
  let key := object_namespace_key name in
  let existing := lookup_named_object key (objs_ (tbl s)) in
  if negb (existing =? 0) then let '(handle, t) := create_handle existing access (tbl s) in (Ok handle, set_tbl t s) else
  let r := fresh_host s in
  let s := add_host host s in
  let '(addr, m) := create_object base 0 (Some r) (objs_ (tbl s)) in
  let s := on_manager (fun _ => m) s in
  if addr =? 0 then (Ok 0, s) else
  let s := on_manager (register_named_object key addr) s in
  let '(handle, t) := create_handle addr access (tbl s) in (Ok handle, set_tbl t s).

Definition ObOpenObjectByName (object_attributes desired_access handle : Z) : nst Z :=
  if (object_attributes =? 0) || (handle =? 0) then ret STATUS_INVALID_PARAMETER else
  let! name := on_mem (Ports.attribute_name object_attributes) in
  let! s := get in
  let addr := lookup_named_object (object_namespace_key name) (objs_ (tbl s)) in
  if addr =? 0 then ret STATUS_OBJECT_NAME_NOT_FOUND else
  modify (on_manager (reference_object addr)) ;;
  let! s := get in
  let '(value, t) := create_handle addr desired_access (tbl s) in
  modify (set_tbl t) ;; write_word 8 handle value ;; ret STATUS_SUCCESS.

Definition open_named (make : str -> nhost) (out desired_access object_attributes base : Z) : nst Z :=
  if out =? 0 then ret STATUS_INVALID_PARAMETER else
  let! name := on_mem (Ports.attribute_name object_attributes) in
  let! handle := open_namespace_object (make name) name desired_access base in
  if handle =? 0 then ret STATUS_INSUFFICIENT_RESOURCES else
  write_word 8 out handle ;; ret STATUS_SUCCESS.
Definition NtOpenDirectoryObject : Z -> Z -> Z -> Z -> nst Z := open_named HDirectory.

(** [system32_dir_narrow] without the separator at its end. *)
Definition system32 : str := text "C:\Windows\System32"%string.
Definition NtOpenSymbolicLinkObject : Z -> Z -> Z -> Z -> nst Z := open_named (fun _ => HLink system32).

Definition NtQuerySymbolicLinkObject (link_handle link_target returned_length : Z) : nst Z :=
  let! s := get in
  match host_of link_handle s with
  | Some (HLink target) =>
      let needed := u16 (Z.of_nat (length target) * 2) in
      (if returned_length =? 0 then ret tt else write_word 4 returned_length needed) ;;
      if link_target =? 0 then ret STATUS_INVALID_PARAMETER else
      let! value := on_mem (read_descriptor link_target) in
      if (MaximumLength value <? needed) || (Buffer value =? 0) then ret STATUS_BUFFER_TOO_SMALL else
      on_mem (write_mem (Buffer value) (take (Z.to_nat needed) (chars_bytes 2 (widen_string target)))) ;;
      on_mem (write_descriptor link_target (Descriptor needed (MaximumLength value) (Padding value) (Buffer value))) ;;
      ret STATUS_SUCCESS
  | _ => ret STATUS_OBJECT_TYPE_MISMATCH
  end.

(** ** Listing a directory *)

(** The name and the type of an object, in wide characters. *)
Abbreviation entry := (list Z * list Z)%type.

Definition type_of (s : nsys) (name : str) : str :=
  let addr := lookup_named_object name (objs_ (tbl s)) in
  if addr =? 0 then text "Unknown"%string else
  match host_at addr s with
  | Some (HDirectory _) => text "Directory"%string
  | Some HDriver => text "Driver"%string
  | Some HSection => text "Section"%string
  | Some (HLink _) => text "SymbolicLink"%string
  | Some (HFile _ _) => text "File"%string
  | Some HDevice => text "Device"%string
  | _ => text "Unknown"%string
  end.

(** [sizeof(object_directory_information_t)]. *)
Definition info_size : Z := 0x20.
Definition entry_size (e : entry) : Z := info_size + Z.of_nat (length e.1) * 2 + 2 + Z.of_nat (length e.2) * 2 + 2.

Definition entry_for (s : nsys) (prefix name : str) : entry := (widen_string name, type_of s (prefix ++ name)).

(** As many entries as fit, one when one is asked for, and the size with them. *)
Fixpoint choose (len : Z) (single : bool) (total : Z) (l : list entry) : list entry * Z :=
  match l with
  | [] => ([], total)
  | e :: l =>
      let add := entry_size e in
      if len <? total + add then ([], total) else
      if single then ([e], total + add) else let '(chosen, total) := choose len single (total + add) l in (e :: chosen, total)
  end.

Definition string_descriptor (bytes at_ : Z) : list Z := descriptor_bytes (Descriptor bytes (u16 (bytes + 2)) 0 (u64 at_)).

(** The structures, and the strings they point to, which start at [at_]. *)
Fixpoint layout (at_ : Z) (l : list entry) : list Z * list Z :=
  match l with
  | [] => ([], [])
  | (name, type) :: l =>
      let name_bytes := u16 (Z.of_nat (length name) * 2) in
      let type_bytes := u16 (Z.of_nat (length type) * 2) in
      let type_at := at_ + name_bytes + 2 in
      let '(infos, strings) := layout (type_at + type_bytes + 2) l in
      (string_descriptor name_bytes at_ ++ string_descriptor type_bytes type_at ++ infos,
       take (Z.to_nat name_bytes) (chars_bytes 2 name) ++ [0; 0] ++ take (Z.to_nat type_bytes) (chars_bytes 2 type) ++ [0; 0] ++ strings)
  end.

(** The buffer of [total] bytes: the structures, a zeroed one, the strings. *)
Definition directory_bytes (buffer total : Z) (l : list entry) : list Z :=
  let '(infos, strings) := layout (buffer + info_size * (Z.of_nat (length l) + 1)) l in
  let out := infos ++ replicate (Z.to_nat info_size) 0 ++ strings in
  out ++ replicate (Z.to_nat total - length out) 0.

Definition NtQueryDirectoryObject (directory_handle buffer len : Z) (single restart : bool) (context_ return_length : Z) : nst Z :=
  let! s := get in
  match host_of directory_handle s with
  | Some (HDirectory name) =>
      let prefix := object_namespace_key name ++ [slash] in
      let children := child_names prefix (objs_ (tbl s)) in
      let count := Z.of_nat (length children) in
      let! index := (if negb restart && negb (context_ =? 0) then let! l := on_mem (read_mem context_ 4) in ret (le_val l) else ret 0) in
      let index := if count <? index then u32 count else index in
      let '(chosen, total) := choose len single info_size (map (entry_for s prefix) (drop (Z.to_nat index) children)) in
      let next := u32 (index + Z.of_nat (length chosen)) in
      if len <? total then ret STATUS_BUFFER_TOO_SMALL else
      (if return_length =? 0 then ret tt else write_word 4 return_length (u32 total)) ;;
      (if context_ =? 0 then ret tt else write_word 4 context_ next) ;;
      on_mem (write_mem buffer (directory_bytes buffer total chosen)) ;;
      ret (if bool_decide (chosen = []) && (count <=? index) then STATUS_NO_MORE_ENTRIES
           else if next <? count then STATUS_MORE_ENTRIES else STATUS_SUCCESS)
  | _ => ret STATUS_INVALID_HANDLE
  end.

End Names.
