(* ===== verification/NameThm.v ===== *)
(** * Objects and their names: what the entry points do

    A directory is listed page by page: the pages a guest reads, one call after the
    other, are the names registered under the directory, each once and in order.
    And what the callbacks on handles are asked and decide. *)

From stdpp Require Import list gmap.
From S2P Require Import Prelude Mmu Paths Objects ObjectsThm Filesystem GuestMem StringOps StringThm Ports NameOps.
From stdpp Require Import options.

Open Scope Z_scope.
Open Scope kern_scope.
Import Names.

(** ** What a directory holds *)

(** The names under a prefix are those something is registered at or below. *)
Lemma child_names_spec prefix m n :
  n ∈ child_names prefix m <->
  n <> [] /\ has_slash n = false /\ (is_Some (named_ m !! (prefix ++ n)) \/ exists r, is_Some (named_ m !! (prefix ++ n ++ slash :: r))).
Proof.
  unfold child_names. rewrite elem_of_to_set, list_elem_of_omap. unfold child_of. split.
  - intros ([p a] & Hp & Hc). apply elem_of_map_to_list in Hp. cbn in Hc. destruct (after_prefix prefix p) as [leaf|] eqn:E; [|done].
    apply after_prefix_Some in E as ->. destruct (before_slash_split leaf) as (H1 & r & Hl & H2). destruct (before_slash leaf) as [|c l] eqn:El; [done|]. injection Hc as <-.
    split; [done|]. split; [done|]. destruct H2 as [->|[r' ->]]; rewrite Hl, ?app_nil_r in Hp; [left; by eexists|]. right. exists r'. rewrite <- app_comm_cons. by eexists.
  - intros (Hn & Hs & H). assert (exists r, is_Some (named_ m !! (prefix ++ n ++ r)) /\ before_slash (n ++ r) = n) as (r & [a Ha] & Hr).
    { destruct H as [H|[r H]]; [exists []; split; [by rewrite app_nil_r|apply before_slash_app; [done|by left]]|]. exists (slash :: r). split; [done|apply before_slash_app; [done|right; by exists r]]. }
    exists (prefix ++ n ++ r, a). split; [by apply elem_of_map_to_list|]. cbn. rewrite after_prefix_app, Hr. by destruct n.
Qed.

(** ** Guest memory *)

Lemma name_mem_reads {A} (f : gst A) s r : f (n_mem s) = (r, n_mem s) -> on_mem f s = (r, s).
Proof. unfold on_mem. intros ->. by destruct s. Qed.
Lemma name_mem_writes {A} (f : gst A) s r m : f (n_mem s) = (r, m) -> on_mem f s = (r, set_mem m s).
Proof. unfold on_mem. by intros ->. Qed.

(** ** A page *)

Definition sizes (l : list entry) : Z := foldr (fun e n => entry_size e + n) 0 l.

Lemma entry_size_pos e : 36 <= entry_size e.
Proof. unfold entry_size, info_size. lia. Qed.
Lemma sizes_length l : 36 * Z.of_nat (length l) <= sizes l.
Proof. induction l as [|e l IH]; cbn [sizes foldr length]; [done|]. fold (sizes l). pose proof (entry_size_pos e). lia. Qed.

(** What [choose] takes is an initial part; it stops at the end, at one entry when
    one was asked for, or where the next does not fit. *)
Lemma choose_spec len single l : forall total c t,
  choose len single total l = (c, t) ->
  exists rest, l = c ++ rest /\ t = total + sizes c /\ (total <= len -> t <= len) /\
    (c = [] -> forall e l', l = e :: l' -> len < total + entry_size e) /\
    (single = false -> forall e l', rest = e :: l' -> len < t + entry_size e).
Proof.
  induction l as [|e l IH]; intros total c t; cbn [choose]; [intros [= <- <-]; exists []; cbn; split_and!; [done|lia|done|done|done]|].
  destruct (Z.ltb_spec len (total + entry_size e)).
  { intros [= <- <-]. exists (e :: l). cbn. split_and!; [done|lia|done| |]; intros _ e' l' [= <- <-]; done. }
  destruct single.
  - intros [= <- <-]. exists l. cbn. split_and!; [done|lia|lia|done|done].
  - destruct (choose len false (total + entry_size e) l) as [c' t'] eqn:E. intros [= <- <-]. destruct (IH _ _ _ E) as (rest & -> & -> & H1 & _ & H3).
    exists rest. cbn [sizes foldr]. fold (sizes c'). split_and!; [done|lia|intros; apply H1; lia|done|done].
Qed.

(** A string whose length fits its descriptor. *)
Definition name_ok (s : list Z) : Prop := Z.of_nat (length s) * 2 + 2 < 2 ^ 16 /\ Forall (in_range 2) s.
Definition entry_ok (e : entry) : Prop := name_ok e.1 /\ name_ok e.2.

Lemma layout_length at_ l : Forall entry_ok l ->
  length (layout at_ l).1 = (32 * length l)%nat /\ Z.of_nat (length (layout at_ l).2) = sizes l - 32 * Z.of_nat (length l).
Proof.
  intros H. revert at_. induction H as [|[n t] l [[Hn _] [Ht _]] _ IH]; intros at_; [done|]. cbn [layout sizes foldr length]. fold (sizes l). cbn [fst snd] in *.
  set (at' := _ + 2 + _ + 2). specialize (IH at'). destruct (layout at' l) as [infos strings]. cbn [fst snd] in *. destruct IH as [IH1 IH2].
  unfold string_descriptor, entry_size, info_size, u16. cbn [fst snd]. rewrite !Z.mod_small by lia.
  rewrite !length_app, !length_descriptor_bytes, !length_take, !length_chars_bytes. cbn [length]. split; lia.
Qed.

(** What a guest makes of the buffer: it walks the structures to the zeroed one. *)
Fixpoint read_listing (n : nat) (a : Z) : gst (list entry) :=
  match n with
  | O => ret []
  | S n =>
      let! d := read_descriptor a in
      if Buffer d =? 0 then ret [] else
      let! name := read_unicode_string a in
      let! type := read_unicode_string (a + 16) in
      let! l := read_listing n (a + 32) in
      ret ((name, type) :: l)
  end.

Lemma string_descriptor_counted m a at_ s :
  name_ok s -> 0 < a -> a + 16 <= 2 ^ 64 -> 0 < at_ -> at_ + Z.of_nat (length s) * 2 + 2 <= 2 ^ 64 ->
  holds m a (string_descriptor (u16 (Z.of_nat (length s) * 2)) at_) ->
  holds m at_ (take (Z.to_nat (u16 (Z.of_nat (length s) * 2))) (chars_bytes 2 s)) ->
  counted 2 m a s (Descriptor (Z.of_nat (length s) * 2) (Z.of_nat (length s) * 2 + 2) 0 at_).
Proof.
  intros [Hl Hs] Ha Ha' Hb Hb' H1 H2. unfold string_descriptor, u16 in *. rewrite !Z.mod_small in H1 by lia. rewrite Z.mod_small in H2 by lia.
  rewrite u64_small in H1 by (unfold in_u64; lia). rewrite take_ge in H2 by (rewrite length_chars_bytes; lia).
  split; [split; [done|split; cbn; lia|done]|cbn; unfold char_size; lia|cbn; lia|done|cbn; unfold char_size; lia|done].
Qed.

Lemma read_listing_layout l : forall n a at_ m,
  Forall entry_ok l -> (length l < n)%nat -> 0 < a -> a + 32 * (Z.of_nat (length l) + 1) <= 2 ^ 64 ->
  0 < at_ -> at_ + sizes l - 32 * Z.of_nat (length l) <= 2 ^ 64 ->
  holds m a ((layout at_ l).1 ++ replicate 32 0) -> holds m at_ (layout at_ l).2 ->
  read_listing n a m = (Ok l, m).
Proof.
  induction l as [|[name type] l IH]; intros n a at_ m Hok Hn Ha Ha' Hb Hb' H1 H2; (destruct n as [|n]; [cbn in Hn; lia|]); cbn [read_listing].
  - change (replicate 32 0) with (descriptor_bytes empty_descriptor ++ replicate 16 0) in H1. cbn [layout fst app] in H1. apply holds_app in H1 as [H1 _].
    assert (descriptor_at m a empty_descriptor) as Hd by (cbn in Ha'; split; [lia|by split|done]).
    pose proof (read_descriptor_at m a _ Hd) as E. by rewrite (bind_ok _ _ _ _ _ E).
  - apply list.Forall_cons in Hok as [[Hno Hto] Hok]. cbn [fst snd] in Hno, Hto. cbn [layout length sizes foldr] in *. fold (sizes l) in Hb'.
    pose proof (sizes_length l) as Hsz. pose proof Hno as [Hn1 _]. pose proof Hto as [Ht1 _].
    assert (u16 (Z.of_nat (length name) * 2) = Z.of_nat (length name) * 2 /\ u16 (Z.of_nat (length type) * 2) = Z.of_nat (length type) * 2) as [En Et] by (unfold u16; rewrite !Z.mod_small by lia; done).
    unfold entry_size, info_size in Hb'. cbn [fst snd] in Hb'.
    set (type_at := at_ + u16 (Z.of_nat (length name) * 2) + 2) in *. set (at' := type_at + u16 (Z.of_nat (length type) * 2) + 2) in *.
    specialize (IH n (a + 32) at' m Hok ltac:(lia) ltac:(lia) ltac:(lia) ltac:(lia) ltac:(lia)). destruct (layout at' l) as [infos strings]. cbn [fst snd] in *.
    assert (forall x y, length (string_descriptor x y) = 16%nat) as Ld by (intros; apply length_descriptor_bytes).
    rewrite <- !app_assoc in H1. apply holds_app in H1 as [D1 H1]. apply holds_app in H1 as [D2 H1]. rewrite !Ld in *. rewrite <- Z.add_assoc in H1.
    apply holds_app in H2 as [S1 H2]. apply holds_app in H2 as [_ H2]. apply holds_app in H2 as [S2 H2]. apply holds_app in H2 as [_ H2].
    rewrite !length_take, !length_chars_bytes in *. cbn [length] in *.
    replace (at_ + Z.of_nat (Z.to_nat (u16 (Z.of_nat (length name) * 2)) `min` (2 * length name)) + Z.of_nat 2) with type_at in * by lia.
    replace (type_at + Z.of_nat (Z.to_nat (u16 (Z.of_nat (length type) * 2)) `min` (2 * length type)) + Z.of_nat 2) with at' in * by lia.
    assert (counted 2 m a name (Descriptor (Z.of_nat (length name) * 2) (Z.of_nat (length name) * 2 + 2) 0 at_)) as C1 by (apply string_descriptor_counted; done || lia).
    assert (counted 2 m (a + 16) type (Descriptor (Z.of_nat (length type) * 2) (Z.of_nat (length type) * 2 + 2) 0 type_at)) as C2 by (apply string_descriptor_counted; done || lia).
    rewrite (bind_ok _ _ _ _ _ (read_descriptor_at _ _ _ (ct_at _ _ _ _ _ C1))). cbn [Buffer]. rewrite (proj2 (Z.eqb_neq at_ 0)) by lia.
    rewrite (bind_ok _ _ _ _ _ (read_counted_ok 2 _ _ _ _ ltac:(lia) C1)), (bind_ok _ _ _ _ _ (read_counted_ok 2 _ _ _ _ ltac:(lia) C2)).
    by rewrite (bind_ok _ _ _ _ _ (IH H1 H2)).
Qed.

(** What is written is [total] bytes, and reads back as the entries. *)
Lemma directory_bytes_ok buffer l n m :
  let total := info_size + sizes l in
  Forall entry_ok l -> 0 < buffer -> buffer + total <= 2 ^ 64 -> (length l < n)%nat ->
  Z.of_nat (length (directory_bytes buffer total l)) = total /\
  (holds m buffer (directory_bytes buffer total l) -> read_listing n buffer m = (Ok l, m)).
Proof.
  intros total Hok Hb Hb' Hn. unfold directory_bytes. pose proof (layout_length (buffer + info_size * (Z.of_nat (length l) + 1)) l Hok) as [L1 L2].
  pose proof (read_listing_layout l n buffer (buffer + info_size * (Z.of_nat (length l) + 1)) m Hok Hn Hb) as Hr. pose proof (sizes_length l).
  unfold info_size in *. destruct (layout _ l) as [infos strings]. cbn [fst snd] in *.
  assert (length (infos ++ replicate (Z.to_nat 32) 0 ++ strings) = Z.to_nat total) as Lt by (rewrite !length_app, length_replicate; lia).
  rewrite Lt, Nat.sub_diag, app_nil_r. split; [lia|]. intros H1. rewrite (assoc_L app) in H1. apply holds_app in H1 as [H1 H2].
  rewrite length_app, length_replicate in H2. apply Hr; [lia|lia|lia|done|].
  by replace (buffer + 32 * (Z.of_nat (length l) + 1)) with (buffer + Z.of_nat (length infos + Z.to_nat 32)) by lia.
Qed.

(** Where a page goes, and where the position and the size are told. *)
Definition cell (m : gmem) (a : Z) : Prop := 0 < a /\ a + 4 <= 2 ^ 64 /\ mapped m a 4.
Definition apart (a b len : Z) : Prop := a + 4 <= b \/ b + len <= a.
Record page_room (m : gmem) (buffer len context return_length : Z) : Prop := {
  pr_buffer : 0 < buffer /\ buffer + len <= 2 ^ 64 /\ mapped m buffer len;
  pr_len : info_size <= len < 2 ^ 32;
  pr_context : cell m context /\ apart context buffer len;
  pr_return : return_length = 0 \/ (cell m return_length /\ apart return_length buffer len /\ apart return_length context 4)
}.

(** The directory the handle stands for, and what is in it. *)
Record directory (s : nsys) (handle : Z) (l : list entry) : Prop := {
  dr_entries : exists name, host_of handle s = Some (HDirectory name) /\
    let prefix := object_namespace_key name ++ [slash] in l = map (entry_for s prefix) (child_names prefix (objs_ (tbl s)));
  dr_ok : Forall entry_ok l;
  dr_count : Z.of_nat (length l) < 2 ^ 32
}.

Lemma directory_set_mem m s handle l : directory s handle l -> directory (set_mem m s) handle l.
Proof. intros [H1 H2 H3]. by split. Qed.

Lemma page_room_mapped m m' buffer len context ret :
  (forall a n, mapped m a n -> mapped m' a n) -> page_room m buffer len context ret -> page_room m' buffer len context ret.
Proof.
  intros Hm [(B1 & B2 & B3) L ((C1 & C2 & C3) & C4) R]. split; [by split_and!; [..|apply Hm]|done| |].
  - by split; [split_and!; [..|apply Hm]|].
  - destruct R as [->|((R1 & R2 & R3) & R4)]; [by left|]. right. by split; [split_and!; [..|apply Hm]|].
Qed.

Lemma write_cell w a v s m : n_mem s = m -> 0 < a -> a + char_size w <= 2 ^ 64 -> mapped m a (char_size w) ->
  exists m', write_word w a v s = (Ok tt, set_mem m' s) /\ same m' (splice a (le_bytes w v) m).
Proof.
  intros <- Ha Hb Hm. unfold char_size in *. destruct (write_mem_mapped (le_bytes w v) a (n_mem s)) as (m' & E & H); [lia|by rewrite length_le_bytes|by rewrite length_le_bytes|].
  exists m'. split; [|done]. unfold write_word. by rewrite (name_mem_writes _ _ _ _ E).
Qed.

Lemma holds_splice_out m a l b l' : holds m a l -> a + Z.of_nat (length l) <= b \/ b + Z.of_nat (length l') <= a -> holds (splice b l' m) a l.
Proof.
  intros H Hab i x Hi. pose proof (lookup_lt_Some _ _ _ Hi). rewrite splice_out by lia. by apply H.
Qed.

(** One page: what the call answers and what it leaves, from position [i] on. *)
Record page (s s' : nsys) (buffer len context return_length : Z) (single : bool) (l p : list entry) (i status : Z) : Prop := {
  pg_part : exists rest, drop (Z.to_nat i) l = p ++ rest /\
    status = (match p, rest with [], [] => STATUS_NO_MORE_ENTRIES | _, [] => STATUS_SUCCESS | _, _ :: _ => STATUS_MORE_ENTRIES end) /\
    (p = [] -> forall e r, rest = e :: r -> len < info_size + entry_size e) /\
    (single = false -> forall e r, rest = e :: r -> len < info_size + sizes p + entry_size e);
  pg_fits : info_size + sizes p <= len;
  pg_state : s' = set_mem (n_mem s') s;
  pg_listing : forall n, (length p < n)%nat -> read_listing n buffer (n_mem s') = (Ok p, n_mem s');
  pg_context : holds (n_mem s') context (le_bytes 4 (i + Z.of_nat (length p)));
  pg_return : return_length <> 0 -> holds (n_mem s') return_length (le_bytes 4 (info_size + sizes p));
  pg_mapped : forall a n, mapped (n_mem s) a n -> mapped (n_mem s') a n;
  pg_memory : forall x, ~ buffer <= x < buffer + len -> ~ context <= x < context + 4 -> (return_length = 0 \/ ~ return_length <= x < return_length + 4) ->
    n_mem s' x = n_mem s x
}.

(** Where a call begins: at the start, or where the context says. *)
Definition starts_at (s : nsys) (context : Z) (restart : bool) (i : Z) : Prop :=
  if restart then i = 0 else holds (n_mem s) context (le_bytes 4 i).

(** The writes of a page. *)
Lemma page_writes {A} s buffer len context ret (r c out : list Z) (k : nst A) :
  page_room (n_mem s) buffer len context ret -> length r = 4%nat -> length c = 4%nat -> Z.of_nat (length out) <= len ->
  exists m', same m' (splice buffer out (splice context c (if ret =? 0 then n_mem s else splice ret r (n_mem s)))) /\
    ((if ret =? 0 then Prelude.ret tt else on_mem (write_mem ret r)) ;; on_mem (write_mem context c) ;; on_mem (write_mem buffer out) ;; k) s = k (set_mem m' s).
Proof.
  intros [(B1 & B2 & B3) L ((C1 & C2 & C3) & C4) R] Hr Hc Ho.
  assert (exists m1, same m1 (if ret =? 0 then n_mem s else splice ret r (n_mem s)) /\
    (if ret =? 0 then Prelude.ret tt else on_mem (write_mem ret r)) s = (Ok tt, set_mem m1 s)) as (m1 & H1 & E1).
  { destruct (Z.eqb_spec ret 0) as [|Hne]; [exists (n_mem s); split; [done|by destruct s]|]. destruct R as [|((R1 & R2 & R3) & R4)]; [done|].
    destruct (write_mem_mapped r ret (n_mem s)) as (m1 & E & H); [lia|lia|by rewrite Hr|]. exists m1. split; [done|]. by rewrite (name_mem_writes _ _ _ _ E). }
  assert (forall a n, mapped (n_mem s) a n -> mapped m1 a n) as M1.
  { intros a n Hm x Hx. rewrite H1. destruct (ret =? 0); [by apply Hm|]. by apply (splice_mapped _ _ _ _ _ Hm). }
  destruct (write_mem_mapped c context m1) as (m2 & E2 & H2); [lia|lia|by rewrite Hc; apply M1|].
  assert (forall a n, mapped (n_mem s) a n -> mapped m2 a n) as M2.
  { intros a n Hm x Hx. rewrite H2. by apply (splice_mapped _ _ _ _ _ (M1 _ _ Hm)). }
  destruct (write_mem_mapped out buffer m2) as (m3 & E3 & H3); [lia|lia|intros x Hx; apply (M2 _ _ B3); lia|].
  exists m3. split.
  - intros x. rewrite H3. apply splice_same. intros y. rewrite H2. by apply splice_same.
  - rewrite (bind_ok _ _ _ _ _ E1), (bind_ok _ _ _ _ _ (name_mem_writes _ (set_mem m1 s) _ _ E2)).
    by rewrite (bind_ok _ _ _ _ _ (name_mem_writes _ (set_mem m2 (set_mem m1 s)) _ _ E3)).
Qed.

Lemma starts_at_read s context restart i : 0 <= i < 2 ^ 32 -> cell (n_mem s) context -> starts_at s context restart i ->
  (if negb restart && negb (context =? 0) then let! l := on_mem (read_mem context 4) in ret (le_val l) else ret 0) s = (Ok i, s).
Proof.
  intros Hi (C1 & C2 & C3) Hs. rewrite (proj2 (Z.eqb_neq context 0)) by lia. destruct restart; cbn [negb andb starts_at] in *; [by rewrite Hs|].
  pose proof (read_mem_holds (n_mem s) (le_bytes 4 i) context ltac:(lia)) as E. rewrite length_le_bytes in E. specialize (E C2 Hs). rewrite (bind_ok _ _ _ _ _ (name_mem_reads _ _ _ E)).
  unfold ret. rewrite le_val_bytes, Z.mod_small; [done|]. by change (256 ^ Z.of_nat 4) with (2 ^ 32).
Qed.

(** A call gives a page: the entries from where it begins that fit, the position
    after them, and whether there are more. *)
Theorem query_directory s handle buffer len single restart context return_length l i :
  directory s handle l -> page_room (n_mem s) buffer len context return_length ->
  0 <= i <= Z.of_nat (length l) -> starts_at s context restart i ->
  exists p status s', NtQueryDirectoryObject handle buffer len single restart context return_length s = (Ok status, s') /\
    page s s' buffer len context return_length single l p i status.
Proof.
  intros [(name & Hh & Hl) Hok Hn] Hr Hi Hs. pose proof Hr as [(B1 & B2 & B3) L (C & C4) R]. unfold NtQueryDirectoryObject. unfold bind at 1, get. rewrite Hh. cbv zeta in Hl |- *.
  set (prefix := object_namespace_key name ++ [slash]) in *. set (children := child_names prefix (objs_ (tbl s))) in *.
  assert (length children = length l) as Ec by (by rewrite Hl, length_map). rewrite Ec.
  rewrite (bind_ok _ _ _ _ _ (starts_at_read s context restart i ltac:(lia) C Hs)). rewrite (proj2 (Z.ltb_ge _ _)) by lia.
  rewrite <- skipn_map, <- Hl. destruct (choose len single info_size (drop (Z.to_nat i) l)) as [p total] eqn:Ech.
  destruct (choose_spec _ _ _ _ _ _ Ech) as (rest & El & Et & Hfit & H1 & H2). specialize (Hfit ltac:(lia)). rewrite (proj2 (Z.ltb_ge _ _)) by lia.
  assert (length p + length rest = length l - Z.to_nat i)%nat as Elen by (rewrite <- length_app, <- El; by rewrite length_drop).
  assert (Forall entry_ok p) as Hp by (apply (Forall_app entry_ok p rest); rewrite <- El; by apply Forall_drop).
  pose proof (sizes_length p) as Hsz. unfold info_size in Et, L.
  destruct (directory_bytes_ok buffer p (S (length p)) (n_mem s) Hp ltac:(lia)) as [Lo _]; [unfold info_size; lia|lia|]. unfold info_size in Lo. rewrite <- Et in Lo.
  assert ((context =? 0) = false) as Ec0 by (apply Z.eqb_neq; destruct C; lia). rewrite Ec0. unfold write_word.
  assert (u32 (i + Z.of_nat (length p)) = i + Z.of_nat (length p) /\ u32 total = total) as [E1 E2] by (unfold u32; rewrite !Z.mod_small by lia; done). rewrite E1, E2.
  set (status := if bool_decide _ && _ then _ else _). set (r := le_bytes 4 total) in *. set (c := le_bytes 4 (i + Z.of_nat (length p))). set (out := directory_bytes buffer total p) in *.
  destruct (page_writes s buffer len context return_length r c out (Prelude.ret status) Hr) as (m' & Em & Es); [apply length_le_bytes|apply length_le_bytes|lia|].
  exists p, status, (set_mem m' s). split; [exact Es|]. clear Es.
  assert (length r = 4%nat /\ length c = 4%nat) as [Lr Lc] by (split; apply length_le_bytes).
  split.
  - exists rest. split; [done|]. split; [|split].
    + unfold status. destruct rest as [|e rest]; cbn [length] in Elen.
      * rewrite (proj2 (Z.ltb_ge (i + _) _)) by lia. destruct p as [|e p]; [rewrite bool_decide_eq_true_2 by done; cbn [length] in Elen|by rewrite bool_decide_eq_false_2].
        by rewrite (proj2 (Z.leb_le _ _)) by lia.
      * rewrite (proj2 (Z.ltb_lt (i + _) _)) by lia. destruct p as [|e' p]; [|by rewrite bool_decide_eq_false_2].
        rewrite bool_decide_eq_true_2, (proj2 (Z.leb_gt _ _)) by (done || lia). done.
    + intros -> e x ->. apply (H1 eq_refl e x). by rewrite El.
    + intros Hsi e x ->. unfold info_size. rewrite <- Et. by apply (H2 Hsi e x).
  - unfold info_size. lia.
  - done.
  - intros n Hpn. cbn [n_mem set_mem]. destruct (directory_bytes_ok buffer p n m' Hp ltac:(lia)) as [_ H]; [unfold info_size; lia|done|].
    apply H. unfold info_size. rewrite <- Et. apply (same_holds _ _ _ _ Em), splice_holds.
  - cbn [n_mem set_mem]. apply (same_holds _ _ _ _ Em), holds_splice_out; [apply splice_holds|]. rewrite length_le_bytes. unfold apart in C4. lia.
  - cbn [n_mem set_mem]. intros Hne. destruct R as [|(_ & R4 & R5)]; [done|]. unfold apart in R4, R5. rewrite (proj2 (Z.eqb_neq _ _) Hne) in Em. unfold info_size. rewrite <- Et.
    apply (same_holds _ _ _ _ Em), holds_splice_out; [apply holds_splice_out; [apply splice_holds|]|]; rewrite length_le_bytes, ?Lc; lia.
  - cbn [n_mem set_mem]. intros a n Hm x Hx. rewrite Em. apply (splice_mapped buffer out _ a n); [|done]. apply splice_mapped. destruct (return_length =? 0); [done|]. by apply splice_mapped.
  - cbn [n_mem set_mem]. intros x Hx1 Hx2 Hx3. rewrite Em, !splice_out by lia. destruct (Z.eqb_spec return_length 0); [done|]. apply splice_out. lia.
Qed.

(** ** A whole directory *)

(** The loop of a guest that lists a directory: from the start, then from where the
    context says, as long as it is told that there are more. *)
Fixpoint scan (n : nat) (handle buffer len context return_length : Z) (restart : bool) : nst (list entry) :=
  match n with
  | O => throw out_of_fuel
  | S n =>
      let! status := NtQueryDirectoryObject handle buffer len false restart context return_length in
      if status =? STATUS_NO_MORE_ENTRIES then ret [] else
      let! l := on_mem (read_listing (Z.to_nat len) buffer) in
      if status =? STATUS_MORE_ENTRIES
      then let! rest := scan n handle buffer len context return_length false in ret (l ++ rest)
      else ret l
  end.

Lemma page_room_set_mem m s buffer len context ret :
  (forall a n, mapped (n_mem s) a n -> mapped m a n) -> page_room (n_mem s) buffer len context ret -> page_room (n_mem (set_mem m s)) buffer len context ret.
Proof. intros Hm H. by apply (page_room_mapped (n_mem s)). Qed.

Lemma scan_from n handle buffer len context return_length l : forall s restart i,
  directory s handle l -> page_room (n_mem s) buffer len context return_length -> Forall (fun e => info_size + entry_size e <= len) l ->
  0 <= i <= Z.of_nat (length l) -> starts_at s context restart i -> (length l - Z.to_nat i < n)%nat ->
  exists m, scan n handle buffer len context return_length restart s = (Ok (drop (Z.to_nat i) l), set_mem m s).
Proof.
  induction n as [|n IH]; intros s restart i Hd Hr Hfit Hi Hs Hn; [lia|]. cbn [scan].
  destruct (query_directory s handle buffer len false restart context return_length l i Hd Hr Hi Hs) as (p & status & s' & E & P).
  destruct P as [(rest & El & Est & Hp & _) Hsz Es Hl Hc _ Hm _]. rewrite (bind_ok _ _ _ _ _ E). clear E. rewrite El.
  assert (length p + length rest = length l - Z.to_nat i)%nat as Elen by (rewrite <- length_app, <- El; by rewrite length_drop).
  pose proof (sizes_length p). specialize (Hl (Z.to_nat len) ltac:(unfold info_size in *; lia)).
  destruct rest as [|e rest].
  - rewrite app_nil_r. exists (n_mem s'). rewrite <- Es. destruct p as [|x p]; rewrite Est.
    + done.
    + change (STATUS_SUCCESS =? STATUS_NO_MORE_ENTRIES) with false. cbn iota. rewrite (bind_ok _ _ _ _ _ (name_mem_reads _ _ _ Hl)). done.
  - assert (status = STATUS_MORE_ENTRIES) as -> by (by destruct p). change (STATUS_MORE_ENTRIES =? STATUS_NO_MORE_ENTRIES) with false. cbn iota.
    rewrite (bind_ok _ _ _ _ _ (name_mem_reads _ _ _ Hl)). change (STATUS_MORE_ENTRIES =? STATUS_MORE_ENTRIES) with true. cbn iota.
    assert (p <> []) as Hne.
    { intros ->. specialize (Hp eq_refl e rest eq_refl). rewrite list.Forall_forall in Hfit.
      assert (e ∈ l) as Hin by (apply (subseteq_drop (Z.to_nat i)); rewrite El; by left). specialize (Hfit e Hin). lia. }
    destruct p as [|x p]; [done|]. cbn [length] in *.
    destruct (IH s' false (i + Z.of_nat (S (length p)))) as (m & E).
    + rewrite Es. by apply directory_set_mem.
    + rewrite Es. by apply page_room_set_mem.
    + done.
    + lia.
    + done.
    + lia.
    + exists m. rewrite (bind_ok _ _ _ _ _ E). unfold ret. rewrite Es. cbn [set_mem].
      replace (Z.to_nat (i + Z.of_nat (S (length p)))) with (Z.to_nat i + length (x :: p))%nat by (cbn [length]; lia).
      rewrite <- drop_drop, El, drop_app_length. done.
Qed.

(** C29: a guest that lists a directory with a buffer every entry fits in gets each name
    registered under it once, in order, with the type of what it names, whatever
    the pages are; and it is done after at most one call more than there are names. *)
Theorem directory_scan s handle buffer len context return_length l :
  directory s handle l -> page_room (n_mem s) buffer len context return_length -> Forall (fun e => info_size + entry_size e <= len) l ->
  exists m, scan (S (length l)) handle buffer len context return_length true s = (Ok l, set_mem m s).
Proof.
  intros Hd Hr Hfit. destruct (scan_from (S (length l)) handle buffer len context return_length l s true 0 Hd Hr Hfit) as (m & E); [lia|done|lia|].
  exists m. by rewrite E.
Qed.

(** ** Watching handles *)

Lemma read_mem_mapped m n : forall a, 0 <= a -> a + Z.of_nat n <= 2 ^ 64 -> mapped m a (Z.of_nat n) ->
  exists l, read_mem a n m = (Ok l, m) /\ length l = n /\ holds m a l.
Proof.
  induction n as [|n IH]; intros a Ha Hb Hm; [by exists []|]. destruct (Hm a ltac:(lia)) as [b Hb0].
  destruct (IH (a + 1)) as (l & E & L & H); [lia|lia|intros x Hx; apply Hm; lia|]. exists (b :: l). split; [|split; [cbn; lia|by apply holds_cons]].
  cbn [read_mem]. unfold bind, read_byte. rewrite u64_small, Hb0 by (unfold in_u64; lia). by rewrite E.
Qed.

Lemma holds_prefix m a l l' : holds m a l -> holds m a l' -> (length l' <= length l)%nat -> take (length l') l = l'.
Proof.
  intros H H' Hl. apply list_eq. intros i. destruct (l' !! i) as [b|] eqn:E.
  - pose proof (lookup_lt_Some _ _ _ E) as Hi. rewrite lookup_take_lt by done. destruct (lookup_lt_is_Some_2 l i ltac:(lia)) as [c Ec].
    rewrite Ec. f_equal. specialize (H _ _ Ec). specialize (H' _ _ E). congruence.
  - rewrite lookup_take_ge; [done|]. by apply lookup_ge_None.
Qed.

(** The access the callbacks leave, each given what the one before it left; one
    that leaves none ends it. *)
Fixpoint strip (decide : ob_registration -> Z -> Z) (l : list ob_registration) (access : Z) : Z :=
  match l with
  | [] => access
  | r :: l => if decide r access =? 0 then 0 else strip decide l (decide r access)
  end.

Section Watched.
Context (guest : Z -> list Z -> nsys -> nsys) (decide : ob_registration -> Z -> Z).
Context (object type operation original source target params info : Z).

Definition block (m : gmem) (a n : Z) : Prop := 0 < a /\ a + n <= 2 ^ 64 /\ mapped m a n.

(** What a routine leaves alone: handles, objects, registrations, and what is mapped. *)
Definition keeps (s s' : nsys) : Prop :=
  tbl s' = tbl s /\ hosts s' = hosts s /\ ob_registrations s' = ob_registrations s /\ forall a n, mapped (n_mem s) a n -> mapped (n_mem s') a n.

(** The two blocks as the code fills them in. *)
Definition shown (s : nsys) (access : Z) : Prop :=
  holds (n_mem s) params (pre_parameters access original source target) /\ holds (n_mem s) info (pre_information operation object type params).

(** A routine that is shown the access and writes back what it decides. *)
Definition decides (r : ob_registration) : Prop := forall s access, shown s access ->
  let s' := guest (pre r) [context r; info] s in
  keeps s s' /\ 0 <= decide r access < 2 ^ 32 /\ holds (n_mem s') params (le_bytes 4 (decide r access)).

Lemma keeps_refl s : keeps s s.
Proof. done. Qed.
Lemma keeps_trans s1 s2 s3 : keeps s1 s2 -> keeps s2 s3 -> keeps s1 s3.
Proof. intros (A & B & C & D) (A' & B' & C' & D'). split_and!; [congruence..|auto]. Qed.

Lemma keeps_write s a l : 0 < a -> a + Z.of_nat (length l) <= 2 ^ 64 -> mapped (n_mem s) a (Z.of_nat (length l)) ->
  exists m, on_mem (write_mem a l) s = (Ok tt, set_mem m s) /\ same m (splice a l (n_mem s)) /\ keeps s (set_mem m s).
Proof.
  intros Ha Hb Hm. destruct (write_mem_mapped l a (n_mem s)) as (m & E & H); [lia|done..|]. exists m. split; [by rewrite (name_mem_writes _ _ _ _ E)|]. split; [done|].
  split_and!; try done. intros b n Hmb x Hx. cbn. rewrite H. by apply (splice_mapped _ _ _ _ _ Hmb).
Qed.

Lemma length_pre_parameters d : length (pre_parameters d original source target) = 24%nat.
Proof. unfold pre_parameters. by rewrite !length_app, !length_le_bytes. Qed.
Lemma length_pre_information p : length (pre_information operation object type p) = 40%nat.
Proof. unfold pre_information. by rewrite !length_app, !length_le_bytes. Qed.

Lemma run_pre_ok l : forall s access,
  block (n_mem s) params 24 -> block (n_mem s) info 40 -> params + 24 <= info \/ info + 40 <= params -> Forall decides l ->
  exists s', run_pre guest l object type operation original source target params info access s = (Ok (strip decide l access), s') /\ keeps s s'.
Proof.
  induction l as [|r l IH]; intros s access (P1 & P2 & P3) (I1 & I2 & I3) Hap Hl; [by exists s|]. apply list.Forall_cons in Hl as [Hr Hl]. cbn [run_pre strip].
  destruct (keeps_write s params (pre_parameters access original source target)) as (m1 & E1 & H1 & K1); [done|by rewrite length_pre_parameters|by rewrite length_pre_parameters|].
  destruct (keeps_write (set_mem m1 s) info (pre_information operation object type params)) as (m2 & E2 & H2 & K2); [done|by rewrite length_pre_information|rewrite length_pre_information; by apply K1|].
  rewrite (bind_ok _ _ _ _ _ E1), (bind_ok _ _ _ _ _ E2). set (s2 := set_mem m2 (set_mem m1 s)) in *.
  assert (keeps s s2) as K by (by eapply keeps_trans). assert (shown s2 access) as Hsh.
  { split; cbn [s2 n_mem set_mem]; [|apply (same_holds _ _ _ _ H2), splice_holds]. apply (same_holds _ _ _ _ H2), holds_splice_out; [|rewrite length_pre_information, length_pre_parameters; lia].
    apply (same_holds _ _ _ _ H1), splice_holds. }
  destruct (Hr s2 access Hsh) as (K3 & Hd & Hw). unfold modify, bind at 1. set (s3 := guest _ _ s2) in *.
  assert (keeps s s3) as K' by (by eapply keeps_trans). destruct (read_mem_mapped (n_mem s3) 24 params) as (bytes & Eb & Lb & Hb); [lia|done|by apply K'|].
  rewrite (bind_ok _ _ _ _ _ (name_mem_reads _ _ _ Eb)).
  assert (field bytes 0 4 = decide r access) as ->.
  { unfold field. rewrite drop_0. pose proof (holds_prefix _ _ _ _ Hb Hw) as Hp. rewrite length_le_bytes in Hp. rewrite Hp by lia. rewrite le_val_bytes. by apply Z.mod_small. }
  destruct (decide r access =? 0); [by exists s3|]. destruct (IH s3 (decide r access)) as (s' & E & K4); [by split_and!; [..|apply K']|by split_and!; [..|apply K']|done|done|].
  exists s'. split; [done|]. by eapply keeps_trans.
Qed.

End Watched.

Lemma matches_cases {A} (l : list ob_registration) (x y : A) : (match l with [] => x | _ => y end) = if decide (l = []) then x else y.
Proof. by destruct l. Qed.

Lemma ob_pre_handle_ok guest decide object type operation desired source target params info s :
  block (n_mem s) params 24 -> block (n_mem s) info 40 -> params + 24 <= info \/ info + 40 <= params ->
  Forall (decides guest decide object type operation desired source target params info) (matches pre type operation (ob_registrations s)) ->
  exists s', ob_pre_handle guest object type operation desired source target params info s =
    (Ok (strip decide (matches pre type operation (ob_registrations s)) desired), s') /\ keeps s s'.
Proof.
  intros Hp Hi Hap Hd. unfold ob_pre_handle. unfold bind at 1, get. pose proof Hp as (P1 & _). pose proof Hi as (I1 & _).
  rewrite (proj2 (Z.eqb_neq params 0)), (proj2 (Z.eqb_neq info 0)) by lia. cbn [orb].
  destruct (matches pre type operation (ob_registrations s)) as [|r l]; [by exists s|]. by apply run_pre_ok.
Qed.

Lemma run_post_keeps guest info l : forall s, (forall r s, keeps s (guest (post r) [context r; info] s)) -> keeps s (run_post guest l info s).
Proof.
  unfold run_post. induction l as [|r l IH]; intros s H; [done|]. cbn [foldl]. eapply keeps_trans; [apply H|by apply IH].
Qed.

Lemma ob_post_handle_ok guest object type operation status access params info s :
  block (n_mem s) params 8 -> block (n_mem s) info 48 -> (forall r s, keeps s (guest (post r) [context r; info] s)) ->
  exists s', ob_post_handle guest object type operation status access params info s = (Ok tt, s') /\ keeps s s'.
Proof.
  intros (P1 & P2 & P3) (I1 & I2 & I3) Hg. unfold ob_post_handle. unfold bind at 1, get.
  destruct (matches post type operation (ob_registrations s)) as [|r l]; [by exists s|].
  rewrite (proj2 (Z.eqb_neq params 0)), (proj2 (Z.eqb_neq info 0)) by lia. cbn [orb].
  assert (length (post_parameters access) = 8%nat /\ forall p, length (post_information operation object type status p) = 48%nat) as [L1 L2].
  { unfold post_parameters, post_information. by rewrite !length_app, !length_le_bytes. }
  destruct (keeps_write s params (post_parameters access)) as (m1 & E1 & _ & K1); [done|by rewrite L1|by rewrite L1|].
  destruct (keeps_write (set_mem m1 s) info (post_information operation object type status params)) as (m2 & E2 & _ & K2); [done|by rewrite L2|rewrite L2; by apply K1|].
  rewrite (bind_ok _ _ _ _ _ E1), (bind_ok _ _ _ _ _ E2). eexists. split; [reflexivity|].
  eapply keeps_trans; [exact K1|]. eapply keeps_trans; [exact K2|]. by apply run_post_keeps.
Qed.

(** A thread that is watched: the handle opened on it has the access its callbacks
    leave, each asked in the order they were registered and shown what the one
    before it left; when one leaves none there is no handle.  Nothing else about
    the handles that are open changes. *)
Theorem open_watched guest decide thread_type object desired handle pre_params pre_info post_params post_info s :
  host_at object s = Some HThread -> thread_type <> 0 -> table_ok (tbl s) -> next_handle_ (tbl s) < 2 ^ 64 - 4 ->
  block (n_mem s) handle 8 -> block (n_mem s) pre_params 24 -> block (n_mem s) pre_info 40 -> pre_params + 24 <= pre_info \/ pre_info + 40 <= pre_params ->
  block (n_mem s) post_params 8 -> block (n_mem s) post_info 48 ->
  let watchers := matches pre thread_type ob_operation_handle_create (ob_registrations s) in
  Forall (decides guest decide object thread_type ob_operation_handle_create desired 0 0 pre_params pre_info) watchers ->
  (forall r s, keeps s (guest (post r) [context r; post_info] s)) ->
  let access := strip decide watchers desired in
  exists s', ObOpenObjectByPointer guest thread_type object desired handle pre_params pre_info post_params post_info s =
      (Ok (if access =? 0 then STATUS_ACCESS_DENIED else STATUS_SUCCESS), s') /\
    if access =? 0 then tbl s' = tbl s
    else let h := next_handle_ (tbl s) in
      lookup_handle h (tbl s') = Some (object, access) /\ holds (n_mem s') handle (le_bytes 8 h) /\
      (forall h' e, lookup_handle h' (tbl s) = Some e -> lookup_handle h' (tbl s') = Some e).
Proof.
  intros Ho Ht Hok Hnext Hh Hpp Hpi Hap Hqp Hqi watchers Hpre Hpost access. unfold ObOpenObjectByPointer. pose proof Hh as (Hh1 & Hh2 & Hh3).
  rewrite (proj2 (Z.eqb_neq handle 0)) by lia. unfold bind at 1, get. rewrite Ho. rewrite (proj2 (Z.eqb_neq thread_type 0)) by done.
  destruct (ob_pre_handle_ok guest decide object thread_type ob_operation_handle_create desired 0 0 pre_params pre_info s Hpp Hpi Hap Hpre) as (s1 & E1 & (K1 & K2 & K3 & K4)).
  fold watchers access in E1. rewrite (bind_ok _ _ _ _ _ E1). cbn [negb andb]. destruct (access =? 0); [by exists s1|].
  unfold modify. unfold bind at 1. unfold bind at 1. set (s2 := on_manager (reference_object object) s1).
  assert (has_object object (objs_ (tbl s2)) = true) as Hhas.
  { apply bool_decide_eq_true. cbn [s2 on_manager tbl set_tbl on_objs objs_]. unfold reference_object. rewrite on_header_lookup, K1. unfold host_at, get_object in Ho. by destruct (objects_ (objs_ (tbl s)) !! object). }
  unfold create_handle. rewrite Hhas. set (t := Table _ _ _). unfold bind at 1. set (s3 := set_tbl t s2).
  assert (n_mem s3 = n_mem s1) as Em by done.
  assert (forall a n, block (n_mem s) a n -> block (n_mem s3) a n) as Hb by (intros a n (? & ? & ?); rewrite Em; split_and!; auto).
  destruct (ob_post_handle_ok guest object thread_type ob_operation_handle_create STATUS_SUCCESS access post_params post_info s3) as (s4 & E4 & (J1 & J2 & J3 & J4)); [by apply Hb|by apply Hb|done|].
  rewrite (bind_ok _ _ _ _ _ E4). destruct (write_cell 8 handle (next_handle_ (tbl s2)) s4 (n_mem s4) eq_refl Hh1 Hh2) as (m & E5 & H5).
  { apply J4. rewrite Em. by apply K4. }
  rewrite (bind_ok _ _ _ _ _ E5). eexists. split; [reflexivity|]. cbn [tbl set_mem]. rewrite J1. cbn [s3 tbl set_tbl t handles_]. unfold lookup_handle. cbn [handles_].
  assert (next_handle_ (tbl s2) = next_handle_ (tbl s) /\ handles_ (tbl s2) = handles_ (tbl s)) as [En Eh] by (cbn; by rewrite K1).
  rewrite En in H5. assert (handles_ t = <[next_handle_ (tbl s) := (object, access)]> (handles_ (tbl s))) as -> by (cbn [t handles_]; by rewrite En, Eh). split_and!.
  - by rewrite lookup_insert_eq.
  - apply (same_holds _ _ _ _ H5), splice_holds.
  - intros h' e He. rewrite lookup_insert_ne; [done|]. destruct (tk_handles _ Hok h' e He). lia.
Qed.

(** ** Opening by name *)

Record sys_ok (s : nsys) : Prop := {
  so_table : table_ok (tbl s);
  so_hosts : forall r, is_Some (hosts s !! r) -> r < fresh_host s;
  so_room : next_handle_ (tbl s) < 2 ^ 64 - 8
}.

(** The handle stands for the object at [body], whose host is [host]. *)
Definition stands_for (s : nsys) (h body access : Z) (host : nhost) : Prop :=
  h <> 0 /\ lookup_handle h (tbl s) = Some (body, access) /\ host_of h s = Some host.

Lemma open_new host name access base s :
  sys_ok s -> has_room base (tbl s) -> object_namespace_key name <> [] -> lookup_named_object (object_namespace_key name) (objs_ (tbl s)) = 0 ->
  let h := next_handle_ (tbl s) in
  exists s', open_namespace_object host name access base s = (Ok h, s') /\ stands_for s' h (body_of base) access host /\
    n_mem s' = n_mem s /\ table_ok (tbl s') /\ hosts s' = <[fresh_host s := host]> (hosts s) /\
    created (Some (fresh_host s)) base (object_namespace_key name) access (tbl s) (tbl s').
Proof.
  intros [Hok Hh Hn] Hr Hk Hl h. destruct (tk_next _ Hok) as [[Hp _] _].
  destruct (named_object_created (Some (fresh_host s)) base (object_namespace_key name) access (tbl s) Hok Hr) as (t' & E & C).
  unfold open_namespace_object. rewrite Hl. change (negb (0 =? 0)) with false. cbn iota. cbn [create_object]. fold (body_of base).
  rewrite (proj2 (Z.eqb_neq (body_of base) 0)) by apply Hr.
  cbn -[body_of create_handle register_named_object object_namespace_key].
  change (create_handle (body_of base) access _) with (create_handle (body_of base) access (named_object (Some (fresh_host s)) base (object_namespace_key name) (tbl s))).
  rewrite E. eexists. split; [reflexivity|]. split_and!; try done; [|by apply (cr_ok _ _ _ _ _ _ C)].
  split; [lia|]. split; [apply (created_lookup _ _ _ _ _ _ C)|]. unfold host_of, h. cbn [tbl set_tbl]. rewrite (created_new _ _ _ _ _ _ C). cbn. by rewrite lookup_insert_eq.
Qed.

Lemma open_existing host name access base s body r h0 :
  table_ok (tbl s) -> lookup_named_object (object_namespace_key name) (objs_ (tbl s)) = body -> body <> 0 ->
  get_object body (objs_ (tbl s)) = Some r -> hosts s !! r = Some h0 ->
  let h := next_handle_ (tbl s) in
  exists s', open_namespace_object host name access base s = (Ok h, s') /\ stands_for s' h body access h0 /\ n_mem s' = n_mem s.
Proof.
  intros Hok Hl Hb Hg Hh h. destruct (tk_next _ Hok) as [[Hp _] _]. unfold open_namespace_object. rewrite Hl, (proj2 (Z.eqb_neq body 0)) by done. cbn [negb].
  assert (has_object body (objs_ (tbl s)) = true) as Ho.
  { apply bool_decide_eq_true. unfold get_object in Hg. destruct (objects_ (objs_ (tbl s)) !! body) as [o|]; [by eexists|done]. }
  unfold create_handle. rewrite Ho. eexists. split; [reflexivity|]. split; [|done]. split; [lia|]. unfold lookup_handle, host_of, get_object_of, lookup_handle. cbn.
  rewrite lookup_insert_eq. split; [done|]. cbn. unfold get_object in *. unfold increment_handle_count. rewrite on_header_lookup.
  destruct (objects_ (objs_ (tbl s)) !! body) as [o|]; [|done]. cbn in *. rewrite decide_True by done. cbn. by rewrite Hg.
Qed.

Lemma open_named_ok make out access attributes base name s h s1 :
  block (n_mem s) out 8 -> Ports.attribute_name attributes (n_mem s) = (Ok name, n_mem s) ->
  open_namespace_object (make name) name access base s = (Ok h, s1) -> h <> 0 -> n_mem s1 = n_mem s ->
  exists m, open_named make out access attributes base s = (Ok STATUS_SUCCESS, set_mem m s1) /\ holds m out (le_bytes 8 h).
Proof.
  intros (H1 & H2 & H3) Hn E Hh Em. unfold open_named. rewrite (proj2 (Z.eqb_neq out 0)) by lia. rewrite (bind_ok _ _ _ _ _ (name_mem_reads _ _ _ Hn)), (bind_ok _ _ _ _ _ E).
  rewrite (proj2 (Z.eqb_neq h 0)) by done. destruct (write_cell 8 out h s1 (n_mem s1) eq_refl H1 H2) as (m & Ew & Hw); [by rewrite Em|].
  exists m. rewrite (bind_ok _ _ _ _ _ Ew). split; [done|]. apply (same_holds _ _ _ _ Hw), splice_holds.
Qed.

(** The first open of a name makes what is opened: the handle stands for it, and the
    directory above lists it.  Every later open of the name, in whatever case and
    with whatever prefix it is spelt, gives a new handle to that same object. *)
Theorem open_twice make out access attributes base name s :
  sys_ok s -> has_room base (tbl s) -> block (n_mem s) out 8 -> Ports.attribute_name attributes (n_mem s) = (Ok name, n_mem s) ->
  let key := object_namespace_key name in
  key <> [] -> lookup_named_object key (objs_ (tbl s)) = 0 ->
  exists s1, open_named make out access attributes base s = (Ok STATUS_SUCCESS, s1) /\
    stands_for s1 (next_handle_ (tbl s)) (body_of base) access (make name) /\ holds (n_mem s1) out (le_bytes 8 (next_handle_ (tbl s))) /\
    (forall prefix leaf, key = prefix ++ leaf -> leaf <> [] -> has_slash leaf = false -> leaf ∈ child_names prefix (objs_ (tbl s1))) /\
    forall m make' out' access' attributes' base' name', block m out' 8 -> Ports.attribute_name attributes' m = (Ok name', m) -> object_namespace_key name' = key ->
      exists s2, open_named make' out' access' attributes' base' (set_mem m s1) = (Ok STATUS_SUCCESS, s2) /\
        stands_for s2 (next_handle_ (tbl s1)) (body_of base) access' (make name).
Proof.
  intros Hok Hr Hout Hname key Hk Hl. destruct (open_new (make name) name access base s Hok Hr Hk Hl) as (s0 & E & (S1 & S2 & S3) & Em & T0 & Hh & C).
  destruct (open_named_ok make out access attributes base name s _ s0 Hout Hname E S1 Em) as (m1 & E1 & W1).
  exists (set_mem m1 s0). split; [exact E1|]. split; [done|]. split; [done|].
  pose proof (cr_name _ _ _ _ _ _ C Hk) as Hnm. split.
  - intros prefix leaf Hkey Hne Hs. apply child_names_spec. split; [done|]. split; [done|]. left. cbn [tbl set_mem]. unfold lookup_named_object in Hnm.
    rewrite <- Hkey. fold key in Hnm. assert (is_Some (named_ (objs_ (tbl s0)) !! key)) as Hs0; [|exact Hs0].
    destruct (named_ (objs_ (tbl s0)) !! key) as [a|]; [by exists a|]. destruct Hr as [Hb _]. by rewrite <- Hnm in Hb.
  - intros m make' out' access' attributes' base' name' Ho' Hn' Hk'. fold key in Hnm. rewrite <- Hk' in Hnm.
    destruct (open_existing (make' name') name' access' base' (set_mem m (set_mem m1 s0)) (body_of base) (fresh_host s) (make name)) as (s2 & E2 & S & Em2).
    + done. + done. + apply Hr. + apply (created_body _ _ _ _ _ _ C). + cbn. by rewrite Hh, lookup_insert_eq.
    + destruct S as (Q1 & Q2 & Q3). destruct (open_named_ok make' out' access' attributes' base' name' (set_mem m (set_mem m1 s0)) _ s2 Ho' Hn' E2 Q1 Em2) as (m2 & E3 & _).
      exists (set_mem m2 s2). split; [exact E3|]. done.
Qed.

(** A buffer the next entry does not fit in is not refused: the call says that there
    are more, gives none, and leaves the position where it is, so that the loop of a
    guest does not end, however often it goes round. *)
Theorem scan_stuck n s handle buffer len context return_length restart i l e r :
  directory s handle l -> page_room (n_mem s) buffer len context return_length -> 0 <= i ->
  drop (Z.to_nat i) l = e :: r -> len < info_size + entry_size e -> starts_at s context restart i ->
  exists s', scan n handle buffer len context return_length restart s = (Throw out_of_fuel, s').
Proof.
  revert s restart. induction n as [|n IH]; intros s restart Hd Hr Hi Hl Hlen Hs; [by eexists|]. cbn [scan].
  assert (Z.to_nat i < length l)%nat as Hil.
  { destruct (decide (Z.to_nat i < length l)%nat) as [|Hge]; [done|]. rewrite drop_ge in Hl by lia. done. }
  destruct (query_directory s handle buffer len false restart context return_length l i Hd Hr ltac:(lia) Hs) as (p & status & s1 & E & P).
  destruct P as [(rest & El & Est & _ & _) Hsz Es Hp Hc _ Hm _]. rewrite (bind_ok _ _ _ _ _ E). clear E.
  assert (p = []) as ->.
  { destruct p as [|x p]; [done|]. rewrite Hl in El. injection El as <- _. cbn [sizes foldr] in Hsz. fold (sizes p) in Hsz. pose proof (sizes_length p). lia. }
  rewrite Hl in El. cbn [app] in El. subst rest. rewrite Est. change (STATUS_MORE_ENTRIES =? STATUS_NO_MORE_ENTRIES) with false. cbn iota.
  cbn [length] in Hc. rewrite Z.add_0_r in Hc. rewrite (bind_ok _ _ _ _ _ (name_mem_reads _ _ _ (Hp (Z.to_nat len) ltac:(destruct Hr as [_ L _ _]; unfold info_size in L; cbn; lia)))).
  change (STATUS_MORE_ENTRIES =? STATUS_MORE_ENTRIES) with true. cbn iota.
  destruct (IH s1 false) as (s' & E); [rewrite Es; by apply directory_set_mem|rewrite Es; by apply page_room_set_mem|done..|].
  exists s'. unfold bind. by rewrite E.
Qed.

(** ** Registering and unregistering *)

Lemma on_mem_registrations {A} (f : gst A) s : ob_registrations (on_mem f s).2 = ob_registrations s.
Proof. unfold on_mem. by destruct (f (n_mem s)) as [[]]. Qed.

Lemma bind_registrations {A B} (f : nst A) (k : A -> nst B) s (P : list ob_registration -> Prop) :
  ob_registrations (f s).2 = ob_registrations s -> P (ob_registrations s) ->
  (forall a s', ob_registrations s' = ob_registrations s -> P (ob_registrations (k a s').2)) -> P (ob_registrations (bind f k s).2).
Proof. unfold bind. intros E HP H. destruct (f s) as [[a|e] s']; cbn in *; [by apply H|by rewrite E]. Qed.

(** What a registration adds, however far it gets, is under its own handle. *)
Definition adds (h : Z) (l l' : list ob_registration) : Prop := exists x, l' = l ++ x /\ Forall (fun r => registration r = h) x.
Lemma adds_refl h l : adds h l l.
Proof. exists []. by rewrite app_nil_r. Qed.

Lemma register_operations_adds h ctx n : forall op s, adds h (ob_registrations s) (ob_registrations (register_operations h op ctx n s).2).
Proof.
  induction n as [|n IH]; intros op s; [apply adds_refl|]. cbn [register_operations].
  apply bind_registrations; [apply on_mem_registrations|apply adds_refl|]. intros entry s1 <-.
  apply bind_registrations; [apply on_mem_registrations|apply adds_refl|]. intros type s2 <-.
  unfold bind, modify. destruct (IH (op + 32) (set_registrations (ob_registrations s2 ++ [ObRegistration h (le_val type) (field entry 8 4) (field entry 16 8) (field entry 24 8) ctx]) s2)) as (x & -> & Hx).
  cbn [ob_registrations set_registrations]. eexists. rewrite <- app_assoc. split; [reflexivity|]. by apply list.Forall_cons.
Qed.

Lemma ob_register_adds callbacks handle base s : adds (body_of base) (ob_registrations s) (ob_registrations (ObRegisterCallbacks callbacks handle base s).2).
Proof.
  unfold ObRegisterCallbacks. destruct (_ || _); [apply adds_refl|].
  do 2 (apply bind_registrations; [apply on_mem_registrations|apply adds_refl|]; intros ? ? <-).
  unfold bind at 1. unfold new_object. cbn [create_object]. fold (body_of base). destruct (body_of base =? 0); [apply adds_refl|].
  apply (bind_registrations _ _ (on_manager _ _) (adds (body_of base) (ob_registrations s'0))); [apply on_mem_registrations|apply adds_refl|]. intros _ s3 E3.
  unfold bind. destruct (register_operations_adds (body_of base) (field a 24 8) (Z.to_nat (field a 2 2)) (field a 32 8) s3) as (x & Ex & Hx). rewrite E3 in Ex. cbn in Ex.
  destruct (register_operations _ _ _ _ s3) as [[|] s4]; cbn in *; by exists x.
Qed.

Lemma filter_front {A} (P : A -> Prop) `{!forall x, Decision (P x)} l x :
  Forall P l -> Forall (fun y => ~ P y) x -> base.filter P (l ++ x) = l.
Proof.
  intros Hl Hx. induction Hl as [|y l Hy _ IH]; cbn [app].
  - induction Hx as [|y x Hy _ IH]; [done|]. by rewrite filter_cons_False.
  - by rewrite filter_cons_True, IH.
Qed.

(** Dropping a registration leaves the list as it was before it was made, also when
    making it failed half way. *)
Theorem unregister_undoes callbacks handle base s :
  Forall (fun r => registration r <> body_of base) (ob_registrations s) ->
  ob_registrations (ObUnRegisterCallbacks (body_of base) (ObRegisterCallbacks callbacks handle base s).2) = ob_registrations s.
Proof.
  intros H. destruct (ob_register_adds callbacks handle base s) as (x & E & Hx). unfold ObUnRegisterCallbacks. cbn [ob_registrations set_registrations]. rewrite E.
  apply filter_front; [done|]. apply (list.Forall_impl _ _ _ Hx). intros r Hr Hne. done.
Qed.
