(* ===== verification/NameExamples.v ===== *)
(** * Objects and names at work

    A directory with two names under it, listed one page at a time; a name opened
    twice; and a thread whose handle is watched. *)

From Stdlib Require Ascii String.
From stdpp Require Import list gmap.
From S2P Require Import Prelude Mmu Paths Objects ObjectsThm Filesystem GuestMem StringOps StringThm StringExamples Ports PortsExamples NameOps NameThm.
From stdpp Require Import options.

Open Scope Z_scope.
Open Scope kern_scope.
Import Names.
Import String.StringSyntax.
Delimit Scope string_scope with string.

(** "/hi" is a directory, "/hi/a" a driver; of "/hi/b" only something below it is
    registered. *)
Definition host_entry (r : Z) : object_entry := ObjectEntry (Some (Header 1 0 0)) (Some r).
Definition hi_names : manager := Manager
  {[ 0x100 := host_entry 1; 0x200 := host_entry 2 ]}
  {[ text "/hi"%string := 0x100; text "/hi/a"%string := 0x200; text "/hi/b/c"%string := 0x200 ]} 4.
Definition hi_hosts : gmap Z nhost := {[ 1 := HDirectory (text "\Hi"%string); 2 := HDriver ]}.
Definition hi : nsys := NSys zero_bytes (Table {[ 4 := (0x100, 0) ]} 8 hi_names) hi_hosts 3 [] [].

Definition hi_entries : list entry := [(text "a"%string, text "Driver"%string); (text "b"%string, text "Unknown"%string)].

Lemma zero_mapped a n : 0 <= a -> 0 <= n -> a + n <= 0x10000 -> mapped zero_bytes a n.
Proof.
  intros H1 H2 H3 x Hx. unfold zero_bytes. rewrite (proj2 (Z.leb_le _ _)), (proj2 (Z.ltb_lt _ _)) by lia. by eexists.
Qed.

Lemma hi_directory : directory hi 4 hi_entries.
Proof.
  split; [eexists; split; [reflexivity|vm_compute; reflexivity]| |reflexivity].
  apply (bool_decide_unpack _). vm_compute. exact I.
Qed.

Lemma hi_room len : 32 <= len < 0x1000 -> page_room (n_mem hi) 0x4000 len 0x8000 0.
Proof.
  intros H. split; [|unfold info_size; lia| |by left].
  - split; [lia|]. split; [lia|]. apply zero_mapped; lia.
  - split; [|unfold apart; lia]. split; [lia|]. split; [lia|]. apply zero_mapped; lia.
Qed.

(** A page of 84 bytes holds the first entry, and there are more. *)
Lemma query_directory_witness : exists s', NtQueryDirectoryObject 4 0x4000 84 false true 0x8000 0 hi = (Ok STATUS_MORE_ENTRIES, s') /\
  read_listing 2 0x4000 (n_mem s') = (Ok [(text "a"%string, text "Driver"%string)], n_mem s') /\ holds (n_mem s') 0x8000 [1; 0; 0; 0].
Proof.
  destruct (query_directory hi 4 0x4000 84 false true 0x8000 0 hi_entries 0 hi_directory (hi_room 84 ltac:(lia)) ltac:(cbn; lia) eq_refl)
    as (p & status & s' & E & P). destruct P as [(rest & El & Est & Hp & Hmax) Hsz _ Hl Hc _ _ _].
  assert (p = [(text "a"%string, text "Driver"%string)] /\ rest = [(text "b"%string, text "Unknown"%string)]) as [-> ->].
  { destruct p as [|x [|y [|z p]]].
    - cbn [app] in El. subst rest. specialize (Hp eq_refl _ _ eq_refl). vm_compute in Hp. discriminate Hp.
    - injection El as <- <-. split; reflexivity.
    - injection El as <- <- <-. vm_compute in Hsz. exfalso. by apply Hsz.
    - discriminate El. }
  exists s'. split; [rewrite E, Est; reflexivity|]. split; [apply Hl; cbn; lia|exact Hc].
Defined.

Lemma directory_scan_witness : exists m, scan 3 4 0x4000 84 0x8000 0 true hi = (Ok hi_entries, set_mem m hi).
Proof.
  apply (directory_scan hi 4 0x4000 84 0x8000 0 hi_entries hi_directory (hi_room 84 ltac:(lia))).
  apply (bool_decide_unpack _). vm_compute. exact I.
Defined.

(** With 64 bytes there is room for the zeroed structure and for no entry. *)
Lemma scan_stuck_witness n : exists s', scan n 4 0x4000 64 0x8000 0 true hi = (Throw out_of_fuel, s').
Proof.
  apply (scan_stuck n hi 4 0x4000 64 0x8000 0 true 0 hi_entries _ _ hi_directory (hi_room 64 ltac:(lia)) ltac:(lia) eq_refl); reflexivity.
Defined.

(** ** A name opened twice *)

Definition no_names : nsys := NSys port_bytes (Table ∅ 4 (Manager ∅ ∅ 4)) ∅ 0 [] [].

Lemma no_names_ok : sys_ok no_names.
Proof. split; [apply reachable_ok, r_start| |reflexivity]. intros r [h Hh]. discriminate Hh. Qed.

Lemma port_block a n : 0 < a -> 0 <= n -> a + n <= 0x10000 -> block port_bytes a n.
Proof. intros H1 H2 H3. split; [lia|]. split; [lia|]. apply zeros_mapped; lia. Qed.

Lemma open_twice_witness : exists s1 s2, NtOpenDirectoryObject 0xB000 7 0x9000 0x20000 no_names = (Ok STATUS_SUCCESS, s1) /\
  NtOpenSymbolicLinkObject 0xB000 8 0x9000 0x30000 (set_mem port_bytes s1) = (Ok STATUS_SUCCESS, s2) /\
  host_of (next_handle_ (tbl s1)) s2 = Some (HDirectory (text "Hi"%string)).
Proof.
  destruct (open_twice HDirectory 0xB000 7 0x9000 0x20000 (text "Hi"%string) no_names no_names_ok) as (s1 & E1 & _ & _ & _ & H).
  - split; [vm_compute; discriminate|]. split; reflexivity.
  - apply port_block; lia.
  - exact read_port_name.
  - vm_compute. discriminate.
  - reflexivity.
  - destruct (H port_bytes (fun _ => HLink system32) 0xB000 8 0x9000 0x30000 (text "Hi"%string)) as (s2 & E2 & _ & _ & Hh); [apply port_block; lia|exact read_port_name|reflexivity|].
    exists s1, s2. split; [exact E1|]. split; [exact E2|exact Hh].
Defined.

(** ** A watched thread *)

(** A driver that grants a mask of the access it is shown. *)
Definition masks (mask : Z) (args : list Z) (s : nsys) : nsys :=
  match read_mem 0x5000 4 (n_mem s) with
  | (Ok l, _) => set_mem (splice 0x5000 (le_bytes 4 (Z.land (u32 (le_val l)) (u32 mask))) (n_mem s)) s
  | _ => s
  end.
Definition mask_of (r : ob_registration) (access : Z) : Z := Z.land (u32 access) (u32 (pre r)).

Lemma masks_keeps mask args s : keeps s (masks mask args s).
Proof.
  unfold masks. destruct (read_mem 0x5000 4 (n_mem s)) as [[l|e] m]; [|apply keeps_refl]. split; [reflexivity|]. split; [reflexivity|]. split; [reflexivity|].
  intros a n H. by apply splice_mapped.
Qed.

Lemma masks_decides r object desired : decides masks mask_of object 0x77 1 desired 0 0 0x5000 0x6000 r.
Proof.
  intros s access [Hp _]. split; [apply masks_keeps|]. unfold mask_of.
  assert (forall x, 0 <= u32 x < 2 ^ 32) as Hu by (intros x; apply Z.mod_pos_bound; lia).
  split.
  - replace (Z.land (u32 access) (u32 (pre r))) with (u32 (Z.land access (pre r))); [apply Hu|]. unfold u32. rewrite <- !Z.land_ones by lia.
    apply Z.bits_inj'. intros i Hi. rewrite !Z.land_spec. by destruct (Z.testbit access i), (Z.testbit (pre r) i), (Z.testbit (Z.ones 32) i).
  - unfold masks. apply holds_app in Hp as [Hp _]. pose proof (read_mem_holds (n_mem s) (le_bytes 4 access) 0x5000 ltac:(lia)) as E.
    rewrite length_le_bytes in E. rewrite (E ltac:(vm_compute; discriminate) Hp). cbn [n_mem set_mem]. rewrite le_val_bytes.
    assert (u32 (access mod 256 ^ Z.of_nat 4) = u32 access) as -> by (unfold u32; change (256 ^ Z.of_nat 4) with (2 ^ 32); by rewrite Z.mod_mod by lia).
    apply splice_holds.
Qed.

(** A thread object at 0x200 that two drivers watch: one takes the low bits away, the
    other the high ones. *)
Definition watched (masks : list Z) : nsys :=
  NSys zero_bytes (Table ∅ 4 (Manager {[ 0x200 := host_entry 2 ]} ∅ 4)) {[ 2 := HThread ]} 3
    (map (fun m => ObRegistration 1 0x77 3 m 0 0) masks) [].

Lemma watched_ok l : table_ok (tbl (watched l)).
Proof.
  split; [split; [split; reflexivity|reflexivity]|intros h e H; discriminate H|intros h e H; discriminate H|].
  intros body o hd Ho Hh. cbn in Ho. apply lookup_singleton_Some in Ho as [<- <-]. injection Hh as <-. reflexivity.
Qed.

Lemma zero_block a n : 0 < a -> 0 <= n -> a + n <= 0x10000 -> block zero_bytes a n.
Proof. intros H1 H2 H3. split; [lia|]. split; [lia|]. apply zero_mapped; lia. Qed.

Lemma open_watched_witness :
  (exists s', ObOpenObjectByPointer masks 0x77 0x200 0xFFF 0x7000 0x5000 0x6000 0x5100 0x6100 (watched [0xFF0; 0x0FF]) = (Ok STATUS_SUCCESS, s') /\
     lookup_handle 4 (tbl s') = Some (0x200, 0xF0)) /\
  exists s', ObOpenObjectByPointer masks 0x77 0x200 0xFFF 0x7000 0x5000 0x6000 0x5100 0x6100 (watched [0xF00; 0x00F]) = (Ok STATUS_ACCESS_DENIED, s').
Proof.
  assert (forall l, exists s', ObOpenObjectByPointer masks 0x77 0x200 0xFFF 0x7000 0x5000 0x6000 0x5100 0x6100 (watched l) =
      (Ok (if strip mask_of (matches pre 0x77 1 (ob_registrations (watched l))) 0xFFF =? 0 then STATUS_ACCESS_DENIED else STATUS_SUCCESS), s') /\
      if strip mask_of (matches pre 0x77 1 (ob_registrations (watched l))) 0xFFF =? 0 then tbl s' = tbl (watched l)
      else lookup_handle 4 (tbl s') = Some (0x200, strip mask_of (matches pre 0x77 1 (ob_registrations (watched l))) 0xFFF) /\
        holds (n_mem s') 0x7000 (le_bytes 8 4) /\ forall h' e, lookup_handle h' (tbl (watched l)) = Some e -> lookup_handle h' (tbl s') = Some e) as H.
  { intros l. refine (open_watched masks mask_of 0x77 0x200 0xFFF 0x7000 0x5000 0x6000 0x5100 0x6100 (watched l) _ _ (watched_ok l) _ _ _ _ _ _ _ _ _).
    - reflexivity. - discriminate. - reflexivity.
    - apply zero_block; lia. - apply zero_block; lia. - apply zero_block; lia. - lia. - apply zero_block; lia. - apply zero_block; lia.
    - apply list.Forall_forall. intros r _. apply masks_decides.
    - intros r s. apply masks_keeps. }
  split.
  - destruct (H [0xFF0; 0x0FF]) as (s' & E & Hl & _). exists s'. split; [exact E|exact Hl].
  - destruct (H [0xF00; 0x00F]) as (s' & E & _). exists s'. exact E.
Defined.
