(* ===== verification/Loader.v ===== *)
(** * Loading images

    kernel/map.cpp, kernel/process.cpp and the modules of kernel/process.hpp and
    kernel/win/process.cpp: a file is laid out as it runs, mapped, relocated and
    registered, and what it imports is loaded in turn.  What is in the bytes of an
    image is the business of the pe library ([PeLib]); the space it is mapped into
    is known by [ImageSpace].  [Sections]: the sections of modules/nt_vm_ops.cpp and
    their views. *)

From Stdlib Require Import String.
From stdpp Require Import list gmap.
From S2P Require Import Prelude Mmu Paths Filesystem Objects GuestMem StringOps Ports.
From stdpp Require Import options.

Open Scope Z_scope.
Open Scope kern_scope.

(** ** What the pe library shows of an image *)

Record section : Type := Section_ {
  virtual_address : Z; virtual_size : Z; pointer_to_raw_data : Z; size_of_raw_data : Z;
  mem_write : bool; mem_execute : bool; section_name : str
}.
(** A forwarded export has its target instead of an rva. *)
Record export : Type := Export { export_name : str; export_rva : Z; forwarded : option str }.
Inductive import_by : Type := ByName (name : str) | ByOrdinal (ordinal : Z).
Record import : Type := Import_ { module_name : str; wanted : import_by; iat_slot : Z }.
Record directory : Type := Directory { dir_rva : Z; dir_size : Z }.
Record export_table : Type := ExportTable { base : Z; number_of_functions : Z; address_of_functions : Z }.

(** Every reader takes the bytes of the image. *)
Class PeLib : Type := {
  dos_header_size : nat;
  dos_ok : list Z -> bool;
  size_of_image : list Z -> Z;
  size_of_headers : list Z -> Z;
  base_addr : list Z -> Z;
  entry_point : list Z -> Z;
  sections : list Z -> list section;
  exports_dir : list Z -> option directory;
  export_table_of : list Z -> export_table;
  security_cookie : list Z -> Z;
  dir64_relocs : list Z -> list Z;
  base_field_rva : list Z -> Z;
  pe_exports : list Z -> list export;
  pe_imports : list Z -> list import
}.

(** ** Modules *)

Record proc_module : Type := ProcModule {
  name : str; lookup_name : str; addr : Z; msize : Z; entry : Z; image : list Z; exports : gmap str Z
}.

(** [ascii_lower] of a string. *)
Definition lower (s : str) : str := map GuestMem.ascii_lower s.

Definition dot : Z := 46.
Definition hash_sign : Z := 35.
Definition dll_suffix : str := text ".dll"%string.

(** The address space of the process, and the callback that lists a module for the
    guest. *)
Class ImageSpace (K : Type) : Type := {
  is_mem : K -> gmem;
  is_set : gmem -> K -> K;
  is_alloc : Z -> Z -> st K Z;
  is_prot : Z -> Z -> Z -> st K unit;
  module_add_cb : proc_module -> st K unit
}.

Section Images.
Context {pe : PeLib}.

(** *** The file laid out as it runs *)

(** One [memcpy] of a section: the file bytes at [src_off], as many as there are, if
    they fit. *)
Definition place_section (raw : list Z) (virt_size : Z) (mapped : list Z) (sec : section) : list Z :=
  if (pointer_to_raw_data sec =? 0) || (size_of_raw_data sec =? 0) then mapped else
  let raw_size := Z.of_nat (length raw) in
  let src_off := pointer_to_raw_data sec in
  let sz := Z.min (size_of_raw_data sec) (raw_size -w src_off) in
  if (src_off <? raw_size) && ((virtual_address sec +w sz) <=? virt_size)
  then blit (Z.to_nat (virtual_address sec)) (take (Z.to_nat sz) (drop (Z.to_nat src_off) raw)) mapped
  else mapped.

(** [None] is a header copied past the end of the buffer. *)
Definition pe_virtual_image (raw : list Z) : option (list Z) :=
  if (length raw <? dos_header_size)%nat then Some [] else
  if negb (dos_ok raw) then Some [] else
  let virt_size := size_of_image raw in
  let copy_size := Nat.min (Z.to_nat (size_of_headers raw)) (length raw) in
  if virt_size <? Z.of_nat copy_size then None else
  Some (foldl (place_section raw virt_size) (blit 0 (take copy_size raw) (replicate (Z.to_nat virt_size) 0)) (sections raw)).

(** *** Looking things up in a module *)

Definition find_export (exp_name : str) (m : proc_module) : option Z := exports m !! exp_name.

Definition word_in (l : list Z) (off : Z) : Z := le_val (take 4 (drop (Z.to_nat off) l)).

Definition find_ordinal (ordinal : Z) (m : proc_module) : option Z :=
  match image m with
  | [] => None
  | img =>
      match exports_dir img with
      | None => None
      | Some dir =>
          let exp := export_table_of img in
          if (ordinal <? base exp) || (number_of_functions exp <=? ordinal - base exp) then None else
          let rva := word_in img (address_of_functions exp + 4 * (ordinal - base exp)) in
          if (rva =? 0) || ((dir_rva dir <=? rva) && (rva <? u32 (dir_rva dir + dir_size dir))) then None else Some (addr m +w rva)
      end
  end.

(** The target of the first forwarder of the name. *)
Fixpoint first_forward (exp_name : str) (l : list export) : str :=
  match l with
  | [] => []
  | e :: l => match forwarded e with Some to => if decide (export_name e = exp_name) then to else first_forward exp_name l | None => first_forward exp_name l end
  end.
Definition find_forward (exp_name : str) (m : proc_module) : str :=
  match image m with [] => [] | img => first_forward exp_name (pe_exports img) end.

Definition contains_addr (a : Z) (m : proc_module) : bool := (addr m <=? a) && (a <? (addr m +w msize m)).

(** [forward.find('.')], and what is on either side. *)
Fixpoint split_dot (s : str) : option (str * str) :=
  match s with
  | [] => None
  | c :: s => if c =? dot then Some ([], s) else match split_dot s with Some (a, b) => Some (c :: a, b) | None => None end
  end.

(** [std::from_chars] into 32 bits: the digits at the front, at least one, no more
    than fit. *)
Fixpoint digits (s : str) : list Z :=
  match s with [] => [] | c :: s => if (48 <=? c) && (c <=? 57) then c - 48 :: digits s else [] end.
Definition from_chars (s : str) : option Z :=
  match digits s with
  | [] => None
  | l => let v := foldl (fun v d => 10 * v + d) 0 l in if v <? 2 ^ 32 then Some v else None
  end.

(** The pieces of a section the export directory leaves. *)
Definition watch_ranges (dir : option directory) (sec : section) : list (Z * Z) :=
  let exp_begin := match dir with Some d => dir_rva d | None => 0 end in
  let exp_end := match dir with Some d => u32 (dir_rva d + dir_size d) | None => 0 end in
  let sec_begin := virtual_address sec in
  let sec_end := u32 (virtual_address sec + virtual_size sec) in
  let watch b e := if b <? e then [(b, e)] else [] in
  if (exp_end <=? sec_begin) || (sec_end <=? exp_begin) then watch sec_begin sec_end
  else watch sec_begin (Z.max sec_begin exp_begin) ++ watch (Z.min sec_end exp_end) sec_end.

End Images.

(** ** The process *)

Section Process.
Context {pe : PeLib} {K : Type} {sp : ImageSpace K}.
(** The order in which the hash table of modules is walked. *)
Variable walk : gmap str proc_module -> list (str * proc_module).

(** [watched] are the ranges under [monitor_range], with their names. *)
Record process : Type := Process { kern : K; modules_ : gmap str proc_module; watched : list (Z * Z * str) }.
Abbreviation pst := (st process).
Definition in_space {A} (f : st K A) : pst A := fun s => let '(r, k) := f (kern s) in (r, Process k (modules_ s) (watched s)).
Definition on_mem {A} (f : gst A) : pst A := in_space (fun k => let '(r, m) := f (is_mem k) in (r, is_set m k)).
Definition read64 (a : Z) : pst Z := on_mem (let! l := read_mem a 8 in ret (le_val l)).
Definition write64 (a v : Z) : pst unit := on_mem (write_mem a (le_bytes 8 v)).
Definition monitor_range (a size : Z) (what : str) : pst unit := modify (fun s => Process (kern s) (modules_ s) (watched s ++ [(a, size, what)])).
Definition each {A} (f : A -> pst unit) (l : list A) : pst unit := foldr (fun x rest => f x ;; rest) (ret tt) l.

Definition find_module (n : str) (s : process) : option proc_module := modules_ s !! lower n.
(** The first whose name is the stem, a dot and something. *)
Definition has_stem (stem n : str) : bool := match after_prefix (lower stem) n with Some (c :: _) => c =? dot | _ => false end.
Definition find_module_by_stem (stem : str) (s : process) : option proc_module :=
  match list_find (fun p => has_stem stem p.1) (walk (modules_ s)) with Some (_, (_, m)) => Some m | None => None end.
Definition find_module_by_addr (a : Z) (s : process) : option proc_module :=
  match list_find (fun p => contains_addr a p.2) (walk (modules_ s)) with Some (_, (_, m)) => Some m | None => None end.

(** The exports are filled in once the module is listed; the symbols a debugger
    would use are not those imports resolve by. *)
Definition exports_of (a : Z) (img : list Z) : gmap str Z :=
  foldl (fun m e => match forwarded e with None => <[export_name e := a +w export_rva e]> m | Some _ => m end) ∅ (pe_exports img).
Definition add_module (n : str) (a : Z) (img : list Z) : pst proc_module :=
  let m := ProcModule n (lower n) a (u32 (size_of_image img)) (a +w entry_point img) (take (Z.to_nat (size_of_image img)) img) ∅ in
  in_space (module_add_cb m) ;;
  let m := ProcModule n (lower n) a (msize m) (entry m) (image m) (exports_of a img) in
  modify (fun s => Process (kern s) (<[lookup_name m := m]> (modules_ s)) (watched s)) ;;
  ret m.

(** *** Resolving, over a way to load a module *)

Section Resolving.
Variable load_module : str -> bool -> pst (option proc_module).

(** [resolve_module_name] is the name itself in a process whose imports are
    resolved here. *)
Definition find_or_load (n : str) (supervisor : bool) : pst (option proc_module) :=
  let! s := get in
  match find_module n s with Some m => ret (Some m) | None => load_module n supervisor end.

(** [deeper]: 8 less the depth. *)
Fixpoint resolve_export (deeper : nat) (m : proc_module) (sym : str) (supervisor : bool) : pst (option Z) :=
  match find_export sym m with
  | Some a => ret (Some a)
  | None =>
      match find_forward sym m with
      | [] => ret None
      | forward =>
          match deeper with
          | O => ret None
          | S deeper =>
              match split_dot forward with
              | None => ret None
              | Some (target_mod, target_sym) =>
                  let! s := get in
                  let! target := (match find_module_by_stem target_mod s with
                                  | Some t => ret (Some t)
                                  | None => find_or_load (target_mod ++ dll_suffix) supervisor
                                  end) in
                  match target with
                  | None => ret None
                  | Some target =>
                      match target_sym with
                      | c :: number => if c =? hash_sign then ret (match from_chars number with Some ordinal => find_ordinal ordinal target | None => None end)
                                       else resolve_export deeper target target_sym supervisor
                      | [] => resolve_export deeper target target_sym supervisor
                      end
                  end
              end
          end
      end
  end.

Definition resolve_import (imp : import) (dep : proc_module) (supervisor : bool) : pst (option Z) :=
  match wanted imp with
  | ByOrdinal ordinal => ret (find_ordinal ordinal dep)
  | ByName sym => resolve_export 8 dep sym supervisor
  end.

(** Whether every import found its address. *)
Fixpoint bind_imports (a : Z) (imports : list import) (supervisor : bool) : pst bool :=
  match imports with
  | [] => ret true
  | imp :: imports =>
      let! dep := find_or_load (module_name imp) supervisor in
      match dep with
      | None => ret false
      | Some dep =>
          let! import_addr := resolve_import imp dep supervisor in
          match import_addr with
          | None => ret false
          | Some v => write64 (a +w iat_slot imp) v ;; bind_imports a imports supervisor
          end
      end
  end.

Definition protect_section (n : str) (a : Z) (img : list Z) (flags : Z) (skip_imports : bool) (sec : section) : pst unit :=
  let sec_flags := Z.lor (Z.lor flags (if mem_write sec then prot_write else 0)) (if mem_execute sec then prot_exec else 0) in
  in_space (is_prot (a +w virtual_address sec) (virtual_size sec) sec_flags) ;;
  if negb skip_imports || mem_execute sec || (virtual_size sec =? 0) then ret tt else
  each (fun r => monitor_range (a +w r.1) (r.2 - r.1) (n ++ section_name sec)) (watch_ranges (exports_dir img) sec).

(** Adding [delta] to the 64 bits at an rva. *)
Definition rebase (a delta rva : Z) : pst unit := let! v := read64 (a +w rva) in write64 (a +w rva) (v +w delta).

(** Everything up to the registration. *)
Definition relocate (a : Z) (img : list Z) : pst unit :=
  let delta := a -w base_addr img in
  (if security_cookie img =? 0 then ret tt else rebase a delta (security_cookie img -w base_addr img)) ;;
  each (rebase a delta) (dir64_relocs img) ;;
  write64 (a +w base_field_rva img) a.

Definition map_laid_out (n : str) (img : list Z) (supervisor skip_imports : bool) : pst (option proc_module) :=
  let flags := if supervisor then Z.lor prot_read prot_supervisor else prot_read in
  let size := size_of_image img in
  let! a := in_space (is_alloc size flags) in
  if a =? 0 then ret None else
  (if (length img <? Z.to_nat size)%nat then throw null_host else on_mem (write_mem a (take (Z.to_nat size) img))) ;;
  each (protect_section n a img flags skip_imports) (sections img) ;;
  relocate a img ;;
  let! m := add_module n a img in
  if skip_imports then ret (Some m) else
  let! bound := bind_imports a (pe_imports img) supervisor in
  ret (if bound then Some m else None).

Definition map_img (n : str) (raw : list Z) (supervisor skip_imports : bool) : pst (option proc_module) :=
  match pe_virtual_image raw with
  | None => throw null_host
  | Some [] => ret None
  | Some img => map_laid_out n img supervisor skip_imports
  end.

End Resolving.

(** *** Loading *)

Section Loading.
(** Files as they are while images load. *)
Variable fs : filesystem.

Definition system32_dir : str := text "C:\Windows\System32\"%string.
Definition drivers_subdir : str := text "drivers/"%string.
Definition root_dir : str := text "C:\"%string.
Definition file_data (path : str) : option (list Z) := open path fs ≫= fun r => Some (default [] (contents fs !! r)).
Definition first_of (x y : option (list Z)) : option (list Z) := match x with Some _ => x | None => y end.

Definition open_system_image (n : str) : option (list Z) := first_of (file_data (system32_dir ++ n)) (file_data (system32_dir ++ drivers_subdir ++ n)).

(** [win_kernel_proc::load_module]; [fuel] is how deep modules load modules. *)
Fixpoint load_module (fuel : nat) (n : str) (supervisor : bool) : pst (option proc_module) :=
  match fuel with
  | O => throw out_of_fuel
  | S fuel => match open_system_image n with None => ret None | Some raw => map_img (load_module fuel) n raw supervisor false end
  end.

(** [win_user_proc::load_module]: a user image resolves its own imports. *)
Definition load_user_module (current_dir n : str) (supervisor : bool) : pst (option proc_module) :=
  match first_of (file_data (current_dir ++ n)) (first_of (open_system_image n) (file_data (root_dir ++ n))) with
  | None => ret None
  | Some raw => map_img (fun _ _ => throw out_of_fuel) n raw supervisor true
  end.

End Loading.
End Process.
Arguments process : clear implicits.

(** ** Sections and their views

    The section entry points of modules/nt_vm_ops.cpp. *)

Module Sections.

Definition STATUS_IMAGE_NOT_AT_BASE : Z := 0x40000003.
Definition STATUS_INVALID_INFO_CLASS : Z := 0xC0000003.
Definition STATUS_INFO_LENGTH_MISMATCH : Z := 0xC0000004.
Definition STATUS_INVALID_HANDLE : Z := 0xC0000008.
Definition STATUS_INVALID_FILE_FOR_SECTION : Z := 0xC0000020.
Definition STATUS_OBJECT_NAME_NOT_FOUND : Z := 0xC0000034.
Definition STATUS_PRIVILEGE_NOT_HELD : Z := 0xC0000061.
Definition STATUS_INVALID_IMAGE_FORMAT : Z := 0xC000007B.
Definition STATUS_INSUFFICIENT_RESOURCES : Z := 0xC000009A.
Definition STATUS_MAPPED_FILE_SIZE_ZERO : Z := 0xC000011E.

Definition section_basic_information : Z := 0.
Definition section_basic_information_size : Z := 0x18.
Definition shared_section_name : str := text "\Windows\SharedSection"%string.
Definition shared_section_size : Z := 0x10000.
Definition physical_memory_key : str := text "/device/physicalmemory"%string.
Definition known_dlls_dir : str := text "c:/windows/system32/"%string.
Definition sec_image : Z := 0x01000000.
Definition section_body_size : nat := 0x40.
Definition section_body_size_offset : nat := 0x30.
Definition current_process_handle : Z := 2 ^ 64 - 1.
Definition is_current_process (handle : Z) : bool := (handle =? 0) || (handle =? current_process_handle).

(** [file] is the shared file of [Filesystem], null for a section of the pagefile. *)
Record section_host : Type := SectionHost { file : option nat; path : str; size : Z; is_image : bool }.
Inductive shost : Type := HFile (file : option nat) (path : str) | HSection (h : section_host) | HOther.

(** Where views go: pages of the process for a user, else of the space; and who is
    told of images. *)
Class ViewSpace (K : Type) : Type := {
  vs_alloc : Z -> Z -> bool -> st K Z;
  vs_unmap : Z -> Z -> st K unit;
  vs_register_image : Z -> Z -> st K unit;
  vs_notify_image : Z -> Z -> str -> st K unit
}.

(** The last component of a path, after a slash of either kind. *)
Fixpoint leaf (s : str) : str :=
  match s with
  | [] => []
  | c :: s' => if existsb (fun c => (c =? slash) || (c =? backslash)) s' then leaf s' else if (c =? slash) || (c =? backslash) then s' else s
  end.
Definition ends_with (suffix s : str) : bool := bool_decide (drop (length s - length suffix) s = suffix).

Section Sections.
Context {pe : PeLib} {K : Type} {sp : ImageSpace K} {vs : ViewSpace K}.

Record ssys : Type := SSys { kern : K; fs : filesystem; tbl : table; hosts : gmap Z shost; fresh_host : Z; views : gmap Z Z }.
Abbreviation sst := (st ssys).
Definition in_space {A} (f : st K A) : sst A := fun s => let '(r, k) := f (kern s) in (r, SSys k (fs s) (tbl s) (hosts s) (fresh_host s) (views s)).
Definition on_mem {A} (f : gst A) : sst A := in_space (fun k => let '(r, m) := f (is_mem k) in (r, is_set m k)).
Definition read_word (w : nat) (a : Z) : sst Z := on_mem (let! l := read_mem a w in ret (le_val l)).
Definition write_word (w : nat) (a v : Z) : sst unit := on_mem (write_mem a (le_bytes w v)).
Definition optional (a : Z) (f : sst unit) : sst unit := if a =? 0 then ret tt else f.
Definition set_tbl t (s : ssys) : ssys := SSys (kern s) (fs s) t (hosts s) (fresh_host s) (views s).
Definition set_views v (s : ssys) : ssys := SSys (kern s) (fs s) (tbl s) (hosts s) (fresh_host s) v.
Definition host_of (handle : Z) (s : ssys) : option shost := get_object_of handle (tbl s) ≫= fun r => hosts s !! r.
Definition section_of (handle : Z) (s : ssys) : option section_host := match host_of handle s with Some (HSection h) => Some h | _ => None end.
Definition data (f : nat) (s : ssys) : list Z := default [] (contents (fs s) !! f).
Definition file_size (f : nat) (s : ssys) : Z := Z.of_nat (length (data f s)).

(** The object with its body, and a handle on it; 0 when there is no object. *)
Definition section_body (n : Z) : list Z := blit section_body_size_offset (le_bytes 8 n) (replicate section_body_size 0).
Definition new_section (h : section_host) (desired_access base : Z) : sst Z := fun s =>
  let '(addr, m) := create_object base 0 (Some (fresh_host s)) (objs_ (tbl s)) in
  (on_mem (write_mem addr (section_body (size h))) ;;
   modify (fun s => SSys (kern s) (fs s) (on_objs (fun _ => m) (tbl s)) (<[fresh_host s := HSection h]> (hosts s)) (fresh_host s + 1) (views s)) ;;
   if addr =? 0 then ret 0 else
   let! s := get in
   let '(handle, t) := create_handle addr desired_access (tbl s) in
   modify (set_tbl t) ;; ret handle) s.

Definition NtCreateSection (section_handle desired_access object_attributes maximum_size allocation_attributes file_handle base : Z) : sst Z :=
  if section_handle =? 0 then ret STATUS_INVALID_PARAMETER else
  on_mem (Ports.attribute_name object_attributes) ;;
  let! max_size := (if maximum_size =? 0 then ret 0 else let! v := read_word 8 maximum_size in ret (s64 v)) in
  let! s := get in
  let is_image := negb (Z.land allocation_attributes sec_image =? 0) in
  match (if file_handle =? 0 then Some (None, []) else match host_of file_handle s with Some (HFile f p) => Some (f, p) | _ => None end) with
  | None => ret STATUS_INVALID_HANDLE
  | Some (Some f, p) =>
      if file_size f s =? 0 then ret STATUS_MAPPED_FILE_SIZE_ZERO else
      let! handle := new_section (SectionHost (Some f) p (file_size f s) is_image) desired_access base in
      if handle =? 0 then ret STATUS_INSUFFICIENT_RESOURCES else
      write_word 8 section_handle handle ;; ret STATUS_SUCCESS
  | Some (None, p) =>
      if max_size <=? 0 then ret STATUS_INVALID_PARAMETER else
      let! handle := new_section (SectionHost None p max_size is_image) desired_access base in
      if handle =? 0 then ret STATUS_INSUFFICIENT_RESOURCES else
      write_word 8 section_handle handle ;; ret STATUS_SUCCESS
  end.

(** A bare name of a DLL is a file of system32. *)
Definition known_dll (name : str) (s : ssys) : option (str * nat) :=
  let lower := map tolower (leaf name) in
  if (length dll_suffix <? length lower)%nat && ends_with dll_suffix lower
  then let p := known_dlls_dir ++ lower in (p,.) <$> open p (fs s) else None.

Definition NtOpenSection (section_handle desired_access object_attributes base : Z) : sst Z :=
  optional section_handle (write_word 8 section_handle 0) ;;
  let! name := on_mem (Ports.attribute_name object_attributes) in
  let! s := get in
  if decide (name = shared_section_name) then
    let! handle := new_section (SectionHost None name shared_section_size false) desired_access base in
    if handle =? 0 then ret STATUS_INSUFFICIENT_RESOURCES else
    optional section_handle (write_word 8 section_handle handle) ;; ret STATUS_SUCCESS
  else if decide (normalize name = physical_memory_key) then ret STATUS_PRIVILEGE_NOT_HELD
  else
    let addr := lookup_named_object (normalize name) (objs_ (tbl s)) in
    match (if addr =? 0 then None else get_object addr (objs_ (tbl s)) ≫= fun r => hosts s !! r) with
    | Some (HSection _) =>
        let '(handle, t) := create_handle addr desired_access (tbl s) in
        modify (set_tbl t) ;; optional section_handle (write_word 8 section_handle handle) ;; ret STATUS_SUCCESS
    | _ =>
        match known_dll name s with
        | Some (p, f) =>
            let! handle := new_section (SectionHost (Some f) p (file_size f s) true) desired_access base in
            if handle =? 0 then ret STATUS_OBJECT_NAME_NOT_FOUND else
            optional section_handle (write_word 8 section_handle handle) ;; ret STATUS_SUCCESS
        | None => ret STATUS_OBJECT_NAME_NOT_FOUND
        end
    end.

Definition basic_information (h : section_host) : list Z :=
  le_bytes 8 0 ++ le_bytes 4 (if is_image h then sec_image else 0) ++ le_bytes 4 0 ++ le_bytes 8 (size h).

Definition NtQuerySection (section_handle section_information_class section_information section_information_length return_length : Z) : sst Z :=
  let! s := get in
  match section_of section_handle s with
  | None => ret STATUS_INVALID_HANDLE
  | Some h =>
      if negb (section_information_class =? section_basic_information) then ret STATUS_INVALID_INFO_CLASS else
      optional return_length (write_word 8 return_length section_basic_information_size) ;;
      if section_information_length <? section_basic_information_size then ret STATUS_INFO_LENGTH_MISMATCH else
      on_mem (write_mem section_information (basic_information h)) ;; ret STATUS_SUCCESS
  end.

(** The pages, what is copied into them, and what is reported; [preferred] is 0 but for
    an image. *)
Definition place_view (base_address view_size win32_protect len : Z) (h : section_host) (copied : list Z) (preferred : Z) : sst Z :=
  let! base := in_space (vs_alloc len win32_protect (is_image h)) in
  if base =? 0 then ret STATUS_INSUFFICIENT_RESOURCES else
  (match copied with [] => ret tt | _ => on_mem (write_mem base copied) end) ;;
  (if is_image h then in_space (vs_register_image base len) else ret tt) ;;
  optional base_address (write_word 8 base_address base) ;;
  optional view_size (write_word 8 view_size len) ;;
  modify (fun s => set_views (<[base := len]> (views s)) s) ;;
  (if is_image h then in_space (vs_notify_image base len (leaf (path h))) else ret tt) ;;
  ret (if negb (preferred =? 0) && negb (base =? preferred) then STATUS_IMAGE_NOT_AT_BASE else STATUS_SUCCESS).

Definition NtMapViewOfSection (section_handle process_handle base_address section_offset view_size win32_protect : Z) : sst Z :=
  if negb (is_current_process process_handle) then ret STATUS_INVALID_HANDLE else
  let! s := get in
  match section_of section_handle s with
  | None => ret STATUS_INVALID_HANDLE
  | Some h =>
      let! offset := (if section_offset =? 0 then ret 0 else read_word 8 section_offset) in
      if size h <=? offset then ret STATUS_INVALID_PARAMETER else
      let! wanted := (if view_size =? 0 then ret 0 else read_word 8 view_size) in
      let len := Z.min (if wanted =? 0 then size h - offset else wanted) (size h - offset) in
      if is_image h then
        match file h with
        | None => ret STATUS_INVALID_FILE_FOR_SECTION
        | Some f =>
            match pe_virtual_image (data f s) with
            | None => throw null_host
            | Some [] => ret STATUS_INVALID_IMAGE_FORMAT
            | Some img =>
                if negb (offset =? 0) then ret STATUS_INVALID_PARAMETER else
                place_view base_address view_size win32_protect (Z.of_nat (length img)) h img (base_addr img)
            end
        end
      else place_view base_address view_size win32_protect len h (match file h with Some f => take (Z.to_nat len) (drop (Z.to_nat offset) (data f s)) | None => [] end) 0
  end.

Definition NtUnmapViewOfSection (process_handle base_address : Z) : sst Z :=
  if negb (is_current_process process_handle) then ret STATUS_INVALID_HANDLE else
  let! s := get in
  match views s !! base_address with
  | None => ret STATUS_INVALID_PARAMETER
  | Some n => in_space (vs_unmap base_address n) ;; modify (fun s => set_views (delete base_address (views s)) s) ;; ret STATUS_SUCCESS
  end.

End Sections.
Arguments ssys : clear implicits.
End Sections.
