(* ===== verification/LoaderThm.v ===== *)
(** * Loading an image and all it needs

    Relocation in guest memory is relocation of the bytes of the image.  Loading ends,
    though images import each other and forward to each other.  When it succeeds,
    every module it brought in has the address of each import in its slot, and what
    was in memory and in the list of modules is still there.
    A view of a section shows its file, and unmapping it gives memory back. *)

From stdpp Require Import list gmap.
From S2P Require Import Prelude Mmu Paths Filesystem Objects GuestMem StringOps Loader.
From stdpp Require Import options.

Open Scope Z_scope.
Open Scope kern_scope.

(** ** What the address space promises *)

(** Bytes that are not the loader's own stay. *)
Definition keeps (private : Z -> Prop) (m m' : gmem) : Prop := forall x b, ~ private x -> m x = Some b -> m' x = Some b.

Class ImageSpaceLaws (K : Type) `{!ImageSpace K} : Type := {
  is_private : Z -> Prop;
  is_get_set : forall m k, is_mem (is_set m k) = m;
  is_set_get : forall k, is_set (is_mem k) k = k;
  is_alloc_ok : forall n flags k a k', is_alloc n flags k = (Ok a, k') ->
    keeps is_private (is_mem k) (is_mem k') /\
    (a <> 0 -> 0 < a /\ a + n <= 2 ^ 64 /\ forall x, a <= x < a + n -> is_Some (is_mem k' x) /\ is_mem k x = None /\ ~ is_private x);
  is_prot_ok : forall a n flags k k', is_prot a n flags k = (Ok tt, k') -> keeps is_private (is_mem k) (is_mem k');
  module_add_ok : forall m k k', module_add_cb m k = (Ok tt, k') -> keeps is_private (is_mem k) (is_mem k');
  is_alloc_ends : forall n flags k, fst (is_alloc n flags k) <> Throw out_of_fuel;
  is_prot_ends : forall a n flags k, fst (is_prot a n flags k) <> Throw out_of_fuel;
  module_add_ends : forall m k, fst (module_add_cb m k) <> Throw out_of_fuel
}.

Lemma public_kept P m1 m2 m3 : keeps P m1 m2 -> keeps P m2 m3 -> keeps P m1 m3.
Proof. intros H1 H2 x b Hx E. by apply H2, H1. Qed.

Lemma names_shrink (U D : gset str) n : n ∈ U -> n ∉ D -> (size (U ∖ ({[n]} ∪ D)) < size (U ∖ D))%nat.
Proof. intros H1 H2. apply subset_size. split; [set_solver|]. intros Hs. specialize (Hs n). set_solver. Qed.

Lemma names_less (U D : gset str) : (size (U ∖ D) <= size U)%nat.
Proof. apply subseteq_size. set_solver. Qed.
Lemma elem_flat_map {A B} (f : A -> list B) l x y : y ∈ l -> x ∈ f y -> x ∈ flat_map f l.
Proof. intros Hy Hx. induction Hy as [y l|y z l _ IH]; cbn; apply elem_of_app; auto. Qed.

(** ** Relocation of bytes *)

Section Bytes.
Context {pe : PeLib}.

Definition rebase_bytes (delta rva : Z) (l : list Z) : list Z :=
  blit (Z.to_nat rva) (le_bytes 8 (le_val (take 8 (drop (Z.to_nat rva) l)) +w delta)) l.
(** The image [img] as it is at [a]. *)
Definition relocated (a : Z) (img : list Z) : list Z :=
  let delta := a -w base_addr img in
  let l := if security_cookie img =? 0 then img else rebase_bytes delta (security_cookie img -w base_addr img) img in
  blit (Z.to_nat (base_field_rva img)) (le_bytes 8 a) (foldl (fun l rva => rebase_bytes delta rva l) l (dir64_relocs img)).

Definition inside (n rva : Z) : Prop := 0 <= rva /\ rva + 8 <= n.
Fixpoint apart (l : list Z) : Prop := match l with [] => True | x :: l => Forall (fun y => x + 8 <= y \/ y + 8 <= x) l /\ apart l end.
(** Everything the loader writes is in the image, each import slot apart. *)
Record image_ok (img : list Z) : Prop := {
  size_ok : size_of_image img = Z.of_nat (length img);
  cookie_in : security_cookie img <> 0 -> inside (Z.of_nat (length img)) (security_cookie img -w base_addr img);
  relocs_in : Forall (inside (Z.of_nat (length img))) (dir64_relocs img);
  field_in : inside (Z.of_nat (length img)) (base_field_rva img);
  slots_in : Forall (inside (Z.of_nat (length img))) (iat_slot <$> pe_imports img);
  slots_apart : apart (iat_slot <$> pe_imports img)
}.

Lemma length_rebase delta rva l : inside (Z.of_nat (length l)) rva -> length (rebase_bytes delta rva l) = length l.
Proof. intros [H1 H2]. unfold rebase_bytes. apply length_blit. rewrite length_le_bytes. lia. Qed.

(** What is watched of a section is what the export directory does not cover. *)
Lemma watched_bytes dir sec x : 0 <= virtual_address sec -> 0 <= virtual_size sec -> virtual_address sec + virtual_size sec < 2 ^ 32 ->
  (forall d, dir = Some d -> 0 <= dir_rva d /\ 0 <= dir_size d /\ dir_rva d + dir_size d < 2 ^ 32) ->
  (exists r, r ∈ watch_ranges dir sec /\ r.1 <= x < r.2) <->
  virtual_address sec <= x < virtual_address sec + virtual_size sec /\ ~ exists d, dir = Some d /\ dir_rva d <= x < dir_rva d + dir_size d.
Proof.
  intros H1 H2 H3 Hd. unfold watch_ranges, u32. rewrite (Z.mod_small (virtual_address sec + _)) by lia.
  assert (exists b e, match dir with Some d => dir_rva d | None => 0 end = b /\ match dir with Some d => (dir_rva d + dir_size d) mod 2 ^ 32 | None => 0 end = e /\ 0 <= b <= e /\
    ((exists d, dir = Some d /\ dir_rva d <= x < dir_rva d + dir_size d) <-> b <= x < e)) as (b & e & -> & -> & Hbe & ->).
  { destruct dir as [d|]; [|exists 0, 0; split; [done|]; split; [done|]; split; [lia|]; split; [by intros (d & ? & _)|lia]]. destruct (Hd d eq_refl) as (? & ? & ?). rewrite Z.mod_small by lia. do 2 eexists. split; [done|]. split; [done|].
    split; [lia|]. split; [by intros (d' & [= <-] & ?)|eauto]. }
  set (sb := virtual_address sec) in *. set (se := sb + virtual_size sec) in *.
  assert (forall lo hi (P : Prop), (exists r, r ∈ (if lo <? hi then [(lo, hi)] else []) /\ r.1 <= x < r.2) <-> lo <= x < hi) as Hw.
  { intros lo hi _. destruct (Z.ltb_spec lo hi); [|split; [intros (r & Hr & _); by apply not_elem_of_nil in Hr|lia]]. split; [intros (r & Hr & ?); by apply list_elem_of_singleton in Hr as ->|]. intros ?. exists (lo, hi). split; [apply list_elem_of_here|done]. }
  destruct (Z.leb_spec e sb), (Z.leb_spec se b); cbn [orb]; [rewrite (Hw _ _ True); lia..|].
  setoid_rewrite elem_of_app. split.
  - intros (r & [Hr|Hr] & Hx).
    + assert (sb <= x < Z.max sb b) by (apply (Hw _ _ True); eauto). lia.
    + assert (Z.min se e <= x < se) by (apply (Hw _ _ True); eauto). lia.
  - intros [Hx Hn]. destruct (decide (x < b)) as [Hlt|Hge].
    + destruct (proj2 (Hw sb (Z.max sb b) True)) as (r & Hr & ?); [lia|]. eauto.
    + destruct (proj2 (Hw (Z.min se e) se True)) as (r & Hr & ?); [lia|]. eauto.
Qed.

(** A file is laid out in the size its header gives. *)
Lemma laid_out_length raw img : (forall sec, sec ∈ sections raw -> 0 <= virtual_address sec < 2 ^ 32 /\ 0 <= size_of_raw_data sec < 2 ^ 32 /\ 0 <= pointer_to_raw_data sec) -> Z.of_nat (length raw) < 2 ^ 63 ->
  0 <= size_of_image raw -> pe_virtual_image raw = Some img -> img = [] \/ length img = Z.to_nat (size_of_image raw).
Proof.
  intros Hsec Hraw Hs. unfold pe_virtual_image. destruct (_ <? _)%nat; [by intros [= <-]; left|]. destruct (negb _); [by intros [= <-]; left|]. destruct (Z.ltb_spec (size_of_image raw) (Z.of_nat (Nat.min (Z.to_nat (size_of_headers raw)) (length raw)))) as [|Hc]; [done|].
  intros [= <-]. right. set (head := blit _ _ _). assert (length head = Z.to_nat (size_of_image raw)) as Hl by (unfold head; rewrite length_blit; rewrite ?length_replicate, ?length_take; lia).
  clearbody head. revert head Hl Hsec. induction (sections raw) as [|sec secs IH]; intros head Hl Hsec; [done|]. cbn [foldl]. apply IH; [|intros sec' Hin; by apply Hsec, list_elem_of_further].
  unfold place_section. destruct (_ || _); [done|]. destruct (Hsec sec (list_elem_of_here _ _)) as (Hv & Hz & Hp). destruct (Z.ltb_spec (pointer_to_raw_data sec) (Z.of_nat (length raw))) as [Hlt|]; [|done].
  rewrite (u64_small (Z.of_nat (length raw) - pointer_to_raw_data sec)) by (unfold in_u64; lia). rewrite u64_small by (unfold in_u64; lia). destruct (Z.leb_spec (virtual_address sec + Z.min (size_of_raw_data sec) (Z.of_nat (length raw) - pointer_to_raw_data sec)) (size_of_image raw)); [|done].
  cbn [andb]. rewrite length_blit; [done|]. rewrite length_take, length_drop. lia.
Qed.
End Bytes.

Lemma splice_blit m m' a off src l : holds m a l -> (off + length src <= length l)%nat -> same m' (splice (a + Z.of_nat off) src m) -> holds m' a (blit off src l).
Proof.
  intros Hm Hl Hs i b Hi. rewrite lookup_blit in Hi by done. rewrite Hs. destruct (decide _) as [Hd|Hd].
  - rewrite splice_in by lia. rewrite <- Hi. f_equal. lia.
  - rewrite splice_out by lia. by apply Hm.
Qed.
Lemma holds_part m a l off n : holds m a l -> holds m (a + Z.of_nat off) (take n (drop off l)).
Proof.
  intros H i b Hi. apply lookup_take_Some in Hi as [Hi _]. rewrite lookup_drop in Hi. replace (a + Z.of_nat off + Z.of_nat i) with (a + Z.of_nat (off + i)) by lia. by apply H.
Qed.
Lemma held_mapped m a l : holds m a l -> mapped m a (Z.of_nat (length l)).
Proof.
  intros H x Hx. destruct (lookup_lt_is_Some_2 l (Z.to_nat (x - a)) ltac:(lia)) as [b Hb]. exists b. rewrite <- (H _ _ Hb). f_equal. lia.
Qed.

Section Space.
Context {pe : PeLib} {K : Type} {sp : ImageSpace K} {laws : ImageSpaceLaws K}.
Abbreviation pst := (st (process K)).
Implicit Types (s : process K).

Definition mem_of s : gmem := is_mem (kern s).
(** Only the bytes of a block changed. *)
Definition rewrote (a n : Z) s s' : Prop := modules_ s' = modules_ s /\ forall x, ~ a <= x < a + n -> mem_of s' x = mem_of s x.
Lemma rewrote_refl a n s : rewrote a n s s.
Proof. done. Qed.
Lemma rewrote_trans a n s1 s2 s3 : rewrote a n s1 s2 -> rewrote a n s2 s3 -> rewrote a n s1 s3.
Proof. intros [H1 H2] [H3 H4]. split; [congruence|]. intros x Hx. by rewrite H4, H2. Qed.

Lemma write64_ok x v s : 0 <= x -> x + 8 <= 2 ^ 64 -> mapped (mem_of s) x 8 ->
  exists s', write64 x v s = (Ok tt, s') /\ modules_ s' = modules_ s /\ same (mem_of s') (splice x (le_bytes 8 v) (mem_of s)).
Proof using laws.
  intros H1 H2 H3. destruct (write_mem_mapped (le_bytes 8 v) x (mem_of s)) as (m & E & Hm); [done|by rewrite length_le_bytes|by rewrite length_le_bytes|].
  eexists. split; [unfold write64, on_mem, in_space; unfold mem_of in E; by rewrite E|]. split; [done|]. unfold mem_of. cbn. by rewrite is_get_set.
Qed.
Lemma read64_ok x l s : 0 <= x -> x + 8 <= 2 ^ 64 -> length l = 8%nat -> holds (mem_of s) x l -> read64 x s = (Ok (le_val l), s).
Proof using laws.
  intros H1 H2 Hl H. pose proof (read_mem_holds (mem_of s) l x H1) as E. rewrite Hl in E. specialize (E H2 H).
  unfold read64, on_mem, in_space. unfold mem_of in E. rewrite (bind_ok _ _ _ _ _ E). cbn. rewrite is_set_get. by destruct s.
Qed.

Lemma write64_in a v rva l s : 0 < a -> a + Z.of_nat (length l) <= 2 ^ 64 -> inside (Z.of_nat (length l)) rva -> holds (mem_of s) a l ->
  exists s', write64 (a +w rva) v s = (Ok tt, s') /\ rewrote (a + rva) 8 s s' /\ holds (mem_of s') a (blit (Z.to_nat rva) (le_bytes 8 v) l).
Proof using laws.
  intros Ha Hn [H1 H2] Hl. rewrite u64_small by (unfold in_u64; lia).
  destruct (write64_ok (a + rva) v s) as (s' & E & Em & Hs); [lia|lia|intros x Hx; apply (held_mapped _ _ _ Hl); lia|]. exists s'. split; [done|]. split.
  - split; [done|]. intros x Hx. rewrite Hs. apply splice_out. by rewrite length_le_bytes.
  - apply (splice_blit (mem_of s)); [done|rewrite length_le_bytes; lia|]. by rewrite Z2Nat.id.
Qed.
Lemma rewrote_in a n off s s' : inside n off -> rewrote (a + off) 8 s s' -> rewrote a n s s'.
Proof. intros [H1 H2] [H3 H4]. split; [done|]. intros x Hx. apply H4. lia. Qed.

Lemma rebase_ok a delta rva l s : 0 < a -> a + Z.of_nat (length l) <= 2 ^ 64 -> inside (Z.of_nat (length l)) rva -> holds (mem_of s) a l ->
  exists s', rebase a delta rva s = (Ok tt, s') /\ rewrote a (Z.of_nat (length l)) s s' /\ holds (mem_of s') a (rebase_bytes delta rva l).
Proof using laws.
  intros Ha Hn Hin Hl. pose proof Hin as [H1 H2]. unfold rebase. pose proof (holds_part _ _ _ (Z.to_nat rva) 8 Hl) as Hp. rewrite Z2Nat.id in Hp by done.
  rewrite (bind_ok _ _ s (le_val (take 8 (drop (Z.to_nat rva) l))) s).
  - destruct (write64_in a (le_val (take 8 (drop (Z.to_nat rva) l)) +w delta) rva l s Ha Hn Hin Hl) as (s' & E & Hr & H). exists s'. split; [done|]. split; [by eapply rewrote_in|done].
  - rewrite u64_small by (unfold in_u64; lia). apply read64_ok; [lia|lia|rewrite length_take, length_drop; lia|done].
Qed.
Lemma rebases_ok a delta rvas : forall l s, 0 < a -> a + Z.of_nat (length l) <= 2 ^ 64 -> Forall (inside (Z.of_nat (length l))) rvas -> holds (mem_of s) a l ->
  exists s', each (rebase a delta) rvas s = (Ok tt, s') /\ rewrote a (Z.of_nat (length l)) s s' /\
    holds (mem_of s') a (foldl (fun l rva => rebase_bytes delta rva l) l rvas) /\ length (foldl (fun l rva => rebase_bytes delta rva l) l rvas) = length l.
Proof using laws.
  induction rvas as [|rva rvas IH]; intros l s Ha Hn Hin Hl; [by exists s|]. apply list.Forall_cons in Hin as [H1 H2]. cbn [each foldr foldl].
  destruct (rebase_ok a delta rva l s Ha Hn H1 Hl) as (s1 & E1 & R1 & L1). rewrite (bind_ok _ _ _ _ _ E1). pose proof (length_rebase delta rva l H1) as Hlen. rewrite <- Hlen in Hn, H2.
  destruct (IH _ s1 Ha Hn H2 L1) as (s2 & E2 & R2 & L2 & N2). exists s2. rewrite Hlen in R2, N2. split; [exact E2|]. by split; [eapply rewrote_trans|].
Qed.

(** In guest memory, and in the bytes. *)
Lemma relocate_ok a img s : 0 < a -> a + Z.of_nat (length img) <= 2 ^ 64 -> image_ok img -> holds (mem_of s) a img ->
  exists s', relocate a img s = (Ok tt, s') /\ rewrote a (Z.of_nat (length img)) s s' /\ holds (mem_of s') a (relocated a img) /\ length (relocated a img) = length img.
Proof using laws.
  intros Ha Hn [Hsz Hc Hr Hf _ _] Hl. unfold relocate, relocated. set (delta := a -w base_addr img).
  assert (exists s1 l1, (if security_cookie img =? 0 then ret tt else rebase a delta (security_cookie img -w base_addr img)) s = (Ok tt, s1) /\
    l1 = (if security_cookie img =? 0 then img else rebase_bytes delta (security_cookie img -w base_addr img) img) /\
    rewrote a (Z.of_nat (length img)) s s1 /\ holds (mem_of s1) a l1 /\ length l1 = length img) as (s1 & l1 & E1 & <- & R1 & L1 & N1).
  { destruct (Z.eqb_spec (security_cookie img) 0) as [|Hz]; [by exists s, img|]. destruct (rebase_ok a delta _ img s Ha Hn (Hc Hz) Hl) as (s1 & E & R & L).
    eexists s1, _. split; [done|]. split; [done|]. split; [done|]. split; [done|]. by apply length_rebase, Hc. }
  rewrite (bind_ok _ _ _ _ _ E1). rewrite <- N1 in Hr, Hf, Hn. destruct (rebases_ok a delta (dir64_relocs img) l1 s1 Ha Hn Hr L1) as (s2 & E2 & R2 & L2 & N2). rewrite (bind_ok _ _ _ _ _ E2).
  rewrite <- N2 in Hf, Hn. destruct (write64_in a a (base_field_rva img) _ s2 Ha Hn Hf L2) as (s3 & E3 & R3 & L3). exists s3. split; [done|].
  rewrite N1 in R2. rewrite N2, N1 in Hf. pose proof (rewrote_in _ _ _ _ _ Hf R3) as R3'. split; [by do 2 (eapply rewrote_trans; [eassumption|])|]. split; [done|].
  rewrite length_blit; [congruence|]. rewrite length_le_bytes, N2, N1. destruct Hf. lia.
Qed.

(** ** What a successful load leaves *)

Definition has_module (ms : gmap str proc_module) (stem : str) (m : proc_module) : Prop := exists key, ms !! key = Some m /\ has_stem stem key = true.

(** A name of a module is its own export, or what the target of its forwarder is in a
    module that is there. *)
Inductive resolves (ms : gmap str proc_module) : proc_module -> str -> Z -> Prop :=
  | resolves_export m sym v : find_export sym m = Some v -> resolves ms m sym v
  | resolves_name m sym stem sym' t v : find_export sym m = None -> split_dot (find_forward sym m) = Some (stem, sym') -> has_module ms stem t ->
      resolves ms t sym' v -> resolves ms m sym v
  | resolves_ordinal m sym stem number ordinal t v : find_export sym m = None -> split_dot (find_forward sym m) = Some (stem, hash_sign :: number) -> has_module ms stem t ->
      from_chars number = Some ordinal -> find_ordinal ordinal t = Some v -> resolves ms m sym v.

Definition import_is (ms : gmap str proc_module) (imp : import) (v : Z) : Prop :=
  exists dep, ms !! lower (module_name imp) = Some dep /\
    match wanted imp with ByOrdinal ordinal => find_ordinal ordinal dep = Some v | ByName sym => resolves ms dep sym v end.

Definition in_slot (imp : import) (i : Z) : Prop := iat_slot imp <= i < iat_slot imp + 8.
Definition in_block (m : proc_module) (x : Z) : Prop := addr m <= x < addr m + Z.of_nat (length (image m)).

(** Each slot has the address of its import, and every other byte is that of the
    relocated image. *)
Record module_bound s (m : proc_module) : Prop := {
  bound_public : forall x, in_block m x -> ~ is_private x;
  bound_slots : Forall (inside (Z.of_nat (length (image m)))) (iat_slot <$> pe_imports (image m));
  bound_imports : forall imp, imp ∈ pe_imports (image m) -> exists v, import_is (modules_ s) imp v /\ holds (mem_of s) (addr m + iat_slot imp) (le_bytes 8 v);
  bound_length : length (relocated (addr m) (image m)) = length (image m);
  bound_rest : forall i b, relocated (addr m) (image m) !! i = Some b -> (forall imp, imp ∈ pe_imports (image m) -> ~ in_slot imp (Z.of_nat i)) -> mem_of s (addr m + Z.of_nat i) = Some b
}.

(** Modules stay, and so do bytes, but for those in [P]. *)
Record goes (P : Z -> Prop) s s' : Prop := {
  goes_modules : modules_ s ⊆ modules_ s';
  goes_keeps : keeps P (mem_of s) (mem_of s');
  goes_mapped : forall x, ~ is_private x -> is_Some (mem_of s x) -> is_Some (mem_of s' x)
}.

(** The modules that are new are bound, and lie where nothing was. *)
Definition complete s s' : Prop := forall key m, modules_ s' !! key = Some m -> modules_ s !! key = None ->
  module_bound s' m /\ forall x, in_block m x -> mem_of s x = None.

Lemma goes_refl P s : goes P s s.
Proof. split; [done|by intros x b _|done]. Qed.
Lemma goes_trans P s1 s2 s3 : goes P s1 s2 -> goes P s2 s3 -> goes P s1 s3.
Proof. intros [A1 B1 C1] [A2 B2 C2]. split; [by etrans|by eapply public_kept|auto]. Qed.
Lemma goes_more (P Q : Z -> Prop) s s' : (forall x, P x -> Q x) -> goes P s s' -> goes Q s s'.
Proof. intros H [A B C]. split; [done| |done]. intros x b Hx. apply B. auto. Qed.
Lemma goes_private s s' : modules_ s ⊆ modules_ s' -> keeps is_private (mem_of s) (mem_of s') -> goes is_private s s'.
Proof. intros H1 H2. split; [done..|]. intros x Hx [b Hb]. exists b. by apply H2. Qed.

Lemma has_module_mono ms ms' stem m : ms ⊆ ms' -> has_module ms stem m -> has_module ms' stem m.
Proof. intros H (key & E & Hk). exists key. split; [|done]. by eapply lookup_weaken. Qed.
Lemma resolves_mono ms ms' m sym v : ms ⊆ ms' -> resolves ms m sym v -> resolves ms' m sym v.
Proof. intros H. induction 1; [by apply resolves_export|eapply resolves_name|eapply resolves_ordinal]; eauto using has_module_mono. Qed.
Lemma import_mono ms ms' imp v : ms ⊆ ms' -> import_is ms imp v -> import_is ms' imp v.
Proof. intros H (dep & E & Hv). exists dep. split; [by eapply lookup_weaken|]. destruct (wanted imp); [by eapply resolves_mono|done]. Qed.

Lemma keeps_holds P m m' a l : keeps P m m' -> (forall x, a <= x < a + Z.of_nat (length l) -> ~ P x) -> holds m a l -> holds m' a l.
Proof. intros Hk HP H i b Hi. apply Hk; [|by apply H]. apply HP. apply lookup_lt_Some in Hi. lia. Qed.

Lemma slot_in l imp n : Forall (inside n) (iat_slot <$> l) -> imp ∈ l -> inside n (iat_slot imp).
Proof. rewrite list.Forall_fmap, list.Forall_forall. intros H. apply H. Qed.

Lemma bound_stays P s s' m : module_bound s m -> goes P s s' -> (forall x, in_block m x -> ~ P x) -> module_bound s' m.
Proof.
  intros [H1 H2 H3 H4 H5] [G1 G2 _] HP. split; try done.
  - intros imp Hi. destruct (H3 imp Hi) as (v & Hv & Hh). exists v. split; [by eapply import_mono|]. pose proof (slot_in _ _ _ H2 Hi) as [Ha Hb].
    eapply keeps_holds; [done| |done]. intros x Hx. apply HP. rewrite length_le_bytes in Hx. unfold in_block. lia.
  - intros i b Hi Hn. apply G2; [|by apply H5]. apply HP. apply lookup_lt_Some in Hi. unfold in_block. lia.
Qed.

Lemma complete_none s s' : modules_ s' = modules_ s -> complete s s'.
Proof. intros E key m H1 H2. congruence. Qed.
Lemma complete_trans P P' s0 s1 s2 : complete s0 s1 -> goes P s0 s1 -> goes P' s1 s2 -> (forall x, P' x -> is_private x \/ is_Some (mem_of s0 x)) -> complete s1 s2 -> complete s0 s2.
Proof.
  intros H1 G1 G2 HP H2 key m E N. destruct (modules_ s1 !! key) as [m'|] eqn:E1.
  - assert (m' = m) as -> by (eapply lookup_weaken in E1; [|apply (goes_modules _ _ _ G2)]; congruence). destruct (H1 key m E1 N) as [Hb Hn]. split; [|done].
    apply (bound_stays P' s1); [done|done|]. intros x Hx Hp. destruct (HP x Hp) as [?|[b Hb']]; [by apply (bound_public _ _ Hb x)|]. by rewrite (Hn x Hx) in Hb'.
  - destruct (H2 key m E E1) as [Hb Hn]. split; [done|]. intros x Hx. destruct (mem_of s0 x) eqn:Em; [|done].
    destruct (goes_mapped _ _ _ G1 x) as [b Hb']; [by apply (bound_public _ _ Hb)|by eexists|]. by rewrite (Hn x Hx) in Hb'.
Qed.

(** ** Resolving and binding *)

Section Binding.
Context (walk : gmap str proc_module -> list (str * proc_module)) (walk_all : forall ms, walk ms ≡ₚ map_to_list ms).

Definition any {A} : error -> A -> Prop := fun _ _ => True.
(** Loading keeps what there is, and what it returns is listed and complete. *)
Definition loads (n : str) s : option proc_module -> process K -> Prop := fun r s' =>
  goes is_private s s' /\ forall m, r = Some m -> modules_ s' !! lower n = Some m /\ complete s s'.
Definition good (load : str -> bool -> pst (option proc_module)) : Prop := forall n sup s, modules_ s !! lower n = None -> wp (load n sup) s (loads n s) any.

Lemma wp_ret {A} (x : A) s (Q : A -> process K -> Prop) E : Q x s -> wp (ret x) s Q E.
Proof. done. Qed.
Lemma wp_get {A} (f : process K -> pst A) s Q E : wp (f s) s Q E -> wp (let! x := get in f x) s Q E.
Proof. done. Qed.

Lemma lower_app a b : lower (a ++ b) = lower a ++ lower b.
Proof. apply map_app. Qed.
Lemma stem_of_dll stem : has_stem stem (lower (stem ++ dll_suffix)) = true.
Proof. unfold has_stem. rewrite lower_app, after_prefix_app. reflexivity. Qed.
Lemma by_stem stem s m : find_module_by_stem walk stem s = Some m -> has_module (modules_ s) stem m.
Proof using walk_all.
  unfold find_module_by_stem. destruct (list_find _ _) as [[i [key m']]|] eqn:E; [|done]. intros [= ->]. apply list_find_Some in E as (E & Hs & _).
  exists key. split; [|by apply Is_true_true]. apply elem_of_map_to_list. rewrite <- walk_all. by eapply list_elem_of_lookup_2.
Qed.

Variable load : str -> bool -> pst (option proc_module).
Hypothesis load_good : good load.

Lemma find_or_load_good n sup s : wp (find_or_load load n sup) s (loads n s) any.
Proof using load_good.
  apply wp_get. unfold find_module. destruct (modules_ s !! lower n) as [m|] eqn:E; [|by apply load_good]. apply wp_ret. split; [apply goes_refl|]. intros m' [= <-]. split; [done|]. by apply complete_none.
Qed.

Lemma target_good stem sup s : wp (match find_module_by_stem walk stem s with Some t => ret (Some t) | None => find_or_load load (stem ++ dll_suffix) sup end) s
  (fun r s' => goes is_private s s' /\ forall t, r = Some t -> has_module (modules_ s') stem t /\ complete s s') any.
Proof using load_good walk_all.
  destruct (find_module_by_stem walk stem s) as [t|] eqn:E.
  - apply wp_ret. split; [apply goes_refl|]. intros t' [= <-]. split; [by apply by_stem|by apply complete_none].
  - eapply wp_mono; [apply find_or_load_good| |done]. intros r s' [G H]. split; [done|]. intros t Et. destruct (H t Et) as [Hm Hc]. split; [|done]. exists (lower (stem ++ dll_suffix)). split; [done|apply stem_of_dll].
Qed.

Lemma resolve_export_good deeper : forall m sym sup s, wp (resolve_export walk load deeper m sym sup) s
  (fun r s' => goes is_private s s' /\ forall v, r = Some v -> resolves (modules_ s') m sym v /\ complete s s') any.
Proof using load_good walk_all.
  induction deeper as [|deeper IH]; intros m sym sup s; cbn [resolve_export]; destruct (find_export sym m) as [v|] eqn:Ee.
  1, 3: (apply wp_ret; split; [apply goes_refl|]; intros v' [= <-]; split; [by apply resolves_export|by apply complete_none]).
  { destruct (find_forward sym m); apply wp_ret; (split; [apply goes_refl|done]). }
  destruct (find_forward sym m) as [|c fw] eqn:Ef; [apply wp_ret; split; [apply goes_refl|done]|]. destruct (split_dot (c :: fw)) as [[stem sym']|] eqn:Es; [|apply wp_ret; split; [apply goes_refl|done]].
  rewrite <- Ef in Es. apply wp_get, wp_bind. eapply wp_mono; [apply target_good| |done]. intros target s1 [G1 H1]. destruct target as [t|]; [|apply wp_ret; by split]. destruct (H1 t eq_refl) as [Ht Hc].
  assert (wp (resolve_export walk load deeper t sym' sup) s1 (fun r s' => goes is_private s s' /\ forall v, r = Some v -> resolves (modules_ s') m sym v /\ complete s s') any) as Hrec.
  { eapply wp_mono; [apply IH| |done]. intros r s2 [G2 H2]. split; [by eapply goes_trans|]. intros v Ev. destruct (H2 v Ev) as [Hr Hc2]. split.
    - eapply resolves_name; [done|done| |done]. eapply has_module_mono; [apply G2|done].
    - eapply complete_trans; [exact Hc|done|done| |done]. by left. }
  destruct sym' as [|d number]; [done|]. destruct (Z.eqb_spec d hash_sign) as [->|]; [|done]. apply wp_ret. split; [done|]. intros v Ev. destruct (from_chars number) as [ordinal|] eqn:En; [|done].
  split; [|done]. by eapply resolves_ordinal.
Qed.

Lemma resolve_import_good imp dep sup s : modules_ s !! lower (module_name imp) = Some dep ->
  wp (resolve_import walk load imp dep sup) s (fun r s' => goes is_private s s' /\ forall v, r = Some v -> import_is (modules_ s') imp v /\ complete s s') any.
Proof using load_good walk_all.
  intros Hd. unfold resolve_import, import_is. destruct (wanted imp) as [sym|ordinal].
  - eapply wp_mono; [apply resolve_export_good| |done]. intros r s' [G H]. split; [done|]. intros v Ev. destruct (H v Ev) as [Hr Hc]. split; [|done]. exists dep. split; [|done]. eapply lookup_weaken; [done|apply G].
  - apply wp_ret. split; [apply goes_refl|]. intros v Ev. split; [by exists dep|by apply complete_none].
Qed.

(** Import slots of an image at [a]. *)
Definition slots (a : Z) (imports : list import) (x : Z) : Prop := is_private x \/ exists imp, imp ∈ imports /\ in_slot imp (x - a).

Lemma bind_imports_good a n sup imports : forall s, 0 < a -> a + n <= 2 ^ 64 -> (forall x, a <= x < a + n -> ~ is_private x /\ is_Some (mem_of s x)) ->
  Forall (inside n) (iat_slot <$> imports) -> apart (iat_slot <$> imports) ->
  wp (bind_imports walk load a imports sup) s (fun r s' => goes (slots a imports) s s' /\ (r = true -> complete s s' /\
    forall imp, imp ∈ imports -> exists v, import_is (modules_ s') imp v /\ holds (mem_of s') (a + iat_slot imp) (le_bytes 8 v))) any.
Proof using load_good walk_all laws.
  induction imports as [|imp imports IH]; intros s Ha Hn Hx Hi Hap; cbn [bind_imports].
  { apply wp_ret. split; [apply goes_refl|]. intros _. split; [by apply complete_none|]. intros imp Hm. by apply not_elem_of_nil in Hm. }
  cbn [fmap list_fmap apart] in Hi, Hap. apply list.Forall_cons in Hi as [[Hi1 Hi2] Hi]. destruct Hap as [Hap1 Hap].
  assert (forall x, is_private x -> slots a (imp :: imports) x) as Hp by (by left).
  apply wp_bind. eapply wp_mono; [apply find_or_load_good| |done]. intros dep s1 [G1 H1]. destruct dep as [dep|]; [|apply wp_ret; split; [by eapply goes_more|done]]. destruct (H1 dep eq_refl) as [Hd Hc1].
  apply wp_bind. eapply wp_mono; [by apply resolve_import_good| |done]. intros r s2 [G2 H2]. pose proof (goes_trans _ _ _ _ G1 G2) as G. destruct r as [v|]; [|apply wp_ret; split; [by eapply goes_more|done]].
  destruct (H2 v eq_refl) as [Hv Hc2]. assert (complete s s2) as Hc by (eapply complete_trans; [exact Hc1|done|exact G2|by left|done]).
  assert (forall x, a <= x < a + n -> ~ is_private x /\ is_Some (mem_of s2 x)) as Hx2 by (intros x Hr; destruct (Hx x Hr); split; [done|by apply (goes_mapped _ _ _ G)]).
  rewrite u64_small by (unfold in_u64; lia). destruct (write64_ok (a + iat_slot imp) v s2) as (s3 & E3 & Em & Hs3); [lia|lia|intros x Hr; apply Hx2; lia|]. apply wp_bind. unfold wp at 1. rewrite E3.
  assert (forall x, is_Some (mem_of s2 x) -> is_Some (mem_of s3 x)) as Hm3.
  { intros x Hm. rewrite Hs3. apply (splice_mapped _ _ _ x 1); [|lia]. intros y Hy. by replace y with x by lia. }
  assert (goes (fun x => in_slot imp (x - a)) s2 s3) as G3.
  { split; [by rewrite Em| |auto]. intros x b Hns Eb. rewrite Hs3, splice_out; [done|]. rewrite length_le_bytes. unfold in_slot in Hns. lia. }
  eapply wp_mono; [apply (IH s3 Ha Hn); [|done|done]| |done]. { intros x Hr. destruct (Hx2 x Hr). auto. }
  intros r s4 [G4 H4]. assert (forall x, slots a imports x -> slots a (imp :: imports) x) as Hsub by (intros x [?|(i & ? & ?)]; [by left|right; exists i; split; [by apply list_elem_of_further|done]]).
  assert (forall x, in_slot imp (x - a) -> slots a (imp :: imports) x) as Hin by (intros x ?; right; exists imp; split; [apply list_elem_of_here|done]).
  pose proof (goes_more _ _ _ _ Hp G) as G'. pose proof (goes_more _ _ _ _ Hin G3) as G3'. pose proof (goes_more _ _ _ _ Hsub G4) as G4'.
  split; [by do 2 (eapply goes_trans; [eassumption|])|]. intros Hr. destruct (H4 Hr) as [Hc4 Hb4].
  assert (complete s s3) as Hc3.
  { eapply (complete_trans _ _ s s2 s3); [done|exact G|exact G3| |by apply complete_none]. intros x Hs. right. apply Hx. unfold in_slot in Hs. lia. }
  assert (goes (slots a (imp :: imports)) s s3) as G03 by (by eapply goes_trans).
  split.
  - eapply (complete_trans _ _ s s3 s4); [done|exact G03|exact G4| |done]. intros x [?|(i & Hi' & Hs)]; [by left|]. right. apply Hx. pose proof (slot_in _ _ _ Hi Hi') as []. unfold in_slot in Hs. lia.
  - intros i Hi'. apply elem_of_cons in Hi' as [->|Hi']; [|by apply Hb4]. exists v. split; [eapply import_mono; [apply G4|]; by rewrite Em|].
    eapply keeps_holds; [apply G4| |eapply same_holds; [exact Hs3|apply splice_holds]]. rewrite length_le_bytes. intros x Hr' [Hpx|(j & Hj & Hs)].
    + destruct (Hx x) as [Hnp _]; [lia|]. done.
    + rewrite list.Forall_fmap, list.Forall_forall in Hap1. specialize (Hap1 j Hj). cbn in Hap1. unfold in_slot in Hs. lia.
Qed.

Lemma in_space_wp {A} (f : st K A) s Q : (forall x k, f (kern s) = (Ok x, k) -> Q x (Process k (modules_ s) (watched s))) -> wp (in_space f) s Q any.
Proof. intros H. unfold wp, in_space. destruct (f (kern s)) as [[x|e] k] eqn:E; [by apply H|done]. Qed.
Lemma protect_good n a img flags secs : forall s, wp (each (protect_section n a img flags false) secs) s
  (fun _ s' => modules_ s' = modules_ s /\ keeps is_private (mem_of s) (mem_of s')) any.
Proof using laws.
  induction secs as [|sec secs IH]; intros s; [apply wp_ret; split; [done|by intros x b _]|]. cbn [each foldr]. apply wp_bind. unfold protect_section at 1. apply wp_bind, in_space_wp. intros [] k E.
  apply wp_ret. eapply wp_mono; [apply IH| |done]. intros _ s' [E1 K1]. split; [done|]. eapply public_kept; [|done]. by eapply is_prot_ok.
Qed.
Lemma add_module_good n a img s : wp (add_module n a img) s (fun m s' => modules_ s' = <[lower n := m]> (modules_ s) /\ keeps is_private (mem_of s) (mem_of s') /\
  addr m = a /\ image m = take (Z.to_nat (size_of_image img)) img) any.
Proof using laws.
  unfold add_module. cbn zeta. apply wp_bind, in_space_wp. intros [] k E. unfold wp. cbn. split; [done|]. split; [by eapply module_add_ok|done].
Qed.

Lemma map_laid_out_good n img sup s : image_ok img -> modules_ s !! lower n = None -> wp (map_laid_out walk load n img sup false) s (loads n s) any.
Proof using load_good walk_all laws.
  intros Hok Hn. pose proof (size_ok img Hok) as Hsz. unfold map_laid_out. rewrite Hsz, Nat2Z.id, take_ge by done. apply wp_bind, in_space_wp. intros a k Ea. destruct (is_alloc_ok _ _ _ _ _ Ea) as [Hk Hb]. set (s1 := Process k _ _).
  destruct (Z.eqb_spec a 0) as [|Ha0]; [apply wp_ret; split; [by apply goes_private|done]|]. destruct (Hb Ha0) as (Ha & Hend & Hblock). clear Hb. rewrite (proj2 (Nat.ltb_ge _ _)) by done.
  destruct (write_mem_mapped img a (is_mem k)) as (m2 & E2 & Hm2); [lia|done|intros x Hx; by apply Hblock|]. set (s2 := Process (is_set m2 k) (modules_ s) (watched s)).
  apply wp_bind. unfold wp at 1, on_mem, in_space. cbn [kern s1]. rewrite E2. fold s2. assert (same (mem_of s2) (splice a img (is_mem k))) as Hs2 by (unfold mem_of, s2; cbn; by rewrite is_get_set).
  apply wp_bind. eapply wp_mono; [apply protect_good| |done]. intros _ s3 [M3 K3]. assert (forall x, a <= x < a + Z.of_nat (length img) -> ~ is_private x) as Hpub by (intros x Hx; by apply Hblock).
  assert (holds (mem_of s3) a img) as L3 by (eapply keeps_holds; [done|done|eapply same_holds; [exact Hs2|apply splice_holds]]).
  destruct (relocate_ok a img s3 Ha Hend Hok L3) as (s4 & E4 & [M4 R4] & L4 & N4). apply wp_bind. unfold wp at 1. rewrite E4.
  apply wp_bind. eapply wp_mono; [apply add_module_good| |done]. intros m s5 (M5 & K5 & Am & Im). rewrite Hsz, Nat2Z.id, take_ge in Im by done. cbn match.
  assert (modules_ s5 = <[lower n := m]> (modules_ s)) as M by (rewrite M5, M4, M3; done).
  assert (keeps is_private (mem_of s) (mem_of s5)) as K05.
  { intros x b Hp Eb. pose proof (Hk x b Hp Eb) as Eb1. destruct (decide (a <= x < a + Z.of_nat (length img))) as [Hx|Hx]; [destruct (Hblock x Hx) as (_ & Hnone & _); unfold mem_of in Eb; congruence|].
    apply K5; [done|]. rewrite R4 by done. apply K3; [done|]. by rewrite Hs2, splice_out. }
  assert (goes is_private s s5) as G5 by (apply goes_private; [rewrite M; by apply insert_subseteq|done]).
  assert (holds (mem_of s5) a (relocated a img)) as L5 by (eapply keeps_holds; [exact K5|by rewrite N4|exact L4]).
  apply wp_bind. eapply wp_mono; [apply (bind_imports_good a (Z.of_nat (length img)))| |done]; [done|done| |apply Hok|apply Hok|].
  { intros x Hx. split; [by apply Hpub|]. apply (held_mapped _ _ _ L5). by rewrite N4. }
  intros bound s6 [G6 H6]. assert (forall x, slots a (pe_imports img) x -> is_private x \/ a <= x < a + Z.of_nat (length img)) as Hslots.
  { intros x [?|(i & Hi & Hs)]; [by left|]. right. pose proof (slot_in _ _ _ (slots_in img Hok) Hi) as []. unfold in_slot in Hs. lia. }
  assert (goes is_private s s6) as G.
  { apply goes_private; [etrans; [apply G5|apply G6]|]. intros x b Hp Eb. apply (goes_keeps _ _ _ G6); [|by apply K05]. intros Hs. destruct (Hslots x Hs) as [?|Hx]; [done|].
    destruct (Hblock x Hx) as (_ & Hnone & _). unfold mem_of in Eb. congruence. }
  apply wp_ret. destruct bound; [|by split]. destruct (H6 eq_refl) as [Hc Hi]. split; [done|]. intros m' [= <-].
  assert (modules_ s6 !! lower n = Some m) as Hm6 by (eapply lookup_weaken; [|apply G6]; by rewrite M, lookup_insert_eq). split; [done|].
  intros key m' E6 E0. destruct (decide (key = lower n)) as [->|Hne].
  - assert (m' = m) as -> by congruence. unfold in_block. rewrite Am, Im. split; [|intros x Hx; by apply Hblock]. split; unfold in_block; rewrite ?Am, ?Im; [done|apply Hok|done|done|].
    intros i b Hb Hout. apply (goes_keeps _ _ _ G6); [|by apply L5]. intros [Hp|(imp & Himp & Hs)].
    + apply lookup_lt_Some in Hb. rewrite N4 in Hb. by apply (Hpub (a + Z.of_nat i)); [lia|].
    + apply (Hout imp Himp). unfold in_slot in *. lia.
  - destruct (Hc key m' E6) as [Hb Hx]; [by rewrite M, lookup_insert_ne|]. split; [done|]. intros x Hin. destruct (mem_of s x) as [b|] eqn:Eb; [|done].
    pose proof (K05 x b (bound_public _ _ Hb x Hin) Eb) as Eb5. by rewrite (Hx x Hin) in Eb5.
Qed.
End Binding.

(** ** Loading *)

Section Loading.
Context (walk : gmap str proc_module -> list (str * proc_module)) (walk_all : forall ms, walk ms ≡ₚ map_to_list ms).
Variable fs : filesystem.
(** The images in the files, laid out, are in order. *)
Definition files_ok : Prop := forall n raw img, open_system_image fs n = Some raw -> pe_virtual_image raw = Some img -> img <> [] -> image_ok img.
Hypothesis images_ok : files_ok.

Lemma load_module_good fuel : good (load_module walk fs fuel).
Proof using walk_all images_ok laws.
  induction fuel as [|fuel IH]; intros n sup s Hn; [done|]. cbn [load_module]. destruct (open_system_image fs n) as [raw|] eqn:E; [|by apply wp_ret; split; [apply goes_refl|]].
  unfold map_img. destruct (pe_virtual_image raw) as [[|c img]|] eqn:Ei; [by apply wp_ret; split; [apply goes_refl|]| |done]. apply map_laid_out_good; [done|done|by eapply images_ok|done].
Qed.

(** *** It ends *)

(** The names images ask for: their imports, and what their exports forward to. *)
Definition forward_names (es : list export) : list str :=
  omap (fun e => match forwarded e with Some to => (fun p => lower (p.1 ++ dll_suffix)) <$> split_dot to | None => None end) es.
Definition module_names (m : proc_module) : list str := forward_names (pe_exports (image m)).
Definition image_names (img : list Z) : list str := (lower ∘ module_name <$> pe_imports img) ++ forward_names (pe_exports (take (Z.to_nat (size_of_image img)) img)).
Definition file_images : list (list Z) := omap pe_virtual_image ([] :: (map_to_list (contents fs)).*2).
Definition all_names s : gset str := list_to_set (flat_map image_names file_images ++ flat_map module_names (map_to_list (modules_ s)).*2).

Section Names.
Variable U : gset str.
Definition within (l : list str) : Prop := forall x, x ∈ l -> x ∈ U.
Definition known s : Prop := forall key m, modules_ s !! key = Some m -> within (module_names m).
Hypothesis files_within : forall n raw img, open_system_image fs n = Some raw -> pe_virtual_image raw = Some img -> within (image_names img).

(** How many names are not loaded yet. *)
Definition need s : nat := size (U ∖ dom (modules_ s)).
Definition no_fuel : error -> process K -> Prop := fun e _ => e <> out_of_fuel.
Definition runs {A} (R : A -> Prop) (f : pst A) s : Prop := wp f s (fun r s' => R r /\ known s' /\ dom (modules_ s) ⊆ dom (modules_ s')) no_fuel.
(** Ends, and leaves the modules alone. *)
Definition calm {A} (f : pst A) : Prop := forall s, wp f s (fun _ s' => modules_ s' = modules_ s) no_fuel.

Lemma need_less s s' : dom (modules_ s) ⊆ dom (modules_ s') -> (need s' <= need s)%nat.
Proof. intros H. unfold need. by apply subseteq_size, difference_mono_l. Qed.
Lemma need_add s s' n : n ∈ U -> n ∉ dom (modules_ s) -> dom (modules_ s') = {[n]} ∪ dom (modules_ s) -> (need s' < need s)%nat.
Proof. intros H1 H2 H3. unfold need. rewrite H3. by apply names_shrink. Qed.

Lemma runs_ret {A} (R : A -> Prop) x s : R x -> known s -> runs R (ret x) s.
Proof. by intros HR Hk. Qed.
Lemma runs_bind {A B} (R : A -> Prop) (R' : B -> Prop) (f : pst A) (g : A -> pst B) s : runs R f s ->
  (forall x s', R x -> known s' -> (need s' <= need s)%nat -> dom (modules_ s) ⊆ dom (modules_ s') -> runs R' (g x) s') -> runs R' (bind f g) s.
Proof.
  intros Hf Hg. apply wp_bind. eapply wp_mono; [exact Hf| |done]. intros x s' (Hx & Hk & Hd). eapply wp_mono; [apply Hg; [done|done|by apply need_less|done]| |done].
  intros y s'' (Hy & Hk' & Hd'). split; [done|]. split; [done|]. by etrans.
Qed.
Lemma runs_calm {A B} (R' : B -> Prop) (f : pst A) (g : A -> pst B) s : calm f -> (forall x s', modules_ s' = modules_ s -> runs R' (g x) s') -> runs R' (bind f g) s.
Proof.
  intros Hf Hg. apply wp_bind. eapply wp_mono; [apply Hf| |done]. intros x s' E. pose proof (Hg x s' E) as H. unfold runs in H. by rewrite E in H.
Qed.

Lemma runs_assoc {A B C} (R : C -> Prop) (f : pst A) (g : A -> pst B) (h : B -> pst C) s : runs R (bind f (fun x => bind (g x) h)) s -> runs R (bind (bind f g) h) s.
Proof. unfold runs, wp, bind. by destruct (f s) as [[x|e] s']. Qed.

Lemma read_mem_ends n : forall a m, fst (read_mem a n m) <> Throw out_of_fuel.
Proof.
  induction n as [|n IH]; intros a m; [done|]. cbn [read_mem]. unfold bind, read_byte. destruct (m (u64 a)); [|done]. specialize (IH (a + 1) m). by destruct (read_mem (a + 1) n m) as [[l|e] m'].
Qed.
Lemma write_mem_ends l : forall a m, fst (write_mem a l m) <> Throw out_of_fuel.
Proof. induction l as [|b l IH]; intros a m; [done|]. cbn [write_mem]. unfold bind, write_byte. by destruct (m (u64 a)). Qed.

Lemma calm_bind {A B} (f : pst A) (g : A -> pst B) : calm f -> (forall x, calm (g x)) -> calm (bind f g).
Proof. intros Hf Hg s. apply wp_bind. eapply wp_mono; [apply Hf| |done]. intros x s' E. eapply wp_mono; [apply Hg| |done]. intros y s'' E'. congruence. Qed.
Lemma calm_ret {A} (x : A) : calm (ret x).
Proof. done. Qed.
Lemma calm_space {A} (f : st K A) : (forall k, fst (f k) <> Throw out_of_fuel) -> calm (in_space f).
Proof. intros H s. unfold wp, in_space, no_fuel. specialize (H (kern s)). destruct (f (kern s)) as [[x|e] k]; [done|]. intros ->. by apply H. Qed.
Lemma calm_mem {A} (f : gst A) : (forall m, fst (f m) <> Throw out_of_fuel) -> calm (on_mem f).
Proof. intros H. apply calm_space. intros k. specialize (H (is_mem k)). by destruct (f (is_mem k)) as [r m]. Qed.
Lemma calm_each {A} (f : A -> pst unit) l : (forall x, calm (f x)) -> calm (each f l).
Proof. intros H. induction l as [|x l IH]; [apply calm_ret|]. apply calm_bind; [apply H|by intros _]. Qed.
Lemma calm_write a v : calm (write64 a v).
Proof. apply calm_mem. intros m. apply write_mem_ends. Qed.
Lemma calm_rebase a delta rva : calm (rebase a delta rva).
Proof.
  apply calm_bind; [|intros v; apply calm_write]. apply calm_mem. intros m. unfold bind. pose proof (read_mem_ends 8 (a +w rva) m) as H. destruct (read_mem (a +w rva) 8 m) as [[l|e] m']; [done|].
  cbn in *. intros [= ->]. by apply H.
Qed.
Lemma calm_relocate a img : calm (relocate a img).
Proof.
  unfold relocate. cbn zeta. apply calm_bind; [destruct (_ =? 0); [apply calm_ret|apply calm_rebase]|]. intros _. apply calm_bind; [|intros _; apply calm_write].
  apply calm_each. intros rva. apply calm_rebase.
Qed.
Lemma calm_protect n a img flags skip sec : calm (protect_section n a img flags skip sec).
Proof using laws. apply calm_bind; [apply calm_space; intros k; apply is_prot_ends|]. intros _. destruct (_ || _); [apply calm_ret|]. by apply calm_each. Qed.

(** Over a loader that ends when there are no more names left than [left_]. *)
Section Resolving.
Variables (load : str -> bool -> pst (option proc_module)) (left_ : nat).
Definition listed (r : option proc_module) : Prop := forall m, r = Some m -> within (module_names m).
Hypothesis load_runs : forall n sup s, known s -> (need s <= left_)%nat -> lower n ∈ U -> modules_ s !! lower n = None -> runs listed (load n sup) s.

Lemma find_or_load_runs n sup s : known s -> (need s <= left_)%nat -> lower n ∈ U -> runs listed (find_or_load load n sup) s.
Proof using load_runs.
  intros Hk Hn Hu. apply wp_get. unfold find_module. destruct (modules_ s !! lower n) as [m|] eqn:E; [|by apply load_runs]. apply runs_ret; [|done]. intros m' [= <-]. by eapply Hk.
Qed.

Lemma forward_within m sym stem sym' : within (module_names m) -> split_dot (find_forward sym m) = Some (stem, sym') -> lower (stem ++ dll_suffix) ∈ U.
Proof.
  intros Hw Hs. apply Hw. unfold module_names, forward_names, find_forward in *. destruct (image m) as [|c img]; [done|]. revert Hs. generalize (pe_exports (c :: img)). intros es.
  induction es as [|e es IH]; [done|]. cbn [first_forward omap list_omap]. destruct (forwarded e) as [to|]; [|exact IH]. destruct (decide _) as [_|_].
  - intros ->. cbn. apply list_elem_of_here.
  - intros Hs. specialize (IH Hs). destruct (split_dot to) as [p|]; cbn; [by apply list_elem_of_further|done].
Qed.

Lemma resolve_export_runs deeper : forall m sym sup s, known s -> (need s <= left_)%nat -> within (module_names m) -> runs (fun _ => True) (resolve_export walk load deeper m sym sup) s.
Proof using load_runs walk_all.
  induction deeper as [|deeper IH]; intros m sym sup s Hk Hn Hw; cbn [resolve_export]; (destruct (find_export sym m); [by apply runs_ret|]); (destruct (find_forward sym m) as [|c fw] eqn:Ef; [by apply runs_ret|]); [by apply runs_ret|].
  destruct (split_dot (c :: fw)) as [[stem sym']|] eqn:Es; [|by apply runs_ret]. rewrite <- Ef in Es. apply wp_get, (runs_bind listed).
  - destruct (find_module_by_stem walk stem s) as [t|] eqn:Et; [|by apply find_or_load_runs; [| |eapply forward_within]]. apply runs_ret; [|done]. intros t' [= <-]. apply (by_stem walk walk_all) in Et as (key & Ek & _). by eapply Hk.
  - intros [t|] s' Ht Hk' Hn' _; [|by apply runs_ret]. specialize (Ht t eq_refl). assert (need s' <= left_)%nat as Hn2 by lia. pose proof (IH t sym' sup s' Hk' Hn2 Ht) as Hr.
    destruct sym' as [|d number]; [done|]. destruct (d =? hash_sign); [by apply runs_ret|done].
Qed.

Lemma bind_imports_runs a imports sup : forall s, known s -> (need s <= left_)%nat -> within (lower ∘ module_name <$> imports) -> runs (fun _ => True) (bind_imports walk load a imports sup) s.
Proof using load_runs walk_all.
  induction imports as [|imp imports IH]; intros s Hk Hn Hw; cbn [bind_imports]; [by apply runs_ret|]. apply (runs_bind listed); [apply find_or_load_runs; [done..|]; apply Hw, list_elem_of_here|].
  intros [dep|] s1 Hd Hk1 Hn1 _; [|by apply runs_ret]. apply (runs_bind (fun _ => True)).
  { unfold resolve_import. destruct (wanted imp); [apply resolve_export_runs; [done|lia|by apply Hd]|by apply runs_ret]. }
  intros [v|] s2 _ Hk2 Hn2 _; [|by apply runs_ret]. apply runs_calm; [apply calm_write|]. intros _ s3 E. apply IH; [unfold known; by rewrite E|unfold need in *; rewrite E; lia|].
  intros x Hx. apply Hw. by apply list_elem_of_further.
Qed.

Lemma map_laid_out_runs n img sup s : known s -> within (image_names img) -> (need s <= left_)%nat \/ (lower n ∈ U /\ modules_ s !! lower n = None /\ need s <= S left_)%nat ->
  runs listed (map_laid_out walk load n img sup false) s.
Proof using load_runs walk_all laws.
  intros Hk Hw Hn. unfold map_laid_out. apply runs_calm; [apply calm_space; intros k; apply is_alloc_ends|]. intros a s1 E1. assert (known s1) as Hk1 by (unfold known; by rewrite E1).
  destruct (a =? 0); [by apply runs_ret|]. apply runs_calm; [destruct (_ <? _)%nat; [done|apply calm_mem; intros m; apply write_mem_ends]|]. intros _ s2 E2.
  apply runs_calm; [apply calm_each; intros sec; apply calm_protect|]. intros _ s3 E3. apply runs_calm; [apply calm_relocate|]. intros _ s4 E4.
  assert (modules_ s4 = modules_ s) as E by congruence. clear s1 s2 s3 Hk1 E1 E2 E3 E4. unfold add_module. cbn zeta. apply runs_assoc, runs_calm; [apply calm_space; intros k; apply module_add_ends|]. intros _ s5 E5. rewrite E in E5.
  set (m := ProcModule _ _ _ _ _ _ _). assert (within (module_names m)) as Hm by (intros x Hx; apply Hw, elem_of_app; by right).
  apply runs_assoc. unfold runs, wp at 1, bind at 1, modify, ret. cbn match. set (s6 := Process _ _ _). assert (known s6) as Hk6.
  { intros key m'. cbn. rewrite lookup_insert_Some, E5. intros [[_ <-]|[_ H]]; [done|by eapply Hk]. }
  assert (dom (modules_ s5) ⊆ dom (modules_ s6)) as Hd by (cbn; rewrite dom_insert; apply union_subseteq_r). assert (need s6 <= left_)%nat as Hn6.
  { destruct Hn as [Hn|(Hu & Hnone & Hn)]; [pose proof (need_less _ _ Hd) as H; unfold need in *; rewrite E5 in H; lia|]. pose proof (need_add s s6 (lower n) Hu) as H. cut (need s6 < need s)%nat; [lia|].
    apply H; [by apply not_elem_of_dom|]. cbn. by rewrite dom_insert_L, E5. }
  pose proof (bind_imports_runs a (pe_imports img) sup s6 Hk6 Hn6 ltac:(intros x Hx; apply Hw, elem_of_app; by left)) as Hb.
  change (wp (let! bound := bind_imports walk load a (pe_imports img) sup in ret (if bound then Some m else None)) s6 (fun r s' => listed r /\ known s' /\ dom (modules_ s5) ⊆ dom (modules_ s')) no_fuel).
  apply wp_bind. eapply wp_mono; [exact Hb| |done]. intros bound s7 (_ & Hk7 & Hd7). apply wp_ret. split; [|split; [done|by etrans]]. intros m' Em. destruct bound; [|done]. by injection Em as <-.
Qed.
End Resolving.

Lemma load_module_runs fuel : forall n sup s, known s -> (need s < fuel)%nat \/ (lower n ∈ U /\ modules_ s !! lower n = None /\ need s <= fuel)%nat -> runs listed (load_module walk fs fuel n sup) s.
Proof using files_within walk_all laws.
  induction fuel as [|fuel IH]; intros n sup s Hk Hn.
  { exfalso. destruct Hn as [?|(Hu & Hnone & Hn)]; [lia|]. unfold need in Hn. apply Nat.le_0_r, size_empty_inv in Hn. apply (not_elem_of_empty (C := gset str) (lower n)), (Hn (lower n)), elem_of_difference. split; [done|by apply not_elem_of_dom]. }
  cbn [load_module]. destruct (open_system_image fs n) as [raw|] eqn:E; [|by apply runs_ret]. unfold map_img. destruct (pe_virtual_image raw) as [img|] eqn:Ei; [|done].
  pose proof (files_within n raw img E Ei) as Hw. destruct img as [|c img]; [by apply runs_ret|]. apply (map_laid_out_runs (load_module walk fs fuel) fuel); [|done|done|].
  - intros n' sup' s' Hk' Hn' Hu Hnone. apply IH; [done|]. by right.
  - destruct Hn as [?|(? & ? & ?)]; [left; lia|by right].
Qed.
End Names.

Lemma file_listed path raw img : file_data fs path = Some raw -> pe_virtual_image raw = Some img -> img ∈ file_images.
Proof.
  unfold file_data, file_images. intros Hf Hi. destruct (open path fs) as [r|]; [|done]. cbn in Hf. injection Hf as <-. apply list_elem_of_omap. exists (default [] (contents fs !! r)). split; [|done].
  destruct (contents fs !! r) as [l|] eqn:E; cbn; [|apply list_elem_of_here]. apply list_elem_of_further, list_elem_of_fmap. exists (r, l). split; [done|]. by apply elem_of_map_to_list.
Qed.
Lemma all_names_files s n raw img : open_system_image fs n = Some raw -> pe_virtual_image raw = Some img -> within (all_names s) (image_names img).
Proof.
  intros E Ei x Hx. apply elem_of_list_to_set, elem_of_app. left. apply (elem_flat_map _ _ _ img); [|done].
  unfold open_system_image, first_of in E. destruct (file_data fs (system32_dir ++ n)) eqn:E1; [injection E as ->|]; by eapply file_listed.
Qed.
Lemma all_names_modules s : known (all_names s) s.
Proof.
  intros key m Em x Hx. apply elem_of_list_to_set, elem_of_app. right. apply (elem_flat_map _ _ _ m); [|done]. apply list_elem_of_fmap. exists (key, m). split; [done|]. by apply elem_of_map_to_list.
Qed.

Lemma files_in_order : (forall img, img ∈ file_images -> img <> [] -> image_ok img) -> files_ok.
Proof. intros H n raw img E Ei. apply H. unfold open_system_image, first_of in E. destruct (file_data fs (system32_dir ++ n)) eqn:E1; [injection E as ->|]; by eapply file_listed. Qed.

(** C4: loading ends, however images import and forward to each other: it goes no deeper
    than there are names.  It keeps what was there, and when it succeeds the module
    and all that came with it are relocated and bound. *)
Theorem load_module_complete fuel n sup s : (size (all_names s) < fuel)%nat -> modules_ s !! lower n = None ->
  wp (load_module walk fs fuel n sup) s (loads n s) (fun e _ => e <> out_of_fuel).
Proof using walk_all images_ok laws.
  intros Hf Hn. pose proof (load_module_good fuel n sup s Hn) as H1. assert (need (all_names s) s < fuel)%nat as Hneed.
  { eapply Nat.le_lt_trans; [|exact Hf]. apply names_less. }
  pose proof (load_module_runs (all_names s) (all_names_files s) fuel n sup s (all_names_modules s) (or_introl Hneed)) as H2. unfold runs, wp, no_fuel in *. by destruct (load_module _ _ _ _ _ s) as [[r|e] s'].
Qed.
End Loading.
End Space.

(** ** Views of sections *)

Module SectionThm.
Import Sections.

(** Pages given are fresh and zero; pages taken back are gone; nothing else changes. *)
Class ViewSpaceLaws (K : Type) `{!ImageSpace K} `{!ViewSpace K} : Type := {
  vs_get_set : forall m k, is_mem (is_set m k) = m;
  vs_set_get : forall k, is_set (is_mem k) k = k;
  vs_alloc_ok : forall n prot image k a k', vs_alloc n prot image k = (Ok a, k') -> a <> 0 ->
    0 < a /\ a + n <= 2 ^ 64 /\ holds (is_mem k') a (replicate (Z.to_nat n) 0) /\
    (forall x, a <= x < a + n -> is_mem k x = None) /\ forall x, ~ a <= x < a + n -> is_mem k' x = is_mem k x;
  vs_unmap_ok : forall a n k k', vs_unmap a n k = (Ok tt, k') ->
    (forall x, a <= x < a + n -> is_mem k' x = None) /\ forall x, ~ a <= x < a + n -> is_mem k' x = is_mem k x
}.

(** An optional word. *)
Definition word (m : gmem) (a v : Z) : Prop := if a =? 0 then v = 0 else 0 < a /\ a + 8 <= 2 ^ 64 /\ 0 <= v < 2 ^ 64 /\ holds m a (le_bytes 8 v).
Definition room (m : gmem) (a : Z) : Prop := a = 0 \/ (0 < a /\ a + 8 <= 2 ^ 64 /\ mapped m a 8).
Definition in_word (a x : Z) : Prop := a <> 0 /\ a <= x < a + 8.

Section Views.
Context {pe : PeLib} {K : Type} {sp : ImageSpace K} {vs : ViewSpace K} {laws : ViewSpaceLaws K}.
Abbreviation sst := (st (ssys K)).
Implicit Types (s : ssys K).

Definition memory s : gmem := is_mem (Sections.kern s).
(** All but the memory. *)
Definition same_rest s s' : Prop := fs s' = fs s /\ tbl s' = tbl s /\ hosts s' = hosts s /\ fresh_host s' = fresh_host s.
Definition none {A} : error -> A -> Prop := fun _ _ => True.

Lemma with_kern s k : same_rest s (SSys k (fs s) (tbl s) (hosts s) (fresh_host s) (views s)).
Proof. done. Qed.

Lemma read_optional a v s : word (memory s) a v -> (if a =? 0 then ret 0 else Sections.read_word 8 a) s = (Ok v, s).
Proof using laws.
  unfold word. destruct (a =? 0); [by intros ->|]. intros (H1 & H2 & H3 & H4). pose proof (read_mem_holds (memory s) (le_bytes 8 v) a ltac:(lia)) as E. rewrite length_le_bytes in E. specialize (E ltac:(lia) H4).
  unfold Sections.read_word, Sections.on_mem, Sections.in_space. unfold memory in E. rewrite (bind_ok _ _ _ _ _ E). unfold ret. cbn beta iota. rewrite vs_set_get, le_val_bytes, Z.mod_small by (change (256 ^ Z.of_nat 8) with (2 ^ 64); lia). by destruct s.
Qed.

Lemma write_view a l s : 0 <= a -> a + Z.of_nat (length l) <= 2 ^ 64 -> mapped (memory s) a (Z.of_nat (length l)) ->
  exists k, Sections.on_mem (write_mem a l) s = (Ok tt, SSys k (fs s) (tbl s) (hosts s) (fresh_host s) (views s)) /\ same (is_mem k) (splice a l (memory s)).
Proof using laws.
  intros H1 H2 H3. destruct (write_mem_mapped l a (memory s) H1 H2 H3) as (m & E & Hm). unfold memory in E. eexists. split; [unfold Sections.on_mem, Sections.in_space; by rewrite E|]. by rewrite vs_get_set.
Qed.
Lemma write_optional a v s : room (memory s) a ->
  exists k, optional a (Sections.write_word 8 a v) s = (Ok tt, SSys k (fs s) (tbl s) (hosts s) (fresh_host s) (views s)) /\
    (a <> 0 -> holds (is_mem k) a (le_bytes 8 v)) /\ (forall x, is_Some (memory s x) -> is_Some (is_mem k x)) /\ forall x, ~ in_word a x -> is_mem k x = memory s x.
Proof using laws.
  unfold room, optional, in_word. intros Hr. destruct (Z.eqb_spec a 0) as [->|Ha]; [exists (Sections.kern s); by destruct s|]. destruct Hr as [?|(H1 & H2 & H3)]; [done|].
  destruct (write_view a (le_bytes 8 v) s) as (k & E & Hs); rewrite ?length_le_bytes; [lia|done|done|]. exists k. split; [exact E|]. split; [intros _; eapply same_holds; [exact Hs|apply splice_holds]|]. split.
  - intros x Hx. rewrite Hs. apply (splice_mapped _ _ _ x 1); [intros y Hy; by replace y with x by lia|lia].
  - intros x Hx. rewrite Hs, splice_out; [done|]. rewrite length_le_bytes. tauto.
Qed.

(** What a view shows: the bytes of its file, zeros past them. *)
Definition shown (h : section_host) (offset len : Z) s : list Z :=
  resize (Z.to_nat len) 0 (match file h with Some f => drop (Z.to_nat offset) (data f s) | None => [] end).

Lemma place_view_ok base_address view_size prot len h copied s : is_image h = false -> 0 <= len -> (length copied <= Z.to_nat len)%nat ->
  room (memory s) base_address -> room (memory s) view_size -> (forall x, in_word base_address x -> ~ in_word view_size x) ->
  wp (place_view base_address view_size prot len h copied 0) s (fun status s' => same_rest s s' /\
    ((status = STATUS_INSUFFICIENT_RESOURCES /\ views s' = views s) \/
     (status = STATUS_SUCCESS /\ exists a, views s' = <[a := len]> (views s) /\ (forall x, a <= x < a + len -> memory s x = None) /\
      holds (memory s') a (resize (Z.to_nat len) 0 copied) /\ (base_address <> 0 -> holds (memory s') base_address (le_bytes 8 a)) /\ (view_size <> 0 -> holds (memory s') view_size (le_bytes 8 len)) /\
      forall x, ~ a <= x < a + len -> ~ in_word base_address x -> ~ in_word view_size x -> memory s' x = memory s x))) none.
Proof using laws.
  intros Hi Hl Hc Hb Hv Hd. unfold place_view. rewrite Hi. apply wp_bind. unfold wp at 1, Sections.in_space. destruct (vs_alloc len prot false (Sections.kern s)) as [[a|e] k] eqn:Ea; [|done].
  destruct (Z.eqb_spec a 0) as [|Ha]; [split; [done|by left]|]. destruct (vs_alloc_ok _ _ _ _ _ _ Ea Ha) as (H1 & H2 & H3 & H4 & H5). set (s1 := SSys k _ _ _ _ _).
  assert (exists k2, (match copied with [] => ret tt | _ => Sections.on_mem (write_mem a copied) end) s1 = (Ok tt, SSys k2 (fs s) (tbl s) (hosts s) (fresh_host s) (views s)) /\ same (is_mem k2) (splice a copied (is_mem k))) as (k2 & E2 & Hs2).
  { destruct copied as [|c copied']; [exists k; split; [done|]; intros x; by rewrite splice_out by (cbn; lia)|]. apply (write_view a (c :: copied') s1); [lia|lia|].
    intros x Hx. destruct (lookup_lt_is_Some_2 (replicate (Z.to_nat len) 0) (Z.to_nat (x - a))) as [b Hb']; [rewrite length_replicate; lia|]. exists b. rewrite <- (H3 _ _ Hb'). unfold memory, s1. cbn [Sections.kern]. f_equal. lia. }
  apply wp_bind. unfold wp at 1. rewrite E2. clear E2. set (s2 := SSys k2 _ _ _ _ _). apply wp_bind. cbn [ret wp].
  assert (forall x, ~ a <= x < a + len -> memory s2 x = memory s x) as Hout.
  { intros x Hx. unfold memory, s2. cbn [Sections.kern]. rewrite Hs2, splice_out by lia. by apply H5. }
  assert (forall x, in_word base_address x \/ in_word view_size x -> is_Some (memory s x)) as Hmap.
  { intros x [[Hz Hx]|[Hz Hx]]; [destruct Hb as [?|(_ & _ & Hm)]|destruct Hv as [?|(_ & _ & Hm)]]; [done|by apply Hm|done|by apply Hm]. }
  assert (forall x, in_word base_address x \/ in_word view_size x -> ~ a <= x < a + len) as Hapart by (intros x Hx Hin; destruct (Hmap x Hx) as [b Eb]; unfold memory in Eb; rewrite H4 in Eb; done).
  assert (holds (memory s2) a (resize (Z.to_nat len) 0 copied)) as Hshow.
  { eapply same_holds; [exact Hs2|]. intros i b Hi'. rewrite resize_ge in Hi' by done. apply lookup_app_Some in Hi' as [Hi'|[Hge Hi']].
    - rewrite splice_in by (apply lookup_lt_Some in Hi'; lia). rewrite <- Hi'. f_equal. lia.
    - rewrite splice_out by lia. apply lookup_replicate in Hi' as [-> Hlt]. apply H3. apply lookup_replicate. split; [done|lia]. }
  assert (room (memory s2) base_address) as Hb2 by (destruct Hb as [?|(? & ? & Hm)]; [by left|right; split_and!; [done..|]; intros x Hx; rewrite Hout; [by apply Hm|apply Hapart; left; split; [lia|done]]]).
  destruct (write_optional base_address a s2 Hb2) as (k3 & E3 & W3 & M3 & O3). apply wp_bind. unfold wp at 1. rewrite E3. clear E3. set (s3 := SSys k3 _ _ _ _ _).
  assert (room (memory s3) view_size) as Hv3 by (destruct Hv as [?|(? & ? & Hm)]; [by left|right; split_and!; [done..|]; intros x Hx; apply M3; rewrite Hout; [by apply Hm|apply Hapart; right; split; [lia|done]]]).
  destruct (write_optional view_size len s3 Hv3) as (k4 & E4 & W4 & M4 & O4). apply wp_bind. unfold wp at 1. rewrite E4. clear E4. unfold wp. cbn. split; [done|]. right. split; [done|]. exists a. split; [done|].
  split; [exact H4|]. assert (forall x, ~ in_word base_address x -> ~ in_word view_size x -> is_mem k4 x = memory s2 x) as Hk4 by (intros x Hx1 Hx2; rewrite O4 by done; by apply O3).
  split; [|split; [|split; [exact W4|]]].
  - intros i b Hi'. change (is_mem k4 (a + Z.of_nat i) = Some b). rewrite Hk4; [by apply Hshow|..]; intros Hw; eapply Hapart; [by left| |by right|]; apply lookup_lt_Some in Hi'; rewrite length_resize in Hi'; lia.
  - intros Hz i b Hi'. change (is_mem k4 (base_address + Z.of_nat i) = Some b). rewrite O4; [by apply W3|]. apply Hd. split; [done|]. apply lookup_lt_Some in Hi'. cbn in Hi'. lia.
  - intros x Hx1 Hx2 Hx3. change (is_mem k4 x = memory s x). rewrite Hk4 by done. by apply Hout.
Qed.

Lemma resize_take n (l : list Z) : resize n 0 (take n l) = resize n 0 l.
Proof.
  destruct (decide (length l <= n)%nat); [by rewrite take_ge|]. rewrite (resize_le l) by lia. rewrite resize_all_alt; [done|]. rewrite length_take. lia.
Qed.

(** A view shows the bytes of the section from the offset on, in pages that were nobody's;
    the size asked for is cut to what there is; and when it is unmapped memory is as
    it was, but for the words the guest was given. *)
Theorem section_view section_handle process_handle base_address section_offset view_size prot offset wanted h s : is_current_process process_handle = true ->
  section_of section_handle s = Some h -> is_image h = false -> word (memory s) section_offset offset -> word (memory s) view_size wanted -> 0 <= offset < size h -> 0 <= wanted ->
  room (memory s) base_address -> room (memory s) view_size -> (forall x, in_word base_address x -> ~ in_word view_size x) ->
  let len := Z.min (if wanted =? 0 then size h - offset else wanted) (size h - offset) in
  wp (NtMapViewOfSection section_handle process_handle base_address section_offset view_size prot) s (fun status s' => same_rest s s' /\
    ((status = STATUS_INSUFFICIENT_RESOURCES /\ views s' = views s) \/
     (status = STATUS_SUCCESS /\ exists a, views s' = <[a := len]> (views s) /\ (forall x, a <= x < a + len -> memory s x = None) /\ holds (memory s') a (shown h offset len s) /\
      (base_address <> 0 -> holds (memory s') base_address (le_bytes 8 a)) /\ (view_size <> 0 -> holds (memory s') view_size (le_bytes 8 len)) /\
      wp (NtUnmapViewOfSection process_handle a) s' (fun status s'' => status = STATUS_SUCCESS /\ same_rest s s'' /\ views s'' = delete a (views s) /\
        forall x, ~ in_word base_address x -> ~ in_word view_size x -> memory s'' x = memory s x) none))) none.
Proof using laws.
  intros Hp Hh Hi Ho Hw Hoff Hwa Hb Hv Hd len. unfold NtMapViewOfSection. rewrite Hp. cbn [negb]. unfold wp, bind at 1, get. rewrite Hh.
  rewrite (bind_ok _ _ _ _ _ (read_optional section_offset offset s Ho)), (proj2 (Z.leb_gt _ _)) by lia. rewrite (bind_ok _ _ _ _ _ (read_optional view_size wanted s Hw)). cbn zeta. rewrite Hi. fold len.
  assert (0 <= len) as Hl by (unfold len; destruct (Z.eqb_spec wanted 0); lia). set (copied := match file h with Some f => _ | None => [] end).
  assert (resize (Z.to_nat len) 0 copied = shown h offset len s) as Hs by (unfold copied, shown; destruct (file h); [apply resize_take|done]).
  eapply wp_mono; [apply place_view_ok; [done|done| |done|done|done]| |done]; [unfold copied; destruct (file h); [rewrite length_take; lia|cbn; lia]|].
  intros status s' [Hr [?|(-> & a & Ev & Hn & Hh' & Hba & Hvs & Hout)]]; split; [done|by left|done|]. right. split; [done|]. exists a. rewrite Hs in Hh'. do 5 (split; [done|]).
  unfold NtUnmapViewOfSection. rewrite Hp. cbn [negb]. unfold wp, bind at 1, get. rewrite Ev, lookup_insert_eq. unfold bind at 1, Sections.in_space. destruct (vs_unmap a len (Sections.kern s')) as [[[]|e] k] eqn:Eu; [|done].
  destruct (vs_unmap_ok _ _ _ _ Eu) as [U1 U2]. cbn. split; [done|]. split; [exact Hr|]. split; [by rewrite Ev, delete_insert_eq|]. intros x Hx1 Hx2. unfold memory. cbn [Sections.kern].
  destruct (decide (a <= x < a + len)) as [Hx|Hx]; [rewrite U1 by done; symmetry; by apply Hn|]. rewrite U2 by done. by apply Hout.
Qed.

(** What is not a view is not unmapped, one that was twice included. *)
Lemma unmap_refused process_handle a s : is_current_process process_handle = true -> views s !! a = None -> NtUnmapViewOfSection process_handle a s = (Ok STATUS_INVALID_PARAMETER, s).
Proof. intros Hp Ha. unfold NtUnmapViewOfSection. rewrite Hp. cbn. unfold bind, get. by rewrite Ha. Qed.

(** A section made is the one its handle stands for, and its body gives its size. *)
Lemma new_section_ok h access base s : (base +w hdr_size) <> 0 -> (base +w hdr_size) + 64 <= 2 ^ 64 -> mapped (memory s) (base +w hdr_size) 64 ->
  exists s', new_section h access base s = (Ok (next_handle_ (tbl s)), s') /\ section_of (next_handle_ (tbl s)) s' = Some h /\
    holds (memory s') ((base +w hdr_size) + 0x30) (le_bytes 8 (size h)) /\ views s' = views s /\ fs s' = fs s.
Proof using laws.
  intros H0 Hend Hm. pose proof (u64_range (base + hdr_size)) as Hu. unfold in_u64 in Hu. set (a := base +w hdr_size) in *. unfold new_section, create_object. fold a.
  destruct (write_view a (section_body (size h)) s) as (k & E & Hs); [lia|done|done|]. rewrite (bind_ok _ _ _ _ _ E). unfold bind at 1, modify. rewrite (proj2 (Z.eqb_neq a 0)) by done.
  unfold bind at 1, get, create_handle, has_object, on_objs, set_objects. cbn [tbl objs_ objects_]. rewrite bool_decide_true by (rewrite lookup_insert_eq; by eexists).
  eexists. split; [reflexivity|]. split; [|split; [|done]].
  - unfold section_of, host_of, get_object_of, lookup_handle, get_object, increment_handle_count, on_header, set_objects, set_tbl. cbn. rewrite lookup_insert_eq. cbn. rewrite lookup_alter_eq, lookup_insert_eq. cbn. by rewrite lookup_insert_eq.
  - eapply same_holds; [exact Hs|]. pose proof (splice_holds a (section_body (size h)) (memory s)) as Hb. apply (holds_part _ _ _ 0x30 8) in Hb. exact Hb.
Qed.
End Views.
End SectionThm.
