(* ===== verification/IrpOps.v ===== *)
(** * Requests to drivers

    [Dev]: the devices of modules/nt_misc_ops.cpp and their names.  [Irp]:
    kernel/win/irp.hpp, mdl.hpp and [find_device] and [dispatch_irp] of
    win_kernel.hpp: a request is built in pool memory, handed to the driver's
    dispatch routine and read back.  What the driver does is a parameter.  The
    state is shared with the entry points of [IoOps]. *)

From stdpp Require Import list gmap.
From S2P Require Import Prelude Mmu Paths Objects Filesystem GuestMem StringOps.
From stdpp Require Import options.

Open Scope Z_scope.
Open Scope kern_scope.

Module Irp.

Definition STATUS_PENDING : Z := 0x103.
Definition STATUS_INVALID_DEVICE_REQUEST : Z := 0xC0000010.
Definition STATUS_INSUFFICIENT_RESOURCES : Z := 0xC000009A.

(** ** State *)

(** [file] is the shared file of [Filesystem], null for a device or the console. *)
Record file_host : Type := FileHost {
  file : option nat; path : str; position : Z; console : bool; device_object : Z; file_object : Z
}.
Definition set_position n h := FileHost (file h) (path h) n (console h) (device_object h) (file_object h).

Inductive ihost : Type :=
  | HFile (h : file_host)
  | HDevice (driver_object : Z) (name : str)
  | HLink (target : str)
  | HOther.

(** [shown]: what went to the emulator's own stdout. *)
Record isys (K : Type) : Type := ISys {
  kern : K; fs : filesystem; tbl : table; hosts : gmap Z ihost; fresh_host : Z; shown : list Z
}.
Arguments ISys {K}. Arguments kern {K}. Arguments fs {K}. Arguments tbl {K}. Arguments hosts {K}. Arguments fresh_host {K}. Arguments shown {K}.

Definition set_kern {K} (k : K) (s : isys K) := ISys k (fs s) (tbl s) (hosts s) (fresh_host s) (shown s).
Definition set_fs {K} f (s : isys K) := ISys (kern s) f (tbl s) (hosts s) (fresh_host s) (shown s).
Definition set_tbl {K} t (s : isys K) := ISys (kern s) (fs s) t (hosts s) (fresh_host s) (shown s).
Definition set_host {K} r h (s : isys K) := ISys (kern s) (fs s) (tbl s) (<[r := h]> (hosts s)) (fresh_host s) (shown s).
Definition add_host {K} h (s : isys K) := ISys (kern s) (fs s) (tbl s) (<[fresh_host s := h]> (hosts s)) (fresh_host s + 1) (shown s).
Definition show {K} l (s : isys K) := ISys (kern s) (fs s) (tbl s) (hosts s) (fresh_host s) (shown s ++ l).

Definition host_at {K} (addr : Z) (s : isys K) : option ihost := get_object addr (objs_ (tbl s)) ≫= fun r => hosts s !! r.

(** ** Structures *)

(** [n] bytes, zero but for the fields, each at its offset in its width. *)
Definition fld (off w : nat) (v : Z) : nat * nat * Z := (off, w, v).
Definition struct_bytes (n : nat) (fields : list (nat * nat * Z)) : list Z :=
  foldr (fun '(off, w, v) b => take off b ++ le_bytes w v ++ drop (off + w) b) (replicate n 0) fields.

(** _IRP, _IO_STACK_LOCATION and mdl_t; both architectures lay them out alike. *)
Definition irp_size : Z := 0xD0.
Definition stack_location_size : Z := 0x48.
Definition major_function_offset : Z := 0x70.
Definition io_status_offset : Z := 0x30.
Definition stack_count_offset : Z := 0x42.
Definition current_location_offset : Z := 0x43.

Definition io_type_irp : Z := 6.
Definition user_mode : Z := 1.
Definition irp_stack_count : Z := 1.
Definition irp_buffered_io : Z := 0x10.
Definition irp_deallocate_buffer : Z := 0x20.
Definition irp_input_operation : Z := 0x40.
Definition irp_mj_create : Z := 0.
Definition irp_mj_device_control : Z := 0x0E.
Definition irp_pool_tag : Z := 0x20707249.
Definition mdl_pool_tag : Z := 0x206C644D.

Definition method_buffered : Z := 0.
Definition method_in_direct : Z := 1.
Definition method_out_direct : Z := 2.
Definition method_neither : Z := 3.
Definition control_code_method (code : Z) : Z := Z.land code 3.

Definition mdl_page_size : Z := 0x1000.
Definition mdl_page_base (addr : Z) : Z := Z.land addr (Z.lnot (mdl_page_size - 1)).
Definition mdl_page_offset (addr : Z) : Z := Z.land addr (mdl_page_size - 1).
Definition mdl_page_count (va bytes : Z) : Z := (mdl_page_offset va + bytes + mdl_page_size - 1) / mdl_page_size.
Definition mdl_size (va bytes : Z) : Z := 0x30 + mdl_page_count va bytes * 8.
Definition mdl_mapped_to_system_va : Z := 1.
Definition mdl_pages_locked : Z := 2.
Definition mdl_bytes (va bytes flags mapped_system_va : Z) : list Z :=
  struct_bytes 0x30 [fld 8 2 (mdl_size va bytes); fld 10 2 flags; fld 24 8 mapped_system_va; fld 32 8 (mdl_page_base va); fld 40 4 bytes; fld 44 4 (mdl_page_offset va)].

Record irp_request : Type := IrpRequest {
  major : Z; rq_device : Z; rq_file : Z; control_code : Z; input_buffer : Z; input_length : Z; output_buffer : Z; output_length : Z
}.

Definition irp_bytes (copies_in : bool) (req : irp_request) (mdl buffer user_buffer stack : Z) : list Z :=
  let flags := if copies_in then Z.lor (Z.lor irp_buffered_io irp_deallocate_buffer) (if input_length req =? 0 then 0 else irp_input_operation) else 0 in
  struct_bytes (Z.to_nat irp_size) [fld 0 2 io_type_irp; fld 2 2 (irp_size + stack_location_size); fld 8 8 mdl; fld 0x10 4 flags; fld 0x18 8 buffer;
    fld 0x40 1 user_mode; fld 0x42 1 irp_stack_count; fld 0x43 1 irp_stack_count; fld 0x70 8 user_buffer; fld 0xB8 8 stack].

Definition stack_bytes (is_control : bool) (req : irp_request) (type3_input : Z) : list Z :=
  struct_bytes (Z.to_nat stack_location_size) ([fld 0 1 (major req); fld 0x28 8 (rq_device req); fld 0x30 8 (rq_file req)] ++
    if is_control then [fld 0x8 4 (output_length req); fld 0x10 4 (input_length req); fld 0x18 4 (control_code req); fld 0x20 8 type3_input] else []).

(** ** Dispatch *)

Section Dispatch.
Context {K : Type} `{!GuestPool K}.
Abbreviation ist := (st (isys K)).

(** A guest routine run in kernel mode: it can change anything. *)
Context (guest : Z -> list Z -> isys K -> isys K).

Definition in_kern {A} (f : st K A) : ist A := fun s => let '(r, k) := f (kern s) in (r, set_kern k s).
Definition on_mem {A} (f : gst A) : ist A := in_kern (StringOps.on_mem f).
Definition read_word (w : nat) (a : Z) : ist Z := on_mem (let! l := read_mem a w in ret (le_val l)).

(** [pool_block]: memory borrowed from the pool and given back however the body
    ends, thrown exceptions included. *)
Definition with_block {A} (size tag : Z) (body : Z -> ist A) : ist A :=
  let! addr := (if size =? 0 then ret 0 else in_kern (gp_allocate size tag true)) in
  fun s => let '(r, s) := body addr s in
           if addr =? 0 then (r, s) else (r, snd (in_kern (gp_free addr) s)).

Definition copy_guest (to from size : Z) : ist unit :=
  if (size =? 0) || (to =? 0) || (from =? 0) then ret tt else
  let! staged := on_mem (read_mem from (Z.to_nat size)) in on_mem (write_mem to staged).

(** From the filled buffers on: the request is written, the driver called, and the
    answer read back. *)
Definition call_driver (routine : Z) (is_control copies_in copies_out : bool) (method : Z) (req : irp_request) (buffer mdl irp : Z) : ist (Z * Z) :=
  let stack_addr := irp + irp_size in
  on_mem (write_mem irp (irp_bytes copies_in req mdl buffer (if copies_out then 0 else output_buffer req) stack_addr)) ;;
  on_mem (write_mem stack_addr (stack_bytes is_control req (if method =? method_neither then input_buffer req else 0))) ;;
  modify (guest routine [rq_device req; irp]) ;;
  let! io_status := on_mem (read_mem (irp + io_status_offset) 16) in
  let status := le_val (take 4 io_status) in
  let information := le_val (drop 8 io_status) in
  let! current := read_word 1 (irp + current_location_offset) in
  let! count := read_word 1 (irp + stack_count_offset) in
  if negb (signed 8 count <? signed 8 current) then ret (if status =? STATUS_SUCCESS then STATUS_PENDING else status, 0) else
  (if copies_out then copy_guest (output_buffer req) buffer (Z.min information (output_length req)) else ret tt) ;;
  ret (status, information).

Definition dispatch_irp (req : irp_request) : ist (Z * Z) :=
  let! s := get in
  match host_at (rq_device req) s with
  | Some (HDevice driver_object _) =>
      let! routine := read_word 8 (driver_object + major_function_offset + major req * 8) in
      if routine =? 0 then ret (STATUS_INVALID_DEVICE_REQUEST, 0) else
      let is_control := major req =? irp_mj_device_control in
      let method := if is_control then control_code_method (control_code req) else method_buffered in
      let copies_out := is_control && (method =? method_buffered) in
      let copies_in := is_control && negb (method =? method_neither) in
      let needs_mdl := is_control && ((method =? method_in_direct) || (method =? method_out_direct)) in
      with_block (if copies_in then Z.max (input_length req) (if copies_out then output_length req else 0) else 0) irp_pool_tag (fun buffer =>
      with_block (if needs_mdl && negb (output_buffer req =? 0) then mdl_size (output_buffer req) (output_length req) else 0) mdl_pool_tag (fun mdl =>
      with_block (irp_size + irp_stack_count * stack_location_size) irp_pool_tag (fun irp =>
        if (irp =? 0) || (copies_in && negb (input_length req =? 0) && (buffer =? 0)) then ret (STATUS_INSUFFICIENT_RESOURCES, 0) else
        (if copies_in then copy_guest buffer (input_buffer req) (input_length req) else ret tt) ;;
        (if mdl =? 0 then ret tt else
           on_mem (write_mem mdl (mdl_bytes (output_buffer req) (output_length req) (Z.lor mdl_mapped_to_system_va mdl_pages_locked) (output_buffer req)))) ;;
        call_driver routine is_control copies_in copies_out method req buffer mdl irp)))
  | _ => ret (STATUS_INVALID_PARAMETER, 0)
  end.

(** ** Devices by name *)

(** Links are followed, at most eight names. *)
Fixpoint find_device_loop (depth : nat) (name : str) (s : isys K) : Z :=
  match depth with
  | O => 0
  | S depth =>
      let addr := lookup_named_object name (objs_ (tbl s)) in
      if addr =? 0 then 0 else
      match host_at addr s with
      | Some (HDevice _ _) => addr
      | Some (HLink target) => find_device_loop depth (normalize target) s
      | _ => 0
      end
  end.
Definition find_device (path : str) (s : isys K) : Z := find_device_loop 8 (normalize path) s.

End Dispatch.
End Irp.

(** ** Devices

    What a driver makes them with, in modules/nt_misc_ops.cpp and win_kernel.hpp.
    [base] is where the object manager puts an object. *)

Module Dev.
Import Irp.

Definition STATUS_INSUFFICIENT_RESOURCES : Z := 0xC000009A.
Definition io_type_device : Z := 3.
Definition do_exclusive : Z := 0x8.
Definition do_device_initializing : Z := 0x80.
Definition do_shutdown_registered : Z := 0x800.
(** _DEVICE_OBJECT, and the list of a driver's devices in _DRIVER_OBJECT. *)
Definition device_object_size : Z := 0x150.
Definition next_device_offset : Z := 0x10.
Definition device_flags_offset : Z := 0x30.
Definition driver_devices_offset : Z := 0x8.

Section Names.
Context {K : Type}.
Implicit Types (s : isys K).

Definition on_names (f : manager -> manager) s : isys K := set_tbl (on_objs f (tbl s)) s.
Definition register_device (name : str) (device : Z) s : isys K :=
  match name with [] => s | _ => if device =? 0 then s else on_names (register_named_object (normalize name) device) s end.
Definition register_device_link (link target : str) (base : Z) s : isys K :=
  match link, target with
  | [], _ | _, [] => s
  | _, _ =>
      let r := fresh_host s in
      let '(addr, m) := create_object base 0 (Some r) (objs_ (tbl s)) in
      let s := on_names (fun _ => m) (add_host (HLink target) s) in
      if addr =? 0 then s else on_names (register_named_object (normalize link) addr) s
  end.
Definition unregister_device_name (name : str) s : isys K :=
  match name with [] => s | _ => on_names (unregister_named_object (normalize name)) s end.

Context `{!GuestPool K}.
Abbreviation ist := (st (isys K)).

Definition create_device_object (driver_object device_extension_size : Z) (name : str) (device_type characteristics : Z) (exclusive : bool) (base : Z) : ist Z := fun s =>
  let extension_size := Z.land (u32 (device_extension_size + 7)) (Z.lnot 7) in
  let body_size := device_object_size + extension_size in
  let r := fresh_host s in
  let '(addr, m) := create_object base 0 (Some r) (objs_ (tbl s)) in
  (on_mem (write_mem addr (replicate (Z.to_nat body_size) 0)) ;;
   modify (fun s => on_names (fun _ => m) (add_host (HDevice driver_object name) s)) ;;
   if addr =? 0 then ret 0 else
   let! head := read_word 8 (driver_object + driver_devices_offset) in
   on_mem (write_mem addr (struct_bytes (Z.to_nat device_object_size)
     [fld 0 2 io_type_device; fld 2 2 (u16 body_size); fld 4 4 1; fld 8 8 driver_object; fld 0x10 8 head;
      fld 0x30 4 (Z.lor do_device_initializing (if exclusive then do_exclusive else 0)); fld 0x34 4 characteristics;
      fld 0x40 8 (if device_extension_size =? 0 then 0 else addr + device_object_size); fld 0x48 4 device_type; fld 0x4C 1 1])) ;;
   on_mem (write_mem (driver_object + driver_devices_offset) (le_bytes 8 addr)) ;;
   modify (register_device name addr) ;; ret addr) s.

Definition IoCreateDevice (driver_object device_extension_size device_name device_type characteristics : Z) (exclusive : bool) (device_object_out base : Z) : ist Z :=
  if (driver_object =? 0) || (device_object_out =? 0) then ret STATUS_INVALID_PARAMETER else
  let! name := on_mem (read_unicode_string device_name) in
  let! addr := create_device_object driver_object device_extension_size (narrow_wstring name) device_type characteristics exclusive base in
  if addr =? 0 then ret STATUS_INSUFFICIENT_RESOURCES else
  on_mem (write_mem device_object_out (le_bytes 8 addr)) ;; ret STATUS_SUCCESS.

Definition IoCreateDeviceSecure (driver_object device_extension_size device_name device_type characteristics : Z) (exclusive : bool)
    (default_sddl device_security_descriptor device_object_out base : Z) : ist Z :=
  if (driver_object =? 0) || (device_object_out =? 0) then ret STATUS_INVALID_PARAMETER else
  let! name := on_mem (read_unicode_string device_name) in
  on_mem (read_unicode_string default_sddl) ;;
  let! addr := create_device_object driver_object device_extension_size (narrow_wstring name) device_type characteristics exclusive base in
  if addr =? 0 then ret STATUS_INSUFFICIENT_RESOURCES else
  (if device_security_descriptor =? 0 then ret tt else on_mem (write_mem device_security_descriptor (le_bytes 8 0))) ;;
  on_mem (write_mem device_object_out (le_bytes 8 addr)) ;; ret STATUS_SUCCESS.

(** The walk along the driver's list to the link that points at the device. *)
Fixpoint unlink_device (fuel : nat) (device next link : Z) : ist unit :=
  match fuel with
  | O => throw out_of_fuel
  | S fuel =>
      if link =? 0 then ret tt else
      let! entry := read_word 8 link in
      if entry =? 0 then ret tt else
      if entry =? device then on_mem (write_mem link (le_bytes 8 next)) else unlink_device fuel device next (entry + next_device_offset)
  end.

Definition IoDeleteDevice (fuel : nat) (device_object : Z) : ist unit :=
  if device_object =? 0 then ret tt else
  let! s := get in
  match host_at device_object s with
  | Some (HDevice driver_object name) =>
      let! next := read_word 8 (device_object + next_device_offset) in
      unlink_device fuel device_object next (driver_object + driver_devices_offset) ;;
      modify (unregister_device_name name) ;;
      modify (on_names (dereference_object device_object))
  | _ => ret tt
  end.

Definition IoCreateSymbolicLink (symbolic_link_name device_name base : Z) : ist Z :=
  let! link := on_mem (read_unicode_string symbolic_link_name) in
  let! target := on_mem (read_unicode_string device_name) in
  modify (register_device_link (narrow_wstring link) (narrow_wstring target) base) ;; ret STATUS_SUCCESS.

(** Past the last stack location: the request is complete. *)
Definition IofCompleteRequest (irp : Z) : ist unit :=
  if irp =? 0 then ret tt else
  let! stack_count := read_word 1 (irp + stack_count_offset) in
  on_mem (write_mem (irp + current_location_offset) (le_bytes 1 (u8 (stack_count + 1)))).

Definition IoRegisterShutdownNotification (device_object : Z) : ist Z :=
  if device_object =? 0 then ret STATUS_INVALID_PARAMETER else
  let! flags := read_word 4 (device_object + device_flags_offset) in
  on_mem (write_mem (device_object + device_flags_offset) (le_bytes 4 (Z.lor flags do_shutdown_registered))) ;; ret STATUS_SUCCESS.
Definition IoUnregisterShutdownNotification (device_object : Z) : ist unit :=
  if device_object =? 0 then ret tt else
  let! flags := read_word 4 (device_object + device_flags_offset) in
  on_mem (write_mem (device_object + device_flags_offset) (le_bytes 4 (Z.land flags (Z.lnot do_shutdown_registered)))).

End Names.
End Dev.
