(* ===== verification/IoOps.v ===== *)
(** * File and memory entry points

    [Mm]: modules/nt_mem_ops.cpp.  [Wnf]: the notification states of
    nt_misc_ops.cpp.  [Callbacks]: its callback objects and bug check callbacks.
    [Io]: modules/nt_io_ops.cpp over the files of [Filesystem], the handles of [Objects],
    guest memory and pool, and the requests of [IrpOps].  A handle on a file stands
    for an object whose host has the file and a position.  Growing a file takes host
    memory, which is taken to be there. *)

From stdpp Require Import list gmap.
From S2P Require Import Prelude Mmu Paths Objects Filesystem GuestMem StringOps Ports IrpOps.
From stdpp Require Import options.

Open Scope Z_scope.
Open Scope kern_scope.

Module Io.
Import Irp.

Definition STATUS_UNSUCCESSFUL : Z := 0xC0000001.
Definition STATUS_INVALID_INFO_CLASS : Z := 0xC0000003.
Definition STATUS_INFO_LENGTH_MISMATCH : Z := 0xC0000004.
Definition STATUS_INVALID_HANDLE : Z := 0xC0000008.
Definition STATUS_END_OF_FILE : Z := 0xC0000011.
Definition STATUS_NO_MORE_FILES : Z := 0x80000006.
Definition STATUS_OBJECT_NAME_INVALID : Z := 0xC0000033.
Definition STATUS_OBJECT_NAME_NOT_FOUND : Z := 0xC0000034.
Definition STATUS_OBJECT_NAME_COLLISION : Z := 0xC0000035.
Definition STATUS_FILE_IS_A_DIRECTORY : Z := 0xC00000BA.
Definition STATUS_NOT_A_DIRECTORY : Z := 0xC0000103.

Definition file_supersede : Z := 0.
Definition file_open : Z := 1.
Definition file_create : Z := 2.
Definition file_open_if : Z := 3.
Definition file_overwrite : Z := 4.
Definition file_overwrite_if : Z := 5.
Definition file_superseded : Z := 0.
Definition file_opened : Z := 1.
Definition file_created : Z := 2.
Definition file_overwritten : Z := 3.
Definition file_directory_information : Z := 1.
Definition file_full_directory_information : Z := 2.
Definition file_both_directory_information : Z := 3.
Definition file_basic_information : Z := 4.
Definition file_standard_information : Z := 5.
Definition file_internal_information : Z := 6.
Definition file_position_information : Z := 14.
Definition file_fs_device_information : Z := 4.
Definition file_device_disk : Z := 0x07.
Definition file_device_console : Z := 0x50.
Definition file_attribute_normal : Z := 0x80.
Definition file_attribute_directory : Z := 0x10.
Definition file_directory_file : Z := 1.
Definition file_non_directory_file : Z := 0x40.
Definition file_use_file_pointer_position : Z := -2.
Definition file_write_to_end_of_file : Z := -1.
Definition io_type_file : Z := 5.
Definition file_object_size : Z := 0xD8.
Definition file_pool_tag : Z := 0x656C6946.
Definition name_pool_tag : Z := 0x656D614E.

(** ** Files and what holds them *)

(** One more reference to the file. *)
Definition hold (r : nat) (f : filesystem) : filesystem :=
  Filesystem (files_ f) (dirs_ f) (contents f) (fun x => if decide (x = r) then S (holders f x) else holders f x) (fresh_file f).
(** [make_shared<win_file>]: a file no path names. *)
Definition new_file (f : filesystem) : nat * filesystem :=
  (fresh_file f, Filesystem (files_ f) (dirs_ f) (<[fresh_file f := []]> (contents f)) (holders f) (S (fresh_file f))).
Definition data (r : nat) (f : filesystem) : list Z := default [] (contents f !! r).

(** [memcpy] of [l] to the offset. *)
Definition overwrite (off : nat) (l c : list Z) : list Z := take off c ++ l ++ drop (off + length l) c.

Section Io.
Context {K : Type} `{!GuestPool K} (guest : Z -> list Z -> isys K -> isys K).
(** [std::hash] of a path. *)
Context (hash : str -> Z).
Abbreviation ist := (st (isys K)).

Definition open_result : Type := Z * Z.
Definition write_status_block (block : Z) (r : open_result) : ist unit :=
  if block =? 0 then ret tt else on_mem (write_mem block (struct_bytes 16 [fld 0 4 r.1; fld 8 8 r.2])).
(** The block is written and the status returned. *)
Definition finish (block : Z) (r : open_result) : ist Z := write_status_block block r ;; ret r.1.

Definition file_of (handle : Z) (s : isys K) : option (Z * file_host) :=
  get_object_of handle (tbl s) ≫= fun r => match hosts s !! r with Some (HFile h) => Some (r, h) | _ => None end.

Definition object_path (object_attributes : Z) : ist str :=
  let! n := on_mem (Ports.attribute_name object_attributes) in ret (normalize n).

Definition file_offset (byte_offset position : Z) : ist Z :=
  if byte_offset =? 0 then ret position else
  let! v := read_word 8 byte_offset in
  let value := s64 v in
  ret (if (value =? file_use_file_pointer_position) || (value =? file_write_to_end_of_file) then position
       else if value <? 0 then position else value).

(** ** Opening *)

(** The object with its host and the handle on it, 0 when there is no object; the
    handle is written where one is asked for. *)
Definition new_file_object (h : file_host) (base file_handle : Z) : ist bool := fun s =>
  let r := fresh_host s in
  let s := add_host (HFile h) s in
  let '(addr, m) := create_object base 0 (Some r) (objs_ (tbl s)) in
  let s := set_tbl (on_objs (fun _ => m) (tbl s)) s in
  if addr =? 0 then (Ok false, s) else
  (if file_handle =? 0 then ret true else
   let! s := get in
   let '(handle, t) := create_handle addr 0 (tbl s) in
   modify (set_tbl t) ;; on_mem (write_mem file_handle (le_bytes 8 handle)) ;; ret true) s.

Definition open_file (path : str) (disposition create_options base file_handle : Z) : ist open_result :=
  match path with
  | [] => ret (STATUS_OBJECT_NAME_INVALID, 0)
  | _ =>
    let! s := get in
    let is_directory := dir_exists path (fs s) in
    let existed := exists_ path (fs s) || is_directory in
    if existed && is_directory && negb (Z.land create_options file_non_directory_file =? 0) then ret (STATUS_FILE_IS_A_DIRECTORY, 0) else
    if existed && negb is_directory && negb (Z.land create_options file_directory_file =? 0) then ret (STATUS_NOT_A_DIRECTORY, 0) else
    if is_directory then
      let '(r, f) := new_file (fs s) in
      modify (set_fs (hold r f)) ;;
      let! made := new_file_object (FileHost (Some r) path 0 false 0 0) base file_handle in
      ret (if made : bool then (STATUS_SUCCESS, file_opened) else (STATUS_INSUFFICIENT_RESOURCES, 0))
    else
      let create_it := let '(r, f) := create path (fs s) in (Some r, f) in
      let open_it := (open path (fs s), fs s) in
      let chosen : option Z + (option nat * filesystem * Z) :=
        if disposition =? file_open then (if existed then inr (open_it, file_opened) else inl (Some STATUS_OBJECT_NAME_NOT_FOUND))
        else if disposition =? file_create then (if existed then inl (Some STATUS_OBJECT_NAME_COLLISION) else inr (create_it, file_created))
        else if disposition =? file_open_if then inr (if existed then (open_it, file_opened) else (create_it, file_created))
        else if disposition =? file_overwrite then (if existed then inr (create_it, file_overwritten) else inl (Some STATUS_OBJECT_NAME_NOT_FOUND))
        else if (disposition =? file_supersede) || (disposition =? file_overwrite_if) then
          inr (create_it, if existed then (if disposition =? file_supersede then file_superseded else file_overwritten) else file_created)
        else inl (Some STATUS_INVALID_PARAMETER) in
      match chosen with
      | inl status => ret (default STATUS_UNSUCCESSFUL status, 0)
      | inr (None, f, _) => modify (set_fs f) ;; ret (STATUS_UNSUCCESSFUL, 0)
      | inr (Some r, f, information) =>
          modify (set_fs (hold r f)) ;;
          let! made := new_file_object (FileHost (Some r) path 0 false 0 0) base file_handle in
          ret (if made : bool then (STATUS_SUCCESS, information) else (STATUS_INSUFFICIENT_RESOURCES, 0))
      end
  end.

(** The characters of the path in wide characters, and two zero bytes. *)
Definition wide_name (path : str) : list Z := flat_map (fun c => [u8 c; 0]) path ++ [0; 0].

Definition open_device (device : Z) (path : str) (base file_handle : Z) : ist open_result :=
  let! file_object := in_kern (gp_allocate file_object_size file_pool_tag true) in
  if file_object =? 0 then ret (STATUS_INSUFFICIENT_RESOURCES, 0) else
  let name_length := u16 (Z.of_nat (length path) * 2) in
  let! name_buffer := (if name_length =? 0 then ret 0 else in_kern (gp_allocate (name_length + 2) name_pool_tag true)) in
  (if name_buffer =? 0 then ret tt else on_mem (write_mem name_buffer (take (Z.to_nat (name_length + 2)) (wide_name path)))) ;;
  let name := if name_buffer =? 0 then [] else [fld 0x58 2 name_length; fld 0x5A 2 (u16 (name_length + 2)); fld 0x60 8 name_buffer] in
  on_mem (write_mem file_object (struct_bytes (Z.to_nat file_object_size) ([fld 0 2 io_type_file; fld 2 2 file_object_size; fld 8 8 device] ++ name))) ;;
  let! result := dispatch_irp guest (IrpRequest irp_mj_create device file_object 0 0 0 0 0) in
  let! made := (if 2 ^ 31 <=? result.1 then ret false else new_file_object (FileHost None path 0 false device file_object) base file_handle) in
  if made : bool then ret (STATUS_SUCCESS, file_opened) else
  in_kern (gp_free file_object) ;;
  ret (if 2 ^ 31 <=? result.1 then result.1 else STATUS_INSUFFICIENT_RESOURCES, 0).

(** IoCreateFileEx reads the name where it stands and is otherwise the same;
    NtOpenFile opens with [file_open]. *)
Definition NtCreateFile (file_handle object_attributes io_status_block disposition create_options base : Z) : ist Z :=
  let! path := object_path object_attributes in
  (if file_handle =? 0 then ret tt else on_mem (write_mem file_handle (le_bytes 8 0))) ;;
  let! s := get in
  let device := find_device path s in
  let! result := (if device =? 0 then open_file path disposition create_options base file_handle else open_device device path base file_handle) in
  finish io_status_block result.
Definition NtOpenFile (file_handle object_attributes io_status_block open_options base : Z) : ist Z :=
  NtCreateFile file_handle object_attributes io_status_block file_open open_options base.

Definition IoCreateFileEx (file_handle object_attributes io_status_block disposition create_options base : Z) : ist Z :=
  NtCreateFile file_handle object_attributes io_status_block disposition create_options base.

(** ** Reading and writing *)

Definition NtReadFile (file_handle io_status_block buffer len byte_offset : Z) : ist Z :=
  let! s := get in
  match file_of file_handle s with
  | Some (r, h) =>
      match file h with
      | None => finish io_status_block (STATUS_INVALID_HANDLE, 0)
      | Some f =>
          if (buffer =? 0) || (len =? 0) then finish io_status_block (STATUS_INVALID_PARAMETER, 0) else
          let bytes := data f (fs s) in
          let! offset := file_offset byte_offset (position h) in
          if Z.of_nat (length bytes) <=? offset then finish io_status_block (STATUS_END_OF_FILE, 0) else
          let copied := Z.min len (Z.of_nat (length bytes) - offset) in
          on_mem (write_mem buffer (take (Z.to_nat copied) (drop (Z.to_nat offset) bytes))) ;;
          modify (set_host r (HFile (set_position (u64 (offset + copied)) h))) ;;
          finish io_status_block (STATUS_SUCCESS, copied)
      end
  | None => finish io_status_block (STATUS_INVALID_HANDLE, 0)
  end.

Definition NtWriteFile (file_handle io_status_block buffer len byte_offset : Z) : ist Z :=
  let! s := get in
  match file_of file_handle s with
  | Some (r, h) =>
      if bool_decide (file h = None) && negb (console h) then finish io_status_block (STATUS_INVALID_HANDLE, 0) else
      if (buffer =? 0) || (len =? 0) then finish io_status_block (STATUS_INVALID_PARAMETER, 0) else
      let! bytes := on_mem (read_mem buffer (Z.to_nat len)) in
      if console h then modify (show bytes) ;; finish io_status_block (STATUS_SUCCESS, len) else
      match file h with
      | None => ret STATUS_INVALID_HANDLE
      | Some f =>
          let! offset := file_offset byte_offset (position h) in
          let current := data f (fs s) in
          let grown := if Z.of_nat (length current) <? u64 (offset + len) then resize (Z.to_nat (u64 (offset + len))) 0 current else current in
          modify (fun s => set_fs (write f (overwrite (Z.to_nat offset) bytes grown) (fs s)) s) ;;
          modify (set_host r (HFile (set_position (u64 (offset + len)) h))) ;;
          finish io_status_block (STATUS_SUCCESS, len)
      end
  | None => finish io_status_block (STATUS_INVALID_HANDLE, 0)
  end.

(** ** Queries *)

Definition write_file_information (h : file_host) (info_class buffer len : Z) : ist open_result :=
  let! s := get in
  match file h with
  | None => throw null_host
  | Some f =>
      let size := Z.of_nat (length (data f (fs s))) in
      let answer (bytes : list Z) : ist open_result :=
        if len <? Z.of_nat (length bytes) then ret (STATUS_INFO_LENGTH_MISMATCH, 0)
        else on_mem (write_mem buffer bytes) ;; ret (STATUS_SUCCESS, Z.of_nat (length bytes)) in
      if info_class =? file_standard_information then answer (struct_bytes 0x18 [fld 0 8 size; fld 8 8 size; fld 16 4 1])
      else if info_class =? file_basic_information then answer (struct_bytes 0x28 [fld 0x20 4 file_attribute_normal])
      else if info_class =? file_position_information then answer (le_bytes 8 (position h))
      else if info_class =? file_internal_information then answer (le_bytes 8 (hash (path h)))
      else ret (STATUS_INVALID_INFO_CLASS, 0)
  end.

(** [pool_tag("IoNm")]. *)
Definition dos_name_pool_tag : Z := 0x6D4E6F49.
(** A counted string with its characters behind it, which the caller frees. *)
Definition IoQueryFileDosDeviceName (file_object object_name_information : Z) : ist Z :=
  if object_name_information =? 0 then ret STATUS_INVALID_PARAMETER else
  let! s := get in
  match host_at file_object s with
  | Some (HFile h) =>
      let wide := widen_string (path h) in
      let bytes := u16 (Z.of_nat (length wide) * 2) in
      let! addr := in_kern (gp_allocate (16 + bytes + 2) dos_name_pool_tag true) in
      if addr =? 0 then ret STATUS_INSUFFICIENT_RESOURCES else
      let buffer := addr + 16 in
      on_mem (write_descriptor addr (Descriptor bytes (u16 (bytes + 2)) 0 buffer)) ;;
      on_mem (write_mem buffer (take (Z.to_nat bytes) (chars_bytes 2 wide))) ;;
      on_mem (write_mem object_name_information (le_bytes 8 addr)) ;; ret STATUS_SUCCESS
  | _ => on_mem (write_mem object_name_information (le_bytes 8 0)) ;; ret STATUS_OBJECT_NAME_NOT_FOUND
  end.

Definition IoQueryFileInformation (file_object info_class len file_information returned_length : Z) : ist Z :=
  (if returned_length =? 0 then ret tt else on_mem (write_mem returned_length (le_bytes 4 0))) ;;
  let! s := get in
  match host_at file_object s with
  | Some (HFile h) =>
      let! r := write_file_information h info_class file_information len in
      (if returned_length =? 0 then ret tt else on_mem (write_mem returned_length (le_bytes 4 r.2))) ;; ret r.1
  | _ => ret STATUS_INVALID_PARAMETER
  end.

Definition NtQueryInformationFile (file_handle io_status_block file_information len info_class : Z) : ist Z :=
  let! s := get in
  match file_of file_handle s with
  | Some (_, h) =>
      if bool_decide (file h = None) then finish io_status_block (STATUS_INVALID_HANDLE, 0) else
      let! r := write_file_information h info_class file_information len in finish io_status_block r
  | None => finish io_status_block (STATUS_INVALID_HANDLE, 0)
  end.

Definition NtFlushBuffersFile (file_handle io_status_block : Z) : ist Z :=
  let! s := get in
  finish io_status_block (match file_of file_handle s with Some _ => (STATUS_SUCCESS, 0) | None => (STATUS_INVALID_HANDLE, 0) end).

(** [sizeof(file_directory_information_t)]. *)
Definition directory_information_size : Z := 0x40.
Definition directory_information (e : dir_entry) (name_bytes : Z) : list Z :=
  struct_bytes (Z.to_nat directory_information_size) [fld 0x28 8 (e_size e); fld 0x30 8 (e_size e);
    fld 0x38 4 (if is_directory e then file_attribute_directory else file_attribute_normal); fld 0x3C 4 name_bytes].

(** One entry each time; the position on the file object says which. *)
Definition NtQueryDirectoryFile (file_handle io_status_block file_information len info_class : Z) (restart_scan : bool) : ist Z :=
  let! s := get in
  match file_of file_handle s with
  | None => finish io_status_block (STATUS_INVALID_HANDLE, 0)
  | Some (r, h) =>
      if negb (bool_decide (info_class ∈ [file_directory_information; file_both_directory_information; file_full_directory_information]))
      then finish io_status_block (STATUS_INVALID_INFO_CLASS, 0) else
      let h := if restart_scan then set_position 0 h else h in
      modify (set_host r (HFile h)) ;;
      match list_dir (path h) (fs s) !! Z.to_nat (position h) with
      | None => finish io_status_block (STATUS_NO_MORE_FILES, 0)
      | Some (name, e) =>
          let wide := widen_string name in
          let name_bytes := u32 (Z.of_nat (length wide) * 2) in
          let needed := directory_information_size + name_bytes in
          if len <? needed then finish io_status_block (STATUS_BUFFER_TOO_SMALL, 0) else
          on_mem (write_mem file_information (directory_information e name_bytes)) ;;
          on_mem (write_mem (file_information + directory_information_size) (take (Z.to_nat name_bytes) (chars_bytes 2 wide))) ;;
          modify (set_host r (HFile (set_position (u64 (position h + 1)) h))) ;;
          finish io_status_block (STATUS_SUCCESS, needed)
      end
  end.

(** [full]: NtQueryFullAttributesFile. *)
Definition NtQueryAttributesFile (full : bool) (object_attributes file_information : Z) : ist Z :=
  let! path := object_path object_attributes in
  let! s := get in
  let f := open path (fs s) in
  let directory := bool_decide (f = None) && dir_exists path (fs s) in
  if bool_decide (f = None) && negb directory then ret STATUS_OBJECT_NAME_NOT_FOUND else
  let size := match f with Some f => Z.of_nat (length (data f (fs s))) | None => 0 end in
  let attributes := if directory then file_attribute_directory else file_attribute_normal in
  on_mem (write_mem file_information
    (if full then struct_bytes 0x38 [fld 0x20 8 size; fld 0x28 8 size; fld 0x30 4 attributes]
     else struct_bytes 0x28 [fld 0x20 4 attributes])) ;;
  ret STATUS_SUCCESS.

Definition NtQueryVolumeInformationFile (file_handle io_status_block fs_information len info_class : Z) : ist Z :=
  let! s := get in
  match file_of file_handle s with
  | None => finish io_status_block (STATUS_INVALID_HANDLE, 0)
  | Some (_, h) =>
      if negb (info_class =? file_fs_device_information) then finish io_status_block (STATUS_INVALID_INFO_CLASS, 0) else
      if len <? 8 then finish io_status_block (STATUS_INFO_LENGTH_MISMATCH, 0) else
      on_mem (write_mem fs_information (struct_bytes 8 [fld 0 4 (if console h then file_device_console else file_device_disk)])) ;;
      finish io_status_block (STATUS_SUCCESS, 8)
  end.

(** NtDeviceIoControlFile and NtFsControlFile. *)
Definition control_file (file_handle io_status_block code input_buffer input_length output_buffer output_length : Z) : ist Z :=
  let! s := get in
  match file_of file_handle s with
  | None => finish io_status_block (STATUS_INVALID_HANDLE, 0)
  | Some (_, h) =>
      if device_object h =? 0 then finish io_status_block (STATUS_INVALID_DEVICE_REQUEST, 0) else
      let! result := dispatch_irp guest (IrpRequest irp_mj_device_control (device_object h) (file_object h) code input_buffer input_length output_buffer output_length) in
      finish io_status_block result
  end.

(** The routine that is bound to the name; it reads the name and leaves the link. *)
Definition IoDeleteSymbolicLink (symbolic_link_name : Z) : ist Z := on_mem (read_unicode_string symbolic_link_name) ;; ret STATUS_SUCCESS.

(** ** Work items and mdls *)

Definition io_work_item_size : Z := 0x40.
Definition work_item_pool_tag : Z := 0x69576F49.

Definition IoSizeofWorkItem : Z := io_work_item_size.
Definition IoAllocateWorkItem (device_object : Z) : ist Z :=
  let! item := in_kern (gp_allocate io_work_item_size work_item_pool_tag true) in
  if item =? 0 then ret 0 else on_mem (write_mem item (le_bytes 8 device_object)) ;; ret item.
Definition IoFreeWorkItem (item : Z) : ist unit := if item =? 0 then ret tt else in_kern (gp_free item) ;; ret tt.
Definition IoInitializeWorkItem (object item : Z) : ist unit := if item =? 0 then ret tt else on_mem (write_mem item (le_bytes 8 object)).

Definition IoAllocateMdl (virtual_address len : Z) : ist Z :=
  let! addr := in_kern (gp_allocate (mdl_size virtual_address len) mdl_pool_tag true) in
  if addr =? 0 then ret 0 else on_mem (write_mem addr (mdl_bytes virtual_address len 0 0)) ;; ret addr.
Definition IoFreeMdl (mdl : Z) : ist unit := in_kern (gp_free mdl) ;; ret tt.

End Io.
End Io.

(** ** Memory descriptor lists and pages

    modules/nt_mem_ops.cpp, over the pool and the guest's memory.  What the MMU says of
    an address is a parameter: where a page is, what is mapped there, and the bytes of
    physical memory. *)

Module Mm.
Import Irp.

Definition STATUS_INVALID_ADDRESS : Z := 0xC0000141.
Definition mm_copy_memory_physical : Z := 1.
Definition mm_copy_memory_virtual : Z := 2.
Definition mdl_source_is_nonpaged_pool : Z := 4.
(** MmCo, MmIp, MmMd and MmPh. *)
Definition contiguous_tag : Z := 0x6F436D4D.
Definition independent_tag : Z := 0x70496D4D.
Definition pages_tag : Z := 0x644D6D4D.
Definition ranges_tag : Z := 0x68506D4D.

(** [mdl_t] *)
Record mdl : Type := Mdl {
  next : Z; size : Z; mdl_flags : Z; alloc_processor : Z; process : Z; mapped_system_va : Z; start_va : Z; byte_count : Z; byte_offset : Z
}.
Definition encode (m : mdl) : list Z :=
  le_bytes 8 (next m) ++ le_bytes 2 (size m) ++ le_bytes 2 (mdl_flags m) ++ le_bytes 4 (alloc_processor m) ++ le_bytes 8 (process m) ++
  le_bytes 8 (mapped_system_va m) ++ le_bytes 8 (start_va m) ++ le_bytes 4 (byte_count m) ++ le_bytes 4 (byte_offset m).
Definition at_off (off w : nat) (l : list Z) : Z := le_val (take w (drop off l)).
Definition decode (l : list Z) : mdl :=
  Mdl (at_off 0 8 l) (at_off 8 2 l) (at_off 10 2 l) (at_off 12 4 l) (at_off 16 8 l) (at_off 24 8 l) (at_off 32 8 l) (at_off 40 4 l) (at_off 44 4 l).

Section Mm.
Context {K : Type} `{!GuestPool K}.
Context (virt_to_phys phys_to_virt : Z -> K -> option Z) (read_phys : Z -> nat -> st K (list Z)) (phys_base phys_bytes : Z).
Abbreviation on_mem := (StringOps.on_mem (K:=K)).

Definition read_mdl (a : Z) : st K mdl := let! l := on_mem (read_mem a 0x30) in ret (decode l).
Definition write_mdl (a : Z) (m : mdl) : st K unit := on_mem (write_mem a (encode m)).

Definition MmIsAddressValid (virtual_address : Z) (k : K) : bool := bool_decide (is_Some (virt_to_phys virtual_address k)).
Definition MmGetPhysicalAddress (base_address : Z) (k : K) : Z := default 0 (virt_to_phys base_address k).
Definition MmGetVirtualForPhysical (physical_address : Z) (k : K) : Z := default 0 (phys_to_virt physical_address k).

(** A read that throws is answered. *)
Definition MmCopyMemory (target_address source_address number_of_bytes flags number_of_bytes_transferred : Z) : st K Z := fun k =>
  let kind := Z.land flags 3 in
  if negb (kind =? mm_copy_memory_physical) && negb (kind =? mm_copy_memory_virtual) then (Ok STATUS_INVALID_PARAMETER, k) else
  let tell (n : Z) : st K unit := if number_of_bytes_transferred =? 0 then ret tt else on_mem (write_mem number_of_bytes_transferred (le_bytes 8 n)) in
  match (if kind =? mm_copy_memory_physical then read_phys source_address (Z.to_nat number_of_bytes)
         else on_mem (read_mem source_address (Z.to_nat number_of_bytes))) k with
  | (Throw _, k) => (tell 0 ;; ret STATUS_INVALID_ADDRESS) k
  | (Ok l, k) => (on_mem (write_mem target_address l) ;; tell number_of_bytes ;; ret STATUS_SUCCESS) k
  end.

Definition allocate_contiguous (number_of_bytes highest_acceptable_address : Z) : st K Z :=
  let! addr := gp_allocate (align_up number_of_bytes mdl_page_size) contiguous_tag true in
  if addr =? 0 then ret 0 else
  let! k := get in
  if highest_acceptable_address <? default 0 (virt_to_phys addr k) then gp_free addr ;; ret 0 else ret addr.
Definition MmFreeContiguousMemory (base_address : Z) : st K unit := gp_free base_address ;; ret tt.

Definition MmAllocateIndependentPages (number_of_bytes : Z) : st K Z :=
  let rounded := align_up number_of_bytes mdl_page_size in
  if rounded =? 0 then ret 0 else gp_allocate rounded independent_tag true.
Definition MmFreeIndependentPages (base_address : Z) : st K unit := gp_free base_address ;; ret tt.

(** The frames of [pages] pages from [va] on, in the words behind a list. *)
Fixpoint write_frames (dst va : Z) (pages : nat) : st K unit :=
  match pages with
  | O => ret tt
  | S pages =>
      let! k := get in
      on_mem (write_mem dst (le_bytes 8 (default 0 (virt_to_phys va k) / mdl_page_size))) ;; write_frames (dst + 8) (va + mdl_page_size) pages
  end.

Definition MmAllocatePagesForMdl (total_bytes : Z) : st K Z :=
  let pages := u64 (total_bytes + mdl_page_size - 1) / mdl_page_size in
  if pages =? 0 then ret 0 else
  let! buffer := gp_allocate (pages * mdl_page_size) pages_tag true in
  let bytes := 0x30 + pages * 8 in
  let! lst := (if buffer =? 0 then ret 0 else gp_allocate bytes mdl_pool_tag true) in
  if (buffer =? 0) || (lst =? 0) then (if buffer =? 0 then ret tt else gp_free buffer ;; ret tt) ;; ret 0 else
  write_mdl lst (Mdl 0 bytes mdl_pages_locked 0 0 0 buffer (u32 (pages * mdl_page_size)) 0) ;;
  write_frames (lst + 0x30) buffer (Z.to_nat pages) ;; ret lst.

Definition MmFreePagesFromMdl (memory_descriptor_list : Z) : st K unit :=
  if memory_descriptor_list =? 0 then ret tt else
  let! m := read_mdl memory_descriptor_list in
  if start_va m =? 0 then ret tt else gp_free (start_va m) ;; ret tt.

Definition MmMapLockedPagesSpecifyCache (memory_descriptor_list : Z) : st K Z :=
  if memory_descriptor_list =? 0 then ret 0 else
  let! m := read_mdl memory_descriptor_list in
  let va := if mapped_system_va m =? 0 then start_va m else mapped_system_va m in
  write_mdl memory_descriptor_list
    (Mdl (next m) (size m) (Z.lor (mdl_flags m) mdl_mapped_to_system_va) (alloc_processor m) (process m) va (start_va m) (byte_count m) (byte_offset m)) ;;
  ret va.
Definition MmUnmapLockedPages (memory_descriptor_list : Z) : st K unit :=
  if memory_descriptor_list =? 0 then ret tt else
  let! m := read_mdl memory_descriptor_list in
  write_mdl memory_descriptor_list
    (Mdl (next m) (size m) (Z.land (mdl_flags m) (Z.lnot mdl_mapped_to_system_va)) (alloc_processor m) (process m) 0 (start_va m) (byte_count m) (byte_offset m)).

Definition MmBuildMdlForNonPagedPool (memory_descriptor_list : Z) : st K unit :=
  if memory_descriptor_list =? 0 then ret tt else
  let! m := read_mdl memory_descriptor_list in
  write_mdl memory_descriptor_list
    (Mdl (next m) (size m) (Z.lor (Z.lor (Z.lor (mdl_flags m) mdl_mapped_to_system_va) mdl_pages_locked) mdl_source_is_nonpaged_pool)
       (alloc_processor m) (process m) (u64 (start_va m + byte_offset m)) (start_va m) (byte_count m) (byte_offset m)) ;;
  write_frames (memory_descriptor_list + 0x30) (mdl_page_base (start_va m)) (Z.to_nat (mdl_page_count (start_va m) (byte_count m))).

(** The one run there is, and the empty one that ends the list. *)
Definition MmGetPhysicalMemoryRanges : st K Z :=
  let! addr := gp_allocate 32 ranges_tag true in
  if addr =? 0 then ret 0 else
  on_mem (write_mem addr (le_bytes 8 phys_base ++ le_bytes 8 phys_bytes ++ replicate 16 0)) ;; ret addr.

End Mm.
End Mm.

(** ** Notification states

    A state is bytes under a number, with the stamp it was written at. *)

Module Wnf.

Definition STATUS_OBJECT_NAME_NOT_FOUND : Z := 0xC0000034.

Section Wnf.
Context {K : Type} `{!GuestPool K}.

Record wsys : Type := WSys { kern : K; wnf_states : gmap Z (list Z * Z); wnf_stamp : Z }.
Abbreviation wst := (st wsys).
Definition set_states (f : gmap Z (list Z * Z) -> gmap Z (list Z * Z)) (n : Z) (s : wsys) : wsys := WSys (kern s) (f (wnf_states s)) n.
Definition on_mem {A} (f : gst A) : wst A := fun s => let '(r, k) := StringOps.on_mem f (kern s) in (r, WSys k (wnf_states s) (wnf_stamp s)).
Definition read_word (w : nat) (a : Z) : wst Z := on_mem (let! l := read_mem a w in ret (le_val l)).
Definition write_word (w : nat) (a v : Z) : wst unit := if a =? 0 then ret tt else on_mem (write_mem a (le_bytes w v)).

Definition NtQueryWnfStateData (state_name change_stamp buffer buffer_size : Z) : wst Z :=
  let! name := (if state_name =? 0 then ret 0 else read_word 8 state_name) in
  let! s := get in
  let '(data, stamp) := default ([], 0) (wnf_states s !! name) in
  match data with
  | [] => write_word 4 change_stamp 0 ;; write_word 4 buffer_size 0 ;; ret STATUS_OBJECT_NAME_NOT_FOUND
  | _ =>
      let! available := (if buffer_size =? 0 then ret 0 else read_word 4 buffer_size) in
      let copied := Z.min available (Z.of_nat (length data)) in
      (if (buffer =? 0) || (copied =? 0) then ret tt else on_mem (write_mem buffer (take (Z.to_nat copied) data))) ;;
      write_word 4 buffer_size (Z.of_nat (length data)) ;; write_word 4 change_stamp stamp ;; ret STATUS_SUCCESS
  end.

Definition NtUpdateWnfStateData (state_name buffer len : Z) : wst Z :=
  if state_name =? 0 then ret STATUS_INVALID_PARAMETER else
  let! name := read_word 8 state_name in
  let! data := (if (buffer =? 0) || (len =? 0) then ret (replicate (Z.to_nat len) 0) else on_mem (read_mem buffer (Z.to_nat len))) in
  modify (fun s => let stamp := u32 (wnf_stamp s + 1) in set_states <[name := (data, stamp)]> stamp s) ;; ret STATUS_SUCCESS.

Definition NtDeleteWnfStateData (state_name : Z) : wst Z :=
  if state_name =? 0 then ret STATUS_INVALID_PARAMETER else
  let! name := read_word 8 state_name in
  let! s := get in
  modify (set_states (delete name) (wnf_stamp s)) ;;
  ret (if bool_decide (is_Some (wnf_states s !! name)) then STATUS_SUCCESS else STATUS_OBJECT_NAME_NOT_FOUND).

End Wnf.
Arguments wsys : clear implicits.
End Wnf.

(** ** Callback objects, and the callbacks of a bug check *)

Module Callbacks.

Definition STATUS_UNSUCCESSFUL : Z := 0xC0000001.
Definition STATUS_INVALID_PARAMETER_1 : Z := 0xC00000EF.
Definition STATUS_INVALID_PARAMETER_5 : Z := 0xC00000F3.

Definition bugcheck_record_callback_routine : Z := 0x10.
Definition bugcheck_record_component : Z := 0x18.
Definition bugcheck_record_checksum : Z := 0x20.
Definition bugcheck_record_reason : Z := 0x28.
Definition bugcheck_record_state : Z := 0x2C.
Definition bugcheck_record_registered : Z := 1.
Definition callback_object_size : nat := 0x38.
Definition callback_object_list_head : Z := 0x10.
Definition callback_object_allow_multiple : Z := 0x20.
Definition callback_object_signature : Z := 0x6C6C6143.
Definition image_verification_driver_info : Z := 1.
Definition image_verification_block_info : Z := 4.
Definition image_verification_subtype (type : Z) : Z := if type =? image_verification_driver_info then 0 else 1.

(** A registration is a function and its context; hosts are shared objects. *)
Inductive chost : Type :=
  | CCallback (registrations : list (Z * Z)) (allow_multiple : bool)
  | CRegistration (callback_object_addr function context : Z)
  | COther.

Record names : Type := Names { objs : manager; hosts : gmap Z chost; fresh_host : Z }.
Definition set_host r h (n : names) := Names (objs n) (<[r := h]> (hosts n)) (fresh_host n).
Definition host_at (addr : Z) (n : names) : option chost := get_object addr (objs n) ≫= fun r => hosts n !! r.

(** The object with its host; [base] is what the address space allocated. *)
Definition new_object (h : chost) (base : Z) (n : names) : Z * names :=
  let '(addr, m) := create_object base 0 (Some (fresh_host n)) (objs n) in
  (addr, Names m (<[fresh_host n := h]> (hosts n)) (fresh_host n + 1)).

(** [ranges::find_if] and [erase]. *)
Fixpoint erase_first (e : Z * Z) (l : list (Z * Z)) : list (Z * Z) :=
  match l with [] => [] | x :: l => if decide (x = e) then l else x :: erase_first e l end.

Section Callbacks.
Context {K : Type} `{!GuestPool K}.

Record csys : Type := CSys { kern : K; known : names }.
Abbreviation cst := (st csys).
Definition set_names n (s : csys) : csys := CSys (kern s) n.
Definition on_mem {A} (f : gst A) : cst A := fun s => let '(r, k) := StringOps.on_mem f (kern s) in (r, CSys k (known s)).
Definition write_word (w : nat) (a v : Z) : cst unit := on_mem (write_mem a (le_bytes w v)).
Definition read_byte (a : Z) : cst Z := on_mem (let! l := read_mem a 1 in ret (le_val l)).
(** The body is written with the object. *)
Definition create (h : chost) (body : nat) (base : Z) : cst Z := fun s =>
  let '(addr, n) := new_object h base (known s) in
  (on_mem (write_mem addr (replicate body 0)) ;; modify (set_names n) ;; ret addr) s.

Definition existing_callback (key : str) (n : names) : Z :=
  match key with
  | [] => 0
  | _ => match host_at (lookup_named_object key (objs n)) n with Some (CCallback _ _) => lookup_named_object key (objs n) | _ => 0 end
  end.

Definition ExCreateCallback (callback_object_out object_attributes : Z) (create_ allow_multiple_callbacks : bool) (base : Z) : cst Z :=
  let! narrow_name := on_mem (Ports.attribute_name object_attributes) in
  if bool_decide (narrow_name = []) && negb create_ then ret STATUS_UNSUCCESSFUL else
  let key := match narrow_name with [] => [] | _ => normalize narrow_name end in
  let! s := get in
  let existing := existing_callback key (known s) in
  if negb (existing =? 0) then write_word 8 callback_object_out existing ;; ret STATUS_SUCCESS else
  let! addr := create (CCallback [] allow_multiple_callbacks) callback_object_size base in
  if addr =? 0 then ret Dev.STATUS_INSUFFICIENT_RESOURCES else
  let list_head := addr + callback_object_list_head in
  write_word 4 addr callback_object_signature ;;
  write_word 8 list_head list_head ;;
  write_word 8 (list_head + 8) list_head ;;
  write_word 1 (addr + callback_object_allow_multiple) (if allow_multiple_callbacks then 1 else 0) ;;
  modify (fun s => set_names (Names (register_named_object key addr (objs (known s))) (hosts (known s)) (fresh_host (known s))) s) ;;
  write_word 8 callback_object_out addr ;;
  ret STATUS_SUCCESS.

(** The shared object keeps its registrations whatever happens in between. *)
Definition ExRegisterCallback (callback_object_addr callback_function callback_context base : Z) : cst Z :=
  let! s := get in
  match get_object callback_object_addr (objs (known s)) ≫= fun r => (r,.) <$> hosts (known s) !! r with
  | Some (r, CCallback registrations allow_multiple) =>
      if negb (bool_decide (registrations = [])) && negb allow_multiple then ret 0 else
      let! addr := create (CRegistration callback_object_addr callback_function callback_context) 8 base in
      if addr =? 0 then ret 0 else
      modify (fun s => set_names (set_host r (CCallback (registrations ++ [(callback_function, callback_context)]) allow_multiple) (known s)) s) ;;
      ret addr
  | _ => ret 0
  end.

(** A spent registration is one of object 0. *)
Definition ExUnregisterCallback (callback_registration : Z) : cst unit :=
  modify (fun s =>
    match get_object callback_registration (objs (known s)) with
    | Some h =>
        match hosts (known s) !! h with
        | Some (CRegistration object_addr function context) =>
            if object_addr =? 0 then s else
            match get_object object_addr (objs (known s)) with
            | Some r =>
                match hosts (known s) !! r with
                | Some (CCallback registrations allow_multiple) =>
                    set_names (set_host h (CRegistration 0 function context) (set_host r (CCallback (erase_first (function, context) registrations) allow_multiple) (known s))) s
                | _ => s
                end
            | None => s
            end
        | _ => s
        end
    | None => s
    end).

(** The registration it hands out is a spent one, and the function is dropped. *)
Definition SeRegisterImageVerificationCallback (callback_type callback_subtype reserved callback_handle base : Z) : cst Z :=
  if negb (callback_type =? image_verification_driver_info) && negb (callback_type =? image_verification_block_info) then ret STATUS_INVALID_PARAMETER_1 else
  if negb (callback_subtype =? image_verification_subtype callback_type) then ret STATUS_INVALID_PARAMETER_2 else
  if negb (reserved =? 0) then ret STATUS_INVALID_PARAMETER_5 else
  let! handle := create (CRegistration 0 0 0) 8 base in
  if handle =? 0 then ret STATUS_NO_MEMORY else
  write_word 8 callback_handle handle ;; ret STATUS_SUCCESS.

Definition KeRegisterBugCheckReasonCallback (callback_record callback_routine reason component : Z) : cst bool :=
  let state_at := callback_record + bugcheck_record_state in
  (if component =? 0 then ret [] else on_mem (read_string component)) ;;
  let! state := read_byte state_at in
  if negb (state =? 0) then ret false else
  write_word 8 (callback_record + bugcheck_record_callback_routine) callback_routine ;;
  write_word 8 (callback_record + bugcheck_record_component) component ;;
  write_word 8 (callback_record + bugcheck_record_checksum) (u64 (callback_routine + reason + component)) ;;
  write_word 4 (callback_record + bugcheck_record_reason) reason ;;
  write_word 1 state_at bugcheck_record_registered ;;
  ret true.

Definition KeDeregisterBugCheckReasonCallback (callback_record : Z) : cst bool :=
  let state_at := callback_record + bugcheck_record_state in
  let! state := read_byte state_at in
  if state =? bugcheck_record_registered then write_word 1 state_at 0 ;; ret true else ret false.

End Callbacks.
Arguments csys : clear implicits.
End Callbacks.
