(* ===== verification/IoThm.v ===== *)
(** * Files are byte arrays with a cursor for each object

    Reads, writes and queries through handles of [IoOps], in any interleaving, act
    as arrays and cursors do, from the call that opens the file on; what is
    written into a memory descriptor list; and that a request to a driver gives back
    what it borrows.  Devices and requests completed; notification states are a map;
    callback objects keep the registrations that are not spent. *)

From stdpp Require Import list gmap.
From S2P Require Import Prelude Mmu Paths Objects ObjectsThm Filesystem GuestMem StringOps StringThm StringPoolThm Ports IrpOps IoOps.
From stdpp Require Import options.

Open Scope Z_scope.
Open Scope kern_scope.
Import Irp Io.

(** ** What files are *)

(** The bytes of a file, and the cursor of an object a handle stands for. *)
Record view : Type := View { bytes_of : nat -> list Z; cursor_of : Z -> Z }.
Definition move (r n : Z) (v : view) : view := View (bytes_of v) (fun x => if decide (x = r) then n else cursor_of v x).
Definition fill (f : nat) (l : list Z) (v : view) : view := View (fun x => if decide (x = f) then l else bytes_of v x) (cursor_of v).

(** Where a request is in the file: an offset that is not negative, or the cursor. *)
Definition seek (off : option Z) (cursor : Z) : Z := match off with Some o => if o <? 0 then cursor else o | None => cursor end.
(** The array with [l] at [o], zeros between its end and [o]. *)
Definition put_at (o : nat) (l c : list Z) : list Z := take o (c ++ replicate (o - length c) 0) ++ l ++ drop (o + length l) c.

Inductive call : Type :=
  | Read (handle block dst len off_at : Z) (off : option Z)
  | Write (handle block src : Z) (l : list Z) (off_at : Z) (off : option Z)
  | Query (handle block dst len info_class : Z).

Record answer : Type := Answer { status_ : Z; information_ : Z; out_ : list Z }.

Section Files.
(** The object and the file of each open handle. *)
Context (opened : Z -> option (Z * nat)).

Definition file_info (info_class r : Z) (f : nat) (v : view) : option (list Z) :=
  let size := Z.of_nat (length (bytes_of v f)) in
  if info_class =? file_standard_information then Some (le_bytes 8 size ++ le_bytes 8 size ++ le_bytes 8 1)
  else if info_class =? file_basic_information then Some (replicate 32 0 ++ le_bytes 8 file_attribute_normal)
  else if info_class =? file_position_information then Some (le_bytes 8 (cursor_of v r))
  else None.

Definition spec (c : call) (v : view) : answer * view :=
  match c with
  | Read handle _ dst len _ off =>
      match opened handle with
      | None => (Answer STATUS_INVALID_HANDLE 0 [], v)
      | Some (r, f) =>
          if (dst =? 0) || (len =? 0) then (Answer STATUS_INVALID_PARAMETER 0 [], v) else
          let o := seek off (cursor_of v r) in
          match take (Z.to_nat len) (drop (Z.to_nat o) (bytes_of v f)) with
          | [] => (Answer STATUS_END_OF_FILE 0 [], v)
          | out => (Answer STATUS_SUCCESS (Z.of_nat (length out)) out, move r (o + Z.of_nat (length out)) v)
          end
      end
  | Write handle _ src l _ off =>
      match opened handle with
      | None => (Answer STATUS_INVALID_HANDLE 0 [], v)
      | Some (r, f) =>
          if (src =? 0) || (Z.of_nat (length l) =? 0) then (Answer STATUS_INVALID_PARAMETER 0 [], v) else
          let o := seek off (cursor_of v r) in
          (Answer STATUS_SUCCESS (Z.of_nat (length l)) [], move r (o + Z.of_nat (length l)) (fill f (put_at (Z.to_nat o) l (bytes_of v f)) v))
      end
  | Query handle _ _ len info_class =>
      match opened handle with
      | None => (Answer STATUS_INVALID_HANDLE 0 [], v)
      | Some (r, f) =>
          match file_info info_class r f v with
          | None => (Answer STATUS_INVALID_INFO_CLASS 0 [], v)
          | Some out => if len <? Z.of_nat (length out) then (Answer STATUS_INFO_LENGTH_MISMATCH 0 [], v)
                        else (Answer STATUS_SUCCESS (Z.of_nat (length out)) out, v)
          end
      end
  end.

Definition place (c : call) : Z * Z :=
  match c with Read _ b dst _ _ _ => (b, dst) | Write _ b src _ _ _ => (b, src) | Query _ b dst _ _ => (b, dst) end.

(** ** What the guest has ready *)

Definition buffer_at (m : gmem) (a n : Z) : Prop := 0 <= a /\ a + n <= 2 ^ 64 /\ mapped m a n.
Definition block_at (m : gmem) (b : Z) : Prop := b = 0 \/ (0 < b /\ buffer_at m b 16).
Definition offset_at (m : gmem) (a : Z) (off : option Z) : Prop :=
  match off with None => a = 0 | Some o => 0 < a /\ a + 8 <= 2 ^ 64 /\ holds m a (le_bytes 8 o) /\ - 2 ^ 63 <= o < 2 ^ 63 end.

Definition ready (c : call) (m : gmem) (v : view) : Prop :=
  block_at m (place c).1 /\
  match c with
  | Read handle _ dst len off_at off =>
      offset_at m off_at off /\ 0 <= len /\ buffer_at m dst (Z.of_nat (length (out_ (spec c v).1))) /\
      (forall r f, opened handle = Some (r, f) -> seek off (cursor_of v r) + len < 2 ^ 64)
  | Write handle _ src l off_at off =>
      offset_at m off_at off /\ 0 <= src /\ src + Z.of_nat (length l) <= 2 ^ 64 /\ holds m src l /\
      (forall r f, opened handle = Some (r, f) -> seek off (cursor_of v r) + Z.of_nat (length l) < 2 ^ 64)
  | Query handle _ dst len info_class =>
      info_class <> file_internal_information /\ buffer_at m dst (Z.of_nat (length (out_ (spec c v).1)))
  end.

(** The status block, where one is asked for. *)
Definition block_bytes (b : Z) (a : answer) : list Z :=
  if b =? 0 then [] else le_bytes 4 (status_ a) ++ replicate 4 0 ++ le_bytes 8 (information_ a).
(** Memory after the answer: the output, and the block. *)
Definition told (c : call) (a : answer) (m : gmem) : gmem := splice (place c).1 (block_bytes (place c).1 a) (splice (place c).2 (out_ a) m).

(** ** Steps of an entry point *)

Lemma s64_wrap o : - 2 ^ 63 <= o < 2 ^ 63 -> s64 (o mod 2 ^ 64) = o.
Proof using Type.
  intros H. unfold s64, signed. rewrite Z.mod_mod by lia. change (2 ^ (64 - 1)) with (2 ^ 63). destruct (decide (0 <= o)).
  - rewrite Z.mod_small by lia. by rewrite (proj2 (Z.ltb_lt _ _)) by lia.
  - replace (o mod 2 ^ 64) with (o + 2 ^ 64) by (apply (Z.mod_unique_pos _ _ (-1)); lia). rewrite (proj2 (Z.ltb_ge _ _)) by lia. lia.
Qed.

(** Growing the file and copying over it puts the bytes there. *)
Lemma overwrite_put o l c :
  overwrite o l (if Z.of_nat (length c) <? Z.of_nat (o + length l) then resize (o + length l) 0 c else c) = put_at o l c.
Proof using Type.
  unfold overwrite, put_at. rewrite take_app. assert (take (o - length c) (replicate (o - length c) (0 : Z)) = replicate (o - length c) 0) as ->.
  { apply take_ge. by rewrite length_replicate. }
  destruct (Z.ltb_spec (Z.of_nat (length c)) (Z.of_nat (o + length l))) as [H|H].
  - rewrite take_resize_le, resize_spec by lia. rewrite (drop_ge (resize _ _ _)) by (by rewrite length_resize). by rewrite (drop_ge c) by lia.
  - replace (o - length c)%nat with 0%nat by lia. by rewrite app_nil_r.
Qed.

Lemma struct_block b r : b <> 0 -> struct_bytes 16 [fld 0 4 r.1; fld 8 8 r.2] = block_bytes b (Answer r.1 r.2 []).
Proof using Type. intros H. unfold block_bytes. by rewrite (proj2 (Z.eqb_neq b 0)). Qed.

Section Kernel.
Context {K : Type} {gp : GuestPool K} {laws : GuestPoolLaws K} (hash : str -> Z).
Implicit Types (s : isys K).

Definition mem_of s : gmem := gp_mem (kern s).
Definition with_mem (m : gmem) s : isys K := set_kern (gp_set m (kern s)) s.

Lemma io_reads {A} (f : gst A) s r : f (mem_of s) = (r, mem_of s) -> Irp.on_mem f s = (r, s).
Proof using laws. intros E. unfold Irp.on_mem, in_kern. rewrite (on_mem_read f (kern s) r E). by destruct s. Qed.
Lemma io_writes {A} (f : gst A) s r m : f (mem_of s) = (r, m) -> Irp.on_mem f s = (r, with_mem m s).
Proof using Type. intros E. unfold Irp.on_mem, in_kern, StringOps.on_mem, mem_of in *. by rewrite E. Qed.

Lemma mem_with_mem m s : mem_of (with_mem m s) = m.
Proof using laws. apply gp_get_set. Qed.
Lemma with_mem_twice m m' s : with_mem m' (with_mem m s) = with_mem m' s.
Proof using laws. unfold with_mem, set_kern. cbn. by rewrite gp_set_set. Qed.
Lemma with_mem_same s : with_mem (mem_of s) s = s.
Proof using laws. unfold with_mem, mem_of, set_kern. rewrite gp_set_get. by destruct s. Qed.

Lemma write_out_buffer a l s : buffer_at (mem_of s) a (Z.of_nat (length l)) ->
  exists m, Irp.on_mem (write_mem a l) s = (Ok tt, with_mem m s) /\ same m (splice a l (mem_of s)).
Proof using laws.
  intros (H1 & H2 & H3). destruct (write_mem_mapped l a (mem_of s) H1 H2 H3) as (m & E & H). exists m. split; [|done]. by apply io_writes.
Qed.

(** The end of every entry point. *)
Lemma finish_ok b r s : block_at (mem_of s) b ->
  exists m, finish b r s = (Ok r.1, with_mem m s) /\ same m (splice b (block_bytes b (Answer r.1 r.2 [])) (mem_of s)).
Proof using laws.
  intros Hb. unfold finish, write_status_block. destruct (Z.eqb_spec b 0) as [->|Hn].
  { exists (mem_of s). rewrite with_mem_same. split; [done|]. intros x. unfold block_bytes. cbn. by rewrite splice_out by (cbn; lia). }
  destruct Hb as [->|[H0 Hb]]; [done|]. rewrite (struct_block b r Hn).
  destruct (write_out_buffer b (block_bytes b (Answer r.1 r.2 [])) s) as (m & E & H).
  { unfold block_bytes. rewrite (proj2 (Z.eqb_neq b 0)) by done. exact Hb. }
  exists m. split; [|done]. by rewrite (bind_ok _ _ _ _ _ E).
Qed.

Lemma buffer_splice m m' a n b l : buffer_at m a n -> same m' (splice b l m) -> buffer_at m' a n.
Proof using Type. intros (H1 & H2 & H3) Hs. split_and!; [done..|]. intros x Hx. rewrite Hs. by apply (splice_mapped b l m a n H3). Qed.
Lemma block_splice m m' b a l : block_at m b -> same m' (splice a l m) -> block_at m' b.
Proof using Type. intros [H|[H0 H]] Hs; [by left|]. right. split; [done|]. by eapply buffer_splice. Qed.

Lemma file_offset_ok a off cursor s : offset_at (mem_of s) a off -> file_offset a cursor s = (Ok (seek off cursor), s).
Proof using laws.
  unfold file_offset. destruct off as [o|]; cbn; [|by intros ->]. intros (H0 & H1 & H2 & H3). rewrite (proj2 (Z.eqb_neq a 0)) by lia.
  assert (read_word 8 a s = (Ok (o mod 2 ^ 64), s)) as E.
  { apply io_reads. pose proof (read_mem_holds (mem_of s) (le_bytes 8 o) a ltac:(lia)) as Hr. rewrite length_le_bytes in Hr.
    rewrite (bind_ok _ _ _ _ _ (Hr H1 H2)). by rewrite le_val_bytes. }
  rewrite (bind_ok _ _ _ _ _ E). unfold ret. do 2 f_equal. rewrite s64_wrap by done.
  unfold file_use_file_pointer_position, file_write_to_end_of_file. destruct (Z.eqb_spec o (-2)), (Z.eqb_spec o (-1)); subst; done.
Qed.

(** ** The state and the view *)

Record shows (s : isys K) (v : view) : Prop := {
  sh_bytes : forall f, data f (fs s) = bytes_of v f;
  sh_open : forall handle,
    match opened handle with
    | Some (r, f) => exists h, file_of handle s = Some (r, h) /\ file h = Some f /\ console h = false /\ position h = cursor_of v r /\ 0 <= position h
    | None => match file_of handle s with Some (_, h) => file h = None /\ console h = false | None => True end
    end
}.

Lemma shows_mem m s v : shows s v -> shows (with_mem m s) v.
Proof using Type. intros [H1 H2]. by split. Qed.

Lemma shows_move r h f n s v handle :
  shows s v -> opened handle = Some (r, f) -> file_of handle s = Some (r, h) -> file h = Some f -> console h = false -> 0 <= n ->
  shows (set_host r (HFile (set_position n h)) s) (move r n v).
Proof using Type.
  intros [H1 H2] Ho Hf Eh Ec Hn. split; [done|]. intros hd. specialize (H2 hd). unfold file_of in *. cbn [tbl set_host hosts] in *.
  assert (hosts s !! r = Some (HFile h)) as Er.
  { destruct (get_object_of handle (tbl s)) as [r0|]; [|done]. cbn in Hf. destruct (hosts s !! r0) as [[]|] eqn:E; congruence. }
  destruct (get_object_of hd (tbl s)) as [r1|]; cbn [mbind option_bind] in *; [|by destruct (opened hd) as [[? ?]|]; [destruct H2 as (? & ? & _)|]].
  destruct (decide (r1 = r)) as [->|Hne].
  - rewrite lookup_insert_eq. rewrite Er in H2. destruct (opened hd) as [[r2 f2]|].
    + destruct H2 as (h2 & [= <- <-] & F & C & _). exists (set_position n h). cbn. by rewrite decide_True.
    + destruct H2. congruence.
  - rewrite lookup_insert_ne by done. destruct (opened hd) as [[r2 f2]|]; [|done]. destruct H2 as (h2 & E & H2). exists h2. split; [done|].
    assert (r2 = r1) as -> by (destruct (hosts s !! r1) as [[]|]; congruence). cbn. by rewrite decide_False.
Qed.

Lemma shows_fill f l s v : shows s v -> shows (set_fs (write f l (fs s)) s) (fill f l v).
Proof using Type.
  intros [H1 H2]. split; [|done]. intros f'. unfold data in *. cbn. destruct (decide (f' = f)) as [->|Hne]; [by rewrite lookup_insert_eq|].
  rewrite lookup_insert_ne by done. apply H1.
Qed.

(** ** One call *)

Definition perform (c : call) : st (isys K) Z :=
  match c with
  | Read handle b dst len off_at _ => NtReadFile handle b dst len off_at
  | Write handle b src l off_at _ => NtWriteFile handle b src (Z.of_nat (length l)) off_at
  | Query handle b dst len info_class => NtQueryInformationFile hash handle b dst len info_class
  end.

(** The call answers [a], leaves the view [v] and changes memory only so. *)
Definition answers (c : call) s (a : answer) (v : view) : Prop :=
  exists s', perform c s = (Ok (status_ a), s') /\ shows s' v /\ same (mem_of s') (told c a (mem_of s)).

Lemma told_nothing c st i m : same (told c (Answer st i []) m) (splice (place c).1 (block_bytes (place c).1 (Answer st i [])) m).
Proof using Type. unfold told. apply splice_same. intros x. by rewrite splice_out by (cbn; lia). Qed.

(** A call that only says something. *)
Lemma refuses c s v st i :
  shows s v -> block_at (mem_of s) (place c).1 -> perform c s = finish (place c).1 (st, i) s -> answers c s (Answer st i []) v.
Proof using laws.
  intros Hs Hb E. destruct (finish_ok (place c).1 (st, i) s Hb) as (m & Ef & Hm). exists (with_mem m s). rewrite E, Ef. split; [done|].
  split; [by apply shows_mem|]. intros x. rewrite mem_with_mem, told_nothing. apply Hm.
Qed.

Lemma seek_nonneg off cursor : 0 <= cursor -> 0 <= seek off cursor.
Proof using Type. intros H. unfold seek. destruct off as [o|]; [destruct (Z.ltb_spec o 0)|]; lia. Qed.

(** Output, the new cursor, and the end. *)
Lemma tells c s v (dst b : Z) out r f h handle n :
  place c = (b, dst) -> shows s v -> buffer_at (mem_of s) dst (Z.of_nat (length out)) -> block_at (mem_of s) b ->
  opened handle = Some (r, f) -> file_of handle s = Some (r, h) -> file h = Some f -> console h = false -> 0 <= n ->
  perform c s = (Irp.on_mem (write_mem dst out) ;; modify (set_host r (HFile (set_position n h))) ;; finish b (STATUS_SUCCESS, Z.of_nat (length out))) s ->
  answers c s (Answer STATUS_SUCCESS (Z.of_nat (length out)) out) (move r n v).
Proof using laws.
  intros Hc Hs Ho Hb Eo Eh Ef Ec Hn E. destruct (write_out_buffer dst out s Ho) as (m1 & E1 & H1).
  set (s1 := set_host r (HFile (set_position n h)) (with_mem m1 s)).
  destruct (finish_ok b (STATUS_SUCCESS, Z.of_nat (length out)) s1) as (m & E2 & H2).
  { change (mem_of s1) with (mem_of (with_mem m1 s)). rewrite mem_with_mem. by eapply block_splice. }
  change (mem_of s1) with (mem_of (with_mem m1 s)) in H2. rewrite mem_with_mem in H2.
  exists (with_mem m s1). rewrite E, (bind_ok _ _ _ _ _ E1). split; [done|]. split.
  - apply shows_mem. by apply (shows_move r h f n (with_mem m1 s) v handle); [apply shows_mem|..].
  - rewrite mem_with_mem. unfold told. rewrite Hc. by apply (same_trans _ _ _ H2), splice_same.
Qed.

Lemma Read_ok handle b dst len off_at off s v :
  shows s v -> ready (Read handle b dst len off_at off) (mem_of s) v ->
  let '(a, v') := spec (Read handle b dst len off_at off) v in answers (Read handle b dst len off_at off) s a v'.
Proof using laws.
  intros Hs (Hb & Hoff & Hlen & Hout & Hend). cbn [place fst] in Hb.
  pose proof (sh_open _ _ Hs handle) as Ho. unfold spec in Hout |- *. destruct (opened handle) as [[r f]|] eqn:Eo.
  2: { apply refuses; [done..|]. unfold perform, NtReadFile, bind at 1, get. destruct (file_of handle s) as [[r h]|]; [|done]. by destruct Ho as [-> _]. }
  destruct Ho as (h & Eh & Ef & Ec & Ep & Hp).
  destruct ((dst =? 0) || (len =? 0)) eqn:Ez.
  { apply refuses; [done..|]. unfold perform, NtReadFile, bind at 1, get. by rewrite Eh, Ef, Ez. }
  apply orb_false_iff in Ez as Ez'. rewrite !Z.eqb_neq in Ez'.
  pose proof (seek_nonneg off (position h) Hp) as Ho0. rewrite Ep in Ho0. specialize (Hend r f eq_refl). set (o := seek off (cursor_of v r)) in *.
  assert (perform (Read handle b dst len off_at off) s =
    (if Z.of_nat (length (bytes_of v f)) <=? o then finish b (STATUS_END_OF_FILE, 0) else
     let copied := Z.min len (Z.of_nat (length (bytes_of v f)) - o) in
     Irp.on_mem (write_mem dst (take (Z.to_nat copied) (drop (Z.to_nat o) (bytes_of v f)))) ;;
     modify (set_host r (HFile (set_position (u64 (o + copied)) h))) ;; finish b (STATUS_SUCCESS, copied)) s) as E.
  { unfold perform, NtReadFile. unfold bind at 1, get. rewrite Eh, Ef, Ez, (sh_bytes _ _ Hs f). cbn zeta.
    rewrite (bind_ok _ _ _ _ _ (file_offset_ok _ _ (position h) s Hoff)), Ep. done. }
  set (l := bytes_of v f) in *. destruct (Z.leb_spec (Z.of_nat (length l)) o) as [Hend'|Hin].
  { rewrite drop_ge, take_nil in Hout |- * by lia. by apply refuses. }
  set (out := take (Z.to_nat len) (drop (Z.to_nat o) l)) in *.
  assert (Z.of_nat (length out) = Z.min len (Z.of_nat (length l) - o)) as Elen by (unfold out; rewrite length_take, length_drop; lia).
  assert (take (Z.to_nat (Z.min len (Z.of_nat (length l) - o))) (drop (Z.to_nat o) l) = out) as Eout.
  { unfold out. destruct (decide (len <= Z.of_nat (length l) - o)); [by rewrite Z.min_l|]. rewrite !take_ge by (rewrite length_drop; lia). done. }
  cbn zeta in E. rewrite Eout, <- Elen, u64_small in E by (unfold in_u64; lia). destruct out as [|x out]; [cbn in Elen; lia|].
  by apply (tells _ s v dst b _ r f h handle); [..|lia|].
Qed.

Lemma Write_ok handle b src l off_at off s v :
  shows s v -> ready (Write handle b src l off_at off) (mem_of s) v ->
  let '(a, v') := spec (Write handle b src l off_at off) v in answers (Write handle b src l off_at off) s a v'.
Proof using laws.
  intros Hs (Hb & Hoff & H0 & H1 & Hl & Hend). cbn [place fst] in Hb.
  pose proof (sh_open _ _ Hs handle) as Ho. unfold spec. destruct (opened handle) as [[r f]|] eqn:Eo.
  2: { apply refuses; [done..|]. unfold perform, NtWriteFile, bind at 1, get. destruct (file_of handle s) as [[r h]|]; [|done].
       destruct Ho as [E1 E2]. by rewrite bool_decide_true, E2. }
  destruct Ho as (h & Eh & Ef & Ec & Ep & Hp).
  assert (bool_decide (file h = None) = false) as En by (by rewrite bool_decide_false by (rewrite Ef; discriminate)).
  destruct ((src =? 0) || (Z.of_nat (length l) =? 0)) eqn:Ez.
  { apply refuses; [done..|]. unfold perform, NtWriteFile, bind at 1, get. by rewrite Eh, En, Ez. }
  pose proof (seek_nonneg off (position h) Hp) as Ho0. rewrite Ep in Ho0. specialize (Hend r f eq_refl). set (o := seek off (cursor_of v r)) in *.
  set (s1 := set_fs (write f (put_at (Z.to_nat o) l (bytes_of v f)) (fs s)) s).
  set (s2 := set_host r (HFile (set_position (o + Z.of_nat (length l)) h)) s1).
  assert (perform (Write handle b src l off_at off) s = finish b (STATUS_SUCCESS, Z.of_nat (length l)) s2) as E.
  { unfold perform, NtWriteFile. unfold bind at 1, get. rewrite Eh, En, Ez, Nat2Z.id. cbn [andb].
    rewrite (bind_ok _ _ _ _ _ (io_reads _ s _ (read_mem_holds _ l src H0 H1 Hl))), Ec, Ef.
    rewrite (bind_ok _ _ _ _ _ (file_offset_ok _ _ (position h) s Hoff)), Ep, (sh_bytes _ _ Hs f). fold o. cbn zeta.
    rewrite u64_small by (unfold in_u64; lia). unfold s2, s1. rewrite <- overwrite_put.
    by replace (Z.of_nat (Z.to_nat o + length l)) with (o + Z.of_nat (length l)) by lia; replace (Z.to_nat (o + Z.of_nat (length l))) with (Z.to_nat o + length l)%nat by lia. }
  destruct (finish_ok b (STATUS_SUCCESS, Z.of_nat (length l)) s2 Hb) as (m & Em & Hm).
  exists (with_mem m s2). rewrite E, Em. split; [done|]. split.
  - apply shows_mem. apply (shows_move r h f _ s1 (fill f _ v) handle); [by apply shows_fill|done..|lia].
  - rewrite mem_with_mem. intros x. rewrite told_nothing. apply Hm.
Qed.

Lemma write_file_information_ok h f r info_class dst len s v :
  shows s v -> file h = Some f -> position h = cursor_of v r -> info_class <> file_internal_information ->
  write_file_information hash h info_class dst len s =
    match file_info info_class r f v with
    | None => ret (STATUS_INVALID_INFO_CLASS, 0)
    | Some out => if len <? Z.of_nat (length out) then ret (STATUS_INFO_LENGTH_MISMATCH, 0)
                  else Irp.on_mem (write_mem dst out) ;; ret (STATUS_SUCCESS, Z.of_nat (length out))
    end s.
Proof using Type.
  intros Hs Ef Ep Hc. unfold write_file_information, file_info. unfold bind at 1, get. rewrite Ef, (sh_bytes _ _ Hs f), Ep.
  destruct (info_class =? file_standard_information); [done|]. destruct (info_class =? file_basic_information); [done|].
  destruct (info_class =? file_position_information); [done|]. by rewrite (proj2 (Z.eqb_neq _ _) Hc).
Qed.

Lemma Query_ok handle b dst len info_class s v :
  shows s v -> ready (Query handle b dst len info_class) (mem_of s) v ->
  let '(a, v') := spec (Query handle b dst len info_class) v in answers (Query handle b dst len info_class) s a v'.
Proof using laws.
  intros Hs (Hb & Hc & Hout). cbn [place fst] in Hb.
  pose proof (sh_open _ _ Hs handle) as Ho. unfold spec in Hout |- *. destruct (opened handle) as [[r f]|] eqn:Eo.
  2: { apply refuses; [done..|]. unfold perform, NtQueryInformationFile, bind at 1, get. destruct (file_of handle s) as [[r h]|]; [|done].
       destruct Ho as [E1 E2]. by rewrite bool_decide_true. }
  destruct Ho as (h & Eh & Ef & Ec & Ep & Hp).
  assert (perform (Query handle b dst len info_class) s = (let! r := write_file_information hash h info_class dst len in finish b r) s) as E.
  { unfold perform, NtQueryInformationFile, bind at 1, get. rewrite Eh, bool_decide_false by (rewrite Ef; discriminate). done. }
  unfold bind in E. rewrite (write_file_information_ok h f r info_class dst len s v Hs Ef Ep Hc) in E.
  destruct (file_info info_class r f v) as [out|]; [|by apply refuses]. destruct (len <? Z.of_nat (length out)); [by apply refuses|].
  destruct (write_out_buffer dst out s Hout) as (m1 & E1 & H1). rewrite (bind_ok _ _ _ _ _ E1) in E. unfold ret in E.
  destruct (finish_ok b (STATUS_SUCCESS, Z.of_nat (length out)) (with_mem m1 s)) as (m & E2 & H2).
  { rewrite mem_with_mem. by eapply block_splice. }
  rewrite mem_with_mem in H2. exists (with_mem m (with_mem m1 s)). rewrite E, E2. split; [done|]. split; [by do 2 apply shows_mem|].
  rewrite mem_with_mem. unfold told. by apply (same_trans _ _ _ H2), splice_same.
Qed.

Lemma perform_ok c s v : shows s v -> ready c (mem_of s) v -> let '(a, v') := spec c v in answers c s a v'.
Proof using laws. destruct c; [apply Read_ok|apply Write_ok|apply Query_ok]. Qed.

(** ** Any sequence of calls *)

(** Before each call the kernel, and the guest's memory with it, is what it likes,
    so long as what the call needs is ready. *)
Fixpoint transcript (calls : list (K * call)) s (v : view) : Prop :=
  match calls with
  | [] => True
  | (k, c) :: calls =>
      ready c (gp_mem k) v ->
      let '(a, v') := spec c v in
      exists s', perform c (set_kern k s) = (Ok (status_ a), s') /\ same (mem_of s') (told c a (gp_mem k)) /\ transcript calls s' v'
  end.

Lemma transcript_holds calls : forall s v, shows s v -> transcript calls s v.
Proof using laws.
  induction calls as [|[k c] calls IH]; intros s v Hs; [done|]. cbn [transcript]. intros Hr.
  assert (shows (set_kern k s) v) as Hs' by (by destruct Hs; split).
  pose proof (perform_ok c (set_kern k s) v Hs' Hr) as H. destruct (spec c v) as [a v'].
  destruct H as (s' & E & Hv & Hm). exists s'. split_and!; [done|done|by apply IH].
Qed.

End Kernel.
End Files.

(** ** Opening a file *)

(** A status, or whether the file is a new one and what the block says. *)
Definition outcome (path : str) (is_file is_dir : bool) (disposition create_options : Z) : Z + bool * Z :=
  if bool_decide (path = []) then inl STATUS_OBJECT_NAME_INVALID
  else if is_dir then (if Z.land create_options file_non_directory_file =? 0 then inr (true, file_opened) else inl STATUS_FILE_IS_A_DIRECTORY)
  else if is_file && negb (Z.land create_options file_directory_file =? 0) then inl STATUS_NOT_A_DIRECTORY
  else if disposition =? file_open then (if is_file then inr (false, file_opened) else inl STATUS_OBJECT_NAME_NOT_FOUND)
  else if disposition =? file_create then (if is_file then inl STATUS_OBJECT_NAME_COLLISION else inr (true, file_created))
  else if disposition =? file_open_if then inr (negb is_file, if is_file then file_opened else file_created)
  else if disposition =? file_overwrite then (if is_file then inr (true, file_overwritten) else inl STATUS_OBJECT_NAME_NOT_FOUND)
  else if disposition =? file_supersede then inr (true, if is_file then file_superseded else file_created)
  else if disposition =? file_overwrite_if then inr (true, if is_file then file_overwritten else file_created)
  else inl STATUS_INVALID_PARAMETER.

Definition with_opened (handle r : Z) (f : nat) (opened : Z -> option (Z * nat)) : Z -> option (Z * nat) :=
  fun x => if decide (x = handle) then Some (r, f) else opened x.

Section Opening.
Context {K : Type} {gp : GuestPool K} {laws : GuestPoolLaws K} (guest : Z -> list Z -> isys K -> isys K).
Implicit Types (s : isys K).

(** Handles are counted, and hosts and files numbered as they are made. *)
Record numbered (opened : Z -> option (Z * nat)) s : Prop := {
  nu_table : table_ok (tbl s);
  nu_hosts : forall handle r, get_object_of handle (tbl s) = Some r -> r < fresh_host s;
  nu_names : forall p f, files_ (fs s) !! p = Some f -> (f < fresh_file (fs s))%nat;
  nu_files : forall f, is_Some (contents (fs s) !! f) -> (f < fresh_file (fs s))%nat;
  nu_opened : forall handle r f, opened handle = Some (r, f) -> (f < fresh_file (fs s))%nat
}.

Lemma created_other host base t t' handle :
  table_ok t -> has_room base t -> created host base [] 0 t t' -> handle <> next_handle_ t -> get_object_of handle t' = get_object_of handle t.
Proof using Type.
  intros Ht Hr C Hne. destruct (lookup_handle handle t) as [e|] eqn:E; [by apply (created_handle _ _ _ _ _ _ Ht Hr C handle e)|].
  unfold get_object_of, lookup_handle in *. rewrite (cr_handles _ _ _ _ _ _ C), lookup_insert_ne by congruence. by rewrite E.
Qed.

Lemma new_file_object_ok h f opened base file_handle s v :
  numbered opened s -> shows opened s v -> has_room base (tbl s) -> (f < fresh_file (fs s))%nat ->
  file h = Some f -> console h = false -> 0 <= position h ->
  buffer_at (mem_of s) file_handle 8 -> file_handle <> 0 ->
  let handle := next_handle_ (tbl s) in
  let r := fresh_host s in
  exists s', new_file_object h base file_handle s = (Ok true, s') /\ fs s' = fs s /\
    same (mem_of s') (splice file_handle (le_bytes 8 handle) (mem_of s)) /\
    numbered (with_opened handle r f opened) s' /\ shows (with_opened handle r f opened) s' (move r (position h) v).
Proof using laws.
  intros [Ht Hh Hn Hf Ho] [S1 S2] Hr Hlt Ef Ec Hp Hb Hfh handle r. unfold new_file_object.
  destruct (named_object_created (Some r) base [] 0 (tbl s) Ht Hr) as (t' & E & C). unfold named_object, register_named_object in E.
  cbn [objs_ tbl add_host]. destruct (create_object base 0 (Some r) (objs_ (tbl s))) as [addr m] eqn:Em. fold r. rewrite Em. cbn [snd] in E.
  assert (addr = body_of base) as -> by (by injection Em). rewrite (proj2 (Z.eqb_neq (body_of base) 0)) by apply Hr. rewrite (proj2 (Z.eqb_neq file_handle 0)) by done.
  unfold bind at 1, get. cbn [tbl set_tbl]. change (on_objs _ (on_objs _ (tbl s))) with (on_objs (fun _ => m) (tbl s)) in E. rewrite E. fold handle.
  unfold bind at 1, modify. set (s1 := set_tbl t' _).
  destruct (write_out_buffer file_handle (le_bytes 8 handle) s1) as (m1 & E1 & H1); [by rewrite length_le_bytes|].
  rewrite (bind_ok _ _ _ _ _ E1). exists (with_mem m1 s1).
  assert (forall hd, hd <> handle -> get_object_of hd t' = get_object_of hd (tbl s)) as Hother by (intros hd; by apply (created_other _ _ _ _ _ Ht Hr C)).
  pose proof (created_new _ _ _ _ _ _ C) as Hnew. fold handle in Hnew.
  split_and!; [done|done|rewrite mem_with_mem; exact H1| |].
  - split; [apply (cr_ok _ _ _ _ _ _ C)| |done|done|].
    + intros hd r1 Hg. change (get_object_of hd t' = Some r1) in Hg. change (r1 < fresh_host s + 1).
      destruct (decide (hd = handle)) as [->|Hne]; [rewrite Hnew in Hg; injection Hg as <-; unfold r; lia|].
      rewrite (Hother _ Hne) in Hg. apply Hh in Hg. lia.
    + intros hd r1 f1. unfold with_opened. case_decide; [by intros [= <- <-]|apply Ho].
  - split; [exact S1|]. intros hd. specialize (S2 hd). unfold file_of in *. cbn [tbl hosts with_mem set_kern s1 set_tbl add_host]. unfold with_opened. fold r.
    destruct (decide (hd = handle)) as [->|Hne].
    + rewrite Hnew. cbn [mbind option_bind]. rewrite lookup_insert_eq. exists h. cbn. by rewrite decide_True.
    + rewrite (Hother _ Hne). destruct (get_object_of hd (tbl s)) as [r1|] eqn:Eg; [|by destruct (opened hd) as [[? ?]|]; [destruct S2 as (? & ? & _)|]]. apply Hh in Eg. cbn [mbind option_bind] in *.
      rewrite lookup_insert_ne by (unfold r; lia). destruct (opened hd) as [[r2 f2]|]; [|done].
      destruct S2 as (h2 & E2 & F2 & C2 & P2). exists h2. split; [done|]. cbn [cursor_of move]. rewrite decide_False; [done|].
      destruct (hosts s !! r1) as [[]|]; simplify_eq. unfold r. lia.
Qed.

(** ** NtCreateFile *)

Lemma splice_over a l l' m : length l = length l' -> same (splice a l (splice a l' m)) (splice a l m).
Proof using Type. intros E x. unfold splice. rewrite E. by destruct (_ && _). Qed.

Lemma numbered_mem opened m s : numbered opened s -> numbered opened (with_mem m s).
Proof using Type. intros []. by split. Qed.

Lemma numbered_files opened s f' :
  numbered opened s -> (fresh_file (fs s) <= fresh_file f')%nat ->
  (forall p f, files_ f' !! p = Some f -> files_ (fs s) !! p = Some f \/ (f < fresh_file f')%nat) ->
  (forall f, is_Some (contents f' !! f) -> is_Some (contents (fs s) !! f) \/ (f < fresh_file f')%nat) -> numbered opened (set_fs f' s).
Proof using Type.
  intros [H1 H2 H3 H4 H5] Hle Hn Hc. split; [done|done| | |]; cbn [fs set_fs].
  - intros p f [H%H3|H]%Hn; lia.
  - intros f [H%H4|H]%Hc; lia.
  - intros hd r f H%H5. lia.
Qed.

(** What a new file leaves of the others. *)
Lemma new_data f' fs0 : (forall f, is_Some (contents fs0 !! f) -> (f < fresh_file fs0)%nat) ->
  default [] (<[fresh_file fs0 := []]> (contents fs0) !! f') = data f' fs0.
Proof using Type.
  intros H. unfold data. destruct (decide (f' = fresh_file fs0)) as [->|Hne]; [|by rewrite lookup_insert_ne].
  rewrite lookup_insert_eq. destruct (contents fs0 !! fresh_file fs0) eqn:E; [|done]. specialize (H (fresh_file fs0)). rewrite E in H.
  specialize (H ltac:(by eexists)). lia.
Qed.

Lemma shows_files opened s f' v : shows opened s v -> (forall f, data f f' = data f (fs s)) -> shows opened (set_fs f' s) v.
Proof using Type. intros [H1 H2] H. split; [|done]. intros f. cbn. by rewrite H. Qed.

(** What opening a file leaves: the handle is open on it, at its start. *)
Record opens (path : str) (is_dir new : bool) (opened : Z -> option (Z * nat)) (v : view) s s' (f : nat) : Prop := {
  op_file : is_dir = false -> open path (fs s') = Some f;
  op_old : new = false -> open path (fs s) = Some f;
  op_new : new = true -> bytes_of v f = [] /\ (forall handle r f0, opened handle = Some (r, f0) -> f0 <> f) /\ forall p, open p (fs s) <> Some f;
  op_numbered : numbered (with_opened (next_handle_ (tbl s)) (fresh_host s) f opened) s';
  op_shows : shows (with_opened (next_handle_ (tbl s)) (fresh_host s) f opened) s' (move (fresh_host s) 0 v)
}.

Lemma open_object path is_dir new r f' opened base file_handle info s v :
  numbered opened s -> shows opened s v -> has_room base (tbl s) -> buffer_at (mem_of s) file_handle 8 -> file_handle <> 0 ->
  numbered opened (set_fs f' s) -> (forall f, data f f' = data f (fs s)) -> (r < fresh_file f')%nat ->
  (is_dir = false -> files_ f' !! normalize path = Some r) -> (new = false -> open path (fs s) = Some r) -> (new = true -> r = fresh_file (fs s)) ->
  exists s', (modify (set_fs (hold r f')) ;;
      let! made := new_file_object (FileHost (Some r) path 0 false 0 0) base file_handle in
      ret (if made : bool then (STATUS_SUCCESS, info) else (STATUS_INSUFFICIENT_RESOURCES, 0))) s = (Ok (STATUS_SUCCESS, info), s') /\
    same (mem_of s') (splice file_handle (le_bytes 8 (next_handle_ (tbl s))) (mem_of s)) /\ opens path is_dir new opened v s s' r.
Proof using laws.
  intros Hn Hs Hr Hb Hfh Hn' Hd Hlt Hf Hold Hnew. set (s1 := set_fs (hold r f') s).
  assert (numbered opened s1) as Hn1 by (destruct Hn'; by split).
  assert (shows opened s1 v) as Hs1 by (apply shows_files; [done|apply Hd]).
  destruct (new_file_object_ok (FileHost (Some r) path 0 false 0 0) r opened base file_handle s1 v) as (s' & E & Efs & Em & N & S); try done.
  exists s'. unfold bind at 1, modify. fold s1. rewrite (bind_ok _ _ _ _ _ E). split_and!; [done|exact Em|]. split; [|done| |done|done].
  - intros Hd0. unfold open. rewrite Efs. by apply Hf.
  - intros ->%Hnew. destruct Hn as [_ _ H3 H4 H5]. destruct Hs as [S1 _]. split_and!.
    + rewrite <- S1. unfold data. destruct (contents (fs s) !! fresh_file (fs s)) eqn:E'; [|done]. specialize (H4 (fresh_file (fs s))). rewrite E' in H4.
      specialize (H4 ltac:(by eexists)). lia.
    + intros hd r0 f0 H%H5. lia.
    + intros p H%H3. lia.
Qed.

(** The three ways a file is come by: one no path names, one just made, and one
    that is there. *)
Lemma open_directory path opened base file_handle info s v :
  numbered opened s -> shows opened s v -> has_room base (tbl s) -> buffer_at (mem_of s) file_handle 8 -> file_handle <> 0 ->
  exists s', (let '(r, f) := new_file (fs s) in modify (set_fs (hold r f)) ;;
      let! made := new_file_object (FileHost (Some r) path 0 false 0 0) base file_handle in
      ret (if made : bool then (STATUS_SUCCESS, info) else (STATUS_INSUFFICIENT_RESOURCES, 0))) s = (Ok (STATUS_SUCCESS, info), s') /\
    same (mem_of s') (splice file_handle (le_bytes 8 (next_handle_ (tbl s))) (mem_of s)) /\ opens path true true opened v s s' (fresh_file (fs s)).
Proof using laws.
  intros Hn Hs Hr Hb Hfh. apply open_object; try done.
  - apply numbered_files; cbn; [done|lia|by left|]. intros f. destruct (decide (f = fresh_file (fs s))) as [->|]; [right; lia|]. rewrite lookup_insert_ne by done. by left.
  - intros f. apply new_data, Hn.
  - cbn. lia.
Qed.

Lemma open_created path opened base file_handle info s v :
  numbered opened s -> shows opened s v -> has_room base (tbl s) -> buffer_at (mem_of s) file_handle 8 -> file_handle <> 0 ->
  exists s', (modify (set_fs (hold (create path (fs s)).1 (create path (fs s)).2)) ;;
      let! made := new_file_object (FileHost (Some (create path (fs s)).1) path 0 false 0 0) base file_handle in
      ret (if made : bool then (STATUS_SUCCESS, info) else (STATUS_INSUFFICIENT_RESOURCES, 0))) s = (Ok (STATUS_SUCCESS, info), s') /\
    same (mem_of s') (splice file_handle (le_bytes 8 (next_handle_ (tbl s))) (mem_of s)) /\ opens path false true opened v s s' (fresh_file (fs s)).
Proof using laws.
  intros Hn Hs Hr Hb Hfh. apply open_object; try done.
  - apply numbered_files; cbn; [done|lia| |].
    + intros p f. destruct (decide (p = normalize path)) as [->|]; [rewrite lookup_insert_eq; intros [= <-]; right; lia|]. rewrite lookup_insert_ne by done. by left.
    + intros f. destruct (decide (f = fresh_file (fs s))) as [->|]; [right; lia|]. rewrite lookup_insert_ne by done. by left.
  - intros f. apply new_data, Hn.
  - cbn. lia.
  - intros _. apply lookup_insert_eq.
Qed.

Lemma open_present path f opened base file_handle info s v :
  numbered opened s -> shows opened s v -> has_room base (tbl s) -> buffer_at (mem_of s) file_handle 8 -> file_handle <> 0 -> open path (fs s) = Some f ->
  exists s', (modify (set_fs (hold f (fs s))) ;;
      let! made := new_file_object (FileHost (Some f) path 0 false 0 0) base file_handle in
      ret (if made : bool then (STATUS_SUCCESS, info) else (STATUS_INSUFFICIENT_RESOURCES, 0))) s = (Ok (STATUS_SUCCESS, info), s') /\
    same (mem_of s') (splice file_handle (le_bytes 8 (next_handle_ (tbl s))) (mem_of s)) /\ opens path false false opened v s s' f.
Proof using laws.
  intros Hn Hs Hr Hb Hfh E. apply open_object; try done.
  - by destruct Hn; split.
  - by eapply (nu_names _ _ Hn).
Qed.

Lemma open_file_ok path disposition create_options base file_handle opened s v :
  numbered opened s -> shows opened s v -> has_room base (tbl s) -> buffer_at (mem_of s) file_handle 8 -> file_handle <> 0 ->
  let is_dir := dir_exists path (fs s) in
  match outcome path (exists_ path (fs s)) is_dir disposition create_options with
  | inl status => open_file path disposition create_options base file_handle s = (Ok (status, 0), s)
  | inr (new, info) => exists s' f, open_file path disposition create_options base file_handle s = (Ok (STATUS_SUCCESS, info), s') /\
      same (mem_of s') (splice file_handle (le_bytes 8 (next_handle_ (tbl s))) (mem_of s)) /\ opens path is_dir new opened v s s' f
  end.
Proof using laws.
  intros Hn Hs Hr Hb Hfh is_dir. unfold open_file, outcome. destruct path as [|c path]; [done|]. rewrite bool_decide_false by done. set (p := c :: path) in *.
  assert (forall A (k : isys K -> st (isys K) A), bind get k s = k s s) as Hget by done. rewrite !Hget. clear Hget. fold is_dir.
  assert (forall info, exists s' f, (modify (set_fs (hold (create p (fs s)).1 (create p (fs s)).2)) ;;
      let! made := new_file_object (FileHost (Some (create p (fs s)).1) p 0 false 0 0) base file_handle in
      ret (if made : bool then (STATUS_SUCCESS, info) else (STATUS_INSUFFICIENT_RESOURCES, 0))) s = (Ok (STATUS_SUCCESS, info), s') /\
    same (mem_of s') (splice file_handle (le_bytes 8 (next_handle_ (tbl s))) (mem_of s)) /\ opens p false true opened v s s' f) as Hcreate.
  { intros info. destruct (open_created p opened base file_handle info s v Hn Hs Hr Hb Hfh) as (s' & H). by exists s', (fresh_file (fs s)). }
  destruct is_dir eqn:Ed.
  { rewrite orb_true_r. cbn [andb]. destruct (Z.land create_options file_non_directory_file =? 0); cbn [negb andb]; [|done].
    destruct (open_directory p opened base file_handle file_opened s v Hn Hs Hr Hb Hfh) as (s' & H). by exists s', (fresh_file (fs s)). }
  rewrite orb_false_r, andb_false_r, andb_true_r. cbn [andb negb]. unfold exists_. fold (open p (fs s)).
  destruct (open p (fs s)) as [f|] eqn:Eo.
  - rewrite bool_decide_true by by eexists. cbn [andb]. destruct (negb _); [done|].
    assert (forall info, exists s' f', (modify (set_fs (hold f (fs s))) ;;
      let! made := new_file_object (FileHost (Some f) p 0 false 0 0) base file_handle in
      ret (if made : bool then (STATUS_SUCCESS, info) else (STATUS_INSUFFICIENT_RESOURCES, 0))) s = (Ok (STATUS_SUCCESS, info), s') /\
      same (mem_of s') (splice file_handle (le_bytes 8 (next_handle_ (tbl s))) (mem_of s)) /\ opens p false false opened v s s' f') as Hopen.
    { intros info. destruct (open_present p f opened base file_handle info s v Hn Hs Hr Hb Hfh Eo) as (s' & H). by exists s', f. }
    repeat (destruct (disposition =? _); cbn [orb]; [first [done|apply Hopen|apply Hcreate]|]). done.
  - rewrite bool_decide_false by by intros []. cbn [andb negb].
    repeat (destruct (disposition =? _); cbn [orb]; [first [done|apply Hcreate]|]). done.
Qed.
(** C17: a file opened by NtCreateFile is a byte array with a cursor.  The call answers
    for every disposition and option as the table of outcomes says: it refuses and
    changes nothing but the two words it was told to write, or a handle is open on
    the file, at its start, a new one empty and shared with no other handle.  From
    then on, whatever the guest does between the calls and through whichever open
    handles, every read, write and query answers as the arrays do: the bytes at the
    cursor or at the offset asked for, as many as there are, a write past the end
    filled up with zeros, and nothing else in memory changed. *)
Theorem file_transcript hash opened file_handle object_attributes b disposition create_options base n calls s v :
  numbered opened s -> shows opened s v -> has_room base (tbl s) ->
  buffer_at (mem_of s) file_handle 8 -> file_handle <> 0 -> block_at (mem_of s) b ->
  Ports.attribute_name object_attributes (mem_of s) = (Ok n, mem_of s) -> find_device (normalize n) s = 0 ->
  let path := normalize n in
  let is_dir := dir_exists path (fs s) in
  let run := NtCreateFile guest file_handle object_attributes b disposition create_options base s in
  let handle := next_handle_ (tbl s) in
  let r := fresh_host s in
  match outcome path (exists_ path (fs s)) is_dir disposition create_options with
  | inl status => exists s', run = (Ok status, s') /\
      same (mem_of s') (splice b (block_bytes b (Answer status 0 [])) (splice file_handle (le_bytes 8 0) (mem_of s))) /\
      fs s' = fs s /\ tbl s' = tbl s /\ transcript opened hash calls s' v
  | inr (new, info) => exists s' f, run = (Ok STATUS_SUCCESS, s') /\
      same (mem_of s') (splice b (block_bytes b (Answer STATUS_SUCCESS info [])) (splice file_handle (le_bytes 8 handle) (mem_of s))) /\
      opens path is_dir new opened v s s' f /\ transcript (with_opened handle r f opened) hash calls s' (move r 0 v)
  end.
Proof using laws.
  intros Hn Hs Hr Hb Hfh Hblk Ha Hdev path is_dir run handle r.
  destruct (write_out_buffer file_handle (le_bytes 8 0) s) as (m0 & E0 & H0); [by rewrite length_le_bytes|]. set (s0 := with_mem m0 s).
  assert (run = (let! result := open_file path disposition create_options base file_handle in finish b result) s0) as ->.
  { unfold run, NtCreateFile. assert (object_path object_attributes s = (Ok path, s)) as Ep by (unfold object_path; by rewrite (bind_ok _ _ _ _ _ (io_reads _ s _ Ha))).
    rewrite (bind_ok _ _ _ _ _ Ep), (proj2 (Z.eqb_neq file_handle 0)) by done. rewrite (bind_ok _ _ _ _ _ E0). fold s0. unfold bind at 1, get. cbn zeta.
    change (find_device path s0) with (find_device path s). unfold path in *. by rewrite Hdev. }
  assert (mem_of s0 = m0) as Em0 by apply mem_with_mem.
  pose proof (open_file_ok path disposition create_options base file_handle opened s0 v) as H. cbn zeta in H. change (fs s0) with (fs s) in H. fold is_dir in H.
  rewrite Em0 in H. specialize (H (numbered_mem _ _ _ Hn) (shows_mem _ _ _ _ Hs) Hr (buffer_splice _ _ _ _ _ _ Hb H0) Hfh).
  destruct (outcome _ _ _ _ _) as [status|[new info]].
  - unfold bind. rewrite H. destruct (finish_ok b (status, 0) s0) as (m & E & Hm); [rewrite Em0; by eapply block_splice|].
    exists (with_mem m s0). split_and!; [exact E| |done|done|].
    + rewrite mem_with_mem. rewrite Em0 in Hm. by apply (same_trans _ _ _ Hm), splice_same.
    + by apply transcript_holds, shows_mem, shows_mem.
  - destruct H as (s1 & f & E1 & M1 & O). rewrite (bind_ok _ _ _ _ _ E1). change (next_handle_ (tbl s0)) with handle in M1.
    assert (same (mem_of s1) (splice file_handle (le_bytes 8 handle) (mem_of s))) as M2.
    { apply (same_trans _ _ _ M1). eapply same_trans; [apply splice_same, H0|]. apply splice_over. by rewrite !length_le_bytes. }
    destruct (finish_ok b (STATUS_SUCCESS, info) s1) as (m & E & Hm); [by eapply block_splice|].
    exists (with_mem m s1), f. destruct O as [O1 O2 O3 O4 O5]. split_and!; [exact E| |split; [done|done|done|by apply numbered_mem|by apply shows_mem]|].
    + rewrite mem_with_mem. by apply (same_trans _ _ _ Hm), splice_same.
    + by apply transcript_holds, shows_mem.
Qed.
End Opening.

(** ** Memory descriptor lists *)

Module MmThm.
Import Mm.

(** Its fields fit their widths. *)
Record mdl_ok (m : mdl) : Prop := {
  mo_next : 0 <= next m < 2 ^ 64; mo_size : 0 <= size m < 2 ^ 16; mo_flags : 0 <= mdl_flags m < 2 ^ 16; mo_processor : 0 <= alloc_processor m < 2 ^ 32;
  mo_process : 0 <= process m < 2 ^ 64; mo_mapped : 0 <= mapped_system_va m < 2 ^ 64; mo_start : 0 <= start_va m < 2 ^ 64;
  mo_count : 0 <= byte_count m < 2 ^ 32; mo_offset : 0 <= byte_offset m < 2 ^ 32
}.

Lemma length_encode m : length (encode m) = 48%nat.
Proof. done. Qed.

Lemma at_off_head w v l : 0 <= v < 256 ^ Z.of_nat w -> at_off 0 w (le_bytes w v ++ l) = v.
Proof. intros H. unfold at_off. rewrite drop_0, take_app_length' by (by rewrite length_le_bytes). rewrite le_val_bytes. by apply Z.mod_small. Qed.
Lemma at_off_tail n off w v l : at_off (n + off) w (le_bytes n v ++ l) = at_off off w l.
Proof. unfold at_off. by rewrite <- drop_drop, drop_app_length' by (by rewrite length_le_bytes). Qed.

Lemma decode_encode m : mdl_ok m -> decode (encode m) = m.
Proof.
  intros []. destruct m as [a b c d e f g h i]. cbn [next size mdl_flags alloc_processor process mapped_system_va start_va byte_count byte_offset] in *. unfold encode.
  cbn [next size mdl_flags alloc_processor process mapped_system_va start_va byte_count byte_offset]. rewrite <- (app_nil_r (le_bytes 4 i)). unfold decode. f_equal.
  - by apply at_off_head.
  - rewrite (at_off_tail 8 0). by apply at_off_head.
  - rewrite (at_off_tail 8 2), (at_off_tail 2 0). by apply at_off_head.
  - rewrite (at_off_tail 8 4), (at_off_tail 2 2), (at_off_tail 2 0). by apply at_off_head.
  - rewrite (at_off_tail 8 8), (at_off_tail 2 6), (at_off_tail 2 4), (at_off_tail 4 0). by apply at_off_head.
  - rewrite (at_off_tail 8 16), (at_off_tail 2 14), (at_off_tail 2 12), (at_off_tail 4 8), (at_off_tail 8 0). by apply at_off_head.
  - rewrite (at_off_tail 8 24), (at_off_tail 2 22), (at_off_tail 2 20), (at_off_tail 4 16), (at_off_tail 8 8), (at_off_tail 8 0). by apply at_off_head.
  - rewrite (at_off_tail 8 32), (at_off_tail 2 30), (at_off_tail 2 28), (at_off_tail 4 24), (at_off_tail 8 16), (at_off_tail 8 8), (at_off_tail 8 0). by apply at_off_head.
  - rewrite (at_off_tail 8 36), (at_off_tail 2 34), (at_off_tail 2 32), (at_off_tail 4 28), (at_off_tail 8 20), (at_off_tail 8 12), (at_off_tail 8 4), (at_off_tail 4 0). by apply at_off_head.
Qed.

(** What [IoAllocateMdl] and a request write is such a structure. *)
Lemma mdl_bytes_encode va bytes flags sva :
  mdl_bytes va bytes flags sva = encode (Mdl 0 (mdl_size va bytes) flags 0 0 sva (mdl_page_base va) bytes (mdl_page_offset va)).
Proof. reflexivity. Qed.

Section Frames.
Context {K : Type} {gp : GuestPool K} {laws : GuestPoolLaws K} (virt_to_phys : Z -> K -> option Z).
(** Bytes of guest memory do not change where pages are. *)
Context (Hvirt : forall m k va, virt_to_phys va (gp_set m k) = virt_to_phys va k).

Definition frame_of (k : K) (va : Z) : Z := default 0 (virt_to_phys va k) / mdl_page_size.
Definition frame_words (k : K) (va : Z) (pages : nat) : list Z := flat_map (fun i => le_bytes 8 (frame_of k (va + Z.of_nat i * mdl_page_size))) (seq 0 pages).

Lemma length_frame_words k va pages : length (frame_words k va pages) = (8 * pages)%nat.
Proof.
  unfold frame_words. assert (forall l : list nat, length (flat_map (fun i => le_bytes 8 (frame_of k (va + Z.of_nat i * mdl_page_size))) l) = (8 * length l)%nat) as ->.
  { intros l. induction l as [|i l IH]; [done|]. cbn [flat_map]. rewrite length_app, length_le_bytes, IH. cbn [length]. lia. }
  by rewrite length_seq.
Qed.

Lemma frame_words_S k va pages : frame_words k va (S pages) = le_bytes 8 (frame_of k va) ++ frame_words k (va + mdl_page_size) pages.
Proof.
  unfold frame_words. cbn [seq flat_map]. f_equal; [by rewrite Z.add_0_r|]. rewrite <- seq_shift, flat_map_concat_map, map_map, <- flat_map_concat_map.
  apply flat_map_ext. intros i. do 2 f_equal. lia.
Qed.

Lemma frame_words_set m k va pages : frame_words (gp_set m k) va pages = frame_words k va pages.
Proof using Hvirt. unfold frame_words. apply flat_map_ext. intros i. unfold frame_of. by rewrite Hvirt. Qed.

Lemma write_frames_ok pages : forall dst va k, buffer_at (gp_mem k) dst (8 * Z.of_nat pages) ->
  exists m, write_frames virt_to_phys dst va pages k = (Ok tt, gp_set m k) /\ same m (splice dst (frame_words k va pages) (gp_mem k)).
Proof using laws Hvirt.
  induction pages as [|n IH]; intros dst va k (H1 & H2 & H3).
  { exists (gp_mem k). rewrite gp_set_get. split; [done|]. intros x. by rewrite splice_out by (cbn; lia). }
  cbn [write_frames]. unfold bind at 1, get. fold (frame_of k va).
  destruct (write_mem_mapped (le_bytes 8 (frame_of k va)) dst (gp_mem k)) as (m1 & E1 & S1); rewrite ?length_le_bytes; [lia|lia|intros x Hx; apply H3; lia|].
  assert (StringOps.on_mem (write_mem dst (le_bytes 8 (frame_of k va))) k = (Ok tt, gp_set m1 k)) as E by (unfold StringOps.on_mem; by rewrite E1).
  rewrite (bind_ok _ _ _ _ _ E). destruct (IH (dst + 8) (va + mdl_page_size) (gp_set m1 k)) as (m & Em & Sm).
  { rewrite gp_get_set. split_and!; [lia|lia|]. intros x Hx. rewrite S1. apply (splice_mapped _ _ _ _ _ H3). lia. }
  exists m. rewrite Em, gp_set_set. split; [done|]. rewrite gp_get_set, frame_words_set in Sm. rewrite frame_words_S.
  apply (same_trans _ _ _ Sm). eapply same_trans; [apply splice_same, S1|].
  pose proof (splice_splice dst (le_bytes 8 (frame_of k va)) (frame_words k (va + mdl_page_size) n) (gp_mem k)) as Hss. by rewrite length_le_bytes in Hss.
Qed.

Definition built (m : mdl) : mdl :=
  Mdl (next m) (size m) (Z.lor (Z.lor (Z.lor (mdl_flags m) mdl_mapped_to_system_va) mdl_pages_locked) mdl_source_is_nonpaged_pool)
    (alloc_processor m) (process m) (u64 (start_va m + byte_offset m)) (start_va m) (byte_count m) (byte_offset m).
Definition build_pages (m : mdl) : nat := Z.to_nat (mdl_page_count (start_va m) (byte_count m)).

(** A list in memory is given the address of its buffer and the frames of the pages
    its byte count covers from the start of its first page; nothing else changes. *)
Theorem build_mdl a m k :
  mdl_ok m -> 0 < a -> holds (gp_mem k) a (encode m) -> buffer_at (gp_mem k) a (0x30 + 8 * Z.of_nat (build_pages m)) ->
  exists k', MmBuildMdlForNonPagedPool virt_to_phys a k = (Ok tt, k') /\
    same (gp_mem k') (splice a (encode (built m) ++ frame_words k (mdl_page_base (start_va m)) (build_pages m)) (gp_mem k)).
Proof using laws Hvirt.
  intros Hm Ha Hh (H1 & H2 & H3). unfold MmBuildMdlForNonPagedPool. rewrite (proj2 (Z.eqb_neq a 0)) by lia.
  assert (read_mdl a k = (Ok m, k)) as E1.
  { unfold read_mdl. change 0x30%nat with (length (encode m)).
    rewrite (bind_ok _ _ _ _ _ (on_mem_read _ k _ (read_mem_holds _ (encode m) a H1 ltac:(rewrite length_encode; lia) Hh))). by rewrite decode_encode. }
  rewrite (bind_ok _ _ _ _ _ E1). destruct (write_mem_mapped (encode (built m)) a (gp_mem k)) as (m1 & E2 & S1); rewrite ?length_encode; [lia|lia|intros x Hx; apply H3; lia|].
  assert (write_mdl a (built m) k = (Ok tt, gp_set m1 k)) as E3 by (unfold write_mdl, StringOps.on_mem; by rewrite E2).
  fold (built m). rewrite (bind_ok _ _ _ _ _ E3). fold (build_pages m).
  destruct (write_frames_ok (build_pages m) (a + 0x30) (mdl_page_base (start_va m)) (gp_set m1 k)) as (m2 & E4 & S2).
  { rewrite gp_get_set. split_and!; [lia|lia|]. intros x Hx. rewrite S1. apply (splice_mapped _ _ _ _ _ H3). lia. }
  exists (gp_set m2 (gp_set m1 k)). split; [exact E4|]. rewrite gp_get_set in *. rewrite frame_words_set in S2.
  apply (same_trans _ _ _ S2). eapply same_trans; [apply splice_same, S1|].
  pose proof (splice_splice a (encode (built m)) (frame_words k (mdl_page_base (start_va m)) (build_pages m)) (gp_mem k)) as Hss. by rewrite length_encode in Hss.
Qed.
End Frames.

(** The byte count alone is what is covered: the second page of a buffer that runs
    from 0x1F00 to 0x2100 has room in the list and is given no frame. *)
Example last_frame_missing :
  let m := decode (mdl_bytes 0x1F00 0x200 0 0) in mdl_page_count 0x1F00 0x200 = 2 /\ build_pages m = 1%nat /\ start_va m + byte_offset m + byte_count m = 0x2100.
Proof. vm_compute. repeat split. Qed.
End MmThm.

(** ** What a request borrows *)

Module IrpThm.

Section Borrowed.
Context {K : Type} {gp : GuestPool K} (guest : Z -> list Z -> isys K -> isys K).

(** The blocks of the pool that are out: an allocation is one more, none when it
    answers 0 or throws, and a free is one less. *)
Context (out : K -> Z -> Prop).
Definition keeps (k k' : K) : Prop := forall x, out k' x <-> out k x.
Context (out_set : forall m k, keeps k (gp_set m k)).
Context (out_allocate : forall size tag k, wp (gp_allocate size tag true) k
  (fun a k' => (a = 0 /\ keeps k k') \/ (a <> 0 /\ ~ out k a /\ forall x, out k' x <-> x = a \/ out k x)) (fun _ k' => keeps k k')).
Context (out_free : forall a k x, out (gp_free a k).2 x <-> x <> a /\ out k x).
(** A routine of the driver gives back what it takes. *)
Context (out_guest : forall routine args s, keeps (kern s) (kern (guest routine args s))).

Definition keeping {A} (m : st (isys K) A) : Prop := forall s, keeps (kern s) (kern (m s).2).

Lemma keeping_bind {A B} (m : st (isys K) A) (f : A -> st (isys K) B) : keeping m -> (forall a, keeping (f a)) -> keeping (bind m f).
Proof using Type.
  intros H1 H2 s x. unfold bind. specialize (H1 s x). destruct (m s) as [[a|e] s1]; [|done]. cbn [snd] in H1. rewrite <- H1. apply H2.
Qed.
Lemma keeping_ret {A} (a : A) : keeping (ret a).
Proof using Type. done. Qed.
Lemma keeping_get : keeping get.
Proof using Type. done. Qed.
Lemma keeping_mem {A} (f : gst A) : keeping (Irp.on_mem f).
Proof using out_set. intros s x. unfold Irp.on_mem, in_kern, StringOps.on_mem. destruct (f (gp_mem (kern s))) as [r m]. cbn. apply out_set. Qed.
Lemma keeping_guest routine args : keeping (modify (guest routine args)).
Proof using out_guest. intros s. apply out_guest. Qed.

Lemma keeping_block {A} size tag (body : Z -> st (isys K) A) : (forall a, keeping (body a)) -> keeping (with_block size tag body).
Proof using out_allocate out_free.
  intros Hb s x. unfold with_block, bind. destruct (size =? 0).
  { unfold ret. cbn. specialize (Hb 0 s x). by destruct (body 0 s) as [r s1]. }
  unfold in_kern at 1. pose proof (out_allocate size tag (kern s)) as Ha. unfold wp in Ha. destruct (gp_allocate size tag true (kern s)) as [[a|e] k1]; [|apply Ha].
  specialize (Hb a (set_kern k1 s)). destruct (body a (set_kern k1 s)) as [r s2]. cbn [snd kern set_kern] in Hb.
  destruct Ha as [[-> Hk]|(Hn & Hf & Hk)]; [cbn; by rewrite (Hb x), (Hk x)|].
  rewrite (proj2 (Z.eqb_neq a 0)) by done. unfold in_kern. destruct (gp_free a (kern s2)) as [r' k'] eqn:Ef. cbn.
  pose proof (out_free a (kern s2) x) as Hx. rewrite Ef in Hx. cbn in Hx. rewrite Hx, (Hb x), (Hk x). split; [tauto|]. intros Ho. split; [by intros ->|by right].
Qed.

Create HintDb keeping.
#[local] Hint Resolve keeping_ret keeping_get keeping_mem keeping_guest : keeping.
Ltac keeping := repeat lazymatch goal with
  | |- keeping (with_block _ _ _) => apply keeping_block; intros ?
  | |- keeping (bind _ _) => apply keeping_bind; [|intros ?]
  | |- keeping (match _ with _ => _ end) => case_match
  | |- keeping _ => progress eauto with keeping
  end.

Lemma copy_guest_keeping to from n : keeping (copy_guest to from n).
Proof using out_set. unfold copy_guest. keeping. Qed.
#[local] Hint Resolve copy_guest_keeping : keeping.

Lemma call_driver_keeping routine is_control copies_in copies_out method req buffer mdl irp :
  keeping (call_driver guest routine is_control copies_in copies_out method req buffer mdl irp).
Proof using out_set out_guest. unfold call_driver, read_word. keeping. Qed.
#[local] Hint Resolve call_driver_keeping : keeping.

(** However a request ends, with an answer or an exception, completed or kept by the
    driver, the pool is owed what it was owed before it. *)
Theorem dispatch_gives_back req : keeping (dispatch_irp guest req).
Proof using out_set out_allocate out_free out_guest. unfold dispatch_irp, read_word. keeping. Qed.

(** A request to what is no device, or that its driver has no routine for, is
    refused with nothing changed. *)
Theorem dispatch_refused req s :
  match host_at (rq_device req) s with Some (HDevice _ _) => False | _ => True end ->
  dispatch_irp guest req s = (Ok (STATUS_INVALID_PARAMETER, 0), s).
Proof using Type. unfold dispatch_irp, bind, get. by destruct (host_at _ _) as [[]|]. Qed.

End Borrowed.
End IrpThm.

(** ** Requests a driver completes, and its devices *)

Module DevThm.
Import Dev.

Section Driver.
Context {K : Type} {gp : GuestPool K} {laws : GuestPoolLaws K}.
Implicit Types (s : isys K).

Lemma read_byte_at a b s : 0 <= a -> a + 1 <= 2 ^ 64 -> mem_of s a = Some b -> read_word 1 a s = (Ok b, s).
Proof using laws.
  intros H0 H1 Hb. apply io_reads. assert (holds (mem_of s) a [b]) as Hh by (intros [|i] c Hi; [injection Hi as <-; by rewrite Z.add_0_r|done]).
  rewrite (bind_ok _ _ _ _ _ (read_mem_holds _ [b] a H0 H1 Hh)). unfold ret. cbn [le_val]. do 2 f_equal. lia.
Qed.

(** Writing inside a buffer leaves it one. *)
Lemma write_inside a n b l s : buffer_at (mem_of s) a n -> a <= b -> b + Z.of_nat (length l) <= a + n ->
  exists m, Irp.on_mem (write_mem b l) s = (Ok tt, with_mem m s) /\ same m (splice b l (mem_of s)) /\ buffer_at m a n.
Proof using laws.
  intros (H1 & H2 & H3) Hb Hl. destruct (write_out_buffer b l s) as (m & E & Hs).
  { split_and!; [lia|lia|]. intros x Hx. apply H3. lia. }
  exists m. split; [done|]. split; [done|]. split_and!; [done|done|]. intros x Hx. rewrite Hs. by apply (splice_mapped b l _ a n H3).
Qed.

(** A driver that fills in the status block and completes the request, or keeps it. *)
Definition driver_body (completes : bool) (status information irp : Z) : st (isys K) unit :=
  Irp.on_mem (write_mem (irp + io_status_offset) (le_bytes 4 status ++ replicate 4 0 ++ le_bytes 8 information)) ;;
  if completes then IofCompleteRequest irp else ret tt.
Definition driver (completes : bool) (status information : Z) : Z -> list Z -> isys K -> isys K :=
  fun _ args s => (driver_body completes status information (nth 1 args 0) s).2.

Lemma irp_byte i copies_in req mdl buffer user stack : i = 0x42%nat \/ i = 0x43%nat -> irp_bytes copies_in req mdl buffer user stack !! i = Some 1.
Proof using Type. by intros [->| ->]. Qed.

Lemma driver_answers completes status information irp s :
  buffer_at (mem_of s) irp 0x118 -> 0 < irp -> mem_of s (irp + 0x42) = Some 1 -> mem_of s (irp + 0x43) = Some 1 ->
  let s' := (driver_body completes status information irp s).2 in
  buffer_at (mem_of s') irp 0x118 /\ holds (mem_of s') (irp + 0x30) (le_bytes 4 status ++ replicate 4 0 ++ le_bytes 8 information) /\
  mem_of s' (irp + 0x42) = Some 1 /\ mem_of s' (irp + 0x43) = Some (if completes then 2 else 1).
Proof using laws.
  intros Hb Hi H2 H3 s'. unfold s', driver_body, io_status_offset. set (sb := le_bytes 4 status ++ replicate 4 0 ++ le_bytes 8 information).
  assert (length sb = 16%nat) as Hl by done.
  destruct (write_inside irp 0x118 (irp + 0x30) sb s Hb) as (m1 & E1 & S1 & B1); [lia|rewrite Hl; lia|]. rewrite (bind_ok _ _ _ _ _ E1). clearbody sb.
  assert (m1 (irp + 0x42) = Some 1 /\ m1 (irp + 0x43) = Some 1) as [M2 M3] by (rewrite !S1, !splice_out by (rewrite Hl; lia); done).
  destruct completes.
  2: { cbn [snd ret]. rewrite mem_with_mem. split_and!; [done| |done|done]. apply (same_holds _ _ _ _ S1), splice_holds. }
  unfold IofCompleteRequest, stack_count_offset, current_location_offset. rewrite (proj2 (Z.eqb_neq irp 0)) by lia.
  destruct Hb as (_ & Hend & _). rewrite (bind_ok _ _ _ _ _ (read_byte_at (irp + 0x42) 1 (with_mem m1 s) ltac:(lia) ltac:(lia) ltac:(by rewrite mem_with_mem))).
  destruct (write_inside irp 0x118 (irp + 0x43) (le_bytes 1 (u8 (1 + 1))) (with_mem m1 s)) as (m2 & E2 & S2 & B2); [by rewrite mem_with_mem|lia|rewrite length_le_bytes; lia|].
  rewrite E2. cbn [snd]. rewrite mem_with_mem in S2. rewrite mem_with_mem. split_and!; [done| | |].
  - intros i x Hx. apply lookup_lt_Some in Hx as Hx'. rewrite S2, splice_out by (rewrite length_le_bytes; lia). rewrite S1. by apply splice_holds.
  - by rewrite S2, splice_out by (rewrite length_le_bytes; lia).
  - rewrite S2, splice_in by (rewrite length_le_bytes; lia). by rewrite Z.sub_diag.
Qed.

(** A request the driver completed is answered with its status and information; one
    it kept is pending, or has the error the driver left in it. *)
Theorem request_answered completes status information routine is_control copies_in method req buffer mdl irp s :
  0 < irp -> buffer_at (mem_of s) irp 0x118 -> 0 <= status < 2 ^ 32 -> 0 <= information < 2 ^ 64 ->
  exists s', call_driver (driver completes status information) routine is_control copies_in false method req buffer mdl irp s =
    (Ok (if completes then (status, information) else (if status =? STATUS_SUCCESS then STATUS_PENDING else status, 0)), s').
Proof using laws.
  intros Hi Hb Hst Hin. unfold call_driver, irp_size. set (ib := irp_bytes _ _ _ _ _ _). set (sb := stack_bytes _ _ _).
  assert (length ib = 208%nat) as Li by done. assert (length sb = 72%nat) as Ls by (unfold sb, stack_bytes; by destruct is_control).
  assert (ib !! 66%nat = Some 1 /\ ib !! 67%nat = Some 1) as [I2 I3] by (split; apply irp_byte; auto). clearbody ib sb.
  destruct (write_inside irp 0x118 irp ib s Hb) as (m1 & E1 & S1 & B1); [lia|rewrite Li; lia|]. rewrite (bind_ok _ _ _ _ _ E1).
  destruct (write_inside irp 0x118 (irp + 0xD0) sb (with_mem m1 s)) as (m2 & E2 & S2 & B2); [by rewrite mem_with_mem|lia|rewrite Ls; lia|].
  rewrite (bind_ok _ _ _ _ _ E2). rewrite with_mem_twice in *. rewrite mem_with_mem in S2.
  assert (m2 (irp + 0x42) = Some 1 /\ m2 (irp + 0x43) = Some 1) as [M2 M3].
  { rewrite !S2, !splice_out by (rewrite Ls; lia). rewrite !S1, !splice_in by (rewrite Li; lia).
    replace (Z.to_nat (irp + 0x42 - irp)) with 66%nat by lia. by replace (Z.to_nat (irp + 0x43 - irp)) with 67%nat by lia. }
  unfold bind at 1, modify. unfold driver. cbn [nth].
  destruct (driver_answers completes status information irp (with_mem m2 s)) as (B & H & D2 & D3); [by rewrite mem_with_mem|done|by rewrite mem_with_mem..|].
  set (s' := (driver_body completes status information irp (with_mem m2 s)).2) in *. clearbody s'. unfold io_status_offset, current_location_offset, stack_count_offset.
  destruct B as (_ & Bend & _). set (st16 := le_bytes 4 status ++ replicate 4 0 ++ le_bytes 8 information) in *.
  rewrite (bind_ok _ _ _ _ _ (io_reads (read_mem (irp + 0x30) 16) s' _ (read_mem_holds _ st16 (irp + 0x30) ltac:(lia) ltac:(cbn; lia) H))).
  pose proof (read_byte_at (irp + 67) _ s' ltac:(lia) ltac:(lia) D3) as R3. pose proof (read_byte_at (irp + 66) _ s' ltac:(lia) ltac:(lia) D2) as R2.
  rewrite (bind_ok _ _ _ _ _ R3), (bind_ok _ _ _ _ _ R2).
  assert (le_val (take 4 st16) = status) as ->.
  { unfold st16. rewrite take_app_length' by (by rewrite length_le_bytes). rewrite le_val_bytes. by apply Z.mod_small. }
  assert (le_val (drop 8 st16) = information) as ->.
  { unfold st16. rewrite app_assoc, drop_app_length' by done. rewrite le_val_bytes. by apply Z.mod_small. }
  exists s'. by destruct completes.
Qed.

(** ** The list of a driver's devices *)

(** From the link on: each device points at the next, the last at nothing. *)
Fixpoint devices_at (m : gmem) (link : Z) (l : list Z) : Prop :=
  match l with
  | [] => holds m link (le_bytes 8 0)
  | d :: l => holds m link (le_bytes 8 d) /\ devices_at m (d + next_device_offset) l
  end.
Definition links (l : list Z) : list Z := map (fun d => d + next_device_offset) l.
Definition far (a b : Z) : Prop := a + 8 <= b \/ b + 8 <= a.
Fixpoint chain_ok (link : Z) (l : list Z) : Prop :=
  0 < link /\ link + 8 <= 2 ^ 64 /\ Forall (far link) (links l) /\
  match l with [] => True | d :: l => 0 < d < 2 ^ 64 /\ chain_ok (d + next_device_offset) l end.

Lemma holds_far m m' a l b w : length l = 8%nat -> length w = 8%nat -> same m' (splice b w m) -> far a b -> holds m a l -> holds m' a l.
Proof using Type.
  intros Hl Hw Hs Hf H i x Hx. apply lookup_lt_Some in Hx as Hi. rewrite Hs, splice_out by (unfold far in Hf; lia). by apply H.
Qed.

Lemma devices_far m m' l : forall link b w, length w = 8%nat -> same m' (splice b w m) -> far link b -> Forall (far b) (links l) -> devices_at m link l -> devices_at m' link l.
Proof using Type.
  induction l as [|d l IH]; intros link b w Hw Hs Hf Ha H; cbn [devices_at] in *; [by eapply holds_far|].
  destruct H as [H1 H2]. cbn [links map] in Ha. apply list.Forall_cons in Ha as [Ha1 Ha2]. split; [by eapply holds_far|].
  apply (IH _ b w Hw Hs); [unfold far in *; lia|done|done].
Qed.

Lemma read_link link d s : 0 < link -> link + 8 <= 2 ^ 64 -> 0 <= d < 2 ^ 64 -> holds (mem_of s) link (le_bytes 8 d) -> read_word 8 link s = (Ok d, s).
Proof using laws.
  intros H0 H1 Hd H. apply io_reads. pose proof (read_mem_holds (mem_of s) (le_bytes 8 d) link ltac:(lia)) as Hr. rewrite length_le_bytes in Hr.
  rewrite (bind_ok _ _ _ _ _ (Hr H1 H)), (le_val_bytes 8). by rewrite Z.mod_small.
Qed.

Definition first_of (l : list Z) : Z := match l with [] => 0 | d :: _ => d end.

Lemma unlink_ok fuel d post s : forall pre link,
  chain_ok link (pre ++ d :: post) -> devices_at (mem_of s) link (pre ++ d :: post) -> d ∉ pre -> (length pre < fuel)%nat ->
  exists m cell, unlink_device fuel d (first_of post) link s = (Ok tt, with_mem m s) /\ (cell = link \/ cell ∈ links pre) /\
    same m (splice cell (le_bytes 8 (first_of post)) (mem_of s)) /\ devices_at m link (pre ++ post).
Proof using laws.
  revert fuel. intros fuel pre. revert fuel. induction pre as [|p pre IH]; intros fuel link Hc Hd Hn Hf; (destruct fuel as [|fuel]; [cbn in Hf; lia|]).
  - cbn [app devices_at chain_ok] in *. destruct Hc as (C1 & C2 & C3 & C4 & C5). destruct Hd as [D1 D2]. cbn [unlink_device].
    rewrite (proj2 (Z.eqb_neq link 0)) by lia. rewrite (bind_ok _ _ _ _ _ (read_link link d s C1 C2 ltac:(lia) D1)).
    rewrite (proj2 (Z.eqb_neq d 0)), Z.eqb_refl by lia.
    destruct (write_out_buffer link (le_bytes 8 (first_of post)) s) as (m & E & S).
    { split_and!; [lia|rewrite length_le_bytes; lia|]. exact (mapped_holds _ _ _ D1). }
    exists m, link. split; [done|]. split; [by left|]. split; [done|]. pose proof (same_holds _ _ _ _ S (splice_holds link _ _)) as Hh.
    destruct post as [|e post]; cbn [devices_at first_of] in *; [done|]. split; [done|]. destruct D2 as [_ D2].
    cbn [links map] in C3. apply list.Forall_cons in C3 as [_ C3]. apply list.Forall_cons in C3 as [C3 C3'].
    apply (devices_far _ _ _ _ link (le_bytes 8 e) eq_refl S); [unfold far in *; lia|done|done].
  - cbn [app devices_at chain_ok] in Hc, Hd. destruct Hc as (C1 & C2 & C3 & C4 & C5). destruct Hd as [D1 D2]. cbn [unlink_device].
    rewrite (proj2 (Z.eqb_neq link 0)) by lia. rewrite (bind_ok _ _ _ _ _ (read_link link p s C1 C2 ltac:(lia) D1)).
    apply not_elem_of_cons in Hn as [Hn1 Hn2]. rewrite (proj2 (Z.eqb_neq p 0)), (proj2 (Z.eqb_neq p d)) by (congruence || lia).
    destruct (IH fuel (p + next_device_offset) C5 D2 Hn2 ltac:(cbn in Hf; lia)) as (m & cell & E & Hcell & S & D).
    exists m, cell. split; [done|]. split; [right; cbn [links map]; apply elem_of_cons; tauto|]. split; [done|]. cbn [app devices_at]. split; [|done].
    apply (holds_far (mem_of s) m link (le_bytes 8 p) cell (le_bytes 8 (first_of post))); try done. rewrite list.Forall_forall in C3. apply C3.
    cbn [links map app]. apply elem_of_cons. destruct Hcell as [->|Hcell]; [by left|right]. unfold links. rewrite map_app. apply elem_of_app. by left.
Qed.

(** Deleting a device takes it off its driver's list, wherever it is on it, and its
    name out of the namespace; the other devices stay in their order. *)
Theorem delete_device fuel driver_object name pre d post s :
  host_at d s = Some (HDevice driver_object name) -> let link := driver_object + driver_devices_offset in
  chain_ok link (pre ++ d :: post) -> devices_at (mem_of s) link (pre ++ d :: post) -> d ∉ pre -> (length pre < fuel)%nat ->
  exists m, IoDeleteDevice fuel d s = (Ok tt, on_names (dereference_object d) (unregister_device_name name (with_mem m s))) /\
    devices_at m link (pre ++ post) /\
    lookup_named_object (normalize name) (objs_ (tbl (IoDeleteDevice fuel d s).2)) = (if bool_decide (name = []) then lookup_named_object (normalize name) (objs_ (tbl s)) else 0).
Proof using laws.
  intros Hh link Hc Hd Hn Hf.
  assert (forall pre' link', chain_ok link' (pre' ++ d :: post) -> devices_at (mem_of s) link' (pre' ++ d :: post) ->
    0 < d /\ 0 < d + next_device_offset /\ d + next_device_offset + 8 <= 2 ^ 64 /\ 0 <= first_of post < 2 ^ 64 /\ holds (mem_of s) (d + next_device_offset) (le_bytes 8 (first_of post))) as Hnext.
  { clear. intros pre'. induction pre' as [|p pre' IH]; intros link' Hc Hd; cbn [app chain_ok devices_at] in *.
    - destruct Hc as (_ & _ & _ & H4 & H5). destruct Hd as [_ Hd]. destruct post as [|e post]; cbn [chain_ok devices_at first_of] in *; split_and!; try lia; try tauto; apply Hd.
    - destruct Hc as (_ & _ & _ & _ & H5). destruct Hd as [_ Hd]. by apply (IH (p + next_device_offset)). }
  destruct (Hnext pre link Hc Hd) as (N0 & N1 & N2 & N3 & N4). destruct (unlink_ok fuel d post s pre link Hc Hd Hn Hf) as (m & cell & E & _ & _ & D).
  assert (IoDeleteDevice fuel d s = (Ok tt, on_names (dereference_object d) (unregister_device_name name (with_mem m s)))) as Erun.
  { unfold IoDeleteDevice. rewrite (proj2 (Z.eqb_neq d 0)) by lia. unfold bind at 1, get. rewrite Hh.
    rewrite (bind_ok _ _ _ _ _ (read_link _ _ s N1 N2 N3 N4)). fold link. by rewrite (bind_ok _ _ _ _ _ E). }
  exists m. split; [done|]. split; [done|]. rewrite Erun. cbn [snd]. destruct name as [|c name]; [by rewrite bool_decide_true|]. rewrite bool_decide_false by done.
  cbn. unfold lookup_named_object. cbn. by rewrite lookup_delete_eq.
Qed.

End Driver.
End DevThm.

(** ** Notification states are a map *)

Module WnfThm.
Import Wnf.

Inductive wnf_call : Type :=
  | Update (name_at name src : Z) (l : list Z)
  | Delete (name_at name : Z)
  | Ask (name_at name stamp_at dst size_at room : Z).

(** What is kept under each name, and the last stamp. *)
Definition states : Type := gmap Z (list Z * Z) * Z.

(** The status, what is written and where, in order, and the states after. *)
Definition wnf_spec (c : wnf_call) (v : states) : Z * list (Z * list Z) * states :=
  match c with
  | Update _ n _ l => (STATUS_SUCCESS, [], (<[n := (l, u32 (v.2 + 1))]> v.1, u32 (v.2 + 1)))
  | Delete _ n => (if bool_decide (is_Some (v.1 !! n)) then STATUS_SUCCESS else STATUS_OBJECT_NAME_NOT_FOUND, [], (delete n v.1, v.2))
  | Ask _ n stamp_at dst size_at room =>
      match v.1 !! n with
      | Some ((_ :: _) as l, stamp) => (STATUS_SUCCESS, [(dst, take (Z.to_nat room) l); (size_at, le_bytes 4 (Z.of_nat (length l))); (stamp_at, le_bytes 4 stamp)], v)
      | _ => (STATUS_OBJECT_NAME_NOT_FOUND, [(stamp_at, le_bytes 4 0); (size_at, le_bytes 4 0)], v)
      end
  end.
Definition put_all (ws : list (Z * list Z)) (m : gmem) : gmem := foldl (fun m w => splice w.1 w.2 m) m ws.

Definition word_at (m : gmem) (a : Z) (w : nat) (v : Z) : Prop :=
  0 < a /\ a + Z.of_nat w <= 2 ^ 64 /\ 0 <= v < 256 ^ Z.of_nat w /\ holds m a (le_bytes w v).
Definition wnf_ready (c : wnf_call) (m : gmem) (v : states) : Prop :=
  match c with
  | Update p n src l => word_at m p 8 n /\ 0 < src /\ src + Z.of_nat (length l) <= 2 ^ 64 /\ holds m src l
  | Delete p n => word_at m p 8 n
  | Ask p n stamp_at dst size_at room => word_at m p 8 n /\ word_at m size_at 4 room /\ 0 < dst /\ 0 < stamp_at /\
      Forall (fun w => buffer_at m w.1 (Z.of_nat (length w.2))) (wnf_spec c v).1.2
  end.

Section States.
Context {K : Type} {gp : GuestPool K} {laws : GuestPoolLaws K}.

Definition wnf_perform (c : wnf_call) : st (wsys K) Z :=
  match c with
  | Update p _ src l => NtUpdateWnfStateData p src (Z.of_nat (length l))
  | Delete p _ => NtDeleteWnfStateData p
  | Ask p _ stamp_at dst size_at _ => NtQueryWnfStateData p stamp_at dst size_at
  end.

Lemma wnf_reads {A} (f : gst A) (s : wsys K) r : f (gp_mem (kern s)) = (r, gp_mem (kern s)) -> Wnf.on_mem f s = (r, s).
Proof using laws. intros E. unfold Wnf.on_mem. rewrite (on_mem_read f (kern s) r E). by destruct s. Qed.
Lemma wnf_word w a v (s : wsys K) : word_at (gp_mem (kern s)) a w v -> Wnf.read_word w a s = (Ok v, s).
Proof using laws.
  intros (H0 & H1 & H2 & H3). apply wnf_reads. pose proof (read_mem_holds (gp_mem (kern s)) (le_bytes w v) a ltac:(lia)) as Hr. rewrite length_le_bytes in Hr.
  rewrite (bind_ok _ _ _ _ _ (Hr H1 H3)), le_val_bytes. by rewrite Z.mod_small.
Qed.
Lemma wnf_write a l (s : wsys K) : buffer_at (gp_mem (kern s)) a (Z.of_nat (length l)) ->
  exists k, Wnf.on_mem (write_mem a l) s = (Ok tt, WSys k (wnf_states s) (wnf_stamp s)) /\ same (gp_mem k) (splice a l (gp_mem (kern s))).
Proof using laws.
  intros (H1 & H2 & H3). destruct (write_mem_mapped l a (gp_mem (kern s)) H1 H2 H3) as (m & E & H). exists (gp_set m (kern s)).
  split; [unfold Wnf.on_mem, StringOps.on_mem; by rewrite E|by rewrite gp_get_set].
Qed.

(** The writes of an answer, one after another. *)
Lemma wnf_writes ws : forall (s : wsys K), Forall (fun w => buffer_at (gp_mem (kern s)) w.1 (Z.of_nat (length w.2))) ws ->
  exists k, foldr (fun w (rest : st (wsys K) unit) => Wnf.on_mem (write_mem w.1 w.2) ;; rest) (ret tt) ws s = (Ok tt, WSys k (wnf_states s) (wnf_stamp s)) /\
    same (gp_mem k) (put_all ws (gp_mem (kern s))).
Proof using laws.
  induction ws as [|[a l] ws IH]; intros s H; [exists (kern s); by destruct s|]. apply list.Forall_cons in H as [H1 H2]. cbn [foldr fst snd] in *.
  destruct (wnf_write a l s H1) as (k & E & Hs). rewrite (bind_ok _ _ _ _ _ E). destruct (IH (WSys k (wnf_states s) (wnf_stamp s))) as (k' & E' & Hs').
  { eapply list.Forall_impl; [exact H2|]. intros w Hw. exact (buffer_splice _ _ _ _ _ _ Hw Hs). }
  exists k'. split; [exact E'|]. apply (same_trans _ _ _ Hs'). unfold put_all. cbn [foldl fst snd kern]. clear -Hs. revert Hs. generalize (gp_mem k) (splice a l (gp_mem (kern s))).
  induction ws as [|w ws IH]; intros m m' Hm; [done|]. cbn [foldl]. by apply IH, splice_same.
Qed.

(** The call answers as the map does, and writes what it says. *)
Lemma wnf_step c (s : wsys K) : wnf_ready c (gp_mem (kern s)) (wnf_states s, wnf_stamp s) ->
  let '(status, ws, v) := wnf_spec c (wnf_states s, wnf_stamp s) in
  exists k, wnf_perform c s = (Ok status, WSys k v.1 v.2) /\ same (gp_mem k) (put_all ws (gp_mem (kern s))).
Proof using laws.
  destruct c as [p n src l|p n|p n stamp_at dst size_at room]; cbn [wnf_ready wnf_perform wnf_spec fst snd].
  - intros (Hp & H0 & H1 & H2). pose proof (proj1 Hp) as Hp0. exists (kern s). split; [|done]. unfold NtUpdateWnfStateData. rewrite (proj2 (Z.eqb_neq p 0)) by lia.
    rewrite (bind_ok _ _ _ _ _ (wnf_word 8 p n s Hp)), (proj2 (Z.eqb_neq src 0)) by lia. cbn [orb].
    assert ((if Z.of_nat (length l) =? 0 then ret (replicate (Z.to_nat (Z.of_nat (length l))) 0) else Wnf.on_mem (read_mem src (Z.to_nat (Z.of_nat (length l))))) s = (Ok l, s)) as E.
    { rewrite Nat2Z.id. destruct l; [done|]. apply wnf_reads. apply read_mem_holds; [lia|done|done]. }
    by rewrite (bind_ok _ _ _ _ _ E).
  - intros Hp. pose proof (proj1 Hp) as Hp0. exists (kern s). split; [|done]. unfold NtDeleteWnfStateData. rewrite (proj2 (Z.eqb_neq p 0)) by lia.
    by rewrite (bind_ok _ _ _ _ _ (wnf_word 8 p n s Hp)).
  - intros (Hp & Hr & Hd & Hst & Hw). pose proof (proj1 Hp) as Hp0. pose proof (proj1 Hr) as Hr0. unfold NtQueryWnfStateData.
    rewrite (proj2 (Z.eqb_neq p 0)), (bind_ok _ _ _ _ _ (wnf_word 8 p n s Hp)) by lia. unfold bind at 1, get. unfold write_word.
    rewrite (proj2 (Z.eqb_neq stamp_at 0)), (proj2 (Z.eqb_neq size_at 0)), (proj2 (Z.eqb_neq dst 0)) by lia. cbn [orb].
    destruct (wnf_states s !! n) as [[[|x l] stamp]|] eqn:En; cbn [from_option id fst snd] in *.
    1, 3: destruct (wnf_writes _ s Hw) as (k & E & Hs); cbn [foldr fst snd] in E; exists k; (split; [|exact Hs]);
      unfold bind in *; destruct (Wnf.on_mem (write_mem stamp_at _) s) as [[[]|e] s1]; [|done]; destruct (Wnf.on_mem (write_mem size_at _) s1) as [[[]|e] s2]; [|done];
      unfold ret in *; by injection E as ->.
    set (data := x :: l) in *. rewrite (bind_ok _ _ _ _ _ (wnf_word 4 size_at room s Hr)). cbn zeta.
    assert (take (Z.to_nat (Z.min room (Z.of_nat (length data)))) data = take (Z.to_nat room) data) as ->.
    { destruct (decide (room <= Z.of_nat (length data))); [by rewrite Z.min_l|]. rewrite !take_ge by lia. done. }
    assert (forall s' : wsys K, (if Z.min room (Z.of_nat (length data)) =? 0 then ret tt else Wnf.on_mem (write_mem dst (take (Z.to_nat room) data))) s' =
      Wnf.on_mem (write_mem dst (take (Z.to_nat room) data)) s') as Ez.
    { intros s'. destruct (Z.eqb_spec (Z.min room (Z.of_nat (length data))) 0) as [Hz|]; [|done]. destruct Hr as (_ & _ & Hr & _).
      replace room with 0 by (unfold data in Hz; cbn [length] in Hz; lia). symmetry. apply (wnf_reads (write_mem dst (take (Z.to_nat 0) data)) s' (Ok tt)). done. }
    destruct (wnf_writes _ s Hw) as (k & E & Hs). cbn [foldr fst snd] in E. exists k. split; [|exact Hs].
    unfold bind in *. rewrite Ez. destruct (Wnf.on_mem (write_mem dst _) s) as [[[]|e] s1]; [|done]. destruct (Wnf.on_mem (write_mem size_at _) s1) as [[[]|e] s2]; [|done].
    destruct (Wnf.on_mem (write_mem stamp_at _) s2) as [[[]|e] s3]; [|done]. unfold ret in *. by injection E as ->.
Qed.

Fixpoint wnf_transcript (calls : list (K * wnf_call)) (s : wsys K) (v : states) : Prop :=
  match calls with
  | [] => True
  | (k, c) :: calls =>
      wnf_ready c (gp_mem k) v ->
      let '(status, ws, v') := wnf_spec c v in
      exists s', wnf_perform c (WSys k (wnf_states s) (wnf_stamp s)) = (Ok status, s') /\ same (gp_mem (kern s')) (put_all ws (gp_mem k)) /\ wnf_transcript calls s' v'
  end.

(** Whatever is published, deleted and asked for, and whatever the guest does in
    between, the calls answer as a map from names to bytes and the stamp they were
    written at; an empty state is one that is not there. *)
Theorem wnf_refines calls : forall s, wnf_transcript calls s (wnf_states s, wnf_stamp s).
Proof using laws.
  induction calls as [|[k c] calls IH]; intros s; [done|]. cbn [wnf_transcript]. intros Hr.
  pose proof (wnf_step c (WSys k (wnf_states s) (wnf_stamp s)) Hr) as H. cbn [wnf_states wnf_stamp kern] in H. destruct (wnf_spec c _) as [[status ws] [g n]].
  destruct H as (k' & E & Hs). exists (WSys k' g n). split; [exact E|]. split; [exact Hs|]. apply IH.
Qed.
End States.
End WnfThm.

(** ** Callback objects *)

Module CallbackThm.
Import Callbacks.

(** The function and context of a registration on [a] that is not spent. *)
Definition pair_of (a : Z) (h : chost) : option (Z * Z) :=
  match h with CRegistration o f c => if decide (o = a) then Some (f, c) else None | _ => None end.
Definition live (a : Z) (hs : gmap Z chost) : list (Z * Z) := omap (fun p => pair_of a p.2) (map_to_list hs).

Record registered (n : names) : Prop := {
  hosts_old : forall r h, hosts n !! r = Some h -> r < fresh_host n;
  objects_old : forall a r, get_object a (objs n) = Some r -> r < fresh_host n;
  one_object : forall a b r, get_object a (objs n) = Some r -> get_object b (objs n) = Some r -> a = b;
  not_null : get_object 0 (objs n) = None;
  registrations_live : forall a l al, host_at a n = Some (CCallback l al) -> l ≡ₚ live a (hosts n) /\ (al = false -> length l <= 1)%nat;
  objects_known : forall r o f c, hosts n !! r = Some (CRegistration o f c) -> o <> 0 -> exists l al, host_at o n = Some (CCallback l al)
}.

Lemma registered_start m fresh : objects_ m = ∅ -> registered (Names m ∅ fresh).
Proof. intros E. split; unfold host_at, get_object; cbn; rewrite ?E; intros *; cbn; try done. Qed.

Lemma live_insert a r h hs : live a (<[r := h]> hs) ≡ₚ option_list (pair_of a h) ++ live a (delete r hs).
Proof. unfold live. rewrite <- insert_delete_eq, map_to_list_insert by apply lookup_delete_eq. cbn [omap list_omap snd]. by destruct (pair_of a h). Qed.
Lemma live_change a r h h' hs : hs !! r = Some h -> live a (<[r := h']> hs) ++ option_list (pair_of a h) ≡ₚ option_list (pair_of a h') ++ live a hs.
Proof.
  intros H. assert (live a hs ≡ₚ option_list (pair_of a h) ++ live a (delete r hs)) as -> by (rewrite <- live_insert, insert_id; done).
  rewrite live_insert, <- app_assoc. by rewrite (Permutation_app_comm (live a (delete r hs))).
Qed.
Lemma live_same a r h h' hs : hs !! r = Some h -> pair_of a h = pair_of a h' -> live a (<[r := h']> hs) ≡ₚ live a hs.
Proof.
  intros H E. pose proof (live_change a r h h' hs H) as Hl. rewrite E in Hl. destruct (pair_of a h'); cbn [option_list app] in Hl.
  - apply (Permutation_cons_inv (a := p)). by rewrite <- Hl, Permutation_app_comm.
  - by rewrite app_nil_r in Hl.
Qed.
Lemma erase_first_cons e l m : l ≡ₚ e :: m -> erase_first e l ≡ₚ m.
Proof.
  intros H. assert (e ∈ l) as Hin by (rewrite H; apply list_elem_of_here). apply (Permutation_cons_inv (a := e)). rewrite <- H. clear H.
  induction l as [|x l IH]; [by apply not_elem_of_nil in Hin|]. cbn [erase_first]. destruct (decide (x = e)) as [->|]; [done|].
  apply elem_of_cons in Hin as [->|Hin]; [done|]. rewrite Permutation_swap. by rewrite (IH Hin).
Qed.

Definition fresh_base (base : Z) (n : names) : Prop := body_of base <> 0 /\ objects_ (objs n) !! body_of base = None.

Lemma new_get h base n a : get_object a (objs (new_object h base n).2) = if decide (a = body_of base) then Some (fresh_host n) else get_object a (objs n).
Proof.
  unfold get_object, new_object, create_object, set_objects. cbn. change (base +w hdr_size) with (body_of base).
  destruct (decide (a = body_of base)) as [->|]; [by rewrite lookup_insert_eq|by rewrite lookup_insert_ne].
Qed.
Lemma get_fresh base n : fresh_base base n -> get_object (body_of base) (objs n) = None.
Proof. intros [_ H]. unfold get_object. by rewrite H. Qed.

(** What a host at an address is after one host changed. *)
Lemma host_at_set n a r h : get_object a (objs n) = Some r -> (forall b, get_object b (objs n) = Some r -> b = a) ->
  forall b, host_at b (set_host r h n) = if decide (b = a) then Some h else host_at b n.
Proof.
  intros Ha Hn b. unfold host_at, set_host. cbn. destruct (decide (b = a)) as [->|Hb]; [rewrite Ha; cbn; by rewrite lookup_insert_eq|].
  destruct (get_object b (objs n)) as [r'|] eqn:Eb; [|done]. cbn. rewrite lookup_insert_ne; [done|]. intros ->. by apply Hb, Hn.
Qed.
Lemma host_at_new h base n : registered n -> forall b, host_at b (new_object h base n).2 = if decide (b = body_of base) then Some h else host_at b n.
Proof.
  intros Hn b. unfold host_at. rewrite new_get. destruct (decide (b = body_of base)); cbn; [by rewrite lookup_insert_eq|].
  destruct (get_object b (objs n)) as [r|] eqn:Eb; [|done]. cbn. rewrite lookup_insert_ne; [done|]. pose proof (objects_old n Hn b r Eb). lia.
Qed.
Lemma live_new a h base n : registered n -> live a (hosts (new_object h base n).2) ≡ₚ option_list (pair_of a h) ++ live a (hosts n).
Proof.
  intros Hn. unfold new_object. cbn. rewrite live_insert, delete_id; [done|]. destruct (hosts n !! fresh_host n) as [h'|] eqn:E; [|done]. pose proof (hosts_old n Hn _ _ E). lia.
Qed.

(** A new object whose host is live for nothing. *)
Definition idle (h : chost) : Prop := match h with CCallback l _ => l = [] | CRegistration o _ _ => o = 0 | COther => True end.
Lemma not_live a n : registered n -> host_at a n = None -> a <> 0 -> live a (hosts n) = [].
Proof.
  intros Hn Ha H0. unfold live. assert (forall p, p ∈ map_to_list (hosts n) -> pair_of a p.2 = None) as H.
  { intros [r [l al|o f c|]] Hp; cbn; [done| |done]. destruct (decide (o = a)) as [->|]; [|done]. apply elem_of_map_to_list in Hp.
    destruct (objects_known n Hn r a f c Hp H0) as (l & al & E). congruence. }
  induction (map_to_list (hosts n)) as [|p l IH]; [done|]. cbn. rewrite (H p) by set_solver. apply IH. intros q Hq. apply H. set_solver.
Qed.
Lemma new_objects h base n : registered n -> fresh_base base n ->
  (forall r h', hosts (new_object h base n).2 !! r = Some h' -> r < fresh_host n + 1) /\
  (forall a r, get_object a (objs (new_object h base n).2) = Some r -> r < fresh_host n + 1) /\
  (forall a b r, get_object a (objs (new_object h base n).2) = Some r -> get_object b (objs (new_object h base n).2) = Some r -> a = b) /\
  get_object 0 (objs (new_object h base n).2) = None.
Proof.
  intros Hn Hb. setoid_rewrite new_get. repeat split.
  - intros r h'. cbn. rewrite lookup_insert_Some. intros [[<- _]|[_ E]]; [lia|]. pose proof (hosts_old n Hn _ _ E). lia.
  - intros a r. destruct (decide _); [intros [= <-]; lia|]. intros E. pose proof (objects_old n Hn _ _ E). lia.
  - intros a b r. repeat destruct (decide _); subst; [done| | |by apply (one_object n Hn)]; intros E1 E2; simplify_eq;
      [pose proof (objects_old n Hn _ _ E2)|pose proof (objects_old n Hn _ _ E1)]; lia.
  - rewrite decide_False by (destruct Hb; congruence). apply (not_null n Hn).
Qed.
Lemma new_idle h base n : registered n -> fresh_base base n -> idle h -> registered (new_object h base n).2.
Proof.
  intros Hn Hb Hi. destruct (new_objects h base n Hn Hb) as (H1 & H2 & H3 & H4). split; try done.
  - intros a l al. rewrite (host_at_new h base n Hn), (live_new a h base n Hn). destruct (decide _) as [->|Ha].
    + intros [= ->]. cbn in Hi |- *. subst l. rewrite (not_live (body_of base)); [split; [done|cbn; lia]|done| |by destruct Hb].
      unfold host_at. by rewrite (get_fresh base n Hb).
    + intros E. destruct (registrations_live n Hn a l al E) as [Hl ?]. split; [|done]. rewrite Hl. destruct h as [| o f c|]; [done| |done]. cbn in Hi |- *. subst o.
      destruct (decide (0 = a)) as [<-|]; [|done]. unfold host_at in E. by rewrite (not_null n Hn) in E.
  - intros r o f c. cbn. rewrite lookup_insert_Some. intros [[_ ->]|[_ E]] Ho; [done|]. destruct (objects_known n Hn r o f c E Ho) as (l & al & E').
    exists l, al. pose proof (host_at_new h base n Hn o) as Hh. cbn in Hh. rewrite Hh. rewrite decide_False; [done|]. intros ->. unfold host_at in E'. by rewrite (get_fresh base n Hb) in E'.
Qed.

Lemma register_kept n a r l al f c base : registered n -> fresh_base base n -> get_object a (objs n) = Some r -> hosts n !! r = Some (CCallback l al) -> l = [] \/ al = true ->
  registered (set_host r (CCallback (l ++ [(f, c)]) al) (new_object (CRegistration a f c) base n).2).
Proof.
  intros Hn Hb Ha Hr Hl. destruct (new_objects (CRegistration a f c) base n Hn Hb) as (H1 & H2 & H3 & H4). pose proof (host_at_new (CRegistration a f c) base n Hn) as Hnew.
  assert (forall b, live b (hosts (new_object (CRegistration a f c) base n).2) ≡ₚ option_list (pair_of b (CRegistration a f c)) ++ live b (hosts n)) as Hlive by (intros; by apply live_new).
  assert (forall b l al, host_at b n = Some (CCallback l al) -> b <> body_of base) as Hne by (intros b l' al' E ->; unfold host_at in E; by rewrite (get_fresh base n Hb) in E).
  assert (host_at a n = Some (CCallback l al)) as Hat by (unfold host_at; by rewrite Ha).
  pose proof (objects_old n Hn a r Ha) as Hold. set (n1 := (new_object _ base n).2) in *. assert (get_object a (objs n1) = Some r) as Ha1 by (unfold n1; rewrite new_get, decide_False; [done|]; by apply (Hne a l al)).
  assert (hosts n1 !! r = Some (CCallback l al)) as Hr1 by (unfold n1; cbn; rewrite lookup_insert_ne by lia; done).
  pose proof (host_at_set n1 a r (CCallback (l ++ [(f, c)]) al) Ha1 (fun b Eb => H3 b a r Eb Ha1)) as Hset. split; try done.
  - intros r' h'. cbn [set_host hosts]. rewrite lookup_insert_Some. intros [[<- _]|[_ E]]; [cbn; lia|]. by apply (H1 r' h').
  - intros b l' al'. rewrite Hset. cbn [set_host hosts]. rewrite (live_same b r (CCallback l al)), Hlive; [|done|done]. cbn [pair_of]. destruct (decide (b = a)) as [->|Hba].
    + intros [= <- <-]. destruct (registrations_live n Hn a l al Hat) as [Hp _]. rewrite decide_True by done. cbn [option_list app]. rewrite <- Hp, Permutation_app_comm. split; [done|].
      intros ->. destruct Hl as [->|]; [cbn; lia|done].
    + rewrite decide_False by done. rewrite Hnew. destruct (decide _); [done|]. apply (registrations_live n Hn).
  - intros r' o f' c'. cbn [set_host hosts]. rewrite lookup_insert_Some. intros [[_ E]|[_ E]] Ho; [done|]. rewrite Hset. destruct (decide (o = a)) as [->|Hoa]; [eauto|].
    unfold n1 in E. cbn in E. rewrite lookup_insert_Some in E. destruct E as [[_ E]|[_ E]]; [by injection E as ->|].
    destruct (objects_known n Hn r' o f' c' E Ho) as (l' & al' & E'). exists l', al'. rewrite Hnew, decide_False; [done|]. by apply (Hne o l' al').
Qed.

(** Spending a registration takes one entry of its object away. *)
Lemma unregister_kept n h o f c r l al : registered n -> hosts n !! h = Some (CRegistration o f c) -> o <> 0 -> get_object o (objs n) = Some r -> hosts n !! r = Some (CCallback l al) ->
  registered (set_host h (CRegistration 0 f c) (set_host r (CCallback (erase_first (f, c) l) al) n)).
Proof.
  intros Hn Hh Ho Hor Hr. assert (host_at o n = Some (CCallback l al)) as Hat by (unfold host_at; by rewrite Hor). assert (r <> h) as Hrh by congruence.
  assert (live o (hosts n) ≡ₚ (f, c) :: live o (delete h (hosts n))) as Hlive.
  { rewrite <- (insert_id (hosts n) h _ Hh) at 1. rewrite live_insert. cbn [pair_of]. by rewrite decide_True. }
  destruct (registrations_live n Hn o l al Hat) as [Hp Hmax]. rewrite Hlive in Hp.
  pose proof (host_at_set n o r (CCallback (erase_first (f, c) l) al) Hor (fun b Eb => one_object n Hn b o r Eb Hor)) as Hset.
  assert (forall b l' al', host_at b (set_host h (CRegistration 0 f c) (set_host r (CCallback (erase_first (f, c) l) al) n)) = Some (CCallback l' al') <->
    host_at b (set_host r (CCallback (erase_first (f, c) l) al) n) = Some (CCallback l' al')) as Hsame.
  { intros b l' al'. unfold host_at, set_host. cbn. destruct (get_object b (objs n)) as [r'|]; [|done]. cbn. destruct (decide (r' = h)) as [->|]; [|by rewrite lookup_insert_ne].
    rewrite lookup_insert_eq, lookup_insert_ne, Hh by done. split; intros; congruence. }
  split; try (by destruct Hn).
  - intros r' h'. cbn [set_host hosts fresh_host]. rewrite lookup_insert_Some, lookup_insert_Some. pose proof (hosts_old n Hn). intros [[<- _]|[_ [[<- _]|[_ E]]]]; eauto.
  - intros b l' al'. rewrite Hsame, Hset. cbn [set_host hosts].
    assert (live b (<[h := CRegistration 0 f c]> (<[r := CCallback (erase_first (f, c) l) al]> (hosts n))) ++ option_list (pair_of b (CRegistration o f c)) ≡ₚ
      option_list (pair_of b (CRegistration 0 f c)) ++ live b (hosts n)) as Hl'.
    { rewrite live_change by (by rewrite lookup_insert_ne). by rewrite (live_same b r (CCallback l al)). }
    cbn [pair_of] in Hl'. destruct (decide (b = o)) as [->|Hbo].
    + rewrite decide_True, decide_False in Hl' by done. cbn [option_list app] in Hl'. rewrite Hlive, Permutation_app_comm in Hl'. apply Permutation_cons_inv in Hl'.
      intros [= <- <-]. rewrite Hl', (erase_first_cons _ _ _ Hp). split; [done|]. intros Hal. specialize (Hmax Hal). rewrite Hp in Hmax. cbn in Hmax. lia.
    + rewrite (decide_False (P := o = b)) in Hl' by done. cbn [option_list] in Hl'. rewrite app_nil_r in Hl'. intros E. destruct (registrations_live n Hn b l' al' E) as [Hp' ?]. split; [|done].
      rewrite Hp', Hl'. destruct (decide (0 = b)) as [<-|]; [|done].
      unfold host_at in E. by rewrite (not_null n Hn) in E.
  - intros r' o' f' c'. cbn [set_host hosts]. rewrite lookup_insert_Some, lookup_insert_Some. intros [[_ E]|[_ [[_ E]|[_ E]]]] Ho'; [congruence|congruence|].
    destruct (objects_known n Hn r' o' f' c' E Ho') as (l' & al' & E'). setoid_rewrite Hsame. rewrite Hset. destruct (decide _); eauto.
Qed.

Section Calls.
Context {K : Type} {gp : GuestPool K}.
Abbreviation cst := (st (csys K)).

(** However the call ends, an error included, from any kernel. *)
Definition ends {A} (Q : names -> Prop) (f : cst A) (n : names) : Prop := forall k, Q (known (f (CSys k n)).2).

Lemma ends_ret {A} Q (x : A) n : Q n -> ends Q (ret x) n.
Proof. by intros H k. Qed.
Lemma ends_mem {A B} Q (f : gst A) (g : A -> cst B) n : Q n -> (forall x, ends Q (g x) n) -> ends Q (bind (Callbacks.on_mem f) g) n.
Proof.
  intros H Hg k. unfold bind, Callbacks.on_mem. cbn [kern known]. destruct (StringOps.on_mem f k) as [r k']. destruct r; [apply Hg|done].
Qed.
Lemma ends_last {A} Q (f : gst A) n : Q n -> ends Q (Callbacks.on_mem f) n.
Proof. intros H k. unfold Callbacks.on_mem. by destruct (StringOps.on_mem f (kern (CSys k n))). Qed.
Lemma ends_modify {B} Q (f : names -> names) (g : cst B) n : ends Q g (f n) -> ends Q (modify (fun s : csys K => set_names (f (known s)) s) ;; g) n.
Proof. intros H k. exact (H k). Qed.
Lemma ends_get {B} Q (g : csys K -> cst B) n : (forall k, ends Q (g (CSys k n)) n) -> ends Q (let! s := get in g s) n.
Proof. intros H k. exact (H k k). Qed.
Lemma ends_create {B} Q h body base (g : Z -> cst B) n : Q n -> ends Q (g (body_of base)) (new_object h base n).2 -> ends Q (bind (Callbacks.create h body base) g) n.
Proof.
  intros H Hg k. unfold Callbacks.create, new_object, create_object. change (base +w hdr_size) with (body_of base). unfold bind, Callbacks.on_mem. cbn [kern known].
  destruct (StringOps.on_mem (write_mem _ _) k) as [[[]|e] k']; [apply Hg|done].
Qed.

Lemma register_name key a n : registered n -> registered (Names (register_named_object key a (objs n)) (hosts n) (fresh_host n)).
Proof. intros [H1 H2 H3 H4 H5 H6]. destruct key; by split. Qed.

Inductive callback_call : Type :=
  | Create (out attributes : Z) (create multiple : bool) (base : Z)
  | Register (object function context base : Z)
  | Verify (type subtype reserved handle base : Z)
  | Unregister (registration : Z).
Definition callback_perform (c : callback_call) : cst Z :=
  match c with
  | Create out attributes create multiple base => ExCreateCallback out attributes create multiple base
  | Register object function context base => ExRegisterCallback object function context base
  | Verify type subtype reserved handle base => SeRegisterImageVerificationCallback type subtype reserved handle base
  | Unregister registration => ExUnregisterCallback registration ;; ret 0
  end.
Definition fresh_for (c : callback_call) (n : names) : Prop :=
  match c with Create _ _ _ _ base | Register _ _ _ base | Verify _ _ _ _ base => fresh_base base n | Unregister _ => True end.

Lemma create_kept out attributes create multiple base n : registered n -> fresh_base base n -> ends registered (ExCreateCallback out attributes create multiple base) n.
Proof.
  intros Hn Hb. apply ends_mem; [done|]. intros name. destruct (_ && _); [by apply ends_ret|]. apply ends_get. intros k. cbn [known].
  destruct (negb _); [apply ends_mem; [done|]; intros _; by apply ends_ret|]. pose proof (new_idle (CCallback [] multiple) base n Hn Hb eq_refl) as Hn'.
  apply (ends_create registered); [done|]. destruct (_ =? 0); [by apply ends_ret|]. do 4 (apply ends_mem; [done|]; intros _).
  apply (ends_modify registered (fun n => Names (register_named_object _ _ (objs n)) (hosts n) (fresh_host n))). pose proof (register_name (match name with [] => [] | _ => normalize name end) (body_of base) _ Hn') as Hn''.
  apply ends_mem; [done|]. intros _. by apply ends_ret.
Qed.
Lemma register_call_kept a f c base n : registered n -> fresh_base base n -> ends registered (ExRegisterCallback a f c base) n.
Proof.
  intros Hn Hb. apply ends_get. intros k. cbn [known]. destruct (get_object a (objs n)) as [r|] eqn:Ea; cbn; [|by apply ends_ret]. destruct (hosts n !! r) as [h|] eqn:Er; cbn; [|by apply ends_ret].
  destruct h as [l al| |]; [|by apply ends_ret|by apply ends_ret]. destruct (negb (bool_decide (l = [])) && negb al) eqn:Em; [by apply ends_ret|]. apply (ends_create registered); [done|].
  rewrite (proj2 (Z.eqb_neq (body_of base) 0)) by apply Hb. apply (ends_modify registered (fun n => set_host r _ n)), ends_ret. apply (register_kept n a r l al f c base); try done.
  apply andb_false_iff in Em as [Em|Em]; [left|right; by destruct al]. by apply negb_false_iff, bool_decide_eq_true in Em.
Qed.
Lemma unregister_call_kept x n : registered n -> ends registered (ExUnregisterCallback x ;; ret 0) n.
Proof.
  intros Hn k. cbn. destruct (get_object x (objs n)) as [h|]; [|done]. destruct (hosts n !! h) as [[|o f c|]|] eqn:Eh; try done.
  destruct (Z.eqb_spec o 0); [done|]. destruct (get_object o (objs n)) as [r|] eqn:Eo; [|done]. destruct (hosts n !! r) as [[l al| |]|] eqn:Er; try done. by apply (unregister_kept n h o f c r l al).
Qed.

Lemma verify_kept type subtype reserved handle base n : registered n -> fresh_base base n -> ends registered (SeRegisterImageVerificationCallback type subtype reserved handle base) n.
Proof.
  intros Hn Hb. unfold SeRegisterImageVerificationCallback. repeat (destruct (negb _); cbn [andb]; try by apply ends_ret); (apply (ends_create registered); [done|]);
    pose proof (new_idle (CRegistration 0 0 0) base n Hn Hb eq_refl); (destruct (_ =? 0); [by apply ends_ret|]); (apply ends_mem; [done|]); intros _; by apply ends_ret.
Qed.

Fixpoint callback_run (calls : list (K * callback_call)) (n : names) : Prop :=
  registered n /\ match calls with
  | [] => True
  | (k, c) :: calls => fresh_for c n -> callback_run calls (known (callback_perform c (CSys k n)).2)
  end.

(** Whatever is created, registered and unregistered, and however a call ends: the
    callbacks of an object are those of its registrations that are not spent, each
    once, and an object made for one has at most one. *)
Theorem callbacks_kept calls : forall n, registered n -> callback_run calls n.
Proof.
  induction calls as [|[k c] calls IH]; intros n Hn; [done|]. split; [done|]. intros Hf. apply IH. revert k. change (ends registered (callback_perform c) n).
  destruct c; cbn in Hf |- *; [by apply create_kept|by apply register_call_kept|by apply verify_kept|by apply unregister_call_kept].
Qed.
End Calls.
End CallbackThm.
