(* ===== verification/CrtExamples.v ===== *)
(** * The C runtime at work *)

From Stdlib Require Ascii String.
From stdpp Require Import list gmap sorting.
From S2P Require Import Prelude GuestMem Crt CrtThm Format FormatThm.
From stdpp Require Import options.

Open Scope Z_scope.
Open Scope kern_scope.

(** ** Copies, sorting and searching *)

Module CrtEx.

Import GuestMem Crt CrtThm.

(** Memory that is mapped everywhere: "ab" at 0x100 and L"a" at 0x200, and the
    rest zero. *)
Definition small_mem : gmem := fun x => Some (if x =? 0x100 then 97 else if x =? 0x101 then 98 else if x =? 0x200 then 97 else 0).

Lemma small_buffer w d size : 0 < size < 2 ^ 32 -> 0 < d < 2 ^ 32 -> (w <= 2)%nat -> buffer w small_mem d size.
Proof. intros H1 H2 Hw. split; [lia|lia|unfold char_size; nia|]. intros x _. by eexists. Qed.

Lemma narrow_source : source 1 small_mem 0x100 [97; 98].
Proof.
  split; [repeat constructor|lia|vm_compute; discriminate|].
  intros [|[|[|i]]] b Hi; cbn in Hi; simplify_eq; reflexivity.
Qed.
Lemma wide_source : source 2 small_mem 0x200 [97].
Proof.
  split; [repeat constructor|lia|vm_compute; discriminate|].
  intros [|[|[|[|i]]]] b Hi; cbn in Hi; simplify_eq; reflexivity.
Qed.
Lemma wide_empty : source 2 small_mem 0x400 [].
Proof.
  split; [constructor|lia|vm_compute; discriminate|].
  intros [|[|i]] b Hi; cbn in Hi; simplify_eq; reflexivity.
Qed.

(** "ab" does not go into two characters, L"a" goes into four, and of "abcde" the
    first four fill them. *)
Lemma secure_copies_witness :
  copies 1 (strcpy_s 0x300 2 0x100) small_mem 0x300 2 [] crt_erange /\
  copies 1 (strncpy_s 0x300 2 0x100 truncate) small_mem 0x300 2 [97] crt_erange /\
  copies 2 (wcscpy_s 0x400 4 0x200) small_mem 0x400 4 [97] 0 /\
  fills 2 (write_formatted 0x400 4 [97; 98; 99; 100; 101] false) small_mem 0x400 4 [97; 98; 99; 100] (-1).
Proof.
  destruct (secure_copies_bounded small_mem 0x300 2 0x100 [97; 98] truncate 0x400 4 0x200 [97] [] [97; 98; 99; 100; 101] 2) as (H1 & H2 & H3 & _ & H5 & _).
  - apply small_buffer; lia.
  - exact narrow_source.
  - unfold truncate. lia.
  - apply small_buffer; lia.
  - exact wide_source.
  - exact wide_empty.
  - vm_compute. reflexivity.
  - unfold truncate. lia.
  - split; [exact H1|]. split; [exact H2|]. split; [exact H3|]. exact (proj2 H5).
Defined.

(** Words compared by value: the comparator pushes its return address at 0x8000,
    reads both elements and subtracts. *)
Definition word_mem : gmem := fun x => Some (if x =? 0x10 then 7 else if x =? 0x12 then 3 else if x =? 0x15 then 1 else if x =? 0x21 then 1 else 0).
Definition stack_slot (x : Z) : Prop := 0x8000 <= x < 0x8008.
Definition by_value (x y : list Z) : Z := le_val x - le_val y.
Definition compare_words (a b : Z) : gst Z :=
  write_mem 0x8000 (le_bytes 8 0x1234) ;; let! x := read_mem a 2 in let! y := read_mem b 2 in ret (by_value x y).

Lemma read_element m a x : element 2 stack_slot m a x -> read_mem a 2 m = (Ok x, m).
Proof. intros [H1 H2 H3 H4 _]. rewrite <- H1. apply read_mem_holds; [done|rewrite H1; done|done]. Qed.

Lemma compare_words_compares : compares compare_words by_value 2 stack_slot.
Proof.
  intros a b x y m Ha Hb Hm. destruct (write_mem_mapped (le_bytes 8 0x1234) 0x8000 m) as (m1 & E & Hm1); [lia|vm_compute; discriminate| |].
  { intros k Hk. apply (ke_mapped _ _ _ Hm). rewrite length_le_bytes in Hk. unfold stack_slot. lia. }
  assert (kept stack_slot m m1) as Hk.
  { split; intros k Hk; rewrite Hm1; [apply splice_out; rewrite length_le_bytes; unfold stack_slot in Hk; lia|].
    apply splice_mapped with (b := 0x8000) (n := 8); [|unfold stack_slot in Hk; lia]. intros z Hz. apply (ke_mapped _ _ _ Hm). unfold stack_slot. lia. }
  exists m1. split; [|done]. unfold compare_words, bind. rewrite E.
  by rewrite (read_element m1 a x), (read_element m1 b y) by (by eapply element_kept).
Qed.

Definition words : list Z := [7; 0; 3; 0; 0; 1].

Lemma words_array : array 2 stack_slot word_mem 0x10 3 words.
Proof.
  split; [lia|lia|lia|reflexivity| |unfold stack_slot; lia].
  intros [|[|[|[|[|[|i]]]]]] b Hi; cbn in Hi; simplify_eq; reflexivity.
Qed.

Lemma word_key : element 2 stack_slot word_mem 0x20 [0; 1].
Proof.
  split; [reflexivity|lia|lia| |unfold stack_slot; lia]. intros [|[|i]] b Hi; cbn in Hi; simplify_eq; reflexivity.
Qed.

Lemma three_values i : (i < 3)%nat -> i = 0%nat \/ i = 1%nat \/ i = 2%nat.
Proof. lia. Qed.
Lemma three_places i : 0 <= i < 3 -> i = 0 \/ i = 1 \/ i = 2.
Proof. lia. Qed.

(** 7, 3 and 256 are sorted, and 256 is found where it is. *)
Lemma qsort_witness :
  (exists p m', qsort compare_words 0x10 3 2 0x1000 word_mem = (Ok tt, m') /\ p ≡ₚ seq 0 3 /\
     StronglySorted (before by_value 2 words) p /\ less by_value 2 words 1 0 = true) /\
  (exists r m', bsearch compare_words 0x20 0x10 3 2 0x1000 word_mem = (Ok r, m') /\ r <> 0).
Proof.
  destruct (qsort_bsearch_correct compare_words by_value 2 stack_slot 0x10 3 0x1000 word_mem words 0x20 [0; 1]) as [H1 H2].
  - exact compare_words_compares.
  - split; [done|]. intros i _. by eexists.
  - discriminate.
  - exact words_array.
  - lia.
  - intros i j Hi Hj. change (Z.to_nat 3) with 3%nat in Hi, Hj.
    destruct (three_values i Hi) as [->|[->| ->]], (three_values j Hj) as [->|[->| ->]]; vm_compute; congruence.
  - intros i j k Hi Hj Hk. change (Z.to_nat 3) with 3%nat in Hi, Hj, Hk.
    destruct (three_values i Hi) as [->|[->| ->]], (three_values j Hj) as [->|[->| ->]], (three_values k Hk) as [->|[->| ->]]; vm_compute; congruence.
  - discriminate.
  - exact word_key.
  - split.
    + destruct H1 as (p & m' & E & Hp & Hs & _). exists p, m'. split_and!; [exact E|exact Hp|exact Hs|reflexivity].
    + destruct H2 as (r & m' & E & _ & H).
      { intros i j Hi Hj. destruct (three_places i ltac:(lia)) as [->|[->| ->]], (three_places j ltac:(lia)) as [->|[->| ->]]; try lia; vm_compute; intuition congruence. }
      exists r, m'. split; [exact E|]. destruct H as [(i & Hi & -> & _)|[_ H]]; [lia|]. exfalso. apply (H 2); [lia|vm_compute; reflexivity].
Defined.

Definition sorted_bytes : option (list Z) :=
  match qsort compare_words 0x10 3 2 0x1000 word_mem with
  | (Ok _, m) => match read_mem 0x10 6 m with (Ok l, _) => Some l | _ => None end
  | _ => None
  end.
Example sorted_three : sorted_bytes = Some [3; 0; 7; 0; 0; 1].
Proof. vm_compute. reflexivity. Qed.
Example found_third : (bsearch compare_words 0x20 0x10 3 2 0x1000 word_mem).1 = Ok 0x14.
Proof. vm_compute. reflexivity. Qed.

(** A string longer than 4096 characters is taken for one of 4096. *)
Definition endless : gmem := fun _ => Some 65.
Example wcslen_stops : (wcslen 0x1000 endless).1 = Ok 4096.
Proof. vm_compute. reflexivity. Qed.

End CrtEx.

(** ** printf for the guest *)

Module FormatEx.

Import GuestMem Format FormatThm.

(** An argument list at 0x1000: 255, 0x2000, where "hey" is, and -7. *)
Definition arg_mem : gmem := fun x => Some
  (if x =? 0x1000 then 255 else if x =? 0x1009 then 0x20 else
   if (0x1010 <=? x) && (x <? 0x1018) then (if x =? 0x1010 then 0xF9 else 0xFF) else
   if x =? 0x2000 then 104 else if x =? 0x2001 then 101 else if x =? 0x2002 then 121 else 0).

Definition no_pointer (mods : list Z) (v : Z) : list Z := [].

(** "n=%04X %.1s %+d%%". *)
Definition segments : list segment :=
  [Literal 110; Literal 61; Conv [48] (Digits [52]) None lm_none (KInteger 88); Literal 32;
   Conv [] (Digits []) (Some (Digits [49])) lm_none KString; Literal 32; Conv [43] (Digits []) None lm_none (KInteger 100); Percent].

Lemma segments_ok : Forall segment_ok segments.
Proof.
  unfold segments. repeat (apply list.Forall_cons; split); [..|by apply Forall_nil].
  all: cbn; try discriminate; repeat split; try discriminate; repeat constructor.
Qed.

(** "n=00FF hey -7%": the precision of the string is not applied. *)
Lemma vformat_witness :
  vformat va_list_args no_pointer no_pointer 1 (flat_map text segments) 0x1000 arg_mem =
    render_all va_list_args no_pointer no_pointer 1 segments 0x1000 arg_mem /\
  (vformat va_list_args no_pointer no_pointer 1 (flat_map text segments) 0x1000 arg_mem).1 =
    Ok [110; 61; 48; 48; 70; 70; 32; 104; 101; 121; 32; 45; 55; 37].
Proof.
  split; [exact (vformat_prints va_list_args no_pointer no_pointer 1 segments 0x1000 arg_mem segments_ok)|].
  vm_compute. reflexivity.
Defined.

(** A negative precision taken from the arguments goes to the host as ".-7", which
    is no conversion of C. *)
Example negative_precision : parse_mods ([c_dot] ++ to_string (-7)) = None.
Proof. reflexivity. Qed.

(** A wide %C sign-extends a character above 0x7F. *)
Example wide_C : (vformat va_list_args no_pointer no_pointer 2 [37; 67] 0x1010 arg_mem).1 = Ok [0xFFF9].
Proof. vm_compute. reflexivity. Qed.

(** Flags, widths and bases. *)
Example integers :
  map (fun p => host_format p.1 32 p.2 42) [([53], 100); ([45; 53], 100); ([48; 53], 100); ([35], 120); ([35], 111); ([46; 52], 117)] =
    [Some [32; 32; 32; 52; 50]; Some [52; 50; 32; 32; 32]; Some [48; 48; 48; 52; 50]; Some [48; 120; 50; 97]; Some [48; 53; 50]; Some [48; 48; 52; 50]].
Proof. vm_compute. reflexivity. Qed.

End FormatEx.
