(* ===== verification/SyncExamples.v ===== *)
(** * Threads, dispatcher objects, locks and keyed events at work *)

From Stdlib Require Ascii String.
From stdpp Require Import list gmap.
From S2P Require Import Prelude Mmu Pool Thread ThreadThm Sched SchedThm SyncOps SyncThm Paths Objects ObjectsThm Locks LocksThm DispatchOps DispatchThm.
From stdpp Require Import options.

Open Scope Z_scope.
Open Scope kern_scope.

(** ** Threads

    Two cpus, two queued threads and the objects they wait on. *)

Module SchedEx.

Import Mmu Thread ThreadThm Sched SchedThm.

(** Registers 0 to 3; 0 is the program counter, 1 the stack, 2 the return value. *)
Definition tiny : arch := Arch [0; 1; 2; 3] 0 1 2.

Definition ready_thread (id : Z) : thread := Thread id (0x1000 + id) 7 true [id; 0; 0; 0] 0 false None false 0.

(** *** Waiting *)

Definition a_mutant : kobject := KObject mutant_object 14 1 0 0.
Definition one_mutant : space := fun _ => a_mutant.

Lemma take_exclusive_witness :
  is_signalled one_mutant 0x5000 0x1001 = true /\ is_signalled (take 0x5000 0x1001 one_mutant) 0x5000 0x1002 = false.
Proof.
  split; [reflexivity|].
  destruct (take_exclusive 0x5000 0x1001 one_mutant eq_refl ltac:(cbn; lia)) as (H & _).
  destruct (H eq_refl ltac:(cbn; lia)) as [_ H']. apply H'. done.
Defined.

Definition waiter (id : Z) : thread :=
  set_wait (Some (WaitState [0x5000] false 0 false false 0)) (ready_thread id).

(** Two threads wait for the mutant: one gets it, and the other could not. *)
Lemma wake_waiters_witness :
  let '(woken, ts, m) := wake_waiters 0x5000 [waiter 1; waiter 2] one_mutant in
  forall t, t ∈ ts -> ~ can_satisfy m t.
Proof.
  assert (NoDup (map ethread_ [waiter 1; waiter 2])) as Hnd by (apply (bool_decide_unpack _); vm_compute; done).
  assert (deep (wants_all [waiter 1; waiter 2]) one_mutant) as Hd by (split; [done|]; intros a; cbn; lia).
  pose proof (wake_waiters_complete 0x5000 [waiter 1; waiter 2] one_mutant Hnd Hd) as H.
  destruct (wake_waiters 0x5000 [waiter 1; waiter 2] one_mutant) as [[b ts] m] eqn:E. destruct H as (_ & H & _).
  intros t Ht. apply (H t Ht). vm_compute in E. injection E as _ <- _.
  apply elem_of_cons in Ht as [->|Ht]; [reflexivity|]. apply elem_of_cons in Ht as [->|Ht]; [reflexivity|].
  by apply elem_of_nil in Ht.
Defined.

(** *** Scheduling *)

Definition idle_cpu : vcpu := Vcpu (fun _ => 0) None 0 false (Scheduling None).
Definition two_threads : sched := Sched [1; 2] false [idle_cpu; idle_cpu] ready_thread [1; 2] (Clock 10 10).
Definition no_threads : sched := Sched [] false [idle_cpu] ready_thread [] (Clock 10 10).

Lemma two_threads_initial : initial two_threads.
Proof.
  split; [apply (bool_decide_unpack _); vm_compute; done|].
  intros [|[|i]] c Hc; cbn in Hc; by simplify_eq.
Qed.

Lemma no_threads_initial : initial no_threads.
Proof. split; [apply NoDup_nil_2|]. intros [|i] c Hc; cbn in Hc; by simplify_eq. Qed.

(** Both cpus schedule: they run different threads. *)
Lemma both_scheduled :
  steps tiny two_threads (schedule tiny 1 None (schedule tiny 0 None two_threads)).
Proof.
  eapply steps_step; [eapply steps_step; [apply steps_refl|]|].
  - by eapply (step_schedule tiny two_threads 0%nat).
  - by eapply (step_schedule tiny (schedule tiny 0 None two_threads) 1%nat).
Qed.

Lemma sched_exclusive_witness :
  NoDup (ready_queue_ (schedule tiny 1 None (schedule tiny 0 None two_threads)) ++
         running (schedule tiny 1 None (schedule tiny 0 None two_threads))).
Proof. apply (sched_exclusive tiny two_threads _ two_threads_initial both_scheduled). Defined.

(** With no thread at all the cpu leaves. *)
Lemma no_threads_leave : steps tiny no_threads (schedule tiny 0 None no_threads).
Proof. eapply steps_step; [apply steps_refl|]. by eapply (step_schedule tiny no_threads 0%nat). Qed.

Lemma run_returns_witness :
  let s := schedule tiny 0 None no_threads in
  at_ (go Leaving idle_cpu) = Leaving /\ (stopped_ s = true \/ (ready_queue_ s = [] /\ running s = [])).
Proof.
  split; [reflexivity|].
  exact (proj1 (run_returns_when_done tiny no_threads _ no_threads 0%nat (go Leaving idle_cpu) no_threads_initial
    no_threads_leave eq_refl (or_introl eq_refl))).
Defined.

(** The first cpu took thread 1, ran it and was stopped: it comes back with it. *)
Definition first_taken : sched := schedule tiny 0 None two_threads.
Definition first_running : sched := on_cpu 0 (resume_cpu tiny 1 (threads first_taken 1)) first_taken.
Definition preempted : sched := on_cpu 0 (go (if finished_ (threads first_running 1) then Retiring 1 else Scheduling (Some 1))) first_running.

Lemma preempted_reached : steps tiny two_threads preempted.
Proof.
  eapply steps_step; [eapply steps_step; [eapply steps_step; [apply steps_refl|]|]|].
  - by eapply (step_schedule tiny two_threads 0%nat).
  - by eapply (step_resume tiny first_taken 0%nat).
  - by eapply (step_stop tiny first_running 0%nat).
Qed.

Lemma second_wanting : wanting 2 preempted.
Proof. split; [apply (bool_decide_unpack _); vm_compute; done|reflexivity|reflexivity]. Qed.

Definition back : vcpu := go (Scheduling (Some 1)) (resume_cpu tiny 1 (threads first_taken 1) (go (Resuming 1) (set_thread (Some 1) idle_cpu))).

(** Thread 1 could go on, but thread 2 is taken and thread 1 waits behind it; and
    the one turn that left thread 2 waiting is all there can be. *)
Lemma sched_fair_witness :
  serves 0 2 preempted (schedule tiny 0 (Some 1) preempted) /\
  (exists q, ready_queue_ (schedule tiny 0 (Some 1) preempted) = q ++ [1]) /\
  (1 + position 2 (ready_queue_ first_taken) <= position 2 (ready_queue_ two_threads))%nat.
Proof.
  destruct (sched_fair tiny two_threads preempted 2 two_threads_initial preempted_reached (wa_queued _ _ second_wanting)) as (_ & H & _).
  assert (cpus preempted !! 0%nat = Some back) as Hc by reflexivity.
  destruct (H 0%nat (schedule tiny 0 (Some 1) preempted)) as [H1 H2].
  - exact (turn_schedule tiny 0 preempted back (Some 1) Hc eq_refl).
  - exact second_wanting.
  - assert (2 ∈ ready_queue_ two_threads) as Hr by (apply (bool_decide_unpack _); vm_compute; done).
    destruct (sched_fair tiny two_threads two_threads 2 two_threads_initial (steps_refl _ _) Hr) as (_ & _ & Hb).
    split; [exact H1|]. split; [exact (proj2 (H2 back 1 Hc eq_refl))|]. apply (Hb 1%nat first_taken).
    apply (waits_turn tiny 2 two_threads 0 0%nat two_threads first_taken).
    + apply waits_start.
    + split; [exact Hr|reflexivity|reflexivity].
    + exact (turn_schedule tiny 0 two_threads idle_cpu None eq_refl eq_refl).
    + apply (bool_decide_unpack _). vm_compute. done.
Defined.

Lemma preempt_witness :
  cpus (preempt_for_waiting (schedule tiny 0 None two_threads)) !! 1%nat = Some idle_cpu.
Proof. exact (preempt_exact (schedule tiny 0 None two_threads) 1 idle_cpu eq_refl). Defined.

End SchedEx.

(** ** Events, mutexes and semaphores *)

Module SyncEx.

Import Mmu Thread ThreadThm Sched SchedThm SchedEx SyncOps SyncThm.

(** Two threads blocked on the object at 0x5000. *)
Definition world (o : kobject) : ksys :=
  KSys (fun _ => o) [waiter 1; ready_thread 2; waiter 3] (fun _ => FastMutex 8 0 0 0) 0 false.

Lemma world_waits o : only_waits 0x5000 (ts (world o)).
Proof.
  intros t w Ht Ew Ho. cbn in Ht. rewrite !elem_of_cons, elem_of_nil in Ht.
  destruct Ht as [-> | [-> | [-> | []]]]; cbn in Ew; by simplify_eq.
Qed.

(** One release of a semaphore: the first waiter goes, the second stays. *)
Lemma release_semaphore_witness :
  ts (snd (KeReleaseSemaphore (Some 0x5000) 1 (world (KObject semaphore_object 8 0 0 5)))) =
    [satisfied_thread (waiter 1); ready_thread 2; waiter 3].
Proof.
  pose proof (release_semaphore_correct 0x5000 1 (world (KObject semaphore_object 8 0 0 5)) eq_refl ltac:(cbn; lia)
    ltac:(lia) ltac:(cbn; lia) (world_waits _)) as H.
  destruct (KeReleaseSemaphore (Some 0x5000) 1 (world (KObject semaphore_object 8 0 0 5))) as [p k'].
  destruct H as (_ & _ & H). destruct (H ltac:(cbn; lia)) as (H1 & _ & _). exact H1.
Defined.

Lemma set_event_witness :
  state_at (mem (snd (KeSetEvent (Some 0x5000) (world (KObject event_synchronization_object 6 0 0 0))))) 0x5000 = 0.
Proof.
  pose proof (set_event_correct 0x5000 (world (KObject event_synchronization_object 6 0 0 0)) eq_refl (world_waits _)) as H.
  destruct (KeSetEvent (Some 0x5000) (world (KObject event_synchronization_object 6 0 0 0))) as [p k'].
  destruct H as (_ & _ & H & _). exact H.
Defined.

(** The mutex whose event is at 0x5000, held, with two threads queued. *)
Definition held : ksys := world (KObject event_synchronization_object 6 0 0 0).

Lemma held_ok : fm_ok 0x4FE8 held.
Proof.
  split; [reflexivity | by vm_compute | reflexivity | apply world_waits | by vm_compute | right; vm_compute; reflexivity].
Qed.

Lemma fast_mutex_acquire_witness :
  exists t', ts (ExAcquireFastMutex (Clock 0 0) (Some 1%nat) (Some 0x4FE8) held) = <[1%nat := t']> (ts held) /\
    blocked_on 0x5000 t' = true.
Proof.
  destruct (fast_mutex_acquire (Clock 0 0) 1%nat (ready_thread 2) 0x4FE8 held held_ok eq_refl eq_refl ltac:(vm_compute; done))
    as (_ & _ & _ & _ & H). exact H.
Defined.

Lemma fast_mutex_release_witness :
  ts (ExReleaseFastMutex (Some 0x4FE8) held) = [satisfied_thread (waiter 1); ready_thread 2; waiter 3].
Proof. destruct (fast_mutex_release 0x4FE8 held held_ok eq_refl) as (_ & H & _). exact H. Defined.

Lemma recursive_release_witness :
  state_at (mem (snd (KeReleaseMutex (Some 0x5000)
    (KSys (fun _ => KObject mutant_object 14 (-1) 0x1001 0) [] (fun _ => FastMutex 1 0 0 0) 0 false)))) 0x5000 = 0.
Proof.
  pose proof (recursive_release_orphans 0x5000
    (KSys (fun _ => KObject mutant_object 14 (-1) 0x1001 0) [] (fun _ => FastMutex 1 0 0 0) 0 false) eq_refl eq_refl eq_refl) as H.
  destruct (KeReleaseMutex _ _) as [p k']. destruct H as (_ & H & _). exact H.
Defined.

End SyncEx.

(** ** Push locks, resources and rundown protection *)

Module LocksEx.

Import Mmu Pool Locks LocksThm.

(** Two readers, a writer that has to stay out, and one release. *)
Definition mixed_use : list lock_op := [AcquireShared; AcquireShared; AcquireExclusive; Release].

Lemma push_lock_witness :
  let m' := fold_left (fun m o => perform 0x1000 o m) mixed_use (ExInitializePushLock (Some 0x1000) (fun _ => 7)) in
  lock_of (m' 0x1000) = Shared 1 /\ m' 0x1008 = 7.
Proof.
  destruct (push_lock_refines 0x1000 mixed_use (fun _ => 7)) as (H & _ & Ho); [vm_compute; reflexivity|].
  split; [rewrite H; vm_compute; reflexivity|]. apply Ho. discriminate.
Defined.

(** A thread that holds a resource shared is given it exclusively, and the resource
    still says shared: another thread then gets it as well. *)
Example upgrade_not_exclusive :
  let r := EResource (0, 0) 0 0 0 0 0 in
  let r := (take_resource 0x10 false r).2 in
  let '(got, r) := take_resource 0x10 true r in
  got = true /\ (take_resource 0x20 false r).1 = true.
Proof. vm_compute. split; reflexivity. Qed.

(** Two readers, each giving back what it took: the resource stays held. *)
Example two_readers_stuck :
  let r := EResource (0, 0) 0 0 0 0 0 in
  let r := (take_resource 0x20 false (take_resource 0x10 false r).2).2 in
  let r := release_resource (release_resource r) in
  ActiveEntries r = 1 /\ release_resource r = r /\ (take_resource 0x10 true r).1 = false.
Proof. vm_compute. split; [reflexivity|split; reflexivity]. Qed.

(** References are given out on an object that is running down, and giving one back
    forgets that it is. *)
Example acquired_while_running_down :
  let m := ExWaitForRundownProtectionRelease (Some 8) (fun _ => 0) in
  (acquire_rundown 8 m).1 = false /\ (ExAcquireRundownProtection (Some 8) m).1 = true /\
  ExReleaseRundownProtection (Some 8) m 8 = 0.
Proof. vm_compute. split; [reflexivity|split; reflexivity]. Qed.

End LocksEx.

(** ** Dispatcher objects by handle *)

Module DispatchEx.

Import Mmu Thread Sched SchedEx SyncOps SyncThm Paths Objects ObjectsThm DispatchOps DispatchThm.

Import Dispatch.

(** Three threads, no object, and the keyed event of the null handle. *)
Definition three_threads : ksys :=
  KSys (fun _ => zeroed) [ready_thread 1; ready_thread 2; ready_thread 3] (fun _ => FastMutex 0 0 0 0) 0 false.
Definition no_objects : dsys := DSys (Table ∅ 4 (Manager ∅ ∅ 4)) {[ 7 := HKeyed ∅ ]} 8 7 three_threads.

Lemma no_objects_ok : sys_ok no_objects.
Proof.
  split; [apply reachable_ok, r_start|]. intros r [h Hh]. cbn in Hh. apply lookup_singleton_Some in Hh as [<- _]. reflexivity.
Qed.
Lemma room base : body_of base <> 0 -> has_room base (tbl no_objects).
Proof. intros H. split; [exact H|]. split; reflexivity. Qed.

(** An event, made and reached. *)
Definition with_event : dsys := snd (NtCreateEvent true 0 [] 1 false 0x1000 no_objects).

Lemma nt_create_witness :
  exists s', NtCreateSemaphore true 0 [] 2 5 0x1000 no_objects = (STATUS_SUCCESS, 4, s') /\
    mem (kern s') (body_of 0x1000) = KObject semaphore_object ksemaphore_size 2 0 5.
Proof.
  destruct (nt_create no_objects 0 [] 0x1000 no_objects_ok (room 0x1000 ltac:(vm_compute; discriminate))) as (_ & H & _).
  specialize (H 2 5). rewrite bool_decide_eq_true_2 in H by lia. destruct H as (s' & E & _ & _ & _ & Eo & _). exists s'. split; [exact E|exact Eo].
Defined.

Lemma event_reached : reaches with_event 4 (body_of 0x1000) event_synchronization_object [].
Proof.
  destruct (nt_create no_objects 0 [] 0x1000 no_objects_ok (room 0x1000 ltac:(vm_compute; discriminate))) as (H & _ & _).
  destruct (H 1 false) as (s' & E & _ & _ & Hr & _). unfold with_event. rewrite E. exact Hr.
Qed.

Lemma nt_as_ke_witness :
  exists s', NtSetEvent 4 with_event = (STATUS_SUCCESS, 0, s') /\ state_at (mem (kern s')) (body_of 0x1000) = 1.
Proof.
  destruct (nt_as_ke with_event 4 _ _ _ event_reached) as (H & _ & _). destruct (H eq_refl) as (E & _).
  eexists. split; [etransitivity; [exact E|]; reflexivity|]. reflexivity.
Defined.

(** The gate of a key that was not met before, at 0x2000 and 0x3000. *)
Lemma first_use_witness : exists s', ready s' 0 99 (body_of 0x2000) (body_of 0x3000) /\ ts (kern s') = ts three_threads.
Proof.
  destruct (first_use 0 99 0x2000 0x3000 7 ∅ no_objects eq_refl eq_refl ltac:(vm_compute; discriminate) ltac:(vm_compute; discriminate)
    ltac:(vm_compute; discriminate) eq_refl eq_refl) as (s' & H & Ht & _).
  - intros i t Hi. apply list_elem_of_lookup_2 in Hi. cbn in Hi. rewrite !elem_of_cons, elem_of_nil in Hi.
    destruct Hi as [->|[->|[->|[]]]]; split; reflexivity.
  - exists s'. split; [exact H|exact Ht].
Defined.

Lemma keyed_rendezvous_witness : exists s s1 s2, ready s 0 99 (body_of 0x2000) (body_of 0x3000) /\
  NtWaitForKeyedEvent (Clock 10 10) (Some 0%nat) 0 99 None 0 0 s = (STATUS_SUCCESS, s1) /\
  NtReleaseKeyedEvent (Clock 20 20) (Some 1%nat) 0 99 None 0 0 s1 = (STATUS_SUCCESS, s2) /\
  ts (kern s2) !! 2%nat = Some (ready_thread 3).
Proof.
  destruct first_use_witness as (s & H & Ht).
  destruct (keyed_rendezvous (Clock 10 10) (Clock 20 20) 0%nat 1%nat 0 99 None None false 0 0 0 0 _ _ (ready_thread 1) (ready_thread 2) s H)
    as (s1 & s2 & E1 & E2 & M & _).
  - discriminate.
  - rewrite Ht. reflexivity.
  - rewrite Ht. reflexivity.
  - exists s, s1, s2. split; [exact H|]. split; [exact E1|]. split; [exact E2|]. rewrite (mt_others _ _ _ _ _ _ M) by discriminate. rewrite Ht. reflexivity.
Defined.

(** ** A wait that times out *)

(** The first thread waits on the key for no time at all, and is told that the
    time is over. *)
Definition timed_out : dsys :=
  let s := snd (NtWaitForKeyedEvent (Clock 10 10) (Some 0%nat) 0 99 (Some 0) 0x2000 0x3000 no_objects) in
  match ts (kern s) !! 0%nat with
  | Some t => set_kern (set_ts (<[0%nat := snd (is_ready tiny (Clock 20 20) t)]> (ts (kern s))) (kern s)) s
  | None => s
  end.

(** Its arrival stays posted: a release passes although nobody waits, where it
    should wait for the one it releases; and what it posts lets the next waiter
    pass although nobody releases it. *)
Example stale_arrival :
  (exists t, ts (kern timed_out) !! 0%nat = Some t /\ wait_ t = None /\ state_at (mem (kern timed_out)) (body_of 0x2000) = 1) /\
  let s1 := snd (NtReleaseKeyedEvent (Clock 30 30) (Some 1%nat) 0 99 None 0 0 timed_out) in
  (wait_ <$> ts (kern s1) !! 1%nat) = Some (Some (WaitState [body_of 0x2000] false 0 false true 0)) /\
  let s2 := snd (NtWaitForKeyedEvent (Clock 40 40) (Some 2%nat) 0 99 None 0 0 s1) in
  (wait_ <$> ts (kern s2) !! 2%nat) = Some (Some (WaitState [body_of 0x3000] false 0 false true 0)).
Proof.
  split; [eexists; split; [vm_compute; reflexivity|split; vm_compute; reflexivity]|]. cbv zeta. split; vm_compute; reflexivity.
Qed.

(** ** A release by a stranger *)

(** [NtReleaseMutant] takes no thread: whoever calls it, a mutant held by the
    thread at 0x1001 is free afterwards. *)
Definition owned : dsys := snd (NtCreateMutant true 0 [] true 0x1001 0x1000 no_objects).

Example stranger_releases :
  k_owner (mem (kern owned) (body_of 0x1000)) = 0x1001 /\
  let '(status, _, s) := NtReleaseMutant 4 owned in
  status = STATUS_SUCCESS /\ mem (kern s) (body_of 0x1000) = KObject mutant_object kmutant_size 1 0 0.
Proof. split; [vm_compute; reflexivity|]. split; vm_compute; reflexivity. Qed.

End DispatchEx.
