(* ===== verification/StoreExamples.v ===== *)
(** * Handles, ports of completion, registry, lists, files and their entry points at work

    Each module applies the theorems of one component to a small concrete state. *)

From Stdlib Require Ascii String.
From stdpp Require Import list gmap.
From S2P Require Import Prelude Mmu Pool Thread SyncOps Paths LinkedList LinkedListThm Objects Registry Filesystem Iocp IocpThm GuestMem StringOps StringThm StringPoolThm StringPool StringExamples RegOps RegThm Ports PortsExamples Loader LoaderThm IrpOps IoOps IoThm.
From stdpp Require Import options.

Open Scope Z_scope.
Open Scope kern_scope.

(** ** Objects and handles *)

Module ObjectsEx.

Import Paths Objects.

Definition no_objects : table := Table ∅ 4 (Manager ∅ ∅ 4).
Definition one_object : table := on_objs (fun m => (create_object 0x1000 5 None m).2) no_objects.
Definition two_handles : table := (create_handle 0x1038 0 (create_handle 0x1038 1 one_object).2).2.

Lemma two_handles_reachable : reachable two_handles.
Proof.
  apply (r_step (create_handle 0x1038 1 one_object).2); [|apply s_open; vm_compute; reflexivity].
  apply (r_step one_object); [|apply s_open; vm_compute; reflexivity].
  apply (r_step no_objects); [apply r_start|]. apply s_create. vm_compute. reflexivity.
Qed.

Lemma handle_counts_witness :
  lookup_handle 8 two_handles = Some (0x1038, 0) /\
  (forall hd, objects_ (objs_ two_handles) !! 0x1038 = Some (ObjectEntry (Some hd) None) -> HandleCount hd = 2) /\
  (create_handle 0x1038 3 two_handles).1 <> 0 /\ (close_handle 8 two_handles).1 = true.
Proof.
  assert (next_handle_ two_handles < 2 ^ 64 - 4) as Hn by (vm_compute; reflexivity).
  destruct (handle_counts two_handles two_handles_reachable Hn) as (_ & Hc & Ho & Hx).
  split; [vm_compute; reflexivity|]. split; [|split].
  - intros hd Hl. rewrite (Hc _ _ _ Hl eq_refl). vm_compute. reflexivity.
  - specialize (Ho 0x1038 3). destruct (create_handle 0x1038 3 two_handles) as [h t']. cbn [fst].
    replace (has_object 0x1038 (objs_ two_handles)) with true in Ho by (vm_compute; reflexivity). apply Ho.
  - specialize (Hx 8). destruct (close_handle 8 two_handles) as [ok t']. destruct Hx as (-> & _). vm_compute. reflexivity.
Defined.

End ObjectsEx.

(** ** A completion port with two packets posted and one taken *)

Module IocpEx.

Import Mmu Thread SyncOps Paths Objects Iocp IocpThm.

Definition fresh_sys : sys :=
  Sys (Table ∅ 4 (Manager ∅ ∅ 4)) ∅ 1 (fun _ => KQueue (0, 0) 0 0 (0, 0))
    (KSys (fun _ => KObject 0 0 0 0 0) [] (fun _ => FastMutex 0 0 0 0) 0 false).

Definition packet_of (n : Z) : packet := Packet n 0 0 0.
Definition two_posts : list op :=
  [OCreatePort true 0 [] 0 0x1000; OSet 4 (packet_of 1); OSet 4 (packet_of 2); ORemove 4].

Lemma completion_fifo_witness :
  of_port 1 (run two_posts fresh_sys).1.1 = of_port 1 (run two_posts fresh_sys).1.2 ++ packets_of 1 (run two_posts fresh_sys).2 /\
  of_port 1 (run two_posts fresh_sys).1.2 = [packet_of 1] /\ packets_of 1 (run two_posts fresh_sys).2 = [packet_of 2].
Proof.
  assert (hosts_ok fresh_sys) as Hok by (intros r [x Hx]; cbn in Hx; rewrite lookup_empty in Hx; discriminate).
  assert (forall r, packets_of r fresh_sys = []) as H0 by (intros r; unfold packets_of; cbn; rewrite lookup_empty; reflexivity).
  pose proof (completion_fifo two_posts fresh_sys Hok H0) as H.
  split; [|split; vm_compute; reflexivity]. destruct (run two_posts fresh_sys) as [[ps gs] s']. apply H.
Defined.

End IocpEx.

(** ** Keys of the registry *)

Module RegistryEx.

Import Paths Registry.

Definition empty_registry : registry := Registry ∅ ∅ 0.

Lemma empty_registry_ok : registry_ok empty_registry.
Proof.
  split; unfold empty_registry; cbn [keys_].
  - intros path p H. rewrite lookup_empty in H. by destruct H.
  - intros path r H. by rewrite lookup_empty in H.
  - intros p q r H. by rewrite lookup_empty in H.
Qed.

(** "a/b/c" *)
Definition abc : str := [97; 47; 98; 47; 99].

Lemma create_key_witness :
  open_key abc (create_key abc empty_registry).2 = Some (create_key abc empty_registry).1 /\
  enumerate_subkeys [97] (create_key abc empty_registry).2 = [[98]] /\ registry_ok (create_key abc empty_registry).2.
Proof.
  pose proof (create_key_correct abc empty_registry empty_registry_ok) as H.
  destruct (create_key abc empty_registry) as [r g] eqn:E. cbn [fst snd]. destruct H as (Hok & Ho & _).
  split; [exact Ho|]. split; [|exact Hok]. injection E as _ <-. vm_compute. reflexivity.
Defined.

(** Deleting a key does not ask whether it has subkeys: "a" goes on listing "b",
    which can no longer be opened, while "a/b/c" still can. *)
Example deleted_parent :
  let g := (delete_key [97; 47; 98] (create_key abc empty_registry).2).2 in
  enumerate_subkeys [97] g = [[98]] /\ open_key [97; 47; 98] g = None /\ key_exists abc g = true.
Proof. vm_compute. split; [reflexivity|split; reflexivity]. Qed.

End RegistryEx.

(** ** Registry entry points *)

Module RegEx.

Import Paths Objects Registry GuestMem StringOps StringThm StringPoolThm StringExamples RegOps RegThm.

(** One key, opened twice. *)
Definition a_path : str := [115; 47; 97].
Definition two_handles : rsys := RSys machine_bytes (Registry {[a_path := 0%nat]} {[0%nat := ∅]} 1)
  (Table (<[4 := (0x9038, 0)]> {[8 := (0xA038, 0)]}) 12
    (Manager (<[0x9038 := ObjectEntry (Some (Header 1 1 0)) (Some 0)]> {[0xA038 := ObjectEntry (Some (Header 1 1 0)) (Some 1)]}) ∅ 4))
  (<[0 := KeyHost 0 a_path]> {[1 := KeyHost 0 a_path]}) 2 1.

(** "Hi" is set to three bytes through one handle and read through the other into
    14 bytes: the head and two of them. *)
Lemma registry_witness :
  exists s1 m', ZwSetValueKey 4 0x6000 3 0x2000 3 two_handles = (Ok STATUS_SUCCESS, s1) /\
    ZwQueryValueKey 8 0x6000 key_value_partial_information 0x9000 14 0 s1 = (Ok STATUS_BUFFER_OVERFLOW, set_mem m' s1) /\
    answered (value_response key_value_partial_information [72; 105] (RegistryValue reg_binary [104; 105; 0])) 0x9000 14 0 machine_bytes m'.
Proof.
  destruct (registry_value_roundtrip 4 8 0x6000 [72; 105] (Descriptor 4 4 0 0x5000) (KeyHost 0 a_path) (KeyHost 0 a_path) 3 0x2000 [104; 105; 0]
    key_value_partial_information 0x9000 14 0 two_handles) as (s1 & H1 & _ & _ & _ & _ & _ & (m' & H2 & H3) & _).
  - vm_compute. reflexivity.
  - vm_compute. reflexivity.
  - reflexivity.
  - exact hi_upper.
  - lia.
  - split; [lia|]. split; [vm_compute; discriminate|]. apply holds_check. vm_compute. reflexivity.
  - vm_compute. reflexivity.
  - right. left. reflexivity.
  - lia.
  - left. reflexivity.
  - right. split; [lia|]. split; [vm_compute; discriminate|].
    assert (holds machine_bytes 0x9000 (replicate 14 0)) as Hz by (apply holds_check; vm_compute; reflexivity).
    exact (mapped_holds _ _ _ Hz).
  - exists s1, m'. split; [exact H1|]. split; [exact H2|exact H3].
Defined.

(** Without a name below it the path of RTL_REGISTRY_SERVICES keeps its slash, and
    names another key than the services themselves. *)
Example services_slash : resolve_rtl_path rtl_registry_services [] = services_prefix.
Proof. reflexivity. Qed.

End RegEx.

(** ** A list of two entries *)

Module ListEx.

Import Mmu LinkedList LinkedListThm.

(** Entries of four words, linked through the second and the third. *)
Definition one_entry : words := push_back 1 0x1000 [7; 0; 0; 9] 0x2000 (init 0x1000 (fun _ => 0)).

Lemma fits_first : fits 1 0x1000 [] 0x2000 [7; 0; 0; 9].
Proof.
  split; [cbn; lia|cbn; lia|by vm_compute|]. apply Forall_singleton. intros j Hj. cbn in Hj.
  do 4 (destruct j as [|j]; [by vm_compute|]). lia.
Qed.

Lemma one_entry_list : is_list 1 one_entry 0x1000 [0x2000].
Proof. apply (push_back_spec 1 0x1000 []); [by apply init_spec|apply fits_first]. Qed.

Lemma fits_second : fits 1 0x1000 [0x2000] 0x3000 [8; 0; 0; 10].
Proof.
  split; [cbn; lia|cbn; lia|by vm_compute|]. apply Forall_cons_2; [|apply Forall_singleton]; intros j Hj; cbn in Hj;
    do 4 (destruct j as [|j]; [by vm_compute|]); lia.
Qed.

(** The second entry is added; a walk finds both, and one is taken out. *)
Lemma linked_list_witness :
  is_list 1 (push_back 1 0x1000 [8; 0; 0; 10] 0x3000 one_entry) 0x1000 [0x2000; 0x3000] /\
  is_list 1 (LinkedList.remove 1 0x2000 one_entry) 0x1000 [] /\ LinkedList.size 1 3 0x1000 one_entry = Some 1%nat.
Proof.
  destruct (linked_list_refines 1 0x1000 one_entry [0x2000] ltac:(by vm_compute)) as [_ H].
  destruct (H one_entry_list) as (Hp & Hr & _ & Hs & _).
  split; [exact (proj1 (Hp 0x3000 [8; 0; 0; 10] fits_second))|].
  split; [exact (Hr [] 0x2000 [] eq_refl)|exact (Hs 3%nat ltac:(cbn; lia))].
Defined.

End ListEx.

(** ** A small tree of files *)

Module FilesystemEx.

Import Paths Filesystem.

(** "C:\a\B", "c:/a" and "\??\C:\a\": one file, and its directory in two spellings. *)
Definition file_path : str := [67; 58; 92; 97; 92; 66].
Definition dir_path : str := [99; 58; 47; 97].
Definition nt_dir_path : str := [92; 63; 63; 92; 67; 58; 92; 97; 92].

Definition empty_filesystem : filesystem := Filesystem ∅ ∅ ∅ (fun _ => 0%nat) 0.
Definition one_file : filesystem := write 0 [1; 2; 3] (create file_path empty_filesystem).2.

Lemma one_file_closed : dirs_closed one_file.
Proof. intros p r H. change (dirs_ one_file) with (∅ : gset str) in H. by apply not_elem_of_empty in H. Qed.

(** The name "b" under either spelling of the directory. *)
Example list_one : list_dir nt_dir_path one_file = [([98], DirEntry false 3)].
Proof. vm_compute. reflexivity. Qed.

Lemma list_dir_witness :
  ([98], DirEntry false 3) ∈ list_dir nt_dir_path one_file /\
  3 = match open file_path one_file with Some r => file_size one_file r | None => 0 end /\
  dir_exists dir_path (create_directory dir_path one_file) = true.
Proof.
  assert (([98], DirEntry false 3) ∈ list_dir nt_dir_path one_file) as Hin by (rewrite list_one; apply elem_of_cons; by left).
  destruct (list_dir_correct nt_dir_path one_file one_file_closed) as (_ & _ & H & _).
  destruct (list_dir_correct dir_path one_file one_file_closed) as (_ & _ & _ & _ & Hd & _).
  destruct (H [98] (DirEntry false 3) file_path Hin) as [_ Hs]; [vm_compute; reflexivity|].
  split; [exact Hin|]. split; [|exact Hd]. apply Hs. discriminate.
Defined.

(** Two names of one file keep each other: neither can be removed. *)
Example linked_stays :
  let fs := (link file_path dir_path one_file).2 in (Filesystem.remove file_path fs).1 = false /\ (Filesystem.remove dir_path fs).1 = false.
Proof. vm_compute. split; reflexivity. Qed.

End FilesystemEx.

(** ** A file through its entry points *)

Module IoEx.

Import Paths Objects Filesystem FilesystemEx StringOps StringExamples PortsExamples Irp Io IoThm.

(** The name at 0x9000 is "Hi", as for the port; 2 is at 0x9200. *)
Definition io_bytes : gmem := splice 0x9200 (le_bytes 8 2) port_bytes.
Definition io_kern : Pool.win_pool bump := Pool.WinPool (Bump io_bytes 0x10000) [].
Definition no_files : isys (Pool.win_pool bump) := ISys (Pool.WinPool (Bump port_bytes 0x10000) []) empty_filesystem (Table ∅ 4 (Manager ∅ ∅ 4)) ∅ 0 [].
Definition idle_guest : Z -> list Z -> isys (Pool.win_pool bump) -> isys (Pool.win_pool bump) := fun _ _ s => s.

Lemma no_files_numbered : numbered (fun _ => None) no_files.
Proof.
  split; [apply reachable_ok, r_start|done|done| |done]. intros f [x H]. cbn in H. by rewrite lookup_empty in H.
Qed.

Lemma no_files_shows : shows (fun _ => None) no_files (View (fun _ => []) (fun _ => 0)).
Proof. split; [intros f; unfold data; cbn; by rewrite lookup_empty|done]. Qed.

Lemma io_buffer a n : 0 <= a -> 0 <= n -> a + n <= 0x10000 -> buffer_at io_bytes a n.
Proof. intros. split_and!; [done|lia|]. by apply splice_mapped, zeros_mapped. Qed.

Ltac evaluate T := match type of T with context [spec ?o ?c ?v] =>
  let a := eval vm_compute in (spec o c v).1 in let E := fresh in
  assert ((spec o c v).1 = a) as E by (vm_compute; reflexivity); rewrite (surjective_pairing (spec o c v)), E in T; clear E; cbv beta iota zeta in T end.

(** A new file is written at 2 and read from its start. *)
Lemma file_transcript_witness :
  exists s1 s2 s3, NtCreateFile idle_guest 0x9300 0x9000 0x9310 file_create 0 0x40000 no_files = (Ok STATUS_SUCCESS, s1) /\
    NtWriteFile 4 0x9310 0xA000 3 0x9200 (set_kern io_kern s1) = (Ok STATUS_SUCCESS, s2) /\
    NtReadFile 4 0x9310 0xB000 16 0x9208 (set_kern io_kern s2) = (Ok STATUS_SUCCESS, s3) /\
    mem_of s3 0xB002 = Some 2 /\ mem_of s3 0xB004 = Some 42 /\ mem_of s3 0x9318 = Some 5.
Proof.
  pose proof (file_transcript idle_guest (fun _ => 0) (fun _ => None) 0x9300 0x9000 0x9310 file_create 0 0x40000 [72; 105]
    [(io_kern, Write 4 0x9310 0xA000 [2; 0; 42] 0x9200 (Some 2)); (io_kern, Read 4 0x9310 0xB000 16 0x9208 (Some 0))]
    no_files (View (fun _ => []) (fun _ => 0)) no_files_numbered no_files_shows) as H.
  assert (block_at io_bytes 0x9310) as Hb by (right; split; [lia|apply io_buffer; lia]).
  destruct H as (s1 & f & E1 & _ & O & T).
  - split; [vm_compute; discriminate|]. split; [reflexivity|vm_compute; reflexivity].
  - split; [lia|]. split; [lia|]. apply zeros_mapped; lia.
  - lia.
  - right. split; [lia|]. split; [lia|]. split; [lia|]. apply zeros_mapped; lia.
  - exact read_port_name.
  - vm_compute. reflexivity.
  - assert (f = 0%nat) as ->.
    { apply op_file in O; [|vm_compute; reflexivity].
      replace s1 with (NtCreateFile idle_guest 0x9300 0x9000 0x9310 file_create 0 0x40000 no_files).2 in O by (rewrite E1; reflexivity).
      vm_compute in O. injection O as <-. reflexivity. }
    exists s1. cbn [transcript] in T. evaluate T. destruct T as (s2 & E2 & _ & T).
    { split; [exact Hb|]. split; [split; [lia|split; [lia|split; [apply holds_check; vm_compute; reflexivity|lia]]]|].
      split; [lia|]. split; [cbn; lia|]. split; [apply holds_check; vm_compute; reflexivity|]. intros r f0 _. cbn. lia. }
    evaluate T. destruct T as (s3 & E3 & M3 & _).
    { split; [exact Hb|]. split; [split; [lia|split; [lia|split; [apply holds_check; vm_compute; reflexivity|lia]]]|].
      split; [lia|]. split; [apply io_buffer; vm_compute; discriminate|]. intros r f0 _. cbn. lia. }
    exists s2, s3. split; [exact E1|]. split; [exact E2|]. split; [exact E3|].
    split; [rewrite (M3 0xB002); vm_compute; reflexivity|]. split; [rewrite (M3 0xB004); vm_compute; reflexivity|].
    rewrite (M3 0x9318). vm_compute. reflexivity.
Defined.

End IoEx.

(** ** Two drivers that import each other *)

Module LoaderEx.
Import Stdlib.Strings.String.StringSyntax Mmu Paths Objects Filesystem GuestMem Loader LoaderThm.

(** An image of 32 bytes that says which it is in the first: base 0x10000, a pointer
    to relocate at 8, ImageBase at 16, one import at 24.  The second imports from the
    first by way of a forwarder, back to itself. *)
Definition driver_a : list Z := 1 :: replicate 31 0.
Definition driver_b : list Z := 2 :: replicate 31 0.
Definition is_first (l : list Z) : bool := match l with c :: _ => c =? 1 | [] => false end.
Definition toy_sections : list section := [Section_ 4 28 0 0 true false (text ".data"%string)].

#[local] Instance toy : PeLib := {|
  dos_header_size := 1;
  dos_ok _ := true;
  size_of_image l := Z.of_nat (length l);
  size_of_headers _ := 32;
  base_addr _ := 0x10000;
  entry_point _ := 4;
  sections _ := toy_sections;
  exports_dir _ := None;
  export_table_of _ := ExportTable 0 0 0;
  security_cookie _ := 0;
  dir64_relocs _ := [8];
  base_field_rva _ := 16;
  pe_exports l := if is_first l then [Export (text "Start"%string) 4 None; Export (text "Other"%string) 0 (Some (text "B.Work"%string))] else [Export (text "Work"%string) 5 None];
  pe_imports l := if is_first l then [Import_ (text "b.dll"%string) (ByName (text "Work"%string)) 24] else [Import_ (text "A.sys"%string) (ByName (text "Other"%string)) 24]
|}.

(** Blocks from 0x40000000 on, as long as nothing is there. *)
Definition free_at (n : Z) (m : gmem) (a : Z) : bool := forallb (fun i => match m (a + Z.of_nat i) with None => true | Some _ => false end) (seq 0 (Z.to_nat n)).
Definition toy_alloc (n : Z) (k : gmem * Z) : result Z * (gmem * Z) :=
  let '(m, a) := k in
  if (0 <? a) && (a + n <=? 2 ^ 64) && free_at n m a then (Ok a, (fun x => if (a <=? x) && (x <? a + n) then Some 0 else m x, a + 0x1000)) else (Ok 0, k).

#[local] Instance toy_space : ImageSpace (gmem * Z) := {|
  is_mem k := k.1; is_set m k := (m, k.2); is_alloc n _ := toy_alloc n; is_prot _ _ _ := ret tt; module_add_cb _ := ret tt
|}.

Lemma toy_alloc_ok n k a k' : toy_alloc n k = (Ok a, k') -> keeps (fun _ => False) k.1 k'.1 /\
  (a <> 0 -> 0 < a /\ a + n <= 2 ^ 64 /\ forall x, a <= x < a + n -> is_Some (k'.1 x) /\ k.1 x = None /\ ~ False).
Proof.
  destruct k as [m next]. unfold toy_alloc. destruct (_ && _) eqn:E; [|intros [= <- <-]; split; [by intros x b _|done]]. intros [= <- <-]. cbn [fst].
  apply andb_true_iff in E as [E Hf]. apply andb_true_iff in E as [E1 E2]. apply Z.ltb_lt in E1. apply Z.leb_le in E2.
  assert (forall x, next <= x < next + n -> m x = None) as Hnone.
  { intros x Hx. unfold free_at in Hf. rewrite forallb_forall in Hf. specialize (Hf (Z.to_nat (x - next))). rewrite Z2Nat.id in Hf by lia. replace (next + (x - next)) with x in Hf by lia.
    destruct (m x); [|done]. discriminate Hf. apply in_seq. lia. }
  split.
  - intros x b _ Hx. destruct (decide (next <= x < next + n)) as [Hin|]; [by rewrite Hnone in Hx|]. destruct (Z.leb_spec next x), (Z.ltb_spec x (next + n)); cbn; [lia|done..].
  - intros _. split; [done|]. split; [done|]. intros x Hx. rewrite (proj2 (Z.leb_le _ _)), (proj2 (Z.ltb_lt _ _)) by lia. cbn. auto.
Qed.

#[local] Instance toy_laws : ImageSpaceLaws (gmem * Z).
Proof.
  refine {| is_private := fun _ => False |}; cbn.
  - done.
  - by intros [m a].
  - intros n flags k a k'. apply toy_alloc_ok.
  - intros a n flags k k' [= <-]. by intros x b _.
  - intros m k k' [= <-]. by intros x b _.
  - intros n flags [m a]. unfold toy_alloc. by destruct (_ && _).
  - done.
  - done.
Defined.

Definition disk : filesystem :=
  (write 1 driver_b (create (text "C:\Windows\System32\drivers\B.dll"%string) (write 0 driver_a (create (text "C:\Windows\System32\A.SYS"%string) (Filesystem ∅ ∅ ∅ (fun _ => 0%nat) 0)).2)).2).
Definition no_modules : process (gmem * Z) := Process (fun _ => None, 0x40000000) ∅ [].

Lemma disk_ok : files_ok disk.
Proof.
  apply files_in_order. intros img Hi Hn. assert (img = [] \/ img = driver_a \/ img = driver_b) as [->|Hd].
  { assert (file_images disk = [[]; driver_b; driver_a]) as Ef by (vm_compute; reflexivity). rewrite Ef in Hi. rewrite !elem_of_cons, elem_of_nil in Hi. tauto. }
  { done. }
  split; [done|done|..]; destruct Hd as [-> | ->]; cbn; unfold inside; cbn; repeat constructor; lia.
Qed.

(** Each is loaded once, and each has the address of the same routine. *)
Lemma load_module_witness :
  match load_module map_to_list disk 4 (text "a.sys"%string) true no_modules with
  | (Ok (Some m), s') => complete no_modules s' /\ base.size (modules_ s') = 2%nat /\
      fst (read_mem (addr m + 24) 8 (mem_of s')) = Ok (le_bytes 8 0x40001005)
  | _ => False
  end.
Proof.
  assert (base.size (all_names disk no_modules) < 4)%nat as Hf by (vm_compute; lia).
  pose proof (load_module_complete map_to_list (fun _ => ltac:(done)) disk disk_ok 4 (text "a.sys"%string) true no_modules Hf eq_refl) as H. unfold wp in H.
  assert (match load_module map_to_list disk 4 (text "a.sys"%string) true no_modules with
    | (Ok (Some m), s') => (base.size (modules_ s'), fst (read_mem (addr m + 24) 8 (mem_of s'))) | _ => (0%nat, Ok []) end = (2%nat, Ok (le_bytes 8 0x40001005))) as Hv by (vm_compute; reflexivity).
  destruct (load_module _ _ _ _ _ _) as [[[m|]|e] s']; [|done..]. destruct H as [_ H]. destruct (H m eq_refl) as [_ Hc]. injection Hv as Hs Hr. by split.
Defined.

(** Without the second driver the first is refused, but it stays in the list: asked for
    again, it is there, with nothing in its import slot. *)
Definition half_a_disk : filesystem := write 0 driver_a (create (text "C:\Windows\System32\A.SYS"%string) (Filesystem ∅ ∅ ∅ (fun _ => 0%nat) 0)).2.
Lemma refused_but_listed :
  match load_module map_to_list half_a_disk 4 (text "a.sys"%string) true no_modules with
  | (Ok None, s') =>
      match find_or_load (load_module map_to_list half_a_disk 4) (text "A.SYS"%string) true s' with
      | (Ok (Some m), s'') => fst (read_mem (addr m + 24) 8 (mem_of s'')) = Ok (replicate 8 0)
      | _ => False
      end
  | _ => False
  end.
Proof.
  assert (match load_module map_to_list half_a_disk 4 (text "a.sys"%string) true no_modules with
    | (Ok None, s') => match find_or_load (load_module map_to_list half_a_disk 4) (text "A.SYS"%string) true s' with
        | (Ok (Some m), s'') => fst (read_mem (addr m + 24) 8 (mem_of s'')) | _ => Ok [] end
    | _ => Ok [] end = Ok (replicate 8 0)) as H by (vm_compute; reflexivity).
  destruct (load_module _ _ _ _ _ _) as [[[m|]|e] s']; [done| |done]. by destruct (find_or_load _ _ _ _) as [[[m|]|e] s''].
Qed.
End LoaderEx.
